(* ===== verification/_CoqProject ===== *)
-Q . S2P
Prelude.v
Lagrange.v
Gf256.v
Shamir.v
Rs1024.v
PyString.v
Aes.v
AesProps.v
AesCtr.v
Restic.v
BitReader.v
Fse.v
FseProps.v
FseRead.v
Huffman.v
WeightProps.v
HuffmanProps.v
Sequences.v
SequenceProps.v
Zstd.v
ZstdProps.v
PyText.v
Wordlist.v
Share.v
Feistel.v
Slip39.v
Codec.v
Cards.v
Json.v
Effects.v
Ddl.v
DdlProps.v
Schema.v
SchemaProps.v
MigrationProps.v
Posix.v
Sqlite.v
Repository.v
Blobs.v
RepositoryProps.v
BlobProps.v
Restore.v
RestoreProps.v
Restorer.v
Demo.v
RestoreLinks.v
RestoreInside.v
Catalog.v
VolumeEvents.v
Queries.v
Volumes.v
Labels.v
VolumeCopies.v
Packs.v
Locations.v
ArchiveProps.v
PackProps.v
BinPack.v
Planner.v
Merger.v
Escrow.v
Rebuild.v
RebuildProps.v
RebuildOrigin.v
RebuildSpec.v
RebuildFaults.v
BinPlan.v
BurnFrame.v
Burn.v
BurnProps.v
BurnSafe.v
BurnDemo.v
StageFrame.v
Stage.v
StageProps.v
StageSafe.v
Reclaim.v
StageDemo.v
CatalogOps.v
