(* ===== verification/Prelude.v ===== *)
(** * LCSAS: a verification development

    LCSAS archives a restic repository on optical discs, keeps a catalog of which pack file
    is on which disc, prints the repository's password as SLIP-0039 share cards, and ends
    with a reader in plain Python that restores files when nothing else runs any more.
    This library models the parts of it that compute or decide something, as executable
    functions over explicit state, and proves what those parts promise.  Paths below are
    relative to src/src/lcsas/.

    ** Conventions

    A function that may raise returns [res]; [Err] carries the class of the exception, and
    messages and log lines are not modelled.  Integers are [Z]; where the code relies on a
    width it masks, and so does the model.  Bytes are lists of [Z] below 256.  A method that
    changes its object is a function from the state to a result and a state, in either case
    ([db] of Sqlite, [eff] of Effects), so that what an exception leaves behind is visible.
    Texts are ASCII except where a file says otherwise.  What the program takes from outside
    its repository (SHA-256, HMAC, PBKDF2, scrypt, JSON and base64 parsing, the clock, the
    random source) is an argument, with what is relied on as hypotheses.

    ** Parts, and the files that model them

    Shared: Prelude (results, sequences, integers), PyString and PyText ([str]), Json
    (exception classes and documents), Effects (computations with exceptions and the rules
    for them), Posix (paths and a file system with links and
    inodes), Sqlite (connections, transactions, savepoints, rows).

    Share cards.  keyshare/slip39.py is Gf256 and Shamir (the field and interpolation, over
    Lagrange), Rs1024 (the checksum), Share (one share and its words), Feistel (the
    passphrase) and Slip39 (groups, splitting and combining); keyshare/wordlist.py is
    Wordlist, keyshare/codec.py Codec, keyshare/cards.py and meta/keyshare_combine.py Cards,
    with the exit status of the rescue disc's program.  Proved: any sufficient choice of
    shares gives the secret back and fewer are refused, every input ends in a result or
    [KeyShareError], a mistyped word is detected, text and share correspond one to one, and
    cards lead back to the password.

    Catalog.  Ddl is what SQLite does with a schema (tables, renames, columns, indices,
    transactions and the disk), Schema is db/schema.py on top of it: creation, the
    migrations of versions 2 to 10 and the check on opening, with DdlProps, SchemaProps and
    MigrationProps.  Proved: a migration that is cut off anywhere can be resumed to the same
    end, no row is lost, and two catalogs it fails on or leaves unusable.
    Catalog has the tables of db/schema.py and db/models.py as rows with their
    constraints; Volumes, VolumeEvents, VolumeCopies, Packs, Locations are the modules of
    db/ of these names, Escrow is db/snapshots.py and db/key_escrow.py, Queries is
    db/queries.py, Labels utils/labels.py.  CatalogOps
    collects every operation that writes into one transition system: the constraints are an
    invariant of every reachable catalog, rollbacks and crashes included.  Proved per
    module: which status changes are possible and that the last replica of a pack is never
    given up, what retiring and adding discs change, that the drift check of recorded
    password splits is exact, and in ArchiveProps and PackProps that
    summaries, pick lists and mirror scans account for every pack.
    Rebuild is db/rebuild.py, which merges the catalogs found on discs into a new one, with
    RebuildProps, RebuildOrigin, RebuildSpec and RebuildFaults: what the merged catalog has of each source
    and why, that a volume's status is that of the freshest source, that nothing is in it that no
    source had (RebuildOrigin), that the order of the sources does not matter where their
    keys agree, and two sets of discs on which a source is lost.

    Planning.  BinPack is binpack/algorithm.py with the media of config/media.py, Planner
    restore/planner.py, Merger consolidate/merger.py: packs are placed once and within
    capacity, a plan accounts for every pack, a merge can be aborted without a trace.

    Staging.  BinPlan is what [stage] and [prepare] of burn/orchestrator.py decide before
    they write (which packs, on how many volumes, with how much space); Stage is the staging
    itself, over a class, [Stager], of what it asks of the staging tree and the programs that
    make an image; Reclaim is the removal of a session ([clean_session], [abort_session],
    [abort_volume], [abort]).  StageFrame and StageProps follow what each step commits,
    StageSafe has the theorems and StageDemo a simulated bench.  Proved: the plan holds every
    pack once, within capacity and twice the least number of volumes; a volume is staged as a
    whole or not at all, whatever fails; a session that is staged and burned with passed checks
    archives all that was planned; an abort takes back what was staged and never a disc.

    Burning.  Burn is [burn_session] of burn/orchestrator.py over a class, [Machine], of what
    it asks of the drive, the operator, the files and the clock, any of which may fail at any
    time.  BurnFrame what each
    catalog operation of a burn changes, BurnProps the outcomes of a disc and of a session,
    BurnSafe the theorems, BurnDemo a simulated drive.  Proved: what is committed is always
    a sequence of outcomes of discs; only a disc that was read back with the hash of its
    image makes a volume verified, unless the drive was to be skipped; with a drive that
    takes blank discs and an operator who puts one in when asked, the session is completed;
    and an interrupted burn blocks its session.

    The last-resort reader, from the bottom.  restore/_aes_pure.py is Aes, with FIPS 197 at
    its end, AesProps and AesCtr.  restore/_zstd_pure.py is BitReader, Fse, Huffman,
    Sequences and Zstd, with FseProps, FseRead, WeightProps, HuffmanProps,
    SequenceProps and ZstdProps.  restore/restic_fallback.py is Restic (authenticated
    decryption), Repository (keys, index, snapshots), Blobs (pack search, prompts, blobs, the
    count of files), Restore (the traversal of a tree) and Restorer ([restore] as a whole),
    with RepositoryProps, BlobProps, RestoreProps, RestoreInside and
    RestoreLinks, and a small repository in Demo that the theorems are applied to.  Proved:
    AES is the standard's and CTR its own inverse; XXH64 is the specification's; exactly
    sealed data is decrypted; tables of the decoder are complete and its loops end or, where they do not, a frame that shows
    it; a damaged key file never hides a good one, the index is what its documents say,
    content that is returned has the hash it was asked for, and what is stored is read back;
    a tolerant restore refines a reference description of the stored tree, with everything
    that can be read given back and everything else recorded, and without links and nodes
    named ".." changes nothing outside its target; with them, two trees that do.

    ** Bounds and fuel

    Recursion that is not structural takes fuel.  Where the code's loop is bounded by its
    data the fuel is computed from it and a lemma shows that it is enough (PyText, Restic,
    Share, the bit readers, sequences and blocks of zstd, [mkdir]).  [weight_fuel] of Huffman
    and [count_fuel] of Restorer are arguments: [OutOfFuel] is then a loop that goes on, for
    the first with the theorem of WeightProps that says when it ends and the frame of
    ZstdProps on which it does not, for the second with the theorem of BlobProps that it
    always ends.  [depth] of Restore is Python's recursion limit, whose end is
    [RecursionError] in the code too.  40 links are followed in a path, as the kernel does.

    ** Not modelled, and why

    Programs that are run (xorriso, dvdisaster, rustic), devices and mounts: iso/, ecc/,
    staging/, restore/executor.py.  What staging asks of them are operations of a class that
    may return anything or raise; of burn/, [execute] (the path for a single volume), the
    format check of a repository and the verification on a second device.  Argument parsing,
    prompts and printing: cli/ (but for the text of a share card, in Cards), log.py.
    Building the rescue disc, which copies files: meta/ except keyshare_combine.py.  File
    locks of the database, its journal and the content of its indices; an interrupt within a
    statement on the catalog.  Of the reader, the text of prompts with the catalog lookup
    behind it, [repo_info], decompression by the [zstandard] package where it is installed
    (the vendored decoder is modelled), and of the file system what Posix lists: limits on
    names, permissions, a full disk. *)

From stdpp Require Export base list strings sets gmap sorting.
From Stdlib Require Export ZArith Lia.

Declare Scope py_scope.
Delimit Scope py_scope with py.
#[global] Open Scope Z_scope.

(** ** Exceptions and results

    A Python function that may raise is a function into [res]: [Ok] carries the
    returned value and [Err] the class of the exception.  The message of an
    exception is not modelled. *)

Inductive exn : Type :=
  | KeyShareError | ZstdError | IntegrityError | KeyFileCorruptError
  | NoKeyUnlockedError
  | ValueError | IndexError | KeyError | OverflowError | RuntimeError
  | TypeError | FileNotFoundError | SqliteIntegrityError | StopIteration
  | OSError | MemoryError | AttributeError | JSONDecodeError | RecursionError | NodeFailed
  | SqliteOperationalError | SqliteDatabaseError | SchemaVersionError | WedgedMigrationError
  | AssertionError | PermissionError | PackCorruptionError | RestoreError | FormatDriftError
  | CalledProcessError | EOFError | KeyboardInterrupt | MissingPacksError | CorruptPacksError
  | EscrowDriftError | RepoMarkerError | MirrorUnavailableError
  | OutOfFuel.

#[export] Instance exn_eq_dec : EqDecision exn.
Proof. solve_decision. Defined.

Inductive res (A : Type) : Type :=
  | Ok (a : A)
  | Err (e : exn).
Arguments Ok {A} _.
Arguments Err {A} _.

#[export] Instance res_ret : MRet res := @Ok.
#[export] Instance res_bind : MBind res := fun A B f m =>
  match m with Ok a => f a | Err e => Err e end.
#[export] Instance res_fmap : FMap res := fun A B f m =>
  match m with Ok a => Ok (f a) | Err e => Err e end.

#[export] Instance res_eq_dec {A} `{EqDecision A} : EqDecision (res A).
Proof. solve_decision. Defined.

Definition is_ok {A} (r : res A) : bool :=
  match r with Ok _ => true | Err _ => false end.

(** [raise_if b e] is [if b: raise e]. *)
Definition raise_if (b : bool) (e : exn) : res unit :=
  if b then Err e else Ok tt.

(** [of_option e o] turns a missing value into the exception [e]. *)
Definition of_option {A} (e : exn) (o : option A) : res A :=
  match o with Some a => Ok a | None => Err e end.

(** [try: r except from: raise to] *)
Definition reraise {A} (from to : exn) (r : res A) : res A :=
  match r with
  | Ok a => Ok a
  | Err e => if decide (e = from) then Err to else Err e
  end.

(** A [for] loop whose body may raise. *)
Fixpoint foldM {A S} (f : S -> A -> res S) (s : S) (l : list A) : res S :=
  match l with
  | [] => Ok s
  | x :: l => s' ← f s x; foldM f s' l
  end.

(** A list comprehension whose element expression may raise. *)
Fixpoint mapM_res {A B} (f : A -> res B) (l : list A) : res (list B) :=
  match l with
  | [] => Ok []
  | x :: l => y ← f x; ys ← mapM_res f l; Ok (y :: ys)
  end.

Lemma bind_Ok {A B} (a : A) (f : A -> res B) : (x ← Ok a; f x) = f a.
Proof. reflexivity. Qed.

Lemma bind_Ok_inv {A B} (m : res A) (f : A -> res B) b :
  (x ← m; f x) = Ok b -> exists a, m = Ok a /\ f a = Ok b.
Proof. destruct m as [a|e]; simpl; [eauto | discriminate]. Qed.

Lemma raise_if_Ok b e u : raise_if b e = Ok u <-> b = false.
Proof. destruct u, b; simpl; split; congruence. Qed.

(** Peels the binds of a hypothesis [m = Ok b] one by one. *)
Ltac inv_bind H :=
  repeat match type of H with
  | mbind _ _ = Ok _ =>
      let x := fresh "x" in let E := fresh "E" in
      apply bind_Ok_inv in H as [x [E H]]; simpl in E
  end.

(** ** Python sequences

    A list, tuple, [bytes] or [bytearray] is a [list]; an index is a [Z], and a
    negative one counts from the end. *)

Abbreviation len l := (Z.of_nat (length l)) (only parsing).

Definition norm_index (n i : Z) : Z := if i <? 0 then i + n else i.

(** [l[i]] *)
Definition py_get {A} (l : list A) (i : Z) : res A :=
  let j := norm_index (len l) i in
  if j <? 0 then Err IndexError else of_option IndexError (l !! Z.to_nat j).

(** [l[i] = x] *)
Definition py_set {A} (l : list A) (i : Z) (x : A) : res (list A) :=
  let j := norm_index (len l) i in
  if (j <? 0) || (len l <=? j) then Err IndexError
  else Ok (<[Z.to_nat j := x]> l).

(** The clamped bound of a slice. *)
Definition slice_bound (n i : Z) : Z :=
  if i <? 0 then Z.max 0 (i + n) else Z.min i n.

(** [l[a:]], [l[:b]] and [l[a:b]] *)
Definition slice_from {A} (l : list A) (a : Z) : list A :=
  drop (Z.to_nat (slice_bound (len l) a)) l.
Definition slice_to {A} (l : list A) (b : Z) : list A :=
  take (Z.to_nat (slice_bound (len l) b)) l.
Definition slice {A} (l : list A) (a b : Z) : list A :=
  let a' := slice_bound (len l) a in
  let b' := slice_bound (len l) b in
  take (Z.to_nat (b' - a')) (drop (Z.to_nat a') l).

Arguments py_get : simpl never.
Arguments py_set : simpl never.
Arguments slice_from : simpl never.
Arguments slice_to : simpl never.
Arguments slice : simpl never.

Section slices.
Context {A : Type}.
Implicit Types l : list A.

Lemma slice_from_app l1 l2 a : a = len l1 -> slice_from (l1 ++ l2) a = l2.
Proof.
  intros ->. unfold slice_from, slice_bound.
  destruct (Z.ltb_spec (len l1) 0); [lia|].
  rewrite length_app, Nat2Z.inj_add, Z.min_l by lia.
  rewrite Nat2Z.id. apply drop_app_length.
Qed.

Lemma slice_to_app l1 l2 a : a = len l1 -> slice_to (l1 ++ l2) a = l1.
Proof.
  intros ->. unfold slice_to, slice_bound.
  destruct (Z.ltb_spec (len l1) 0); [lia|].
  rewrite length_app, Nat2Z.inj_add, Z.min_l by lia.
  rewrite Nat2Z.id. apply take_app_length.
Qed.

Lemma slice_app l1 l2 l3 a b :
  a = len l1 -> b = a + len l2 -> slice (l1 ++ l2 ++ l3) a b = l2.
Proof.
  intros -> ->. unfold slice, slice_bound.
  rewrite !length_app, !Nat2Z.inj_add.
  destruct (Z.ltb_spec (len l1) 0); [lia|].
  destruct (Z.ltb_spec (len l1 + len l2) 0); [lia|].
  rewrite !Z.min_l by lia.
  rewrite Nat2Z.id, drop_app_length.
  replace (Z.to_nat _) with (length l2) by lia. apply take_app_length.
Qed.

Lemma slice_from_nonneg l a : 0 <= a -> slice_from l a = drop (Z.to_nat a) l.
Proof.
  intros Ha. unfold slice_from, slice_bound.
  destruct (Z.ltb_spec a 0); [lia|].
  destruct (Z.le_gt_cases a (len l)).
  - by rewrite Z.min_l.
  - rewrite Z.min_r by lia. rewrite !drop_ge by lia. done.
Qed.

Lemma slice_to_nonneg l a : 0 <= a -> slice_to l a = take (Z.to_nat a) l.
Proof.
  intros Ha. unfold slice_to, slice_bound.
  destruct (Z.ltb_spec a 0); [lia|].
  destruct (Z.le_gt_cases a (len l)).
  - by rewrite Z.min_l.
  - rewrite Z.min_r by lia. rewrite !take_ge by lia. done.
Qed.

Lemma slice_nonneg l a b :
  0 <= a -> a <= b -> slice l a b = take (Z.to_nat (b - a)) (drop (Z.to_nat a) l).
Proof.
  intros Ha Hb. unfold slice, slice_bound.
  destruct (Z.ltb_spec a 0); [lia|]. destruct (Z.ltb_spec b 0); [lia|].
  destruct (Z.le_gt_cases a (len l)).
  - rewrite (Z.min_l a) by lia. destruct (Z.le_gt_cases b (len l)).
    + by rewrite Z.min_l.
    + rewrite Z.min_r by lia.
      rewrite !take_ge by (rewrite length_drop; lia). done.
  - rewrite !Z.min_r by lia. rewrite !drop_ge by lia. by rewrite !take_nil.
Qed.

Lemma slice_out l a b : len l <= a -> a <= b -> slice l a b = [].
Proof. intros. rewrite slice_nonneg, drop_ge, take_nil by lia. done. Qed.

Lemma length_slice_le l a b : 0 <= a -> a <= b -> len (slice l a b) <= b - a.
Proof. intros. rewrite slice_nonneg, length_take by lia. lia. Qed.

Lemma length_slice l a b :
  0 <= a -> a <= b -> b <= len l -> len (slice l a b) = b - a.
Proof. intros. rewrite slice_nonneg, length_take, length_drop by lia. lia. Qed.
End slices.

Section indexing.
Context {A : Type}.
Implicit Types l : list A.

Lemma py_get_nonneg l i :
  0 <= i -> py_get l i = of_option IndexError (l !! Z.to_nat i).
Proof.
  intros. unfold py_get, norm_index. destruct (Z.ltb_spec i 0); [lia|].
  destruct (Z.ltb_spec i 0); [lia|done].
Qed.

Lemma py_get_Some l i x :
  0 <= i -> l !! Z.to_nat i = Some x -> py_get l i = Ok x.
Proof. intros ? H. rewrite py_get_nonneg by done. by rewrite H. Qed.

Lemma py_get_nat l (i : nat) x : l !! i = Some x -> py_get l (Z.of_nat i) = Ok x.
Proof. intros H. apply py_get_Some; [lia|]. by rewrite Nat2Z.id. Qed.

Lemma py_get_in_range l i :
  0 <= i < len l -> exists x, l !! Z.to_nat i = Some x /\ py_get l i = Ok x.
Proof.
  intros [H0 H1]. destruct (lookup_lt_is_Some_2 l (Z.to_nat i)) as [x Hx]; [lia|].
  exists x. eauto using py_get_Some.
Qed.

Lemma py_get_out l i : len l <= i -> py_get l i = Err IndexError.
Proof.
  intros. rewrite py_get_nonneg by lia. rewrite lookup_ge_None_2 by lia. done.
Qed.

Lemma py_get_Ok_inv l i x :
  0 <= i -> py_get l i = Ok x -> l !! Z.to_nat i = Some x /\ i < len l.
Proof.
  intros Hi. rewrite py_get_nonneg by done.
  destruct (l !! Z.to_nat i) eqn:E; simpl; [|done].
  intros [= ->]. apply lookup_lt_Some in E as ?. split; [done|lia].
Qed.

Lemma py_get_snoc l x : py_get (l ++ [x]) (-1) = Ok x.
Proof.
  unfold py_get, norm_index. rewrite length_app. cbn [length Z.ltb Z.compare].
  destruct (Z.ltb_spec (-1 + Z.of_nat (length l + 1)) 0); [lia|].
  rewrite lookup_app_r by lia. by replace (Z.to_nat _ - length l)%nat with 0%nat by lia.
Qed.

Lemma py_set_nat l (i : nat) x : (i < length l)%nat -> py_set l (Z.of_nat i) x = Ok (<[i := x]> l).
Proof.
  intros H. unfold py_set, norm_index. destruct (Z.ltb_spec (Z.of_nat i) 0); [lia|].
  destruct (Z.ltb_spec (Z.of_nat i) 0); [lia|]. destruct (Z.leb_spec (len l) (Z.of_nat i)); [lia|].
  cbn. by rewrite Nat2Z.id.
Qed.

Lemma py_set_in_range l i x :
  0 <= i < len l -> py_set l i x = Ok (<[Z.to_nat i := x]> l).
Proof.
  intros [H0 H1]. unfold py_set, norm_index.
  destruct (Z.ltb_spec i 0); [lia|]. destruct (Z.ltb_spec i 0); [lia|].
  destruct (Z.leb_spec (len l) i); [lia|done].
Qed.
End indexing.

(** ** Bytes and integers *)

Abbreviation bytes := (list Z) (only parsing).
Definition is_byte (b : Z) : Prop := 0 <= b < 256.
#[export] Instance is_byte_dec b : Decision (is_byte b).
Proof. unfold is_byte. apply _. Defined.
Abbreviation bytes_ok := (Forall is_byte).

(** [n.bit_length()] *)
Definition bit_length (n : Z) : Z := if n =? 0 then 0 else Z.log2 (Z.abs n) + 1.

(** Positional values in a base [B], most significant digit first. *)
Definition be_val (B : Z) (l : list Z) : Z := foldl (fun v d => v * B + d) 0 l.
Fixpoint be_digits (B : Z) (n : nat) (v : Z) : list Z :=
  match n with
  | O => []
  | S n => (v / B ^ Z.of_nat n) `mod` B :: be_digits B n v
  end.
(** Least significant digit first. *)
Fixpoint le_val (B : Z) (l : list Z) : Z :=
  match l with [] => 0 | d :: l => d + B * le_val B l end.

(** [int.from_bytes(l, "big")], [int.from_bytes(l, "little")] and
    [v.to_bytes(n, "big")]. *)
Definition int_from_be (l : bytes) : Z := be_val 256 l.
Definition int_from_le (l : bytes) : Z := le_val 256 l.
(** [v.to_bytes(n, "big")], for a length [n] that is not negative. *)
Definition int_to_be (v n : Z) : res bytes :=
  if (v <? 0) || (256 ^ n <=? v) then Err OverflowError
  else Ok (be_digits 256 (Z.to_nat n) v).
Definition int_to_le (v n : Z) : res bytes :=
  l ← int_to_be v n; Ok (reverse l).

Section positional.
Context (B : Z) (HB : 1 < B).

Lemma foldl_be_val l v : foldl (fun v d => v * B + d) v l = v * B ^ len l + be_val B l.
Proof.
  unfold be_val. revert v. induction l as [|d l IH]; intros v; simpl.
  - lia.
  - rewrite (IH (v * B + d)), (IH (0 * B + d)). rewrite Nat2Z.inj_succ, Z.pow_succ_r by lia. lia.
Qed.

Lemma be_val_cons d l : be_val B (d :: l) = d * B ^ len l + be_val B l.
Proof. unfold be_val at 1. simpl. by rewrite foldl_be_val. Qed.

Lemma be_val_app l1 l2 : be_val B (l1 ++ l2) = be_val B l1 * B ^ len l2 + be_val B l2.
Proof. unfold be_val at 1. rewrite foldl_app. apply foldl_be_val. Qed.

Lemma pow_B_pos n : 0 < B ^ Z.of_nat n.
Proof using HB. apply Z.pow_pos_nonneg; lia. Qed.

Lemma be_val_bound l :
  Forall (fun d => 0 <= d < B) l -> 0 <= be_val B l < B ^ len l.
Proof using HB.
  induction 1 as [|d l Hd _ IH]; [change (0 <= 0 < B ^ 0); lia|].
  rewrite be_val_cons. cbn [length]. rewrite Nat2Z.inj_succ, Z.pow_succ_r by lia. nia.
Qed.

Lemma length_be_digits n v : length (be_digits B n v) = n.
Proof. induction n; simpl; auto. Qed.

Lemma be_digits_bound n v : Forall (fun d => 0 <= d < B) (be_digits B n v).
Proof using HB.
  induction n; simpl; constructor; auto. apply Z.mod_pos_bound. lia.
Qed.

Lemma be_val_digits_mod n v : be_val B (be_digits B n v) = v `mod` B ^ Z.of_nat n.
Proof using HB.
  induction n as [|n IH]; simpl be_digits; [by rewrite Z.mod_1_r|].
  rewrite be_val_cons, IH, length_be_digits, Nat2Z.inj_succ, Z.pow_succ_r by lia.
  rewrite (Z.mul_comm B), Z.rem_mul_r by (pose proof (pow_B_pos n); lia). lia.
Qed.

Lemma be_val_digits n v : 0 <= v < B ^ Z.of_nat n -> be_val B (be_digits B n v) = v.
Proof using HB. intros. rewrite be_val_digits_mod. by apply Z.mod_small. Qed.

Lemma be_digits_add n v w :
  be_digits B n (w * B ^ Z.of_nat n + v) = be_digits B n v.
Proof using HB.
  revert w. induction n as [|n IH]; intros w; simpl; [done|].
  pose proof (pow_B_pos n).
  rewrite Nat2Z.inj_succ, Z.pow_succ_r by lia. f_equal.
  - replace (w * (B * B ^ Z.of_nat n)) with (w * B * B ^ Z.of_nat n) by lia.
    rewrite Z.div_add_l by lia. rewrite Z.add_comm. by rewrite Z.mod_add by lia.
  - replace (w * (B * B ^ Z.of_nat n)) with (w * B * B ^ Z.of_nat n) by lia. apply IH.
Qed.

Lemma be_digits_val l :
  Forall (fun d => 0 <= d < B) l -> be_digits B (length l) (be_val B l) = l.
Proof using HB.
  induction 1 as [|d l Hd Hl IH]; [done|].
  rewrite be_val_cons. cbn [length be_digits]. rewrite be_digits_add, IH. f_equal.
  pose proof (pow_B_pos (length l)). pose proof (be_val_bound l Hl).
  rewrite Z.div_add_l, Z.div_small, Z.add_0_r by lia. by apply Z.mod_small.
Qed.

Lemma be_val_inj l1 l2 :
  Forall (fun d => 0 <= d < B) l1 -> Forall (fun d => 0 <= d < B) l2 ->
  length l1 = length l2 -> be_val B l1 = be_val B l2 -> l1 = l2.
Proof using HB.
  intros H1 H2 Hlen Hv.
  rewrite <- (be_digits_val l1 H1), <- (be_digits_val l2 H2), Hlen, Hv. done.
Qed.

Lemma le_val_reverse l : le_val B (reverse l) = be_val B l.
Proof.
  induction l as [|d l IH] using rev_ind; [done|].
  rewrite reverse_snoc, be_val_app. cbn [le_val]. rewrite IH.
  change (be_val B [d]) with (0 * B + d). change (len [d]) with 1. lia.
Qed.

Lemma le_val_be_val l : le_val B l = be_val B (reverse l).
Proof. by rewrite <- le_val_reverse, reverse_involutive. Qed.

Lemma le_val_bound l :
  Forall (fun d => 0 <= d < B) l -> 0 <= le_val B l < B ^ len l.
Proof using HB.
  intros H. rewrite le_val_be_val, <- (length_reverse l). apply be_val_bound.
  by apply Forall_reverse.
Qed.
End positional.

(** ** Exhaustive checks over a range of integers *)

Lemma forallb_seqZ f m n :
  forallb f (seqZ m n) = true -> forall a, m <= a < m + n -> f a = true.
Proof.
  intros H a Ha. rewrite forallb_forall in H. apply H.
  apply list_elem_of_In, elem_of_seqZ. lia.
Qed.

Lemma forallb2_seqZ f m n m' n' :
  forallb (fun a => forallb (f a) (seqZ m' n')) (seqZ m n) = true ->
  forall a b, m <= a < m + n -> m' <= b < m' + n' -> f a b = true.
Proof.
  intros H a b Ha Hb. apply (forallb_seqZ _ _ _ (forallb_seqZ _ _ _ H a Ha) b Hb).
Qed.

(** ** Bit operations stay in range *)

Lemma testbit_bound n a i : 0 <= a < 2 ^ n -> 0 <= n <= i -> Z.testbit a i = false.
Proof.
  intros Ha Hi. rewrite <- (Z.mod_small a (2 ^ n)) by done.
  apply Z.mod_pow2_bits_high. lia.
Qed.

Lemma bound_of_testbit n a :
  0 <= n -> 0 <= a -> (forall i, n <= i -> Z.testbit a i = false) -> a < 2 ^ n.
Proof.
  intros Hn Ha H. destruct (Z.eq_dec a 0) as [->|]; [by apply Z.pow_pos_nonneg|].
  apply Z.log2_lt_pow2; [lia|]. destruct (Z.lt_ge_cases (Z.log2 a) n); [done|].
  assert (Z.testbit a (Z.log2 a) = true) by (apply Z.bit_log2; lia).
  rewrite H in * by done. done.
Qed.

Lemma lxor_bound n a b :
  0 <= n -> 0 <= a < 2 ^ n -> 0 <= b < 2 ^ n -> 0 <= Z.lxor a b < 2 ^ n.
Proof.
  intros Hn Ha Hb. assert (0 <= Z.lxor a b) by (apply Z.lxor_nonneg; lia).
  split; [done|]. apply bound_of_testbit; [done..|]. intros i Hi.
  rewrite Z.lxor_spec, (testbit_bound n a), (testbit_bound n b) by lia. done.
Qed.

Lemma lor_bound n a b :
  0 <= n -> 0 <= a < 2 ^ n -> 0 <= b < 2 ^ n -> 0 <= Z.lor a b < 2 ^ n.
Proof.
  intros Hn Ha Hb. assert (0 <= Z.lor a b) by (apply Z.lor_nonneg; lia).
  split; [done|]. apply bound_of_testbit; [done..|]. intros i Hi.
  rewrite Z.lor_spec, (testbit_bound n a), (testbit_bound n b) by lia. done.
Qed.

Lemma land_ones_bound n a : 0 <= n -> 0 <= Z.land a (2 ^ n - 1) < 2 ^ n.
Proof.
  intros. replace (2 ^ n - 1) with (Z.ones n) by (rewrite Z.ones_equiv; lia).
  rewrite Z.land_ones by done. apply Z.mod_pos_bound. by apply Z.pow_pos_nonneg.
Qed.

Lemma lxor_byte a b : is_byte a -> is_byte b -> is_byte (Z.lxor a b).
Proof. intros. by apply (lxor_bound 8). Qed.

(** [lxor] is associative, commutative and self-inverse. *)
Lemma lxor_cancel a b : Z.lxor (Z.lxor a b) b = a.
Proof. by rewrite Z.lxor_assoc, Z.lxor_nilpotent, Z.lxor_0_r. Qed.

(** ** More on results and lists *)

Lemma mapM_res_Ok {A B} (f : A -> res B) (g : A -> B) l :
  (forall x, x ∈ l -> f x = Ok (g x)) -> mapM_res f l = Ok (g <$> l).
Proof.
  induction l as [|x l IH]; intros H; csimpl; [done|].
  rewrite (H x) by set_solver. simpl. rewrite IH by set_solver. done.
Qed.

Lemma mapM_res_Forall2 {A B} (f : A -> res B) (l : list A) :
  (forall a, a ∈ l -> exists b, f a = Ok b) ->
  exists l', mapM_res f l = Ok l' /\ Forall2 (fun a b => f a = Ok b) l l'.
Proof.
  induction l as [|a l IH]; intros H; [exists []; by split|].
  destruct (H a) as [b Hb]; [left|]. destruct IH as (l' & Hl' & HF); [set_solver|].
  exists (b :: l'). cbn [mapM_res]. rewrite Hb, bind_Ok, Hl'. split; [done|by constructor].
Qed.

Lemma mapM_res_length {A B} (f : A -> res B) l l' :
  mapM_res f l = Ok l' -> length l' = length l.
Proof.
  revert l'. induction l as [|x l IH]; intros l'; simpl.
  - by intros [= <-].
  - destruct (f x) as [y|]; simpl; [|done].
    destruct (mapM_res f l) as [ys|]; simpl; [|done].
    intros [= <-]. simpl. f_equal. by apply IH.
Qed.

Lemma mapM_res_lookup {A B} (f : A -> res B) l l' i x :
  mapM_res f l = Ok l' -> l !! i = Some x -> exists y, l' !! i = Some y /\ f x = Ok y.
Proof.
  revert l' i. induction l as [|z l IH]; intros l' i; simpl; [done|].
  destruct (f z) as [y|] eqn:E; simpl; [|done].
  destruct (mapM_res f l) as [ys|]; simpl; [|done].
  intros [= <-]. destruct i as [|i]; simpl; [|by apply IH].
  intros [= <-]. eauto.
Qed.

Lemma foldM_app {A S} (f : S -> A -> res S) s l1 l2 :
  foldM f s (l1 ++ l2) = (s' ← foldM f s l1; foldM f s' l2).
Proof.
  revert s. induction l1 as [|x l1 IH]; intros s; simpl; [done|].
  destruct (f s x); simpl; [apply IH|done].
Qed.

(** [zip(l1, l2, strict=True)] *)
Definition zip_strict {A B} (l1 : list A) (l2 : list B) : res (list (A * B)) :=
  if decide (length l1 = length l2) then Ok (zip l1 l2) else Err ValueError.

Lemma zip_fmap_same {A B C} (f : A -> B) (g : A -> C) l :
  zip (f <$> l) (g <$> l) = (fun x => (f x, g x)) <$> l.
Proof. induction l; csimpl; by f_equal. Qed.

Definition sumZ (l : list Z) : Z := foldr Z.add 0 l.
Lemma sumZ_app l1 l2 : sumZ (l1 ++ l2) = sumZ l1 + sumZ l2.
Proof. unfold sumZ. induction l1; simpl; lia. Qed.
#[export] Instance sumZ_proper : Proper ((≡ₚ) ==> eq) sumZ.
Proof. unfold sumZ. induction 1; simpl; lia. Qed.

(** The members of a set comprehension are as many as the list's exactly
    when the list has no duplicates. *)
Section set_of_list.
Context `{Countable A}.
Implicit Types l : list A.

Lemma size_list_to_set_cons_le x l :
  (size (list_to_set (x :: l) : gset A) <= S (size (list_to_set l : gset A)))%nat.
Proof.
  simpl. rewrite size_union_alt, size_singleton.
  assert (size ((list_to_set l : gset A) ∖ {[x]}) <= size (list_to_set l : gset A))%nat
    by (apply subseteq_size; set_solver). lia.
Qed.

Lemma size_list_to_set_le l : (size (list_to_set l : gset A) <= length l)%nat.
Proof.
  induction l as [|x l IH]; [done|].
  pose proof (size_list_to_set_cons_le x l). simpl in *. lia.
Qed.

Lemma size_list_to_set_NoDup l :
  size (list_to_set l : gset A) = length l <-> NoDup l.
Proof.
  split; [|intros; by apply size_list_to_set].
  induction l as [|x l IH]; [constructor|]. intros Hs.
  pose proof (size_list_to_set_cons_le x l). pose proof (size_list_to_set_le l).
  simpl in *. constructor; [|apply IH; lia]. intros Hin.
  rewrite subseteq_union_1_L in Hs by (apply singleton_subseteq_l, elem_of_list_to_set, Hin).
  lia.
Qed.
End set_of_list.

(** ** Shifts, masks and the arithmetic they stand for *)

Lemma land_shiftl_low n a b : 0 <= n -> 0 <= b < 2 ^ n -> Z.land (Z.shiftl a n) b = 0.
Proof.
  intros Hn Hb. apply Z.bits_inj'. intros i Hi. rewrite Z.land_spec, Z.bits_0.
  destruct (Z.lt_ge_cases i n).
  - by rewrite Z.shiftl_spec_low.
  - rewrite (testbit_bound n b) by lia. apply andb_false_r.
Qed.

Lemma lxor_shiftl_add n a b :
  0 <= n -> 0 <= b < 2 ^ n -> Z.lxor (Z.shiftl a n) b = a * 2 ^ n + b.
Proof.
  intros Hn Hb. rewrite <- Z.shiftl_mul_pow2 by done. symmetry.
  by apply Z.add_nocarry_lxor, land_shiftl_low.
Qed.

Lemma lor_shiftl_add n a b :
  0 <= n -> 0 <= b < 2 ^ n -> Z.lor (Z.shiftl a n) b = a * 2 ^ n + b.
Proof.
  intros Hn Hb. rewrite <- lxor_shiftl_add, Z.lxor_lor by (done || by apply land_shiftl_low).
  done.
Qed.

Lemma land_mask n a : 0 <= n -> Z.land a (2 ^ n - 1) = a `mod` 2 ^ n.
Proof.
  intros. replace (2 ^ n - 1) with (Z.ones n) by (rewrite Z.ones_equiv; lia).
  by apply Z.land_ones.
Qed.

Lemma land_1_eqb b i : 0 <= i -> (Z.land (Z.shiftr b i) 1 =? 0) = negb (Z.testbit b i).
Proof.
  intros Hi. rewrite (land_mask 1), Z.shiftr_div_pow2 by done.
  change (2 ^ 1) with 2. rewrite <- Z.testbit_spec' by done. by destruct (Z.testbit b i).
Qed.

(** ** What a fallible computation ensures

    [ensures P E r]: the result [r] is a value satisfying [P] or an exception
    satisfying [E]; the rules below follow the code. *)

Definition ensures {A} (P : A -> Prop) (E : exn -> Prop) (r : res A) : Prop :=
  match r with Ok a => P a | Err e => E e end.

Section ensures.
Context {A B S : Type} (E : exn -> Prop).

Lemma ensures_bind (P : A -> Prop) (Q : B -> Prop) m (f : A -> res B) :
  ensures P E m -> (forall a, m = Ok a -> P a -> ensures Q E (f a)) -> ensures Q E (m ≫= f).
Proof. destruct m; cbn; eauto. Qed.
Lemma ensures_weaken (P Q : A -> Prop) (E' : exn -> Prop) m :
  ensures P E' m -> (forall a, P a -> Q a) -> (forall e, E' e -> E e) -> ensures Q E m.
Proof. destruct m; cbn; auto. Qed.
Lemma ensures_Ok (P : A -> Prop) a : P a -> ensures P E (Ok a).
Proof. done. Qed.
Lemma ensures_raise_if b e : (b = true -> E e) -> ensures (fun _ => b = false) E (raise_if b e).
Proof. destruct b; cbn; auto. Qed.
Lemma ensures_py_get (P : A -> Prop) l i :
  0 <= i < len l -> Forall P l -> ensures P E (py_get l i).
Proof.
  intros Hi HP. destruct (py_get_in_range l i Hi) as (x & Hx & ->).
  rewrite Forall_lookup in HP. cbn. eauto.
Qed.
Lemma ensures_mapM (P : B -> Prop) (f : A -> res B) l :
  (forall a, a ∈ l -> ensures P E (f a)) ->
  ensures (fun l' => Forall P l' /\ length l' = length l) E (mapM_res f l).
Proof.
  induction l as [|a l IH]; intros H; [by split; [constructor|]|]. cbn [mapM_res].
  pose proof (H a (list_elem_of_here _ _)) as Ha. destruct (f a) as [b|e]; cbn in *; [|done].
  assert (ensures (fun l' => Forall P l' /\ length l' = length l) E (mapM_res f l)) as Hl.
  { apply IH. intros a' Ha'. apply H. by right. }
  destruct (mapM_res f l) as [l'|e]; cbn in *; [|done]. destruct Hl as [? Hlen].
  split; [by constructor|]. cbn. by rewrite Hlen.
Qed.
Lemma ensures_foldM (Inv : S -> Prop) (f : S -> A -> res S) s l :
  Inv s -> (forall s a, a ∈ l -> Inv s -> ensures Inv E (f s a)) ->
  ensures Inv E (foldM f s l).
Proof.
  revert s. induction l as [|a l IH]; intros s Hs H; [done|]. cbn [foldM].
  pose proof (H s a (list_elem_of_here _ _) Hs) as Ha. destruct (f s a) as [s'|e]; cbn in *; [|done].
  apply IH; [done|]. intros s'' a' Ha'. apply H. by right.
Qed.
End ensures.
