(* ===== verification/Lagrange.v ===== *)
(** * Lagrange interpolation over a field

    Polynomials are coefficient lists, low degree first.  The section is
    generic in the field; [Gf256] instantiates it at the Rijndael field that
    [keyshare/slip39.py] computes in, and [Shamir] uses [interp_unique]: through
    [k] points with distinct abscissae there is one polynomial of degree below
    [k], so interpolating any [k] shares gives the same value everywhere. *)

From Stdlib Require Import Field.
From S2P Require Import Prelude.

(** The operations of a field, with its laws: the interface the
    interpolation is proved against. *)
Record FieldOps := {
  fcar :> Type;
  f0 : fcar; f1 : fcar;
  fadd : fcar -> fcar -> fcar; fmul : fcar -> fcar -> fcar;
  fsub : fcar -> fcar -> fcar; fopp : fcar -> fcar;
  fdiv : fcar -> fcar -> fcar; finv : fcar -> fcar;
  flaws : field_theory f0 f1 fadd fmul fsub fopp fdiv finv eq;
  feq_dec : EqDecision fcar;
}.
#[export] Existing Instance feq_dec.
Arguments f0 {_}. Arguments f1 {_}. Arguments fadd {_}. Arguments fmul {_}.
Arguments fsub {_}. Arguments fopp {_}. Arguments fdiv {_}. Arguments finv {_}.

Section lagrange.
Context {F : FieldOps}.
Local Notation "0" := (@f0 F). Local Notation "1" := (@f1 F).
Local Infix "+" := (@fadd F). Local Infix "*" := (@fmul F).
Local Infix "-" := (@fsub F). Local Infix "/" := (@fdiv F).
Add Field generic_field : (@flaws F).

Definition peval (p : list F) (x : F) : F := foldr (fun a v => a + x * v) 0 p.

Fixpoint padd (p q : list F) : list F :=
  match p, q with
  | [], q => q
  | p, [] => p
  | a :: p, b :: q => (a + b) :: padd p q
  end.
Definition pscale (c : F) (p : list F) : list F := (fun a => c * a) <$> p.
(** [p * (X - c)] *)
Definition pmul_lin (p : list F) (c : F) : list F := padd (0 :: p) (pscale (fopp c) p).

Lemma peval_padd p q x : peval (padd p q) x = peval p x + peval q x.
Proof.
  revert q. induction p as [|a p IH]; intros [|b q]; simpl; try ring.
  rewrite IH. ring.
Qed.
Lemma peval_pscale c p x : peval (pscale c p) x = c * peval p x.
Proof. induction p as [|a p IH]; simpl; [|rewrite IH]; ring. Qed.
Lemma peval_pmul_lin p c x : peval (pmul_lin p c) x = (x - c) * peval p x.
Proof. unfold pmul_lin. rewrite peval_padd, peval_pscale. simpl. ring. Qed.

Lemma length_padd p q : length (padd p q) = (length p `max` length q)%nat.
Proof.
  revert q. induction p as [|a p IH]; intros [|b q]; simpl; auto with lia.
Qed.
Lemma length_pmul_lin p c : length (pmul_lin p c) = S (length p).
Proof.
  unfold pmul_lin, pscale. rewrite length_padd, length_fmap. simpl. lia.
Qed.

(** Synthetic division by [X - r]. *)
Fixpoint pdiv (p : list F) (r : F) : list F :=
  match p with
  | [] => []
  | a :: p => peval p r :: pdiv p r
  end.

Lemma peval_pdiv p r x : peval p x = (x - r) * peval (removelast (pdiv p r)) x + peval p r.
Proof.
  induction p as [|a p IH]; simpl; [ring|].
  destruct p as [|b p]; simpl in *; [ring|].
  rewrite IH. ring.
Qed.
Lemma length_pdiv p r : length (removelast (pdiv p r)) = pred (length p).
Proof.
  induction p as [|a p IH]; [done|]. destruct p as [|b p]; [done|].
  cbn [pdiv removelast length] in *. rewrite IH. simpl. lia.
Qed.

Lemma fmul_eq_0 (a b : F) : a * b = 0 -> a <> 0 -> b = 0.
Proof.
  intros H Ha. transitivity (finv a * (a * b)); [|rewrite H; ring].
  field. done.
Qed.
Lemma fsub_eq (a b : F) : a - b = 0 -> a = b.
Proof. intros H. transitivity ((a - b) + b); [ring|]. rewrite H. ring. Qed.

(** A polynomial with as many distinct roots as coefficients is zero. *)
Lemma proots p rs :
  NoDup rs -> (length p <= length rs)%nat ->
  (forall r, r ∈ rs -> peval p r = 0) -> forall x, peval p x = 0.
Proof.
  revert p. induction rs as [|r rs IH]; intros p Hnd Hlen Hr x.
  { destruct p; [done|simpl in Hlen; lia]. }
  apply NoDup_cons in Hnd as [Hnin Hnd].
  rewrite (peval_pdiv p r), (Hr r) by set_solver.
  assert (peval (removelast (pdiv p r)) x = 0) as ->; [|ring].
  apply IH; [done|rewrite length_pdiv; simpl in Hlen; lia|].
  intros s Hs. apply (fmul_eq_0 (s - r)).
  - pose proof (Hr s ltac:(set_solver)) as H0.
    rewrite (peval_pdiv p r), (Hr r) in H0 by set_solver.
    rewrite <- H0. ring.
  - intros ->%fsub_eq. done.
Qed.

(** [f] is given by a polynomial with at most [k] coefficients. *)
Definition on_poly (k : nat) (f : F -> F) : Prop :=
  exists p, (length p <= k)%nat /\ forall x, peval p x = f x.

Lemma on_poly_eq k f g xs :
  on_poly k f -> on_poly k g -> NoDup xs -> (k <= length xs)%nat ->
  (forall x, x ∈ xs -> f x = g x) -> forall x, f x = g x.
Proof.
  intros (p & Hp & Hf) (q & Hq & Hg) Hnd Hlen Heq x.
  apply fsub_eq. rewrite <- Hf, <- Hg.
  transitivity (peval (padd p (pscale (fopp 1) q)) x).
  { rewrite peval_padd, peval_pscale. ring. }
  apply (proots _ xs); [done| |].
  - unfold pscale. rewrite length_padd, length_fmap. lia.
  - intros r Hr. rewrite peval_padd, peval_pscale, Hf, Hg, Heq by done. ring.
Qed.

(** ** The interpolant *)

Definition fprod (l : list F) : F := foldr (@fmul F) 1 l.
Definition fsum (l : list F) : F := foldr (@fadd F) 0 l.

(** [numer xs xi x] is the product of the [x - xj], [xj <> xi]. *)
Definition numer (xs : list F) (xi x : F) : F :=
  fprod ((fun xj => if decide (xi = xj) then 1 else x - xj) <$> xs).
Definition basis (xs : list F) (xi x : F) : F := numer xs xi x / numer xs xi xi.
Definition interp (pts : list (F * F)) (x : F) : F :=
  fsum ((fun '(xi, yi) => yi * basis (fst <$> pts) xi x) <$> pts).

Lemma numer_poly xs xi :
  exists p, (length p <= S (length xs) - (if decide (xi ∈ xs) then 1 else 0))%nat /\
    forall x, peval p x = numer xs xi x.
Proof.
  induction xs as [|xj xs (p & Hp & He)].
  { exists [1]. split; [csimpl; lia|]. intros x. unfold numer. csimpl. ring. }
  unfold numer in *. csimpl. destruct (decide (xi = xj)) as [<-|Hne].
  - exists p. split; [|intros x; rewrite He; ring].
    rewrite decide_True by set_solver.
    destruct (decide (xi ∈ xs)); csimpl; lia.
  - exists (pmul_lin p xj). split.
    + rewrite length_pmul_lin.
      destruct (decide (xi ∈ xs)).
      * rewrite decide_True by set_solver. lia.
      * rewrite decide_False by (rewrite elem_of_cons; tauto). lia.
    + intros x. by rewrite peval_pmul_lin, He.
Qed.

Lemma numer_self_nonzero xs xi : numer xs xi xi <> 0.
Proof.
  unfold numer. induction xs as [|xj xs IH]; csimpl; [apply (F_1_neq_0 (flaws F))|].
  intros H. apply IH. apply (fmul_eq_0 _ _ H).
  destruct (decide (xi = xj)); [apply (F_1_neq_0 (flaws F))|].
  intros ?%fsub_eq. done.
Qed.

Lemma numer_other xs xi xj : xj ∈ xs -> xi <> xj -> numer xs xi xj = 0.
Proof.
  unfold numer. induction 1 as [y l|y z l Hin IH]; intros Hne; csimpl.
  - rewrite decide_False by done. ring.
  - rewrite IH by done. ring.
Qed.

Lemma on_poly_sum (l : list (F * F)) (g : F -> F -> F) k :
  (forall pt, pt ∈ l -> on_poly k (g pt.1)) ->
  on_poly k (fun x => fsum ((fun '(xi, yi) => yi * g xi x) <$> l)).
Proof.
  intros H. induction l as [|[xi yi] l IH].
  { exists []. split; [csimpl; lia|done]. }
  destruct IH as (p & Hp & Hpe); [set_solver|].
  destruct (H (xi, yi)) as (q & Hq & Hqe); [set_solver|]. csimpl in *.
  exists (padd (pscale yi q) p). split.
  - unfold pscale. rewrite length_padd, length_fmap. lia.
  - intros x. rewrite peval_padd, peval_pscale, Hpe, Hqe. done.
Qed.

Lemma on_poly_interp pts : on_poly (length pts) (interp pts).
Proof.
  apply on_poly_sum. intros [xi yi] Hin. csimpl.
  destruct (numer_poly (fst <$> pts) xi) as (p & Hp & He).
  rewrite decide_True in Hp by (apply list_elem_of_fmap; exists (xi, yi); done).
  rewrite length_fmap in Hp.
  exists (pscale (finv (numer (fst <$> pts) xi xi)) p). split.
  - unfold pscale. rewrite length_fmap. lia.
  - intros x. rewrite peval_pscale, He. unfold basis.
    field. apply numer_self_nonzero.
Qed.

Lemma basis_self xs xi : basis xs xi xi = 1.
Proof. unfold basis. field. apply numer_self_nonzero. Qed.
Lemma basis_other xs xi xj : xj ∈ xs -> xi <> xj -> basis xs xi xj = 0.
Proof.
  intros. unfold basis. rewrite numer_other by done.
  field. apply numer_self_nonzero.
Qed.

Lemma interp_at_other xs (l : list (F * F)) xi :
  xi ∈ xs -> xi ∉ fst <$> l ->
  fsum ((fun '(xj, yj) => yj * basis xs xj xi) <$> l) = 0.
Proof.
  intros Hxi. induction l as [|[xj yj] l IH]; csimpl; [done|].
  intros [Hne Hnin]%not_elem_of_cons. rewrite IH, basis_other by done. ring.
Qed.

Lemma interp_at_sum xs (l : list (F * F)) xi yi :
  NoDup (fst <$> l) -> xi ∈ xs -> (xi, yi) ∈ l ->
  fsum ((fun '(xj, yj) => yj * basis xs xj xi) <$> l) = yi.
Proof.
  intros Hnd Hxi Hin. induction l as [|[xj yj] l IH]; [by apply elem_of_nil in Hin|].
  csimpl in *. apply NoDup_cons in Hnd as [Hnin Hnd].
  apply elem_of_cons in Hin as [[= -> ->]|Hin].
  - rewrite interp_at_other, basis_self by done. ring.
  - rewrite IH, basis_other by (try done; intros ->; apply Hnin;
      apply list_elem_of_fmap; by exists (xi, yi)). ring.
Qed.

(** The interpolant passes through its points. *)
Lemma interp_at pts xi yi :
  NoDup (fst <$> pts) -> (xi, yi) ∈ pts -> interp pts xi = yi.
Proof.
  intros Hnd Hin. apply interp_at_sum; [done| |done].
  apply list_elem_of_fmap. by exists (xi, yi).
Qed.

(** Interpolating [k] points of a polynomial with at most [k] coefficients
    gives that polynomial everywhere. *)
Lemma interp_unique k f pts :
  on_poly k f -> NoDup (fst <$> pts) -> (k <= length pts)%nat ->
  (forall xi yi, (xi, yi) ∈ pts -> yi = f xi) ->
  forall x, interp pts x = f x.
Proof.
  intros (p & Hp & Hf) Hnd Hlen Hpts.
  apply (on_poly_eq (length pts) _ _ (fst <$> pts)).
  - apply on_poly_interp.
  - exists p. split; [lia|done].
  - done.
  - by rewrite length_fmap.
  - intros x [[xi yi] [-> Hin]]%list_elem_of_fmap. csimpl.
    by rewrite (interp_at pts xi yi), (Hpts xi yi).
Qed.
End lagrange.
