(* ===== verification/Gf256.v ===== *)
(** * The Rijndael field GF(256), as [keyshare/slip39.py] computes in it

    The exponential and logarithm tables are built by the source's loop;
    multiplication, division and their laws follow from them. *)

From Stdlib Require Import Field.
From S2P Require Import Prelude Lagrange.

(** ** The tables *)

(** One turn of the loop of [_precompute_exp_log]. *)
Definition exp_log_step (s : list Z * list Z * Z) (i : Z) : res (list Z * list Z * Z) :=
  let '(exp, log, poly) := s in
  exp ← py_set exp i poly;
  log ← py_set log poly i;
  let poly := Z.lxor (Z.shiftl poly 1) poly in
  let poly := if Z.land poly 0x100 =? 0 then poly else Z.lxor poly 0x11B in
  Ok (exp, log, poly).

Definition _precompute_exp_log : res (list Z * list Z) :=
  '(exp, log, _) ← foldM exp_log_step (replicate 255 0, replicate 256 0, 1) (seqZ 0 255);
  Ok (exp, log).

Definition _EXP_TABLE : list Z :=
  Eval vm_compute in match _precompute_exp_log with Ok (e, _) => e | Err _ => [] end.
Definition _LOG_TABLE : list Z :=
  Eval vm_compute in match _precompute_exp_log with Ok (_, l) => l | Err _ => [] end.

Lemma precompute_tables : _precompute_exp_log = Ok (_EXP_TABLE, _LOG_TABLE).
Proof. vm_compute. reflexivity. Qed.

(** ** Field operations on bytes *)

Definition gexp (i : Z) : Z := nth (Z.to_nat i) _EXP_TABLE 0.
Definition glog (a : Z) : Z := nth (Z.to_nat a) _LOG_TABLE 0.

Definition gmul (a b : Z) : Z :=
  if (a =? 0) || (b =? 0) then 0 else gexp ((glog a + glog b) `mod` 255).
Definition ginv (a : Z) : Z := if a =? 0 then 0 else gexp ((- glog a) `mod` 255).

Lemma length_EXP_TABLE : len _EXP_TABLE = 255. Proof. done. Qed.
Lemma length_LOG_TABLE : len _LOG_TABLE = 256. Proof. done. Qed.

Lemma get_EXP_TABLE i : 0 <= i < 255 -> py_get _EXP_TABLE i = Ok (gexp i).
Proof.
  intros Hi. destruct (py_get_in_range _EXP_TABLE i) as (x & Hx & ->); [done|].
  unfold gexp. by rewrite (nth_lookup_Some _ _ _ _ Hx).
Qed.
Lemma get_LOG_TABLE a : is_byte a -> py_get _LOG_TABLE a = Ok (glog a).
Proof.
  intros Ha. destruct (py_get_in_range _LOG_TABLE a) as (x & Hx & ->); [done|].
  unfold glog. by rewrite (nth_lookup_Some _ _ _ _ Hx).
Qed.

(** Checks a boolean property of all bytes, or all pairs, by evaluation. *)
Ltac check_bytes :=
  match goal with
  | |- forall a, is_byte a -> @?P a => apply (forallb_seqZ _ 0 256)
  | |- _ => apply (forallb2_seqZ _ 0 256 0 256)
  end; vm_compute; reflexivity.

Lemma glog_range a : is_byte a -> 0 <= glog a < 255.
Proof.
  intros Ha.
  enough ((0 <=? glog a) && (glog a <? 255) = true) by lia.
  revert a Ha. check_bytes.
Qed.
Lemma gexp_range i : 0 <= i < 255 -> 1 <= gexp i < 256.
Proof.
  intros Hi.
  enough ((1 <=? gexp i) && (gexp i <? 256) = true) by lia.
  revert i Hi. apply (forallb_seqZ _ 0 255). vm_compute. reflexivity.
Qed.
Lemma glog_gexp i : 0 <= i < 255 -> glog (gexp i) = i.
Proof.
  intros Hi. enough ((glog (gexp i) =? i) = true) by lia.
  revert i Hi. apply (forallb_seqZ _ 0 255). vm_compute. reflexivity.
Qed.
Lemma gexp_glog a : is_byte a -> a <> 0 -> gexp (glog a) = a.
Proof.
  intros Ha. enough (((a =? 0) || (gexp (glog a) =? a)) = true) by lia.
  revert a Ha. check_bytes.
Qed.
Lemma glog_0 : glog 0 = 0. Proof. reflexivity. Qed.
Lemma glog_1 : glog 1 = 0. Proof. reflexivity. Qed.

Lemma gexp_byte i : 0 <= i < 255 -> is_byte (gexp i) /\ gexp i <> 0.
Proof. intros ?%gexp_range. unfold is_byte. lia. Qed.
Lemma gexp_mod_byte i : is_byte (gexp (i `mod` 255)) /\ gexp (i `mod` 255) <> 0.
Proof. apply gexp_byte, Z.mod_pos_bound. lia. Qed.

Lemma gmul_byte a b : is_byte (gmul a b).
Proof.
  unfold gmul. destruct (_ || _); [done|]. apply gexp_mod_byte.
Qed.
Lemma ginv_byte a : is_byte (ginv a).
Proof. unfold ginv. destruct (_ =? _); [done|]. apply gexp_mod_byte. Qed.

Lemma gmul_comm a b : gmul a b = gmul b a.
Proof. unfold gmul. by rewrite orb_comm, Z.add_comm. Qed.
Lemma gmul_0_l b : gmul 0 b = 0. Proof. done. Qed.
Lemma gmul_0_r a : gmul a 0 = 0. Proof. by rewrite gmul_comm. Qed.

Lemma gmul_nz a b :
  a <> 0 -> b <> 0 -> gmul a b = gexp ((glog a + glog b) `mod` 255).
Proof.
  intros. unfold gmul. by rewrite (proj2 (Z.eqb_neq a 0)), (proj2 (Z.eqb_neq b 0)).
Qed.
Lemma gmul_gexp i j : gmul (gexp (i `mod` 255)) (gexp (j `mod` 255)) = gexp ((i + j) `mod` 255).
Proof.
  destruct (gexp_mod_byte i), (gexp_mod_byte j).
  rewrite gmul_nz, !glog_gexp by (try done; apply Z.mod_pos_bound; lia).
  by rewrite <- Zplus_mod.
Qed.
Lemma gexp_glog_mod a : is_byte a -> a <> 0 -> gexp (glog a `mod` 255) = a.
Proof. intros. rewrite Z.mod_small by (by apply glog_range). by apply gexp_glog. Qed.

Lemma gmul_assoc a b c :
  is_byte a -> is_byte b -> is_byte c -> gmul a (gmul b c) = gmul (gmul a b) c.
Proof.
  intros Ha Hb Hc.
  destruct (decide (a = 0)) as [->|]; [done|].
  destruct (decide (b = 0)) as [->|]; [by rewrite !gmul_0_l, !gmul_0_r, gmul_0_l|].
  destruct (decide (c = 0)) as [->|]; [by rewrite !gmul_0_r|].
  rewrite <- (gexp_glog_mod a), <- (gexp_glog_mod b), <- (gexp_glog_mod c) by done.
  rewrite !gmul_gexp. by rewrite Z.add_assoc.
Qed.

Lemma gmul_1_l a : is_byte a -> gmul 1 a = a.
Proof.
  intros. destruct (decide (a = 0)) as [->|]; [done|].
  rewrite gmul_nz, glog_1 by done. by apply gexp_glog_mod.
Qed.

Lemma ginv_l a : is_byte a -> a <> 0 -> gmul (ginv a) a = 1.
Proof.
  intros Ha Hne. unfold ginv. rewrite (proj2 (Z.eqb_neq a 0)) by done.
  rewrite <- (gexp_glog_mod a) at 2 by done. rewrite gmul_gexp.
  by rewrite Z.add_opp_diag_l.
Qed.

(** Multiplication by the generator [x + 1] is linear, hence so is
    multiplication by each of its powers. *)
Definition gen_mul (a : Z) : Z :=
  let p := Z.lxor (Z.shiftl a 1) a in Z.lxor p (if Z.testbit p 8 then 0x11B else 0).
Lemma gmul_gen a : is_byte a -> gmul 3 a = gen_mul a.
Proof.
  intros Ha. enough ((gmul 3 a =? gen_mul a) = true) by lia. revert a Ha. check_bytes.
Qed.
Lemma gen_mul_lxor a b : gen_mul (Z.lxor a b) = Z.lxor (gen_mul a) (gen_mul b).
Proof.
  unfold gen_mul. rewrite Z.shiftl_lxor.
  assert (Z.lxor (Z.lxor (Z.shiftl a 1) (Z.shiftl b 1)) (Z.lxor a b)
    = Z.lxor (Z.lxor (Z.shiftl a 1) a) (Z.lxor (Z.shiftl b 1) b)) as ->.
  { apply Z.bits_inj'. intros i _. rewrite !Z.lxor_spec.
    by destruct (Z.testbit _ i), (Z.testbit _ i), (Z.testbit _ i), (Z.testbit _ i). }
  generalize (Z.lxor (Z.shiftl a 1) a), (Z.lxor (Z.shiftl b 1) b). intros p q.
  rewrite (Z.lxor_spec p q 8). apply Z.bits_inj'. intros i _.
  destruct (Z.testbit p 8), (Z.testbit q 8); cbn [xorb]; rewrite !Z.lxor_spec, ?Z.bits_0;
    by destruct (Z.testbit p i), (Z.testbit q i), (Z.testbit 0x11B i).
Qed.
Lemma gmul_gen_lxor a b :
  is_byte a -> is_byte b -> gmul 3 (Z.lxor a b) = Z.lxor (gmul 3 a) (gmul 3 b).
Proof. intros Ha Hb. rewrite !gmul_gen by auto using lxor_byte. apply gen_mul_lxor. Qed.

Lemma gmul_lxor_r a b c :
  is_byte a -> is_byte b -> is_byte c ->
  gmul a (Z.lxor b c) = Z.lxor (gmul a b) (gmul a c).
Proof.
  intros Ha Hb Hc. destruct (decide (a = 0)) as [->|]; [done|].
  rewrite <- (gexp_glog_mod a) by done.
  pose proof (glog_range a Ha) as Hl. revert Hl. generalize (glog a). intros i [Hi _].
  clear Ha. pattern i. apply natlike_ind; [| |done]; clear i Hi.
  - change (gexp (0 `mod` 255)) with 1. by rewrite !gmul_1_l by auto using lxor_byte.
  - intros i Hi IH. unfold Z.succ.
    rewrite Z.add_comm, <- gmul_gexp.
    change (gexp (1 `mod` 255)) with 3.
    assert (is_byte 3) by done. pose proof (proj1 (gexp_mod_byte i)).
    rewrite <- !gmul_assoc by auto using lxor_byte.
    rewrite IH. apply gmul_gen_lxor; apply gmul_byte.
Qed.

(** ** The field *)

Definition gf : Type := dsig is_byte.
Lemma gf_eq (a b : gf) : `a = `b -> a = b.
Proof. intros. by apply dsig_eq. Qed.
Lemma gf_byte (a : gf) : is_byte (`a).
Proof. apply (proj2_dsig a). Qed.

Definition gf_of (a : Z) (H : is_byte a) : gf := dexist a H.
Definition gf_zero : gf := gf_of 0 ltac:(unfold is_byte; lia).
Definition gf_one : gf := gf_of 1 ltac:(unfold is_byte; lia).
Definition gf_add (a b : gf) : gf :=
  gf_of (Z.lxor (`a) (`b)) (lxor_byte _ _ (gf_byte a) (gf_byte b)).
Definition gf_mul (a b : gf) : gf := gf_of (gmul (`a) (`b)) (gmul_byte _ _).
Definition gf_inv (a : gf) : gf := gf_of (ginv (`a)) (ginv_byte _).

Lemma gf_field_theory :
  field_theory gf_zero gf_one gf_add gf_mul gf_add (fun a => a)
    (fun a b => gf_mul a (gf_inv b)) gf_inv eq.
Proof.
  constructor; [constructor|..]; intros; try apply gf_eq; simpl.
  - apply Z.lxor_0_l.
  - apply Z.lxor_comm.
  - symmetry. apply Z.lxor_assoc.
  - apply gmul_1_l, gf_byte.
  - apply gmul_comm.
  - apply gmul_assoc; apply gf_byte.
  - rewrite gmul_comm, (gmul_comm (`x) (`z)), (gmul_comm (`y) (`z)).
    apply gmul_lxor_r; apply gf_byte.
  - done.
  - apply Z.lxor_nilpotent.
  - intros H. by apply (f_equal proj1_sig) in H.
  - done.
  - apply ginv_l; [apply gf_byte|]. intros Hz. by apply H, gf_eq.
Qed.

#[export] Instance gf_eq_dec : EqDecision gf.
Proof. intros a b. destruct (decide (`a = `b)); [left; by apply gf_eq|right; congruence]. Defined.

Definition GF256 : FieldOps := {|
  fcar := gf; f0 := gf_zero; f1 := gf_one; fadd := gf_add; fmul := gf_mul;
  fsub := gf_add; fopp := fun a => a;
  fdiv := fun a b => gf_mul a (gf_inv b); finv := gf_inv;
  flaws := gf_field_theory; feq_dec := gf_eq_dec;
|}.

Abbreviation gval a := (proj1_sig (A:=Z) a).

(** A byte as a field element. *)
Definition to_gf (a : Z) : gf := gf_of (a `mod` 256) (Z.mod_pos_bound a 256 eq_refl).
Lemma to_gf_val (a : Z) : is_byte a -> gval (to_gf a) = a.
Proof. intros. by apply Z.mod_small. Qed.
Lemma to_gf_of (a : gf) : to_gf (`a) = a.
Proof. apply gf_eq, to_gf_val, gf_byte. Qed.
Lemma to_gf_inj (a b : Z) : is_byte a -> is_byte b -> to_gf a = to_gf b -> a = b.
Proof. intros Ha Hb H. rewrite <- (to_gf_val a), <- (to_gf_val b) by done. by rewrite H. Qed.
