(* ===== verification/Shamir.v ===== *)
(** * Shamir secret sharing over GF(256)

    [_interpolate], [_split_secret] and [_recover_secret] of
    [keyshare/slip39.py].  The random source and HMAC-SHA256 are parameters:
    [secrets.token_bytes] is a stream of calls, its [i]-th call with length
    [n] returning [token_bytes i n], and the number of calls made is threaded
    through. *)

From S2P Require Import Prelude Lagrange Gf256.

Definition MAX_SHARE_COUNT : Z := 16.
Definition DIGEST_LENGTH_BYTES : Z := 4.
Definition SECRET_INDEX : Z := 255.
Definition DIGEST_INDEX : Z := 254.

Record _RawShare := RawShare { rs_x : Z; rs_data : bytes }.
#[export] Instance RawShare_eq_dec : EqDecision _RawShare.
Proof. solve_decision. Defined.

(** ** [_interpolate] *)

(** One turn of the loop over the shares: the scaled basis value of [share]
    is xored into [result]. *)
Definition interpolate_step (shares : list _RawShare) (x log_prod : Z)
    (result : bytes) (share : _RawShare) : res bytes :=
  l ← py_get _LOG_TABLE (Z.lxor (rs_x share) x);
  ls ← mapM_res (fun other => py_get _LOG_TABLE (Z.lxor (rs_x share) (rs_x other))) shares;
  let log_basis_eval := (log_prod - l - sumZ ls) `mod` 255 in
  pairs ← zip_strict (rs_data share) result;
  mapM_res (fun '(share_val, intermediate_sum) =>
    if share_val =? 0 then Ok (Z.lxor intermediate_sum 0)
    else
      lv ← py_get _LOG_TABLE share_val;
      e ← py_get _EXP_TABLE ((lv + log_basis_eval) `mod` 255);
      Ok (Z.lxor intermediate_sum e)) pairs.

Definition _interpolate (shares : list _RawShare) (x : Z) : res bytes :=
  let x_coordinates : gset Z := list_to_set (rs_x <$> shares) in
  _ ← raise_if (negb (size x_coordinates =? length shares)%nat) KeyShareError;
  let share_value_lengths : gset nat := list_to_set ((fun s => length (rs_data s)) <$> shares) in
  _ ← raise_if (negb (size share_value_lengths =? 1)%nat) KeyShareError;
  match (if decide (x ∈ x_coordinates)
         then snd <$> list_find (fun share => rs_x share = x) shares else None) with
  | Some share => Ok (rs_data share)
  | None =>
      ls ← mapM_res (fun share => py_get _LOG_TABLE (Z.lxor (rs_x share) x)) shares;
      let log_prod := sumZ ls in
      let n := match elements share_value_lengths with n :: _ => n | [] => 0%nat end in
      foldM (interpolate_step shares x log_prod) (replicate n 0) shares
  end.

(** ** Splitting and recovering *)

Section random_and_hmac.
Variable token_bytes : nat -> Z -> bytes.
Variable hmac_sha256 : bytes -> bytes -> bytes.

(** [_random_bytes(n)], the [ctr]-th call. *)
Definition _random_bytes (ctr : nat) (n : Z) : res (bytes * nat) :=
  if n <? 0 then Err ValueError else Ok (token_bytes ctr n, S ctr).

(** [_RawShare(i, _random_bytes(n))], appended to the list of shares. *)
Definition random_share (n : Z) (st : list _RawShare * nat) (i : Z) :
    res (list _RawShare * nat) :=
  let '(acc, ctr) := st in
  '(data, ctr) ← _random_bytes ctr n;
  Ok (acc ++ [RawShare i data], ctr).

Definition _create_digest (random_data shared_secret : bytes) : bytes :=
  slice_to (hmac_sha256 random_data shared_secret) DIGEST_LENGTH_BYTES.

Definition _split_secret (ctr : nat) (threshold share_count : Z) (shared_secret : bytes) :
    res (list _RawShare * nat) :=
  _ ← raise_if (threshold <? 1) ValueError;
  _ ← raise_if (share_count <? threshold) ValueError;
  _ ← raise_if (MAX_SHARE_COUNT <? share_count) ValueError;
  if threshold =? 1 then
    Ok ((fun i => RawShare i shared_secret) <$> seqZ 0 share_count, ctr)
  else
    let random_share_count := threshold - 2 in
    '(shares, ctr) ← foldM (random_share (len shared_secret)) ([], ctr)
                       (seqZ 0 random_share_count);
    '(random_part, ctr) ← _random_bytes ctr (len shared_secret - DIGEST_LENGTH_BYTES);
    let digest := _create_digest random_part shared_secret in
    let base_shares := shares ++
      [RawShare DIGEST_INDEX (digest ++ random_part); RawShare SECRET_INDEX shared_secret] in
    more ← mapM_res (fun i => d ← _interpolate base_shares i; Ok (RawShare i d))
             (seqZ random_share_count (share_count - random_share_count));
    Ok (shares ++ more, ctr).

Definition _recover_secret (threshold : Z) (shares : list _RawShare) : res bytes :=
  if threshold =? 1 then s ← py_get shares 0; Ok (rs_data s)
  else
    shared_secret ← _interpolate shares SECRET_INDEX;
    digest_share ← _interpolate shares DIGEST_INDEX;
    let digest := slice_to digest_share DIGEST_LENGTH_BYTES in
    let random_part := slice_from digest_share DIGEST_LENGTH_BYTES in
    _ ← raise_if (negb (bool_decide (digest = _create_digest random_part shared_secret)))
          KeyShareError;
    Ok shared_secret.
End random_and_hmac.

(** ** The interpolation loop computes the Lagrange interpolant *)

(** A string of [n] bytes as its [n] field elements, and back. *)
Definition col (data : bytes) (k : nat) : gf := to_gf (nth k data 0).
Definition uncol (n : nat) (f : nat -> gf) : bytes := (fun k => gval (f k)) <$> seq 0 n.

Lemma length_uncol n f : length (uncol n f) = n.
Proof. unfold uncol. by rewrite length_fmap, length_seq. Qed.
Lemma uncol_ext n f g : (forall k, (k < n)%nat -> f k = g k) -> uncol n f = uncol n g.
Proof.
  intros H. apply list_fmap_ext. intros i k Hk.
  apply lookup_seq in Hk as [-> ?]. simpl. by rewrite H.
Qed.
Lemma uncol_col data : bytes_ok data -> uncol (length data) (col data) = data.
Proof.
  intros Hd. apply list_eq. intros i. unfold uncol. rewrite list_lookup_fmap.
  destruct (decide (i < length data)%nat) as [Hlt|].
  - rewrite lookup_seq_lt by done. simpl. unfold col.
    destruct (lookup_lt_is_Some_2 data i Hlt) as [b Hb].
    rewrite (nth_lookup_Some _ _ _ _ Hb), Hb. f_equal.
    apply to_gf_val. by apply (Forall_lookup_1 _ _ _ _ Hd Hb).
  - rewrite lookup_seq_ge by lia. by rewrite lookup_ge_None_2 by lia.
Qed.
Lemma col_uncol n f k : (k < n)%nat -> col (uncol n f) k = f k.
Proof.
  intros Hk. unfold col.
  rewrite (nth_lookup_Some _ _ _ (gval (f k))); [apply to_gf_of|].
  unfold uncol. by rewrite list_lookup_fmap, lookup_seq_lt.
Qed.
Lemma uncol_bytes n f : bytes_ok (uncol n f).
Proof. apply Forall_fmap, Forall_true. intros. apply gf_byte. Qed.
Lemma uncol_zero n : uncol n (fun _ => gf_zero) = replicate n 0.
Proof.
  apply list_eq. intros i. unfold uncol. rewrite list_lookup_fmap.
  destruct (decide (i < n)%nat).
  - by rewrite lookup_seq_lt, lookup_replicate_2.
  - rewrite lookup_seq_ge by lia. symmetry. apply lookup_replicate_None. lia.
Qed.

(** The [k]-th points of a list of shares. *)
Definition points (shares : list _RawShare) (k : nat) : list (GF256 * GF256) :=
  (fun s => (to_gf (rs_x s), col (rs_data s) k)) <$> shares.

(** The shares [_interpolate] accepts: distinct abscissae, values of one
    length [n], at least one share, everything a byte. *)
Record shares_ok (n : nat) (shares : list _RawShare) : Prop := {
  so_nodup : NoDup (rs_x <$> shares);
  so_x : Forall (fun s => is_byte (rs_x s)) shares;
  so_len : Forall (fun s => length (rs_data s) = n) shares;
  so_bytes : Forall (fun s => bytes_ok (rs_data s)) shares;
  so_nonempty : shares <> [];
}.

Lemma points_fst shares k : (points shares k).*1 = (fun s => to_gf (rs_x s)) <$> shares.
Proof. unfold points. rewrite <- list_fmap_compose. done. Qed.

Lemma points_nodup n shares k : shares_ok n shares -> NoDup (points shares k).*1.
Proof.
  intros [Hnd Hx _ _ _]. rewrite points_fst.
  induction shares as [|s shares IH]; csimpl in *; [constructor|].
  apply NoDup_cons in Hnd as [Hnin Hnd]. apply Forall_cons in Hx as [Hs Hx].
  constructor; [|by apply IH]. intros [t [Ht Hin]]%list_elem_of_fmap.
  apply Hnin, list_elem_of_fmap. exists t. split; [|done].
  rewrite Forall_forall in Hx. apply to_gf_inj; auto.
Qed.

Lemma gexp_add i j : 
  gmul (gexp (i `mod` 255)) (gexp (j `mod` 255)) = gexp ((i + j) `mod` 255).
Proof. apply gmul_gexp. Qed.

(** A logarithm of zero counts as that of one, so a sum of logarithms is the
    logarithm of the product of the nonzero factors. *)
Definition nz (a : gf) : gf := if decide (a = gf_zero) then gf_one else a.
Lemma gexp_glog_nz (a : gf) : gexp (glog (`a) `mod` 255) = gval (nz a).
Proof.
  unfold nz. destruct (decide (a = gf_zero)) as [->|Hne]; [done|].
  apply gexp_glog_mod; [apply gf_byte|]. intros Hz. by apply Hne, gf_eq.
Qed.

Lemma gexp_sum (l : list gf) :
  gexp (sumZ ((fun a => glog (`a)) <$> l) `mod` 255) = gval (@fprod GF256 (nz <$> l)).
Proof.
  induction l as [|a l IH]; [done|]. csimpl.
  change (sumZ (glog (`a) :: ((fun a => glog (`a)) <$> l)))
    with (glog (`a) + sumZ ((fun a => glog (`a)) <$> l)).
  rewrite <- gexp_add, IH, gexp_glog_nz. done.
Qed.

Lemma gexp_sub i j :
  gexp ((i - j) `mod` 255) = gmul (gexp (i `mod` 255)) (ginv (gexp (j `mod` 255))).
Proof.
  unfold ginv. destruct (gexp_mod_byte j) as [_ Hnz].
  rewrite (proj2 (Z.eqb_neq _ 0)) by done.
  rewrite glog_gexp by (apply Z.mod_pos_bound; lia).
  rewrite gexp_add. f_equal. rewrite <- Z.add_opp_r.
  rewrite (Zplus_mod i (- (j `mod` 255))), (Zplus_mod i (- j)). f_equal. f_equal.
  rewrite <- !Z.sub_0_l, (Zminus_mod 0 j). rewrite (Zminus_mod 0 (j `mod` 255)).
  by rewrite Zmod_mod.
Qed.

Definition glogs (l : list gf) : Z := sumZ ((fun a => glog (gval a)) <$> l).

Lemma glogs_numer (xs : list gf) (xi x : gf) :
  x ∉ xs \/ x = xi ->
  gexp (glogs ((fun xj => if decide (xi = xj) then gf_one else gf_add x xj) <$> xs) `mod` 255)
  = gval (@numer GF256 xs xi x).
Proof.
  intros Hx. unfold glogs. rewrite gexp_sum. unfold numer. f_equal. f_equal.
  rewrite <- list_fmap_compose. apply list_fmap_ext. intros k xj Hk. simpl.
  unfold nz. change (decide (xi = xj)) with (gf_eq_dec xi xj).
  destruct (gf_eq_dec xi xj) as [|Hne]; [done|].
  rewrite decide_False; [done|]. intros H0.
  apply (fsub_eq (F := GF256)) in H0. subst x.
  destruct Hx as [Hx|Hx]; [|congruence]. apply Hx. by apply list_elem_of_lookup_2 in Hk.
Qed.

Lemma glogs_all (xs : list gf) (xi x : gf) :
  NoDup xs -> xi ∈ xs ->
  glogs (gf_add x <$> xs) =
    glog (gval (gf_add x xi)) +
    glogs ((fun xj => if decide (xi = xj) then gf_one else gf_add x xj) <$> xs).
Proof.
  assert (forall ys, xi ∉ ys ->
    glogs ((fun xj => if decide (xi = xj) then gf_one else gf_add x xj) <$> ys)
    = glogs (gf_add x <$> ys)) as Hno.
  { intros ys Hni. f_equal. apply list_fmap_ext. intros k xj Hk.
    rewrite decide_False; [done|]. intros <-. by apply Hni, (list_elem_of_lookup_2 _ k). }
  intros Hnd Hin. induction xs as [|y xs IH]; [by apply elem_of_nil in Hin|].
  apply NoDup_cons in Hnd as [Hy Hnd]. unfold glogs in *. csimpl.
  apply elem_of_cons in Hin as [<-|Hin].
  - rewrite decide_True by done. rewrite Hno by done. simpl. unfold gf_one. simpl.
    change (glog 1) with 0. lia.
  - rewrite decide_False by (intros <-; done).
    specialize (IH Hnd Hin). simpl in *. rewrite IH. lia.
Qed.

Lemma glogs_shares (shares : list _RawShare) (x : Z) :
  is_byte x -> Forall (fun s => is_byte (rs_x s)) shares ->
  mapM_res (fun s => py_get _LOG_TABLE (Z.lxor (rs_x s) x)) shares
    = Ok ((fun s => glog (Z.lxor (rs_x s) x)) <$> shares) /\
  sumZ ((fun s => glog (Z.lxor (rs_x s) x)) <$> shares)
    = glogs (gf_add (to_gf x) <$> ((fun s => to_gf (rs_x s)) <$> shares)).
Proof.
  intros Hx Hs. split.
  - apply mapM_res_Ok. intros s Hin. rewrite Forall_forall in Hs.
    apply get_LOG_TABLE, lxor_byte; auto.
  - unfold glogs. f_equal. rewrite <- !list_fmap_compose.
    apply list_fmap_ext. intros k s Hk. simpl.
    rewrite !Z.mod_small by (try done; by apply (Forall_lookup_1 _ _ _ _ Hs Hk)).
    by rewrite Z.lxor_comm.
Qed.

(** The scaled logarithm of the loop is that of the Lagrange basis value. *)
Lemma log_basis_eval_spec n shares s x :
  shares_ok n shares -> s ∈ shares -> is_byte x -> x ∉ rs_x <$> shares ->
  gexp ((sumZ ((fun s => glog (Z.lxor (rs_x s) x)) <$> shares)
         - glog (Z.lxor (rs_x s) x)
         - sumZ ((fun o => glog (Z.lxor (rs_x s) (rs_x o))) <$> shares)) `mod` 255)
  = gval (@basis GF256 (points shares 0).*1 (to_gf (rs_x s)) (to_gf x)).
Proof.
  intros Hok Hin Hx Hnin. pose proof Hok as [Hnd Hxs _ _ _].
  pose proof (proj1 (Forall_forall _ _) Hxs s Hin) as Hsx. simpl in Hsx.
  rewrite (proj2 (glogs_shares shares x Hx Hxs)).
  replace (sumZ ((fun o => glog (Z.lxor (rs_x s) (rs_x o))) <$> shares))
    with (sumZ ((fun o => glog (Z.lxor (rs_x o) (rs_x s))) <$> shares))
    by (f_equal; apply list_fmap_ext; intros; by rewrite Z.lxor_comm).
  rewrite (proj2 (glogs_shares shares (rs_x s) Hsx Hxs)).
  rewrite <- (points_fst shares 0).
  pose proof (points_nodup n shares 0 Hok) as Hnd'.
  assert (to_gf (rs_x s) ∈ (points shares 0).*1) as Hin'.
  { rewrite points_fst. apply list_elem_of_fmap. eauto. }
  assert (to_gf x ∉ (points shares 0).*1) as Hnin'.
  { rewrite points_fst. intros [t [Ht Htin]]%list_elem_of_fmap.
    apply Hnin, list_elem_of_fmap. exists t. split; [|done].
    rewrite Forall_forall in Hxs. apply to_gf_inj; auto. }
  rewrite (glogs_all _ _ (to_gf x) Hnd' Hin').
  rewrite (glogs_all _ _ (to_gf (rs_x s)) Hnd' Hin').
  replace (glog (gval (gf_add (to_gf (rs_x s)) (to_gf (rs_x s))))) with 0
    by (simpl; by rewrite Z.lxor_nilpotent).
  replace (glog (gval (gf_add (to_gf x) (to_gf (rs_x s))))) with (glog (Z.lxor (rs_x s) x))
    by (simpl; by rewrite !Z.mod_small, Z.lxor_comm).
  rewrite Z.add_0_l, Z.add_simpl_l, gexp_sub.
  rewrite !glogs_numer by auto. done.
Qed.

(** One turn of the loop adds the share's term to every column. *)
Lemma interpolate_step_spec n shares s x (acc : nat -> gf) :
  shares_ok n shares -> s ∈ shares -> is_byte x -> x ∉ rs_x <$> shares ->
  interpolate_step shares x (sumZ ((fun s => glog (Z.lxor (rs_x s) x)) <$> shares))
    (uncol n acc) s
  = Ok (uncol n (fun k => gf_add (acc k) (gf_mul (col (rs_data s) k)
          (@basis GF256 (points shares k).*1 (to_gf (rs_x s)) (to_gf x))))).
Proof.
  intros Hok Hin Hx Hnin. pose proof Hok as [_ Hxs Hlen Hby _].
  rewrite Forall_forall in Hxs, Hlen, Hby.
  unfold interpolate_step. rewrite get_LOG_TABLE by (apply lxor_byte; auto).
  simpl. rewrite (mapM_res_Ok _ (fun o => glog (Z.lxor (rs_x s) (rs_x o))))
    by (intros; apply get_LOG_TABLE, lxor_byte; auto). simpl.
  set (lbe := _ `mod` 255).
  assert (gexp lbe = gval (@basis GF256 (points shares 0).*1 (to_gf (rs_x s)) (to_gf x)))
    as Hlbe by (by apply (log_basis_eval_spec n)).
  rewrite <- (uncol_col (rs_data s)) at 1 by auto. rewrite Hlen by done.
  unfold zip_strict. rewrite decide_True by (by rewrite !length_uncol). simpl.
  unfold uncol. rewrite zip_fmap_same, (mapM_res_Ok _ (fun '(v, r) => Z.lxor r (gmul v (gexp lbe)))).
  - f_equal. rewrite <- list_fmap_compose. apply list_fmap_ext. intros i k Hk.
    change (Z.lxor (gval (acc k)) (gmul (gval (col (rs_data s) k)) (gexp lbe)) =
      Z.lxor (gval (acc k)) (gmul (gval (col (rs_data s) k))
        (gval (@basis GF256 (points shares k).*1 (to_gf (rs_x s)) (to_gf x))))).
    by rewrite Hlbe, !points_fst.
  - intros [v r] [k [Hvr _]]%list_elem_of_fmap.
    assert (is_byte v) as Hvb by (injection Hvr as -> _; by apply Z.mod_pos_bound). clear Hvr.
    destruct (Z.eqb_spec v 0) as [->|Hv]; [done|].
    rewrite get_LOG_TABLE by done. simpl.
    rewrite get_EXP_TABLE by (apply Z.mod_pos_bound; lia). simpl. do 2 f_equal.
    assert (0 <= lbe < 255) by (apply Z.mod_pos_bound; lia).
    rewrite gmul_nz, glog_gexp by (try done; by apply gexp_byte). done.
Qed.

Lemma interpolate_loop_spec n shares x l (acc : nat -> gf) :
  shares_ok n shares -> is_byte x -> x ∉ rs_x <$> shares -> (forall s, s ∈ l -> s ∈ shares) ->
  foldM (interpolate_step shares x (sumZ ((fun s => glog (Z.lxor (rs_x s) x)) <$> shares)))
    (uncol n acc) l
  = Ok (uncol n (fun k => gf_add (acc k) (@fsum GF256
        ((fun '(xi, yi) => gf_mul yi (@basis GF256 (points shares k).*1 xi (to_gf x)))
          <$> points l k)))).
Proof.
  intros Hok Hx Hnin. revert acc. induction l as [|s l IH]; intros acc Hsub; simpl.
  - f_equal. apply uncol_ext. intros k _. apply gf_eq. simpl. by rewrite Z.lxor_0_r.
  - rewrite interpolate_step_spec by (try done; apply Hsub; set_solver). simpl.
    rewrite IH by (intros; apply Hsub; set_solver). f_equal. apply uncol_ext.
    intros k _. apply gf_eq. simpl. by rewrite Z.lxor_assoc.
Qed.

(** [_interpolate] returns, in every column, the Lagrange interpolant of the
    shares' points. *)
Lemma interpolate_spec n shares x :
  shares_ok n shares -> is_byte x ->
  _interpolate shares x
  = Ok (uncol n (fun k => @interp GF256 (points shares k) (to_gf x))).
Proof.
  intros Hok Hx. pose proof Hok as [Hnd Hxs Hlen Hby Hne]. unfold _interpolate.
  assert (size (list_to_set (rs_x <$> shares) : gset Z) = length shares) as ->.
  { rewrite size_list_to_set by done. by rewrite length_fmap. }
  rewrite Nat.eqb_refl. simpl.
  assert ((list_to_set ((fun s => length (rs_data s)) <$> shares) : gset nat) = {[ n ]}) as ->.
  { apply set_eq. intros m. rewrite elem_of_list_to_set, list_elem_of_fmap, elem_of_singleton.
    rewrite Forall_forall in Hlen. split.
    - intros (s & -> & Hs). auto.
    - intros ->. destruct shares as [|s shares]; [done|]. exists s.
      rewrite (Hlen s) by set_solver. set_solver. }
  rewrite size_singleton, elements_singleton. simpl.
  case_decide as Hin; [rewrite elem_of_list_to_set in Hin|].
  - destruct (list_find _ shares) as [[i s]|] eqn:E; simpl.
    + apply list_find_Some in E as (Hl & Hsx & _).
      pose proof (list_elem_of_lookup_2 _ _ _ Hl) as Hs.
      rewrite Forall_forall in Hby, Hlen.
      f_equal. rewrite <- (uncol_col (rs_data s)), Hlen by auto.
      apply uncol_ext. intros k _. symmetry.
      apply (interp_at (F := GF256)); [by apply (points_nodup n)|].
      apply list_elem_of_fmap. exists s. by rewrite Hsx.
    + apply list_find_None in E. apply list_elem_of_fmap in Hin as (s & -> & Hs).
      rewrite Forall_forall in E. by destruct (E s Hs).
  - rewrite elem_of_list_to_set in Hin. simpl.
    rewrite (proj1 (glogs_shares shares x Hx Hxs)). simpl.
    rewrite <- uncol_zero, (interpolate_loop_spec n) by auto.
    reflexivity.
Qed.

(** ** Splitting, then recovering *)

(** What is relied on of [secrets.token_bytes] and of HMAC-SHA256: the lengths
    of their results. *)
Definition token_bytes_ok (token_bytes : nat -> Z -> bytes) : Prop :=
  forall ctr n, 0 <= n -> len (token_bytes ctr n) = n /\ bytes_ok (token_bytes ctr n).
Definition hmac_ok (hmac_sha256 : bytes -> bytes -> bytes) : Prop :=
  forall key msg, len (hmac_sha256 key msg) = 32 /\ bytes_ok (hmac_sha256 key msg).

(** The shares lie on one polynomial of [threshold] coefficients per byte,
    which takes the secret at [SECRET_INDEX] and the digest share at
    [DIGEST_INDEX]. *)
Record shares_of (hmac : bytes -> bytes -> bytes) (threshold share_count : Z)
    (secret : bytes) (shares : list _RawShare) : Prop := {
  sh_x : rs_x <$> shares = seqZ 0 share_count;
  sh_len : Forall (fun s => length (rs_data s) = length secret) shares;
  sh_bytes : Forall (fun s => bytes_ok (rs_data s)) shares;
  sh_one : threshold = 1 -> Forall (fun s => rs_data s = secret) shares;
  sh_poly : threshold <> 1 -> exists (f : nat -> gf -> gf) random_part,
    let digest_share := _create_digest hmac random_part secret ++ random_part in
    (forall k, @on_poly GF256 (Z.to_nat threshold) (f k)) /\
    (forall s k, s ∈ shares -> (k < length secret)%nat ->
       col (rs_data s) k = f k (to_gf (rs_x s))) /\
    (forall k, (k < length secret)%nat -> f k (to_gf SECRET_INDEX) = col secret k) /\
    (forall k, (k < length secret)%nat -> f k (to_gf DIGEST_INDEX) = col digest_share k) /\
    length digest_share = length secret /\ bytes_ok digest_share /\
    len random_part = len secret - DIGEST_LENGTH_BYTES;
}.

Section split_recover.
Context (token_bytes : nat -> Z -> bytes) (hmac_sha256 : bytes -> bytes -> bytes).
Context (Htok : token_bytes_ok token_bytes) (Hmac : hmac_ok hmac_sha256).

Lemma length_create_digest r s : len (_create_digest hmac_sha256 r s) = 4.
Proof using Hmac.
  unfold _create_digest. rewrite slice_to_nonneg by done. rewrite length_take.
  destruct (Hmac r s). change (Z.to_nat DIGEST_LENGTH_BYTES) with 4%nat. lia.
Qed.
Lemma create_digest_bytes r s : bytes_ok (_create_digest hmac_sha256 r s).
Proof using Hmac.
  unfold _create_digest. rewrite slice_to_nonneg by done. apply Forall_take, Hmac.
Qed.

Lemma random_shares_fold n l acc ctr :
  0 <= n ->
  foldM (random_share token_bytes n) (acc, ctr) l
  = Ok (acc ++ imap (fun j i => RawShare i (token_bytes (ctr + j)%nat n)) l,
        (ctr + length l)%nat).
Proof using.
  intros Hn. revert acc ctr. induction l as [|i l IH]; intros acc ctr; simpl.
  - by rewrite app_nil_r, Nat.add_0_r.
  - unfold _random_bytes. destruct (Z.ltb_spec n 0); [lia|]. simpl.
    rewrite IH, <- app_assoc. simpl. rewrite Nat.add_0_r. do 2 f_equal; [|lia].
    do 2 f_equal. apply imap_ext. intros j x _. simpl. do 2 f_equal. lia.
Qed.

Lemma imap_shares_x (f : nat -> bytes) l :
  rs_x <$> imap (fun j i => RawShare i (f j)) l = l.
Proof using.
  apply list_eq. intros i. rewrite list_lookup_fmap, list_lookup_imap.
  by destruct (l !! i).
Qed.

(** The base shares are acceptable to [_interpolate]. *)
Lemma base_shares_ok n ctr t (dg sec : bytes) :
  2 <= t <= 16 -> len dg = n -> len sec = n -> bytes_ok dg -> bytes_ok sec -> 0 <= n ->
  shares_ok (Z.to_nat n)
    (imap (fun j i => RawShare i (token_bytes (ctr + j)%nat n)) (seqZ 0 (t - 2)) ++
     [RawShare DIGEST_INDEX dg; RawShare SECRET_INDEX sec]).
Proof using Htok.
  intros Ht Hdg Hsec Hdgb Hsecb Hn.
  assert (forall (P : _RawShare -> Prop) r,
    P (RawShare DIGEST_INDEX dg) -> P (RawShare SECRET_INDEX sec) ->
    (forall j i, 0 <= i < t - 2 -> P (RawShare i (token_bytes j n))) ->
    Forall P (imap (fun j i => RawShare i (token_bytes (r + j)%nat n)) (seqZ 0 (t - 2)) ++
     [RawShare DIGEST_INDEX dg; RawShare SECRET_INDEX sec])) as HP.
  { intros P r H1 H2 H3. rewrite Forall_app. split; [|by repeat constructor].
    apply Forall_lookup. intros j s. rewrite list_lookup_imap.
    destruct (seqZ _ _ !! j) eqn:E; [|done]. simpl. intros [= <-].
    apply lookup_seqZ in E. apply H3. lia. }
  constructor.
  - rewrite fmap_app, (imap_shares_x (fun j => token_bytes (ctr + j)%nat n)). simpl.
    apply NoDup_app. split; [apply NoDup_seqZ|]. split.
    + intros x Hx%elem_of_seqZ [->|[->|[]%elem_of_nil]%elem_of_cons]%elem_of_cons;
        unfold DIGEST_INDEX, SECRET_INDEX in *; lia.
    + by apply (bool_decide_unpack (NoDup [254; 255])).
  - apply HP; simpl; [done..|]. unfold is_byte. lia.
  - apply HP; simpl; [lia..|]. intros j i _. destruct (Htok j n); [done|]. lia.
  - apply HP; simpl; [done..|]. intros j i _. by apply Htok.
  - by intros [_ ?]%app_eq_nil.
Qed.

Lemma to_gf_eq_iff (a b : Z) : is_byte a -> is_byte b -> to_gf a = to_gf b <-> a = b.
Proof using. intros. split; [by apply to_gf_inj|congruence]. Qed.

(** The value of the interpolant at one of its shares. *)
Lemma interp_at_share n shares s k :
  shares_ok n shares -> s ∈ shares ->
  @interp GF256 (points shares k) (to_gf (rs_x s)) = col (rs_data s) k.
Proof using.
  intros Hok Hs. apply (interp_at (F := GF256)); [by apply (points_nodup n)|].
  apply list_elem_of_fmap. by exists s.
Qed.

Definition evaluated_share (n : nat) (base : list _RawShare) (i : Z) : _RawShare :=
  RawShare i (uncol n (fun k => @interp GF256 (points base k) (to_gf i))).

Lemma evaluated_shares_mapM n base l :
  shares_ok n base -> Forall is_byte l ->
  mapM_res (fun i => d ← _interpolate base i; Ok (RawShare i d)) l
  = Ok (evaluated_share n base <$> l).
Proof using.
  intros Hok Hl. apply mapM_res_Ok. intros i Hi. rewrite Forall_forall in Hl.
  rewrite (interpolate_spec n) by auto. done.
Qed.

Lemma split_many_spec ctr t c secret :
  2 <= t <= c -> c <= 16 -> bytes_ok secret -> 4 <= len secret ->
  exists shares,
    _split_secret token_bytes hmac_sha256 ctr t c secret
      = Ok (shares, (ctr + Z.to_nat (t - 1))%nat) /\
    shares_of hmac_sha256 t c secret shares.
Proof using Htok Hmac.
  intros Ht Hc Hsb Hsl. unfold _split_secret, raise_if, MAX_SHARE_COUNT.
  destruct (Z.ltb_spec t 1); [lia|]. destruct (Z.ltb_spec c t); [lia|].
  destruct (Z.ltb_spec 16 c); [lia|]. destruct (Z.eqb_spec t 1); [lia|]. simpl.
  rewrite random_shares_fold by lia. simpl.
  set (rnd := imap _ _). set (ctr' := (ctr + length (seqZ 0 (t - 2)))%nat).
  unfold _random_bytes, DIGEST_LENGTH_BYTES.
  destruct (Z.ltb_spec (len secret - 4) 0); [lia|]. simpl.
  set (rp := token_bytes ctr' (len secret - 4)).
  set (dg := _create_digest hmac_sha256 rp secret).
  assert (len rp = len secret - 4 /\ bytes_ok rp) as [Hrp Hrpb] by (apply Htok; lia).
  assert (length (dg ++ rp) = length secret) as Hdl.
  { rewrite length_app. pose proof (length_create_digest rp secret) as Hdg. fold dg in Hdg. lia. }
  assert (bytes_ok (dg ++ rp)) as Hdb by (apply Forall_app_2; [apply create_digest_bytes|done]).
  set (base := rnd ++ _).
  assert (shares_ok (length secret) base) as Hbase.
  { rewrite <- (Nat2Z.id (length secret)). apply base_shares_ok; try done; lia. }
  rewrite (evaluated_shares_mapM (length secret)); [|done|].
  2: { apply Forall_forall. intros i Hi%elem_of_seqZ. unfold is_byte. lia. }
  simpl. exists (rnd ++ (evaluated_share (length secret) base <$> seqZ (t - 2) (c - (t - 2)))).
  split; [do 2 f_equal; subst ctr'; rewrite length_seqZ; lia|].
  pose proof Hbase as [_ Hbx Hblen Hbb _]. unfold base in Hbx, Hblen, Hbb.
  apply Forall_app in Hbx as [Hbx _]. apply Forall_app in Hblen as [Hblen _].
  apply Forall_app in Hbb as [Hbb _].
  constructor.
  - rewrite fmap_app. unfold rnd at 1.
    rewrite (imap_shares_x (fun j => token_bytes (ctr + j)%nat (len secret))).
    rewrite <- list_fmap_compose. change (rs_x ∘ _) with (fun x : Z => x).
    rewrite list_fmap_id. replace c with ((t - 2) + (c - (t - 2))) at 2 by lia.
    rewrite seqZ_app by lia. done.
  - apply Forall_app_2; [done|]. apply Forall_fmap, Forall_true. intros i. apply length_uncol.
  - apply Forall_app_2; [done|]. apply Forall_fmap, Forall_true. intros i. apply uncol_bytes.
  - lia.
  - intros _. exists (fun k => @interp GF256 (points base k)), rp. fold dg. split_and!; try done.
    + intros k. pose proof (on_poly_interp (F := GF256) (points base k)) as Hp.
      enough (length (points base k) = Z.to_nat t) as <- by done.
      unfold points, base, rnd. rewrite length_fmap, length_app, length_imap, length_seqZ.
      simpl. lia.
    + intros s k [Hs|Hs]%elem_of_app Hk.
      * symmetry. apply (interp_at_share (length secret)); [done|].
        apply elem_of_app. by left.
      * apply list_elem_of_fmap in Hs as (i & -> & Hi). simpl. by rewrite col_uncol.
    + intros k Hk.
      apply (interp_at_share (length secret) _ (RawShare SECRET_INDEX secret)); [done|].
      apply elem_of_app. right. repeat constructor.
    + intros k Hk.
      apply (interp_at_share (length secret) _ (RawShare DIGEST_INDEX (dg ++ rp))); [done|].
      apply elem_of_app. right. repeat constructor.
Qed.

Lemma split_one_spec ctr c secret :
  1 <= c <= 16 -> bytes_ok secret ->
  exists shares,
    _split_secret token_bytes hmac_sha256 ctr 1 c secret = Ok (shares, ctr) /\
    shares_of hmac_sha256 1 c secret shares.
Proof using.
  intros Hc Hsb. eexists. split.
  - unfold _split_secret, raise_if, MAX_SHARE_COUNT.
    destruct (Z.ltb_spec c 1); [lia|]. destruct (Z.ltb_spec 16 c); [lia|]. done.
  - constructor; try done.
    + rewrite <- list_fmap_compose. change (rs_x ∘ _) with (fun x : Z => x).
      apply list_fmap_id.
    + by apply Forall_fmap, Forall_true.
    + by apply Forall_fmap, Forall_true.
    + intros _. by apply Forall_fmap, Forall_true.
Qed.

(** Any threshold of the shares, or more, in any order, are acceptable to
    [_interpolate] and evaluate to the sharing polynomials. *)
Lemma recover_shares_of t c secret shares sel :
  1 <= t -> c <= 16 -> bytes_ok secret -> 4 <= len secret ->
  shares_of hmac_sha256 t c secret shares ->
  NoDup (rs_x <$> sel) -> (forall s, s ∈ sel -> s ∈ shares) -> t <= len sel ->
  _recover_secret hmac_sha256 t sel = Ok secret.
Proof using Hmac.
  intros Ht Hc Hsb Hsl [Hx Hlen Hby Hone Hpoly] Hnd Hsub Hcount.
  rewrite Forall_forall in Hlen, Hby. unfold _recover_secret.
  destruct (Z.eqb_spec t 1) as [Ht1|Ht1].
  { destruct (py_get_in_range sel 0) as (s & Hs & ->); [lia|]. simpl.
    f_equal. specialize (Hone Ht1). rewrite Forall_forall in Hone.
    by apply Hone, Hsub, (list_elem_of_lookup_2 _ _ _ Hs). }
  destruct (Hpoly Ht1) as (f & rp & Hf & Hpts & Hsec & Hdig & Hdl & Hdb & Hrp).
  clear Hone Hpoly.
  assert (forall s, s ∈ shares -> is_byte (rs_x s)) as Hxb.
  { intros s Hs. assert (rs_x s ∈ rs_x <$> shares) as Hin by (apply list_elem_of_fmap; eauto).
    rewrite Hx in Hin. apply elem_of_seqZ in Hin. unfold is_byte. lia. }
  assert (shares_ok (length secret) sel) as Hok.
  { constructor; [done|..]; try (apply Forall_forall; auto).
    intros ->. simpl in Hcount. lia. }
  assert (forall i, is_byte i ->
    _interpolate sel i = Ok (uncol (length secret) (fun k => f k (to_gf i)))) as Hint.
  { intros i Hi. rewrite (interpolate_spec (length secret)) by done. f_equal.
    apply uncol_ext. intros k Hk.
    apply (interp_unique (F := GF256) (Z.to_nat t) (f k)); [done|by apply (points_nodup (length secret))| |].
    - unfold points. rewrite length_fmap. lia.
    - intros xi yi (s & [= -> ->] & Hs)%list_elem_of_fmap. auto. }
  rewrite !Hint by done. simpl.
  rewrite (uncol_ext _ (fun k => f k (to_gf SECRET_INDEX)) (col secret)) by done.
  rewrite uncol_col by done.
  rewrite (uncol_ext _ (fun k => f k (to_gf DIGEST_INDEX)) _ Hdig).
  rewrite <- Hdl, uncol_col by done.
  rewrite slice_to_app, slice_from_app by (by rewrite length_create_digest).
  rewrite bool_decide_eq_true_2 by done. done.
Qed.
End split_recover.

Lemma interpolate_cases shares x :
  is_byte x -> Forall (fun s => is_byte (rs_x s) /\ bytes_ok (rs_data s)) shares ->
  (exists n, shares_ok n shares /\
     _interpolate shares x = Ok (uncol n (fun k => @interp GF256 (points shares k) (to_gf x)))) \/
  ((~ exists n, shares_ok n shares) /\ _interpolate shares x = Err KeyShareError).
Proof.
  intros Hx Hs. destruct (decide (NoDup (rs_x <$> shares))) as [Hnd|Hnd].
  2: { right. split; [by intros [n [? _ _ _ _]]|].
       unfold _interpolate. rewrite <- (length_fmap rs_x shares).
       destruct (Nat.eqb_spec (size (list_to_set (rs_x <$> shares) : gset Z))
                   (length (rs_x <$> shares))) as [He|]; [|done].
       by apply size_list_to_set_NoDup in He. }
  set (lens := list_to_set ((fun s => length (rs_data s)) <$> shares) : gset nat).
  destruct (decide (size lens = 1%nat)) as [H1|H1].
  - left. apply size_1_elem_of in H1 as [n Hn].
    assert (shares_ok n shares) as Hok.
    { constructor; [done|..].
      - eapply Forall_impl; [done|]. by intros s [? _].
      - apply Forall_forall. intros s Hin.
        assert (length (rs_data s) ∈ lens) as Hl.
        { apply elem_of_list_to_set, list_elem_of_fmap. eauto. }
        apply leibniz_equiv in Hn. rewrite Hn in Hl. by apply elem_of_singleton in Hl.
      - eapply Forall_impl; [done|]. by intros s [_ ?].
      - intros ->. apply leibniz_equiv in Hn. by apply (non_empty_singleton_L n (eq_sym Hn)). }
    exists n. split; [done|]. by apply interpolate_spec.
  - right. split.
    + intros [n [_ _ Hlen _ Hne]]. apply H1.
      assert (lens = {[ n ]}) as ->; [|by apply size_singleton].
      apply set_eq. intros m. subst lens.
      rewrite elem_of_list_to_set, list_elem_of_fmap, elem_of_singleton.
      rewrite Forall_forall in Hlen. split; [intros (s & -> & ?); auto|].
      intros ->. destruct shares as [|s shares]; [done|]. exists s.
      rewrite (Hlen s) by set_solver. set_solver.
    + unfold _interpolate. fold lens.
      by rewrite size_list_to_set, length_fmap, Nat.eqb_refl, (proj2 (Nat.eqb_neq _ _) H1).
Qed.

(** ** Properties *)

(** Every accepted split produces the shares [0 .. share_count - 1]. *)
Lemma split_secret_spec token_bytes hmac ctr t c secret :
  token_bytes_ok token_bytes -> hmac_ok hmac ->
  1 <= t <= c -> c <= 16 -> bytes_ok secret -> 4 <= len secret ->
  exists shares ctr',
    _split_secret token_bytes hmac ctr t c secret = Ok (shares, ctr') /\
    shares_of hmac t c secret shares.
Proof.
  intros Htok Hmac Ht Hc Hsb Hsl. destruct (decide (t = 1)) as [->|].
  - destruct (split_one_spec token_bytes hmac ctr c secret) as (sh & ? & ?); [lia|done|]. eauto.
  - destruct (split_many_spec token_bytes hmac Htok Hmac ctr t c secret) as (sh & ? & ?);
      [lia|done..|]. eauto.
Qed.

Lemma nodup_selection (shares sel : list _RawShare) :
  NoDup (rs_x <$> shares) -> NoDup sel -> (forall s, s ∈ sel -> s ∈ shares) ->
  NoDup (rs_x <$> sel).
Proof.
  intros Hnd. induction sel as [|s sel IH]; csimpl; [constructor|].
  intros [Hs Hsel]%NoDup_cons Hsub. constructor.
  - intros (s' & Hx & Hs')%list_elem_of_fmap. apply Hs.
    enough (s = s') as -> by done.
    assert (s ∈ shares) as [i Hi]%list_elem_of_lookup by (apply Hsub; left).
    assert (s' ∈ shares) as [j Hj]%list_elem_of_lookup by (apply Hsub; by right).
    assert (i = j) as ->; [|congruence].
    eapply (NoDup_lookup _ _ _ (rs_x s) Hnd); rewrite list_lookup_fmap.
    + by rewrite Hi.
    + by rewrite Hj, Hx.
  - apply IH; [done|]. intros s' ?. apply Hsub. by right.
Qed.

(** Sharing then recovering gives the secret back: for every threshold
    [t] and count [c] with [1 <= t <= c <= 16], every secret of at least four
    bytes, and whatever the random source returns, [_split_secret] produces
    [c] shares, and [_recover_secret] on ANY selection of at least [t]
    different ones, in any order, returns exactly the secret. *)
Theorem shamir_split_recover token_bytes hmac ctr t c secret :
  token_bytes_ok token_bytes -> hmac_ok hmac ->
  1 <= t <= c -> c <= 16 -> bytes_ok secret -> 4 <= len secret ->
  exists shares ctr',
    _split_secret token_bytes hmac ctr t c secret = Ok (shares, ctr') /\
    rs_x <$> shares = seqZ 0 c /\
    forall sel, NoDup sel -> (forall s, s ∈ sel -> s ∈ shares) -> t <= len sel ->
      _recover_secret hmac t sel = Ok secret.
Proof.
  intros Htok Hmac Ht Hc Hsb Hsl.
  destruct (split_secret_spec token_bytes hmac ctr t c secret)
    as (shares & ctr' & Heq & Hsh); [done..|].
  exists shares, ctr'. split_and!; [done|apply Hsh|].
  intros sel Hnd Hsub Hcount.
  apply (recover_shares_of hmac Hmac t c secret shares sel); try done; try lia.
  apply (nodup_selection shares); [|done..].
  rewrite (sh_x _ _ _ _ _ Hsh). apply NoDup_seqZ.
Qed.

(** Concrete stand-ins for the random source and HMAC, for the witnesses. *)
Definition demo_token_bytes (ctr : nat) (n : Z) : bytes :=
  (fun i => (Z.of_nat ctr * 91 + i * 37 + 13) `mod` 256) <$> seqZ 0 n.
Definition demo_hmac (key msg : bytes) : bytes :=
  (fun i => (sumZ key + 7 * sumZ msg + 31 * i) `mod` 256) <$> seqZ 0 32.
Definition demo_secret : bytes := (fun i => (i * 29 + 5) `mod` 256) <$> seqZ 0 16.

Lemma demo_token_bytes_ok : token_bytes_ok demo_token_bytes.
Proof.
  intros ctr n Hn. unfold demo_token_bytes. rewrite length_fmap, length_seqZ. split; [lia|].
  apply Forall_fmap, Forall_true. intros i. by apply Z.mod_pos_bound.
Qed.
Lemma demo_hmac_ok : hmac_ok demo_hmac.
Proof.
  intros k m. split; [done|].
  apply Forall_fmap, Forall_true. intros i. by apply Z.mod_pos_bound.
Qed.

(** The shares of a 3-of-5 split of [demo_secret]. *)
Definition demo_shares : list _RawShare :=
  match _split_secret demo_token_bytes demo_hmac 0 3 5 demo_secret with
  | Ok (shares, _) => shares | Err _ => [] end.

Lemma shamir_split_recover_witness :
  exists shares ctr',
    _split_secret demo_token_bytes demo_hmac 0 3 5 demo_secret = Ok (shares, ctr') /\
    rs_x <$> shares = seqZ 0 5 /\
    forall sel, NoDup sel -> (forall s, s ∈ sel -> s ∈ shares) -> 3 <= len sel ->
      _recover_secret demo_hmac 3 sel = Ok demo_secret.
Proof.
  apply (shamir_split_recover demo_token_bytes demo_hmac 0 3 5 demo_secret).
  - apply demo_token_bytes_ok.
  - apply demo_hmac_ok.
  - lia.
  - lia.
  - apply (bool_decide_unpack _). vm_compute. exact I.
  - vm_compute. discriminate.
Defined.

(** The executable definitions, evaluated: shares 4, 1 and 3 give the secret. *)
Example demo_recover :
  (sel ← mapM_res (py_get demo_shares) [4; 1; 3]; _recover_secret demo_hmac 3 sel)
  = Ok demo_secret.
Proof. vm_compute. reflexivity. Qed.

(** [_interpolate] on byte-valued shares answers with the Lagrange
    interpolant of every byte column exactly when the abscissae are distinct
    and the values are of one common length, and raises [KeyShareError]
    otherwise; it never raises anything else. *)
Theorem interpolate_total shares x :
  is_byte x -> Forall (fun s => is_byte (rs_x s) /\ bytes_ok (rs_data s)) shares ->
  (exists n, shares_ok n shares /\
     _interpolate shares x = Ok (uncol n (fun k => @interp GF256 (points shares k) (to_gf x)))) \/
  ((~ exists n, shares_ok n shares) /\ _interpolate shares x = Err KeyShareError).
Proof. apply interpolate_cases. Qed.

Lemma interpolate_total_witness :
  (exists n, shares_ok n demo_shares /\
     _interpolate demo_shares 9
     = Ok (uncol n (fun k => @interp GF256 (points demo_shares k) (to_gf 9)))) \/
  ((~ exists n, shares_ok n demo_shares) /\ _interpolate demo_shares 9 = Err KeyShareError).
Proof.
  apply (interpolate_total demo_shares 9).
  - apply (bool_decide_unpack _). vm_compute. exact I.
  - apply (bool_decide_unpack _). vm_compute. exact I.
Defined.
