(* ===== verification/Rs1024.v ===== *)
(** * The RS1024 checksum of [keyshare/slip39.py]

    A share is a sequence of 10-bit words; three checksum words are appended so
    that [_rs1024_polymod] of customization string, data and checksum is 1. *)

From S2P Require Import Prelude.

Definition CHECKSUM_LENGTH_WORDS : Z := 3.

Definition _RS1024_GEN : list Z :=
  [0xE0E040; 0x1C1C080; 0x3838100; 0x7070200; 0xE0E0009;
   0x1C0C2412; 0x38086C24; 0x3090FC48; 0x21B1F890; 0x3F3F120].

(** One turn of the outer loop of [_rs1024_polymod]. *)
Definition rs1024_step (chk v : Z) : Z :=
  let b := Z.shiftr chk 20 in
  let chk := Z.lxor (Z.shiftl (Z.land chk 0xFFFFF) 10) v in
  foldl (fun chk i =>
    Z.lxor chk (if Z.land (Z.shiftr b i) 1 =? 0 then 0
                else nth (Z.to_nat i) _RS1024_GEN 0)) chk (seqZ 0 10).

Definition _rs1024_polymod (values : list Z) : Z := foldl rs1024_step 1 values.

Definition _rs1024_create_checksum (data : list Z) (customization : bytes) : list Z :=
  let values := customization ++ data ++ replicate (Z.to_nat CHECKSUM_LENGTH_WORDS) 0 in
  let polymod := Z.lxor (_rs1024_polymod values) 1 in
  (fun i => Z.land (Z.shiftr polymod (10 * i)) 1023)
    <$> reverse (seqZ 0 CHECKSUM_LENGTH_WORDS).

Definition _rs1024_verify_checksum (data : list Z) (customization : bytes) : bool :=
  _rs1024_polymod (customization ++ data) =? 1.

Definition CUSTOMIZATION_STRING_ORIG : bytes := [115; 104; 97; 109; 105; 114].
Definition CUSTOMIZATION_STRING_EXTENDABLE : bytes :=
  CUSTOMIZATION_STRING_ORIG ++ [95; 101; 120; 116; 101; 110; 100; 97; 98; 108; 101].

Definition _customization_string (extendable : bool) : bytes :=
  if extendable then CUSTOMIZATION_STRING_EXTENDABLE else CUSTOMIZATION_STRING_ORIG.

(** ** The step is linear and injective *)

Abbreviation word_ok v := (0 <= v < 1024).
Abbreviation words_ok := (Forall (fun v => word_ok v)).
Abbreviation chk_ok c := (0 <= c < 2 ^ 30).

(** The step without its input word. *)
Definition rs1024_shift (chk : Z) : Z := rs1024_step chk 0.

Definition gen_term (b i : Z) : Z :=
  if Z.testbit b i then nth (Z.to_nat i) _RS1024_GEN 0 else 0.
Definition gen_sum (b : Z) : Z := foldr (fun i v => Z.lxor (gen_term b i) v) 0 (seqZ 0 10).

Lemma foldl_lxor (f : Z -> Z) l c :
  foldl (fun c i => Z.lxor c (f i)) c l = Z.lxor c (foldr (fun i v => Z.lxor (f i) v) 0 l).
Proof.
  revert c. induction l as [|i l IH]; intros c; simpl; [by rewrite Z.lxor_0_r|].
  by rewrite IH, Z.lxor_assoc.
Qed.

Lemma rs1024_step_eq chk v :
  rs1024_step chk v
  = Z.lxor (Z.lxor (Z.shiftl (Z.land chk 0xFFFFF) 10) v) (gen_sum (Z.shiftr chk 20)).
Proof.
  unfold rs1024_step. rewrite foldl_lxor. f_equal. unfold gen_sum, gen_term.
  assert (forall l, Forall (fun i => 0 <= i) l ->
    foldr (fun i v => Z.lxor (if Z.land (Z.shiftr (Z.shiftr chk 20) i) 1 =? 0 then 0
             else nth (Z.to_nat i) _RS1024_GEN 0) v) 0 l
    = foldr (fun i v => Z.lxor (if Z.testbit (Z.shiftr chk 20) i
             then nth (Z.to_nat i) _RS1024_GEN 0 else 0) v) 0 l) as H.
  { induction 1 as [|i l Hi _ IH]; [done|]. cbn [foldr]. rewrite IH, land_1_eqb by done.
    by destruct (Z.testbit _ i). }
  apply H, Forall_forall. intros i Hi%elem_of_seqZ. lia.
Qed.

Lemma rs1024_step_shift chk v : rs1024_step chk v = Z.lxor (rs1024_shift chk) v.
Proof.
  unfold rs1024_shift. rewrite !rs1024_step_eq, Z.lxor_0_r, !Z.lxor_assoc.
  f_equal. apply Z.lxor_comm.
Qed.

Lemma lxor_swap a b c d :
  Z.lxor (Z.lxor a b) (Z.lxor c d) = Z.lxor (Z.lxor a c) (Z.lxor b d).
Proof. rewrite !Z.lxor_assoc. f_equal. rewrite <- !Z.lxor_assoc. f_equal. apply Z.lxor_comm. Qed.

Lemma gen_sum_lxor a b : gen_sum (Z.lxor a b) = Z.lxor (gen_sum a) (gen_sum b).
Proof.
  unfold gen_sum. generalize (seqZ 0 10). intros l.
  induction l as [|i l IH]; [done|]. cbn [foldr]. rewrite IH, lxor_swap. f_equal.
  unfold gen_term. rewrite Z.lxor_spec.
  destruct (Z.testbit a i), (Z.testbit b i); simpl; by rewrite ?Z.lxor_nilpotent, ?Z.lxor_0_r.
Qed.

Lemma rs1024_shift_lxor a b :
  rs1024_shift (Z.lxor a b) = Z.lxor (rs1024_shift a) (rs1024_shift b).
Proof.
  unfold rs1024_shift. rewrite !rs1024_step_eq, !Z.lxor_0_r, Z.shiftr_lxor, gen_sum_lxor.
  rewrite lxor_swap. f_equal. rewrite <- Z.shiftl_lxor. f_equal.
  apply Z.bits_inj'. intros i Hi. rewrite !Z.lxor_spec, !Z.land_spec, Z.lxor_spec.
  by destruct (Z.testbit a i), (Z.testbit b i), (Z.testbit 0xFFFFF i).
Qed.

Lemma gen_sum_bound b : chk_ok (gen_sum b).
Proof.
  unfold gen_sum. assert (forall l, Forall (fun i => 0 <= i < 10) l ->
    chk_ok (foldr (fun i v => Z.lxor (gen_term b i) v) 0 l)) as H.
  { induction 1 as [|i l Hi _ IH]; [done|]. cbn [foldr]. apply lxor_bound; [done| |done].
    unfold gen_term. destruct (Z.testbit b i); [|done].
    enough ((0 <=? nth (Z.to_nat i) _RS1024_GEN 0) &&
            (nth (Z.to_nat i) _RS1024_GEN 0 <? 2 ^ 30) = true) by lia.
    revert i Hi. apply (forallb_seqZ _ 0 10). vm_compute. reflexivity. }
  apply H, Forall_forall. intros i Hi%elem_of_seqZ. lia.
Qed.

Lemma low_part_bound chk : chk_ok (Z.shiftl (Z.land chk 0xFFFFF) 10).
Proof.
  change 0xFFFFF with (2 ^ 20 - 1). rewrite Z.shiftl_mul_pow2 by done.
  pose proof (land_ones_bound 20 chk). lia.
Qed.

Lemma rs1024_shift_bound chk : chk_ok (rs1024_shift chk).
Proof.
  unfold rs1024_shift. rewrite rs1024_step_eq, Z.lxor_0_r.
  apply lxor_bound; [done|apply low_part_bound|apply gen_sum_bound].
Qed.

Lemma rs1024_step_bound chk v : 0 <= v < 2 ^ 30 -> chk_ok (rs1024_step chk v).
Proof.
  intros. rewrite rs1024_step_shift. apply lxor_bound; [done|apply rs1024_shift_bound|done].
Qed.

(** Up to 20 bits are only moved up. *)
Lemma rs1024_shift_small c : 0 <= c < 2 ^ 20 -> rs1024_shift c = Z.shiftl c 10.
Proof.
  intros Hc. unfold rs1024_shift. rewrite rs1024_step_eq, Z.lxor_0_r.
  replace (Z.shiftr c 20) with 0 by (by rewrite Z.shiftr_div_pow2, Z.div_small).
  change (gen_sum 0) with 0. rewrite Z.lxor_0_r.
  change 0xFFFFF with (2 ^ 20 - 1). by rewrite land_mask, Z.mod_small.
Qed.

Lemma gen_sum_low b : word_ok b -> Z.land (gen_sum b) 1023 = 0 -> b = 0.
Proof.
  intros Hb. enough ((b =? 0) || negb (Z.land (gen_sum b) 1023 =? 0) = true) by lia.
  revert b Hb. apply (forallb_seqZ _ 0 1024). vm_compute. reflexivity.
Qed.

Lemma rs1024_shift_zero c : chk_ok c -> rs1024_shift c = 0 -> c = 0.
Proof.
  intros Hc H0. assert (Z.shiftr c 20 = 0) as Hb.
  { apply gen_sum_low.
    - rewrite Z.shiftr_div_pow2 by done. split; [apply Z.div_pos; lia|].
      apply Z.div_lt_upper_bound; lia.
    - unfold rs1024_shift in H0. rewrite rs1024_step_eq, Z.lxor_0_r in H0.
      apply Z.lxor_eq in H0. rewrite <- H0. by apply land_shiftl_low. }
  assert (0 <= c < 2 ^ 20) as Hc20.
  { rewrite Z.shiftr_div_pow2 in Hb by done. split; [lia|].
    apply Z.div_small_iff in Hb; lia. }
  rewrite rs1024_shift_small, Z.shiftl_mul_pow2 in H0 by done. lia.
Qed.

Lemma rs1024_step_inj a b v : chk_ok a -> chk_ok b -> rs1024_step a v = rs1024_step b v -> a = b.
Proof.
  intros Ha Hb. rewrite !rs1024_step_shift. intros H.
  apply Z.lxor_eq, rs1024_shift_zero; [by apply lxor_bound|].
  rewrite rs1024_shift_lxor. apply (f_equal (fun x => Z.lxor x v)) in H.
  rewrite !lxor_cancel in H. rewrite H. apply Z.lxor_nilpotent.
Qed.

(** ** Runs of the checksum *)

Abbreviation rs1024_run := (foldl rs1024_step).

Lemma word_ok_chk v : word_ok v -> 0 <= v < 2 ^ 30. Proof. lia. Qed.

Lemma rs1024_run_bound c vs : chk_ok c -> words_ok vs -> chk_ok (rs1024_run c vs).
Proof.
  intros Hc Hvs. revert c Hc. induction Hvs as [|v vs Hv _ IH]; intros c Hc; simpl; [done|].
  apply IH, rs1024_step_bound. lia.
Qed.

Lemma rs1024_run_inj a b vs :
  chk_ok a -> chk_ok b -> words_ok vs -> rs1024_run a vs = rs1024_run b vs -> a = b.
Proof.
  intros Ha Hb Hvs. revert a b Ha Hb.
  induction Hvs as [|v vs Hv _ IH]; intros a b Ha Hb; simpl; [done|].
  intros H. apply (rs1024_step_inj a b v); [done..|].
  apply IH; [apply rs1024_step_bound; lia..|done].
Qed.

(** At most three words are xored into the shifted state as they stand. *)
Lemma rs1024_run_short c vs :
  words_ok vs -> (length vs <= 3)%nat ->
  rs1024_run c vs = Z.lxor (rs1024_run c (replicate (length vs) 0)) (be_val 1024 vs).
Proof.
  induction vs as [|v vs IH] using rev_ind; [by rewrite Z.lxor_0_r|].
  intros [Hvs [Hv _]%Forall_cons]%Forall_app Hlen.
  rewrite length_app in *. simpl in Hlen. rewrite replicate_add, !foldl_app. simpl.
  rewrite !(rs1024_step_shift (rs1024_run _ _)), Z.lxor_0_r, IH by (done || lia).
  rewrite rs1024_shift_lxor, Z.lxor_assoc. f_equal.
  assert (0 <= be_val 1024 vs < 2 ^ 20).
  { pose proof (be_val_bound 1024 ltac:(lia) vs Hvs).
    assert (1024 ^ len vs <= 1024 ^ 2) by (apply Z.pow_le_mono_r; lia). lia. }
  rewrite rs1024_shift_small, (lxor_shiftl_add 10) by done.
  rewrite be_val_app. change (be_val 1024 [v]) with v. simpl. lia.
Qed.

Lemma be_val_checksum p :
  chk_ok p ->
  be_val 1024 ((fun i => Z.land (Z.shiftr p (10 * i)) 1023) <$> reverse (seqZ 0 3)) = p.
Proof.
  intros Hp. change (reverse (seqZ 0 3)) with [2; 1; 0]. csimpl.
  change 1023 with (2 ^ 10 - 1). rewrite !land_mask, !Z.shiftr_div_pow2 by done.
  rewrite <- (be_val_digits 1024 ltac:(lia) 3 p) at 4 by done. done.
Qed.

Lemma create_checksum_words data cust : words_ok (_rs1024_create_checksum data cust).
Proof.
  apply Forall_fmap, Forall_true. intros i. apply (land_ones_bound 10). lia.
Qed.
Lemma length_create_checksum data cust : length (_rs1024_create_checksum data cust) = 3%nat.
Proof. done. Qed.

Lemma customization_words cust : bytes_ok cust -> words_ok cust.
Proof. intros H. eapply Forall_impl; [exact H|]. unfold is_byte. simpl. lia. Qed.

(** ** Properties *)

Lemma rs1024_create_verify data cust :
  words_ok data -> bytes_ok cust ->
  _rs1024_verify_checksum (data ++ _rs1024_create_checksum data cust) cust = true.
Proof.
  intros Hd Hc%customization_words. unfold _rs1024_verify_checksum, _rs1024_polymod.
  rewrite app_assoc, foldl_app, rs1024_run_short by (apply create_checksum_words || done).
  rewrite length_create_checksum. unfold _rs1024_create_checksum.
  rewrite be_val_checksum.
  - unfold _rs1024_polymod. change (Z.to_nat CHECKSUM_LENGTH_WORDS) with 3%nat.
    rewrite (app_assoc cust), (foldl_app rs1024_step (cust ++ data)).
    rewrite <- Z.lxor_assoc, Z.lxor_nilpotent. done.
  - apply lxor_bound; [done| |done]. apply rs1024_run_bound; [done|].
    repeat apply Forall_app_2; try done. by apply Forall_replicate.
Qed.

(** The difference of two runs over the same words is a run of the difference. *)
Lemma rs1024_run_lxor a b vs :
  Z.lxor (rs1024_run a vs) (rs1024_run b vs) = rs1024_run (Z.lxor a b) (replicate (length vs) 0).
Proof.
  revert a b. induction vs as [|v vs IH]; intros a b; [done|]. cbn [foldl length replicate]. rewrite IH. f_equal.
  rewrite (rs1024_step_shift a v), (rs1024_step_shift b v), (rs1024_step_shift (Z.lxor a b) 0).
  rewrite lxor_swap, Z.lxor_nilpotent, !Z.lxor_0_r. symmetry. apply rs1024_shift_lxor.
Qed.

(** The state after a customization string, and the difference of the two after some words. *)
Definition rs1024_start (b : bool) : Z := rs1024_run 1 (_customization_string b).
Lemma rs1024_start_ok b : chk_ok (rs1024_start b).
Proof.
  enough ((0 <=? rs1024_start b) && (rs1024_start b <? 2 ^ 30) = true) by lia.
  destruct b; vm_compute; reflexivity.
Qed.
Lemma rs1024_start_differ b k : (1 <= k <= 3)%nat ->
  2 ^ 20 <= rs1024_run (Z.lxor (rs1024_start b) (rs1024_start (negb b))) (replicate k 0).
Proof.
  intros Hk. apply Z.leb_le.
  destruct k as [|[|[|[|k]]]]; [lia| | | |lia]; destruct b; vm_compute; reflexivity.
Qed.
(** The two customization strings leave states whose difference at most two words at the
    start of the data, or after its first word, cannot make up for. *)
Lemma rs1024_flip_detected l m m' r b :
  words_ok l -> words_ok m -> words_ok m' -> words_ok r ->
  length m = length m' -> (1 <= length m <= 2)%nat -> (length l <= 1)%nat ->
  _rs1024_verify_checksum (l ++ m ++ r) (_customization_string b) = true ->
  _rs1024_verify_checksum (l ++ m' ++ r) (_customization_string (negb b)) = false.
Proof.
  intros Hl Hm Hm' Hr Hlen Hlen2 Hl1.
  unfold _rs1024_verify_checksum, _rs1024_polymod. rewrite !foldl_app.
  intros H1%Z.eqb_eq. apply Z.eqb_neq. intros H2.
  pose proof (eq_trans H1 (eq_sym H2)) as H. clear H1 H2.
  fold (rs1024_start b) in H. fold (rs1024_start (negb b)) in H.
  pose proof (rs1024_start_ok b) as Hs1. pose proof (rs1024_start_ok (negb b)) as Hs2.
  pose proof (rs1024_start_differ b (length l + length m) ltac:(lia)) as Hfar.
  revert H Hs1 Hs2 Hfar. generalize (rs1024_start b), (rs1024_start (negb b)). intros s1 s2 H Hs1 Hs2 Hfar.
  apply rs1024_run_inj in H; [|apply rs1024_run_bound; [by apply rs1024_run_bound|done]..|done].
  rewrite (rs1024_run_short _ m), (rs1024_run_short _ m'), <- Hlen in H by (done || lia).
  assert (Z.lxor (rs1024_run (rs1024_run s1 l) (replicate (length m) 0))
            (rs1024_run (rs1024_run s2 l) (replicate (length m) 0)) =
          Z.lxor (be_val 1024 m) (be_val 1024 m')) as Hd.
  { apply Z.lxor_eq. rewrite lxor_swap. rewrite H. apply Z.lxor_nilpotent. }
  rewrite rs1024_run_lxor, length_replicate, (rs1024_run_lxor s1 s2 l) in Hd.
  rewrite <- foldl_app, <- replicate_add in Hd.
  assert (forall v, words_ok v -> length v = length m -> 0 <= be_val 1024 v < 2 ^ 20) as Hbv.
  { intros v Hv Hvl. pose proof (be_val_bound 1024 ltac:(lia) v Hv).
    assert (1024 ^ len v <= 1024 ^ 2) by (apply Z.pow_le_mono_r; lia). lia. }
  assert (0 <= Z.lxor (be_val 1024 m) (be_val 1024 m') < 2 ^ 20) as Hx
    by (apply lxor_bound; [done|by apply Hbv..]).
  rewrite <- Hd in Hx. lia.
Qed.

Lemma rs1024_burst_detected l m m' r cust :
  words_ok l -> words_ok m -> words_ok m' -> words_ok r -> bytes_ok cust ->
  length m = length m' -> (length m <= 3)%nat -> m <> m' ->
  _rs1024_verify_checksum (l ++ m ++ r) cust = true ->
  _rs1024_verify_checksum (l ++ m' ++ r) cust = false.
Proof.
  intros Hl Hm Hm' Hr Hc%customization_words Hlen Hlen3 Hne.
  unfold _rs1024_verify_checksum, _rs1024_polymod. rewrite !foldl_app.
  intros H1%Z.eqb_eq. apply Z.eqb_neq. intros H2. apply Hne.
  assert (chk_ok (rs1024_run (rs1024_run 1 cust) l)) as Hs
    by (apply rs1024_run_bound; [by apply rs1024_run_bound|done]).
  pose proof (eq_trans H1 (eq_sym H2)) as H3. clear H1 H2. rename H3 into H1.
  apply rs1024_run_inj in H1; [|by apply rs1024_run_bound..|done].
  rewrite (rs1024_run_short _ m), (rs1024_run_short _ m'), <- Hlen in H1 by (done || lia).
  apply (f_equal (Z.lxor (rs1024_run (rs1024_run (rs1024_run 1 cust) l)
    (replicate (length m) 0)))) in H1.
  rewrite <- !Z.lxor_assoc, !Z.lxor_nilpotent, !Z.lxor_0_l in H1.
  by apply (be_val_inj 1024 ltac:(lia)).
Qed.
