(* ===== verification/PyString.v ===== *)
(** * ASCII strings with the methods of [str] the code uses

    [s.lower()], [s.split()], [s.splitlines()], [" ".join(l)], [s.startswith]
    and slices.  The model covers ASCII text: characters from 128 up are
    ordinary characters without case, and are not white space. *)

From Stdlib Require Import Ascii.
From S2P Require Import Prelude.

#[local] Open Scope string_scope.
#[local] Open Scope Z_scope.

Definition code (c : ascii) : Z := Z.of_N (N_of_ascii c).

(** White space of [str.split] in the ASCII range. *)
Definition is_space (c : ascii) : bool :=
  let n := code c in ((9 <=? n) && (n <=? 13)) || ((28 <=? n) && (n <=? 32)).
(** Line boundaries of [str.splitlines] in the ASCII range ([\r\n] is one). *)
Definition is_line_break (c : ascii) : bool :=
  let n := code c in ((10 <=? n) && (n <=? 13)) || ((28 <=? n) && (n <=? 30)).

Definition lower_char (c : ascii) : ascii :=
  let n := N_of_ascii c in
  if ((65 <=? n) && (n <=? 90))%N then ascii_of_N (n + 32) else c.
Fixpoint str_lower (s : string) : string :=
  match s with EmptyString => "" | String c s => String (lower_char c) (str_lower s) end.

(** [s.split()]: [cur] is the token being read, reversed. *)
Fixpoint rev_string (s acc : string) : string :=
  match s with EmptyString => acc | String c s => rev_string s (String c acc) end.
Definition flush (cur : string) (rest : list string) : list string :=
  match cur with EmptyString => rest | _ => rev_string cur "" :: rest end.
Fixpoint split_aux (cur s : string) : list string :=
  match s with
  | EmptyString => flush cur []
  | String c s => if is_space c then flush cur (split_aux "" s) else split_aux (String c cur) s
  end.
Definition str_split (s : string) : list string := split_aux "" s.

(** [s.splitlines()] *)
Fixpoint splitlines_aux (cur : string) (after_cr : bool) (s : string) : list string :=
  match s with
  | EmptyString => flush cur []
  | String c s' =>
      if after_cr && (code c =? 10) then splitlines_aux "" false s'
      else if is_line_break c then
        rev_string cur "" :: splitlines_aux "" (code c =? 13) s'
      else splitlines_aux (String c cur) false s'
  end.
Definition str_splitlines (s : string) : list string := splitlines_aux "" false s.

(** [" ".join(l)] *)
Fixpoint str_join (l : list string) : string :=
  match l with
  | [] => ""
  | [w] => w
  | w :: l => w ++ " " ++ str_join l
  end.

Definition str_len (s : string) : Z := Z.of_nat (String.length s).
(** [s[:n]] and [t.startswith(s)] *)
Definition str_prefix_of (n : nat) (s : string) : string := String.substring 0 n s.
Definition startswith (t s : string) : bool := String.prefix s t.

(** ** Splitting undoes joining *)

Fixpoint no_space (s : string) : bool :=
  match s with EmptyString => true | String c s => negb (is_space c) && no_space s end.
Definition token_ok (s : string) : bool :=
  negb (String.eqb s "") && no_space s.

Lemma string_app_assoc (a b c : string) : (a ++ b) ++ c = a ++ b ++ c.
Proof. induction a as [|d a IH]; [done|exact (f_equal (String d) IH)]. Qed.
Lemma string_app_nil_r (a : string) : a ++ "" = a.
Proof. induction a as [|d a IH]; [done|exact (f_equal (String d) IH)]. Qed.

Lemma rev_string_app s acc : rev_string s acc = rev_string s "" ++ acc.
Proof.
  revert acc. induction s as [|c s IH]; intros acc; [done|]. simpl.
  rewrite (IH (String c acc)), (IH (String c "")). by rewrite string_app_assoc.
Qed.

Lemma rev_string_involutive s : forall acc, rev_string (rev_string s acc) "" = rev_string acc s.
Proof. induction s as [|c s IH]; intros acc; [done|]. simpl. by rewrite IH. Qed.

(** Reading a token moves it, reversed, into the accumulator. *)
Lemma split_aux_token w s cur :
  no_space w = true -> split_aux cur (w ++ s) = split_aux (rev_string w cur) s.
Proof.
  revert cur. induction w as [|c w IH]; intros cur; simpl; [done|].
  intros [Hc Hw]%andb_prop. rewrite (negb_true_iff _) in Hc. rewrite Hc. by apply IH.
Qed.

Lemma flush_rev w rest : w <> "" -> flush (rev_string w "") rest = w :: rest.
Proof.
  intros Hne. unfold flush. destruct (rev_string w "") eqn:E.
  - exfalso. apply Hne. pose proof (rev_string_involutive w "") as H.
    rewrite E in H. exact (eq_sym H).
  - rewrite <- E. by rewrite rev_string_involutive.
Qed.

Lemma token_ok_inv w : token_ok w = true -> w <> "" /\ no_space w = true.
Proof.
  unfold token_ok. intros [H1 H2]%andb_prop. split; [|done].
  intros ->. done.
Qed.

Lemma str_split_join l : Forall (fun w => token_ok w = true) l -> str_split (str_join l) = l.
Proof.
  unfold str_split. induction 1 as [|w l Hw Hl IH]; [done|].
  apply token_ok_inv in Hw as [Hne Hns]. destruct l as [|w' l].
  - simpl. rewrite <- (string_app_nil_r w) at 1.
    rewrite split_aux_token by done. simpl. by apply flush_rev.
  - change (str_join (w :: w' :: l)) with (w ++ String " " (str_join (w' :: l))).
    rewrite split_aux_token by done. cbn [split_aux]. simpl is_space.
    cbv iota. rewrite flush_rev by done. by rewrite IH.
Qed.
