(* ===== verification/Aes.v ===== *)
(** * AES in CTR mode: restore/_aes_pure.py

    The key schedule, the encryption of a block by in-place updates of a
    16-element state, and CTR mode, as the code runs them (a wrong length raises).
    AesProps.v proves what they compute. *)

From S2P Require Import Prelude Lagrange Gf256.

(** ** Tables *)

Definition _SBOX : list Z :=
  [99; 124; 119; 123; 242; 107; 111; 197; 48; 1; 103; 43; 254; 215; 171; 118;
   202; 130; 201; 125; 250; 89; 71; 240; 173; 212; 162; 175; 156; 164; 114; 192;
   183; 253; 147; 38; 54; 63; 247; 204; 52; 165; 229; 241; 113; 216; 49; 21;
   4; 199; 35; 195; 24; 150; 5; 154; 7; 18; 128; 226; 235; 39; 178; 117;
   9; 131; 44; 26; 27; 110; 90; 160; 82; 59; 214; 179; 41; 227; 47; 132;
   83; 209; 0; 237; 32; 252; 177; 91; 106; 203; 190; 57; 74; 76; 88; 207;
   208; 239; 170; 251; 67; 77; 51; 133; 69; 249; 2; 127; 80; 60; 159; 168;
   81; 163; 64; 143; 146; 157; 56; 245; 188; 182; 218; 33; 16; 255; 243; 210;
   205; 12; 19; 236; 95; 151; 68; 23; 196; 167; 126; 61; 100; 93; 25; 115;
   96; 129; 79; 220; 34; 42; 144; 136; 70; 238; 184; 20; 222; 94; 11; 219;
   224; 50; 58; 10; 73; 6; 36; 92; 194; 211; 172; 98; 145; 149; 228; 121;
   231; 200; 55; 109; 141; 213; 78; 169; 108; 86; 244; 234; 101; 122; 174; 8;
   186; 120; 37; 46; 28; 166; 180; 198; 232; 221; 116; 31; 75; 189; 139; 138;
   112; 62; 181; 102; 72; 3; 246; 14; 97; 53; 87; 185; 134; 193; 29; 158;
   225; 248; 152; 17; 105; 217; 142; 148; 155; 30; 135; 233; 206; 85; 40; 223;
   140; 161; 137; 13; 191; 230; 66; 104; 65; 153; 45; 15; 176; 84; 187; 22].
Definition _RCON : list Z := [1; 2; 4; 8; 16; 32; 64; 128; 27; 54].

Definition _xtime (a : Z) : Z :=
  if negb (Z.land a 0x80 =? 0) then Z.land (Z.lxor (Z.shiftl a 1) 0x1B) 0xFF
  else Z.land (Z.shiftl a 1) 0xFF.

(** One turn of the loop of [_gf_mul]. *)
Definition gf_mul_step (s : Z * Z * Z) : Z * Z * Z :=
  let '(result, temp, b) := s in
  let result := if negb (Z.land b 1 =? 0) then Z.lxor result temp else result in
  (result, _xtime temp, Z.shiftr b 1).
Definition _gf_mul (a b : Z) : Z := (Nat.iter 8 gf_mul_step (0, a, b)).1.1.

Definition _MUL2 : list Z := Eval vm_compute in _gf_mul 2 <$> seqZ 0 256.
Definition _MUL3 : list Z := Eval vm_compute in _gf_mul 3 <$> seqZ 0 256.

(** ** Key schedule *)

Definition _sub_word (w : Z) : res Z :=
  a ← py_get _SBOX (Z.land (Z.shiftr w 24) 0xFF);
  b ← py_get _SBOX (Z.land (Z.shiftr w 16) 0xFF);
  c ← py_get _SBOX (Z.land (Z.shiftr w 8) 0xFF);
  d ← py_get _SBOX (Z.land w 0xFF);
  Ok (Z.lor (Z.lor (Z.lor (Z.shiftl a 24) (Z.shiftl b 16)) (Z.shiftl c 8)) d).

Definition _rot_word (w : Z) : Z :=
  Z.land (Z.lor (Z.shiftl w 8) (Z.shiftr w 24)) 0xFFFFFFFF.

(** The body of the loop that extends the word list. *)
Definition schedule_step (nk : Z) (w : list Z) (i : Z) : res (list Z) :=
  temp ← py_get w (i - 1);
  temp ← (if i `mod` nk =? 0 then
            s ← _sub_word (_rot_word temp); r ← py_get _RCON (i / nk - 1);
            Ok (Z.lxor s (Z.shiftl r 24))
          else if (6 <? nk) && (i `mod` nk =? 4) then _sub_word temp
          else Ok temp);
  prev ← py_get w (i - nk);
  Ok (w ++ [Z.lxor prev temp]).

(** [struct.unpack(">nI", data)] for [4 * n] bytes, and [struct.pack(">4I", ...)]. *)
Fixpoint unpack_words (data : bytes) : list Z :=
  match data with
  | a :: b :: c :: d :: data => int_from_be [a; b; c; d] :: unpack_words data
  | _ => []
  end.
Definition pack_words (ws : list Z) : bytes := ws ≫= be_digits 256 4.

(** [AES-128]: four key words and ten rounds; [AES-256]: eight and fourteen. *)
Definition key_sizes (key_len : Z) : res (Z * Z) :=
  if key_len =? 16 then Ok (4, 10)
  else if key_len =? 32 then Ok (8, 14)
  else Err ValueError.

Definition round_key (w : list Z) (r : Z) : res bytes :=
  ws ← mapM_res (fun i => py_get w (4 * r + i)) [0; 1; 2; 3];
  Ok (pack_words ws).

Definition key_schedule (key : bytes) : res (list bytes) :=
  '(nk, nr) ← key_sizes (len key);
  let total_words := 4 * (nr + 1) in
  w ← foldM (schedule_step nk) (unpack_words key) (seqZ nk (total_words - nk));
  mapM_res (round_key w) (seqZ 0 (nr + 1)).

(** ** One block *)

(** [state[i] = f(state[i])] for every [i] of [idx]. *)
Definition update_each_byte (f : Z -> Z -> res Z) (state : list Z) (idx : list Z) : res (list Z) :=
  foldM (fun st i => x ← py_get st i; y ← f i x; py_set st i y) state idx.

Definition _sub_bytes (state : list Z) : res (list Z) :=
  update_each_byte (fun _ x => py_get _SBOX x) state (seqZ 0 16).

(** [state[i1], state[i2], ... = state[j1], state[j2], ...] *)
Definition assign (dst src : list Z) (state : list Z) : res (list Z) :=
  vs ← mapM_res (py_get state) src;
  foldM (fun st (iv : Z * Z) => py_set st iv.1 iv.2) state (zip dst vs).

Definition _shift_rows (state : list Z) : res (list Z) :=
  state ← assign [1; 5; 9; 13] [5; 9; 13; 1] state;
  state ← assign [2; 6; 10; 14] [10; 14; 2; 6] state;
  assign [3; 7; 11; 15] [15; 3; 7; 11] state.

Definition mix_column (state : list Z) (c : Z) : res (list Z) :=
  let i := 4 * c in
  s0 ← py_get state i; s1 ← py_get state (i + 1);
  s2 ← py_get state (i + 2); s3 ← py_get state (i + 3);
  m20 ← py_get _MUL2 s0; m31 ← py_get _MUL3 s1;
  state ← py_set state i (Z.lxor (Z.lxor (Z.lxor m20 m31) s2) s3);
  m21 ← py_get _MUL2 s1; m32 ← py_get _MUL3 s2;
  state ← py_set state (i + 1) (Z.lxor (Z.lxor (Z.lxor s0 m21) m32) s3);
  m22 ← py_get _MUL2 s2; m33 ← py_get _MUL3 s3;
  state ← py_set state (i + 2) (Z.lxor (Z.lxor (Z.lxor s0 s1) m22) m33);
  m30 ← py_get _MUL3 s0; m23 ← py_get _MUL2 s3;
  py_set state (i + 3) (Z.lxor (Z.lxor (Z.lxor m30 s1) s2) m23).
Definition _mix_columns (state : list Z) : res (list Z) := foldM mix_column state (seqZ 0 4).

Definition _add_round_key (rk : bytes) (state : list Z) : res (list Z) :=
  update_each_byte (fun i x => k ← py_get rk i; Ok (Z.lxor x k)) state (seqZ 0 16).

Definition aes_round (round_keys : list bytes) (state : list Z) (rnd : Z) : res (list Z) :=
  state ← _sub_bytes state;
  state ← _shift_rows state;
  state ← _mix_columns state;
  rk ← py_get round_keys rnd;
  _add_round_key rk state.

(** The state is a list of bytes throughout, so [bytes(state)] is the list. *)
Definition aes_encrypt_block (block : bytes) (round_keys : list bytes) : res bytes :=
  let nr := len round_keys - 1 in
  rk0 ← py_get round_keys 0;
  state ← _add_round_key rk0 block;
  state ← foldM (aes_round round_keys) state (seqZ 1 (nr - 1));
  state ← _sub_bytes state;
  state ← _shift_rows state;
  rk ← py_get round_keys nr;
  _add_round_key rk state.

(** ** CTR mode *)

(** The carry runs from the last byte towards the first. *)
Fixpoint inc_from (ctr : bytes) (i : nat) : res bytes :=
  x ← py_get ctr (Z.of_nat i);
  let y := Z.land (x + 1) 0xFF in
  ctr ← py_set ctr (Z.of_nat i) y;
  if negb (y =? 0) then Ok ctr
  else match i with O => Ok ctr | S i => inc_from ctr i end.
Definition _inc_counter (ctr : bytes) : res bytes := inc_from ctr 15.

(** [out[offset + i] = data[offset + i] ^ keystream[i]] for [i] below [chunk]. *)
Definition xor_chunk (data keystream : bytes) (offset chunk : Z) (out : bytes) : res bytes :=
  foldM (fun out i =>
      d ← py_get data (offset + i); k ← py_get keystream i;
      py_set out (offset + i) (Z.lxor d k)) out (seqZ 0 chunk).

(** The loop: each turn moves [offset] by at least one, so [len data] turns are
    enough. *)
Fixpoint ctr_loop (fuel : nat) (rk : list bytes) (data counter out : bytes) (offset : Z) :
    res bytes :=
  if len data <=? offset then Ok out
  else match fuel with
  | O => Err OutOfFuel
  | S fuel =>
      keystream ← aes_encrypt_block counter rk;
      let chunk := Z.min 16 (len data - offset) in
      out ← xor_chunk data keystream offset chunk out;
      counter ← _inc_counter counter;
      ctr_loop fuel rk data counter out (offset + chunk)
  end.
Definition aes_ctr (key iv data : bytes) : res bytes :=
  rk ← key_schedule key;
  ctr_loop (length data) rk data iv (replicate (length data) 0) 0.

(** ** FIPS 197 test vectors *)

Example aes_128_vector :
  (rk ← key_schedule (seqZ 0 16);
   aes_encrypt_block ((fun i => 17 * i) <$> seqZ 0 16) rk)
  = Ok [0x69; 0xc4; 0xe0; 0xd8; 0x6a; 0x7b; 0x04; 0x30; 0xd8; 0xcd; 0xb7; 0x80; 0x70; 0xb4; 0xc5; 0x5a].
Proof. vm_compute. reflexivity. Qed.
Example aes_256_vector :
  (rk ← key_schedule (seqZ 0 32);
   aes_encrypt_block ((fun i => 17 * i) <$> seqZ 0 16) rk)
  = Ok [0x8e; 0xa2; 0xb7; 0xca; 0x51; 0x67; 0x45; 0xbf; 0xea; 0xfc; 0x49; 0x90; 0x4b; 0x49; 0x60; 0x89].
Proof. vm_compute. reflexivity. Qed.

(** ** FIPS 197: the cipher AES

    A reference in the terms of the standard: the S-box from the inverse in the
    field of Gf256.v and the affine map, rows and columns of the state, the matrix
    of MixColumns, the expanded key as words of four bytes; and that the tables of
    Aes.v are those of the standard. *)

(** ** FIPS 197 *)

Definition rotl8 (b k : Z) : Z := Z.land (Z.lor (Z.shiftl b k) (Z.shiftr b (8 - k))) 0xFF.
(** Section 5.1.1: the inverse, then the affine transformation. *)
Definition sbox (b : Z) : Z :=
  let i := ginv b in
  Z.lxor (Z.lxor (Z.lxor (Z.lxor (Z.lxor i (rotl8 i 1)) (rotl8 i 2)) (rotl8 i 3)) (rotl8 i 4)) 0x63.

(** The byte of the state in row [r] and column [c]; the state from its bytes. *)
Definition cell (st : bytes) (r c : nat) : Z := nth (r + 4 * c) st 0.
Definition cells (f : nat -> nat -> Z) : bytes :=
  c ← seq 0 4; (fun r => f r c) <$> seq 0 4.

Definition SubBytes (st : bytes) : bytes := cells (fun r c => sbox (cell st r c)).
Definition ShiftRows (st : bytes) : bytes := cells (fun r c => cell st r ((c + r) mod 4)).
(** A row of the product with a circulant matrix, given by its first row. *)
Definition circulant (m : list Z) (st : bytes) (r c : nat) : Z :=
  let t k := gmul (nth ((k + 4 - r) mod 4) m 0) (cell st k c) in
  Z.lxor (Z.lxor (Z.lxor (t 0%nat) (t 1%nat)) (t 2%nat)) (t 3%nat).
Definition MixColumns (st : bytes) : bytes := cells (circulant [2; 3; 1; 1] st).
Definition AddRoundKey (rk st : bytes) : bytes := cells (fun r c => Z.lxor (cell st r c) (cell rk r c)).

Definition fips_round (st : bytes) (rk : bytes) : bytes :=
  AddRoundKey rk (MixColumns (ShiftRows (SubBytes st))).
(** The cipher for a first key, the keys of the middle rounds and a last key. *)
Definition Cipher (first last : bytes) (middle : list bytes) (block : bytes) : bytes :=
  AddRoundKey last (ShiftRows (SubBytes (foldl fips_round (AddRoundKey first block) middle))).

(** Section 5.2: the expanded key as a list of words, each of four bytes. *)
Definition SubWord (w : bytes) : bytes := sbox <$> w.
Definition RotWord (w : bytes) : bytes := drop 1 w ++ take 1 w.
Definition Rcon (i : Z) : bytes := [Nat.iter (Z.to_nat (i - 1)) (gmul 2) 1; 0; 0; 0].
Definition xor_words (a b : bytes) : bytes := zip_with Z.lxor a b.
Definition next_word (nk i : Z) (temp : bytes) : bytes :=
  if i `mod` nk =? 0 then xor_words (SubWord (RotWord temp)) (Rcon (i / nk))
  else if (6 <? nk) && (i `mod` nk =? 4) then SubWord temp
  else temp.
Definition KeyExpansion (key : bytes) (nk nr : Z) (w : list bytes) : Prop :=
  len w = 4 * (nr + 1) /\ Forall (fun x => length x = 4%nat /\ bytes_ok x) w /\
  mjoin (take (Z.to_nat nk) w) = key /\
  forall i, nk <= i < len w ->
    exists temp prev, w !! Z.to_nat (i - 1) = Some temp /\ w !! Z.to_nat (i - nk) = Some prev /\
      w !! Z.to_nat i = Some (xor_words prev (next_word nk i temp)).

(** ** A state of sixteen bytes *)

Definition state_ok (st : bytes) : Prop := length st = 16%nat /\ bytes_ok st.

(** Names the sixteen bytes of a state. *)
Lemma state_ok_cells st : state_ok st -> st = cells (cell st).
Proof.
  intros [Hl _]. do 16 (destruct st as [|? st]; [done|]). by destruct st.
Qed.
Ltac state_bytes st H :=
  let Hl := fresh in destruct H as [Hl H];
  do 16 (destruct st as [|? st]; [discriminate Hl|]); destruct st; [clear Hl|discriminate Hl];
  repeat match type of H with
  | Forall _ (_ :: _) => let Hx := fresh "Hb" in apply Forall_cons in H as [Hx H]
  end; clear H.

Lemma cells_ok f : (forall r c, is_byte (f r c)) -> state_ok (cells f).
Proof. intros Hf. split; [done|]. unfold cells. simpl. repeat constructor; apply Hf. Qed.
Lemma cell_byte st r c : state_ok st -> is_byte (cell st r c).
Proof.
  intros [_ H]. unfold cell. destruct (decide (r + 4 * c < length st)%nat) as [Hlt|Hge].
  - rewrite Forall_lookup in H. destruct (lookup_lt_is_Some_2 st _ Hlt) as [x Hx].
    rewrite (nth_lookup_Some _ _ _ _ Hx). by eapply H.
  - rewrite nth_overflow by lia. done.
Qed.
Lemma cells_ext f g : (forall r c, (r < 4)%nat -> (c < 4)%nat -> f r c = g r c) -> cells f = cells g.
Proof. intros H. unfold cells. simpl. rewrite !H by lia. done. Qed.
Lemma cell_cells f r c : (r < 4)%nat -> (c < 4)%nat -> cell (cells f) r c = f r c.
Proof.
  intros Hr Hc. do 4 (destruct r as [|r]; [do 4 (destruct c as [|c]; [done|]); lia|]). lia.
Qed.

(** ** Tables *)

Lemma get_SBOX x : is_byte x -> py_get _SBOX x = Ok (sbox x).
Proof.
  intros Hx. enough (bool_decide (py_get _SBOX x = Ok (sbox x)) = true) as H
    by exact (bool_decide_eq_true_1 _ H).
  revert x Hx. check_bytes.
Qed.
Lemma get_MUL2 x : is_byte x -> py_get _MUL2 x = Ok (gmul 2 x).
Proof.
  intros Hx. enough (bool_decide (py_get _MUL2 x = Ok (gmul 2 x)) = true) as H
    by exact (bool_decide_eq_true_1 _ H).
  revert x Hx. check_bytes.
Qed.
Lemma get_MUL3 x : is_byte x -> py_get _MUL3 x = Ok (gmul 3 x).
Proof.
  intros Hx. enough (bool_decide (py_get _MUL3 x = Ok (gmul 3 x)) = true) as H
    by exact (bool_decide_eq_true_1 _ H).
  revert x Hx. check_bytes.
Qed.
Lemma sbox_byte x : is_byte x -> is_byte (sbox x).
Proof.
  intros Hx. enough (bool_decide (is_byte (sbox x)) = true) as H by exact (bool_decide_eq_true_1 _ H).
  revert x Hx. check_bytes.
Qed.
Lemma sbox_inj x y : is_byte x -> is_byte y -> sbox x = sbox y -> x = y.
Proof.
  intros Hx Hy E. assert (NoDup (sbox <$> seqZ 0 256)) as Hnd
    by (apply (bool_decide_unpack _); vm_compute; exact I).
  assert (forall z, is_byte z -> (sbox <$> seqZ 0 256) !! Z.to_nat z = Some (sbox z)) as Hl.
  { intros z Hz. rewrite list_lookup_fmap, lookup_seqZ_lt by (unfold is_byte in Hz; lia). cbn.
    do 2 f_equal. unfold is_byte in Hz. lia. }
  assert (Z.to_nat x = Z.to_nat y); [|unfold is_byte in *; lia].
  apply (NoDup_lookup _ _ _ (sbox x) Hnd); [by apply Hl|]. rewrite E. by apply Hl.
Qed.
