(* ===== verification/AesProps.v ===== *)
(** * AES computes the cipher of FIPS 197

    The in-place code of Aes.v computes the reference at the end of Aes.v.  A block cipher
    is a permutation, so CTR mode does not repeat a key stream block. *)

From Stdlib Require Import Field.
From S2P Require Import Prelude Lagrange Gf256 Aes.

(** ** The steps of a round *)

(** Updating every element in place maps over the list. *)
Lemma update_each_byte_spec f g done_ st :
  (forall i x, st !! i = Some x -> f (len done_ + Z.of_nat i) x = Ok (g (length done_ + i)%nat x)) ->
  update_each_byte f (done_ ++ st) (seqZ (len done_) (len st))
    = Ok (done_ ++ imap (fun i => g (length done_ + i)%nat) st).
Proof.
  unfold update_each_byte. revert done_. induction st as [|x st IH]; intros done_ H.
  - by rewrite !app_nil_r, seqZ_nil by (cbn; lia).
  - rewrite seqZ_cons by (cbn; lia). cbn [foldM imap].
    rewrite (py_get_nat _ _ x) by by apply list_lookup_middle.
    rewrite bind_Ok. pose proof (H O x eq_refl) as H0. rewrite Z.add_0_r, Nat.add_0_r in H0.
    rewrite H0, bind_Ok. rewrite py_set_nat by (rewrite length_app; cbn; lia).
    rewrite bind_Ok, insert_app_r_alt, Nat.sub_diag by lia. cbn [insert list_insert].
    rewrite cons_middle, app_assoc.
    replace (Z.succ (len done_)) with (len (done_ ++ [g (length done_) x]))
      by (rewrite length_app; cbn; lia).
    replace (Z.pred (len (x :: st))) with (len st) by (cbn; lia).
    rewrite IH.
    + rewrite <- app_assoc, Nat.add_0_r. do 2 f_equal. cbn. f_equal. apply imap_ext.
      intros i y _. cbn. rewrite length_app. cbn. f_equal. lia.
    + intros i y Hy. specialize (H (S i) y Hy). rewrite length_app. cbn [length].
      replace (Z.of_nat (length done_ + 1) + Z.of_nat i) with (len done_ + Z.of_nat (S i)) by lia.
      rewrite H. do 2 f_equal. lia.
Qed.
Lemma update_state f g st :
  length st = 16%nat ->
  (forall i x, st !! i = Some x -> f (Z.of_nat i) x = Ok (g i x)) ->
  update_each_byte f st (seqZ 0 16) = Ok (imap g st).
Proof.
  intros Hl H. pose proof (update_each_byte_spec f g [] st) as E. cbn [length app] in E.
  change (Z.of_nat 0) with 0 in E. rewrite Hl in E. apply E. intros i x. rewrite Z.add_0_l. apply H.
Qed.

Lemma imap_cells st g : state_ok st -> imap g st = cells (fun r c => g (r + 4 * c)%nat (cell st r c)).
Proof. intros H. state_bytes st H. reflexivity. Qed.

Lemma sub_bytes_spec st : state_ok st -> _sub_bytes st = Ok (SubBytes st).
Proof.
  intros H. unfold _sub_bytes. rewrite (update_state _ (fun _ => sbox)).
  - by rewrite imap_cells.
  - apply H.
  - intros i x Hx. apply get_SBOX. destruct H as [_ H]. rewrite Forall_lookup in H. eauto.
Qed.
Lemma add_round_key_spec rk st :
  state_ok st -> state_ok rk -> _add_round_key rk st = Ok (AddRoundKey rk st).
Proof.
  intros H [Hk _]. unfold _add_round_key. rewrite (update_state _ (fun i x => Z.lxor x (nth i rk 0))).
  - by rewrite imap_cells.
  - apply H.
  - intros i x Hx%lookup_lt_Some. destruct H as [Hl _].
    destruct (lookup_lt_is_Some_2 rk i) as [k Hi]; [lia|].
    by rewrite (py_get_nat rk _ k Hi), bind_Ok, (nth_lookup_Some _ _ _ _ Hi).
Qed.
Lemma shift_rows_spec st : state_ok st -> _shift_rows st = Ok (ShiftRows st).
Proof. intros H. state_bytes st H. reflexivity. Qed.

Lemma mix_column_spec st c s0 s1 s2 s3 :
  (4 * c + 3 < length st)%nat ->
  st !! (4 * c)%nat = Some s0 -> st !! (4 * c + 1)%nat = Some s1 ->
  st !! (4 * c + 2)%nat = Some s2 -> st !! (4 * c + 3)%nat = Some s3 ->
  is_byte s0 -> is_byte s1 -> is_byte s2 -> is_byte s3 ->
  mix_column st (Z.of_nat c) =
    let x a b c d := Z.lxor (Z.lxor (Z.lxor a b) c) d in
    Ok (<[(4 * c + 3)%nat := x (gmul 3 s0) s1 s2 (gmul 2 s3)]>
       (<[(4 * c + 2)%nat := x s0 s1 (gmul 2 s2) (gmul 3 s3)]>
       (<[(4 * c + 1)%nat := x s0 (gmul 2 s1) (gmul 3 s2) s3]>
       (<[(4 * c)%nat := x (gmul 2 s0) (gmul 3 s1) s2 s3]> st)))).
Proof.
  intros Hl H0 H1 H2 H3 B0 B1 B2 B3. unfold mix_column. cbv zeta.
  replace (4 * Z.of_nat c) with (Z.of_nat (4 * c)) by lia.
  replace (Z.of_nat (4 * c) + 1) with (Z.of_nat (4 * c + 1)) by lia.
  replace (Z.of_nat (4 * c) + 2) with (Z.of_nat (4 * c + 2)) by lia.
  replace (Z.of_nat (4 * c) + 3) with (Z.of_nat (4 * c + 3)) by lia.
  rewrite (py_get_nat st _ s0 H0), bind_Ok, (py_get_nat st _ s1 H1), bind_Ok,
    (py_get_nat st _ s2 H2), bind_Ok, (py_get_nat st _ s3 H3), bind_Ok.
  repeat first
    [ rewrite get_MUL2 by done | rewrite get_MUL3 by done | rewrite bind_Ok
    | rewrite py_set_nat by (rewrite ?length_insert; lia) ].
  done.
Qed.
Lemma mix_columns_spec st : state_ok st -> _mix_columns st = Ok (MixColumns st).
Proof.
  intros H. state_bytes st H. unfold _mix_columns.
  change (seqZ 0 4) with [Z.of_nat 0; Z.of_nat 1; Z.of_nat 2; Z.of_nat 3]. cbn [foldM].
  do 4 (erewrite mix_column_spec; [|cbn; lia|reflexivity..|done|done|done|done];
    cbv zeta; rewrite bind_Ok; cbn [insert list_insert Nat.add Nat.mul]).
  unfold MixColumns, circulant. cbn -[gmul Z.lxor].
  by rewrite !gmul_1_l.
Qed.

(** ** A block *)

Lemma SubBytes_ok st : state_ok st -> state_ok (SubBytes st).
Proof. intros H. apply cells_ok. intros. by apply sbox_byte, cell_byte. Qed.
Lemma ShiftRows_ok st : state_ok st -> state_ok (ShiftRows st).
Proof. intros H. apply cells_ok. intros. by apply cell_byte. Qed.
Lemma MixColumns_ok st : state_ok st -> state_ok (MixColumns st).
Proof. intros H. apply cells_ok. intros. unfold circulant. auto using lxor_byte, gmul_byte. Qed.
Lemma AddRoundKey_ok rk st : state_ok rk -> state_ok st -> state_ok (AddRoundKey rk st).
Proof. intros Hk H. apply cells_ok. intros. auto using lxor_byte, cell_byte. Qed.
Create HintDb aes.
#[local] Hint Resolve SubBytes_ok ShiftRows_ok MixColumns_ok AddRoundKey_ok : aes.

Lemma fips_round_ok st rk : state_ok rk -> state_ok st -> state_ok (fips_round st rk).
Proof. unfold fips_round. auto with aes. Qed.
#[local] Hint Resolve fips_round_ok : aes.
Lemma fips_rounds_ok rks st :
  Forall state_ok rks -> state_ok st -> state_ok (foldl fips_round st rks).
Proof. intros H. revert st. induction H; intros st Hst; cbn [foldl]; auto with aes. Qed.
#[local] Hint Resolve fips_rounds_ok : aes.

Lemma aes_round_spec rks rnd rk st :
  rks !! rnd = Some rk -> state_ok rk -> state_ok st ->
  aes_round rks st (Z.of_nat rnd) = Ok (fips_round st rk).
Proof.
  intros Hr Hk H. unfold aes_round.
  rewrite sub_bytes_spec, bind_Ok by done. rewrite shift_rows_spec, bind_Ok by auto with aes.
  rewrite mix_columns_spec, bind_Ok by auto with aes. rewrite (py_get_nat _ _ rk Hr), bind_Ok.
  rewrite add_round_key_spec by auto with aes. done.
Qed.
(** The rounds from number [length pre] on. *)
Lemma aes_rounds_spec pre mid post st :
  Forall state_ok mid -> state_ok st ->
  foldM (aes_round (pre ++ mid ++ post)) st (seqZ (len pre) (len mid))
    = Ok (foldl fips_round st mid).
Proof.
  intros Hmid. revert pre st. induction Hmid as [|rk mid Hk Hmid IH]; intros pre st Hst.
  - by rewrite seqZ_nil by (cbn; lia).
  - rewrite seqZ_cons by (cbn; lia). cbn [foldM foldl].
    rewrite (aes_round_spec _ _ rk) by (done || by apply list_lookup_middle). rewrite bind_Ok.
    replace (Z.succ (len pre)) with (len (pre ++ [rk])) by (rewrite length_app; cbn; lia).
    replace (Z.pred (len (rk :: mid))) with (len mid) by (cbn; lia).
    cbn [app]. rewrite cons_middle, (app_assoc pre). apply IH. auto with aes.
Qed.

Lemma encrypt_block_spec first mid last block :
  Forall state_ok (first :: mid ++ [last]) -> state_ok block ->
  aes_encrypt_block block (first :: mid ++ [last]) = Ok (Cipher first last mid block).
Proof.
  intros [Hf [Hm [Hl _]%Forall_cons]%Forall_app]%Forall_cons Hb. unfold aes_encrypt_block.
  assert (len (first :: mid ++ [last]) - 1 = len mid + 1) as ->
    by (cbn [length]; rewrite length_app; cbn; lia).
  replace (len mid + 1 - 1) with (len mid) by lia. cbv zeta.
  change (py_get (first :: mid ++ [last]) 0) with (Ok first). rewrite bind_Ok.
  rewrite add_round_key_spec, bind_Ok by done.
  change (first :: mid ++ [last]) with ([first] ++ mid ++ [last]).
  rewrite (aes_rounds_spec [first]), bind_Ok by auto with aes.
  rewrite sub_bytes_spec, bind_Ok by auto with aes. rewrite shift_rows_spec, bind_Ok by auto with aes.
  replace (len mid + 1) with (Z.of_nat (S (length mid))) by lia.
  rewrite (py_get_nat _ _ last), bind_Ok by by apply list_lookup_middle.
  rewrite add_round_key_spec by auto with aes. done.
Qed.

(** ** The cipher is injective *)

Lemma cells_inj f g r c : cells f = cells g -> (r < 4)%nat -> (c < 4)%nat -> f r c = g r c.
Proof. intros E Hr Hc. rewrite <- (cell_cells f), <- (cell_cells g) by done. by rewrite E. Qed.
Lemma state_ext st st' :
  state_ok st -> state_ok st' ->
  (forall r c, (r < 4)%nat -> (c < 4)%nat -> cell st r c = cell st' r c) -> st = st'.
Proof.
  intros H H' E. rewrite (state_ok_cells st H), (state_ok_cells st' H'). by apply cells_ext.
Qed.

Lemma SubBytes_inj st st' : state_ok st -> state_ok st' -> SubBytes st = SubBytes st' -> st = st'.
Proof.
  intros H H' E. apply state_ext; [done..|]. intros r c Hr Hc.
  apply sbox_inj; [by apply cell_byte..|]. exact (cells_inj (fun r c => sbox (cell st r c)) (fun r c => sbox (cell st' r c)) r c E Hr Hc).
Qed.
Lemma ShiftRows_inj st st' : state_ok st -> state_ok st' -> ShiftRows st = ShiftRows st' -> st = st'.
Proof.
  intros H H' E. apply state_ext; [done..|]. intros r c Hr Hc.
  pose proof (cells_inj (fun r c => cell st r ((c + r) mod 4)) (fun r c => cell st' r ((c + r) mod 4))
    r ((c + (4 - r)) mod 4)%nat E Hr) as Hrc. cbv beta in Hrc.
  assert ((((c + (4 - r)) mod 4 + r) mod 4) = c)%nat as Hc'.
  { rewrite Nat.Div0.add_mod_idemp_l. replace (c + (4 - r) + r)%nat with (c + 1 * 4)%nat by lia.
    rewrite Nat.Div0.mod_add. by apply Nat.mod_small. }
  rewrite Hc' in Hrc. apply Hrc. by apply Nat.mod_upper_bound.
Qed.
Lemma AddRoundKey_inj rk st st' :
  state_ok st -> state_ok st' -> AddRoundKey rk st = AddRoundKey rk st' -> st = st'.
Proof.
  intros H H' E. apply state_ext; [done..|]. intros r c Hr Hc.
  pose proof (cells_inj (fun r c => Z.lxor (cell st r c) (cell rk r c))
    (fun r c => Z.lxor (cell st' r c) (cell rk r c)) r c E Hr Hc) as Hx. cbv beta in Hx.
  by rewrite <- (lxor_cancel (cell st r c) (cell rk r c)), Hx, lxor_cancel.
Qed.

(** InvMixColumns undoes MixColumns: the two matrices are inverse over the field. *)
Section mix_inverse.
Local Notation "a + b" := (gf_add a b).
Local Notation "a * b" := (gf_mul a b).
Add Ring gf_ring : (F_R gf_field_theory).

Definition gf_dot (m0 m1 m2 m3 s0 s1 s2 s3 : gf) : gf := m0 * s0 + m1 * s1 + m2 * s2 + m3 * s3.
Lemma gf_dot_rows i0 i1 i2 i3 a0 a1 a2 a3 b0 b1 b2 b3 c0 c1 c2 c3 d0 d1 d2 d3 s0 s1 s2 s3 :
  gf_dot i0 i1 i2 i3 (gf_dot a0 a1 a2 a3 s0 s1 s2 s3) (gf_dot b0 b1 b2 b3 s0 s1 s2 s3)
    (gf_dot c0 c1 c2 c3 s0 s1 s2 s3) (gf_dot d0 d1 d2 d3 s0 s1 s2 s3)
  = gf_dot (gf_dot i0 i1 i2 i3 a0 b0 c0 d0) (gf_dot i0 i1 i2 i3 a1 b1 c1 d1)
      (gf_dot i0 i1 i2 i3 a2 b2 c2 d2) (gf_dot i0 i1 i2 i3 a3 b3 c3 d3) s0 s1 s2 s3.
Proof. unfold gf_dot. ring. Qed.
End mix_inverse.

(** A row of a circulant matrix times a column, in the field. *)
Definition gf_row (m : list Z) (r : nat) (s0 s1 s2 s3 : gf) : gf :=
  let g k := to_gf (nth ((k + 4 - r) mod 4) m 0) in
  gf_dot (g 0%nat) (g 1%nat) (g 2%nat) (g 3%nat) s0 s1 s2 s3.
Lemma circulant_gf m st r c :
  bytes_ok m -> state_ok st ->
  circulant m st r c = gval (gf_row m r (to_gf (cell st 0 c)) (to_gf (cell st 1 c))
                               (to_gf (cell st 2 c)) (to_gf (cell st 3 c))).
Proof.
  intros Hm H. unfold circulant, gf_row, gf_dot, gf_add, gf_mul. cbn [proj1_sig gf_of dexist].
  assert (forall k, is_byte (nth k m 0)) as Hk.
  { intros k. destruct (nth_in_or_default k m 0) as [Hin| ->]; [|done].
    rewrite Forall_forall in Hm. by apply Hm, list_elem_of_In. }
  unfold gf_of. cbn [proj1_sig dexist]. rewrite !to_gf_val by (done || by apply cell_byte). done.
Qed.

Add Ring gf_ring' : (F_R gf_field_theory).
Lemma gf_row_inv r s0 s1 s2 s3 :
  (r < 4)%nat ->
  let m k := gf_row [2; 3; 1; 1] k s0 s1 s2 s3 in
  gf_row [14; 11; 13; 9] r (m 0%nat) (m 1%nat) (m 2%nat) (m 3%nat) = nth r [s0; s1; s2; s3] s0.
Proof.
  intros Hr m. unfold m, gf_row at 1. unfold gf_row. rewrite gf_dot_rows.
  transitivity (gf_dot (if decide (r = 0%nat) then gf_one else gf_zero)
                  (if decide (r = 1%nat) then gf_one else gf_zero)
                  (if decide (r = 2%nat) then gf_one else gf_zero)
                  (if decide (r = 3%nat) then gf_one else gf_zero) s0 s1 s2 s3).
  - f_equal; do 4 (destruct r as [|r]; [apply gf_eq; vm_compute; reflexivity|]); lia.
  - unfold gf_dot. do 4 (destruct r as [|r]; [cbn [decide nth]; simpl; ring|]); lia.
Qed.
Lemma MixColumns_inj st st' :
  state_ok st -> state_ok st' -> MixColumns st = MixColumns st' -> st = st'.
Proof.
  intros H H' E. apply state_ext; [done..|]. intros r c Hr Hc.
  set (g s k := to_gf (cell s k c)).
  assert (forall k, (k < 4)%nat -> gf_row [2; 3; 1; 1] k (g st 0%nat) (g st 1%nat) (g st 2%nat) (g st 3%nat)
    = gf_row [2; 3; 1; 1] k (g st' 0%nat) (g st' 1%nat) (g st' 2%nat) (g st' 3%nat)) as Hm.
  { intros k Hk. apply gf_eq. unfold g. rewrite <- !circulant_gf by first [done|repeat constructor; done].
    exact (cells_inj (circulant [2; 3; 1; 1] st) (circulant [2; 3; 1; 1] st') k c E Hk Hc). }
  pose proof (gf_row_inv r (g st 0%nat) (g st 1%nat) (g st 2%nat) (g st 3%nat) Hr) as Hi.
  cbv beta zeta in Hi. rewrite !Hm in Hi by lia. rewrite gf_row_inv in Hi by lia. clear Hm.
  assert (forall s, nth r [g s 0%nat; g s 1%nat; g s 2%nat; g s 3%nat] (g s 0%nat) = g s r) as Hg
    by (intros s; do 4 (destruct r as [|r]; [done|]); lia).
  rewrite !Hg in Hi. symmetry. apply to_gf_inj; [by apply cell_byte..|done].
Qed.

Lemma fips_round_inj rk st st' :
  state_ok st -> state_ok st' -> fips_round st rk = fips_round st' rk -> st = st'.
Proof.
  intros H H' E.
  by apply AddRoundKey_inj, MixColumns_inj, ShiftRows_inj, SubBytes_inj in E; auto with aes.
Qed.
Lemma fips_rounds_inj rks st st' :
  Forall state_ok rks -> state_ok st -> state_ok st' ->
  foldl fips_round st rks = foldl fips_round st' rks -> st = st'.
Proof.
  intros Hk. revert st st'. induction Hk as [|rk rks Hrk Hk IH]; intros st st' H H' E; [done|].
  cbn [foldl] in E. apply IH in E; [by apply fips_round_inj in E|auto with aes..].
Qed.
Lemma Cipher_inj first last mid b b' :
  state_ok first -> Forall state_ok mid -> state_ok b -> state_ok b' ->
  Cipher first last mid b = Cipher first last mid b' -> b = b'.
Proof.
  intros Hf Hm H H' E. unfold Cipher in E.
  apply AddRoundKey_inj, ShiftRows_inj, SubBytes_inj, fips_rounds_inj, AddRoundKey_inj in E;
    auto 6 with aes.
Qed.

(** ** The key schedule computes the key expansion of FIPS 197

    The code keeps a word as an integer of 32 bits, the standard as four bytes. *)

(** ** Words *)

Definition word_ok (w : Z) (bs : bytes) : Prop :=
  length bs = 4%nat /\ bytes_ok bs /\ w = be_val 256 bs.

Lemma word_bytes w bs : word_ok w bs -> exists a b c d, bs = [a; b; c; d] /\
  is_byte a /\ is_byte b /\ is_byte c /\ is_byte d /\ w = ((a * 256 + b) * 256 + c) * 256 + d.
Proof.
  intros (Hl & Hb & ->). do 4 (destruct bs as [|? bs]; [done|]). destruct bs; [|done].
  repeat match type of Hb with
  | Forall _ (_ :: _) => let Hx := fresh in apply Forall_cons in Hb as [Hx Hb]
  end. eexists _, _, _, _. split; [done|]. unfold be_val. cbn [foldl].
  split_and!; [done..|lia].
Qed.
Lemma word_of a b c d :
  is_byte a -> is_byte b -> is_byte c -> is_byte d ->
  word_ok (((a * 256 + b) * 256 + c) * 256 + d) [a; b; c; d].
Proof.
  intros. split; [done|]. split; [by decompose_Forall|]. unfold be_val. cbn [foldl]. lia.
Qed.

(** The bytes of a word, as the code extracts them. *)
Lemma byte_of_shift w n : 0 <= n -> Z.land (Z.shiftr w n) 0xFF = (w / 2 ^ n) `mod` 256.
Proof. intros Hn. rewrite (land_mask 8), Z.shiftr_div_pow2 by done. done. Qed.
Lemma lor_bytes a b c d :
  is_byte a -> is_byte b -> is_byte c -> is_byte d ->
  Z.lor (Z.lor (Z.lor (Z.shiftl a 24) (Z.shiftl b 16)) (Z.shiftl c 8)) d
    = ((a * 256 + b) * 256 + c) * 256 + d.
Proof.
  unfold is_byte. intros Ha Hb Hc Hd. rewrite <- !Z.lor_assoc.
  rewrite (lor_shiftl_add 8 c d) by lia. rewrite (lor_shiftl_add 16 b) by lia.
  rewrite (lor_shiftl_add 24 a) by lia. lia.
Qed.

Lemma sub_word_spec w bs :
  word_ok w bs -> exists w', _sub_word w = Ok w' /\ word_ok w' (SubWord bs).
Proof.
  intros (a & b & c & d & -> & Ha & Hb & Hc & Hd & ->)%word_bytes. unfold _sub_word.
  set (w := ((a * 256 + b) * 256 + c) * 256 + d). unfold is_byte in *.
  rewrite !byte_of_shift by lia. rewrite (land_mask 8) by lia.
  assert ((w / 2 ^ 24) `mod` 256 = a /\ (w / 2 ^ 16) `mod` 256 = b /\ (w / 2 ^ 8) `mod` 256 = c /\
          w `mod` 2 ^ 8 = d) as (-> & -> & -> & ->).
  { unfold w. change (2 ^ 24) with 16777216. change (2 ^ 16) with 65536. change (2 ^ 8) with 256.
    split_and!; Z.to_euclidean_division_equations; lia. }
  rewrite !get_SBOX by done. rewrite !bind_Ok. eexists. split; [done|].
  rewrite lor_bytes by by apply sbox_byte. by apply word_of; apply sbox_byte.
Qed.
Lemma rot_word_spec w bs : word_ok w bs -> word_ok (_rot_word w) (RotWord bs).
Proof.
  intros (a & b & c & d & -> & Ha & Hb & Hc & Hd & ->)%word_bytes.
  unfold _rot_word, RotWord. cbn [drop take app]. unfold is_byte in *.
  set (w := ((a * 256 + b) * 256 + c) * 256 + d).
  assert (Z.shiftr w 24 = a) as ->.
  { rewrite Z.shiftr_div_pow2 by lia. change (2 ^ 24) with 16777216. unfold w.
    Z.to_euclidean_division_equations; lia. }
  rewrite (lor_shiftl_add 8) by lia. rewrite (land_mask 32) by lia.
  assert ((w * 2 ^ 8 + a) `mod` 2 ^ 32 = ((b * 256 + c) * 256 + d) * 256 + a) as ->.
  { symmetry. apply Z.mod_unique_pos with a; [lia|]. unfold w. lia. }
  by apply word_of.
Qed.

Lemma lxor_add_byte x y d e :
  is_byte d -> is_byte e -> Z.lxor (x * 256 + d) (y * 256 + e) = Z.lxor x y * 256 + Z.lxor d e.
Proof.
  intros Hd He. change 256 with (2 ^ 8). rewrite <- !(lxor_shiftl_add 8) by (done || by apply (lxor_bound 8)).
  rewrite Z.shiftl_lxor. rewrite !Z.lxor_assoc. f_equal. rewrite <- !Z.lxor_assoc. f_equal. apply Z.lxor_comm.
Qed.
Lemma xor_words_spec w w' bs bs' :
  word_ok w bs -> word_ok w' bs' -> word_ok (Z.lxor w w') (xor_words bs bs').
Proof.
  intros (a & b & c & d & -> & Ha & Hb & Hc & Hd & ->)%word_bytes.
  intros (a' & b' & c' & d' & -> & Ha' & Hb' & Hc' & Hd' & ->)%word_bytes.
  rewrite !lxor_add_byte by done. cbn. by apply word_of; apply lxor_byte.
Qed.
Lemma rcon_spec j :
  1 <= j < 11 -> exists r, py_get _RCON (j - 1) = Ok r /\ word_ok (Z.shiftl r 24) (Rcon j).
Proof.
  intros Hj. set (r := Nat.iter (Z.to_nat (j - 1)) (gmul 2) 1).
  assert (bool_decide (py_get _RCON (j - 1) = Ok r /\ is_byte r) = true) as [Hr Hb]%bool_decide_eq_true_1.
  { unfold r. clear r. revert j Hj. apply (forallb_seqZ _ 1 10). vm_compute. reflexivity. }
  exists r. split; [done|]. unfold Rcon. fold r. rewrite Z.shiftl_mul_pow2 by lia.
  replace (r * 2 ^ 24) with (((r * 256 + 0) * 256 + 0) * 256 + 0) by lia. by apply word_of.
Qed.

(** ** The loop *)

Section schedule.
Context (nk nr : Z) (Hk : nk = 4 /\ nr = 10 \/ nk = 8 /\ nr = 14).

Lemma schedule_step_spec w ws :
  Forall2 word_ok w ws -> nk <= len w < 4 * (nr + 1) ->
  exists x temp prev,
    schedule_step nk w (len w) = Ok (w ++ [x]) /\
    ws !! Z.to_nat (len w - 1) = Some temp /\ ws !! Z.to_nat (len w - nk) = Some prev /\
    word_ok x (xor_words prev (next_word nk (len w) temp)).
Proof using Hk.
  intros Hw Hi. assert (4 <= nk) as Hnk by lia.
  destruct (lookup_lt_is_Some_2 w (Z.to_nat (len w - 1))) as [t Ht]; [lia|].
  destruct (lookup_lt_is_Some_2 w (Z.to_nat (len w - nk))) as [p Hp]; [lia|].
  destruct (Forall2_lookup_l _ _ _ _ _ Hw Ht) as (temp & Htemp & Hto).
  destruct (Forall2_lookup_l _ _ _ _ _ Hw Hp) as (prev & Hprev & Hpo).
  assert (py_get w (len w - 1) = Ok t) as Gt by (apply py_get_Some; [lia|done]).
  assert (py_get w (len w - nk) = Ok p) as Gp by (apply py_get_Some; [lia|done]).
  unfold schedule_step. rewrite Gt, bind_Ok, Gp.
  assert (exists t', (if len w `mod` nk =? 0 then
            s ← _sub_word (_rot_word t); r ← py_get _RCON (len w / nk - 1); Ok (Z.lxor s (Z.shiftl r 24))
          else if (6 <? nk) && (len w `mod` nk =? 4) then _sub_word t else Ok t) = Ok t' /\
          word_ok t' (next_word nk (len w) temp)) as (t' & -> & Ht').
  { unfold next_word. destruct (len w `mod` nk =? 0) eqn:E.
    - destruct (sub_word_spec _ _ (rot_word_spec _ _ Hto)) as (s & -> & Hs). rewrite bind_Ok.
      destruct (rcon_spec (len w / nk)) as (r & -> & Hr).
      { destruct Hk as [[-> ->]|[-> ->]]; Z.to_euclidean_division_equations; lia. }
      rewrite bind_Ok. eexists. split; [done|]. by apply xor_words_spec.
    - destruct (_ && _); [by apply sub_word_spec|by eexists]. }
  rewrite !bind_Ok. eexists _, temp, prev. split; [done|]. split; [done|]. split; [done|].
  by apply xor_words_spec.
Qed.

(** What the words built so far satisfy. *)
Definition expanding (key : list bytes) (ws : list bytes) : Prop :=
  take (Z.to_nat nk) ws = key /\
  forall i, nk <= i < len ws ->
    exists temp prev, ws !! Z.to_nat (i - 1) = Some temp /\ ws !! Z.to_nat (i - nk) = Some prev /\
      ws !! Z.to_nat i = Some (xor_words prev (next_word nk i temp)).

Lemma schedule_loop key w ws n :
  Forall2 word_ok w ws -> expanding key ws -> nk <= len w -> len w + Z.of_nat n <= 4 * (nr + 1) ->
  exists w' ws', foldM (schedule_step nk) w (seqZ (len w) (Z.of_nat n)) = Ok w' /\
    Forall2 word_ok w' ws' /\ expanding key ws' /\ len w' = len w + Z.of_nat n.
Proof using Hk.
  revert w ws. induction n as [|n IH]; intros w ws Hw [Hkey Hrec] Hlo Hhi.
  - exists w, ws. rewrite seqZ_nil by done. split; [done|]. split; [done|]. split; [done|lia].
  - pose proof (Forall2_length _ _ _ Hw) as Hl.
    destruct (schedule_step_spec w ws Hw ltac:(lia)) as (x & temp & prev & Hs & Ht & Hp & Hx).
    rewrite seqZ_cons by lia. cbn [foldM]. rewrite Hs, bind_Ok.
    set (y := xor_words prev (next_word nk (len w) temp)) in *.
    replace (Z.succ (len w)) with (len (w ++ [x])) by (rewrite length_app; cbn; lia).
    replace (Z.pred (Z.of_nat (S n))) with (Z.of_nat n) by lia.
    destruct (IH (w ++ [x]) (ws ++ [y])) as (w' & ws' & Hf & Hw' & He & Hlen).
    + apply Forall2_app; [done|]. constructor; [done|constructor].
    + split; [by rewrite take_app_le by lia|]. intros i Hi. rewrite length_app in Hi. cbn in Hi.
      destruct (decide (i = len ws)) as [->|Hne].
      * exists temp, prev. rewrite <- Hl. rewrite !lookup_app_l by lia. split; [done|]. split; [done|].
        rewrite lookup_app_r by lia. by replace (Z.to_nat (len w) - length ws)%nat with 0%nat by lia.
      * destruct (Hrec i) as (t & p & H1 & H2 & H3); [lia|]. exists t, p.
        rewrite !lookup_app_l by lia. done.
    + rewrite length_app. cbn. lia.
    + rewrite length_app. cbn. lia.
    + exists w', ws'. split; [done|]. split; [done|]. split; [done|]. rewrite Hlen, length_app. cbn. lia.
Qed.
End schedule.

(** ** Round keys *)

Lemma unpack_words_spec n key :
  length key = (4 * n)%nat -> bytes_ok key ->
  exists ws, Forall2 word_ok (unpack_words key) ws /\ mjoin ws = key /\ length ws = n.
Proof.
  revert key. induction n as [|n IH]; intros key Hl Hb.
  - destruct key; [|done]. exists []. split; [constructor|done].
  - destruct key as [|b0 [|b1 [|b2 [|b3 key]]]]; try (cbn in Hl; lia).
    destruct (IH key) as (ws & Hw & Hj & Hn); [cbn in Hl; lia|by decompose_Forall|].
    exists ([b0; b1; b2; b3] :: ws). split; [|split]; [|by rewrite <- Hj|cbn; by rewrite Hn].
    cbn [unpack_words]. constructor; [|done]. split; [done|]. split; [by decompose_Forall|done].
Qed.

Lemma be_digits_word w bs : word_ok w bs -> be_digits 256 4 w = bs.
Proof. intros (Hl & Hb & ->). rewrite <- Hl. by apply be_digits_val. Qed.

Definition fips_round_key (ws : list bytes) (r : nat) : bytes := mjoin (take 4 (drop (4 * r) ws)).

Lemma round_key_spec w ws r :
  Forall2 word_ok w ws -> (4 * r + 3 < length w)%nat ->
  round_key w (Z.of_nat r) = Ok (fips_round_key ws r) /\ state_ok (fips_round_key ws r).
Proof.
  intros Hw Hr. unfold round_key, fips_round_key.
  assert (exists a b c d A B C D, drop (4 * r) w = a :: b :: c :: d :: drop (4 * r + 4) w /\
    drop (4 * r) ws = A :: B :: C :: D :: drop (4 * r + 4) ws /\
    word_ok a A /\ word_ok b B /\ word_ok c C /\ word_ok d D)
    as (a & b & c & d & A & B & C & D & Ew & Es & Ha & Hb & Hc & Hd).
  { pose proof (Forall2_drop _ _ _ (4 * r) Hw) as Hdr. pose proof (length_drop w (4 * r)) as Hlen.
    rewrite <- !(drop_drop _ 4 (4 * r)).
    do 4 (destruct Hdr as [|? ? ? ? ? Hdr]; [cbn in Hlen; lia|]). cbn [drop].
    do 8 eexists. split; [done|]. split; [done|]. done. }
  assert (forall i x, (a :: b :: c :: d :: drop (4 * r + 4) w) !! i = Some x ->
            py_get w (4 * Z.of_nat r + Z.of_nat i) = Ok x) as Hget.
  { intros i x Hi. rewrite <- Ew, lookup_drop in Hi.
    replace (4 * Z.of_nat r + Z.of_nat i) with (Z.of_nat (4 * r + i)) by lia. by apply py_get_nat. }
  pose proof (Hget 0%nat a eq_refl) as Ga. pose proof (Hget 1%nat b eq_refl) as Gb.
  pose proof (Hget 2%nat c eq_refl) as Gc. pose proof (Hget 3%nat d eq_refl) as Gd.
  change (Z.of_nat 0) with 0 in Ga. change (Z.of_nat 1) with 1 in Gb.
  change (Z.of_nat 2) with 2 in Gc. change (Z.of_nat 3) with 3 in Gd. cbn [mapM_res].
  rewrite Ga, Gb, Gc, Gd, !bind_Ok, Es.
  change (pack_words [a; b; c; d]) with (be_digits 256 4 a ++ be_digits 256 4 b ++
    be_digits 256 4 c ++ be_digits 256 4 d ++ []).
  rewrite (be_digits_word a A), (be_digits_word b B), (be_digits_word c C), (be_digits_word d D) by done.
  split; [done|]. destruct Ha as (La & Ba & _), Hb as (Lb & Bb & _), Hc as (Lc & Bc & _), Hd as (Ld & Bd & _).
  cbn [take mjoin list_join]. split; [by rewrite !length_app, La, Lb, Lc, Ld|].
  repeat (apply Forall_app; split; [done|]). constructor.
Qed.

Lemma key_sizes_cases (key : bytes) :
  len key = 16 \/ len key = 32 ->
  exists nk nr, key_sizes (len key) = Ok (nk, nr) /\ (nk = 4 /\ nr = 10 \/ nk = 8 /\ nr = 14) /\
    len key = 4 * nk.
Proof. intros [->| ->]; [exists 4, 10|exists 8, 14]; auto. Qed.

(** The schedule of a key of 16 or 32 bytes: the round keys of its expansion. *)
Lemma key_schedule_spec key :
  len key = 16 \/ len key = 32 -> bytes_ok key ->
  exists nk nr ws, key_sizes (len key) = Ok (nk, nr) /\ (nk = 4 /\ nr = 10 \/ nk = 8 /\ nr = 14) /\
    KeyExpansion key nk nr ws /\
    key_schedule key = Ok (fips_round_key ws <$> seq 0 (Z.to_nat (nr + 1))) /\
    Forall state_ok (fips_round_key ws <$> seq 0 (Z.to_nat (nr + 1))).
Proof.
  intros Hlen Hb. destruct (key_sizes_cases key Hlen) as (nk & nr & Hs & Hk & Hl).
  destruct (unpack_words_spec (Z.to_nat nk) key) as (ws0 & Hw0 & Hj & Hn0); [lia|done|].
  pose proof (Forall2_length _ _ _ Hw0) as Hl0.
  destruct (schedule_loop nk nr Hk ws0 (unpack_words key) ws0 (Z.to_nat (4 * (nr + 1) - nk)))
    as (w & ws & Hf & Hw & [Hkey Hrec] & Hlw); [done| |lia|lia|].
  { split; [by rewrite take_ge by lia|]. intros i Hi. lia. }
  pose proof (Forall2_length _ _ _ Hw) as Hlws.
  assert (len w = 4 * (nr + 1)) as Hlw' by lia.
  exists nk, nr, ws. split; [done|]. split; [done|].
  assert (forall r, (r < Z.to_nat (nr + 1))%nat -> (4 * r + 3 < length w)%nat) as Hrng by lia.
  split; [|split].
  - split; [lia|]. split; [|split; [by rewrite Hkey|done]].
    apply Forall_lookup. intros i x Hi. destruct (Forall2_lookup_r _ _ _ _ _ Hw Hi) as (y & _ & Hy).
    destruct Hy as (? & ? & _). done.
  - unfold key_schedule. rewrite Hs, bind_Ok. cbv zeta.
    rewrite Hl0, Hn0 in Hf. rewrite !Z2Nat.id in Hf by lia. rewrite Hf, bind_Ok.
    rewrite (mapM_res_Ok _ (fun r => fips_round_key ws (Z.to_nat r))).
    + f_equal. unfold seqZ. rewrite <- list_fmap_compose. apply list_fmap_ext. intros i r _.
      unfold compose. by rewrite Z.add_0_r, Nat2Z.id.
    + intros r Hr%elem_of_seqZ. rewrite <- (Z2Nat.id r) at 1 by lia.
      apply round_key_spec; [done|]. apply Hrng. lia.
  - apply Forall_fmap, Forall_forall. intros r Hr%elem_of_seq. cbn.
    apply (round_key_spec w); [done|]. apply Hrng. lia.
Qed.
