(* ===== verification/AesCtr.v ===== *)
(** * AES as a whole: block encryption against FIPS 197 and CTR mode

    The theorems on Aes.v: a block is encrypted as the standard says, CTR mode is
    its own inverse on data of any length, and its key stream does not repeat. *)

From S2P Require Import Prelude Lagrange Gf256 Aes AesProps.

(** ** The counter *)

Lemma be_digits_snoc n v d :
  0 <= d < 256 -> be_digits 256 (S n) (v * 256 + d) = be_digits 256 n v ++ [d].
Proof.
  revert v. induction n as [|n IH]; intros v Hd.
  - cbn. rewrite Z.div_1_r, Z.add_comm, Z.mod_add by lia. by rewrite Z.mod_small.
  - change (be_digits 256 (S (S n)) (v * 256 + d))
      with (((v * 256 + d) / 256 ^ Z.of_nat (S n)) `mod` 256 :: be_digits 256 (S n) (v * 256 + d)).
    rewrite IH by done. cbn [be_digits app]. f_equal. f_equal.
    rewrite Nat2Z.inj_succ, Z.pow_succ_r by lia. rewrite <- Z.div_div by lia.
    rewrite Z.div_add_l, (Z.div_small d) by lia. by rewrite Z.add_0_r.
Qed.

Lemma inc_from_spec i a z :
  length a = S i -> bytes_ok a ->
  inc_from (a ++ z) i = Ok (be_digits 256 (S i) (be_val 256 a + 1) ++ z).
Proof.
  revert a z. induction i as [|i IH]; intros a z Hl Hb;
    destruct a as [|x a' _] using rev_ind; try (rewrite ?length_app in Hl; cbn in Hl; lia);
    apply Forall_app in Hb as [Ha' [Hx _]%Forall_cons]; rewrite length_app in Hl; cbn in Hl;
    cbn [inc_from].
  1: replace a' with (@nil Z) by (destruct a'; [done|cbn in Hl; lia]); clear Hl Ha'.
  all: rewrite (py_get_nat _ _ x) by (rewrite <- app_assoc; apply list_lookup_middle; cbn; lia).
  all: rewrite bind_Ok; cbv zeta; rewrite py_set_nat by (rewrite !length_app; cbn; lia).
  all: rewrite bind_Ok, (land_mask 8) by lia; change (2 ^ 8) with 256; unfold is_byte in Hx.
  all: rewrite <- app_assoc, insert_app_r_alt, be_val_app by (cbn; lia).
  all: change (be_val 256 [x]) with x; change (256 ^ len [x]) with 256.
  - cbn [length app Nat.sub insert list_insert]. change (be_val 256 []) with 0.
    rewrite Z.mul_0_l, Z.add_0_l.
    cbn [be_digits app]. rewrite Z.div_1_r. by destruct (negb _).
  - replace (S i - length a')%nat with 0%nat by lia. cbn [insert list_insert app].
    destruct (Z.eqb_spec ((x + 1) `mod` 256) 0) as [E|E]; cbn [negb].
    + assert (x = 255) as -> by (Z.to_euclidean_division_equations; lia).
      change ((255 + 1) `mod` 256) with 0. rewrite IH by (done || lia).
      replace (be_val 256 a' * 256 + 255 + 1) with ((be_val 256 a' + 1) * 256 + 0) by lia.
      rewrite be_digits_snoc by lia. by rewrite <- app_assoc.
    + assert ((x + 1) `mod` 256 = x + 1) as -> by (Z.to_euclidean_division_equations; lia).
      assert (x + 1 < 256) by (Z.to_euclidean_division_equations; lia).
      rewrite <- Z.add_assoc, be_digits_snoc by lia.
      replace (S i) with (length a') by lia. rewrite be_digits_val by done. by rewrite <- app_assoc.
Qed.

(** The counter block after [k] increments, modulo 2^128. *)
Definition counter (iv : bytes) (k : nat) : bytes := be_digits 256 16 (be_val 256 iv + Z.of_nat k).
Lemma counter_ok iv k : state_ok (counter iv k).
Proof. split; [apply length_be_digits|by apply be_digits_bound]. Qed.
Lemma counter_0 iv : state_ok iv -> counter iv 0 = iv.
Proof.
  intros [Hl Hb]. unfold counter. rewrite Z.add_0_r, <- Hl. by apply be_digits_val.
Qed.
Lemma inc_counter_spec iv k : _inc_counter (counter iv k) = Ok (counter iv (S k)).
Proof.
  destruct (counter_ok iv k) as [Hl Hb]. unfold _inc_counter.
  rewrite <- (app_nil_r (counter iv k)). rewrite inc_from_spec by done. rewrite app_nil_r. f_equal.
  unfold counter. rewrite be_val_digits_mod by lia.
  pose proof (Z.div_mod (be_val 256 iv + Z.of_nat k) (256 ^ Z.of_nat 16) ltac:(done)) as E.
  set (q := (be_val 256 iv + Z.of_nat k) / 256 ^ Z.of_nat 16) in E.
  replace (be_val 256 iv + Z.of_nat (S k))
    with (q * 256 ^ Z.of_nat 16 + ((be_val 256 iv + Z.of_nat k) `mod` 256 ^ Z.of_nat 16 + 1)) by lia.
  by rewrite be_digits_add.
Qed.
Lemma counter_inj iv j k :
  Z.of_nat j < 2 ^ 128 -> Z.of_nat k < 2 ^ 128 -> counter iv j = counter iv k -> j = k.
Proof.
  intros Hj Hk E. apply (f_equal (be_val 256)) in E. unfold counter in E.
  rewrite !be_val_digits_mod in E by lia. change (256 ^ Z.of_nat 16) with (2 ^ 128) in E.
  apply Nat2Z.inj. revert E Hj Hk. generalize (be_val 256 iv), (2 ^ 128). intros v m E Hj Hk.
  assert (m <> 0) by lia.
  assert ((Z.of_nat j - Z.of_nat k) `mod` m = 0) as Hd.
  { replace (Z.of_nat j - Z.of_nat k) with ((v + Z.of_nat j) - (v + Z.of_nat k)) by lia.
    rewrite Zminus_mod, E, Z.sub_diag. apply Z.mod_0_l. lia. }
  apply Z.mod_divide in Hd as [q Hq]; [|done].
  assert (q = 0) as -> by nia. lia.
Qed.

(** ** The key stream *)

Section ctr.
Context (rk : list bytes) (E : bytes -> bytes).
Hypothesis encrypt_ok : forall b, state_ok b -> aes_encrypt_block b rk = Ok (E b) /\ state_ok (E b).

(** Data xored with the key stream: byte [i] with byte [i mod 16] of block [i / 16]. *)
Definition keystream (iv : bytes) (i : nat) : Z := nth (i mod 16) (E (counter iv (i / 16))) 0.
Definition xor_keystream (iv data : bytes) : bytes := imap (fun i d => Z.lxor d (keystream iv i)) data.

Lemma xor_chunk_loop data ks offset n k done_ rest :
  len done_ = offset + Z.of_nat k -> (length done_ + length rest = length data)%nat ->
  (k + n <= length ks)%nat -> (n <= length rest)%nat ->
  foldM (fun out i => d ← py_get data (offset + i); k ← py_get ks i; py_set out (offset + i) (Z.lxor d k))
    (done_ ++ rest) (seqZ (Z.of_nat k) (Z.of_nat n))
  = Ok (done_ ++ imap (fun j d => Z.lxor d (nth (k + j) ks 0)) (take n (drop (length done_) data))
          ++ drop n rest).
Proof.
  revert k done_ rest. induction n as [|n IH]; intros k done_ rest Hd Hl Hk Hn.
  - by rewrite seqZ_nil by done.
  - destruct rest as [|y rest]; [cbn in Hn; lia|]. cbn [length] in *.
    rewrite seqZ_cons by lia. cbn [foldM].
    destruct (lookup_lt_is_Some_2 data (length done_)) as [d Hdat]; [lia|].
    destruct (lookup_lt_is_Some_2 ks k) as [c Hc]; [lia|].
    rewrite <- Hd. rewrite (py_get_nat _ _ d Hdat), bind_Ok, (py_get_nat _ _ c Hc), bind_Ok.
    rewrite py_set_nat, bind_Ok by (rewrite length_app; cbn; lia).
    rewrite insert_app_r_alt, Nat.sub_diag by lia. cbn [insert list_insert].
    rewrite cons_middle, app_assoc.
    replace (Z.succ (Z.of_nat k)) with (Z.of_nat (S k)) by lia.
    replace (Z.pred (Z.of_nat (S n))) with (Z.of_nat n) by lia.
    rewrite IH by (rewrite ?length_app; cbn; lia).
    rewrite (drop_S _ _ _ Hdat). cbn [take imap]. rewrite Nat.add_0_r, (nth_lookup_Some _ _ _ _ Hc).
    rewrite <- app_assoc, length_app, Nat.add_1_r. cbn [app drop]. do 3 f_equal. f_equal.
    apply imap_ext. intros i x _. cbn. by rewrite Nat.add_succ_r.
Qed.

Lemma imap_take {A B} (f : nat -> A -> B) n l : take n (imap f l) = imap f (take n l).
Proof.
  revert f l. induction n as [|n IH]; intros f [|x l]; [done..|]. cbn [take imap]. by rewrite IH.
Qed.
Lemma imap_drop {A B} (f : nat -> A -> B) n l :
  drop n (imap f l) = imap (fun i => f (n + i)%nat) (drop n l).
Proof.
  revert f l. induction n as [|n IH]; intros f [|x l]; [done..|]. cbn [drop imap]. rewrite IH.
  by apply imap_ext.
Qed.
Lemma length_xor_keystream iv data : length (xor_keystream iv data) = length data.
Proof. apply length_imap. Qed.

Lemma keystream_block iv t j : (j < 16)%nat -> keystream iv (16 * t + j) = nth j (E (counter iv t)) 0.
Proof.
  intros Hj. unfold keystream. rewrite Nat.mul_comm.
  rewrite Nat.div_add_l, (Nat.div_small j), Nat.add_0_r by lia.
  rewrite Nat.add_comm, Nat.Div0.mod_add. by rewrite Nat.mod_small.
Qed.

(** After [t] blocks the output starts with the data xored so far. *)
Lemma ctr_loop_spec iv data fuel t rest :
  let n := Nat.min (16 * t) (length data) in
  (length data - n <= fuel)%nat -> length rest = (length data - n)%nat ->
  ctr_loop fuel rk data (counter iv t) (take n (xor_keystream iv data) ++ rest) (Z.of_nat n)
    = Ok (xor_keystream iv data).
Proof using encrypt_ok.
  revert t rest. induction fuel as [|fuel IH]; intros t rest n Hf Hr; cbn [ctr_loop].
  all: destruct (Z.leb_spec (len data) (Z.of_nat n)) as [Hle|Hgt].
  1, 3: rewrite take_ge by (rewrite length_xor_keystream; lia);
    destruct rest; [by rewrite app_nil_r|cbn in Hr; lia].
  - lia.
  - assert (n = (16 * t)%nat) as Hn by lia. clearbody n. subst n.
    destruct (encrypt_ok _ (counter_ok iv t)) as [HE [Hl _]]. rewrite HE, bind_Ok. cbv zeta.
    set (c := Nat.min 16 (length data - 16 * t)).
    replace (Z.min 16 (len data - Z.of_nat (16 * t))) with (Z.of_nat c) by lia.
    unfold xor_chunk. change 0 with (Z.of_nat 0) at 1.
    rewrite (xor_chunk_loop data (E (counter iv t)) _ c 0)
      by (rewrite ?length_take, ?length_xor_keystream; lia).
    rewrite bind_Ok, inc_counter_spec, bind_Ok.
    replace (Z.of_nat (16 * t) + Z.of_nat c) with (Z.of_nat (Nat.min (16 * S t) (length data))) by lia.
    rewrite <- (IH (S t) (drop c rest)) by (rewrite ?length_drop; lia). f_equal.
    rewrite app_assoc. f_equal.
    replace (Nat.min (16 * S t) (length data)) with (16 * t + c)%nat by lia.
    rewrite <- (take_take_drop _ (16 * t) c). f_equal.
    rewrite length_take, length_xor_keystream, Nat.min_l by lia.
    unfold xor_keystream at 1. rewrite imap_drop, imap_take.
    assert (forall i, (i < c)%nat -> keystream iv (16 * t + i) = nth i (E (counter iv t)) 0) as Hks
      by (intros; apply keystream_block; lia).
    apply imap_ext. intros i x Hi%lookup_lt_Some. rewrite length_take in Hi. cbn.
    by rewrite Hks by lia.
Qed.
Lemma aes_ctr_loop iv data :
  state_ok iv -> ctr_loop (length data) rk data iv (replicate (length data) 0) 0
    = Ok (xor_keystream iv data).
Proof using encrypt_ok.
  intros Hiv. pose proof (ctr_loop_spec iv data (length data) 0 (replicate (length data) 0)) as H.
  cbv zeta in H. rewrite counter_0 in H by done. apply H; [lia|]. rewrite length_replicate. lia.
Qed.

Lemma xor_keystream_involutive iv data : xor_keystream iv (xor_keystream iv data) = data.
Proof.
  apply list_eq. intros i. unfold xor_keystream. rewrite !list_lookup_imap.
  destruct (data !! i) as [d|]; [|done]. cbn. by rewrite lxor_cancel.
Qed.
Lemma xor_keystream_ok iv data : bytes_ok data -> bytes_ok (xor_keystream iv data).
Proof using encrypt_ok.
  intros H. apply Forall_lookup. intros i x Hx. unfold xor_keystream in Hx.
  rewrite list_lookup_imap in Hx. destruct (data !! i) as [d|] eqn:Ed; [|done].
  injection Hx as <-. rewrite Forall_lookup in H. apply lxor_byte; [by eapply H|].
  unfold keystream. destruct (encrypt_ok _ (counter_ok iv (i / 16))) as [_ [Hl Hb]].
  apply Forall_nth; [done|]. rewrite Hl. by apply Nat.mod_upper_bound.
Qed.
End ctr.

(** ** The theorems *)

(** The cipher of a key: what [aes_encrypt_block] computes with its schedule. *)
Lemma block_cipher key :
  len key = 16 \/ len key = 32 -> bytes_ok key ->
  exists nk nr ws, key_sizes (len key) = Ok (nk, nr) /\ KeyExpansion key nk nr ws /\
    let rk := fips_round_key ws in let n := Z.to_nat nr in
    let C := Cipher (rk 0%nat) (rk n) (rk <$> seq 1 (n - 1)) in
    exists rks, key_schedule key = Ok rks /\
      (forall b, state_ok b -> aes_encrypt_block b rks = Ok (C b) /\ state_ok (C b)) /\
      (forall b b', state_ok b -> state_ok b' -> C b = C b' -> b = b').
Proof.
  intros Hlen Hb. destruct (key_schedule_spec key Hlen Hb) as (nk & nr & ws & Hs & Hk & He & Hks & Hok).
  exists nk, nr, ws. split; [done|]. split; [done|]. intros rk n C. exists (rk <$> seq 0 (Z.to_nat (nr + 1))).
  split; [done|].
  assert (rk <$> seq 0 (Z.to_nat (nr + 1)) = rk 0%nat :: (rk <$> seq 1 (n - 1)) ++ [rk n]) as Hr.
  { replace (Z.to_nat (nr + 1)) with (S (n - 1 + 1)) by lia. cbn [seq].
    rewrite seq_app, fmap_cons, fmap_app. cbn [seq fmap list_fmap]. do 3 f_equal. f_equal. lia. }
  fold rk in Hok. rewrite Hr in *. pose proof Hok as Hok'.
  apply Forall_cons in Hok' as [H0 [Hm [Hn _]%Forall_cons]%Forall_app]. split.
  - intros b Hb'. split; [by apply encrypt_block_spec|]. unfold C, Cipher.
    apply AddRoundKey_ok; [done|]. apply ShiftRows_ok, SubBytes_ok, fips_rounds_ok; [done|].
    by apply AddRoundKey_ok.
  - intros b b'. by apply Cipher_inj.
Qed.

(** What clients use: a block is encrypted to a block, and CTR mode undoes itself. *)
Lemma aes_block_total key block :
  len key = 16 \/ len key = 32 -> bytes_ok key -> state_ok block ->
  exists rks ct, key_schedule key = Ok rks /\ aes_encrypt_block block rks = Ok ct /\ state_ok ct.
Proof.
  intros Hlen Hb H. destruct (block_cipher key Hlen Hb) as (nk & nr & ws & _ & _ & rks & Hks & HC & _).
  exists rks. eexists. split; [done|]. by apply HC.
Qed.
Lemma aes_ctr_involution key iv data :
  len key = 16 \/ len key = 32 -> bytes_ok key -> state_ok iv -> bytes_ok data ->
  exists ct, aes_ctr key iv data = Ok ct /\ bytes_ok ct /\ length ct = length data /\
    aes_ctr key iv ct = Ok data.
Proof.
  intros Hlen Hb Hiv Hd. destruct (block_cipher key Hlen Hb) as (nk & nr & ws & _ & _ & rks & Hks & HC & _).
  set (C := Cipher _ _ _) in *. exists (xor_keystream C iv data). unfold aes_ctr. rewrite Hks, !bind_Ok.
  split; [by apply aes_ctr_loop|]. split; [by apply (xor_keystream_ok rks)|].
  split; [apply length_xor_keystream|].
  rewrite (aes_ctr_loop rks C HC) by done. by rewrite xor_keystream_involutive.
Qed.

(** C32.  AES: for a key of 16 or 32 bytes, scheduling the key and encrypting a
    block of 16 bytes gives the cipher of FIPS 197 under the key's expansion: the
    tables, the in-place row shifts and column mixing and the integer words of the
    schedule compute the standard's field arithmetic. *)
Theorem aes_block_fips key block :
  len key = 16 \/ len key = 32 -> bytes_ok key -> state_ok block ->
  exists nk nr ws, key_sizes (len key) = Ok (nk, nr) /\ KeyExpansion key nk nr ws /\
    let rk := fips_round_key ws in let n := Z.to_nat nr in
    (rks ← key_schedule key; aes_encrypt_block block rks)
      = Ok (Cipher (rk 0%nat) (rk n) (rk <$> seq 1 (n - 1)) block).
Proof.
  intros Hlen Hb Hblock. destruct (block_cipher key Hlen Hb) as (nk & nr & ws & Hs & He & rks & Hks & HC & _).
  exists nk, nr, ws. split; [done|]. split; [done|]. cbv zeta. rewrite Hks, bind_Ok.
  by apply HC.
Qed.

(** C33.  AES-CTR: with a key of 16 or 32 bytes and an initial counter of 16, data
    of any length is encrypted to as many bytes, by xoring byte [i] with byte
    [i mod 16] of the encryption of the counter plus [i / 16] modulo 2^128;
    encrypting again gives the data back; and no two of the 2^128 key stream blocks
    are equal. *)
Theorem aes_ctr_keystream key iv :
  len key = 16 \/ len key = 32 -> bytes_ok key -> state_ok iv ->
  exists ks : nat -> bytes,
    (forall k, (rks ← key_schedule key; aes_encrypt_block (counter iv k) rks) = Ok (ks k)) /\
    (forall data, bytes_ok data ->
       let ct := imap (fun i d => Z.lxor d (nth (i mod 16) (ks (i / 16)%nat) 0)) data in
       aes_ctr key iv data = Ok ct /\ bytes_ok ct /\ aes_ctr key iv ct = Ok data) /\
    (forall j k, Z.of_nat j < 2 ^ 128 -> Z.of_nat k < 2 ^ 128 -> ks j = ks k -> j = k).
Proof.
  intros Hlen Hb Hiv. destruct (block_cipher key Hlen Hb) as (nk & nr & ws & Hs & He & rks & Hks & HC & Hinj).
  set (C := Cipher _ _ _) in *. exists (fun k => C (counter iv k)). split; [|split].
  - intros k. rewrite Hks, bind_Ok. apply HC, counter_ok.
  - intros data Hd ct. change ct with (xor_keystream C iv data). unfold aes_ctr. rewrite Hks, !bind_Ok.
    split; [by apply aes_ctr_loop|]. split; [by apply (xor_keystream_ok rks)|].
    rewrite (aes_ctr_loop rks C HC) by done. by rewrite xor_keystream_involutive.
  - intros j k Hj Hk E. apply (counter_inj iv); [done..|]. apply Hinj; [apply counter_ok..|done].
Qed.

(** A key of another length is refused. *)
Lemma aes_key_length (key iv data : bytes) :
  len key <> 16 -> len key <> 32 ->
  key_schedule key = Err ValueError /\ aes_ctr key iv data = Err ValueError.
Proof.
  intros H16 H32. assert (key_sizes (len key) = Err ValueError) as E.
  { unfold key_sizes. rewrite (proj2 (Z.eqb_neq _ _) H16). by rewrite (proj2 (Z.eqb_neq _ _) H32). }
  unfold aes_ctr, key_schedule. by rewrite E.
Qed.

Definition demo_key : bytes := seqZ 0 32.
Definition demo_iv : bytes := seqZ 100 16.
Lemma demo_key_ok : bytes_ok demo_key.
Proof. apply (bool_decide_unpack _). vm_compute. exact I. Qed.
Lemma demo_iv_ok : state_ok demo_iv.
Proof. split; [done|]. apply (bool_decide_unpack _). vm_compute. exact I. Qed.

Lemma aes_block_fips_witness :
  exists nk nr ws, key_sizes (len demo_key) = Ok (nk, nr) /\ KeyExpansion demo_key nk nr ws /\
    let rk := fips_round_key ws in let n := Z.to_nat nr in
    (rks ← key_schedule demo_key; aes_encrypt_block demo_iv rks)
      = Ok (Cipher (rk 0%nat) (rk n) (rk <$> seq 1 (n - 1)) demo_iv).
Proof. exact (aes_block_fips demo_key demo_iv (or_intror eq_refl) demo_key_ok demo_iv_ok). Defined.
Lemma aes_ctr_keystream_witness :
  exists ks : nat -> bytes,
    (forall k, (rks ← key_schedule demo_key; aes_encrypt_block (counter demo_iv k) rks) = Ok (ks k)) /\
    (forall data, bytes_ok data ->
       let ct := imap (fun i d => Z.lxor d (nth (i mod 16) (ks (i / 16)%nat) 0)) data in
       aes_ctr demo_key demo_iv data = Ok ct /\ bytes_ok ct /\ aes_ctr demo_key demo_iv ct = Ok data) /\
    (forall j k, Z.of_nat j < 2 ^ 128 -> Z.of_nat k < 2 ^ 128 -> ks j = ks k -> j = k).
Proof. exact (aes_ctr_keystream demo_key demo_iv (or_intror eq_refl) demo_key_ok demo_iv_ok). Defined.
