(* ===== verification/Restic.v ===== *)
(** * Authenticated encryption of a restic repository: restore/restic_fallback.py

    Poly1305-AES, the constant-time comparison, [_decrypt_authenticated], and the
    limits on a key file's scrypt parameters; that exactly the sealed messages are
    accepted and give their plaintext back. *)

From S2P Require Import Prelude Aes AesProps AesCtr.

(** ** Poly1305 *)

Definition _clamp_r (r_bytes : bytes) : Z :=
  Z.land (int_from_le r_bytes) 0x0FFFFFFC0FFFFFFC0FFFFFFC0FFFFFFF.

Definition poly1305_p : Z := Z.shiftl 1 130 - 5.
(** The number [n] of a block. *)
Definition block_number (block : bytes) : Z :=
  Z.lor (int_from_le block) (Z.shiftl 1 (len block * 8)).
(** One turn of the loop, for the block at [i]. *)
Definition poly1305_step (message : bytes) (r h i : Z) : Z :=
  let block := slice message i (i + 16) in
  let n := block_number block in
  ((h + n) * r) `mod` poly1305_p.
(** [range(0, n, 16)] *)
Definition range16 (n : Z) : list Z := (fun k => 16 * k) <$> seqZ 0 ((n + 15) / 16).

Definition _poly1305_mac (key_r key_s message : bytes) : res bytes :=
  let r := _clamp_r key_r in
  let s := int_from_le key_s in
  let h := foldl (poly1305_step message r) 0 (range16 (len message)) in
  let tag := Z.land (h + s) (Z.shiftl 1 128 - 1) in
  int_to_le tag 16.

(** ** Authenticated decryption *)

Definition _constant_time_eq (a b : bytes) : bool :=
  if negb (len a =? len b) then false
  else foldl (fun result (xy : Z * Z) => Z.lor result (Z.lxor xy.1 xy.2)) 0 (zip a b) =? 0.

Definition _decrypt_authenticated (encrypt_key mac_k mac_r data : bytes) : res bytes :=
  _ ← raise_if (len data <? 33) IntegrityError;
  let iv := slice_to data 16 in
  let ciphertext := slice data 16 (-16) in
  let expected_mac := slice_from data (-16) in
  mac_rk ← key_schedule mac_k;
  s ← aes_encrypt_block iv mac_rk;
  computed_mac ← _poly1305_mac mac_r s ciphertext;
  _ ← raise_if (negb (_constant_time_eq computed_mac expected_mac)) IntegrityError;
  aes_ctr encrypt_key iv ciphertext.

(** ** Limits on scrypt's parameters *)

Definition SCRYPT_MAX_WORK : Z := Z.shiftl 1 25.
Definition SCRYPT_MAX_MEM : Z := Z.shiftl 1 31.

(** For parameters that are integers; another type raises IntegrityError too. *)
Definition scrypt_limits (n r p : Z) : res Z :=
  _ ← raise_if ((n <? 2) || negb (Z.land n (n - 1) =? 0) || (r <? 1) || (p <? 1)
                || (SCRYPT_MAX_WORK <? n * r * p)
                || (SCRYPT_MAX_MEM <? 128 * r * (n + p + 3))) IntegrityError;
  Ok (Z.min (Z.max (128 * r * (n + p + 3)) (2 ^ 25)) (2 ^ 31 - 1)).

(** A number above one that shares no bit with its predecessor is a power of two. *)
Lemma land_pred_power n : 2 <= n -> Z.land n (n - 1) = 0 -> exists k, 1 <= k /\ n = 2 ^ k.
Proof.
  intros Hn H. exists (Z.log2 n). pose proof (Z.log2_spec n ltac:(lia)) as [Hlo Hhi].
  assert (1 <= Z.log2 n) by (change 1 with (Z.log2 2); by apply Z.log2_le_mono).
  split; [done|]. destruct (Z.eq_dec n (2 ^ Z.log2 n)) as [E|Hne]; [done|]. exfalso.
  assert (Z.log2 (n - 1) = Z.log2 n) as Hl by (apply Z.log2_unique; lia).
  assert (Z.testbit (Z.land n (n - 1)) (Z.log2 n) = true) as Hb.
  { rewrite Z.land_spec. rewrite Z.bit_log2 by lia. rewrite <- Hl. by rewrite Z.bit_log2 by lia. }
  by rewrite H, Z.bits_0 in Hb.
Qed.

(** ** Poly1305 is a polynomial modulo 2^130 - 5 *)

(** The blocks of a message, the last one possibly short. *)
Fixpoint chunks16 (fuel : nat) (m : bytes) : list bytes :=
  match fuel, m with
  | S fuel, _ :: _ => take 16 m :: chunks16 fuel (drop 16 m)
  | _, _ => []
  end.
Definition blocks16 (m : bytes) : list bytes := chunks16 (length m) m.
(** Each block as a little-endian number with a bit set above its last byte. *)
Definition rfc_number (block : bytes) : Z := int_from_le block + 256 ^ len block.
(** The sum of [c_i * r^(q - i + 1)], and the tag of RFC 8439, section 2.5. *)
Definition rfc_polynomial (r : Z) (cs : list Z) : Z :=
  sumZ (imap (fun i c => c * r ^ Z.of_nat (length cs - i)) cs).
Definition rfc_poly1305 (key_r key_s message : bytes) : Z :=
  (rfc_polynomial (_clamp_r key_r) (rfc_number <$> blocks16 message) `mod` (2 ^ 130 - 5)
     + int_from_le key_s) `mod` 2 ^ 128.

Lemma block_number_rfc block : bytes_ok block -> block_number block = rfc_number block.
Proof.
  intros H. unfold block_number, rfc_number, int_from_le.
  pose proof (le_val_bound 256 ltac:(lia) block H) as Hb.
  assert (256 ^ len block = 2 ^ (len block * 8)) as Hp.
  { change 256 with (2 ^ 8). rewrite <- Z.pow_mul_r by lia. f_equal. lia. }
  rewrite Z.lor_comm, lor_shiftl_add by lia. lia.
Qed.

Lemma length_chunks16 fuel m :
  (length m <= fuel)%nat -> Z.of_nat (length (chunks16 fuel m)) = (len m + 15) / 16.
Proof.
  revert m. induction fuel as [|fuel IH]; intros [|x m] Hl; try done; cbn [length] in Hl; [lia|].
  cbn [chunks16]. cbn [length]. rewrite Nat2Z.inj_succ, IH by (rewrite length_drop; cbn [length]; lia).
  rewrite length_drop. cbn [length]. Z.to_euclidean_division_equations; lia.
Qed.
Lemma blocks16_slices m : (fun i => slice m i (i + 16)) <$> range16 (len m) = blocks16 m.
Proof.
  unfold range16, blocks16. rewrite <- (length_chunks16 (length m)) by done.
  rewrite <- list_fmap_compose. unfold compose.
  assert (forall fuel n, (length m - 16 * n <= fuel)%nat ->
    (fun k : Z => slice m (16 * k) (16 * k + 16)) <$>
      seqZ (Z.of_nat n) (Z.of_nat (length (chunks16 fuel (drop (16 * n) m)))) = chunks16 fuel (drop (16 * n) m))
    as H; [|apply (H (length m) 0%nat); lia].
  induction fuel as [|fuel IH]; intros n Hn; [done|]. cbn [chunks16].
  destruct (drop (16 * n) m) as [|x l] eqn:E; [done|]. cbn [length].
  rewrite seqZ_cons by lia. cbn [fmap list_fmap]. f_equal.
  - rewrite slice_nonneg by lia. replace (Z.to_nat (16 * Z.of_nat n)) with (16 * n)%nat by lia. rewrite E.
    f_equal. lia.
  - replace (Z.succ (Z.of_nat n)) with (Z.of_nat (S n)) by lia.
    replace (Z.pred (Z.of_nat (S (length (chunks16 fuel (drop 16 (x :: l)))))))
      with (Z.of_nat (length (chunks16 fuel (drop 16 (x :: l))))) by lia.
    rewrite <- E, drop_drop. replace (16 * n + 16)%nat with (16 * S n)%nat by lia. apply IH. lia.
Qed.

(** Horner's scheme. *)
Lemma horner r p cs h :
  0 < p ->
  foldl (fun h n => ((h + n) * r) `mod` p) h cs `mod` p
    = (h * r ^ len cs + rfc_polynomial r cs) `mod` p.
Proof.
  intros Hp. revert h. induction cs as [|c cs IH]; intros h.
  - cbn. f_equal. lia.
  - cbn [foldl]. rewrite IH. unfold rfc_polynomial. cbn [imap sumZ foldr length].
    assert (imap ((fun i c0 => c0 * r ^ Z.of_nat (S (length cs) - i)) ∘ S) cs
            = imap (fun i c0 => c0 * r ^ Z.of_nat (length cs - i)) cs) as -> by (apply imap_ext; done).
    fold (sumZ (imap (fun i c0 => c0 * r ^ Z.of_nat (length cs - i)) cs)).
    set (t := sumZ _). rewrite Nat.sub_0_r. rewrite Nat2Z.inj_succ, Z.pow_succ_r by lia.
    rewrite Zplus_mod, Zmult_mod, Z.mod_mod, <- Zmult_mod, <- Zplus_mod by lia. f_equal. lia.
Qed.

(** The tag is the one of the standard, in sixteen bytes. *)
Lemma poly1305_spec key_r key_s message :
  bytes_ok message ->
  exists tag, _poly1305_mac key_r key_s message = Ok tag /\ state_ok tag /\
    int_from_le tag = rfc_poly1305 key_r key_s message.
Proof.
  intros Hm. unfold _poly1305_mac. cbv zeta.
  set (r := _clamp_r key_r). set (s := int_from_le key_s).
  assert (foldl (poly1305_step message r) 0 (range16 (len message)) =
          foldl (fun h n => ((h + n) * r) `mod` poly1305_p) 0 (rfc_number <$> blocks16 message)) as ->.
  { rewrite <- blocks16_slices. rewrite <- list_fmap_compose. generalize 0, (range16 (len message)).
    intros h l. revert h. induction l as [|i l IH]; intros h; [done|]. cbn [foldl fmap list_fmap].
    rewrite IH. f_equal. unfold poly1305_step, compose. cbv zeta. rewrite block_number_rfc; [done|].
    unfold slice. by apply Forall_take, Forall_drop. }
  pose proof (horner r poly1305_p (rfc_number <$> blocks16 message) 0 ltac:(done)) as Hh.
  rewrite Z.mul_0_l, Z.add_0_l in Hh. set (h := foldl _ _ _) in *.
  assert (0 <= h < poly1305_p) as Hr.
  { unfold h. destruct (rfc_number <$> blocks16 message) as [|c cs _] using rev_ind; [done|].
    rewrite foldl_app. cbn [foldl]. by apply Z.mod_pos_bound. }
  rewrite Z.mod_small in Hh by done. rewrite Z.shiftl_mul_pow2, Z.mul_1_l, (land_mask 128) by done.
  set (tag := (h + s) `mod` 2 ^ 128).
  assert (0 <= tag < 256 ^ Z.of_nat 16) as Ht by (apply Z.mod_pos_bound; done).
  assert (int_to_be tag 16 = Ok (be_digits 256 16 tag)) as Hbe.
  { unfold int_to_be. destruct (Z.ltb_spec tag 0); [lia|]. destruct (Z.leb_spec (256 ^ 16) tag); [|done].
    change (256 ^ Z.of_nat 16) with (256 ^ 16) in Ht. lia. }
  unfold int_to_le. rewrite Hbe, bind_Ok. eexists. split; [done|]. split.
  - split; [by rewrite length_reverse, length_be_digits|]. apply Forall_reverse. by apply be_digits_bound.
  - unfold int_from_le. rewrite le_val_reverse, be_val_digits by done.
    unfold rfc_poly1305. fold r s. unfold tag. by rewrite Hh.
Qed.

Lemma foldl_lor_eq_0 (l : list (Z * Z)) r :
  foldl (fun result (xy : Z * Z) => Z.lor result (Z.lxor xy.1 xy.2)) r l = 0
    <-> r = 0 /\ Forall (fun xy => xy.1 = xy.2) l.
Proof.
  revert r. induction l as [|[x y] l IH]; intros r; cbn [foldl].
  - split; [by split; [|constructor]|tauto].
  - rewrite IH, Z.lor_eq_0_iff, Z.lxor_eq_0_iff, Forall_cons. tauto.
Qed.
Lemma constant_time_eq_spec a b : _constant_time_eq a b = bool_decide (a = b).
Proof.
  unfold _constant_time_eq. destruct (Z.eqb_spec (len a) (len b)) as [Hl|Hl]; cbn [negb].
  - apply Bool.eq_true_iff_eq. rewrite Z.eqb_eq, bool_decide_eq_true, foldl_lor_eq_0.
    apply Nat2Z.inj in Hl. split.
    + intros [_ H]. revert b Hl H. induction a as [|x a IH]; intros [|y b] Hl H; try done.
      cbn [zip zip_with] in H. apply Forall_cons in H as [Hx H]. cbn in Hx. subst y. f_equal.
      apply IH; [by injection Hl|done].
    + intros <-. split; [done|]. clear Hl. induction a; cbn; constructor; done.
  - symmetry. apply bool_decide_eq_false. congruence.
Qed.

(** ** Sealed data *)

(** What a writer of the format makes of a plaintext and an initialisation vector:
    [IV || ciphertext || MAC]. *)
Definition seal (encrypt_key mac_k mac_r iv plaintext : bytes) : res bytes :=
  ciphertext ← aes_ctr encrypt_key iv plaintext;
  mac_rk ← key_schedule mac_k;
  s ← aes_encrypt_block iv mac_rk;
  mac ← _poly1305_mac mac_r s ciphertext;
  Ok (iv ++ ciphertext ++ mac).

Definition key_ok (key : bytes) : Prop := (len key = 16 \/ len key = 32) /\ bytes_ok key.

Section sealed.
Context (encrypt_key mac_k mac_r : bytes) (He : key_ok encrypt_key) (Hk : key_ok mac_k).

(** The tag of a ciphertext exists and is a block. *)
Lemma mac_total iv ct :
  state_ok iv -> bytes_ok ct ->
  exists rks s mac, key_schedule mac_k = Ok rks /\ aes_encrypt_block iv rks = Ok s /\
    _poly1305_mac mac_r s ct = Ok mac /\ state_ok mac.
Proof using Hk.
  intros Hiv Hct. destruct Hk as [Hl Hb].
  destruct (aes_block_total mac_k iv Hl Hb Hiv) as (rks & s & Hr & Hs & _).
  destruct (poly1305_spec mac_r s ct Hct) as (mac & Hm & Hmac & _). by exists rks, s, mac.
Qed.

(** Decryption of data cut into its three parts. *)
Lemma decrypt_parts iv ct mac' :
  length iv = 16%nat -> bytes_ok iv -> ct <> [] -> bytes_ok ct -> length mac' = 16%nat ->
  exists mac, (rks ← key_schedule mac_k; s ← aes_encrypt_block iv rks; _poly1305_mac mac_r s ct)
      = Ok mac /\ state_ok mac /\
    _decrypt_authenticated encrypt_key mac_k mac_r (iv ++ ct ++ mac')
      = (if bool_decide (mac = mac') then aes_ctr encrypt_key iv ct else Err IntegrityError).
Proof using Hk.
  intros Hl Hb Hne Hct Hm. destruct (mac_total iv ct (conj Hl Hb) Hct) as (rks & s & mac & Hr & Hs & Hmac & Hok).
  exists mac. rewrite Hr, bind_Ok, Hs, bind_Ok. split; [done|]. split; [done|].
  unfold _decrypt_authenticated.
  assert (0 < length ct)%nat by (destruct ct; [done|cbn; lia]).
  destruct (Z.ltb_spec (len (iv ++ ct ++ mac')) 33) as [Hlt|_]; [rewrite !length_app in Hlt; lia|].
  cbn [raise_if]. rewrite bind_Ok. cbv zeta.
  rewrite slice_to_app by lia.
  assert (slice (iv ++ ct ++ mac') 16 (-16) = ct) as ->.
  { unfold slice, slice_bound. rewrite !length_app. cbn [Z.ltb Z.compare].
    rewrite Z.min_l, Z.max_r by lia.
    replace (Z.to_nat 16) with (length iv) by lia. rewrite drop_app_length.
    replace (Z.to_nat _) with (length ct) by lia. apply take_app_length. }
  assert (slice_from (iv ++ ct ++ mac') (-16) = mac') as ->.
  { rewrite app_assoc. unfold slice_from, slice_bound. rewrite !length_app. cbn [Z.ltb Z.compare].
    rewrite Z.max_r by lia.
    replace (Z.to_nat _) with (length (iv ++ ct)) by (rewrite length_app; lia). apply drop_app_length. }
  rewrite Hr, bind_Ok, Hs, bind_Ok, Hmac, bind_Ok, constant_time_eq_spec.
  by destruct (bool_decide (mac = mac')).
Qed.

(** Data of 33 bytes or more has the three parts. *)
Lemma split_parts (data : bytes) :
  33 <= len data -> bytes_ok data ->
  exists iv ct mac, data = iv ++ ct ++ mac /\ length iv = 16%nat /\ length mac = 16%nat /\ ct <> [] /\
    bytes_ok iv /\ bytes_ok ct.
Proof.
  intros Hl Hb. exists (take 16 data), (take (length data - 32) (drop 16 data)), (drop (length data - 16) data).
  split.
  { rewrite <- (take_drop 16 data) at 1. f_equal.
    rewrite <- (take_drop (length data - 32) (drop 16 data)) at 1. f_equal. rewrite drop_drop. f_equal. lia. }
  split; [rewrite length_take; lia|]. split; [rewrite length_drop; lia|]. split.
  - intros H. apply (f_equal length) in H. rewrite length_take, length_drop in H. cbn in H. lia.
  - split; [by apply Forall_take|]. by apply Forall_take, Forall_drop.
Qed.

Lemma decrypt_seal iv pt data :
  state_ok iv -> pt <> [] -> bytes_ok pt -> seal encrypt_key mac_k mac_r iv pt = Ok data ->
  _decrypt_authenticated encrypt_key mac_k mac_r data = Ok pt.
Proof using He Hk.
  intros [Hl Hb] Hne Hpt Hs. destruct He as [Hel Heb].
  destruct (aes_ctr_involution encrypt_key iv pt Hel Heb (conj Hl Hb) Hpt) as (ct & Hc & Hct & Hlen & Hback).
  unfold seal in Hs. rewrite Hc, bind_Ok in Hs.
  assert (ct <> []) as Hcne by (destruct pt; [done|]; by destruct ct).
  destruct (mac_total iv ct (conj Hl Hb) Hct) as (rks & s & mac & Hr & Hsb & Hm & Hok).
  rewrite Hr, bind_Ok, Hsb, bind_Ok, Hm, bind_Ok in Hs. injection Hs as <-.
  destruct (decrypt_parts iv ct mac Hl Hb Hcne Hct (proj1 Hok)) as (mac' & Hm' & _ & ->).
  rewrite Hr, bind_Ok, Hsb, bind_Ok, Hm in Hm'. injection Hm' as <-. by rewrite bool_decide_true.
Qed.
(** Data is too short, has a wrong tag, or was sealed. *)
Lemma decrypt_cases data :
  bytes_ok data ->
  _decrypt_authenticated encrypt_key mac_k mac_r data = Err IntegrityError \/
  exists iv pt, state_ok iv /\ pt <> [] /\ bytes_ok pt /\
    seal encrypt_key mac_k mac_r iv pt = Ok data /\
    _decrypt_authenticated encrypt_key mac_k mac_r data = Ok pt.
Proof using He Hk.
  intros Hd. destruct (Z.lt_ge_cases (len data) 33) as [Hlt|Hge].
  { left. unfold _decrypt_authenticated. by rewrite (proj2 (Z.ltb_lt _ _) Hlt). }
  destruct (split_parts data Hge Hd) as (iv & ct & mac' & -> & Hl & Hm & Hne & Hb & Hct).
  destruct (decrypt_parts iv ct mac' Hl Hb Hne Hct Hm) as (mac & Hmac & _ & E).
  destruct (decide (mac = mac')) as [<-|Hneq]; [|left; by rewrite E, bool_decide_false].
  right. rewrite bool_decide_true in E by done. destruct He as [Hel Heb].
  destruct (aes_ctr_involution encrypt_key iv ct Hel Heb (conj Hl Hb) Hct) as (pt & Hp & Hpt & Hlen & Hback).
  exists iv, pt. split; [done|]. split; [destruct pt; [by destruct ct|done]|]. split; [done|].
  split; [|by rewrite E]. unfold seal. rewrite Hback, bind_Ok.
  inv_bind Hmac. rewrite E0, bind_Ok, E1, bind_Ok, Hmac, bind_Ok. done.
Qed.
End sealed.

(** C31.  Authenticated decryption accepts exactly what the format's encryption
    produces: it returns a plaintext if and only if the data is the sealing of that
    plaintext, not empty, under some initialisation vector, and otherwise raises
    IntegrityError, nothing else. *)
Theorem decrypt_accepts_sealed encrypt_key mac_k mac_r data :
  key_ok encrypt_key -> key_ok mac_k -> bytes_ok data ->
  (forall pt, _decrypt_authenticated encrypt_key mac_k mac_r data = Ok pt <->
     exists iv, state_ok iv /\ pt <> [] /\ bytes_ok pt /\
       seal encrypt_key mac_k mac_r iv pt = Ok data) /\
  (forall e, _decrypt_authenticated encrypt_key mac_k mac_r data = Err e -> e = IntegrityError).
Proof.
  intros He Hk Hd. split.
  - intros pt. split.
    + intros H. destruct (decrypt_cases _ _ mac_r He Hk data Hd) as [E|(iv & pt' & ? & ? & ? & ? & E)];
        rewrite E in H; [done|]. injection H as <-. by exists iv.
    + intros (iv & Hiv & Hne & Hpt & Hs). by eapply decrypt_seal.
  - intros e H. destruct (decrypt_cases _ _ mac_r He Hk data Hd) as [E|(iv & pt' & ? & ? & ? & ? & E)];
      rewrite E in H; [by injection H|done].
Qed.

(** Poly1305: the loop computes the tag of RFC 8439, the value at the clamped
    key [r] of the polynomial whose coefficients are the blocks of the message,
    modulo 2^130 - 5, plus [s] modulo 2^128; the comparison of tags is equality. *)
Theorem poly1305_mac_rfc key_r key_s message :
  bytes_ok message ->
  (exists tag, _poly1305_mac key_r key_s message = Ok tag /\ len tag = 16 /\
     int_from_le tag = rfc_poly1305 key_r key_s message) /\
  forall a b, _constant_time_eq a b = bool_decide (a = b).
Proof.
  intros Hm. split; [|apply constant_time_eq_spec].
  destruct (poly1305_spec key_r key_s message Hm) as (tag & Ht & [Hl _] & Hv).
  exists tag. split; [done|]. by rewrite Hl.
Qed.

(** The scrypt parameters of a key file that are accepted keep the key
    derivation within 2^25 units of work and 2^31 bytes, and the limit handed to
    hashlib is at least what OpenSSL needs and at most INT_MAX; N is a power of two.
    Everything else raises IntegrityError. *)
Theorem scrypt_limits_spec n r p :
  match scrypt_limits n r p with
  | Ok maxmem => (exists k, 1 <= k /\ n = 2 ^ k) /\ 1 <= r /\ 1 <= p /\ n * r * p <= 2 ^ 25 /\
      128 * r * (n + p + 2) <= maxmem <= 2 ^ 31 - 1
  | Err e => e = IntegrityError /\
      (n < 2 \/ Z.land n (n - 1) <> 0 \/ r < 1 \/ p < 1 \/ 2 ^ 25 < n * r * p \/
       2 ^ 31 < 128 * r * (n + p + 3))
  end.
Proof.
  unfold scrypt_limits, SCRYPT_MAX_WORK, SCRYPT_MAX_MEM.
  change (Z.shiftl 1 25) with (2 ^ 25). change (Z.shiftl 1 31) with (2 ^ 31).
  destruct (_ || _) eqn:E; cbn [raise_if].
  - cbn. split; [done|]. rewrite !orb_true_iff, negb_true_iff, Z.eqb_neq in E. lia.
  - rewrite bind_Ok. rewrite !orb_false_iff, negb_false_iff, Z.eqb_eq in E.
    destruct E as [[[[[H1 H2] H3] H4] H5] H6].
    apply Z.ltb_ge in H1, H3, H4, H5, H6. split; [by apply land_pred_power|].
    split; [done|]. split; [done|]. split; [done|]. nia.
Qed.

(** ** Concrete data *)

Definition demo_mac_key : bytes := seqZ 7 16.
Definition demo_sealed : bytes :=
  Eval vm_compute in
    match seal demo_key demo_mac_key demo_iv demo_iv [104; 101; 108; 108; 111] with
    | Ok d => d | Err _ => [] end.
(** The example of RFC 8439, section 2.5.2. *)
Example poly1305_rfc_vector :
  _poly1305_mac
    [0x85; 0xd6; 0xbe; 0x78; 0x57; 0x55; 0x6d; 0x33; 0x7f; 0x44; 0x52; 0xfe; 0x42; 0xd5; 0x06; 0xa8]
    [0x01; 0x03; 0x80; 0x8a; 0xfb; 0x0d; 0xb2; 0xfd; 0x4a; 0xbf; 0xf6; 0xaf; 0x41; 0x49; 0xf5; 0x1b]
    [67; 114; 121; 112; 116; 111; 103; 114; 97; 112; 104; 105; 99; 32; 70; 111; 114; 117; 109; 32;
     82; 101; 115; 101; 97; 114; 99; 104; 32; 71; 114; 111; 117; 112]
  = Ok [0xa8; 0x06; 0x1d; 0xc1; 0x30; 0x51; 0x36; 0xc6; 0xc2; 0x2b; 0x8b; 0xaf; 0x0c; 0x01; 0x27; 0xa9].
Proof. vm_compute. reflexivity. Qed.

Lemma demo_mac_key_ok : key_ok demo_mac_key.
Proof. split; [by left|]. apply (bool_decide_unpack _). vm_compute. exact I. Qed.
Lemma demo_sealed_ok : bytes_ok demo_sealed.
Proof. apply (bool_decide_unpack _). vm_compute. exact I. Qed.

Lemma decrypt_accepts_sealed_witness :
  _decrypt_authenticated demo_key demo_mac_key demo_iv demo_sealed = Ok [104; 101; 108; 108; 111].
Proof.
  apply (decrypt_accepts_sealed demo_key demo_mac_key demo_iv demo_sealed
           (conj (or_intror eq_refl) demo_key_ok) demo_mac_key_ok demo_sealed_ok).
  exists demo_iv. split; [exact demo_iv_ok|]. split; [done|].
  split; [apply (bool_decide_unpack _); vm_compute; exact I|vm_compute; reflexivity].
Defined.
Lemma poly1305_mac_rfc_witness :
  (exists tag, _poly1305_mac demo_iv demo_iv [1; 2; 3] = Ok tag /\ len tag = 16 /\
     int_from_le tag = rfc_poly1305 demo_iv demo_iv [1; 2; 3]) /\
  forall a b, _constant_time_eq a b = bool_decide (a = b).
Proof.
  apply (poly1305_mac_rfc demo_iv demo_iv [1; 2; 3]).
  apply (bool_decide_unpack _). vm_compute. exact I.
Defined.
