(* ===== verification/BitReader.v ===== *)
(** * The bit readers of restore/_zstd_pure.py

    A forward reader for FSE table descriptions, a backward reader for entropy
    streams, and the 64-bit container reader of the Huffman weight stream.  The
    bytes are one little-endian integer; a reader is a value and reading returns the
    next one. *)

From S2P Require Import Prelude.

(** [l[i]] for [l] and [i >= 0], and [bytes.ljust]. *)
Definition ones (n : Z) : Z := Z.shiftl 1 n - 1.
Definition ljust (l : bytes) (n : Z) : bytes := l ++ replicate (Z.to_nat (n - len l)) 0.

(** ** Forward *)

Record _ForwardBitReader := ForwardBitReader { fwd_data : Z; fwd_bitpos : Z }.

Definition forward_init (data : bytes) : _ForwardBitReader := ForwardBitReader (int_from_le data) 0.
Definition fwd_peek (r : _ForwardBitReader) (nbits : Z) : Z :=
  if nbits =? 0 then 0 else Z.land (Z.shiftr (fwd_data r) (fwd_bitpos r)) (ones nbits).
Definition fwd_advance (r : _ForwardBitReader) (nbits : Z) : _ForwardBitReader :=
  ForwardBitReader (fwd_data r) (fwd_bitpos r + nbits).
Definition fwd_read (r : _ForwardBitReader) (nbits : Z) : Z * _ForwardBitReader :=
  (fwd_peek r nbits, fwd_advance r nbits).

(** ** Backward *)

Record _BackwardBitReader := BackwardBitReader { bwd_data : Z; bwd_bitpos : Z }.

Definition backward_init (data : bytes) : res _BackwardBitReader :=
  match data with
  | [] => Err ZstdError
  | _ =>
      let nbits := len data * 8 in
      last ← py_get data (-1);
      _ ← raise_if (last =? 0) ZstdError;
      let highbit_in_last := bit_length last - 1 in
      Ok (BackwardBitReader (int_from_le data) (nbits - 8 + highbit_in_last - 1))
  end.

Definition bwd_move (r : _BackwardBitReader) (d : Z) : _BackwardBitReader :=
  BackwardBitReader (bwd_data r) (bwd_bitpos r + d).
Definition bwd_read (r : _BackwardBitReader) (nbits : Z) : Z * _BackwardBitReader :=
  if nbits =? 0 then (0, r)
  else if bwd_bitpos r <? 0 then (0, r)
  else
    let start := bwd_bitpos r - nbits + 1 in
    if start <? 0 then
      let avail := bwd_bitpos r + 1 in
      (Z.shiftl (Z.land (Z.shiftr (bwd_data r) 0) (ones avail)) (nbits - avail), bwd_move r (- nbits))
    else (Z.land (Z.shiftr (bwd_data r) start) (ones nbits), bwd_move r (- nbits)).

(** ** The container of the weight stream *)

Definition _CONT : Z := 8.
Record _FseDStreamReader := FseDStreamReader {
  ds_data : bytes; ds_ptr : Z; ds_container : Z; ds_consumed : Z
}.

Definition ds_load (data : bytes) (ptr : Z) : Z := int_from_le (ljust (slice data ptr (ptr + _CONT)) _CONT).

Definition dstream_init (data : bytes) : res _FseDStreamReader :=
  match data with
  | [] => Err ZstdError
  | _ =>
      last ← py_get data (-1);
      _ ← raise_if (last =? 0) ZstdError;
      let size := len data in
      let skip := 8 - (bit_length last - 1) in
      let '(ptr, consumed) := if _CONT <=? size then (size - _CONT, skip)
                              else (0, skip + (_CONT - size) * 8) in
      Ok (FseDStreamReader data ptr (ds_load data ptr) consumed)
  end.

(** The start of the data is position 0. *)
Definition ds_reload (r : _FseDStreamReader) : _FseDStreamReader :=
  if (_CONT * 8 <? ds_consumed r) || (ds_ptr r =? 0) then r
  else
    let nbytes := Z.shiftr (ds_consumed r) 3 in
    let nbytes := if ds_ptr r - nbytes <? 0 then ds_ptr r else nbytes in
    let ptr := ds_ptr r - nbytes in
    FseDStreamReader (ds_data r) ptr (ds_load (ds_data r) ptr) (ds_consumed r - nbytes * 8).

Definition ds_read (r : _FseDStreamReader) (nbits : Z) : Z * _FseDStreamReader :=
  if nbits =? 0 then (0, r)
  else
    let shift := Z.land (_CONT * 8 - ds_consumed r - nbits) (_CONT * 8 - 1) in
    let val := Z.land (Z.shiftr (ds_container r) shift) (ones nbits) in
    (val, ds_reload (FseDStreamReader (ds_data r) (ds_ptr r) (ds_container r) (ds_consumed r + nbits))).

Definition ds_overflowed (r : _FseDStreamReader) : bool := _CONT * 8 <? ds_consumed r.
