(* ===== verification/Fse.v ===== *)
(** * Finite state entropy tables: restore/_zstd_pure.py

    [_build_fse_table] and [_read_fse_distribution].  FseProps.v proves that a
    distribution that is read makes a table a decoder can follow from every state. *)

From S2P Require Import Prelude BitReader.

Record _FseTable := FseTable {
  accuracy_log : Z; symbol : list Z; baseline : list Z; num_bits : list Z
}.

(** [[0] * n]: a list beyond the address space is refused; one the machine's
    memory cannot hold is not modelled. *)
Definition zero_list (n : Z) : res (list Z) :=
  if 2 ^ 63 - 1 <? n then Err OverflowError
  else if (2 ^ 63 - 1) / 8 <? n then Err MemoryError
  else Ok (replicate (Z.to_nat n) 0).
(** [a << n] for a shift count that may be negative. *)
Definition py_shiftl (a n : Z) : res Z := if n <? 0 then Err ValueError else Ok (Z.shiftl a n).

(** [enumerate(l)] *)
Definition enumerate {A} (l : list A) : list (Z * A) := imap (fun i x => (Z.of_nat i, x)) l.

(** First loop: symbols of probability below one go to the top states. *)
Definition low_step (st : list Z * Z * list Z) (sc : Z * Z) : res (list Z * Z * list Z) :=
  let '(symbol_of_state, high_threshold, symbol_next) := st in
  let '(sym, count) := sc in
  if count =? -1 then
    symbol_of_state ← py_set symbol_of_state high_threshold sym;
    symbol_next ← py_set symbol_next sym 1;
    Ok (symbol_of_state, high_threshold - 1, symbol_next)
  else if 0 <? count then
    symbol_next ← py_set symbol_next sym count;
    Ok (symbol_of_state, high_threshold, symbol_next)
  else Ok st.

(** [while pos > high_threshold: pos = (pos + step) & mask] *)
Fixpoint skip_high (fuel : nat) (step mask high_threshold pos : Z) : res Z :=
  if pos <=? high_threshold then Ok pos
  else match fuel with
  | O => Err OutOfFuel
  | S fuel => skip_high fuel step mask high_threshold (Z.land (pos + step) mask)
  end.

(** Second loop: the other symbols are spread over the remaining states. *)
Definition place_one (step mask high_threshold sym : Z) (st : list Z * Z) (_ : Z) : res (list Z * Z) :=
  let '(symbol_of_state, pos) := st in
  symbol_of_state ← py_set symbol_of_state pos sym;
  pos ← skip_high (Z.to_nat (mask + 1)) step mask high_threshold (Z.land (pos + step) mask);
  Ok (symbol_of_state, pos).
Definition spread_step (step mask high_threshold : Z) (st : list Z * Z) (sc : Z * Z) :
    res (list Z * Z) :=
  let '(sym, count) := sc in
  if count <=? 0 then Ok st
  else foldM (place_one step mask high_threshold sym) st (seqZ 0 count).

(** Third loop: the transition of each state. *)
Definition transition_step (size accuracy_log : Z) (symbol_of_state : list Z)
    (st : list Z * list Z * list Z) (state : Z) : res (list Z * list Z * list Z) :=
  let '(baseline, num_bits, symbol_next) := st in
  sym ← py_get symbol_of_state state;
  nxt ← py_get symbol_next sym;
  symbol_next ← py_set symbol_next sym (nxt + 1);
  let nb := accuracy_log - (bit_length nxt - 1) in
  num_bits ← py_set num_bits state nb;
  b ← py_shiftl nxt nb;
  baseline ← py_set baseline state (b - size);
  Ok (baseline, num_bits, symbol_next).

Definition _build_fse_table (normalized : list Z) (accuracy_log : Z) : res _FseTable :=
  let size := Z.shiftl 1 accuracy_log in
  zeros ← zero_list size;
  '(symbol_of_state, high_threshold, symbol_next) ←
    foldM low_step (zeros, size - 1, (fun _ => 0) <$> normalized) (enumerate normalized);
  let step := Z.shiftr size 1 + Z.shiftr size 3 + 3 in
  let mask := size - 1 in
  '(symbol_of_state, _) ← foldM (spread_step step mask high_threshold) (symbol_of_state, 0)
                            (enumerate normalized);
  '(baseline, num_bits, _) ← foldM (transition_step size accuracy_log symbol_of_state)
                               (zeros, zeros, symbol_next) (seqZ 0 size);
  Ok (FseTable accuracy_log symbol_of_state baseline num_bits).

(** ** Reading a distribution *)

(** A run of zero probabilities: two-bit counts as long as they are 3. *)
Fixpoint zero_run (fuel : nat) (r : _ForwardBitReader) (counts : list Z) (symbol : Z) :
    res (_ForwardBitReader * list Z * Z) :=
  let '(rep, r) := fwd_read r 2 in
  let counts := counts ++ replicate (Z.to_nat rep) 0 in
  let symbol := symbol + rep in
  if negb (rep =? 3) then Ok (r, counts, symbol)
  else match fuel with
  | O => Err OutOfFuel
  | S fuel => zero_run fuel r counts symbol
  end.

Record dist_state := DistState {
  d_reader : _ForwardBitReader; d_remaining : Z; d_threshold : Z; d_nbits : Z;
  d_counts : list Z; d_symbol : Z; d_previous_is_zero : bool
}.

(** The count of one symbol, as it is stored, and the reader behind it. *)
Definition read_count (st : dist_state) : Z * _ForwardBitReader :=
  let threshold := d_threshold st in
  let max_band := (2 * threshold - 1) - d_remaining st in
  let peeked := fwd_peek (d_reader st) (d_nbits st) in
  let low := Z.land peeked (threshold - 1) in
  if low <? max_band then (low, fwd_advance (d_reader st) (d_nbits st - 1))
  else
    let count := Z.land peeked (2 * threshold - 1) in
    let count := if threshold <=? count then count - max_band else count in
    (count, fwd_advance (d_reader st) (d_nbits st)).

(** The loop.  Each turn passes a symbol or ends a run of zeros, so twice the
    number of symbols bounds the turns. *)
Fixpoint dist_loop (fuel : nat) (max_symbol : Z) (st : dist_state) : res dist_state :=
  if negb ((1 <? d_remaining st) && (d_symbol st <=? max_symbol)) then Ok st
  else match fuel with
  | O => Err OutOfFuel
  | S fuel =>
      if d_previous_is_zero st then
        '(r, counts, symbol) ← zero_run (Z.to_nat (bit_length (fwd_data (d_reader st))))
                                 (d_reader st) (d_counts st) (d_symbol st);
        let st := DistState r (d_remaining st) (d_threshold st) (d_nbits st) counts symbol false in
        if max_symbol <? symbol then Ok st else dist_loop fuel max_symbol st
      else
        let '(count, r) := read_count st in
        let count := count - 1 in
        let remaining := if 0 <=? count then d_remaining st - count else d_remaining st + count in
        let counts := d_counts st ++ [count] in
        let symbol := d_symbol st + 1 in
        let st' := DistState r remaining (d_threshold st) (d_nbits st) counts symbol (count =? 0) in
        if remaining <? d_threshold st then
          if remaining <=? 1 then Ok st'
          else
            let nbits := bit_length remaining in
            dist_loop fuel max_symbol
              (DistState r remaining (Z.shiftl 1 (nbits - 1)) nbits counts symbol (count =? 0))
        else dist_loop fuel max_symbol st'
  end.

Definition _read_fse_distribution (reader : _ForwardBitReader) (max_symbol max_accuracy : Z) :
    res (list Z * Z * _ForwardBitReader) :=
  let '(v, reader) := fwd_read reader 4 in
  let accuracy_log := v + 5 in
  _ ← raise_if (max_accuracy <? accuracy_log) ZstdError;
  st ← dist_loop (Z.to_nat (2 * (max_symbol + 2))) max_symbol
         (DistState reader (Z.shiftl 1 accuracy_log + 1) (Z.shiftl 1 accuracy_log)
            (accuracy_log + 1) [] 0 false);
  _ ← raise_if (negb (d_remaining st =? 1)) ZstdError;
  Ok (d_counts st, accuracy_log, d_reader st).

(** ** The spread of symbols over the states of an FSE table

    With an odd step the walk [pos = (pos + step) mod size] visits every position
    once, so skipping the positions above the threshold fills those below it, each
    once, in the order of the symbols. *)

Section orbit.
Context (size step : Z) (Hsize : 0 < size) (Hgcd : Z.gcd step size = 1).

(** The position after [k] steps. *)
Definition orbit (k : nat) : Z := (Z.of_nat k * step) `mod` size.

Lemma orbit_range k : 0 <= orbit k < size.
Proof using Hsize. by apply Z.mod_pos_bound. Qed.
Lemma orbit_S k : orbit (S k) = (orbit k + step) `mod` size.
Proof using Hsize.
  unfold orbit. rewrite Zplus_mod_idemp_l by lia. f_equal. lia.
Qed.
Lemma orbit_inj i j :
  Z.of_nat i < size -> Z.of_nat j < size -> orbit i = orbit j -> i = j.
Proof using Hsize Hgcd.
  intros Hi Hj E. unfold orbit in E.
  assert ((size | (Z.of_nat i - Z.of_nat j) * step)) as Hd.
  { apply Z.mod_divide; [lia|]. rewrite Z.mul_sub_distr_r, Zminus_mod, E, Z.sub_diag. by apply Z.mod_0_l; lia. }
  rewrite Z.mul_comm in Hd. assert (Z.gcd size step = 1) as Hg by (rewrite Z.gcd_comm; exact Hgcd).
  apply (Z.gauss _ _ _ Hd) in Hg as [q Hq].
  apply Nat2Z.inj. assert (q = 0) as -> by nia. lia.
Qed.
Lemma orbit_size : orbit (Z.to_nat size) = 0.
Proof using Hsize. unfold orbit. rewrite Z2Nat.id, Z.mul_comm by lia. apply Z.mod_mul. lia. Qed.

(** The positions of a whole round. *)
Lemma orbit_perm : (orbit <$> seq 0 (Z.to_nat size)) ≡ₚ seqZ 0 size.
Proof using Hsize Hgcd.
  apply NoDup_Permutation_bis.
  - apply NoDup_ListNoDup, NoDup_fmap_2_strong; [|apply NoDup_seq].
    intros i j Hi%elem_of_seq Hj%elem_of_seq. apply orbit_inj; lia.
  - rewrite length_fmap, length_seq, length_seqZ. lia.
  - intros x (k & -> & _)%list_elem_of_In%list_elem_of_fmap. apply list_elem_of_In, elem_of_seqZ.
    pose proof (orbit_range k). lia.
Qed.

Section threshold.
Context (high : Z) (Hhigh : high < size).

(** The positions of the first [k] steps that are not skipped. *)
Definition visits (k : nat) : list Z := filter (fun p => p <= high) (orbit <$> seq 0 k).

Lemma visits_S k : visits (S k) = visits k ++ (if decide (orbit k <= high) then [orbit k] else []).
Proof.
  unfold visits. rewrite seq_S, fmap_app, filter_app. done.
Qed.
Lemma visits_skip k j :
  (forall i, (k <= i < k + j)%nat -> high < orbit i) -> visits (k + j) = visits k.
Proof.
  induction j as [|j IH]; intros H; [by rewrite Nat.add_0_r|].
  rewrite Nat.add_succ_r, visits_S, IH by (intros; apply H; lia).
  rewrite decide_False; [by rewrite app_nil_r|]. pose proof (H (k + j)%nat). lia.
Qed.
Lemma visits_NoDup k : Z.of_nat k <= size -> NoDup (visits k).
Proof using Hsize Hgcd.
  intros Hk. apply NoDup_filter, NoDup_fmap_2_strong; [|apply NoDup_seq].
  intros i j Hi%elem_of_seq Hj%elem_of_seq. apply orbit_inj; lia.
Qed.
Lemma elem_of_visits k p : p ∈ visits k -> 0 <= p <= high.
Proof using Hsize.
  unfold visits. rewrite list_elem_of_filter, list_elem_of_fmap. intros [Hp (i & -> & _)].
  pose proof (orbit_range i). lia.
Qed.
Lemma visits_all : -1 <= high -> visits (Z.to_nat size) ≡ₚ seqZ 0 (high + 1).
Proof using Hsize Hgcd Hhigh.
  intros Hlo. unfold visits. rewrite orbit_perm.
  apply NoDup_Permutation; [apply NoDup_filter, NoDup_seqZ|apply NoDup_seqZ|].
  intros p. rewrite list_elem_of_filter, !elem_of_seqZ. lia.
Qed.
End threshold.
End orbit.

(** ** The loops of [_build_fse_table] *)

Section spread.
Context (log : Z) (Hlog : 5 <= log).
Let size := 2 ^ log.
Let step := Z.shiftr size 1 + Z.shiftr size 3 + 3.
Let mask := size - 1.

Lemma size_pos : 32 <= size.
Proof using Hlog. change 32 with (2 ^ 5). by apply Z.pow_le_mono_r. Qed.
(** The step is odd. *)
Lemma step_coprime : Z.gcd step size = 1.
Proof using Hlog.
  assert (step = 2 * (2 ^ (log - 2) + 2 ^ (log - 4) + 1) + 1) as ->.
  { unfold step, size. rewrite !Z.shiftr_div_pow2 by lia.
    rewrite <- !Z.pow_sub_r by lia.
    replace (log - 1) with (Z.succ (log - 2)) by lia. replace (log - 3) with (Z.succ (log - 4)) by lia.
    rewrite !Z.pow_succ_r by lia. lia. }
  apply (Z.coprime_pow_r _ 2 log); [lia|]. set (h := 2 ^ (log - 2) + 2 ^ (log - 4) + 1).
  unfold Z.coprime. rewrite Z.gcd_comm, <- Z.gcd_mod by lia.
  replace ((2 * h + 1) `mod` 2) with 1; [done|].
  rewrite Z.add_comm, Z.mul_comm, Z.mod_add by lia. done.
Qed.
Lemma land_orbit k : Z.land (orbit size step k + step) mask = orbit size step (S k).
Proof using Hlog.
  unfold mask, size at 2. rewrite land_mask by lia. fold size. rewrite orbit_S; [done|].
  pose proof size_pos. lia.
Qed.

Section threshold.
Context (high : Z) (Hhigh : -1 <= high < size).
Abbreviation orb := (orbit size step) (only parsing).
Abbreviation vis := (visits size step high) (only parsing).

Lemma skip_high_spec fuel k d :
  (d <= fuel)%nat -> orb (k + d) <= high ->
  exists j, (j <= d)%nat /\ skip_high fuel step mask high (orb k) = Ok (orb (k + j)) /\
    (forall i, (k <= i < k + j)%nat -> high < orb i) /\ orb (k + j) <= high.
Proof using Hlog.
  revert k d. induction fuel as [|fuel IH]; intros k d Hd Ho; cbn [skip_high];
    destruct (Z.leb_spec (orb k) high) as [Hle|Hgt].
  1, 3: exists 0%nat; rewrite Nat.add_0_r; split_and!; [lia|done|lia|done].
  - replace d with 0%nat in Ho by lia. rewrite Nat.add_0_r in Ho. lia.
  - destruct d as [|d]; [rewrite Nat.add_0_r in Ho; lia|]. rewrite land_orbit.
    destruct (IH (S k) d) as (j & Hj & -> & Hskip & Hlow); [lia|by rewrite <- Nat.add_succ_comm in Ho|].
    exists (S j). rewrite !Nat.add_succ_comm in *. split; [lia|]. split; [done|]. split; [|done].
    intros i Hi. destruct (decide (i = k)) as [->|]; [lia|]. apply Hskip. lia.
Qed.

Lemma place_one_spec L k sym x :
  len L = size -> orb k <= high -> Z.of_nat k < size -> 0 <= high ->
  exists k', place_one step mask high sym (L, orb k) x = Ok (<[Z.to_nat (orb k) := sym]> L, orb k') /\
    (k < k')%nat /\ Z.of_nat k' <= size /\ orb k' <= high /\ vis k' = vis k ++ [orb k].
Proof using Hlog Hhigh.
  intros HL Hk Hks Hh. pose proof size_pos. unfold place_one.
  pose proof (orbit_range size step ltac:(lia) k) as Hr.
  rewrite py_set_in_range, bind_Ok by lia. rewrite land_orbit.
  destruct (skip_high_spec (Z.to_nat (mask + 1)) (S k) (Z.to_nat size - S k)) as (j & Hj & -> & Hskip & Hlow).
  - unfold mask. lia.
  - replace (S k + (Z.to_nat size - S k))%nat with (Z.to_nat size) by lia. rewrite orbit_size by lia. done.
  - rewrite bind_Ok. exists (S k + j)%nat. split; [done|]. split; [lia|]. split; [lia|]. split; [done|].
    rewrite visits_skip by done. rewrite visits_S, decide_True by done. done.
Qed.

Lemma spread_loop order L k :
  len L = size -> orb k <= high -> Z.of_nat k <= size -> 0 <= high ->
  Z.of_nat (length (vis k)) + len order <= high + 1 ->
  exists k' L' vs,
    foldM (fun st sym => place_one step mask high sym st 0) (L, orb k) order = Ok (L', orb k') /\
    len L' = size /\ Z.of_nat k' <= size /\ vis k' = vis k ++ vs /\ length vs = length order /\
    (forall n p s, vs !! n = Some p -> order !! n = Some s -> L' !! Z.to_nat p = Some s) /\
    (forall p, 0 <= p -> p ∉ vs -> L' !! Z.to_nat p = L !! Z.to_nat p).
Proof using Hlog Hhigh.
  revert L k. induction order as [|sym order IH]; intros L k HL Hk Hks Hh Hn.
  - exists k, L, []. rewrite app_nil_r. by split_and!.
  - cbn [length] in Hn. pose proof size_pos. assert (Z.of_nat k < size) as Hlt.
    { destruct (decide (Z.of_nat k = size)) as [E|]; [exfalso|lia].
      replace k with (Z.to_nat size) in Hn by lia.
      rewrite (visits_all size step ltac:(lia) step_coprime high ltac:(lia) ltac:(lia)) in Hn.
      rewrite length_seqZ in Hn. lia. }
    destruct (place_one_spec L k sym 0) as (k1 & Hp & Hk1 & Hk1s & Hk1o & Hv); [done..|].
    cbn [foldM]. rewrite Hp, bind_Ok.
    destruct (IH (<[Z.to_nat (orb k) := sym]> L) k1) as (k' & L' & vs & Hf & HL' & Hk' & Hvs & Hl & Hin & Hout);
      [by rewrite length_insert|done|done|done|rewrite Hv, length_app; cbn; lia|].
    exists k', L', (orb k :: vs). split; [done|]. split; [done|]. split; [done|].
    split; [by rewrite Hvs, Hv, <- app_assoc|]. split; [cbn; by rewrite Hl|].
    pose proof (orbit_range size step ltac:(lia) k) as Hr.
    assert (orb k ∉ vs) as Hnin.
    { pose proof (visits_NoDup size step ltac:(lia) step_coprime high k' Hk') as Hnd.
      rewrite Hvs, Hv, <- app_assoc in Hnd. apply NoDup_app in Hnd as (_ & _ & Hnd).
      by apply NoDup_cons in Hnd as [? _]. }
    split.
    + intros [|n] p s Hp' Hs; cbn in Hp', Hs.
      * injection Hp' as <-. injection Hs as <-. rewrite Hout by (done || lia).
        apply list_lookup_insert_eq. lia.
      * by eapply Hin.
    + intros p Hp0 Hp'. apply not_elem_of_cons in Hp' as [Hne Hp']. rewrite Hout by done.
      apply list_lookup_insert_ne. lia.
Qed.
End threshold.
End spread.
