(* ===== verification/FseProps.v ===== *)
(** * FSE tables are complete

    [_build_fse_table] on a distribution that sums to the table size never fails,
    gives every symbol as many states as its count, and for every symbol the states
    of that symbol lead, between them, to each state of the table in exactly one way:
    what an encoder needs to be undone by this decoder. *)

From S2P Require Import Prelude BitReader Fse.

(** ** Distributions *)

Definition dist_ok (counts : list Z) (log : Z) : Prop :=
  5 <= log /\ Forall (fun c => -1 <= c) counts /\ sumZ (Z.abs <$> counts) = 2 ^ log.

Definition occ (s : Z) (l : list Z) : nat := length (filter (fun x => x = s) l).

(** A table in which, for every symbol that occurs and every state [x], exactly one
    state of that symbol has [x] in the range it can move to.  A state that reads no
    bits moves down, so no cycle of such states exists unless one symbol has them all. *)
Record table_ok (counts : list Z) (t : _FseTable) : Prop := {
  to_log : 5 <= accuracy_log t;
  to_symbol_len : len (symbol t) = 2 ^ accuracy_log t;
  to_baseline_len : len (baseline t) = 2 ^ accuracy_log t;
  to_bits_len : len (num_bits t) = 2 ^ accuracy_log t;
  to_counts : forall s c, counts !! s = Some c -> Z.of_nat (occ (Z.of_nat s) (symbol t)) = Z.abs c;
  to_symbols : forall st s, symbol t !! st = Some s ->
    exists c, counts !! Z.to_nat s = Some c /\ c <> 0 /\ 0 <= s;
  to_range : forall st b n, baseline t !! st = Some b -> num_bits t !! st = Some n ->
    0 <= n <= accuracy_log t /\ 0 <= b /\ b + 2 ^ n <= 2 ^ accuracy_log t;
  to_unique : forall s c x, counts !! s = Some c -> c <> 0 -> 0 <= x < 2 ^ accuracy_log t ->
    exists! st, exists b n, symbol t !! st = Some (Z.of_nat s) /\ baseline t !! st = Some b /\
      num_bits t !! st = Some n /\ b <= x < b + 2 ^ n;
  to_descends : forall st s c b, symbol t !! st = Some (Z.of_nat s) -> counts !! s = Some c ->
    baseline t !! st = Some b -> num_bits t !! st = Some 0 ->
    Z.abs c < 2 ^ accuracy_log t -> b < Z.of_nat st;
}.

(** ** First loop *)

Fixpoint low_syms (i : Z) (l : list Z) : list Z :=
  match l with [] => [] | c :: l => (if c =? -1 then [i] else []) ++ low_syms (i + 1) l end.
(** Each symbol as often as its count. *)
Fixpoint pos_syms (i : Z) (l : list Z) : list Z :=
  match l with [] => [] | c :: l => replicate (Z.to_nat c) i ++ pos_syms (i + 1) l end.
Definition enumerate_from (i : Z) (l : list Z) : list (Z * Z) := imap (fun k x => (i + Z.of_nat k, x)) l.

Lemma enumerate_from_0 l : enumerate l = enumerate_from 0 l.
Proof. unfold enumerate, enumerate_from. apply imap_ext. intros. by rewrite Z.add_0_l. Qed.
Lemma enumerate_from_cons i c l : enumerate_from i (c :: l) = (i, c) :: enumerate_from (i + 1) l.
Proof.
  unfold enumerate_from. cbn [imap]. f_equal; [f_equal; lia|]. apply imap_ext. intros k x _. cbn.
  f_equal. lia.
Qed.

(** One turn, on a list whose next entry is at position [i]. *)
Lemma low_step_cons i c L high done_ rest :
  len done_ = i -> -1 <= c -> high < len L -> (c = -1 -> 0 <= high) ->
  low_step (L, high, done_ ++ 0 :: rest) (i, c)
    = Ok (if c =? -1 then <[Z.to_nat high := i]> L else L, if c =? -1 then high - 1 else high,
          (done_ ++ [Z.abs c]) ++ rest).
Proof.
  intros Hi Hc Hhigh Hlow.
  assert (forall y, py_set (done_ ++ 0 :: rest) i y = Ok ((done_ ++ [y]) ++ rest)) as Hset.
  { intros y. rewrite <- Hi, py_set_nat by (rewrite length_app; cbn; lia).
    rewrite insert_app_r_alt, Nat.sub_diag by lia. cbn [insert list_insert]. by rewrite <- app_assoc. }
  unfold low_step. destruct (Z.eqb_spec c (-1)) as [->|Hne].
  - specialize (Hlow eq_refl). by rewrite Hset, (py_set_in_range L), !bind_Ok by lia.
  - destruct (Z.ltb_spec 0 c); [by rewrite Hset, bind_Ok, Z.abs_eq by lia|].
    assert (c = 0) as -> by lia. by rewrite <- app_assoc.
Qed.

Lemma low_loop i l L high done_ :
  len done_ = i -> Forall (fun c => -1 <= c) l -> high < len L -> len (low_syms i l) <= high + 1 ->
  let high' := high - len (low_syms i l) in
  foldM low_step (L, high, done_ ++ ((fun _ => 0) <$> l)) (enumerate_from i l)
    = Ok (take (Z.to_nat (high' + 1)) L ++ reverse (low_syms i l) ++ drop (Z.to_nat (high + 1)) L,
          high', done_ ++ (Z.abs <$> l)).
Proof.
  revert i L high done_. induction l as [|c l IH]; intros i L high done_ Hi Hc Hhigh Hn high'.
  - unfold high'. cbn. by rewrite Z.sub_0_r, take_drop.
  - apply Forall_cons in Hc as [Hc Hl]. rewrite enumerate_from_cons. cbn [foldM].
    unfold high'. cbn [low_syms fmap list_fmap] in *. rewrite length_app in Hn.
    rewrite low_step_cons, bind_Ok; [|done..|intros ->; cbn in Hn; lia].
    destruct (Z.eqb_spec c (-1)) as [->|Hne]; cbn [length Nat.add] in Hn.
    + rewrite IH; [|rewrite length_app; cbn; lia|done|rewrite length_insert; lia|lia].
      rewrite length_app, <- app_assoc. cbn [app length Nat.add].
      replace (high - Z.of_nat (S (length (low_syms (i + 1) l))))
        with (high - 1 - len (low_syms (i + 1) l)) by lia.
      do 3 f_equal.
      rewrite reverse_cons, <- app_assoc, take_insert_ge by lia. f_equal. f_equal.
      replace (high - 1 + 1) with high by lia. replace (Z.to_nat (high + 1)) with (S (Z.to_nat high)) by lia.
      rewrite (drop_S _ i) by (apply list_lookup_insert_eq; lia). by rewrite drop_insert_lt by lia.
    + rewrite IH; [|rewrite length_app; cbn; lia|done|done|cbn; lia]. by rewrite <- app_assoc.
Qed.

(** ** Second loop *)

Lemma foldM_ignore {A B S} (f : S -> A -> res S) (g : S -> B -> res S) (x : B) s (l : list A) :
  (forall s a, f s a = g s x) -> foldM f s l = foldM g s (replicate (length l) x).
Proof.
  intros H. revert s. induction l as [|a l IH]; intros s; cbn [foldM length replicate]; [done|].
  rewrite H. destruct (g s x) as [s'|e]; [apply IH|done].
Qed.

Lemma spread_all step mask high i l st :
  foldM (spread_step step mask high) st (enumerate_from i l)
    = foldM (fun st sym => place_one step mask high sym st 0) st (pos_syms i l).
Proof.
  revert i st. induction l as [|c l IH]; intros i st; [done|].
  rewrite enumerate_from_cons. cbn [foldM pos_syms]. rewrite foldM_app.
  change (spread_step step mask high st (i, c))
    with (if c <=? 0 then Ok st else foldM (place_one step mask high i) st (seqZ 0 c)).
  destruct (Z.leb_spec c 0) as [Hc|Hc].
  - replace (Z.to_nat c) with 0%nat by lia. rewrite bind_Ok. apply IH.
  - rewrite (foldM_ignore _ (fun st sym => place_one step mask high sym st 0) i) by (by intros [] a).
    rewrite length_seqZ.
    destruct (foldM _ st (replicate _ i)) as [st'|e]; [apply IH|done].
Qed.

(** The places of a filled list that were written carry the written symbols. *)
Lemma written_perm (L order vs : list Z) (h : Z) :
  0 <= h + 1 <= len L -> vs ≡ₚ seqZ 0 (h + 1) -> length vs = length order ->
  (forall n p s, vs !! n = Some p -> order !! n = Some s -> L !! Z.to_nat p = Some s) ->
  take (Z.to_nat (h + 1)) L ≡ₚ order.
Proof.
  intros Hh Hvs Hlen Hat.
  assert (order = (fun p => L !!! Z.to_nat p) <$> vs) as ->.
  { apply list_eq_same_length with (length order); [by rewrite length_fmap|done|].
    intros n x y Hn Hx Hy. rewrite list_lookup_fmap in Hy.
    destruct (vs !! n) as [p|] eqn:Hp; [|done]. injection Hy as <-.
    by rewrite (list_lookup_total_correct _ _ _ (Hat _ _ _ Hp Hx)). }
  rewrite Hvs.
  enough (take (Z.to_nat (h + 1)) L = (fun p => L !!! Z.to_nat p) <$> seqZ 0 (h + 1)) as -> by done.
  apply list_eq_same_length with (Z.to_nat (h + 1));
    [rewrite length_fmap, length_seqZ; lia|rewrite length_take; lia|].
  intros n x y Hn Hx Hy. rewrite lookup_take, decide_True in Hx by lia.
  rewrite list_lookup_fmap, lookup_seqZ_lt in Hy by lia. csimpl in Hy.
  rewrite Z.add_0_l, Nat2Z.id in Hy. injection Hy as <-. by rewrite (list_lookup_total_correct _ _ _ Hx).
Qed.

Lemma length_syms i l :
  Forall (fun c => -1 <= c) l -> len (pos_syms i l) + len (low_syms i l) = sumZ (Z.abs <$> l).
Proof.
  intros H. revert i. induction H as [|c l Hc _ IH]; intros i; [done|]. csimpl.
  rewrite !length_app, length_replicate. specialize (IH (i + 1)).
  destruct (Z.eqb_spec c (-1)) as [->|]; cbn [length]; cbn; unfold sumZ in *; lia.
Qed.

(** The first two loops: every symbol on as many states as its count. *)
Lemma symbols_of_states counts log zeros :
  dist_ok counts log -> len zeros = 2 ^ log ->
  let high := 2 ^ log - 1 - len (low_syms 0 counts) in
  exists L1 L pos,
    foldM low_step (zeros, 2 ^ log - 1, (fun _ => 0) <$> counts) (enumerate counts)
      = Ok (L1, high, Z.abs <$> counts) /\
    foldM (spread_step (Z.shiftr (2 ^ log) 1 + Z.shiftr (2 ^ log) 3 + 3) (2 ^ log - 1) high) (L1, 0)
      (enumerate counts) = Ok (L, pos) /\
    len L = 2 ^ log /\ L ≡ₚ pos_syms 0 counts ++ low_syms 0 counts.
Proof.
  intros (Hlog & Hc & Hsum) Hz high. pose proof (size_pos log Hlog) as Hsize.
  pose proof (length_syms 0 counts Hc) as Hlen. rewrite enumerate_from_0.
  pose proof (low_loop 0 counts zeros (2 ^ log - 1) [] eq_refl Hc ltac:(lia) ltac:(lia)) as Hlow.
  cbn [app] in Hlow. fold high in Hlow. rewrite Hlow.
  rewrite (drop_ge zeros), app_nil_r by lia.
  set (lows := reverse (low_syms 0 counts)).
  assert (len lows = len (low_syms 0 counts)) as Hlows by (unfold lows; by rewrite length_reverse).
  assert (len (take (Z.to_nat (high + 1)) zeros ++ lows) = 2 ^ log) as HL1.
  { rewrite length_app, length_take. lia. }
  exists (take (Z.to_nat (high + 1)) zeros ++ lows).
  rewrite spread_all. destruct (pos_syms 0 counts) as [|s0 order] eqn:Hpos.
  - do 2 eexists. split; [done|]. split; [done|]. split; [done|]. cbn [length] in Hlen.
    unfold lows. replace (Z.to_nat (high + 1)) with 0%nat by lia. cbn. by rewrite reverse_Permutation.
  - rewrite <- Hpos in *. assert (0 <= high) as Hh by (rewrite Hpos in Hlen; cbn in Hlen; lia).
    destruct (spread_loop log Hlog high ltac:(lia) (pos_syms 0 counts)
      (take (Z.to_nat (high + 1)) zeros ++ lows) 0 HL1 Hh ltac:(lia) Hh ltac:(cbn; lia))
      as (k' & L & vs & Hf & HL & Hk' & Hvs & Hl & Hin & Hout).
    exists L, (orbit (2 ^ log) (Z.shiftr (2 ^ log) 1 + Z.shiftr (2 ^ log) 3 + 3) k').
    split; [done|]. split; [exact Hf|]. split; [done|].
    pose proof (visits_NoDup (2 ^ log) _ ltac:(lia) (step_coprime log Hlog) high k' Hk') as Hnd.
    change (visits _ _ high 0) with (@nil Z) in Hvs. cbn [app] in Hvs.
    assert (forall p, p ∈ vs -> 0 <= p <= high) as Hin_vs.
    { intros p Hp. rewrite <- Hvs in Hp. apply elem_of_visits in Hp; [done|lia]. }
    rewrite <- (take_drop (Z.to_nat (high + 1)) L). apply Permutation_app.
    + apply (written_perm L (pos_syms 0 counts) vs high); [lia| |done|done].
      apply submseteq_length_Permutation; [|rewrite length_seqZ; lia].
      apply NoDup_submseteq; [by rewrite <- Hvs|]. intros p Hp. apply elem_of_seqZ.
      specialize (Hin_vs p Hp). lia.
    + enough (drop (Z.to_nat (high + 1)) L = lows) as -> by apply reverse_Permutation.
      apply list_eq. intros n. rewrite lookup_drop.
      replace (Z.to_nat (high + 1) + n)%nat with (Z.to_nat (high + 1 + Z.of_nat n)) by lia.
      rewrite Hout; [|lia|intros Hp%Hin_vs; lia].
      rewrite lookup_app_r by (rewrite length_take; lia). f_equal. rewrite length_take. lia.
Qed.

(** ** Counting *)

Lemma occ_app s l1 l2 : occ s (l1 ++ l2) = (occ s l1 + occ s l2)%nat.
Proof. unfold occ. by rewrite filter_app, length_app. Qed.
#[export] Instance occ_proper s : Proper ((≡ₚ) ==> eq) (occ s).
Proof. unfold occ. intros l1 l2 H. by rewrite H. Qed.
Lemma occ_cons s x l : occ s (x :: l) = ((if decide (x = s) then 1 else 0) + occ s l)%nat.
Proof. unfold occ. rewrite filter_cons. by destruct (decide (x = s)). Qed.
Lemma occ_take_S s (l : list Z) n x :
  l !! n = Some x -> occ s (take (S n) l) = (occ s (take n l) + if decide (x = s) then 1 else 0)%nat.
Proof. intros H. rewrite (take_S_r _ _ _ H), occ_app, occ_cons. cbn. lia. Qed.
Lemma occ_replicate s n x : occ s (replicate n x) = if decide (x = s) then n else 0%nat.
Proof.
  induction n as [|n IH]; cbn [replicate]; [by destruct (decide _)|].
  rewrite occ_cons, IH. by destruct (decide (x = s)).
Qed.

(** The occurrences of [s] are numbered from 0 in order. *)
Lemma occ_nth s (l : list Z) j :
  (j < occ s l)%nat -> exists! st, l !! st = Some s /\ occ s (take st l) = j.
Proof.
  revert j. induction l as [|x l IH]; intros j Hj; [cbn in Hj; lia|].
  rewrite occ_cons in Hj. destruct (decide (x = s)) as [->|Hne]; [destruct j as [|j]|].
  - exists 0%nat. split; [done|]. intros [|st] [Hst Ho]; [done|].
    cbn [take] in Ho. rewrite occ_cons, decide_True in Ho by done. lia.
  - destruct (IH j) as (st & [Hst Ho] & Hu); [lia|]. exists (S st). split.
    + split; [done|]. cbn [take]. rewrite occ_cons, decide_True, Ho by done. done.
    + intros [|st'] [Hst' Ho']; [done|]. f_equal. apply Hu. split; [done|].
      cbn [take] in Ho'. rewrite occ_cons, decide_True in Ho' by done. lia.
  - destruct (IH j) as (st & [Hst Ho] & Hu); [lia|]. exists (S st). split.
    + split; [done|]. cbn [take]. by rewrite occ_cons, decide_False.
    + intros [|st'] [Hst' Ho']; [by injection Hst' as ?|]. f_equal. apply Hu. split; [done|].
      cbn [take] in Ho'. by rewrite occ_cons, decide_False in Ho'.
Qed.

Lemma occ_syms i l s c :
  Forall (fun c => -1 <= c) l -> l !! s = Some c ->
  Z.of_nat (occ (i + Z.of_nat s) (pos_syms i l ++ low_syms i l)) = Z.abs c.
Proof.
  assert (forall i l s, s < i -> occ s (pos_syms i l) = 0%nat /\ occ s (low_syms i l) = 0%nat) as Hlow.
  { clear. intros i l. revert i. induction l as [|c l IH]; intros i s Hs; [done|].
    cbn [pos_syms low_syms]. destruct (IH (i + 1) s) as [H1 H2]; [lia|].
    rewrite !occ_app, H1, H2, occ_replicate, decide_False by lia.
    destruct (c =? -1); [rewrite occ_cons, decide_False by lia|]; done. }
  intros H. revert i s. induction H as [|c' l Hc _ IH]; intros i [|s] Hs; [done..| |].
  - injection Hs as ->. cbn [pos_syms low_syms]. rewrite Z.add_0_r, !occ_app, occ_replicate, decide_True by done.
    destruct (Hlow (i + 1) l i) as [-> ->]; [lia|].
    destruct (Z.eqb_spec c (-1)) as [->|]; [by rewrite occ_cons, decide_True|]. cbn. lia.
  - rewrite <- (IH (i + 1) s Hs). cbn [pos_syms low_syms].
    replace (i + Z.of_nat (S s)) with (i + 1 + Z.of_nat s) by lia.
    rewrite !occ_app, occ_replicate, decide_False by lia.
    destruct (c' =? -1); [rewrite occ_cons, decide_False by lia|]; cbn; lia.
Qed.

Lemma elem_of_syms i l s :
  Forall (fun c => -1 <= c) l -> s ∈ pos_syms i l ++ low_syms i l ->
  exists k c, s = i + Z.of_nat k /\ l !! k = Some c /\ c <> 0.
Proof.
  intros H. revert i. induction H as [|c l Hc _ IH]; intros i Hs; [by apply not_elem_of_nil in Hs|].
  cbn [pos_syms low_syms] in Hs.
  destruct (decide (s ∈ pos_syms (i + 1) l ++ low_syms (i + 1) l)) as [Hin|Hout].
  - destruct (IH _ Hin) as (k & c' & -> & Hk & Hc'). exists (S k), c'. split_and!; [lia|done|done].
  - exists 0%nat, c. cbn. rewrite !elem_of_app in Hs. rewrite elem_of_app in Hout.
    destruct Hs as [[Hs|Hs]|[Hs|Hs]]; [| tauto | |tauto].
    + apply elem_of_replicate in Hs as [-> ?]. split_and!; [lia|done|]. lia.
    + destruct (Z.eqb_spec c (-1)) as [->|]; [|by apply not_elem_of_nil in Hs].
      apply list_elem_of_singleton in Hs as ->. split_and!; [lia|done|lia].
Qed.

(** ** Third loop *)

(** The [n]-th entry point of a symbol of count [c]: the bits it reads and the first
    state it leads to. *)
Definition entry_bits (log n : Z) : Z := log - Z.log2 n.
Definition entry_base (log n : Z) : Z := n * 2 ^ entry_bits log n - 2 ^ log.

Section transitions.
Context (counts : list Z) (log : Z) (L : list Z) (Hd : dist_ok counts log).
Context (HL : len L = 2 ^ log) (Hperm : L ≡ₚ pos_syms 0 counts ++ low_syms 0 counts).

(** What a state stands for: its symbol, the count of the symbol and the entry point. *)
Definition state_entry (st : nat) (s : nat) (n : Z) : Prop :=
  L !! st = Some (Z.of_nat s) /\
  exists c, counts !! s = Some c /\ n = Z.abs c + Z.of_nat (occ (Z.of_nat s) (take st L)).

Lemma occ_total s c : counts !! s = Some c -> Z.of_nat (occ (Z.of_nat s) L) = Z.abs c.
Proof using Hd Hperm.
  intros Hs. destruct Hd as (_ & Hc & _). rewrite Hperm. rewrite <- (occ_syms 0 counts s c Hc Hs).
  by rewrite Z.add_0_l.
Qed.
Lemma abs_count_le s c : counts !! s = Some c -> Z.abs c <= 2 ^ log.
Proof using Hd HL Hperm.
  intros Hs. rewrite <- (occ_total s c Hs), <- HL. unfold occ.
  pose proof (length_filter (fun x => x = Z.of_nat s) L). lia.
Qed.
Lemma state_entry_ex st : (st < length L)%nat -> exists s n, state_entry st s n.
Proof using Hd Hperm.
  intros Hst. destruct (lookup_lt_is_Some_2 L st Hst) as [x Hx]. destruct Hd as (_ & Hc & _).
  destruct (elem_of_syms 0 counts x Hc) as (s & c & -> & Hs & _).
  { rewrite <- Hperm. by eapply list_elem_of_lookup_2. }
  exists s, (Z.abs c + Z.of_nat (occ (Z.of_nat s) (take st L))). split; [done|]. eauto.
Qed.
Lemma state_entry_range st s n c :
  state_entry st s n -> counts !! s = Some c -> 0 < Z.abs c <= n /\ n < 2 * Z.abs c.
Proof using Hd Hperm.
  intros [Hst (c' & Hs & ->)] Hs'. rewrite Hs in Hs'. injection Hs' as ->.
  pose proof (occ_total s c Hs) as Ho. pose proof (occ_take_S (Z.of_nat s) L st _ Hst) as Ht.
  rewrite decide_True in Ht by done.
  rewrite <- (take_drop (S st) L), occ_app in Ho. lia.
Qed.
Lemma state_entry_bits st s n :
  state_entry st s n -> 0 < n /\ 0 <= entry_bits log n <= log /\
    0 <= entry_base log n /\ entry_base log n + 2 ^ entry_bits log n <= 2 ^ log.
Proof using Hd HL Hperm.
  intros He. pose proof He as [_ (c & Hs & _)]. pose proof (state_entry_range _ _ _ _ He Hs).
  pose proof (abs_count_le s c Hs). destruct Hd as (Hlog & _ & _).
  split; [lia|]. unfold entry_base, entry_bits.
  destruct (Z.log2_spec n) as [Hl1 Hl2]; [lia|]. pose proof (Z.log2_nonneg n) as Hl0.
  assert (Z.log2 n <= log) as Hle.
  { apply Z.lt_succ_r, Z.log2_lt_pow2; [lia|]. rewrite Z.pow_succ_r by lia. lia. }
  split; [lia|]. rewrite Z.pow_succ_r in Hl2 by lia.
  assert (2 ^ log = 2 ^ Z.log2 n * 2 ^ (log - Z.log2 n)) as E.
  { rewrite <- Z.pow_add_r by lia. f_equal. lia. }
  pose proof (Z.pow_pos_nonneg 2 (log - Z.log2 n) ltac:(lia) ltac:(lia)). rewrite E. nia.
Qed.

Lemma transition_step_entry B N X st s n :
  len B = 2 ^ log -> len N = 2 ^ log -> (st < length L)%nat -> state_entry st s n -> X !! s = Some n ->
  transition_step (2 ^ log) log L (B, N, X) (Z.of_nat st)
    = Ok (<[st := entry_base log n]> B, <[st := entry_bits log n]> N, <[s := n + 1]> X).
Proof using Hd HL Hperm.
  intros HB HN Hst He HX. pose proof (state_entry_bits _ _ _ He) as (Hn & Hb & _).
  destruct He as [Hs _]. unfold transition_step.
  rewrite (py_get_nat L st _ Hs), bind_Ok, (py_get_nat X s _ HX), bind_Ok.
  rewrite (py_set_nat X), bind_Ok by (by eapply lookup_lt_Some). cbv zeta.
  unfold bit_length. destruct (Z.eqb_spec n 0); [lia|]. rewrite Z.abs_eq, Z.add_simpl_r by lia.
  rewrite (py_set_nat N), bind_Ok by lia. unfold entry_bits in *. unfold py_shiftl.
  destruct (Z.ltb_spec (log - Z.log2 n) 0); [lia|]. rewrite bind_Ok, (py_set_nat B), bind_Ok by lia.
  by rewrite Z.shiftl_mul_pow2 by lia.
Qed.

Lemma transitions (k : nat) :
  Z.of_nat k <= 2 ^ log ->
  exists B N X,
    foldM (transition_step (2 ^ log) log L)
      (replicate (Z.to_nat (2 ^ log)) 0, replicate (Z.to_nat (2 ^ log)) 0, Z.abs <$> counts)
      (seqZ 0 (Z.of_nat k)) = Ok (B, N, X) /\
    len B = 2 ^ log /\ len N = 2 ^ log /\
    (forall s c, counts !! s = Some c ->
       X !! s = Some (Z.abs c + Z.of_nat (occ (Z.of_nat s) (take k L)))) /\
    (forall st s n, (st < k)%nat -> state_entry st s n ->
       B !! st = Some (entry_base log n) /\ N !! st = Some (entry_bits log n)).
Proof using Hd HL Hperm.
  induction k as [|k IH]; intros Hk.
  - do 3 eexists. split; [done|]. rewrite length_replicate, Z2Nat.id by lia. split_and!; [done..| |lia].
    intros s c Hs. rewrite list_lookup_fmap, Hs. cbn. by rewrite Z.add_0_r.
  - destruct IH as (B & N & X & Hf & HB & HN & HX & Hent); [lia|].
    destruct (state_entry_ex k) as (s & n & He); [lia|]. pose proof He as [Hs (c & Hc & ->)].
    do 3 eexists. rewrite seqZ_S, foldM_app, Hf, bind_Ok, Z.add_0_l. cbn [foldM].
    rewrite (transition_step_entry B N X k s _ HB HN ltac:(lia) He (HX s c Hc)), bind_Ok.
    split; [done|]. rewrite !length_insert. split; [done|]. split; [done|]. split.
    + intros s' c' Hs'. rewrite (occ_take_S _ _ _ _ Hs). destruct (decide (s = s')) as [<-|Hne].
      * rewrite Hc in Hs'. injection Hs' as <-. rewrite list_lookup_insert_eq.
        -- f_equal. rewrite decide_True by done. lia.
        -- by eapply lookup_lt_Some, HX.
      * rewrite list_lookup_insert_ne, (HX _ _ Hs'), decide_False by (done || lia). f_equal. lia.
    + intros st s' n Hst He'. destruct (decide (st = k)) as [->|Hne].
      * destruct He' as [Hs' (c' & Hc' & ->)]. rewrite Hs in Hs'. injection Hs' as Hs'.
        apply Nat2Z.inj in Hs' as <-. rewrite Hc in Hc'. injection Hc' as <-.
        rewrite !list_lookup_insert_eq by lia. done.
      * rewrite !list_lookup_insert_ne by lia. eapply Hent; [lia|exact He'].
Qed.
End transitions.

(** ** The ranges of the entry points of a symbol partition the states *)

Lemma entry_range_iff log n y :
  0 <= entry_bits log n ->
  entry_base log n <= y - 2 ^ log < entry_base log n + 2 ^ entry_bits log n
    <-> n = y / 2 ^ entry_bits log n.
Proof.
  intros Hb. unfold entry_base. set (w := 2 ^ entry_bits log n).
  assert (0 < w) as Hw by (by apply Z.pow_pos_nonneg). split.
  - intros H. apply (Z.div_unique y w n (y - n * w)); lia.
  - intros E. pose proof (Z.div_mod y w ltac:(lia)). pose proof (Z.mod_pos_bound y w Hw). nia.
Qed.

Lemma log2_div_pow2 y m : 0 < y -> 0 <= m <= Z.log2 y -> Z.log2 (y / 2 ^ m) = Z.log2 y - m.
Proof. intros. rewrite <- Z.shiftr_div_pow2, Z.log2_shiftr by lia. lia. Qed.

Lemma halve_pow2 y k : 0 < k -> y / 2 ^ k = y / 2 ^ (k - 1) / 2.
Proof.
  intros Hk. rewrite Z.div_div by (try apply Z.pow_nonzero; lia). f_equal.
  replace k with (Z.succ (k - 1)) at 1 by lia. rewrite Z.pow_succ_r by lia. lia.
Qed.

Lemma entry_unique log c y :
  0 <= log -> 0 < c <= 2 ^ log -> 2 ^ log <= y < 2 * 2 ^ log ->
  exists! n, c <= n < 2 * c /\ 0 <= entry_bits log n /\ n = y / 2 ^ entry_bits log n.
Proof.
  intros Hlog Hc Hy. unfold entry_bits.
  destruct (Z.log2_spec c) as [Hm1 Hm2]; [lia|]. remember (Z.log2 c) as m eqn:Em.
  assert (0 <= m) as Hm by (rewrite Em; apply Z.log2_nonneg). rewrite Z.pow_succ_r in Hm2 by done.
  assert (Z.log2 y = log) as Hly.
  { apply Z.log2_unique; [done|]. rewrite Z.pow_succ_r; lia. }
  assert (m <= log) as Hml by (rewrite Em, <- (Z.log2_pow2 log) by done; apply Z.log2_le_mono; lia).
  assert (forall k, 0 <= k <= log -> Z.log2 (y / 2 ^ (log - k)) = k) as Hq.
  { intros k Hk. rewrite log2_div_pow2 by lia. lia. }
  assert (forall k, 0 <= k <= log -> 0 < y / 2 ^ (log - k)) as Hpos.
  { intros k Hk. apply Z.div_str_pos. split; [by apply Z.pow_pos_nonneg; lia|].
    pose proof (Z.pow_le_mono_r 2 (log - k) log). lia. }
  assert (forall n, c <= n < 2 * c -> Z.log2 n = m \/ Z.log2 n = m + 1) as Hk.
  { intros n Hn. pose proof (Z.log2_le_mono c n) as H1. pose proof (Z.log2_le_mono n (2 * c)) as H2.
    rewrite Z.log2_double in H2 by lia. lia. }
  pose proof (Hq m ltac:(lia)) as Hqm. pose proof (Z.log2_spec _ (Hpos m ltac:(lia))) as Hsp.
  rewrite Hqm, Z.pow_succ_r in Hsp by done.
  assert (m < log -> y / 2 ^ (log - m) = y / 2 ^ (log - (m + 1)) / 2) as Hhalf.
  { intros. rewrite halve_pow2 by lia. do 3 f_equal. lia. }
  pose proof (Z.div_mod (y / 2 ^ (log - (m + 1))) 2) as Hdm.
  pose proof (Z.mod_pos_bound (y / 2 ^ (log - (m + 1))) 2) as Hmb.
  destruct (Z.le_gt_cases c (y / 2 ^ (log - m))) as [Hle|Hgt].
  - exists (y / 2 ^ (log - m)). split; [rewrite Hqm; split_and!; lia|].
    intros n (Hn & Hb & E). destruct (Hk n Hn) as [Ek|Ek]; rewrite Ek in *; [done|]. lia.
  - assert (m < log) as Hlt.
    { destruct (decide (m = log)) as [E|]; [|lia]. rewrite E, Z.sub_diag, Z.div_1_r in Hgt. lia. }
    pose proof (Hq (m + 1) ltac:(lia)) as Hqm'.
    pose proof (Z.log2_spec _ (Hpos (m + 1) ltac:(lia))) as Hsp'.
    rewrite Hqm', Z.add_1_r, Z.pow_succ_r in Hsp' by done. rewrite <- Z.add_1_r in Hsp'.
    exists (y / 2 ^ (log - (m + 1))). split; [rewrite Hqm'; split_and!; lia|].
    intros n (Hn & Hb & E). destruct (Hk n Hn) as [Ek|Ek]; rewrite Ek in *; [lia|done].
Qed.

(** ** The table *)

Section table.
Context (counts : list Z) (log : Z) (L B N : list Z) (Hd : dist_ok counts log).
Context (HL : len L = 2 ^ log) (Hperm : L ≡ₚ pos_syms 0 counts ++ low_syms 0 counts).
Context (HB : len B = 2 ^ log) (HN : len N = 2 ^ log).
Context (Hent : forall st s n, (st < Z.to_nat (2 ^ log))%nat -> state_entry counts L st s n ->
  B !! st = Some (entry_base log n) /\ N !! st = Some (entry_bits log n)).

Lemma entry_at st s n :
  state_entry counts L st s n ->
  L !! st = Some (Z.of_nat s) /\ B !! st = Some (entry_base log n) /\ N !! st = Some (entry_bits log n).
Proof using HL Hent.
  intros He. pose proof He as [Hs _]. split; [done|]. apply (Hent st s n); [|done].
  apply lookup_lt_Some in Hs. lia.
Qed.

Lemma table_unique s c x :
  counts !! s = Some c -> c <> 0 -> 0 <= x < 2 ^ log ->
  exists! st, exists b n, L !! st = Some (Z.of_nat s) /\ B !! st = Some b /\
    N !! st = Some n /\ b <= x < b + 2 ^ n.
Proof using Hd HL Hperm Hent.
  intros Hs Hc Hx. pose proof (abs_count_le counts log L Hd HL Hperm s c Hs) as Hle.
  assert (forall st n, state_entry counts L st s n ->
    entry_base log n <= x < entry_base log n + 2 ^ entry_bits log n
      <-> n = (x + 2 ^ log) / 2 ^ entry_bits log n) as Hiff.
  { intros st n He. destruct (state_entry_bits counts log L Hd HL Hperm st s n He) as (_ & Hb & _).
    rewrite <- (entry_range_iff log n (x + 2 ^ log)) by lia. by rewrite Z.add_simpl_r. }
  destruct (entry_unique log (Z.abs c) (x + 2 ^ log)) as (n & (Hn & Hb & En) & Hun);
    [destruct Hd; lia|lia|lia|].
  destruct (occ_nth (Z.of_nat s) L (Z.to_nat (n - Z.abs c))) as (st & [Hst Ho] & Hust).
  { pose proof (occ_total counts log L Hd Hperm s c Hs). lia. }
  assert (state_entry counts L st s n) as He by (split; [done|]; exists c; split; [done|lia]).
  exists st. split.
  - exists (entry_base log n), (entry_bits log n). destruct (entry_at st s n He) as (? & ? & ?).
    split_and!; try done; by apply (Hiff st n He).
  - intros st' (b & m & Hst' & Hb' & Hm & Hr).
    set (n' := Z.abs c + Z.of_nat (occ (Z.of_nat s) (take st' L))).
    assert (state_entry counts L st' s n') as He' by (split; [done|]; by exists c).
    destruct (entry_at st' s n' He') as (_ & Hb'' & Hm'').
    rewrite Hb' in Hb''. injection Hb'' as ->. rewrite Hm in Hm''. injection Hm'' as ->.
    apply Hust. split; [done|]. apply (Hiff st' n' He') in Hr.
    pose proof (state_entry_range counts log L Hd Hperm st' s n' c He' Hs).
    destruct (state_entry_bits counts log L Hd HL Hperm st' s n' He') as (_ & Hb2 & _).
    rewrite (Hun n') by (split_and!; lia || done). unfold n'. lia.
Qed.

Lemma table_entries : table_ok counts (FseTable log L B N).
Proof using Hd HL Hperm HB HN Hent.
  pose proof Hd as (Hlog & Hc & _). constructor; cbn; [done..| | | | |].
  - intros s c Hs. by apply (occ_total counts log L).
  - intros st x Hx. destruct (elem_of_syms 0 counts x Hc) as (k & c & -> & Hk & Hne).
    { rewrite <- Hperm. by eapply list_elem_of_lookup_2. }
    exists c. rewrite Z.add_0_l, Nat2Z.id. split_and!; [done|done|lia].
  - intros st b n Hb Hn. destruct (state_entry_ex counts log L Hd Hperm st) as (s & m & He).
    { apply lookup_lt_Some in Hb. lia. }
    destruct (entry_at st s m He) as (_ & Hb' & Hn').
    rewrite Hb in Hb'. injection Hb' as ->. rewrite Hn in Hn'. injection Hn' as ->.
    destruct (state_entry_bits counts log L Hd HL Hperm st s m He) as (_ & ? & ? & ?). done.
  - apply table_unique.
  - intros st s c b Hs Hc' Hb Hn Hlt.
    assert (state_entry counts L st s (Z.abs c + Z.of_nat (occ (Z.of_nat s) (take st L)))) as He.
    { split; [done|]. by exists c. }
    destruct (entry_at st s _ He) as (_ & Hb' & Hn'). rewrite Hb in Hb'. injection Hb' as ->.
    rewrite Hn in Hn'. injection Hn' as Hn'. unfold entry_base. rewrite <- Hn', Z.mul_1_r.
    pose proof (length_filter (fun x => x = Z.of_nat s) (take st L)) as Hf. fold (occ (Z.of_nat s) (take st L)) in Hf.
    rewrite length_take in Hf. lia.
Qed.
End table.

(** On a distribution that sums to the table size [_build_fse_table] returns a
    table: every symbol has as many states as its count, each state leads into the
    table, and for every symbol that occurs each state of the table is in the range
    of exactly one of the symbol's states. *)
Lemma build_fse_table_complete counts log :
  dist_ok counts log -> log <= 59 ->
  exists t, _build_fse_table counts log = Ok t /\ accuracy_log t = log /\ table_ok counts t.
Proof.
  intros Hd Hlog. pose proof Hd as (Hlog5 & Hc & _). pose proof (size_pos log Hlog5) as Hsize.
  unfold _build_fse_table. rewrite Z.shiftl_mul_pow2, Z.mul_1_l by lia.
  pose proof (Z.pow_le_mono_r 2 log 59 ltac:(lia) Hlog) as Hmax. change (2 ^ 59) with 576460752303423488 in Hmax.
  unfold zero_list. rewrite !(proj2 (Z.ltb_ge _ _)) by (change ((2 ^ 63 - 1) / 8) with 1152921504606846975; lia).
  rewrite bind_Ok.
  destruct (symbols_of_states counts log (replicate (Z.to_nat (2 ^ log)) 0) Hd) as
    (L1 & L & pos & H1 & H2 & HL & Hperm); [rewrite length_replicate; lia|].
  rewrite H1, bind_Ok. cbv beta iota zeta. rewrite H2, bind_Ok.
  destruct (transitions counts log L Hd HL Hperm (Z.to_nat (2 ^ log))) as (B & N & X & H3 & HB & HN & _ & Hent);
    [lia|].
  rewrite Z2Nat.id in H3 by lia. rewrite H3, bind_Ok.
  eexists. split; [done|]. split; [done|]. by apply table_entries.
Qed.
