(* ===== verification/FseRead.v ===== *)
(** * Distributions that are read

    [_read_fse_distribution] ends on every input, raises [ZstdError] or returns
    counts that sum to the table size: the input [_build_fse_table] needs. *)

From S2P Require Import Prelude BitReader Fse FseProps.

(** ** The forward reader *)

Definition reader_ok (r : _ForwardBitReader) : Prop := 0 <= fwd_data r /\ 0 <= fwd_bitpos r.

Lemma ones_eq n : 0 <= n -> ones n = 2 ^ n - 1.
Proof. intros. unfold ones. by rewrite Z.shiftl_mul_pow2, Z.mul_1_l by lia. Qed.

Lemma forward_init_ok data : bytes_ok data -> reader_ok (forward_init data).
Proof. intros Hd. split; [|done]. by apply (le_val_bound 256 ltac:(lia) data). Qed.

Lemma fwd_peek_range r n : 0 <= n -> 0 <= fwd_peek r n < 2 ^ n.
Proof.
  intros Hn. unfold fwd_peek. destruct (Z.eqb_spec n 0) as [->|]; [done|].
  rewrite ones_eq, land_mask by lia. apply Z.mod_pos_bound, Z.pow_pos_nonneg; lia.
Qed.

(** Past the end of the data every bit is 0. *)
Lemma fwd_peek_end r n :
  reader_ok r -> bit_length (fwd_data r) <= fwd_bitpos r -> fwd_peek r n = 0.
Proof.
  intros [Hd Hp] He. unfold fwd_peek. destruct (n =? 0); [done|].
  enough (Z.shiftr (fwd_data r) (fwd_bitpos r) = 0) as -> by apply Z.land_0_l.
  unfold bit_length in He. destruct (Z.eqb_spec (fwd_data r) 0) as [->|]; [apply Z.shiftr_0_l|].
  rewrite Z.abs_eq in He by lia. apply Z.shiftr_eq_0; lia.
Qed.

Lemma zero_run_ok fuel r counts symbol :
  reader_ok r -> len counts = symbol ->
  bit_length (fwd_data r) <= fwd_bitpos r + 2 * Z.of_nat fuel ->
  exists r' zs, zero_run fuel r counts symbol = Ok (r', counts ++ zs, symbol + len zs) /\
    reader_ok r' /\ fwd_data r' = fwd_data r /\ Forall (fun c => c = 0) zs.
Proof.
  revert r counts symbol. induction fuel as [|fuel IH]; intros r counts symbol Hr Hs Hf;
    pose proof (fwd_peek_range r 2 ltac:(lia)) as Hrep; cbn [zero_run]; unfold fwd_read;
    set (rep := fwd_peek r 2) in *.
  - assert (rep = 0) as -> by (apply fwd_peek_end; [done|lia]). exists (fwd_advance r 2), [].
    destruct Hr. split_and!; [done|split; cbn; lia|done|done].
  - set (zs := replicate (Z.to_nat rep) 0).
    assert (len zs = rep) as Hzs by (unfold zs; rewrite length_replicate; lia).
    assert (Forall (fun c => c = 0) zs) as Hz by (by apply Forall_replicate).
    assert (reader_ok (fwd_advance r 2)) as Hr' by (destruct Hr; split; cbn; lia).
    destruct (Z.eqb_spec rep 3) as [E|E]; cbn [negb].
    + destruct (IH (fwd_advance r 2) (counts ++ zs) (symbol + rep)) as (r' & zs' & -> & Hr2 & Hd & Hz');
        [done|rewrite length_app; lia|cbn; lia|].
      exists r', (zs ++ zs'). rewrite <- app_assoc, length_app.
      split; [|split; [done|split; [done|by apply Forall_app]]]. rewrite Nat2Z.inj_add, Hzs. f_equal. f_equal. lia.
    + exists (fwd_advance r 2), zs. split; [by rewrite Hzs|done].
Qed.

(** ** The loop *)

Record dist_inv (log : Z) (st : dist_state) : Prop := {
  di_reader : reader_ok (d_reader st);
  di_len : len (d_counts st) = d_symbol st;
  di_counts : Forall (fun c => -1 <= c) (d_counts st);
  di_sum : sumZ (Z.abs <$> d_counts st) + d_remaining st = 2 ^ log + 1;
  di_remaining : 1 <= d_remaining st;
}.
(** Where the loop goes on: the threshold is the top bit of what remains. *)
Record dist_bits (st : dist_state) : Prop := {
  db_nbits : 1 <= d_nbits st;
  db_threshold : d_threshold st = 2 ^ (d_nbits st - 1);
  db_bounds : d_threshold st <= d_remaining st < 2 * d_threshold st;
}.

(** A stored count never takes more than what remains. *)
Lemma read_count_ok st :
  reader_ok (d_reader st) -> dist_bits st -> 1 < d_remaining st ->
  exists c r, read_count st = (c, r) /\ 0 <= c <= d_remaining st /\
    reader_ok r /\ fwd_data r = fwd_data (d_reader st).
Proof.
  intros [Hd Hp] [Hn Ht Hb] Hrem. unfold read_count.
  set (p := fwd_peek (d_reader st) (d_nbits st)). set (thr := d_threshold st) in *.
  assert (2 * thr = 2 ^ d_nbits st) as H2.
  { rewrite Ht. replace (d_nbits st) with (Z.succ (d_nbits st - 1)) at 2 by lia.
    by rewrite Z.pow_succ_r by lia. }
  assert (forall k, 0 <= k -> Z.land p (2 ^ k - 1) = p `mod` 2 ^ k) as Hland by (intros; by apply land_mask).
  rewrite H2, Ht, !Hland, <- Ht, <- H2 by lia.
  pose proof (Z.mod_pos_bound p thr ltac:(lia)). pose proof (Z.mod_pos_bound p (2 * thr) ltac:(lia)).
  destruct (Z.ltb_spec (p `mod` thr) (2 * thr - 1 - d_remaining st)) as [Hlow|Hhigh].
  - eexists _, _. split; [done|]. split; [lia|]. split; [split; cbn; lia|done].
  - eexists _, _. split; [done|]. split; [|split; [split; cbn; lia|done]].
    destruct (Z.leb_spec thr (p `mod` (2 * thr))); lia.
Qed.

Lemma bit_length_bounds n : 0 < n -> 1 <= bit_length n /\ 2 ^ (bit_length n - 1) <= n < 2 * 2 ^ (bit_length n - 1).
Proof.
  intros Hn. unfold bit_length. destruct (Z.eqb_spec n 0); [lia|]. rewrite Z.abs_eq, Z.add_simpl_r by lia.
  pose proof (Z.log2_nonneg n). destruct (Z.log2_spec n Hn) as [H1 H2].
  rewrite Z.pow_succ_r in H2 by done. lia.
Qed.

Section loop.
Context (log max_symbol : Z).

(** How many turns can still follow. *)
Definition dist_measure (st : dist_state) : Z :=
  2 * (max_symbol + 1 - d_symbol st) + (if d_previous_is_zero st then 1 else 0).

(** What the loop returns: counts up to [max_symbol], or something left over. *)
Definition dist_done (st : dist_state) : Prop :=
  dist_inv log st /\ (d_remaining st = 1 -> d_symbol st <= max_symbol + 1).

Lemma dist_inv_count st r c thr nb z :
  dist_inv log st -> reader_ok r -> -1 <= c -> Z.abs c < d_remaining st ->
  dist_inv log (DistState r (d_remaining st - Z.abs c) thr nb (d_counts st ++ [c]) (d_symbol st + 1) z).
Proof.
  intros [Hr Hlen Hc Hsum Hpos] Hr' Hge Hlt. constructor; cbn; [done| | | |lia].
  - rewrite length_app. cbn. lia.
  - apply Forall_app. by split; [|constructor].
  - rewrite fmap_app, sumZ_app. cbn. unfold sumZ in *. lia.
Qed.
Lemma dist_inv_zeros st r zs thr nb z :
  dist_inv log st -> reader_ok r -> Forall (fun c => c = 0) zs ->
  dist_inv log (DistState r (d_remaining st) thr nb (d_counts st ++ zs) (d_symbol st + len zs) z).
Proof.
  intros [Hr Hlen Hc Hsum Hpos] Hr' Hz. constructor; cbn; [done| | | |done].
  - rewrite length_app. lia.
  - apply Forall_app. split; [done|]. eapply Forall_impl; [exact Hz|]. cbn. lia.
  - rewrite fmap_app, sumZ_app. enough (sumZ (Z.abs <$> zs) = 0) by lia.
    clear -Hz. induction Hz as [|x zs -> _ IH]; [done|]. csimpl. unfold sumZ in *. cbn. lia.
Qed.

Lemma dist_loop_ok fuel st :
  dist_inv log st -> (1 < d_remaining st -> dist_bits st) -> d_symbol st <= max_symbol + 1 ->
  dist_measure st <= Z.of_nat fuel ->
  exists st', dist_loop fuel max_symbol st = Ok st' /\ dist_done st'.
Proof.
  revert st. induction fuel as [|fuel IH]; intros st Hi Hb Hs Hm; cbn [dist_loop];
    destruct (Z.ltb_spec 1 (d_remaining st)) as [Hrem|Hrem];
    destruct (Z.leb_spec (d_symbol st) max_symbol) as [Hsym|Hsym]; cbn [andb negb];
    try (exists st; split; [done|]; split; [done|lia]).
  { unfold dist_measure in Hm. destruct (d_previous_is_zero st); lia. }
  specialize (Hb Hrem). unfold dist_measure in *. destruct (d_previous_is_zero st).
  - destruct (zero_run_ok (Z.to_nat (bit_length (fwd_data (d_reader st)))) (d_reader st) (d_counts st)
      (d_symbol st)) as (r & zs & -> & Hr' & _ & Hz); [apply Hi|apply Hi|destruct (di_reader _ _ Hi); lia|].
    rewrite bind_Ok. pose proof (dist_inv_zeros st r zs (d_threshold st) (d_nbits st) false Hi Hr' Hz) as Hi'.
    destruct (Z.ltb_spec max_symbol (d_symbol st + len zs)).
    + eexists. split; [done|]. split; [done|cbn; lia].
    + apply IH; cbn; [done| |lia|lia]. by destruct Hb; constructor.
  - destruct (read_count_ok st (di_reader _ _ Hi) Hb Hrem) as (k & r & -> & Hk & Hr' & _).
    set (c := k - 1). replace (if 0 <=? c then d_remaining st - c else d_remaining st + c)
      with (d_remaining st - Z.abs c) by (destruct (Z.leb_spec 0 c); lia).
    assert (-1 <= c) as Hge by lia. assert (Z.abs c < d_remaining st) as Hlt by lia.
    pose proof (fun thr nb z => dist_inv_count st r c thr nb z Hi Hr' Hge Hlt) as Hi'.
    destruct (Z.ltb_spec (d_remaining st - Z.abs c) (d_threshold st)) as [Ht|Ht];
      [destruct (Z.leb_spec (d_remaining st - Z.abs c) 1) as [H1|H1]|].
    + eexists. split; [done|]. split; [done|cbn; lia].
    + apply IH; cbn; [done| |lia|destruct (c =? 0); lia].
      intros _. destruct (bit_length_bounds (d_remaining st - Z.abs c)) as [Hbl Hbb]; [lia|].
      constructor; cbn; rewrite ?Z.shiftl_mul_pow2, ?Z.mul_1_l by lia; lia.
    + apply IH; cbn; [done| |lia|destruct (c =? 0); lia].
      intros _. destruct Hb as [Hb1 Hb2 Hb3]. constructor; cbn; [done|done|lia].
Qed.
End loop.

(** Reading a distribution ends, and either fails with [ZstdError] or returns
    counts of at most [max_symbol + 1] symbols that sum to the size of the table, so
    that the table can be built. *)
Lemma read_fse_distribution_sound data max_symbol max_accuracy :
  bytes_ok data -> 0 <= max_symbol ->
  match _read_fse_distribution (forward_init data) max_symbol max_accuracy with
  | Ok (counts, log, r) => dist_ok counts log /\ log <= Z.min 20 max_accuracy /\
      len counts <= max_symbol + 1 /\ reader_ok r
  | Err e => e = ZstdError
  end.
Proof.
  intros Hd Hms. unfold _read_fse_distribution, fwd_read. pose proof (forward_init_ok data Hd) as Hr.
  pose proof (fwd_peek_range (forward_init data) 4 ltac:(lia)) as Hv.
  generalize dependent (fwd_peek (forward_init data) 4). intros v Hv.
  destruct (Z.ltb_spec max_accuracy (v + 5)) as [Hacc|Hacc]; [done|]. cbn [raise_if]. rewrite bind_Ok.
  rewrite !Z.shiftl_mul_pow2, !Z.mul_1_l by lia.
  pose proof (size_pos (v + 5) ltac:(lia)) as Hsize.
  match goal with |- context [dist_loop ?n _ ?st] => destruct (dist_loop_ok (v + 5) max_symbol n st) as
    (st' & -> & Hi & Hlen) end.
  - constructor; cbn -[Z.pow]; [split; [apply Hr|cbn; lia]|done|done|unfold sumZ; cbn -[Z.pow]; lia|lia].
  - intros _. constructor; cbn; [lia|by rewrite Z.add_simpl_r|lia].
  - cbn. lia.
  - unfold dist_measure. cbn. lia.
  - rewrite bind_Ok. destruct (Z.eqb_spec (d_remaining st') 1) as [E|]; cbn; [|done].
    destruct Hi as [Hr' Hl Hc Hsum Hpos].
    split; [|split; [lia|split; [lia|done]]]. split; [lia|]. split; [done|lia].
Qed.

(** Whatever the bytes of a table description are, reading it ends with
    [ZstdError] or with counts from which the table can be built: every symbol has as
    many states as its count, each state leads into the table, and for every symbol
    that occurs each state of the table is reached from exactly one state of the
    symbol, as an encoder that is to be undone needs. *)
Theorem fse_description_complete data max_symbol max_accuracy :
  bytes_ok data -> 0 <= max_symbol ->
  match _read_fse_distribution (forward_init data) max_symbol max_accuracy with
  | Ok (counts, log, _) => log <= max_accuracy /\ len counts <= max_symbol + 1 /\
      exists t, _build_fse_table counts log = Ok t /\ accuracy_log t = log /\ table_ok counts t
  | Err e => e = ZstdError
  end.
Proof.
  intros Hd Hm. pose proof (read_fse_distribution_sound data max_symbol max_accuracy Hd Hm) as H.
  destruct (_read_fse_distribution _ _ _) as [[[counts log] r]|e]; [|done].
  destruct H as (Hdist & Hlog & Hlen & _). split; [lia|]. split; [done|].
  apply build_fse_table_complete; [done|lia].
Qed.

(** Fourteen probabilities of 32, seven of them below one. *)
Lemma fse_description_complete_witness :
  bytes_ok [16; 0; 200; 100; 50] /\
  match _read_fse_distribution (forward_init [16; 0; 200; 100; 50]) 255 6 with
  | Ok (counts, log, _) => log <= 6 /\ len counts <= 255 + 1 /\
      exists t, _build_fse_table counts log = Ok t /\ accuracy_log t = log /\ table_ok counts t
  | Err e => e = ZstdError
  end.
Proof.
  assert (bytes_ok [16; 0; 200; 100; 50]) as H by (by decompose_Forall).
  split; [exact H|]. exact (fse_description_complete [16; 0; 200; 100; 50] 255 6 H ltac:(lia)).
Defined.
Example fse_description_example :
  (fun p => p.1) <$> _read_fse_distribution (forward_init [16; 0; 200; 100; 50]) 255 6 = Ok ([0; -1; 7; 5; 8; 0; 0; 5; -1; -1; -1; -1; -1; -1], 5).
Proof. vm_compute. reflexivity. Qed.
