(* ===== verification/Huffman.v ===== *)
(** * Huffman literals: restore/_zstd_pure.py

    The table from a list of weights, the two descriptions of the weights, and the
    decoding of one or four streams. *)

From S2P Require Import Prelude BitReader Fse.

Record _HuffmanTable := HuffmanTable { max_bits : Z; h_symbols : list Z; h_num_bits : list Z }.

(** [for _ in range(span): symbols[pos] = sym; num_bits[pos] = nb; pos += 1] *)
Definition fill_one (sym nb : Z) (st : list Z * list Z * Z) (_ : Z) : res (list Z * list Z * Z) :=
  let '(symbols, num_bits, pos) := st in
  symbols ← py_set symbols pos sym;
  num_bits ← py_set num_bits pos nb;
  Ok (symbols, num_bits, pos + 1).
(** One symbol of the pass for weight [w]. *)
Definition fill_symbol (w nb span : Z) (st : list Z * list Z * Z) (sw : Z * Z) :
    res (list Z * list Z * Z) :=
  let '(sym, sym_weight) := sw in
  if sym_weight =? w then foldM (fill_one sym nb) st (seqZ 0 span) else Ok st.
Definition fill_weight (max_bits : Z) (weights : list Z) (st : list Z * list Z * Z) (w : Z) :
    res (list Z * list Z * Z) :=
  let nb := max_bits + 1 - w in
  let span := Z.shiftl 1 (w - 1) in
  foldM (fill_symbol w nb span) st (enumerate weights).

Definition weight_sum_of (weights : list Z) : Z :=
  sumZ ((fun w => if 0 <? w then Z.shiftl 1 (w - 1) else 0) <$> weights).

Definition _build_huffman_from_weights (weights : list Z) : res _HuffmanTable :=
  let weight_sum := weight_sum_of weights in
  _ ← raise_if (weight_sum =? 0) ZstdError;
  let max_bits := bit_length (weight_sum - 1) in
  let left_ := Z.shiftl 1 max_bits - weight_sum in
  _ ← raise_if (negb (Z.land left_ (left_ - 1) =? 0) || (left_ =? 0)) ZstdError;
  let last_weight := bit_length left_ in
  let weights := weights ++ [last_weight] in
  let table_size := Z.shiftl 1 max_bits in
  zeros ← zero_list table_size;
  '(symbols, num_bits, pos) ← foldM (fill_weight max_bits weights) (zeros, zeros, 0)
                                (seqZ 1 max_bits);
  _ ← raise_if (negb (pos =? table_size)) ZstdError;
  Ok (HuffmanTable max_bits symbols num_bits).

(** ** Weights *)

(** The loop that drains two interleaved states until a read overflows the
    container.  A state that reads no bits never gets there, so the number of turns
    has no bound in general: the loop takes fuel (HuffmanProps.v says when it is
    enough, and shows a stream for which none is). *)
Fixpoint weight_loop (fuel : nat) (t : _FseTable) (br : _FseDStreamReader) (state1 state2 : Z)
    (weights : list Z) : res (list Z) :=
  match fuel with
  | O => Err OutOfFuel
  | S fuel =>
      s1 ← py_get (symbol t) state1;
      b1 ← py_get (baseline t) state1; n1 ← py_get (num_bits t) state1;
      let '(v1, br) := ds_read br n1 in
      let state1 := b1 + v1 in
      s2 ← py_get (symbol t) state2;
      let weights := weights ++ [s1; s2] in
      if ds_overflowed br then Ok weights
      else
        b2 ← py_get (baseline t) state2; n2 ← py_get (num_bits t) state2;
        let '(v2, br) := ds_read br n2 in
        let state2 := b2 + v2 in
        if ds_overflowed br then s ← py_get (symbol t) state1; Ok (weights ++ [s])
        else weight_loop fuel t br state1 state2 weights
  end.

Section weights.
Variable weight_fuel : nat.

Definition _fse_decode_weight_stream (fse_bytes : bytes) : res (list Z) :=
  '(counts, accuracy_log, fwd) ← _read_fse_distribution (forward_init fse_bytes) 255 6;
  let table_bytes := (fwd_bitpos fwd + 7) / 8 in
  table ← _build_fse_table counts accuracy_log;
  br ← dstream_init (slice_from fse_bytes table_bytes);
  let '(state1, br) := ds_read br accuracy_log in
  let '(state2, br) := ds_read br accuracy_log in
  weight_loop weight_fuel table br state1 state2 [].

(** Two weights of four bits in each byte, the last byte possibly with one. *)
Definition direct_step (src : bytes) (num_weights : Z) (weights : list Z) (i : Z) : res (list Z) :=
  b ← py_get src (1 + i);
  let weights := weights ++ [Z.shiftr b 4] in
  Ok (if len weights <? num_weights then weights ++ [Z.land b 0xF] else weights).

Definition _decode_huffman_weights (src : bytes) (header_byte : Z) : res (list Z * Z) :=
  if 128 <=? header_byte then
    let num_weights := header_byte - 127 in
    let nbytes := (num_weights + 1) / 2 in
    weights ← foldM (direct_step src num_weights) [] (seqZ 0 nbytes);
    Ok (slice_to weights num_weights, 1 + nbytes)
  else
    let comp_size := header_byte in
    let fse_bytes := slice src 1 (1 + comp_size) in
    _ ← raise_if (len fse_bytes <? comp_size) ZstdError;
    weights ← _fse_decode_weight_stream fse_bytes;
    Ok (weights, 1 + comp_size).

(** ** Streams *)

(** One symbol: read a prefix of [max_bits] bits, put back what the code did not
    use.  Appending to a [bytearray] refuses a value above 255. *)
Definition literal_step (t : _HuffmanTable) (st : bytes * _BackwardBitReader) (_ : Z) :
    res (bytes * _BackwardBitReader) :=
  let '(out, br) := st in
  let '(prefix, br) := bwd_read br (max_bits t) in
  sym ← py_get (h_symbols t) prefix;
  nb ← py_get (h_num_bits t) prefix;
  _ ← raise_if (255 <? sym) ValueError;
  Ok (out ++ [sym], bwd_move br (max_bits t - nb)).

Definition _decode_literals_huffman (t : _HuffmanTable) (stream : bytes) (out_size : Z) : res bytes :=
  br ← backward_init stream;
  '(out, _) ← foldM (literal_step t) ([], br) (seqZ 0 out_size);
  Ok out.

Definition stream_step (t : _HuffmanTable) (data : bytes) (st : bytes * Z) (sizes : Z * Z) :
    res (bytes * Z) :=
  let '(out, off) := st in
  let '(size, out_size) := sizes in
  let chunk := slice data off (off + size) in
  lits ← _decode_literals_huffman t chunk out_size;
  Ok (out ++ lits, off + size).

Definition _decode_literals_4streams (t : _HuffmanTable) (data : bytes) (regen : Z) : res bytes :=
  _ ← raise_if (len data <? 6) ZstdError;
  let s1 := int_from_le (slice data 0 2) in
  let s2 := int_from_le (slice data 2 4) in
  let s3 := int_from_le (slice data 4 6) in
  let streams_start := 6 in
  let total := len data - streams_start in
  let s4 := total - (s1 + s2 + s3) in
  _ ← raise_if (s4 <? 0) ZstdError;
  let seg := (regen + 3) / 4 in
  '(out, _) ← foldM (stream_step t data) ([], streams_start)
                [(s1, seg); (s2, seg); (s3, seg); (s4, regen - 3 * seg)];
  Ok out.

(** ** The literals section of a block *)

Definition _decode_literals (src : bytes) (prev_huffman : option _HuffmanTable) :
    res (bytes * Z * option _HuffmanTable) :=
  let at_ i := py_get src i in
  b0 ← at_ 0;
  let block_type := Z.land b0 0x3 in
  let size_format := Z.land (Z.shiftr b0 2) 0x3 in
  if (block_type =? 0) || (block_type =? 1) then
    '(regen, hdr) ←
      (if (size_format =? 0) || (size_format =? 2) then Ok (Z.shiftr b0 3, 1)
       else if size_format =? 1 then
         b1 ← at_ 1; Ok (Z.lor (Z.shiftr b0 4) (Z.shiftl b1 4), 2)
       else
         b1 ← at_ 1; b2 ← at_ 2;
         Ok (Z.lor (Z.lor (Z.shiftr b0 4) (Z.shiftl b1 4)) (Z.shiftl b2 12), 3));
    if block_type =? 0 then
      let lits := slice src hdr (hdr + regen) in
      _ ← raise_if (len lits <? regen) ZstdError;
      Ok (lits, hdr + regen, prev_huffman)
    else
      b ← at_ hdr;
      Ok (replicate (Z.to_nat regen) b, hdr + 1, prev_huffman)
  else
    '(regen, comp, hdr, num_streams) ←
      (if (size_format =? 0) || (size_format =? 1) then
         b1 ← at_ 1; b2 ← at_ 2;
         Ok (Z.lor (Z.shiftr b0 4) (Z.shiftl (Z.land b1 0x3F) 4),
             Z.lor (Z.shiftr b1 6) (Z.shiftl b2 2), 3, if size_format =? 0 then 1 else 4)
       else if size_format =? 2 then
         b1 ← at_ 1; b2 ← at_ 2; b3 ← at_ 3;
         Ok (Z.lor (Z.lor (Z.shiftr b0 4) (Z.shiftl b1 4)) (Z.shiftl (Z.land b2 0x3) 12),
             Z.lor (Z.shiftr b2 2) (Z.shiftl b3 6), 4, 4)
       else
         b1 ← at_ 1; b2 ← at_ 2; b3 ← at_ 3; b4 ← at_ 4;
         Ok (Z.lor (Z.lor (Z.shiftr b0 4) (Z.shiftl b1 4)) (Z.shiftl (Z.land b2 0x3F) 12),
             Z.lor (Z.lor (Z.shiftr b2 6) (Z.shiftl b3 2)) (Z.shiftl b4 10), 5, 4));
    let payload := slice src hdr (hdr + comp) in
    _ ← raise_if (len payload <? comp) ZstdError;
    '(table, stream_data) ←
      (if block_type =? 2 then
         h ← py_get payload 0;
         '(weights, tree_bytes) ← _decode_huffman_weights payload h;
         table ← _build_huffman_from_weights weights;
         Ok (table, slice_from payload tree_bytes)
       else
         table ← of_option ZstdError prev_huffman;
         Ok (table, payload));
    lits ← (if num_streams =? 1 then _decode_literals_huffman table stream_data regen
            else _decode_literals_4streams table stream_data regen);
    Ok (lits, hdr + comp, Some table).
End weights.
