(* ===== verification/WeightProps.v ===== *)
(** * The stream of Huffman weights

    Two states take turns until a read passes the end of the stream.  With any
    distribution but one this ends: a state that reads no bits moves down.  With a
    single symbol of full probability no state ever reads a bit and the loop does
    not end. *)

From S2P Require Import Prelude BitReader Fse FseProps FseRead Huffman.

(** ** The container reader *)

(** Bits left, negative past the end. *)
Definition ds_left (r : _FseDStreamReader) : Z := 8 * ds_ptr r + 64 - ds_consumed r.
Definition ds_ok (r : _FseDStreamReader) : Prop := 0 <= ds_ptr r /\ 0 <= ds_consumed r.

Lemma ds_reload_ok r : ds_ok r -> ds_ok (ds_reload r) /\ ds_left (ds_reload r) = ds_left r.
Proof.
  intros [Hp Hc]. unfold ds_reload. destruct (_ || _); [by split|].
  pose proof (Z.shiftr_div_pow2 (ds_consumed r) 3 ltac:(lia)) as Hs. change (2 ^ 3) with 8 in Hs.
  pose proof (Z.div_mod (ds_consumed r) 8). pose proof (Z.mod_pos_bound (ds_consumed r) 8).
  unfold ds_ok, ds_left. cbn.
  destruct (Z.ltb_spec (ds_ptr r - Z.shiftr (ds_consumed r) 3) 0); cbn; split; try split; lia.
Qed.

Lemma ds_read_ok r n :
  ds_ok r -> 0 <= n ->
  exists v r', ds_read r n = (v, r') /\ 0 <= v < 2 ^ n /\ ds_ok r' /\ ds_left r' = ds_left r - n /\
    (n = 0 -> r' = r).
Proof.
  intros Hr Hn. unfold ds_read. destruct (Z.eqb_spec n 0) as [->|Hne].
  - exists 0, r. split_and!; [done|lia|lia|done|lia|done].
  - eexists _, _. split; [done|]. rewrite ones_eq, land_mask by lia.
    split; [apply Z.mod_pos_bound, Z.pow_pos_nonneg; lia|].
    destruct (ds_reload_ok (FseDStreamReader (ds_data r) (ds_ptr r) (ds_container r) (ds_consumed r + n)))
      as [H1 H2]; [destruct Hr; split; cbn; lia|].
    split; [done|]. split; [|done]. rewrite H2. unfold ds_left. cbn. lia.
Qed.

Lemma ds_left_nonneg r : ds_ok r -> ds_overflowed r = false -> 0 <= ds_left r.
Proof. intros [Hp Hc] H%Z.ltb_ge. unfold ds_left. change (_CONT * 8) with 64 in H. lia. Qed.

(** Past the end the reader stays there. *)
Lemma ds_read_overflowed r n :
  0 <= n -> ds_overflowed r = true -> ds_overflowed (ds_read r n).2 = true.
Proof.
  intros Hn H%Z.ltb_lt. unfold ds_read. destruct (n =? 0); cbn; [by apply Z.ltb_lt|].
  unfold ds_reload. cbn. rewrite (proj2 (Z.ltb_lt _ _)) by lia. cbn. apply Z.ltb_lt. cbn. lia.
Qed.

Lemma dstream_init_ok data :
  bytes_ok data ->
  match dstream_init data with
  | Ok r => ds_ok r /\ ds_left r <= 8 * len data
  | Err e => e = ZstdError
  end.
Proof.
  intros Hd. unfold dstream_init. destruct data as [|x data _] using rev_ind; [done|].
  rewrite py_get_snoc. apply Forall_app in Hd as [_ Hx]. apply Forall_cons in Hx as [Hx _].
  destruct (data ++ [x]) eqn:E; [by destruct data|]. rewrite <- E. clear E. rewrite bind_Ok.
  destruct (Z.eqb_spec x 0) as [|Hx0]; cbn [raise_if]; [done|]. rewrite bind_Ok.
  destruct (bit_length_bounds x) as [Hb1 Hb2]; [unfold is_byte in Hx; lia|].
  assert (bit_length x <= 8) as Hb8.
  { unfold bit_length. destruct (Z.eqb_spec x 0); [lia|]. unfold is_byte in Hx.
    rewrite Z.abs_eq by lia. pose proof (Z.log2_le_mono x 255 ltac:(lia)) as H. change (Z.log2 255) with 7 in H. lia. }
  unfold ds_ok, ds_left. rewrite length_app. unfold _CONT. cbn [length].
  destruct (Z.leb_spec 8 (Z.of_nat (length data + 1))); cbn; split; try split; lia.
Qed.

(** One turn of the loop. *)
Lemma weight_loop_S fuel t r st1 st2 ws s1 b1 n1 v1 r1 s2 b2 n2 v2 r2 s3 :
  py_get (symbol t) st1 = Ok s1 -> py_get (baseline t) st1 = Ok b1 -> py_get (num_bits t) st1 = Ok n1 ->
  ds_read r n1 = (v1, r1) ->
  py_get (symbol t) st2 = Ok s2 -> py_get (baseline t) st2 = Ok b2 -> py_get (num_bits t) st2 = Ok n2 ->
  ds_read r1 n2 = (v2, r2) -> py_get (symbol t) (b1 + v1) = Ok s3 ->
  weight_loop (S fuel) t r st1 st2 ws
    = if ds_overflowed r1 then Ok (ws ++ [s1; s2])
      else if ds_overflowed r2 then Ok ((ws ++ [s1; s2]) ++ [s3])
      else weight_loop fuel t r2 (b1 + v1) (b2 + v2) (ws ++ [s1; s2]).
Proof.
  intros Es1 Eb1 En1 Er1 Es2 Eb2 En2 Er2 Es3. cbn [weight_loop].
  rewrite Es1, bind_Ok, Eb1, bind_Ok, En1, bind_Ok, Er1, Es2, bind_Ok.
  destruct (ds_overflowed r1); [done|]. rewrite Eb2, bind_Ok, En2, bind_Ok, Er2.
  destruct (ds_overflowed r2); [by rewrite Es3|done].
Qed.

(** ** The loop ends unless one symbol has every state *)

Section loop.
Context (counts : list Z) (t : _FseTable) (Ht : table_ok counts t).
Let size := 2 ^ accuracy_log t.
Context (Hmulti : Forall (fun c => Z.abs c < size) counts).

(** What a turn needs to know of a state. *)
Lemma state_lookup st :
  0 <= st < size ->
  exists s b n, py_get (symbol t) st = Ok s /\ py_get (baseline t) st = Ok b /\
    py_get (num_bits t) st = Ok n /\ 0 <= n /\ 0 <= b /\ b + 2 ^ n <= size /\ (n = 0 -> b < st).
Proof using Ht Hmulti.
  intros Hst. destruct Ht as [Hlog Hl1 Hl2 Hl3 _ Hsym Hrange _ Hdesc]. fold size in Hl1, Hl2, Hl3, Hrange, Hdesc.
  destruct (py_get_in_range (symbol t) st) as (s & Hs & Hs'); [lia|].
  destruct (py_get_in_range (baseline t) st) as (b & Hb & Hb'); [lia|].
  destruct (py_get_in_range (num_bits t) st) as (n & Hn & Hn'); [lia|].
  destruct (Hrange _ _ _ Hb Hn) as (Hn0 & Hb0 & Hbn). exists s, b, n. split_and!; try (done || lia).
  intros ->. destruct (Hsym _ _ Hs) as (c & Hc & _ & Hs0).
  rewrite <- (Z2Nat.id s) in Hs by lia. pose proof (Hdesc _ _ _ _ Hs Hc Hb Hn) as H.
  rewrite Z2Nat.id in H by lia. apply H. by eapply (Forall_lookup_1 _ _ _ _ Hmulti).
Qed.

(** One read and transition. *)
Lemma transition_ok st r :
  0 <= st < size -> ds_ok r ->
  exists s b n v r', py_get (symbol t) st = Ok s /\ py_get (baseline t) st = Ok b /\
    py_get (num_bits t) st = Ok n /\ ds_read r n = (v, r') /\ ds_ok r' /\
    0 <= b + v < size /\ (ds_overflowed r = true -> ds_overflowed r' = true) /\
    (ds_left r' < ds_left r \/ ds_left r' = ds_left r /\ b + v < st).
Proof using Ht Hmulti.
  intros Hst Hr. destruct (state_lookup st Hst) as (s & b & n & Hs & Hb & Hn & Hn0 & Hb0 & Hbn & Hz).
  destruct (ds_read_ok r n Hr Hn0) as (v & r' & Hrd & Hv & Hr' & Hleft & _).
  exists s, b, n, v, r'. split_and!; try (done || lia).
  - intros Ho. change r' with (v, r').2. rewrite <- Hrd. by apply ds_read_overflowed.
  - destruct (decide (n = 0)) as [->|]; [right|left; lia].
    specialize (Hz eq_refl). change (2 ^ 0) with 1 in Hv. lia.
Qed.

Definition weight_measure (r : _FseDStreamReader) (st1 st2 : Z) : Z :=
  2 * size * ds_left r + st1 + st2.

Lemma weight_loop_ends fuel r st1 st2 ws :
  0 <= st1 < size -> 0 <= st2 < size -> ds_ok r ->
  (ds_overflowed r = false -> weight_measure r st1 st2 < Z.of_nat fuel) ->
  exists ws', weight_loop (S fuel) t r st1 st2 ws = Ok ws'.
Proof using Ht Hmulti.
  revert r st1 st2 ws. induction fuel as [|fuel IH]; intros r st1 st2 ws Hst1 Hst2 Hr Hm.
  all: destruct (transition_ok st1 r Hst1 Hr) as (s1 & b1 & n1 & v1 & r1 & Es1 & Eb1 & En1 & Er1 & Hr1 & Hst1' & Ho1 & Hd1).
  all: destruct (transition_ok st2 r1 Hst2 Hr1) as (s2 & b2 & n2 & v2 & r2 & Es2 & Eb2 & En2 & Er2 & Hr2 & Hst2' & Ho2 & Hd2).
  all: destruct (state_lookup (b1 + v1) Hst1') as (s3 & _ & _ & Es3 & _).
  all: erewrite weight_loop_S by done.
  all: destruct (ds_overflowed r1) eqn:Eo1; [by eexists|]; destruct (ds_overflowed r2) eqn:Eo2; [by eexists|].
  all: assert (ds_overflowed r = false) as Eo by (destruct (ds_overflowed r); [by rewrite Ho1|done]).
  all: specialize (Hm Eo); pose proof (ds_left_nonneg r2 Hr2 Eo2); unfold weight_measure in *.
  - nia.
  - apply IH; [done..|]. intros _. nia.
Qed.
End loop.

(** ** The stream *)

Lemma bytes_ok_slice_from (l : bytes) a : 0 <= a -> bytes_ok l -> bytes_ok (slice_from l a).
Proof. intros Ha H. rewrite slice_from_nonneg by done. by apply Forall_drop. Qed.
Lemma length_slice_from {A} (l : list A) a : 0 <= a -> len (slice_from l a) <= len l.
Proof. intros Ha. rewrite slice_from_nonneg, length_drop by done. lia. Qed.

(** Unless one symbol has all the probability, the weight stream of any bytes is
    drained: with fuel linear in the bytes the result is the weights or [ZstdError]. *)
Theorem weight_stream_ends data fuel :
  bytes_ok data -> 128 * (8 * len data + 2) < Z.of_nat fuel ->
  (forall counts log r, _read_fse_distribution (forward_init data) 255 6 = Ok (counts, log, r) ->
     Forall (fun c => Z.abs c < 2 ^ log) counts) ->
  match _fse_decode_weight_stream fuel data with Ok _ => True | Err e => e = ZstdError end.
Proof.
  intros Hd Hf Hmulti. unfold _fse_decode_weight_stream.
  pose proof (read_fse_distribution_sound data 255 6 Hd ltac:(lia)) as Hread.
  destruct (_read_fse_distribution _ _ _) as [[[counts log] r]|e] eqn:E; [|done].
  specialize (Hmulti _ _ _ eq_refl).
  destruct Hread as (Hdist & Hlog & _ & _ & Hpos). rewrite bind_Ok. pose proof Hdist as (Hlog5 & _).
  destruct (build_fse_table_complete counts log Hdist ltac:(lia)) as (t & -> & Hlt & Ht). rewrite bind_Ok.
  assert (0 <= (fwd_bitpos r + 7) / 8) as Htb by (apply Z.div_pos; lia).
  pose proof (dstream_init_ok _ (bytes_ok_slice_from data _ Htb Hd)) as Hinit.
  pose proof (length_slice_from data _ Htb) as Hlen.
  destruct (dstream_init _) as [br|e]; [|done]. destruct Hinit as [Hbr Hleft]. rewrite bind_Ok.
  destruct (ds_read_ok br log Hbr ltac:(lia)) as (v1 & br1 & -> & Hv1 & Hbr1 & Hl1 & _).
  destruct (ds_read_ok br1 log Hbr1 ltac:(lia)) as (v2 & br2 & -> & Hv2 & Hbr2 & Hl2 & _).
  rewrite <- Hlt in *. pose proof (Z.pow_le_mono_r 2 (accuracy_log t) 6 ltac:(lia) ltac:(lia)) as H64.
  change (2 ^ 6) with 64 in H64.
  destruct fuel as [|fuel]; [lia|].
  destruct (weight_loop_ends counts t Ht Hmulti fuel br2 v1 v2 [] Hv1 Hv2 Hbr2) as [ws ->]; [|done].
  intros Ho. pose proof (ds_left_nonneg br2 Hbr2 Ho). unfold weight_measure. nia.
Qed.

(** Thirteen probabilities of 32, two of them below one. *)
Lemma weight_stream_ends_witness :
  let data := [16; 0; 200; 100; 50; 77; 9] in let fuel := Z.to_nat 7500 in
  bytes_ok data /\ 128 * (8 * len data + 2) < Z.of_nat fuel /\
  match _fse_decode_weight_stream fuel data with Ok _ => True | Err e => e = ZstdError end.
Proof.
  intros data fuel. assert (bytes_ok data) as Hd by (unfold data; by decompose_Forall).
  assert (128 * (8 * len data + 2) < Z.of_nat fuel) as Hf by (unfold fuel; rewrite Z2Nat.id; [reflexivity|lia]).
  split; [exact Hd|]. split; [exact Hf|]. apply (weight_stream_ends data fuel Hd Hf).
  intros counts log r H.
  assert (_read_fse_distribution (forward_init data) 255 6
    = Ok ([0; -1; 7; 5; 8; 0; 0; 5; 1; 2; 1; 1; -1], 5, ForwardBitReader (int_from_le data) 50)) as E
    by (vm_compute; reflexivity).
  rewrite E in H. injection H as <- <- _. change (2 ^ 5) with 32. repeat constructor.
Defined.

(** ** A stream that is never drained *)

(** The table of [[32]]: state [i] reads no bits and stays at [i]. *)
Definition full_table : _FseTable :=
  FseTable 5 (replicate 32 0) (seqZ 0 32) (replicate 32 0).
Lemma full_table_built : _build_fse_table [32] 5 = Ok full_table.
Proof. vm_compute. reflexivity. Qed.

Lemma full_table_stuck fuel r st1 st2 ws :
  0 <= st1 < 32 -> 0 <= st2 < 32 -> ds_overflowed r = false ->
  weight_loop fuel full_table r st1 st2 ws = Err OutOfFuel.
Proof.
  intros H1 H2 Ho. revert ws. induction fuel as [|fuel IH]; intros ws; [done|].
  assert (forall st, 0 <= st < 32 -> py_get (symbol full_table) st = Ok 0 /\
    py_get (baseline full_table) st = Ok st /\ py_get (num_bits full_table) st = Ok 0) as Hget.
  { intros st Hst. unfold full_table. cbn [symbol baseline num_bits].
    split_and!; (apply py_get_Some; [lia|]); [by rewrite lookup_replicate_2 by lia| |
      by rewrite lookup_replicate_2 by lia]. rewrite lookup_seqZ_lt by lia. f_equal. lia. }
  destruct (Hget st1 H1) as (? & ? & ?), (Hget st2 H2) as (? & ? & ?).
  erewrite weight_loop_S; [|done..|rewrite Z.add_0_r; done]. rewrite Ho, !Z.add_0_r. apply IH.
Qed.

(** A frame of one compressed block whose weights are coded with one symbol of full
    probability. *)
Definition stuck_weights : bytes := [0xF0; 3; 0; 0; 1].
Definition stuck_block : bytes := [0x42; 0xC0; 1; 5] ++ stuck_weights ++ [1; 0].
Definition stuck_frame : bytes := [0x28; 0xB5; 0x2F; 0xFD; 0x20; 4; 93; 0; 0] ++ stuck_block.

Lemma stuck_weights_decode fuel : _fse_decode_weight_stream fuel stuck_weights = Err OutOfFuel.
Proof.
  unfold _fse_decode_weight_stream.
  replace (_read_fse_distribution (forward_init stuck_weights) 255 6)
    with (Ok ([32], 5, ForwardBitReader (int_from_le stuck_weights) 10)) by (by vm_compute).
  rewrite bind_Ok, full_table_built, bind_Ok. cbv zeta.
  replace (dstream_init _) with (Ok (FseDStreamReader [0; 0; 1] 0 65536 48)) by (by vm_compute).
  rewrite bind_Ok.
  replace (ds_read (FseDStreamReader [0; 0; 1] 0 65536 48) 5)
    with (0, FseDStreamReader [0; 0; 1] 0 65536 53) by (by vm_compute).
  cbv iota beta.
  replace (ds_read (FseDStreamReader [0; 0; 1] 0 65536 53) 5)
    with (0, FseDStreamReader [0; 0; 1] 0 65536 58) by (by vm_compute).
  by apply full_table_stuck.
Qed.
