(* ===== verification/HuffmanProps.v ===== *)
(** * The Huffman table is the canonical code

    [_build_huffman_from_weights] fills the table with the codes in the order of the
    weights and then of the symbols, and a stream written with these codes is decoded
    to the symbols it was written from.  Weights that sum to a power of two, which
    leave a code of one bit to the last symbol, are refused. *)

From S2P Require Import Prelude BitReader Fse FseProps FseRead Huffman.

(** ** The entries of a table *)

(** The entries of the symbols of weight [w] in [l], whose first symbol is [i]. *)
Fixpoint group (mb w i : Z) (l : list Z) : list (Z * Z) :=
  match l with
  | [] => []
  | x :: l => (if x =? w then replicate (Z.to_nat (2 ^ (w - 1))) (i, mb + 1 - w) else []) ++ group mb w (i + 1) l
  end.
Definition entries (mb : Z) (l : list Z) (ws : list Z) : list (Z * Z) :=
  mjoin ((fun w => group mb w 0 l) <$> ws).

Definition zeros (n : Z) : list Z := replicate (Z.to_nat n) 0.
(** The state of the fill loops once the entries [E] are written. *)
Definition filled (size : Z) (E : list (Z * Z)) : list Z * list Z * Z :=
  (E.*1 ++ zeros (size - len E), E.*2 ++ zeros (size - len E), len E).

Lemma fill_zero (l : list Z) n i x :
  i = len l -> 0 < n -> py_set (l ++ zeros n) i x = Ok ((l ++ [x]) ++ zeros (n - 1)).
Proof.
  intros -> Hn. unfold zeros. rewrite py_set_nat by (rewrite length_app, length_replicate; lia).
  replace (Z.to_nat n) with (S (Z.to_nat (n - 1))) by lia. cbn [replicate].
  by rewrite insert_app_r_alt, Nat.sub_diag, <- app_assoc by lia.
Qed.
Lemma fill_one_ok size E s nb x :
  len E < size -> fill_one s nb (filled size E) x = Ok (filled size (E ++ [(s, nb)])).
Proof.
  intros H. unfold fill_one, filled.
  rewrite (fill_zero (E.*1)), bind_Ok, (fill_zero (E.*2)), bind_Ok by (rewrite ?length_fmap; lia).
  rewrite !fmap_app, length_app, Nat2Z.inj_add. change (len [(s, nb)]) with 1.
  by rewrite !Z.sub_add_distr.
Qed.
Lemma fill_many size E s nb n :
  len E + Z.of_nat n <= size ->
  foldM (fun st x => fill_one s nb st x) (filled size E) (replicate n 0)
    = Ok (filled size (E ++ replicate n (s, nb))).
Proof.
  revert E. induction n as [|n IH]; intros E H; cbn [replicate foldM]; [by rewrite app_nil_r|].
  rewrite fill_one_ok, bind_Ok by lia. rewrite IH by (rewrite length_app; cbn; lia).
  by rewrite <- app_assoc.
Qed.
Lemma fill_group size mb w i l E :
  1 <= w -> len E + len (group mb w i l) <= size ->
  foldM (fill_symbol w (mb + 1 - w) (2 ^ (w - 1))) (filled size E) (enumerate_from i l)
    = Ok (filled size (E ++ group mb w i l)).
Proof.
  intros Hw. revert i E. induction l as [|x l IH]; intros i E H; [by rewrite app_nil_r|].
  cbn [group] in *. rewrite length_app in H. rewrite enumerate_from_cons. cbn [foldM].
  change (fill_symbol w (mb + 1 - w) (2 ^ (w - 1)) (filled size E) (i, x))
    with (if x =? w then foldM (fill_one i (mb + 1 - w)) (filled size E) (seqZ 0 (2 ^ (w - 1)))
          else Ok (filled size E)).
  destruct (x =? w).
  - rewrite length_replicate in H.
    rewrite (foldM_ignore _ (fun st x => fill_one i (mb + 1 - w) st x) 0) by (by intros [[] ?]).
    rewrite length_seqZ.
    rewrite fill_many, bind_Ok by lia. rewrite IH by (rewrite length_app, length_replicate; lia).
    by rewrite <- app_assoc.
  - rewrite bind_Ok. by apply IH.
Qed.
Lemma fill_entries size mb l ws E :
  Forall (fun w => 1 <= w) ws -> len E + len (entries mb l ws) <= size ->
  foldM (fill_weight mb l) (filled size E) ws = Ok (filled size (E ++ entries mb l ws)).
Proof.
  intros Hw. revert E. induction Hw as [|w ws Hw _ IH]; intros E H; [by rewrite app_nil_r|].
  unfold entries in *. csimpl. csimpl in H. rewrite length_app in H. cbn [foldM].
  change (fill_weight mb l (filled size E) w)
    with (foldM (fill_symbol w (mb + 1 - w) (Z.shiftl 1 (w - 1))) (filled size E) (enumerate l)).
  rewrite enumerate_from_0, Z.shiftl_mul_pow2, Z.mul_1_l, fill_group, bind_Ok by lia. rewrite IH by (rewrite length_app; lia).
  by rewrite <- app_assoc.
Qed.

(** ** Sizes *)

Definition span_of (x : Z) : Z := if 0 <? x then 2 ^ (x - 1) else 0.
Lemma weight_sum_eq ws : weight_sum_of ws = sumZ (span_of <$> ws).
Proof.
  unfold weight_sum_of. f_equal. apply list_fmap_ext. intros _ x _. unfold span_of.
  destruct (Z.ltb_spec 0 x); [|done]. by rewrite Z.shiftl_mul_pow2, Z.mul_1_l by lia.
Qed.
Lemma span_nonneg x : 0 <= span_of x.
Proof. unfold span_of. destruct (Z.ltb_spec 0 x); [|done]. apply Z.pow_nonneg. lia. Qed.

Lemma length_group mb w i l :
  1 <= w -> len (group mb w i l) = sumZ ((fun x => if x =? w then span_of x else 0) <$> l).
Proof.
  intros Hw. revert i. induction l as [|x l IH]; intros i; [done|].
  cbn [group]. csimpl. rewrite length_app, Nat2Z.inj_add, IH. unfold sumZ at 2. cbn [foldr]. f_equal.
  destruct (Z.eqb_spec x w) as [->|]; [|done]. rewrite length_replicate. unfold span_of.
  rewrite (proj2 (Z.ltb_lt _ _)), Z2Nat.id by (try apply Z.pow_nonneg; lia). done.
Qed.
(** Between the weights [a] and [b]: the spans of the symbols with these weights. *)
Lemma length_entries mb l a n :
  1 <= a ->
  len (entries mb l (seqZ a (Z.of_nat n)))
    = sumZ ((fun x => if (a <=? x) && (x <? a + Z.of_nat n) then span_of x else 0) <$> l).
Proof.
  intros Ha. induction n as [|n IH].
  - unfold entries. cbn. induction l as [|x l IHl]; [done|]. csimpl. unfold sumZ in *. cbn [foldr]. rewrite <- IHl.
    rewrite (proj2 (andb_false_iff _ _)); [done|]. rewrite Z.leb_gt, Z.ltb_ge. lia.
  - rewrite seqZ_S. unfold entries in *. rewrite fmap_app, join_app, length_app, Nat2Z.inj_add, IH. csimpl.
    rewrite app_nil_r, length_group by lia. clear IH. unfold sumZ. induction l as [|x l IHl]; [done|]. csimpl.
    cbn [foldr]. rewrite <- Z.add_assoc, (Z.add_comm (foldr Z.add 0 _)), <- Z.add_assoc.
    rewrite (Z.add_comm (foldr _ _ _)), IHl, Z.add_assoc. f_equal.
    destruct (Z.leb_spec a x), (Z.ltb_spec x (a + Z.of_nat n)), (Z.ltb_spec x (a + Z.of_nat (S n))),
      (Z.eqb_spec x (a + Z.of_nat n)); cbn; lia.
Qed.

(** ** The description of a code (RFC 8878, 4.2.1) *)

Definition weight_total (ws : list Z) : Z := sumZ (span_of <$> ws).
(** The length of the longest code, and the weight left to the last symbol. *)
Definition code_bits_max (ws : list Z) : Z := Z.log2 (weight_total ws) + 1.
Definition rest_total (ws : list Z) : Z := 2 ^ code_bits_max ws - weight_total ws.
Definition all_weights (ws : list Z) : list Z := ws ++ [Z.log2 (rest_total ws) + 1].
(** What is left to the last symbol is a power of two. *)
Definition weights_valid (ws : list Z) : Prop :=
  Forall (fun w => 0 <= w) ws /\ 0 < weight_total ws /\ 2 ^ Z.log2 (rest_total ws) = rest_total ws.

Lemma weight_total_app l1 l2 : weight_total (l1 ++ l2) = weight_total l1 + weight_total l2.
Proof. unfold weight_total. by rewrite fmap_app, sumZ_app. Qed.
Lemma weight_total_nonneg ws : 0 <= weight_total ws.
Proof.
  unfold weight_total. induction ws as [|w ws IH]; [done|]. csimpl. unfold sumZ in *. cbn [foldr].
  pose proof (span_nonneg w). lia.
Qed.
Lemma span_le_total ws w : w ∈ ws -> span_of w <= weight_total ws.
Proof.
  intros (l1 & l2 & ->)%list_elem_of_split. rewrite weight_total_app. unfold weight_total at 2. csimpl.
  unfold sumZ. cbn [foldr]. fold (sumZ (span_of <$> l2)). fold (weight_total l2).
  pose proof (weight_total_nonneg l1). pose proof (weight_total_nonneg l2). lia.
Qed.

Section code.
Context (ws : list Z) (Hv : weights_valid ws).
Abbreviation mb := (code_bits_max ws) (only parsing).

Lemma total_bounds : 2 ^ (mb - 1) <= weight_total ws < 2 ^ mb /\ 1 <= mb /\ 2 ^ mb = 2 * 2 ^ (mb - 1).
Proof using Hv.
  destruct Hv as (_ & Hpos & _). unfold code_bits_max. pose proof (Z.log2_nonneg (weight_total ws)).
  destruct (Z.log2_spec _ Hpos) as [H1 H2]. rewrite Z.add_simpl_r, Z.add_1_r.
  rewrite Z.pow_succ_r in * by lia. split_and!; lia.
Qed.
Lemma rest_bounds : 0 < rest_total ws <= 2 ^ (mb - 1).
Proof using Hv. pose proof total_bounds. unfold rest_total. lia. Qed.
Lemma all_weights_total : weight_total (all_weights ws) = 2 ^ mb.
Proof using Hv.
  destruct Hv as (_ & _ & Hr). unfold all_weights. rewrite weight_total_app.
  unfold weight_total at 2, span_of. cbn. pose proof (Z.log2_nonneg (rest_total ws)).
  rewrite (proj2 (Z.ltb_lt _ _)), Z.add_simpl_r, Hr by lia. unfold rest_total. lia.
Qed.
(** No symbol has more weight than the longest code leaves. *)
Lemma weight_range w : w ∈ all_weights ws -> 0 <= w <= mb.
Proof using Hv.
  intros Hin. pose proof (span_le_total _ _ Hin) as Hle. rewrite all_weights_total in Hle.
  destruct Hv as (Hnn & _ & Hr). pose proof total_bounds as (Ht & Hmb & H2).
  pose proof rest_bounds as Hrest. unfold all_weights in Hin.
  apply elem_of_app in Hin as [Hin|Hin%list_elem_of_singleton].
  - rewrite Forall_forall in Hnn. split; [by apply Hnn|].
    pose proof (span_le_total _ _ Hin) as Hle'. unfold span_of in Hle'.
    destruct (Z.ltb_spec 0 w) as [Hw|]; [|lia].
    assert (2 ^ (w - 1) < 2 ^ mb) as Hlt by lia. apply Z.pow_lt_mono_r_iff in Hlt; lia.
  - subst w. pose proof (Z.log2_nonneg (rest_total ws)).
    split; [lia|]. rewrite <- Hr in Hrest. destruct Hrest as [_ Hrest].
    apply Z.pow_le_mono_r_iff in Hrest; lia.
Qed.

Lemma length_all_entries : len (entries mb (all_weights ws) (seqZ 1 mb)) = 2 ^ mb.
Proof using Hv.
  pose proof total_bounds as (_ & Hmb & _).
  replace (seqZ 1 mb) with (seqZ 1 (Z.of_nat (Z.to_nat mb))) by (f_equal; lia).
  rewrite length_entries by lia. rewrite <- all_weights_total. unfold weight_total. f_equal.
  apply list_fmap_ext. intros i w Hw%list_elem_of_lookup_2. apply weight_range in Hw. unfold span_of.
  destruct (Z.leb_spec 1 w), (Z.ltb_spec w (1 + Z.of_nat (Z.to_nat mb))), (Z.ltb_spec 0 w); cbn; lia.
Qed.
End code.

(** ** The table that is built *)

Lemma land_pred_pow2 n : 0 < n -> (Z.land n (n - 1) = 0 <-> 2 ^ Z.log2 n = n).
Proof.
  intros Hn. destruct (Z.log2_spec n Hn) as [H1 H2]. pose proof (Z.log2_nonneg n) as H0. split.
  - intros Hl. destruct (decide (2 ^ Z.log2 n = n)) as [|Hne]; [done|]. exfalso.
    assert (Z.log2 (n - 1) = Z.log2 n) as Hlog by (apply Z.log2_unique; lia).
    assert (0 < 2 ^ Z.log2 n) by (by apply Z.pow_pos_nonneg).
    assert (Z.testbit (Z.land n (n - 1)) (Z.log2 n) = true) as Hb.
    { rewrite Z.land_spec, Z.bit_log2 by done. rewrite <- Hlog at 1. by rewrite Z.bit_log2 by lia. }
    rewrite Hl, Z.testbit_0_l in Hb. done.
  - intros E. rewrite <- E at 2. rewrite land_mask by done. rewrite <- E at 1. apply Z.mod_same, Z.pow_nonzero; lia.
Qed.

(** The length of the longest code as the source computes it. *)
Lemma bit_length_pred n :
  0 < n -> bit_length (n - 1) = if decide (2 ^ Z.log2 n = n) then Z.log2 n else Z.log2 n + 1.
Proof.
  intros Hn. destruct (Z.log2_spec n Hn) as [H1 H2]. pose proof (Z.log2_nonneg n) as H0.
  unfold bit_length. destruct (Z.eqb_spec (n - 1) 0) as [E|E].
  { assert (n = 1) as -> by lia. done. }
  rewrite Z.abs_eq by lia. destruct (decide _) as [Ep|Hne].
  - rewrite <- Ep at 1. rewrite Z.sub_1_r, Z.log2_pred_pow2; [lia|].
    destruct (decide (Z.log2 n = 0)) as [E0|]; [|lia]. rewrite E0 in Ep. change (2 ^ 0) with 1 in Ep. lia.
  - f_equal. apply Z.log2_unique; lia.
Qed.

Lemma build_huffman_ok ws :
  weights_valid ws -> 2 ^ Z.log2 (weight_total ws) <> weight_total ws -> code_bits_max ws <= 59 ->
  let E := entries (code_bits_max ws) (all_weights ws) (seqZ 1 (code_bits_max ws)) in
  _build_huffman_from_weights ws = Ok (HuffmanTable (code_bits_max ws) E.*1 E.*2).
Proof.
  intros Hv Hne Hmax E. pose proof (total_bounds ws Hv) as (_ & Hmb & _). pose proof (rest_bounds ws Hv) as Hrest.
  pose proof (length_all_entries ws Hv) as Hlen. fold E in Hlen. destruct Hv as (_ & Hpos & Hr).
  unfold _build_huffman_from_weights. rewrite weight_sum_eq. fold (weight_total ws).
  rewrite (proj2 (Z.eqb_neq (weight_total ws) 0)), bit_length_pred, decide_False by (lia || done). fold (code_bits_max ws). cbn [raise_if].
  rewrite bind_Ok, Z.shiftl_mul_pow2, Z.mul_1_l by lia. fold (rest_total ws).
  rewrite (proj2 (land_pred_pow2 _ (proj1 Hrest)) Hr), (proj2 (Z.eqb_neq (rest_total ws) 0)) by lia.
  cbn [Z.eqb negb orb raise_if]. rewrite bind_Ok.
  assert (bit_length (rest_total ws) = Z.log2 (rest_total ws) + 1) as ->.
  { unfold bit_length. by rewrite (proj2 (Z.eqb_neq _ _)), Z.abs_eq by lia. }
  fold (all_weights ws). pose proof (Z.pow_le_mono_r 2 (code_bits_max ws) 59 ltac:(lia) Hmax) as H59.
  change (2 ^ 59) with 576460752303423488 in H59. unfold zero_list.
  rewrite !(proj2 (Z.ltb_ge _ _)) by (change ((2 ^ 63 - 1) / 8) with 1152921504606846975; lia). rewrite bind_Ok.
  pose proof (fill_entries (2 ^ code_bits_max ws) (code_bits_max ws) (all_weights ws) (seqZ 1 (code_bits_max ws)) [])
    as Hfill. unfold filled at 1 in Hfill. cbn [fmap list_fmap app length] in Hfill. change (Z.of_nat 0) with 0 in Hfill. rewrite Z.sub_0_r in Hfill.
  unfold zeros in Hfill. rewrite Hfill, bind_Ok; [|apply Forall_forall; intros w Hw%elem_of_seqZ; lia|fold E; cbn; lia].
  fold E. cbn [app]. unfold filled. rewrite Hlen, Z.eqb_refl. cbn [negb raise_if]. rewrite bind_Ok.
  unfold zeros. rewrite Z.sub_diag. cbn [Z.to_nat replicate]. by rewrite !app_nil_r.
Qed.

(** Weights that sum to a power of two are a valid description, their last symbol
    has a code of one bit, and [_build_huffman_from_weights] refuses them: it computes
    the longest code from the sum less one. *)
Theorem power_of_two_weights_refused ws k :
  Forall (fun w => 0 <= w) ws -> 0 <= k -> weight_total ws = 2 ^ k ->
  weights_valid ws /\ last (all_weights ws) = Some (code_bits_max ws) /\
  _build_huffman_from_weights ws = Err ZstdError.
Proof.
  intros Hnn Hk Ht. assert (0 < 2 ^ k) as Hpos by (apply Z.pow_pos_nonneg; lia).
  assert (code_bits_max ws = k + 1) as Hmax by (unfold code_bits_max; by rewrite Ht, Z.log2_pow2).
  assert (rest_total ws = 2 ^ k) as Hrest.
  { unfold rest_total. rewrite Hmax, Ht, Z.add_1_r, Z.pow_succ_r by done. lia. }
  split; [split_and!; [done|lia|by rewrite Hrest, Z.log2_pow2]|].
  split; [unfold all_weights; rewrite last_snoc, Hrest, Hmax, Z.log2_pow2 by done; done|].
  unfold _build_huffman_from_weights. rewrite weight_sum_eq. fold (weight_total ws).
  rewrite Ht, (proj2 (Z.eqb_neq (2 ^ k) 0)), bit_length_pred, Z.log2_pow2 by lia.
  rewrite decide_True by done.
  rewrite Z.shiftl_mul_pow2, Z.mul_1_l, Z.sub_diag by lia. done.
Qed.
(** Four literal values that occur 1, 1, 2 and 4 times in 8. *)
Lemma power_of_two_weights_refused_witness :
  Forall (fun w => 0 <= w) [1; 1; 2] /\ weight_total [1; 1; 2] = 2 ^ 2 /\
  weights_valid [1; 1; 2] /\ last (all_weights [1; 1; 2]) = Some (code_bits_max [1; 1; 2]) /\
  _build_huffman_from_weights [1; 1; 2] = Err ZstdError.
Proof.
  assert (Forall (fun w => 0 <= w) [1; 1; 2]) as H by (by decompose_Forall).
  split; [exact H|]. split; [reflexivity|].
  exact (power_of_two_weights_refused [1; 1; 2] 2 H ltac:(lia) eq_refl).
Defined.

(** ** Codes *)

Lemma group_app mb w i l1 l2 : group mb w i (l1 ++ l2) = group mb w i l1 ++ group mb w (i + len l1) l2.
Proof.
  revert i. induction l1 as [|x l1 IH]; intros i; cbn [app group length]; [by rewrite Z.add_0_r|].
  rewrite IH, <- app_assoc. do 3 f_equal. lia.
Qed.
Lemma entries_app mb l ws1 ws2 : entries mb l (ws1 ++ ws2) = entries mb l ws1 ++ entries mb l ws2.
Proof. unfold entries. by rewrite fmap_app, join_app. Qed.

(** Groups of weight [a] and more have sizes that the span of [a] divides. *)
Lemma group_div mb a w i l : 1 <= a <= w -> (2 ^ (a - 1) | len (group mb w i l)).
Proof.
  intros Ha. revert i. induction l as [|x l IH]; intros i; cbn [group]; [apply Z.divide_0_r|].
  rewrite length_app, Nat2Z.inj_add. apply Z.divide_add_r; [|apply IH].
  destruct (x =? w); [|apply Z.divide_0_r]. rewrite length_replicate, Z2Nat.id by (apply Z.pow_nonneg; lia).
  exists (2 ^ (w - a)). rewrite <- Z.pow_add_r by lia. f_equal. lia.
Qed.
Lemma entries_div mb a l ws :
  1 <= a -> Forall (fun w => a <= w) ws -> (2 ^ (a - 1) | len (entries mb l ws)).
Proof.
  intros Ha Hws. unfold entries. induction Hws as [|w ws Hw _ IH]; [apply Z.divide_0_r|].
  csimpl. rewrite length_app, Nat2Z.inj_add. apply Z.divide_add_r; [by apply group_div|done].
Qed.

Section codes.
Context (ws : list Z).
Abbreviation mb := (code_bits_max ws) (only parsing).
Abbreviation all := (all_weights ws) (only parsing).

(** The first entry of symbol [s]; its code and the length of the code. *)
Definition code_start (s w : Z) : Z :=
  len (entries mb all (seqZ 1 (w - 1))) + len (group mb w 0 (take (Z.to_nat s) all)).
Definition code_of (s : Z) : Z * Z :=
  let w := all !!! Z.to_nat s in (code_start s w / 2 ^ (w - 1), mb + 1 - w).
(** The symbols of a literals section that the code has. *)
Definition has_code (s : Z) : Prop := 0 <= s /\ exists w, all !! Z.to_nat s = Some w /\ 0 < w.

Lemma entries_split s w :
  1 <= w <= mb -> all !! Z.to_nat s = Some w -> 0 <= s ->
  exists pre post, entries mb all (seqZ 1 mb)
      = pre ++ replicate (Z.to_nat (2 ^ (w - 1))) (s, mb + 1 - w) ++ post /\
    len pre = code_start s w /\ (2 ^ (w - 1) | len post).
Proof.
  intros Hw Hs Hs0. pose proof (take_drop_middle _ _ _ Hs) as Hall. pose proof (lookup_lt_Some _ _ _ Hs) as Hlt.
  exists (entries mb all (seqZ 1 (w - 1)) ++ group mb w 0 (take (Z.to_nat s) all)),
    (group mb w (s + 1) (drop (S (Z.to_nat s)) all) ++ entries mb all (seqZ (w + 1) (mb - w))). split_and!.
  - replace (seqZ 1 mb) with (seqZ 1 (w - 1) ++ [w] ++ seqZ (w + 1) (mb - w)).
    + rewrite !entries_app. rewrite <- !app_assoc. f_equal. rewrite !app_assoc. f_equal.
      unfold entries. csimpl. rewrite app_nil_r. rewrite <- Hall at 1. rewrite group_app. cbn [group].
      rewrite Z.eqb_refl, length_take, Nat.min_l, Z.add_0_l, Z2Nat.id by lia. by rewrite <- app_assoc.
    + change [w] with (seqZ w 1). replace mb with ((w - 1) + (1 + (mb - w))) at 2 by lia.
      rewrite (seqZ_app 1 (w - 1)), (seqZ_app _ 1) by lia.
      by replace (1 + (w - 1)) with w by lia.
  - unfold code_start. rewrite length_app. lia.
  - rewrite length_app, Nat2Z.inj_add. apply Z.divide_add_r; [apply group_div; lia|].
    apply entries_div; [lia|]. apply Forall_forall. intros x Hx%elem_of_seqZ. lia.
Qed.

(** The code of a symbol is the prefix its entries share, and no other has it. *)
Lemma code_entries (Hv : weights_valid ws) s :
  has_code s -> let '(c, nb) := code_of s in
  1 <= nb <= mb /\ 0 <= c < 2 ^ nb /\
  forall p, c * 2 ^ (mb - nb) <= p < (c + 1) * 2 ^ (mb - nb) ->
    entries mb all (seqZ 1 mb) !! Z.to_nat p = Some (s, nb).
Proof using Type.
  intros (Hs0 & w & Hs & Hw). pose proof (weight_range ws Hv w) as Hwr. specialize (Hwr ltac:(by eapply list_elem_of_lookup_2)).
  unfold code_of. rewrite (list_lookup_total_correct _ _ _ Hs).
  destruct (entries_split s w ltac:(lia) Hs Hs0) as (pre & post & HE & Hpre & Hdiv).
  pose proof (length_all_entries ws Hv) as Hlen. rewrite HE, !length_app, length_replicate in Hlen.
  assert (0 < 2 ^ (w - 1)) as Hspan by (apply Z.pow_pos_nonneg; lia).
  replace (mb - (mb + 1 - w)) with (w - 1) by lia.
  assert (2 ^ mb = 2 ^ (mb + 1 - w) * 2 ^ (w - 1)) as Hmb by (rewrite <- Z.pow_add_r by lia; f_equal; lia).
  destruct Hdiv as [q Hq]. set (n := 2 ^ (w - 1)) in *. set (m := 2 ^ (mb + 1 - w)) in *.
  assert (code_start s w = (m - q - 1) * n) as Hst by lia.
  rewrite Hst, Z.div_mul by lia. split; [lia|]. split.
  - split; [|nia]. assert (0 <= (m - q - 1) * n) by lia. nia.
  - intros p Hp. rewrite HE. rewrite lookup_app_r by lia. rewrite lookup_app_l by (rewrite length_replicate; lia).
    by rewrite lookup_replicate_2 by lia.
Qed.

(** ** Encoding *)

Definition put_code (v s : Z) : Z := let '(c, nb) := code_of s in v * 2 ^ nb + c.
(** The codes after a sentinel bit, the first code on top. *)
Definition encode_bits (syms : list Z) : Z := foldl put_code 1 syms.
Definition code_length (syms : list Z) : Z := sumZ ((fun s => (code_of s).2) <$> syms).

Lemma put_codes (Hv : weights_valid ws) syms v :
  Forall has_code syms ->
  exists r, foldl put_code v syms = v * 2 ^ code_length syms + r /\
    0 <= r < 2 ^ code_length syms /\ 0 <= code_length syms /\
    foldl put_code 0 syms = r.
Proof using Type.
  intros H. revert v. induction H as [|s syms Hs _ IH]; intros v.
  - exists 0. cbn. split_and!; lia.
  - cbn [foldl]. pose proof (code_entries Hv s Hs) as Hc.
    assert (forall v, put_code v s = v * 2 ^ (code_of s).2 + (code_of s).1) as Hput.
    { intros u. unfold put_code. by destruct (code_of s). }
    rewrite !Hput. clear Hput.
    change (code_length (s :: syms)) with ((code_of s).2 + code_length syms). destruct (code_of s) as [c nb]. destruct Hc as (Hnb & Hc & _). cbn [fst snd].
    destruct (IH (v * 2 ^ nb + c)) as (r & -> & Hr & Hl & Hr0).
    destruct (IH (0 * 2 ^ nb + c)) as (r' & -> & _ & _ & Hr0'). rewrite Hr0 in Hr0'. subst r'.
    exists (c * 2 ^ code_length syms + r). rewrite Z.pow_add_r by lia.
    pose proof (Z.pow_pos_nonneg 2 (code_length syms) ltac:(lia) Hl). split_and!; try nia.
Qed.

(** ** Decoding *)

(** A read of [n] bits when [L] bits with value [r] are left: missing bits are 0. *)
Lemma bwd_read_top v q L r n :
  v = q * 2 ^ L + r -> 0 <= r < 2 ^ L -> 1 <= L -> 1 <= n ->
  bwd_read (BackwardBitReader v (L - 1)) n
    = (if n <=? L then r / 2 ^ (L - n) else r * 2 ^ (n - L), BackwardBitReader v (L - 1 - n)).
Proof.
  intros Hv Hr HL Hn. unfold bwd_read, bwd_move. cbn [bwd_data bwd_bitpos].
  rewrite (proj2 (Z.eqb_neq n 0)), (proj2 (Z.ltb_ge (L - 1) 0)) by lia.
  replace (L - 1 - n + 1) with (L - n) by lia. replace (L - 1 + 1) with L by lia.
  replace (L - 1 + - n) with (L - 1 - n) by lia.
  destruct (Z.leb_spec n L) as [Hle|Hgt].
  - rewrite (proj2 (Z.ltb_ge (L - n) 0)) by lia. f_equal. rewrite ones_eq, land_mask, Z.shiftr_div_pow2 by lia.
    assert (2 ^ L = 2 ^ n * 2 ^ (L - n)) as E by (rewrite <- Z.pow_add_r by lia; f_equal; lia).
    assert (0 < 2 ^ (L - n)) as Hpos by (apply Z.pow_pos_nonneg; lia).
    rewrite Hv, E, Z.mul_assoc, Z.add_comm, Z.div_add by lia.
    rewrite Z.add_comm, Z.mul_comm, Z.add_comm, Z.mul_comm, Z.mod_add by (apply Z.pow_nonzero; lia).
    apply Z.mod_small. split; [apply Z.div_pos; lia|]. apply Z.div_lt_upper_bound; lia.
  - rewrite (proj2 (Z.ltb_lt (L - n) 0)) by lia. f_equal.
    rewrite ones_eq, land_mask, Z.shiftr_0_r, Z.shiftl_mul_pow2 by lia. f_equal.
    rewrite Hv, Z.add_comm, Z.mod_add by (apply Z.pow_nonzero; lia). by apply Z.mod_small.
Qed.

(** The prefix lies in the entries of the code on top. *)
Lemma prefix_range n nb L c r :
  1 <= nb <= n -> nb <= L -> 0 <= r < 2 ^ (L - nb) ->
  let R := c * 2 ^ (L - nb) + r in
  let p := if n <=? L then R / 2 ^ (L - n) else R * 2 ^ (n - L) in
  c * 2 ^ (n - nb) <= p < (c + 1) * 2 ^ (n - nb).
Proof.
  intros Hnb HL Hr. cbv zeta. destruct (Z.leb_spec n L) as [Hle|Hgt].
  - assert (2 ^ (L - nb) = 2 ^ (n - nb) * 2 ^ (L - n)) as E by (rewrite <- Z.pow_add_r by lia; f_equal; lia).
    assert (0 < 2 ^ (L - n)) as Hpos by (apply Z.pow_pos_nonneg; lia).
    rewrite E, Z.mul_assoc, Z.add_comm, Z.div_add by lia.
    assert (0 <= r / 2 ^ (L - n)) by (apply Z.div_pos; lia).
    assert (r / 2 ^ (L - n) < 2 ^ (n - nb)) by (apply Z.div_lt_upper_bound; lia). lia.
  - assert (2 ^ (n - nb) = 2 ^ (L - nb) * 2 ^ (n - L)) as E by (rewrite <- Z.pow_add_r by lia; f_equal; lia).
    assert (0 < 2 ^ (n - L)) as Hpos by (apply Z.pow_pos_nonneg; lia). rewrite E. nia.
Qed.

Definition code_table : _HuffmanTable :=
  let E := entries mb all (seqZ 1 mb) in HuffmanTable mb E.*1 E.*2.

Lemma literal_step_ok (Hv : weights_valid ws) out s v q L r x :
  has_code s -> s < 256 -> (code_of s).2 <= L ->
  v = q * 2 ^ L + ((code_of s).1 * 2 ^ (L - (code_of s).2) + r) -> 0 <= r < 2 ^ (L - (code_of s).2) ->
  literal_step code_table (out, BackwardBitReader v (L - 1)) x
    = Ok (out ++ [s], BackwardBitReader v (L - (code_of s).2 - 1)).
Proof using Type.
  intros Hs Hs256 HL Hval Hr. pose proof (code_entries Hv s Hs) as Hc. pose proof (total_bounds ws Hv) as (_ & Hmb & _).
  destruct (code_of s) as [c nb]. cbn [fst snd] in *. destruct Hc as (Hnb & Hc & Hent).
  assert (2 ^ L = 2 ^ nb * 2 ^ (L - nb)) as E by (rewrite <- Z.pow_add_r by lia; f_equal; lia).
  unfold literal_step. change (max_bits code_table) with mb.
  rewrite (bwd_read_top v q L _ mb Hval) by nia.
  pose proof (prefix_range mb nb L c r ltac:(lia) HL Hr) as Hp. cbv zeta in Hp.
  assert (0 <= c * 2 ^ (mb - nb)) as Hc0 by (apply Z.mul_nonneg_nonneg; [lia|apply Z.pow_nonneg; lia]).
  revert Hp. generalize (if mb <=? L then (c * 2 ^ (L - nb) + r) / 2 ^ (L - mb)
                         else (c * 2 ^ (L - nb) + r) * 2 ^ (mb - L)). intros p Hp.
  specialize (Hent _ Hp). unfold code_table. cbn [h_symbols h_num_bits].
  rewrite (py_get_Some _ p nb) by (lia || by rewrite list_lookup_fmap, Hent).
  rewrite (py_get_Some _ p s), !bind_Ok by (lia || by rewrite list_lookup_fmap, Hent).
  rewrite (proj2 (Z.ltb_ge 255 s)) by lia. cbn [raise_if]. rewrite bind_Ok.
  unfold bwd_move. cbn [bwd_data bwd_bitpos max_bits]. do 3 f_equal. lia.
Qed.

Lemma decode_symbols (Hv : weights_valid ws) syms out v q :
  Forall (fun s => has_code s /\ s < 256) syms -> 0 <= q -> v = foldl put_code q syms ->
  exists br, foldM (fun st x => literal_step code_table st x)
    (out, BackwardBitReader v (code_length syms - 1)) (replicate (length syms) 0) = Ok (out ++ syms, br).
Proof using Type.
  intros H. revert out q. induction H as [|s syms [Hs Hs256] Hsyms IH]; intros out q Hq Hval.
  - eexists. cbn [replicate length foldM]. by rewrite app_nil_r.
  - cbn [replicate length foldM].
    assert (Forall has_code syms) as Hcodes by (eapply Forall_impl; [exact Hsyms|]; by intros ? []).
    destruct (put_codes Hv syms (q * 2 ^ (code_of s).2 + (code_of s).1) Hcodes) as (r & Hfold & Hr & Hl & _).
    cbn [foldl] in Hval. assert (put_code q s = q * 2 ^ (code_of s).2 + (code_of s).1) as Hput.
    { unfold put_code. by destruct (code_of s). }
    pose proof (code_entries Hv s Hs) as Hc. rewrite Hput in Hval.
    change (code_length (s :: syms)) with ((code_of s).2 + code_length syms).
    assert (1 <= (code_of s).2 /\ 0 <= (code_of s).1) as [Hnb Hc0] by (destruct (code_of s); cbn; lia).
    rewrite (literal_step_ok Hv out s v q _ r), bind_Ok; [|done|done|lia| |].
    + replace ((code_of s).2 + code_length syms - (code_of s).2 - 1) with (code_length syms - 1) by lia.
      destruct (IH (out ++ [s]) (q * 2 ^ (code_of s).2 + (code_of s).1)) as [br Hbr]; [|done|].
      * pose proof (Z.pow_nonneg 2 (code_of s).2). nia.
      * exists br. by rewrite Hbr, <- app_assoc.
    + rewrite Hval, Hfold, Z.pow_add_r by lia.
      replace ((code_of s).2 + code_length syms - (code_of s).2) with (code_length syms) by lia. ring.
    + by replace ((code_of s).2 + code_length syms - (code_of s).2) with (code_length syms) by lia.
Qed.
End codes.

(** The little-endian bytes of [v]: the sentinel is its top bit. *)
Definition le_bytes (v : Z) : bytes := reverse (be_digits 256 (Z.to_nat ((bit_length v + 7) / 8)) v).

Lemma backward_init_le v T :
  0 <= T -> Z.log2 v = T -> 0 < v -> backward_init (le_bytes v) = Ok (BackwardBitReader v (T - 1)).
Proof.
  intros HT Hlog Hv. pose proof (Z.log2_spec v Hv) as Hsp. rewrite Hlog, Z.pow_succ_r in Hsp by done.
  unfold le_bytes. assert (bit_length v = T + 1) as ->.
  { unfold bit_length. by rewrite (proj2 (Z.eqb_neq v 0)), Z.abs_eq, Hlog by lia. }
  set (q := T / 8). pose proof (Z.div_mod T 8 ltac:(lia)) as Hq. pose proof (Z.mod_pos_bound T 8 ltac:(lia)) as Hm.
  fold q in Hq. assert (0 <= q) as Hq0 by (apply Z.div_pos; lia).
  replace (T + 1 + 7) with (T + 1 * 8) by lia. rewrite Z.div_add by lia. fold q.
  replace (Z.to_nat (q + 1)) with (S (Z.to_nat q)) by lia.
  assert (int_from_le (reverse (be_digits 256 (S (Z.to_nat q)) v)) = v) as Hval.
  { unfold int_from_le. rewrite le_val_reverse. apply be_val_digits; [lia|].
    replace (Z.of_nat (S (Z.to_nat q))) with (q + 1) by lia. change 256 with (2 ^ 8). rewrite <- Z.pow_mul_r by lia.
    split; [lia|]. destruct Hsp as [_ Hsp]. eapply Z.lt_le_trans; [exact Hsp|].
    rewrite <- Z.pow_succ_r by lia. apply Z.pow_le_mono_r; lia. }
  set (d := v / 2 ^ (8 * q)). assert (0 < 2 ^ (8 * q)) as Hpos by (apply Z.pow_pos_nonneg; lia).
  assert (0 < d) as Hd0.
  { apply Z.div_str_pos. split; [done|]. pose proof (Z.pow_le_mono_r 2 (8 * q) T). lia. }
  assert (Z.log2 d = T - 8 * q) as Hdlog by (unfold d; rewrite log2_div_pow2; lia).
  assert (d < 256) as Hd.
  { apply Z.log2_lt_cancel. rewrite Hdlog. change (Z.log2 256) with 8. lia. }
  assert (be_digits 256 (S (Z.to_nat q)) v = d :: be_digits 256 (Z.to_nat q) v) as Hdig.
  { cbn [be_digits]. f_equal. rewrite Z2Nat.id by done. change 256 with (2 ^ 8) at 1. rewrite <- Z.pow_mul_r by lia.
    fold d. apply Z.mod_small. lia. }
  unfold backward_init. rewrite Hval, Hdig, reverse_cons, py_get_snoc.
  destruct (reverse (be_digits 256 (Z.to_nat q) v) ++ [d]) as [|y l] eqn:El; [by apply app_nil in El as [_ ?]|].
  rewrite <- El, bind_Ok, (proj2 (Z.eqb_neq d 0)) by lia. cbn [raise_if].
  rewrite bind_Ok, length_app, length_reverse, length_be_digits. unfold bit_length.
  rewrite (proj2 (Z.eqb_neq d 0)), Z.abs_eq, Hdlog by lia. do 2 f_equal. cbn [length]. lia.
Qed.

(** C34.  A literals stream written with the code of valid weights, with codes of up to 59
    bits (the format has 11), is decoded, with the table built from the same weights, to the
    literals it was written from, if the listed weights do not sum to a power of two: those
    are refused. *)
Theorem huffman_roundtrip ws syms :
  weights_valid ws -> 2 ^ Z.log2 (weight_total ws) <> weight_total ws -> code_bits_max ws <= 59 ->
  Forall (fun s => has_code ws s /\ s < 256) syms ->
  (t ← _build_huffman_from_weights ws;
   _decode_literals_huffman t (le_bytes (encode_bits ws syms)) (len syms)) = Ok syms.
Proof.
  intros Hv Hne Hmax Hsyms. rewrite (build_huffman_ok ws Hv Hne Hmax), bind_Ok. fold (code_table ws).
  assert (Forall (has_code ws) syms) as Hcodes by (eapply Forall_impl; [exact Hsyms|]; by intros ? []).
  destruct (put_codes ws Hv syms 1 Hcodes) as (r & Hfold & Hr & Hl & _).
  unfold _decode_literals_huffman, encode_bits.
  rewrite (backward_init_le _ (code_length ws syms)), bind_Ok; [|done| |lia].
  - rewrite (foldM_ignore _ (fun st x => literal_step (code_table ws) st x) 0) by (by intros [] ?).
    rewrite length_seqZ, Nat2Z.id.
    destruct (decode_symbols ws Hv syms [] _ 1 Hsyms ltac:(lia) eq_refl) as [br ->]. done.
  - apply Z.log2_unique; [done|]. rewrite Z.pow_succ_r by done. lia.
Qed.
(** Weights 4 3 2 0 1 and, left to the last symbol, 1: codes of 1, 2, 3, 4 and 4
    bits. *)
Lemma huffman_roundtrip_witness :
  let ws := [4; 3; 2; 0; 1] in let syms := [0; 1; 2; 0; 4; 5; 0; 0; 1; 0; 5; 4] in
  weights_valid ws /\ Forall (fun s => has_code ws s /\ s < 256) syms /\
  (t ← _build_huffman_from_weights ws;
   _decode_literals_huffman t (le_bytes (encode_bits ws syms)) (len syms)) = Ok syms.
Proof.
  intros ws syms.
  assert (weights_valid ws) as Hv.
  { split; [by repeat (constructor; [done|])|]. split; reflexivity. }
  assert (forall s w, all_weights ws !! Z.to_nat s = Some w -> 0 <= s -> 0 < w -> s < 256 ->
    has_code ws s /\ s < 256) as Hcode by (intros s w; split; [split; eauto|done]).
  assert (Forall (fun s => has_code ws s /\ s < 256) syms) as Hs.
  { repeat (constructor; [eapply Hcode; [reflexivity|done|vm_compute; done|done]|]). constructor. }
  split; [exact Hv|]. split; [exact Hs|].
  exact (huffman_roundtrip ws syms Hv ltac:(discriminate) ltac:(vm_compute; discriminate) Hs).
Defined.
