(* ===== verification/Sequences.v ===== *)
(** * Sequences: restore/_zstd_pure.py

    The three tables of a block's sequences and their modes, the decoding of the
    sequences with the history of repeated offsets, and their execution. *)

From S2P Require Import Prelude BitReader Fse.

(** ** The predefined tables: new state, extra bits, state bits, base value *)

Definition _LL_PREDEF : list (Z * Z * Z * Z) :=
  [(0, 0, 4, 0); (16, 0, 4, 0); (32, 0, 5, 1); (0, 0, 5, 3); (0, 0, 5, 4);
   (0, 0, 5, 6); (0, 0, 5, 7); (0, 0, 5, 9); (0, 0, 5, 10); (0, 0, 5, 12);
   (0, 0, 6, 14); (0, 1, 5, 16); (0, 1, 5, 20); (0, 1, 5, 22); (0, 2, 5, 28);
   (0, 3, 5, 32); (0, 4, 5, 48); (32, 6, 5, 64); (0, 7, 5, 128); (0, 8, 6, 256);
   (0, 10, 6, 1024); (0, 12, 6, 4096); (32, 0, 4, 0); (0, 0, 4, 1); (0, 0, 5, 2);
   (32, 0, 5, 4); (0, 0, 5, 5); (32, 0, 5, 7); (0, 0, 5, 8); (32, 0, 5, 10);
   (0, 0, 5, 11); (0, 0, 6, 13); (32, 1, 5, 16); (0, 1, 5, 18); (32, 1, 5, 22);
   (0, 2, 5, 24); (32, 3, 5, 32); (0, 3, 5, 40); (0, 6, 4, 64); (16, 6, 4, 64);
   (32, 7, 5, 128); (0, 9, 6, 512); (0, 11, 6, 2048); (48, 0, 4, 0); (16, 0, 4, 1);
   (32, 0, 5, 2); (32, 0, 5, 3); (32, 0, 5, 5); (32, 0, 5, 6); (32, 0, 5, 8);
   (32, 0, 5, 9); (32, 0, 5, 11); (32, 0, 5, 12); (0, 0, 6, 15); (32, 1, 5, 18);
   (32, 1, 5, 20); (32, 2, 5, 24); (32, 2, 5, 28); (32, 3, 5, 40); (32, 4, 5, 48);
   (0, 16, 6, 65536); (0, 15, 6, 32768); (0, 14, 6, 16384); (0, 13, 6, 8192)].
Definition _OF_PREDEF : list (Z * Z * Z * Z) :=
  [(0, 0, 5, 0); (0, 6, 4, 61); (0, 9, 5, 509); (0, 15, 5, 32765); (0, 21, 5, 2097149);
   (0, 3, 5, 5); (0, 7, 4, 125); (0, 12, 5, 4093); (0, 18, 5, 262141); (0, 23, 5, 8388605);
   (0, 5, 5, 29); (0, 8, 4, 253); (0, 14, 5, 16381); (0, 20, 5, 1048573); (0, 2, 5, 1);
   (16, 7, 4, 125); (0, 11, 5, 2045); (0, 17, 5, 131069); (0, 22, 5, 4194301); (0, 4, 5, 13);
   (16, 8, 4, 253); (0, 13, 5, 8189); (0, 19, 5, 524285); (0, 1, 5, 1); (16, 6, 4, 61);
   (0, 10, 5, 1021); (0, 16, 5, 65533); (0, 28, 5, 268435453); (0, 27, 5, 134217725); (0, 26, 5, 67108861);
   (0, 25, 5, 33554429); (0, 24, 5, 16777213)].
Definition _ML_PREDEF : list (Z * Z * Z * Z) :=
  [(0, 0, 6, 3); (0, 0, 4, 4); (32, 0, 5, 5); (0, 0, 5, 6); (0, 0, 5, 8);
   (0, 0, 5, 9); (0, 0, 5, 11); (0, 0, 6, 13); (0, 0, 6, 16); (0, 0, 6, 19);
   (0, 0, 6, 22); (0, 0, 6, 25); (0, 0, 6, 28); (0, 0, 6, 31); (0, 0, 6, 34);
   (0, 1, 6, 37); (0, 1, 6, 41); (0, 2, 6, 47); (0, 3, 6, 59); (0, 4, 6, 83);
   (0, 7, 6, 131); (0, 9, 6, 515); (16, 0, 4, 4); (0, 0, 4, 5); (32, 0, 5, 6);
   (0, 0, 5, 7); (32, 0, 5, 9); (0, 0, 5, 10); (0, 0, 6, 12); (0, 0, 6, 15);
   (0, 0, 6, 18); (0, 0, 6, 21); (0, 0, 6, 24); (0, 0, 6, 27); (0, 0, 6, 30);
   (0, 0, 6, 33); (0, 1, 6, 35); (0, 1, 6, 39); (0, 2, 6, 43); (0, 3, 6, 51);
   (0, 4, 6, 67); (0, 5, 6, 99); (0, 8, 6, 259); (32, 0, 4, 4); (48, 0, 4, 4);
   (16, 0, 4, 5); (32, 0, 5, 7); (32, 0, 5, 8); (32, 0, 5, 10); (32, 0, 5, 11);
   (0, 0, 6, 14); (0, 0, 6, 17); (0, 0, 6, 20); (0, 0, 6, 23); (0, 0, 6, 26);
   (0, 0, 6, 29); (0, 0, 6, 32); (0, 16, 6, 65539); (0, 15, 6, 32771); (0, 14, 6, 16387);
   (0, 13, 6, 8195); (0, 12, 6, 4099); (0, 11, 6, 2051); (0, 10, 6, 1027)].

(** Base values and extra bits of the codes. *)
Definition _LL_CODE_BASE : list Z :=
  [0; 1; 2; 3; 4; 5; 6; 7; 8; 9; 10; 11;
   12; 13; 14; 15; 16; 18; 20; 22; 24; 28; 32; 40;
   48; 64; 128; 256; 512; 1024; 2048; 4096; 8192; 16384; 32768; 65536].
Definition _LL_CODE_BITS : list Z :=
  [0; 0; 0; 0; 0; 0; 0; 0; 0; 0; 0; 0;
   0; 0; 0; 0; 1; 1; 1; 1; 2; 2; 3; 3;
   4; 6; 7; 8; 9; 10; 11; 12; 13; 14; 15; 16].
Definition _ML_CODE_BASE : list Z :=
  [3; 4; 5; 6; 7; 8; 9; 10; 11; 12; 13; 14;
   15; 16; 17; 18; 19; 20; 21; 22; 23; 24; 25; 26;
   27; 28; 29; 30; 31; 32; 33; 34; 35; 37; 39; 41;
   43; 47; 51; 59; 67; 83; 99; 131; 259; 515; 1027; 2051;
   4099; 8195; 16387; 32771; 65539].
Definition _ML_CODE_BITS : list Z :=
  [0; 0; 0; 0; 0; 0; 0; 0; 0; 0; 0; 0;
   0; 0; 0; 0; 0; 0; 0; 0; 0; 0; 0; 0;
   0; 0; 0; 0; 0; 0; 0; 0; 1; 1; 1; 1;
   2; 2; 3; 3; 4; 4; 5; 7; 8; 9; 10; 11;
   12; 13; 14; 15; 16].
Definition _OF_CODE_BASE : list Z :=
  [0; 1; 1; 5; 13; 29; 61; 125; 253; 509; 1021; 2045;
   4093; 8189; 16381; 32765; 65533; 131069; 262141; 524285; 1048573; 2097149; 4194301; 8388605;
   16777213; 33554429; 67108861; 134217725; 268435453; 536870909; 1073741821; 2147483645].
Definition _OF_CODE_BITS : list Z := seqZ 0 32.

(** ** Tables *)

Record _SeqDTable := SeqDTable {
  sq_accuracy_log : Z; base_value : list Z; add_bits : list Z; newstate : list Z;
  state_nbits : list Z; is_offset : bool
}.

Inductive seq_key := LL | OF | ML.
Record _SeqSpec := SeqSpec {
  predef : list (Z * Z * Z * Z); code_base : list Z; code_bits : list Z; sp_max_symbol : Z;
  sp_is_offset : bool
}.
(** The entry for offsets has no code tables of its own: the code uses
    [_OF_CODE_BASE] and [_OF_CODE_BITS] where [is_offset] holds. *)
Definition _SEQ_SPEC (key : seq_key) : _SeqSpec :=
  match key with
  | LL => SeqSpec _LL_PREDEF _LL_CODE_BASE _LL_CODE_BITS 35 false
  | OF => SeqSpec _OF_PREDEF _OF_CODE_BASE _OF_CODE_BITS 31 true
  | ML => SeqSpec _ML_PREDEF _ML_CODE_BASE _ML_CODE_BITS 52 false
  end.

(** [prev_tables]: the dictionary of the tables of earlier blocks. *)
Record seq_tables := SeqTables {
  t_ll : option _SeqDTable; t_of : option _SeqDTable; t_ml : option _SeqDTable
}.
Definition tables_get (ts : seq_tables) (key : seq_key) : option _SeqDTable :=
  match key with LL => t_ll ts | OF => t_of ts | ML => t_ml ts end.
Definition tables_set (ts : seq_tables) (key : seq_key) (t : _SeqDTable) : seq_tables :=
  match key with
  | LL => SeqTables (Some t) (t_of ts) (t_ml ts)
  | OF => SeqTables (t_ll ts) (Some t) (t_ml ts)
  | ML => SeqTables (t_ll ts) (t_of ts) (Some t)
  end.

Definition predef_table (sp : _SeqSpec) : _SeqDTable :=
  let size := len (predef sp) in
  SeqDTable (bit_length (size - 1))
    ((fun row => row.2) <$> predef sp) ((fun row => row.1.1.2) <$> predef sp)
    ((fun row => row.1.1.1) <$> predef sp) ((fun row => row.1.2) <$> predef sp) (sp_is_offset sp).
Definition rle_table (sp : _SeqSpec) (code : Z) : res _SeqDTable :=
  base ← py_get (code_base sp) code;
  bits ← py_get (code_bits sp) code;
  Ok (SeqDTable 0 [base] [bits] [0] [0] (sp_is_offset sp)).
Definition fse_table (sp : _SeqSpec) (counts : list Z) (accuracy_log : Z) : res _SeqDTable :=
  fse ← _build_fse_table counts accuracy_log;
  bases ← mapM_res (py_get (code_base sp)) (symbol fse);
  bits ← mapM_res (py_get (code_bits sp)) (symbol fse);
  Ok (SeqDTable accuracy_log bases bits (baseline fse) (num_bits fse) (sp_is_offset sp)).

Definition _resolve_seq_table (src : bytes) (pos mode : Z) (prev_tables : seq_tables) (key : seq_key) :
    res (_SeqDTable * Z * seq_tables) :=
  let sp := _SEQ_SPEC key in
  '(table, used) ←
    (if mode =? 0 then Ok (predef_table sp, 0)
     else if mode =? 1 then
       code ← py_get src pos; table ← rle_table sp code; Ok (table, 1)
     else if mode =? 2 then
       let max_acc := if sp_is_offset sp then 8 else 9 in
       '(counts, accuracy_log, fwd) ←
         _read_fse_distribution (forward_init (slice_from src pos)) (sp_max_symbol sp) max_acc;
       table ← fse_table sp counts accuracy_log;
       Ok (table, (fwd_bitpos fwd + 7) / 8)
     else table ← of_option ZstdError (tables_get prev_tables key); Ok (table, 0));
  Ok (table, used, tables_set prev_tables key table).

(** ** Offsets *)

Definition _resolve_rep0 (rep : list Z) (ll0 : Z) : res (Z * list Z) :=
  offset ← py_get rep ll0;
  other ← py_get rep (1 - ll0);
  rep ← py_set rep 1 other;
  rep ← py_set rep 0 offset;
  Ok (offset, rep).

Definition _resolve_rep_code (rep : list Z) (code : Z) : res (Z * list Z) :=
  temp ← (if code =? 3 then r0 ← py_get rep 0; Ok (r0 - 1) else py_get rep code);
  _ ← raise_if (temp =? 0) ZstdError;
  rep ← (if negb (code =? 1) then r1 ← py_get rep 1; py_set rep 2 r1 else Ok rep);
  r0 ← py_get rep 0;
  rep ← py_set rep 1 r0;
  rep ← py_set rep 0 temp;
  Ok (temp, rep).

(** ** Decoding *)

Record seq_state := SeqState {
  ss_reader : _BackwardBitReader; ll_state : Z; of_state : Z; ml_state : Z;
  ss_rep : list Z; ss_sequences : list (Z * Z * Z)
}.

(** The state of a table after the bits of its transition. *)
Definition next_state (t : _SeqDTable) (br : _BackwardBitReader) (state : Z) :
    res (Z * _BackwardBitReader) :=
  base ← py_get (newstate t) state; n ← py_get (state_nbits t) state;
  let '(v, br) := bwd_read br n in Ok (base + v, br).
(** A length: its base value plus its extra bits. *)
Definition read_value (t : _SeqDTable) (br : _BackwardBitReader) (state base : Z) :
    res (Z * _BackwardBitReader) :=
  n ← py_get (add_bits t) state;
  let '(v, br) := bwd_read br n in Ok (base + v, br).

Definition decode_offset (br : _BackwardBitReader) (rep : list Z) (of_base of_bits ll_base : Z) :
    res (Z * list Z * _BackwardBitReader) :=
  if 1 <? of_bits then
    let '(v, br) := bwd_read br of_bits in
    let offset := of_base + v in
    r1 ← py_get rep 1; rep ← py_set rep 2 r1;
    r0 ← py_get rep 0; rep ← py_set rep 1 r0;
    rep ← py_set rep 0 offset;
    Ok (offset, rep, br)
  else
    let ll0 := if ll_base =? 0 then 1 else 0 in
    if of_bits =? 0 then
      '(offset, rep) ← _resolve_rep0 rep ll0; Ok (offset, rep, br)
    else
      let '(v, br) := bwd_read br 1 in
      '(offset, rep) ← _resolve_rep_code rep (of_base + ll0 + v); Ok (offset, rep, br).

Section decode.
Variables ll_table of_table ml_table : _SeqDTable.

Definition sequence_step (num_seq : Z) (st : seq_state) (i : Z) : res seq_state :=
  let br := ss_reader st in
  of_base ← py_get (base_value of_table) (of_state st);
  of_bits ← py_get (add_bits of_table) (of_state st);
  ll_base ← py_get (base_value ll_table) (ll_state st);
  '(offset, rep, br) ← decode_offset br (ss_rep st) of_base of_bits ll_base;
  ml_base ← py_get (base_value ml_table) (ml_state st);
  '(ml, br) ← read_value ml_table br (ml_state st) ml_base;
  '(ll, br) ← read_value ll_table br (ll_state st) ll_base;
  let sequences := ss_sequences st ++ [(ll, offset, ml)] in
  if i =? num_seq - 1 then
    Ok (SeqState br (ll_state st) (of_state st) (ml_state st) rep sequences)
  else
    '(ll_s, br) ← next_state ll_table br (ll_state st);
    '(ml_s, br) ← next_state ml_table br (ml_state st);
    '(of_s, br) ← next_state of_table br (of_state st);
    Ok (SeqState br ll_s of_s ml_s rep sequences).
End decode.

(** The number of sequences and the position behind it. *)
Definition sequence_count (src : bytes) (b0 : Z) : res (Z * Z) :=
  if b0 <? 128 then Ok (b0, 1)
  else if b0 <? 255 then b1 ← py_get src 1; Ok (Z.shiftl (b0 - 128) 8 + b1, 2)
  else b1 ← py_get src 1; b2 ← py_get src 2; Ok (b1 + Z.shiftl b2 8 + 0x7F00, 3).

(** The sequences, the bytes used, the tables and offsets for the next block. *)
Definition _decode_sequences (src : bytes) (prev_tables : seq_tables) (repeat_offsets : list Z) :
    res (list (Z * Z * Z) * Z * seq_tables * list Z) :=
  b0 ← py_get src 0;
  if b0 =? 0 then Ok ([], 1, prev_tables, repeat_offsets)
  else
    '(num_seq, pos) ← sequence_count src b0;
    compression_modes ← py_get src pos;
    let pos := pos + 1 in
    let ll_mode := Z.land (Z.shiftr compression_modes 6) 0x3 in
    let of_mode := Z.land (Z.shiftr compression_modes 4) 0x3 in
    let ml_mode := Z.land (Z.shiftr compression_modes 2) 0x3 in
    '(ll_table, used, prev_tables) ← _resolve_seq_table src pos ll_mode prev_tables LL;
    let pos := pos + used in
    '(of_table, used, prev_tables) ← _resolve_seq_table src pos of_mode prev_tables OF;
    let pos := pos + used in
    '(ml_table, used, prev_tables) ← _resolve_seq_table src pos ml_mode prev_tables ML;
    let pos := pos + used in
    let bitstream := slice_from src pos in
    br ← backward_init bitstream;
    let '(ll_s, br) := bwd_read br (sq_accuracy_log ll_table) in
    let '(of_s, br) := bwd_read br (sq_accuracy_log of_table) in
    let '(ml_s, br) := bwd_read br (sq_accuracy_log ml_table) in
    st ← foldM (sequence_step ll_table of_table ml_table num_seq)
           (SeqState br ll_s of_s ml_s repeat_offsets []) (seqZ 0 num_seq);
    Ok (ss_sequences st, pos + len bitstream, prev_tables, ss_rep st).

(** ** Execution *)

(** [for j in range(ml): out.append(out[start + j])] *)
Definition copy_match (out : bytes) (start ml : Z) : res bytes :=
  foldM (fun out j => b ← py_get out (start + j); Ok (out ++ [b])) out (seqZ 0 ml).

Definition execute_step (literals : bytes) (st : bytes * Z) (sq : Z * Z * Z) : res (bytes * Z) :=
  let '(out, lit_pos) := st in
  let '(ll, offset, ml) := sq in
  let '(out, lit_pos) :=
    if negb (ll =? 0) then (out ++ slice literals lit_pos (lit_pos + ll), lit_pos + ll)
    else (out, lit_pos) in
  if negb (ml =? 0) then
    let start := len out - offset in
    _ ← raise_if (start <? 0) ZstdError;
    out ← copy_match out start ml;
    Ok (out, lit_pos)
  else Ok (out, lit_pos).

Definition _execute_sequences (literals : bytes) (sequences : list (Z * Z * Z)) (out : bytes) : res bytes :=
  '(out, lit_pos) ← foldM (execute_step literals) (out, 0) sequences;
  Ok (if lit_pos <? len literals then out ++ slice_from literals lit_pos else out).
