(* ===== verification/SequenceProps.v ===== *)
(** * Sequences are safe to execute

    The predefined tables are the tables of the default distributions.  Whatever the
    bytes of a sequences section are, the decoded offsets are at least 1 and the
    history of repeated offsets stays positive.  Executing such sequences is the
    textbook expansion of literals and overlapping copies. *)

From S2P Require Import Prelude BitReader Fse FseProps FseRead Sequences.

(** ** The predefined tables *)

(** The default distributions of RFC 8878, 3.1.1.3.2.2. *)
Definition default_counts (key : seq_key) : list Z * Z :=
  match key with
  | LL => ([4; 3; 2; 2; 2; 2; 2; 2; 2; 2; 2; 2; 2; 1; 1; 1; 2; 2; 2; 2; 2; 2; 2; 2; 2; 3; 2; 1; 1; 1; 1; 1;
            -1; -1; -1; -1], 6)
  | OF => ([1; 1; 1; 1; 1; 1; 2; 2; 2; 1; 1; 1; 1; 1; 1; 1; 1; 1; 1; 1; 1; 1; 1; 1; -1; -1; -1; -1; -1], 5)
  | ML => ([1; 4; 3; 2; 2; 2; 2; 2; 2; 1; 1; 1; 1; 1; 1; 1; 1; 1; 1; 1; 1; 1; 1; 1; 1; 1; 1; 1; 1; 1; 1; 1;
            1; 1; 1; 1; 1; 1; 1; 1; 1; 1; 1; 1; 1; 1; -1; -1; -1; -1; -1; -1; -1], 6)
  end.

(** The literal tables of predefined mode are the tables that
    [_build_fse_table] makes of the default distributions. *)
Theorem predefined_tables_standard key :
  let '(counts, log) := default_counts key in
  fse_table (_SEQ_SPEC key) counts log = Ok (predef_table (_SEQ_SPEC key)).
Proof. destruct key; vm_compute; reflexivity. Qed.

(** ** Tables *)

(** Base value and extra bits of a code: lengths are not negative, matches have three
    bytes or more, offsets of more than one bit are positive and one bit selects a
    repeated offset. *)
Definition code_ok (key : seq_key) (b n : Z) : Prop :=
  0 <= n /\ match key with
            | LL => 0 <= b
            | ML => 3 <= b
            | OF => (1 < n -> 1 <= b) /\ (n = 1 -> b = 1)
            end.
#[export] Instance code_ok_dec key b n : Decision (code_ok key b n).
Proof. unfold code_ok. destruct key; apply _. Defined.

Record table_fits (key : seq_key) (t : _SeqDTable) : Prop := {
  tf_log : 0 <= sq_accuracy_log t;
  tf_len : len (base_value t) = 2 ^ sq_accuracy_log t /\ len (add_bits t) = 2 ^ sq_accuracy_log t /\
    len (newstate t) = 2 ^ sq_accuracy_log t /\ len (state_nbits t) = 2 ^ sq_accuracy_log t;
  tf_codes : Forall2 (code_ok key) (base_value t) (add_bits t);
  tf_states : Forall2 (fun s n => 0 <= n /\ 0 <= s /\ s + 2 ^ n <= 2 ^ sq_accuracy_log t)
    (newstate t) (state_nbits t);
}.

Lemma predef_fits key : table_fits key (predef_table (_SEQ_SPEC key)).
Proof.
  constructor; [destruct key; vm_compute; discriminate|destruct key; vm_compute; split_and!; reflexivity| |].
  - apply (bool_decide_unpack _). destruct key; vm_compute; exact I.
  - apply (bool_decide_unpack _). destruct key; vm_compute; exact I.
Qed.

Lemma code_tables_ok key : Forall2 (code_ok key) (code_base (_SEQ_SPEC key)) (code_bits (_SEQ_SPEC key)).
Proof. apply (bool_decide_unpack _). destruct key; vm_compute; exact I. Qed.
Lemma code_tables_len key :
  len (code_base (_SEQ_SPEC key)) = sp_max_symbol (_SEQ_SPEC key) + 1 /\
  len (code_bits (_SEQ_SPEC key)) = sp_max_symbol (_SEQ_SPEC key) + 1.
Proof. destruct key; split; vm_compute; reflexivity. Qed.

(** A code within the tables, and one beyond them. *)
Lemma code_lookup key c :
  0 <= c <= sp_max_symbol (_SEQ_SPEC key) ->
  exists b n, py_get (code_base (_SEQ_SPEC key)) c = Ok b /\ py_get (code_bits (_SEQ_SPEC key)) c = Ok n /\
    code_ok key b n.
Proof.
  intros Hc. destruct (code_tables_len key) as [H1 H2].
  destruct (py_get_in_range (code_base (_SEQ_SPEC key)) c) as (b & Hb & Hb'); [lia|].
  destruct (py_get_in_range (code_bits (_SEQ_SPEC key)) c) as (n & Hn & Hn'); [lia|].
  exists b, n. split_and!; [done|done|]. by apply (Forall2_lookup_lr _ _ _ _ _ _ (code_tables_ok key) Hb Hn).
Qed.

Lemma rle_fits key c :
  0 <= c ->
  match rle_table (_SEQ_SPEC key) c with Ok t => table_fits key t | Err e => e = IndexError end.
Proof.
  intros Hc. unfold rle_table. destruct (decide (c <= sp_max_symbol (_SEQ_SPEC key))) as [Hle|Hgt].
  - destruct (code_lookup key c) as (b & n & -> & -> & Hok); [lia|]. cbn [mbind res_bind].
    constructor; cbn; [lia|done|constructor; [exact Hok|constructor]|].
    constructor; [lia|constructor].
  - destruct (code_tables_len key). by rewrite (py_get_out (code_base _)) by lia.
Qed.

Lemma mapM_codes key syms :
  Forall (fun c => 0 <= c <= sp_max_symbol (_SEQ_SPEC key)) syms ->
  exists bs ns, mapM_res (py_get (code_base (_SEQ_SPEC key))) syms = Ok bs /\
    mapM_res (py_get (code_bits (_SEQ_SPEC key))) syms = Ok ns /\
    Forall2 (code_ok key) bs ns /\ length bs = length syms.
Proof.
  induction 1 as [|c syms Hc _ (bs & ns & IH1 & IH2 & IH & Hl)]; [by exists [], []; repeat constructor|].
  destruct (code_lookup key c Hc) as (b & n & Hb & Hn & Hok). exists (b :: bs), (n :: ns).
  cbn [mapM_res]. rewrite Hb, Hn, IH1, IH2. split_and!; [done|done|by constructor|cbn; lia].
Qed.

Lemma fse_fits key counts log :
  dist_ok counts log -> log <= 20 -> len counts <= sp_max_symbol (_SEQ_SPEC key) + 1 ->
  exists t, fse_table (_SEQ_SPEC key) counts log = Ok t /\ table_fits key t.
Proof.
  intros Hd Hlog Hlen. unfold fse_table.
  destruct (build_fse_table_complete counts log Hd ltac:(lia)) as (f & -> & Hl & Ht). rewrite bind_Ok.
  destruct Ht as [Hlog5 Hs Hb Hn _ Hsym Hrange _ _]. rewrite Hl in *.
  destruct (mapM_codes key (symbol f)) as (bs & ns & -> & -> & Hok & Hlb).
  { apply Forall_lookup. intros i c Hc. destruct (Hsym _ _ Hc) as (k & Hk & _ & Hc0).
    apply lookup_lt_Some in Hk. lia. }
  rewrite !bind_Ok. eexists. split; [done|]. pose proof (Forall2_length _ _ _ Hok).
  constructor; cbn; [lia|split_and!; lia|done|].
  apply Forall2_same_length_lookup_2; [lia|]. intros i s n Hi Hni. specialize (Hrange _ _ _ Hi Hni). lia.
Qed.

(** ** The tables of a block *)

Definition tables_fit (ts : seq_tables) : Prop :=
  forall key t, tables_get ts key = Some t -> table_fits key t.
(** The errors of a malformed sequences section. *)
Definition malformed (e : exn) : Prop := e = ZstdError \/ e = IndexError.

Lemma tables_fit_set ts key t : tables_fit ts -> table_fits key t -> tables_fit (tables_set ts key t).
Proof. intros Hts Ht key' t' H. specialize (Hts key'). destruct key, key'; cbn in *; first [by injection H as <-|by apply Hts]. Qed.

Lemma resolve_table_fits src pos mode ts key :
  bytes_ok src -> 0 <= pos -> tables_fit ts ->
  match _resolve_seq_table src pos mode ts key with
  | Ok (t, used, ts') => table_fits key t /\ 0 <= used /\ tables_fit ts'
  | Err e => malformed e
  end.
Proof.
  intros Hsrc Hpos Hts. unfold _resolve_seq_table.
  destruct (mode =? 0); [|destruct (mode =? 1); [|destruct (mode =? 2)]].
  - rewrite bind_Ok. pose proof (predef_fits key). split_and!; [done|done|by apply tables_fit_set].
  - destruct (py_get src pos) as [c|e] eqn:E; cbn [mbind res_bind].
    + assert (0 <= c) as Hc.
      { destruct (py_get_Ok_inv _ _ _ Hpos E) as [Hl _]. apply (Forall_lookup_1 _ _ _ _ Hsrc Hl). }
      pose proof (rle_fits key c Hc) as Hr. destruct (rle_table _ c) as [t|e]; cbn [mbind res_bind]; [|by right].
      split_and!; [done|lia|by apply tables_fit_set].
    + right. rewrite py_get_nonneg in E by done. by destruct (src !! _); [|injection E].
  - pose proof (read_fse_distribution_sound (slice_from src pos) (sp_max_symbol (_SEQ_SPEC key))
      (if sp_is_offset (_SEQ_SPEC key) then 8 else 9)) as Hd.
    destruct (_read_fse_distribution _ _ _) as [[[counts log] r]|e]; cbn [mbind res_bind].
    + destruct Hd as (Hd & Hlog & Hlen & Hr); [|destruct key; cbn; lia|].
      { rewrite slice_from_nonneg by done. by apply Forall_drop. }
      destruct (fse_fits key counts log Hd ltac:(lia) Hlen) as (t & -> & Ht). cbn [mbind res_bind].
      split_and!; [done|destruct Hr; apply Z.div_pos; lia|by apply tables_fit_set].
    + left. apply Hd; [|destruct key; cbn; lia]. rewrite slice_from_nonneg by done. by apply Forall_drop.
  - destruct (tables_get ts key) as [t|] eqn:E; cbn [of_option mbind res_bind]; [|by left].
    specialize (Hts _ _ E) as Ht. split_and!; [done|done|by apply tables_fit_set].
Qed.

(** ** One sequence *)

Definition rep_ok (rep : list Z) : Prop := exists a b c, rep = [a; b; c] /\ 1 <= a /\ 1 <= b /\ 1 <= c.
(** Literal length, offset, match length. *)
Definition seq_ok (sq : Z * Z * Z) : Prop := 0 <= sq.1.1 /\ 1 <= sq.1.2 /\ 3 <= sq.2.
Definition state_in (t : _SeqDTable) (st : Z) : Prop := 0 <= st < 2 ^ sq_accuracy_log t.

Lemma bwd_read_range r n :
  0 <= n -> exists v r', bwd_read r n = (v, r') /\ 0 <= v < 2 ^ n.
Proof.
  intros Hn. unfold bwd_read. destruct (Z.eqb_spec n 0) as [->|]; [by exists 0, r|].
  assert (0 < 2 ^ n) by (apply Z.pow_pos_nonneg; lia).
  destruct (Z.ltb_spec (bwd_bitpos r) 0); [exists 0, r; by split|].
  destruct (Z.ltb_spec (bwd_bitpos r - n + 1) 0).
  - eexists _, _. split; [done|]. set (k := bwd_bitpos r + 1).
    rewrite ones_eq, land_mask, Z.shiftl_mul_pow2 by lia.
    assert (2 ^ n = 2 ^ k * 2 ^ (n - k)) as -> by (rewrite <- Z.pow_add_r by lia; f_equal; lia).
    assert (0 < 2 ^ (n - k)) by (apply Z.pow_pos_nonneg; lia).
    assert (0 < 2 ^ k) as Hk by (apply Z.pow_pos_nonneg; unfold k; lia).
    pose proof (Z.mod_pos_bound (Z.shiftr (bwd_data r) 0) (2 ^ k) Hk). nia.
  - eexists _, _. split; [done|]. rewrite ones_eq, land_mask by lia. by apply Z.mod_pos_bound.
Qed.

Section step.
Variable E : exn -> Prop.
Hypothesis HE : E ZstdError.

Lemma resolve_rep0_ok rep ll0 :
  rep_ok rep -> ll0 = 0 \/ ll0 = 1 ->
  ensures (fun '(off, rep') => 1 <= off /\ rep_ok rep') E (_resolve_rep0 rep ll0).
Proof using Type.
  intros (a & b & c & -> & Ha & Hb & Hc) [-> | ->]; cbn; (split; [done|]); [by exists a, b, c|by exists b, a, c].
Qed.
Lemma resolve_rep_code_ok rep code :
  rep_ok rep -> 1 <= code <= 3 ->
  ensures (fun '(off, rep') => 1 <= off /\ rep_ok rep') E (_resolve_rep_code rep code).
Proof using HE.
  intros (a & b & c & -> & Ha & Hb & Hc) Hcode.
  assert (code = 1 \/ code = 2 \/ code = 3) as [-> | [-> | ->]] by lia; unfold _resolve_rep_code; cbn [Z.eqb negb Pos.eqb].
  - change (py_get [a; b; c] 1) with (Ok b). rewrite bind_Ok. destruct (Z.eqb_spec b 0); cbn; [done|]. split; [done|]. by exists b, a, c.
  - change (py_get [a; b; c] 2) with (Ok c). rewrite bind_Ok. destruct (Z.eqb_spec c 0); cbn; [done|]. split; [done|]. by exists c, a, b.
  - change (py_get [a; b; c] 0) with (Ok a). rewrite !bind_Ok. destruct (Z.eqb_spec (a - 1) 0); cbn; [done|]. split; [lia|]. exists (a - 1), a, b. split_and!; (done || lia).
Qed.
Lemma decode_offset_ok br rep ob on ll_base :
  rep_ok rep -> code_ok OF ob on ->
  ensures (fun '(off, rep', _) => 1 <= off /\ rep_ok rep') E (decode_offset br rep ob on ll_base).
Proof using HE.
  intros Hrep (Hn & Hbig & Hone). unfold decode_offset.
  destruct (Z.ltb_spec 1 on) as [H1|H1].
  - destruct (bwd_read_range br on Hn) as (v & br' & -> & Hv). specialize (Hbig H1).
    destruct Hrep as (a & b & c & -> & Ha & Hb & Hc). cbn. split; [lia|]. exists (ob + v), a, b. split_and!; (done || lia).
  - set (ll0 := if ll_base =? 0 then 1 else 0).
    assert (ll0 = 0 \/ ll0 = 1) as Hll by (unfold ll0; destruct (ll_base =? 0); auto).
    destruct (Z.eqb_spec on 0) as [->|].
    + eapply ensures_bind; [by apply resolve_rep0_ok|]. by intros [off rep'] _ H.
    + destruct (bwd_read_range br 1 ltac:(lia)) as (v & br' & -> & Hv). change (2 ^ 1) with 2 in Hv.
      rewrite Hone by lia.
      eapply ensures_bind; [apply resolve_rep_code_ok; [done|lia]|]. by intros [off rep'] _ H.
Qed.

Lemma state_at key t st :
  table_fits key t -> state_in t st ->
  exists b n s k, py_get (base_value t) st = Ok b /\ py_get (add_bits t) st = Ok n /\
    py_get (newstate t) st = Ok s /\ py_get (state_nbits t) st = Ok k /\
    code_ok key b n /\ 0 <= k /\ 0 <= s /\ s + 2 ^ k <= 2 ^ sq_accuracy_log t.
Proof using Type.
  intros [Hlog (H1 & H2 & H3 & H4) Hc Hs] Hst. unfold state_in in Hst.
  destruct (py_get_in_range (base_value t) st) as (b & Hb & ->); [lia|].
  destruct (py_get_in_range (add_bits t) st) as (n & Hn & ->); [lia|].
  destruct (py_get_in_range (newstate t) st) as (s & Hns & ->); [lia|].
  destruct (py_get_in_range (state_nbits t) st) as (k & Hk & ->); [lia|].
  pose proof (Forall2_lookup_lr _ _ _ _ _ _ Hc Hb Hn). pose proof (Forall2_lookup_lr _ _ _ _ _ _ Hs Hns Hk) as (? & ? & ?).
  exists b, n, s, k. by split_and!.
Qed.
Lemma next_state_ok key t br st :
  table_fits key t -> state_in t st -> ensures (fun '(st', _) => state_in t st') E (next_state t br st).
Proof using Type.
  intros Ht Hst. destruct (state_at key t st Ht Hst) as (b & n & s & k & _ & _ & Hs & Hk & _ & Hk0 & Hs0 & Hle).
  unfold next_state. rewrite Hs, Hk. cbn [mbind res_bind].
  destruct (bwd_read_range br k Hk0) as (v & br' & -> & Hv). cbn. unfold state_in. lia.
Qed.
Lemma read_value_ok key t br st base :
  table_fits key t -> state_in t st -> ensures (fun '(v, _) => base <= v) E (read_value t br st base).
Proof using Type.
  intros Ht Hst. destruct (state_at key t st Ht Hst) as (b & n & _ & _ & _ & Hn & _ & _ & [Hn0 _] & _).
  unfold read_value. rewrite Hn. cbn [mbind res_bind].
  destruct (bwd_read_range br n Hn0) as (v & br' & -> & Hv). cbn. lia.
Qed.

Section tables.
Context (lt ot mt : _SeqDTable).
Hypotheses (Hlt : table_fits LL lt) (Hot : table_fits OF ot) (Hmt : table_fits ML mt).

Definition seq_inv (st : seq_state) : Prop :=
  state_in lt (ll_state st) /\ state_in ot (of_state st) /\ state_in mt (ml_state st) /\
  rep_ok (ss_rep st) /\ Forall seq_ok (ss_sequences st).

Lemma sequence_step_ok n st i : seq_inv st -> ensures seq_inv E (sequence_step lt ot mt n st i).
Proof using HE Hlt Hot Hmt.
  intros (Hl & Ho & Hm & Hrep & Hseqs). unfold sequence_step.
  destruct (state_at OF ot _ Hot Ho) as (ob & on & _ & _ & -> & -> & _ & _ & Hcode & _). cbn [mbind res_bind].
  destruct (state_at LL lt _ Hlt Hl) as (lb & ln & _ & _ & -> & _ & _ & _ & [_ Hlb] & _). cbn [mbind res_bind].
  destruct (state_at ML mt _ Hmt Hm) as (mb & mn & _ & _ & -> & _ & _ & _ & [_ Hmb] & _).
  eapply ensures_bind; [by apply decode_offset_ok|]. intros [[off rep'] br1] _ [Hoff Hrep']. rewrite bind_Ok.
  eapply ensures_bind; [by eapply read_value_ok|]. intros [ml br2] _ Hml.
  eapply ensures_bind; [by eapply read_value_ok|]. intros [ll br3] _ Hll.
  assert (Forall seq_ok (ss_sequences st ++ [(ll, off, ml)])) as Hseqs'.
  { apply Forall_app. split; [done|]. constructor; [|constructor]. split_and!; cbn; lia. }
  destruct (i =? n - 1); [by split_and!|].
  eapply ensures_bind; [by eapply next_state_ok|]. intros [ls br4] _ Hls.
  eapply ensures_bind; [by eapply next_state_ok|]. intros [ms br5] _ Hms.
  eapply ensures_bind; [by eapply next_state_ok|]. intros [os br6] _ Hos. by split_and!.
Qed.
End tables.
End step.

(** ** The section *)

Lemma ensures_byte src i :
  bytes_ok src -> 0 <= i -> ensures is_byte malformed (py_get src i).
Proof.
  intros Hsrc Hi. rewrite py_get_nonneg by done. destruct (src !! _) as [b|] eqn:Hb; cbn; [|by right].
  by eapply (Forall_lookup_1 _ _ _ _ Hsrc).
Qed.
Lemma backward_init_ensures data : ensures (fun _ => True) malformed (backward_init data).
Proof.
  unfold backward_init. destruct data as [|x data _] using rev_ind; [by left|]. rewrite py_get_snoc.
  destruct (data ++ [x]) eqn:El; [by left|]. rewrite bind_Ok. destruct (x =? 0); cbn; [by left|done].
Qed.

(** Whatever the bytes of a sequences section are, it is decoded or refused, and
    the sequences that are decoded have positive offsets and matches of three bytes or
    more; the tables and the history of offsets handed to the next block are well
    formed again. *)
Theorem decode_sequences_safe src tables rep :
  bytes_ok src -> tables_fit tables -> rep_ok rep ->
  match _decode_sequences src tables rep with
  | Ok (seqs, _, tables', rep') => Forall seq_ok seqs /\ tables_fit tables' /\ rep_ok rep'
  | Err e => malformed e
  end.
Proof.
  intros Hsrc Hts Hrep. assert (malformed ZstdError) as HE by by left.
  enough (ensures (fun '(seqs, _, tables', rep') => Forall seq_ok seqs /\ tables_fit tables' /\ rep_ok rep')
    malformed (_decode_sequences src tables rep)) as H.
  { unfold ensures in H. by destruct (_decode_sequences _ _ _) as [[[[? ?] ?] ?]|]. }
  unfold _decode_sequences. eapply ensures_bind; [by apply ensures_byte|]. intros b0 _ Hb0.
  destruct (b0 =? 0); [done|].
  eapply (ensures_bind _ (fun p => 0 <= p.2)).
  { unfold sequence_count. destruct (b0 <? 128); [done|]. destruct (b0 <? 255).
    - eapply ensures_bind; [by apply ensures_byte|]. intros b1 _ _. cbn. lia.
    - eapply ensures_bind; [by apply ensures_byte|]. intros b1 _ _.
      eapply ensures_bind; [by apply ensures_byte|]. intros b2 _ _. cbn. lia. }
  intros [n pos] _ Hpos. cbn in Hpos. eapply ensures_bind; [by apply ensures_byte|]. intros modes _ _.
  eapply ensures_bind; [apply (resolve_table_fits src (pos + 1) _ tables LL); [done|lia|done]|].
  intros [[lt used1] ts1] _ (Hlt & Hu1 & Hts1).
  eapply ensures_bind; [apply (resolve_table_fits src (pos + 1 + used1) _ ts1 OF); [done|lia|done]|].
  intros [[ot used2] ts2] _ (Hot & Hu2 & Hts2).
  eapply ensures_bind; [apply (resolve_table_fits src (pos + 1 + used1 + used2) _ ts2 ML); [done|lia|done]|].
  intros [[mt used3] ts3] _ (Hmt & Hu3 & Hts3).
  eapply ensures_bind; [apply backward_init_ensures|]. intros br _ _.
  destruct (bwd_read_range br _ (tf_log _ _ Hlt)) as (ls & br1 & -> & Hls).
  destruct (bwd_read_range br1 _ (tf_log _ _ Hot)) as (os & br2 & -> & Hos).
  destruct (bwd_read_range br2 _ (tf_log _ _ Hmt)) as (ms & br3 & -> & Hms).
  eapply ensures_bind; [apply (ensures_foldM malformed (seq_inv lt ot mt)); [by split_and!|]|].
  - intros st i _ Hst. by apply sequence_step_ok.
  - intros st _ (_ & _ & _ & Hrep' & Hseqs). done.
Qed.
(** One sequence with the predefined tables. *)
Lemma decode_sequences_safe_witness :
  let src := [1; 0; 77; 200; 9; 3] in
  bytes_ok src /\ tables_fit (SeqTables None None None) /\ rep_ok [1; 4; 8] /\
  match _decode_sequences src (SeqTables None None None) [1; 4; 8] with
  | Ok (seqs, _, tables', rep') => Forall seq_ok seqs /\ tables_fit tables' /\ rep_ok rep'
  | Err e => malformed e
  end.
Proof.
  intros src. assert (bytes_ok src) as Hsrc by (unfold src; by decompose_Forall).
  assert (tables_fit (SeqTables None None None)) as Hts by (by intros [] t).
  assert (rep_ok [1; 4; 8]) as Hrep by (by exists 1, 4, 8).
  split; [exact Hsrc|]. split; [exact Hts|]. split; [exact Hrep|].
  exact (decode_sequences_safe src (SeqTables None None None) [1; 4; 8] Hsrc Hts Hrep).
Defined.
Example decode_sequences_example :
  (fun p => (p.1.1.1, p.2)) <$> _decode_sequences [1; 0; 77; 200; 9; 3] (SeqTables None None None) [1; 4; 8]
  = Ok ([(18, 5325, 16)], [5325; 1; 4]).
Proof. vm_compute. reflexivity. Qed.

(** ** Execution *)

(** [ml] bytes from [off] bytes back, over and over when the copy overlaps itself. *)
Definition periodic (out : bytes) (off : Z) (n : nat) : bytes :=
  (fun k : nat => out !!! (length out - Z.to_nat off + k `mod` Z.to_nat off)%nat) <$> seq 0 n.
(** The expansion of sequences; none when a copy starts before the output. *)
Fixpoint lz_expand (lits : bytes) (seqs : list (Z * Z * Z)) (out : bytes) : option bytes :=
  match seqs with
  | [] => Some (out ++ lits)
  | (ll, off, ml) :: seqs =>
      let out := out ++ take (Z.to_nat ll) lits in
      if decide (len out < off) then None
      else lz_expand (drop (Z.to_nat ll) lits) seqs (out ++ periodic out off (Z.to_nat ml))
  end.

Lemma periodic_lookup out off n k :
  1 <= off <= len out -> (k < n)%nat ->
  periodic out off n !! k = out !! (length out - Z.to_nat off + k `mod` Z.to_nat off)%nat.
Proof.
  intros Ho Hk. unfold periodic. rewrite list_lookup_fmap, lookup_seq_lt by done. csimpl.
  pose proof (Nat.mod_upper_bound k (Z.to_nat off)).
  destruct (lookup_lt_is_Some_2 out (length out - Z.to_nat off + k `mod` Z.to_nat off)%nat) as [x Hx]; [lia|].
  by rewrite Hx, (list_lookup_total_correct _ _ _ Hx).
Qed.
(** The byte that follows is the byte [off] places back. *)
Lemma periodic_back out off n :
  1 <= off <= len out ->
  exists b, (out ++ periodic out off n) !! (length out - Z.to_nat off + n)%nat = Some b /\
    periodic out off (S n) = periodic out off n ++ [b].
Proof.
  intros Ho. pose proof (Nat.mod_upper_bound n (Z.to_nat off)).
  destruct (lookup_lt_is_Some_2 out (length out - Z.to_nat off + n `mod` Z.to_nat off)%nat) as [b Hb]; [lia|].
  exists b. split.
  - destruct (decide (n < Z.to_nat off)%nat) as [Hlt|Hge].
    + rewrite lookup_app_l by lia. by rewrite Nat.mod_small in Hb.
    + rewrite lookup_app_r by lia. replace (_ - _)%nat with (n - Z.to_nat off)%nat by lia.
      rewrite periodic_lookup by lia. rewrite <- Hb. f_equal. f_equal.
      replace n with (n - Z.to_nat off + 1 * Z.to_nat off)%nat at 2 by lia. by rewrite Nat.Div0.mod_add.
  - unfold periodic at 1. rewrite seq_S, fmap_app. f_equal. csimpl. do 2 f_equal.
    by rewrite (list_lookup_total_correct _ _ _ Hb).
Qed.

Lemma copy_match_ok out off ml :
  1 <= off <= len out -> 0 <= ml ->
  copy_match out (len out - off) ml = Ok (out ++ periodic out off (Z.to_nat ml)).
Proof.
  intros Ho Hml. unfold copy_match. rewrite <- (Z2Nat.id ml) at 1 by done.
  induction (Z.to_nat ml) as [|n IH]; [by rewrite app_nil_r|].
  rewrite seqZ_S, foldM_app, IH, bind_Ok. cbn [foldM].
  destruct (periodic_back out off n Ho) as (b & Hb & ->).
  rewrite (py_get_Some _ _ b), bind_Ok; [by rewrite app_assoc|lia|].
  rewrite <- Hb. f_equal. lia.
Qed.

Lemma execute_steps lits seqs out pos :
  Forall seq_ok seqs -> 0 <= pos ->
  match lz_expand (drop (Z.to_nat pos) lits) seqs out with
  | Some out' => exists out1 pos1, foldM (execute_step lits) (out, pos) seqs = Ok (out1, pos1) /\
      0 <= pos1 /\ out' = out1 ++ drop (Z.to_nat pos1) lits
  | None => foldM (execute_step lits) (out, pos) seqs = Err ZstdError
  end.
Proof.
  intros H. revert out pos. induction H as [|[[ll off] ml] seqs (Hll & Hoff & Hml) _ IH]; intros out pos Hpos.
  - exists out, pos. by split_and!.
  - cbn in Hll, Hoff, Hml. cbn [lz_expand foldM].
    set (out1 := out ++ take (Z.to_nat ll) (drop (Z.to_nat pos) lits)).
    assert (execute_step lits (out, pos) (ll, off, ml)
      = if decide (len out1 < off) then Err ZstdError
        else Ok (out1 ++ periodic out1 off (Z.to_nat ml), pos + ll)) as ->.
    { unfold execute_step. rewrite (proj2 (Z.eqb_neq ml 0)) by lia. cbn [negb].
      replace (if negb (ll =? 0) then (out ++ slice lits pos (pos + ll), pos + ll) else (out, pos))
        with (out1, pos + ll).
      - destruct (decide (len out1 < off)) as [Hlt|Hge]; [by rewrite (proj2 (Z.ltb_lt _ _)) by lia|].
        rewrite (proj2 (Z.ltb_ge _ _)) by lia. cbn [raise_if]. rewrite bind_Ok, copy_match_ok by lia. done.
      - unfold out1. destruct (Z.eqb_spec ll 0) as [->|]; cbn [negb]; [by rewrite Z.add_0_r, app_nil_r|].
        rewrite slice_nonneg by lia. do 3 f_equal. lia. }
    destruct (decide (len out1 < off)); [done|]. rewrite bind_Ok, drop_drop.
    replace (Z.to_nat pos + Z.to_nat ll)%nat with (Z.to_nat (pos + ll)) by lia. apply IH. lia.
Qed.

(** Executing sequences is the expansion of literals and self-overlapping copies,
    and fails with [ZstdError] exactly when a copy starts before the output. *)
Theorem execute_sequences_expand lits seqs out :
  Forall seq_ok seqs ->
  _execute_sequences lits seqs out = of_option ZstdError (lz_expand lits seqs out).
Proof.
  intros H. pose proof (execute_steps lits seqs out 0 H ltac:(done)) as He. rewrite drop_0 in He.
  unfold _execute_sequences. destruct (lz_expand lits seqs out) as [out'|]; [|by rewrite He].
  destruct He as (out1 & pos & -> & Hpos & ->). rewrite bind_Ok. cbn [of_option]. f_equal.
  destruct (Z.ltb_spec pos (len lits)); [by rewrite slice_from_nonneg by lia|].
  by rewrite drop_ge, app_nil_r by lia.
Qed.
(** Three literals, a copy that overlaps itself, one literal more and the rest. *)
Lemma execute_sequences_expand_witness :
  Forall seq_ok [(3, 2, 5); (1, 9, 3)] /\
  _execute_sequences [97; 98; 99; 100; 101] [(3, 2, 5); (1, 9, 3)] []
    = of_option ZstdError (lz_expand [97; 98; 99; 100; 101] [(3, 2, 5); (1, 9, 3)] []).
Proof.
  assert (Forall seq_ok [(3, 2, 5); (1, 9, 3)]) as H by (repeat constructor; cbn; lia).
  split; [exact H|]. exact (execute_sequences_expand [97; 98; 99; 100; 101] _ [] H).
Defined.
Example execute_sequences_example :
  _execute_sequences [97; 98; 99; 100; 101] [(3, 2, 5); (1, 9, 3)] []
    = Ok [97; 98; 99; 98; 99; 98; 99; 98; 100; 97; 98; 99; 101].
Proof. reflexivity. Qed.
