(* ===== verification/Zstd.v ===== *)
(** * A zstd frame: restore/_zstd_pure.py

    [_decompress_frame] and [decompress]: header, blocks, checksum. *)

From S2P Require Import Prelude BitReader Fse Huffman Sequences.

(** ** XXH64: restore/_zstd_pure.py

    The checksum of a frame's content, in 64-bit arithmetic by masking. *)

Definition _P64_1 : Z := 0x9E3779B185EBCA87.
Definition _P64_2 : Z := 0xC2B2AE3D27D4EB4F.
Definition _P64_3 : Z := 0x165667B19E3779F9.
Definition _P64_4 : Z := 0x85EBCA77C2B2AE63.
Definition _P64_5 : Z := 0x27D4EB2F165667C5.
Definition _MASK64 : Z := 0xFFFFFFFFFFFFFFFF.
Definition m64 (x : Z) : Z := Z.land x _MASK64.

Definition _rotl64 (x r : Z) : Z := m64 (Z.lor (Z.shiftl x r) (Z.shiftr x (64 - r))).
Definition _xxh64_round (acc inp : Z) : Z :=
  let acc := m64 (acc + inp * _P64_2) in
  let acc := _rotl64 acc 31 in
  m64 (acc * _P64_1).
Definition _xxh64_merge (acc val : Z) : Z :=
  let val := _xxh64_round 0 val in
  let acc := Z.lxor acc val in
  m64 (acc * _P64_1 + _P64_4).

(** [struct.unpack_from], for offsets the callers have checked. *)
Definition _read64 (data : bytes) (off : Z) : Z := int_from_le (slice data off (off + 8)).
Definition _read32 (data : bytes) (off : Z) : Z := int_from_le (slice data off (off + 4)).

(** [while idx + w <= length: state = f(state, idx); idx += w]: the final index
    and state.  [length // w] turns are enough. *)
Fixpoint strides {S} (fuel : nat) (w length_ : Z) (f : S -> Z -> S) (idx : Z) (s : S) : Z * S :=
  match fuel with
  | O => (idx, s)
  | S fuel => if idx + w <=? length_ then strides fuel w length_ f (idx + w) (f s idx) else (idx, s)
  end.

(** The turns that [_xxh64] grants are enough: the loop stops at its condition. *)
Lemma strides_done {S} fuel w length_ (f : S -> Z -> S) idx s :
  0 < w -> length_ < idx + w * (Z.of_nat fuel + 1) -> length_ < (strides fuel w length_ f idx s).1 + w.
Proof.
  intros Hw. revert idx s. induction fuel as [|fuel IH]; intros idx s H; cbn [strides]; [cbn; lia|].
  destruct (Z.leb_spec (idx + w) length_); [|cbn; lia]. apply IH. lia.
Qed.

Definition stripe (data : bytes) (v : Z * Z * Z * Z) (idx : Z) : Z * Z * Z * Z :=
  let '(v1, v2, v3, v4) := v in
  (_xxh64_round v1 (_read64 data idx), _xxh64_round v2 (_read64 data (idx + 8)),
   _xxh64_round v3 (_read64 data (idx + 16)), _xxh64_round v4 (_read64 data (idx + 24))).
Definition tail8 (data : bytes) (h64 idx : Z) : Z :=
  let h64 := Z.lxor h64 (_xxh64_round 0 (_read64 data idx)) in
  m64 (_rotl64 h64 27 * _P64_1 + _P64_4).
Definition tail4 (data : bytes) (h64 idx : Z) : Z :=
  let h64 := Z.lxor h64 (m64 (_read32 data idx * _P64_1)) in
  m64 (_rotl64 h64 23 * _P64_2 + _P64_3).
Definition tail1 (data : bytes) (h64 idx : Z) : Z :=
  let h64 := Z.lxor h64 (m64 (nth (Z.to_nat idx) data 0 * _P64_5)) in
  m64 (_rotl64 h64 11 * _P64_1).
Definition avalanche (h64 : Z) : Z :=
  let h64 := Z.lxor h64 (Z.shiftr h64 33) in
  let h64 := m64 (h64 * _P64_2) in
  let h64 := Z.lxor h64 (Z.shiftr h64 29) in
  let h64 := m64 (h64 * _P64_3) in
  let h64 := Z.lxor h64 (Z.shiftr h64 32) in
  m64 h64.

Definition _xxh64 (data : bytes) (seed : Z) : Z :=
  let length_ := len data in
  let turns := length data in
  let '(idx, h64) :=
    if 32 <=? length_ then
      let v := (m64 (seed + _P64_1 + _P64_2), m64 (seed + _P64_2), m64 seed, m64 (seed - _P64_1)) in
      let '(idx, (v1, v2, v3, v4)) := strides turns 32 length_ (stripe data) 0 v in
      let h64 := m64 (_rotl64 v1 1 + _rotl64 v2 7 + _rotl64 v3 12 + _rotl64 v4 18) in
      (idx, _xxh64_merge (_xxh64_merge (_xxh64_merge (_xxh64_merge h64 v1) v2) v3) v4)
    else (0, m64 (seed + _P64_5)) in
  let h64 := m64 (h64 + length_) in
  let '(idx, h64) := strides turns 8 length_ (tail8 data) idx h64 in
  let '(idx, h64) := if idx + 4 <=? length_ then (idx + 4, tail4 data h64 idx) else (idx, h64) in
  let '(_, h64) := strides turns 1 length_ (tail1 data) idx h64 in
  avalanche h64.

Example xxh64_empty : _xxh64 [] 0 = 0xEF46DB3751D8E999.
Proof. vm_compute. reflexivity. Qed.
Example xxh64_abc : _xxh64 [97; 98; 99] 0 = 0x44BC2CF5AD770999.
Proof. vm_compute. reflexivity. Qed.
(** "Nobody inspects the spammish repetition", a stripe and a tail. *)
Example xxh64_stripe :
  _xxh64 [78; 111; 98; 111; 100; 121; 32; 105; 110; 115; 112; 101; 99; 116; 115; 32; 116; 104; 101; 32; 115; 112;
          97; 109; 109; 105; 115; 104; 32; 114; 101; 112; 101; 116; 105; 116; 105; 111; 110] 0 = 0xFBCEA83C8A378BF1.
Proof. vm_compute. reflexivity. Qed.

Definition _MAGIC : Z := 0xFD2FB528.

Section frame.
Variable weight_fuel : nat.

(** The header: the position of the first block and whether a checksum follows the
    last one. *)
Definition frame_header (data : bytes) : res (Z * bool) :=
  _ ← raise_if (len data <? 5) ZstdError;
  let magic := int_from_le (slice data 0 4) in
  _ ← raise_if (negb (magic =? _MAGIC)) ZstdError;
  fhd ← py_get data 4;
  let pos := 5 in
  let dict_id_flag := Z.land fhd 0x3 in
  let content_checksum := Z.land (Z.shiftr fhd 2) 1 in
  let single_segment := Z.land (Z.shiftr fhd 5) 1 in
  let fcs_flag := Z.land (Z.shiftr fhd 6) 0x3 in
  let pos := if single_segment =? 0 then pos + 1 else pos in
  let dict_id_size := if dict_id_flag =? 0 then 0 else if dict_id_flag =? 1 then 1
                      else if dict_id_flag =? 2 then 2 else 4 in
  let dict_id := int_from_le (slice data pos (pos + dict_id_size)) in
  _ ← raise_if (negb (dict_id_flag =? 0) && negb (dict_id =? 0)) ZstdError;
  let pos := pos + dict_id_size in
  let fcs_size := if fcs_flag =? 0 then (if single_segment =? 0 then 0 else 1)
                  else if fcs_flag =? 1 then 2 else if fcs_flag =? 2 then 4 else 8 in
  Ok (pos + fcs_size, negb (content_checksum =? 0)).

(** What is carried from block to block. *)
Record block_state := BlockState {
  bs_pos : Z; bs_out : bytes; prev_huffman : option _HuffmanTable; prev_seq_tables : seq_tables;
  bs_repeat_offsets : list Z
}.

(** One turn of the loop over blocks: the next state and whether it was the last. *)
Definition block_step (data : bytes) (st : block_state) : res (block_state * bool) :=
  let pos := bs_pos st in
  _ ← raise_if (len data <? pos + 3) ZstdError;
  d0 ← py_get data pos; d1 ← py_get data (pos + 1); d2 ← py_get data (pos + 2);
  let bh := Z.lor (Z.lor d0 (Z.shiftl d1 8)) (Z.shiftl d2 16) in
  let pos := pos + 3 in
  let last_block := negb (Z.land bh 1 =? 0) in
  let block_type := Z.land (Z.shiftr bh 1) 0x3 in
  let block_size := Z.shiftr bh 3 in
  if block_type =? 0 then
    Ok (BlockState (pos + block_size) (bs_out st ++ slice data pos (pos + block_size))
          (prev_huffman st) (prev_seq_tables st) (bs_repeat_offsets st), last_block)
  else if block_type =? 1 then
    b ← py_get data pos;
    Ok (BlockState (pos + 1) (bs_out st ++ replicate (Z.to_nat block_size) b)
          (prev_huffman st) (prev_seq_tables st) (bs_repeat_offsets st), last_block)
  else if block_type =? 2 then
    let block := slice data pos (pos + block_size) in
    _ ← raise_if (len block <? block_size) ZstdError;
    '(lits, lit_consumed, huffman) ← _decode_literals weight_fuel block (prev_huffman st);
    '(seqs, _, tables, rep) ← _decode_sequences (slice_from block lit_consumed) (prev_seq_tables st)
                                (bs_repeat_offsets st);
    out ← _execute_sequences lits seqs (bs_out st);
    Ok (BlockState (pos + block_size) out huffman tables rep, last_block)
  else Err ZstdError.

(** Each block is three bytes or more, so [len data] turns are enough. *)
Fixpoint block_loop (fuel : nat) (data : bytes) (st : block_state) : res block_state :=
  match fuel with
  | O => Err OutOfFuel
  | S fuel =>
      '(st, last_block) ← block_step data st;
      if last_block : bool then Ok st else block_loop fuel data st
  end.

Definition _decompress_frame (data : bytes) : res bytes :=
  '(pos, content_checksum) ← frame_header data;
  st ← block_loop (S (length data)) data (BlockState pos [] None (SeqTables None None None) [1; 4; 8]);
  if content_checksum : bool then
    _ ← raise_if (len data <? bs_pos st + 4) ZstdError;
    let want := int_from_le (slice data (bs_pos st) (bs_pos st + 4)) in
    let got := Z.land (_xxh64 (bs_out st) 0) 0xFFFFFFFF in
    _ ← raise_if (negb (got =? want)) ZstdError;
    Ok (bs_out st)
  else Ok (bs_out st).

Definition decompress (data : bytes) (max_output_size : Z) : res bytes :=
  result ← _decompress_frame data;
  _ ← raise_if (negb (max_output_size =? 0) && (max_output_size <? len result)) ZstdError;
  Ok result.
End frame.
