(* ===== verification/ZstdProps.v ===== *)
(** * Frames

    XXH64 by its specification, and that the decoder computes it.  Frames of stored blocks
    decode to their content, whatever their header's form.  What a truncated or hostile
    frame does instead of failing with [ZstdError]. *)

From S2P Require Import Prelude BitReader Fse FseProps FseRead Huffman WeightProps HuffmanProps Sequences SequenceProps Zstd.

(** ** XXH64 by its specification *)

Module Xxh64.
(** The algorithm of the XXH64 specification: arithmetic modulo 2^64, a rotation as a
    product and a quotient, the input as stripes of 32 bytes, words, a half word and bytes
    that are taken off its front. *)
Definition w64 (x : Z) : Z := x `mod` 2 ^ 64.
Definition rotate (x r : Z) : Z := w64 (x * 2 ^ r) + x / 2 ^ (64 - r).
Definition round (acc lane : Z) : Z := w64 (rotate (w64 (acc + lane * _P64_2)) 31 * _P64_1).
Definition merge (acc v : Z) : Z := w64 (Z.lxor acc (round 0 v) * _P64_1 + _P64_4).
(** [n] pieces of [w] bytes each *)
Fixpoint pieces {S} (n w : nat) (step : S -> bytes -> S) (data : bytes) (s : S) : S :=
  match n with O => s | S n => pieces n w step (drop w data) (step s (take w data)) end.
Definition lane (data : bytes) (i : nat) : Z := int_from_le (take 8 (drop (8 * i) data)).
Definition lanes (v : Z * Z * Z * Z) (data : bytes) : Z * Z * Z * Z :=
  let '(v1, v2, v3, v4) := v in
  (round v1 (lane data 0), round v2 (lane data 1), round v3 (lane data 2), round v4 (lane data 3)).
Definition converge (v : Z * Z * Z * Z) : Z :=
  let '(v1, v2, v3, v4) := v in
  merge (merge (merge (merge (w64 (rotate v1 1 + rotate v2 7 + rotate v3 12 + rotate v4 18)) v1) v2) v3) v4.
Definition word (acc : Z) (data : bytes) : Z :=
  w64 (rotate (Z.lxor acc (round 0 (int_from_le data))) 27 * _P64_1 + _P64_4).
Definition half (acc : Z) (data : bytes) : Z :=
  w64 (rotate (Z.lxor acc (w64 (int_from_le data * _P64_1))) 23 * _P64_2 + _P64_3).
Definition byte (acc b : Z) : Z := w64 (rotate (Z.lxor acc (w64 (b * _P64_5))) 11 * _P64_1).
Definition shake (h : Z) : Z :=
  let h := w64 (Z.lxor h (h / 2 ^ 33) * _P64_2) in
  let h := w64 (Z.lxor h (h / 2 ^ 29) * _P64_3) in
  Z.lxor h (h / 2 ^ 32).
Definition hash (data : bytes) (seed : Z) : Z :=
  let stripes := (length data / 32)%nat in
  let acc := if (32 <=? length data)%nat
             then converge (pieces stripes 32 lanes data
                    (w64 (seed + _P64_1 + _P64_2), w64 (seed + _P64_2), w64 seed, w64 (seed - _P64_1)))
             else w64 (seed + _P64_5) in
  let rest := drop (32 * stripes) data in
  let words := (length rest / 8)%nat in
  let acc := pieces words 8 word rest (w64 (acc + len data)) in
  let rest := drop (8 * words) rest in
  let '(acc, rest) := if (4 <=? length rest)%nat then (half acc (take 4 rest), drop 4 rest) else (acc, rest) in
  shake (foldl byte acc rest).

(** *** The code computes it *)

Definition word64 (x : Z) : Prop := 0 <= x < 2 ^ 64.
Lemma w64_word x : word64 (w64 x).
Proof. apply Z.mod_pos_bound. lia. Qed.
Lemma m64_mod x : m64 x = w64 x.
Proof. unfold m64, w64, _MASK64. change 0xFFFFFFFFFFFFFFFF with (2 ^ 64 - 1). apply land_mask. lia. Qed.
Lemma w64_small x : word64 x -> w64 x = x.
Proof. apply Z.mod_small. Qed.
Lemma rotl_rotate x r : word64 x -> 0 < r < 64 -> _rotl64 x r = rotate x r.
Proof.
  intros [Hx1 Hx2] Hr. unfold _rotl64, rotate, m64, _MASK64. change 0xFFFFFFFFFFFFFFFF with (2 ^ 64 - 1).
  assert (2 ^ 64 = 2 ^ (64 - r) * 2 ^ r) as E by (rewrite <- Z.pow_add_r by lia; f_equal; lia).
  assert (0 <= x / 2 ^ (64 - r) < 2 ^ r) as Hq.
  { split; [apply Z.div_pos; lia|]. apply Z.div_lt_upper_bound; [lia|]. by rewrite <- E. }
  rewrite Z.land_lor_distr_l, !land_mask, Z.shiftl_mul_pow2, Z.shiftr_div_pow2 by lia. unfold w64.
  rewrite (Z.mod_small (x / _)).
  2: { split; [lia|]. eapply Z.lt_le_trans; [apply Hq|]. apply Z.pow_le_mono_r; lia. }
  rewrite E at 1. rewrite Z.mul_mod_distr_r by lia. rewrite <- Z.shiftl_mul_pow2, lor_shiftl_add by lia.
  rewrite E, Z.mul_mod_distr_r by lia. done.
Qed.
Lemma word64_lxor x y : word64 x -> word64 y -> word64 (Z.lxor x y).
Proof. apply lxor_bound. lia. Qed.
Lemma round_same acc x : _xxh64_round acc x = round acc x.
Proof. unfold _xxh64_round, round. by rewrite !m64_mod, rotl_rotate by (apply w64_word || lia). Qed.
Lemma round_word acc x : word64 (round acc x).
Proof. apply w64_word. Qed.
Lemma merge_same acc v : _xxh64_merge acc v = merge acc v.
Proof. unfold _xxh64_merge, merge. by rewrite !m64_mod, round_same. Qed.

(** A loop over an index is one over pieces. *)
Lemma strides_pieces {S} (Inv : S -> Prop) (f : S -> Z -> S) (g : S -> bytes -> S) (data : bytes) (w : nat) :
  (0 < w)%nat ->
  (forall s i, Inv s -> (i + w <= length data)%nat -> f s (Z.of_nat i) = g s (take w (drop i data)) /\ Inv (f s (Z.of_nat i))) ->
  forall fuel i s, Inv s -> ((length data - i) / w <= fuel)%nat ->
  let n := ((length data - i) / w)%nat in
  strides fuel (Z.of_nat w) (len data) f (Z.of_nat i) s = (Z.of_nat (i + w * n), pieces n w g (drop i data) s) /\
  Inv (pieces n w g (drop i data) s).
Proof.
  intros Hw Hf. induction fuel as [|fuel IH]; intros i s Hs Hn n.
  { assert (n = 0%nat) as -> by (unfold n; lia). cbn [strides pieces]. split; [do 2 f_equal; lia|done]. }
  cbn [strides]. destruct (Z.leb_spec (Z.of_nat i + Z.of_nat w) (len data)) as [Hle|Hgt].
  - assert (n = Datatypes.S ((length data - (i + w)) / w)) as Hn1.
    { unfold n. replace (length data - i)%nat with (length data - (i + w) + 1 * w)%nat by lia. rewrite Nat.div_add by lia. lia. }
    destruct (Hf s i Hs ltac:(lia)) as [E Hs']. rewrite <- Nat2Z.inj_add.
    destruct (IH (i + w)%nat (f s (Z.of_nat i)) Hs' ltac:(lia)) as [E2 Hi2]. rewrite E2, Hn1. cbn [pieces].
    rewrite drop_drop, <- E. split; [do 2 f_equal; lia|done].
  - assert (n = 0%nat) as -> by (unfold n; apply Nat.div_small; lia). cbn [pieces]. split; [do 2 f_equal; lia|done].
Qed.

Lemma read_piece (data : bytes) i n m : m = Z.of_nat n -> slice data (Z.of_nat i) (Z.of_nat i + m) = take n (drop i data).
Proof. intros ->. rewrite slice_nonneg by lia. f_equal; [lia|]. by rewrite Nat2Z.id. Qed.
Lemma read64_lane data i j : (i + 32 <= length data)%nat -> (j < 4)%nat ->
  _read64 data (Z.of_nat (i + 8 * j)) = lane (take 32 (drop i data)) j.
Proof.
  intros Hi Hj. unfold _read64, lane. rewrite (read_piece data (i + 8 * j) 8 8) by done.
  rewrite (take_drop_commute (take 32 _)), take_take, Nat.min_l, <- take_drop_commute, drop_drop by lia. done.
Qed.

Definition words64 (v : Z * Z * Z * Z) : Prop :=
  let '(v1, v2, v3, v4) := v in word64 v1 /\ word64 v2 /\ word64 v3 /\ word64 v4.
Lemma stripe_lanes data v i : (i + 32 <= length data)%nat -> stripe data v (Z.of_nat i) = lanes v (take 32 (drop i data)).
Proof.
  intros Hi. destruct v as [[[v1 v2] v3] v4]. unfold stripe, lanes. rewrite !round_same, <- !read64_lane by lia.
  by rewrite Nat.mul_0_r, Nat.add_0_r, !Nat2Z.inj_add.
Qed.
Lemma words64_lanes v l : words64 (lanes v l).
Proof. destruct v as [[[v1 v2] v3] v4]. by split_and!; apply round_word. Qed.
Lemma tail8_word data h i : word64 h -> (i + 8 <= length data)%nat -> tail8 data h (Z.of_nat i) = word h (take 8 (drop i data)).
Proof.
  intros Hh Hi. unfold tail8, word, _read64. rewrite round_same, (read_piece data i 8 8) by done.
  by rewrite rotl_rotate, m64_mod by (apply word64_lxor; [done|apply round_word] || lia).
Qed.
Lemma tail4_half data h i : word64 h -> (i + 4 <= length data)%nat -> tail4 data h (Z.of_nat i) = half h (take 4 (drop i data)).
Proof.
  intros Hh Hi. unfold tail4, half, _read32. rewrite !m64_mod, (read_piece data i 4 4) by done.
  by rewrite rotl_rotate by (apply word64_lxor; [done|apply w64_word] || lia).
Qed.
Lemma tail1_byte data h i : word64 h -> (i + 1 <= length data)%nat ->
  tail1 data h (Z.of_nat i) = byte h (nth 0 (take 1 (drop i data)) 0).
Proof.
  intros Hh Hi. unfold tail1, byte. rewrite !m64_mod, rotl_rotate by (apply word64_lxor; [done|apply w64_word] || lia).
  rewrite Nat2Z.id. do 6 f_equal. destruct (drop i data) as [|x l] eqn:E.
  - apply (f_equal length) in E. rewrite length_drop in E. cbn in E. lia.
  - rewrite <- (take_drop i data) at 1. rewrite app_nth2 by (rewrite length_take; lia).
    rewrite E, length_take, Nat.min_l, Nat.sub_diag by lia. done.
Qed.
Lemma avalanche_shake h : word64 h -> avalanche h = shake h.
Proof.
  intros Hh. unfold avalanche, shake. rewrite !m64_mod, !Z.shiftr_div_pow2 by lia. apply w64_small.
  set (x := w64 _). assert (word64 x) as Hx by apply w64_word. apply word64_lxor; [done|]. destruct Hx. split.
  - apply Z.div_pos; lia.
  - apply Z.div_lt_upper_bound; lia.
Qed.
Lemma pieces_bytes l s : pieces (length l) 1 (fun s l => byte s (nth 0 l 0)) l s = foldl byte s l.
Proof. revert s. induction l as [|x l IH]; intros s; [done|]. cbn [length pieces]. apply IH. Qed.
Lemma merge_word acc v : word64 (merge acc v).
Proof. apply w64_word. Qed.

(** The phases of [_xxh64]: the stripes, the bytes at the end. *)
Lemma stripes_phase data seed :
  let k := (length data / 32)%nat in
  let v0 := (w64 (seed + _P64_1 + _P64_2), w64 (seed + _P64_2), w64 seed, w64 (seed - _P64_1)) in
  exists h, word64 h /\
    (if 32 <=? len data then
       let '(idx, (v1, v2, v3, v4)) := strides (length data) 32 (len data) (stripe data) 0 v0 in
       (idx, _xxh64_merge (_xxh64_merge (_xxh64_merge (_xxh64_merge
          (m64 (_rotl64 v1 1 + _rotl64 v2 7 + _rotl64 v3 12 + _rotl64 v4 18)) v1) v2) v3) v4)
     else (0, w64 (seed + _P64_5))) = (Z.of_nat (32 * k), h) /\
    (if (32 <=? length data)%nat then converge (pieces k 32 lanes data v0) else w64 (seed + _P64_5)) = h.
Proof.
  intros k v0. destruct (Z.leb_spec 32 (len data)) as [Hle|Hlt].
  2: { rewrite (proj2 (Nat.leb_gt _ _)) by lia. exists (w64 (seed + _P64_5)). split; [apply w64_word|].
    assert (k = 0%nat) as -> by (apply Nat.div_small; lia). done. }
  rewrite (proj2 (Nat.leb_le _ _)) by lia.
  destruct (strides_pieces words64 (stripe data) lanes data 32 ltac:(lia)) with (fuel := length data) (i := 0%nat) (s := v0) as [E Hv].
  - intros v i Hv Hi. rewrite stripe_lanes by done. split; [done|apply words64_lanes].
  - by split_and!; apply w64_word.
  - rewrite Nat.sub_0_r. apply Nat.Div0.div_le_upper_bound; lia.
  - rewrite Nat.sub_0_r, drop_0 in E, Hv. change (Z.of_nat 0) with 0 in E. change (Z.of_nat 32) with 32 in E.
    fold k in E, Hv |- *. rewrite E. destruct (pieces k 32 lanes data v0) as [[[v1 v2] v3] v4].
    destruct Hv as (H1 & H2 & H3 & H4). eexists. split; [|split; [reflexivity|]]; unfold converge.
    + rewrite merge_same. apply merge_word.
    + by rewrite !merge_same, m64_mod, !rotl_rotate by (done || lia).
Qed.
Lemma foldl_byte_word l y : word64 y -> word64 (foldl byte y l).
Proof. revert y. induction l as [|b l IH]; intros y Hy; [done|]. apply IH, w64_word. Qed.
Lemma bytes_phase data q y : word64 y -> (q <= length data)%nat ->
  (let '(_, h64) := strides (length data) 1 (len data) (tail1 data) (Z.of_nat q) y in avalanche h64) =
  shake (foldl byte y (drop q data)).
Proof.
  intros Hy Hq. destruct (strides_pieces word64 (tail1 data) (fun s l => byte s (nth 0 l 0)) data 1 ltac:(lia))
    with (fuel := length data) (i := q) (s := y) as [E _].
  - intros z i Hz Hi. rewrite tail1_byte by done. split; [done|apply w64_word].
  - done.
  - rewrite Nat.div_1_r. lia.
  - change (Z.of_nat 1) with 1 in E. rewrite E, Nat.div_1_r, <- length_drop, pieces_bytes.
    by apply avalanche_shake, foldl_byte_word.
Qed.

Lemma xxh64_hash data seed : _xxh64 data seed = hash data seed.
Proof.
  unfold _xxh64, hash. cbv zeta. rewrite !m64_mod. destruct (stripes_phase data seed) as (h & Hh & E1 & E2).
  rewrite E1, E2. clear E1 E2. cbv beta iota. rewrite (m64_mod (h + _)). set (k := (length data / 32)%nat).
  assert (32 * k <= length data)%nat as Hk by (apply Nat.Div0.mul_div_le; lia).
  assert (length (drop (32 * k) data) = length data - 32 * k)%nat as Hrest by (apply length_drop).
  set (rest := drop (32 * k) data) in *.
  (* the words *)
  destruct (strides_pieces word64 (tail8 data) word data 8 ltac:(lia)) with (fuel := length data) (i := (32 * k)%nat)
    (s := w64 (h + len data)) as [E Hw].
  { intros x i Hx Hi. rewrite tail8_word by done. split; [done|apply w64_word]. }
  { apply w64_word. }
  { apply Nat.Div0.div_le_upper_bound; lia. }
  change (Z.of_nat 8) with 8 in E. rewrite E. clear E. cbv beta iota. rewrite Hrest.
  set (j := ((length data - 32 * k) / 8)%nat) in *. fold rest in Hw |- *. set (x := pieces j 8 word rest _) in *.
  assert (8 * j <= length data - 32 * k)%nat as Hj by (apply Nat.Div0.mul_div_le; lia).
  assert (drop (8 * j) rest = drop (32 * k + 8 * j) data) as -> by (unfold rest; by rewrite drop_drop).
  set (p := (32 * k + 8 * j)%nat) in *. rewrite length_drop.
  (* the half word and the bytes *)
  destruct (Z.leb_spec (Z.of_nat p + 4) (len data)) as [H4|H4].
  - rewrite (proj2 (Nat.leb_le 4 _)) by lia. rewrite tail4_half by (done || lia).
    replace (Z.of_nat p + 4) with (Z.of_nat (p + 4)) by lia. rewrite bytes_phase by (apply w64_word || lia).
    by rewrite drop_drop.
  - rewrite (proj2 (Nat.leb_gt 4 _)) by lia. apply bytes_phase; [done|unfold p; lia].
Qed.
End Xxh64.

(** ** Writing a frame of stored blocks *)

Definition le_fixed (n : nat) (v : Z) : bytes := reverse (be_digits 256 n v).
Lemma length_le_fixed n v : length (le_fixed n v) = n.
Proof. unfold le_fixed. by rewrite length_reverse, length_be_digits. Qed.
Lemma int_from_le_fixed n v : 0 <= v < 256 ^ Z.of_nat n -> int_from_le (le_fixed n v) = v.
Proof. intros H. unfold int_from_le, le_fixed. rewrite le_val_reverse. by apply be_val_digits; [lia|]. Qed.

(** A raw block, and one byte repeated. *)
Inductive stored := Raw (l : bytes) | Rle (b n : Z).
Definition content_of (blk : stored) : bytes :=
  match blk with Raw l => l | Rle b n => replicate (Z.to_nat n) b end.
Definition block_header (last_ ty size : Z) : bytes := le_fixed 3 (last_ + 2 * ty + 8 * size).
Definition block_bytes (last_ : Z) (blk : stored) : bytes :=
  match blk with
  | Raw l => block_header last_ 0 (len l) ++ l
  | Rle b n => block_header last_ 1 n ++ [b]
  end.
Definition stored_ok (blk : stored) : Prop :=
  match blk with Raw l => len l < 2 ^ 21 | Rle _ n => 0 <= n < 2 ^ 21 end.

Fixpoint blocks_bytes (blks : list stored) : bytes :=
  match blks with
  | [] => []
  | [blk] => block_bytes 1 blk
  | blk :: blks => block_bytes 0 blk ++ blocks_bytes blks
  end.
(** A frame's header in any of its forms: the window descriptor, or the flag of a single
    segment without one; a dictionary id of 0, in none to four bytes; the size of the content,
    which the decoder does not look at, in none to eight bytes; and whether a checksum follows
    the blocks. *)
Record header := mkHeader {
  h_checksum : bool; h_single_segment : bool; h_window : Z; h_dict_id_flag : Z; h_fcs_flag : Z; h_content_size : bytes;
}.
Definition dict_id_bytes (flag : Z) : nat := if flag =? 0 then 0 else if flag =? 1 then 1 else if flag =? 2 then 2 else 4.
Definition fcs_bytes (single : bool) (flag : Z) : nat :=
  if flag =? 0 then (if single then 1 else 0) else if flag =? 1 then 2 else if flag =? 2 then 4 else 8.
Definition header_ok (h : header) : Prop :=
  0 <= h_dict_id_flag h < 4 /\ 0 <= h_fcs_flag h < 4 /\
  length (h_content_size h) = fcs_bytes (h_single_segment h) (h_fcs_flag h).
Definition descriptor (h : header) : Z :=
  h_dict_id_flag h + 4 * Z.b2z (h_checksum h) + 32 * Z.b2z (h_single_segment h) + 64 * h_fcs_flag h.
Definition header_bytes (h : header) : bytes :=
  [0x28; 0xB5; 0x2F; 0xFD; descriptor h] ++ (if h_single_segment h then [] else [h_window h]) ++
  replicate (dict_id_bytes (h_dict_id_flag h)) 0 ++ h_content_size h.
(** With a checksum, the low half of the XXH64 hash behind the blocks. *)
Definition frame_end (checksum : bool) (content : bytes) : bytes :=
  if checksum then le_fixed 4 (Xxh64.hash content 0 `mod` 2 ^ 32) else [].
Definition stored_frame (h : header) (blks : list stored) : bytes :=
  header_bytes h ++ blocks_bytes blks ++ frame_end (h_checksum h) (mjoin (content_of <$> blks)).
(** The shortest header. *)
Definition plain (checksum : bool) (window : Z) : header := mkHeader checksum false window 0 0 [].

(** ** Reading it *)

Lemma py_get_middle {A} (pre : list A) x post i : i = len pre -> py_get (pre ++ x :: post) i = Ok x.
Proof. intros ->. apply py_get_nat. by rewrite lookup_app_r, Nat.sub_diag by lia. Qed.

Lemma header_fields last_ ty size :
  0 <= last_ < 2 -> 0 <= ty < 4 ->
  let h := last_ + 2 * ty + 8 * size in
  Z.land h 1 = last_ /\ Z.land (Z.shiftr h 1) 3 = ty /\ Z.shiftr h 3 = size.
Proof.
  intros Hl Ht h. unfold h. rewrite !Z.shiftr_div_pow2 by lia. change 1 with (2 ^ 1 - 1) at 1. change 3 with (2 ^ 2 - 1) at 1.
  rewrite !land_mask by lia. change (2 ^ 1) with 2. change (2 ^ 2) with 4. change (2 ^ 3) with 8.
  split_and!; Z.div_mod_to_equations; lia.
Qed.

(** The three bytes of a header, read back. *)
Lemma read_header (data pre post : bytes) h :
  data = pre ++ le_fixed 3 h ++ post -> 0 <= h < 2 ^ 24 ->
  exists d0 d1 d2, py_get data (len pre) = Ok d0 /\ py_get data (len pre + 1) = Ok d1 /\
    py_get data (len pre + 2) = Ok d2 /\ Z.lor (Z.lor d0 (Z.shiftl d1 8)) (Z.shiftl d2 16) = h.
Proof.
  intros -> Hh. exists (h `mod` 256), ((h / 256) `mod` 256), ((h / 65536) `mod` 256).
  assert (le_fixed 3 h = [h `mod` 256; (h / 256) `mod` 256; (h / 65536) `mod` 256]) as ->.
  { unfold le_fixed. cbn [be_digits]. by rewrite Z.div_1_r. }
  cbn [app]. split; [by apply py_get_middle|]. split.
  { rewrite cons_middle, app_assoc. apply py_get_middle. rewrite length_app. cbn. lia. }
  split. { rewrite cons_middle, (cons_middle _ [_]), !app_assoc. apply py_get_middle. rewrite !length_app. cbn. lia. }
  rewrite (Z.lor_comm (h `mod` 256)), lor_shiftl_add.
  - rewrite Z.lor_comm, lor_shiftl_add; [|lia|].
    + change (2 ^ 8) with 256. change (2 ^ 16) with 65536. change (2 ^ 24) with 16777216 in Hh.
      Z.div_mod_to_equations; lia.
    + change (2 ^ 8) with 256. change (2 ^ 16) with 65536. Z.div_mod_to_equations; lia.
  - lia.
  - change (2 ^ 8) with 256. apply Z.mod_pos_bound. lia.
Qed.

Section blocks.
Context (fuel : nat).

Definition advance (st : block_state) (n : Z) (content : bytes) : block_state :=
  BlockState (bs_pos st + n) (bs_out st ++ content) (prev_huffman st) (prev_seq_tables st) (bs_repeat_offsets st).

Lemma block_header_step data pre post st last_ ty size :
  data = pre ++ block_header last_ ty size ++ post -> bs_pos st = len pre ->
  0 <= last_ < 2 -> 0 <= ty < 2 -> 0 <= size < 2 ^ 21 ->
  block_step fuel data st
    = (if ty =? 0 then Ok (advance st (3 + size) (slice_to post size), negb (last_ =? 0))
       else b ← py_get data (len pre + 3); Ok (advance st 4 (replicate (Z.to_nat size) b), negb (last_ =? 0))).
Proof.
  intros Hdata Hpos Hl Ht Hs. change (2 ^ 21) with 2097152 in Hs. unfold block_header in Hdata.
  set (h := last_ + 2 * ty + 8 * size) in *.
  assert (0 <= h < 2 ^ 24) as Hh by (change (2 ^ 24) with 16777216; unfold h; lia).
  destruct (read_header data pre post h Hdata Hh) as (d0 & d1 & d2 & E0 & E1 & E2 & Eh).
  destruct (header_fields last_ ty size Hl ltac:(lia)) as (F1 & F2 & F3). fold h in F1, F2, F3.
  unfold block_step. rewrite Hpos, (proj2 (Z.ltb_ge _ _)).
  2: { rewrite Hdata, !length_app, length_le_fixed. lia. }
  cbn [raise_if]. rewrite bind_Ok, E0, E1, E2, !bind_Ok. cbv zeta. rewrite Eh, F1, F2, F3.
  unfold advance. rewrite Hpos. destruct (Z.eqb_spec ty 0) as [->|].
  - do 3 f_equal; [lia|]. f_equal. rewrite Hdata, slice_nonneg, slice_to_nonneg by lia.
    rewrite app_assoc, drop_app_ge by (rewrite length_app, length_le_fixed; lia).
    rewrite length_app, length_le_fixed. f_equal; [lia|].
    replace (Z.to_nat (len pre + 3) - (length pre + 3))%nat with 0%nat by lia. apply drop_0.
  - assert (ty = 1) as -> by lia. cbn [Z.eqb Pos.eqb].
    destruct (py_get data (len pre + 3)); cbn [mbind res_bind]; [|done]. do 3 f_equal. lia.
Qed.

Lemma stored_step data pre blk post st last_ :
  data = pre ++ block_bytes last_ blk ++ post -> bs_pos st = len pre -> 0 <= last_ < 2 -> stored_ok blk ->
  block_step fuel data st
    = Ok (advance st (len (block_bytes last_ blk)) (content_of blk), negb (last_ =? 0)).
Proof.
  intros Hdata Hpos Hl Hok. destruct blk as [l|b n]; cbn [block_bytes content_of stored_ok] in *.
  - rewrite <- app_assoc in Hdata. rewrite (block_header_step data pre (l ++ post) st last_ 0 (len l)) by (done || lia).
    cbn [Z.eqb]. rewrite slice_to_app by done. unfold block_header. rewrite length_app, length_le_fixed.
    do 3 f_equal. lia.
  - rewrite <- app_assoc in Hdata. rewrite (block_header_step data pre ([b] ++ post) st last_ 1 n) by (done || lia).
    cbn [Z.eqb]. rewrite Hdata, app_assoc. cbn [app]. rewrite py_get_middle, bind_Ok.
    + unfold block_header. rewrite length_app, length_le_fixed. done.
    + unfold block_header. rewrite length_app, length_le_fixed. lia.
Qed.

Lemma advance_advance st n1 n2 l1 l2 :
  advance (advance st n1 l1) n2 l2 = advance st (n1 + n2) (l1 ++ l2).
Proof. unfold advance. cbn. by rewrite Z.add_assoc, app_assoc. Qed.

Lemma stored_blocks turns data pre blks post st :
  blks <> [] -> Forall stored_ok blks -> (length blks <= turns)%nat ->
  data = pre ++ blocks_bytes blks ++ post -> bs_pos st = len pre ->
  block_loop fuel turns data st = Ok (advance st (len (blocks_bytes blks)) (mjoin (content_of <$> blks))).
Proof.
  revert pre blks st. induction turns as [|turns IH]; intros pre blks st Hne Hok Hn Hdata Hpos;
    destruct blks as [|blk blks]; [done|cbn in Hn; lia|done|].
  apply Forall_cons in Hok as [Hblk Hok]. cbn [block_loop]. destruct blks as [|blk' blks].
  - cbn [blocks_bytes] in *. rewrite (stored_step data pre blk post st 1), bind_Ok by (done || lia).
    csimpl. by rewrite app_nil_r.
  - change (blocks_bytes (blk :: blk' :: blks)) with (block_bytes 0 blk ++ blocks_bytes (blk' :: blks)) in *.
    rewrite <- app_assoc in Hdata.
    rewrite (stored_step data pre blk _ st 0 Hdata Hpos), bind_Ok by (done || lia). cbn [Z.eqb negb].
    rewrite (IH (pre ++ block_bytes 0 blk) (blk' :: blks)).
    + rewrite advance_advance, length_app, Nat2Z.inj_add. done.
    + done.
    + done.
    + cbn in Hn |- *. lia.
    + by rewrite <- app_assoc.
    + cbn. rewrite length_app. lia.
Qed.
End blocks.

Lemma cases4 x : 0 <= x < 4 -> x = 0 \/ x = 1 \/ x = 2 \/ x = 3.
Proof. lia. Qed.
Lemma header_read h rest : header_ok h -> frame_header (header_bytes h ++ rest) = Ok (len (header_bytes h), h_checksum h).
Proof.
  intros (Hd%cases4 & Hf%cases4 & Hl). set (data := header_bytes h ++ rest). unfold frame_header.
  rewrite (proj2 (Z.ltb_ge (len data) 5)) by (unfold data, header_bytes; rewrite !length_app; cbn [length]; lia).
  cbn [raise_if]. rewrite bind_Ok, (slice_nonneg data 0 4), drop_0 by lia.
  change (take (Z.to_nat (4 - 0)) data) with [0x28; 0xB5; 0x2F; 0xFD].
  change (int_from_le [0x28; 0xB5; 0x2F; 0xFD]) with _MAGIC. rewrite Z.eqb_refl. cbn [negb raise_if]. rewrite bind_Ok.
  rewrite (py_get_Some data 4 (descriptor h)) by done. rewrite bind_Ok. unfold data, header_bytes.
  rewrite !length_app, Hl, length_replicate, slice_nonneg by (repeat case_match; lia).
  destruct h as [checksum single window dict fcs size]. unfold descriptor.
  cbn [h_checksum h_single_segment h_window h_dict_id_flag h_fcs_flag h_content_size] in *.
  destruct Hd as [->|[->|[->| ->]]], Hf as [->|[->|[->| ->]]], single, checksum; reflexivity.
Qed.

Lemma length_blocks_bytes blks : (length blks <= length (blocks_bytes blks))%nat.
Proof.
  induction blks as [|blk blks IH]; [done|].
  assert (forall l, 1 <= length (block_bytes l blk))%nat as Hb.
  { intros l. destruct blk; cbn [block_bytes]; unfold block_header; rewrite length_app, length_le_fixed; lia. }
  destruct blks as [|blk' blks]; [apply Hb|].
  change (blocks_bytes (blk :: blk' :: blks)) with (block_bytes 0 blk ++ blocks_bytes (blk' :: blks)).
  rewrite length_app. cbn [length] in *. specialize (Hb 0). lia.
Qed.

Lemma stored_frame_decode fuel h blks tail :
  header_ok h -> blks <> [] -> Forall stored_ok blks ->
  let content := mjoin (content_of <$> blks) in
  _decompress_frame fuel (header_bytes h ++ blocks_bytes blks ++ tail)
    = if h_checksum h then
        if len tail <? 4 then Err ZstdError
        else if Xxh64.hash content 0 `mod` 2 ^ 32 =? int_from_le (slice_to tail 4) then Ok content else Err ZstdError
      else Ok content.
Proof.
  intros Hh Hne Hok content. unfold _decompress_frame. rewrite header_read, bind_Ok by done.
  set (pre := header_bytes h). set (data := pre ++ blocks_bytes blks ++ tail).
  assert (len data = len pre + len (blocks_bytes blks) + len tail) as Hlen by (unfold data; rewrite !length_app; lia).
  rewrite (stored_blocks fuel (S (length data)) data pre blks tail _ Hne Hok);
    [|pose proof (length_blocks_bytes blks); lia|done|done]. rewrite bind_Ok.
  fold content. cbn [advance bs_pos bs_out app]. destruct (h_checksum h); [|done].
  replace (len data <? len pre + len (blocks_bytes blks) + 4) with (len tail <? 4)
    by (destruct (Z.ltb_spec (len tail) 4), (Z.ltb_spec (len data) (len pre + len (blocks_bytes blks) + 4)); lia).
  destruct (Z.ltb_spec (len tail) 4); cbn [raise_if]; [done|]. rewrite bind_Ok.
  change 0xFFFFFFFF with (2 ^ 32 - 1). rewrite land_mask, Xxh64.xxh64_hash by lia.
  rewrite slice_nonneg, slice_to_nonneg by lia. unfold data. rewrite app_assoc, drop_app_ge by (rewrite length_app; lia).
  rewrite length_app. replace (Z.to_nat (len pre + len (blocks_bytes blks)) - (length pre + length (blocks_bytes blks)))%nat with 0%nat by lia.
  rewrite drop_0. replace (len pre + len (blocks_bytes blks) + 4 - (len pre + len (blocks_bytes blks))) with 4 by lia.
  by destruct (_ =? _).
Qed.

(** C35.  A frame of raw and repeated blocks, with a header in any of the format's forms that
    names no dictionary, and with or without the checksum that the XXH64 specification gives,
    is decompressed to the content of its blocks, unless the content exceeds the limit;
    bytes behind the frame are ignored. *)
Theorem stored_frame_roundtrip fuel h blks tail limit :
  header_ok h -> blks <> [] -> Forall stored_ok blks -> 0 <= limit ->
  let content := mjoin (content_of <$> blks) in
  decompress fuel (stored_frame h blks ++ tail) limit
    = if (0 <? limit) && (limit <? len content) then Err ZstdError else Ok content.
Proof.
  intros Hh Hne Hok Hlim content. unfold decompress, stored_frame. rewrite <- !app_assoc.
  rewrite stored_frame_decode by done. fold content.
  assert ((if h_checksum h then
        if len (frame_end (h_checksum h) content ++ tail) <? 4 then Err ZstdError
        else if Xxh64.hash content 0 `mod` 2 ^ 32 =? int_from_le (slice_to (frame_end (h_checksum h) content ++ tail) 4)
             then Ok content else Err ZstdError
      else Ok content) = Ok content) as ->.
  { destruct (h_checksum h); [|done]. unfold frame_end.
    rewrite length_app, length_le_fixed, (proj2 (Z.ltb_ge _ _)) by lia.
    rewrite slice_to_app by (by rewrite length_le_fixed).
    rewrite int_from_le_fixed by (apply Z.mod_pos_bound; lia). by rewrite Z.eqb_refl. }
  rewrite bind_Ok. destruct (Z.eqb_spec limit 0) as [->|]; [done|].
  rewrite (proj2 (Z.ltb_lt 0 limit)) by lia. cbn [negb andb]. by destruct (limit <? len content).
Qed.
(** A single segment with a content size of two bytes and a dictionary id of one. *)
Lemma stored_frame_roundtrip_witness :
  let blks := [Raw [104; 105]; Rle 33 3] in
  let h := mkHeader true true 0 1 1 [5; 0] in
  header_ok h /\ blks <> [] /\ Forall stored_ok blks /\
  decompress 0 (stored_frame h blks ++ [7]) 5
    = (if (0 <? 5) && (5 <? len (mjoin (content_of <$> blks))) then Err ZstdError
       else Ok (mjoin (content_of <$> blks))) /\
  mjoin (content_of <$> blks) = [104; 105; 33; 33; 33].
Proof.
  intros blks h. assert (header_ok h) as Hh by (repeat split; cbn; lia). assert (blks <> []) as Hne by done.
  assert (Forall stored_ok blks) as Hok by (repeat constructor; cbn; lia).
  split; [exact Hh|]. split; [exact Hne|]. split; [exact Hok|]. split; [|reflexivity].
  exact (stored_frame_roundtrip 0 h blks [7] 5 Hh Hne Hok ltac:(lia)).
Defined.

(** ** Frames that are not refused *)

(** The last raw block of a frame may be cut anywhere: what is left of it is
    returned. *)
Lemma truncated_raw_block fuel window l k :
  len l < 2 ^ 21 ->
  _decompress_frame fuel (header_bytes (plain false window) ++ block_header 1 0 (len l) ++ take k l) = Ok (take k l).
Proof.
  intros Hl. unfold _decompress_frame. rewrite header_read, bind_Ok by (repeat split; cbn; lia). cbn [block_loop].
  set (pre := header_bytes (plain false window)).
  rewrite (block_header_step fuel _ pre (take k l) _ 1 0 (len l)) by (done || lia).
  cbn [Z.eqb negb mbind res_bind advance bs_out app]. rewrite slice_to_nonneg, take_ge by (rewrite ?length_take; lia). done.
Qed.

(** A frame without checksum whose only block is raw is returned short, and not
    refused, when its end is missing. *)
Theorem truncated_frame_accepted fuel window l k limit :
  len l < 2 ^ 21 -> limit = 0 \/ len l <= limit -> Z.of_nat k <= len l ->
  decompress fuel (take (9 + k) (stored_frame (plain false window) [Raw l])) limit = Ok (take k l).
Proof.
  intros Hl Hlim Hk. unfold stored_frame, frame_end. cbn [blocks_bytes block_bytes]. rewrite app_nil_r.
  assert (length (header_bytes (plain false window) ++ block_header 1 0 (len l)) = 9)%nat as H9.
  { unfold block_header. by rewrite length_app, length_le_fixed. }
  rewrite app_assoc, take_app_ge, H9 by lia. replace (9 + k - 9)%nat with k by lia.
  rewrite <- app_assoc. unfold decompress. rewrite truncated_raw_block, bind_Ok by done.
  rewrite length_take. destruct (Z.eqb_spec limit 0) as [->|]; [done|].
  rewrite (proj2 (Z.ltb_ge _ _)) by lia. done.
Qed.
Lemma truncated_frame_accepted_witness :
  len [1; 2; 3; 4; 5] < 2 ^ 21 /\ Z.of_nat 2 <= len [1; 2; 3; 4; 5] /\
  decompress 0 (take (9 + 2) (stored_frame (plain false 88) [Raw [1; 2; 3; 4; 5]])) 0 = Ok (take 2 [1; 2; 3; 4; 5]).
Proof.
  split; [cbn; lia|]. split; [cbn; lia|].
  exact (truncated_frame_accepted 0 88 [1; 2; 3; 4; 5] 2 0 ltac:(cbn; lia) ltac:(left; reflexivity) ltac:(cbn; lia)).
Defined.

Lemma stuck_block_decode fuel prev : _decode_literals fuel stuck_block prev = Err OutOfFuel.
Proof.
  pose proof (stuck_weights_decode fuel) as H. unfold stuck_weights in H.
  lazy -[_fse_decode_weight_stream]. rewrite H. reflexivity.
Qed.
Lemma stuck_block_step fuel st : bs_pos st = 6 -> block_step fuel stuck_frame st = Err OutOfFuel.
Proof.
  intros Hpos. unfold block_step. rewrite Hpos.
  change (py_get stuck_frame 6) with (Ok 93). change (py_get stuck_frame (6 + 1)) with (Ok 0).
  change (py_get stuck_frame (6 + 2)) with (Ok 0). rewrite !bind_Ok.
  change (slice stuck_frame (6 + 3) _) with stuck_block. cbn -[_decode_literals stuck_block].
  by rewrite stuck_block_decode.
Qed.

(** C36.  Decompressing [stuck_frame], 20 bytes, never ends: whatever the fuel, it is
    used up. *)
Theorem stuck_frame_hangs fuel limit : decompress fuel stuck_frame limit = Err OutOfFuel.
Proof.
  unfold decompress, _decompress_frame. change (frame_header stuck_frame) with (Ok (6, false)).
  rewrite bind_Ok. cbn [block_loop]. by rewrite stuck_block_step.
Qed.

(** A frame that libzstd decodes to 80 bytes; its weights sum to a power of two. *)
Definition half_code_frame : bytes :=
  [40; 181; 47; 253; 32; 80; 157; 0; 0; 2; 197; 3; 129; 17; 84; 190; 117; 181; 157; 254; 219; 206; 191; 63;
   253; 242; 255; 0].
Example half_code_frame_refused : decompress 1000 half_code_frame 0 = Err ZstdError.
Proof. vm_compute. reflexivity. Qed.

(** A malformed frame whose error is not [ZstdError]: the byte of a repeated block is
    missing. *)
Example rle_block_truncated : decompress 0 [0x28; 0xB5; 0x2F; 0xFD; 0; 88; 27; 0; 0] 0 = Err IndexError.
Proof. vm_compute. reflexivity. Qed.
