(* ===== verification/PyText.v ===== *)
(** * More of Python's text: separators, replacement, decimal numbers

    [s.split(sep)] for a one-character separator, [s.replace(old, new)],
    [s.strip()], [str(n)], [f"{n:0{w}d}"] and [int(s)], on ASCII text. *)

From Stdlib Require Import Ascii.
From S2P Require Import Prelude PyString.

#[local] Open Scope string_scope.
#[local] Open Scope Z_scope.

(** [s.split(sep)]: unlike [s.split()] it keeps empty parts. *)
Fixpoint split_on (sep : ascii) (s : string) : list string :=
  match s with
  | EmptyString => [EmptyString]
  | String c s =>
      if Ascii.eqb c sep then EmptyString :: split_on sep s
      else match split_on sep s with
           | p :: ps => String c p :: ps
           | [] => [String c EmptyString]
           end
  end.

(** [s.replace(old, new)] for an [old] that is not empty: [skip] counts the
    characters of a replaced occurrence still to be dropped. *)
Fixpoint replace_from (old new : string) (skip : nat) (s : string) : string :=
  match s with
  | EmptyString => EmptyString
  | String c s' =>
      match skip with
      | S k => replace_from old new k s'
      | O => if String.prefix old s
             then new ++ replace_from old new (String.length old - 1) s'
             else String c (replace_from old new O s')
      end
  end.
Definition str_replace (old new s : string) : string := replace_from old new O s.

(** [s.lstrip()], [s.strip()] and [old in s] *)
Fixpoint lstrip (s : string) : string :=
  match s with
  | String c s' => if is_space c then lstrip s' else s
  | EmptyString => EmptyString
  end.
Definition strip (s : string) : string :=
  rev_string (lstrip (rev_string (lstrip s) EmptyString)) EmptyString.
Fixpoint contains (sub s : string) : bool :=
  String.prefix sub s || match s with EmptyString => false | String _ s' => contains sub s' end.

(** ** Decimal numbers *)

Definition digit_char (d : Z) : ascii := ascii_of_N (Z.to_N (48 + d)).
Definition is_digit (c : ascii) : bool := (48 <=? code c) && (code c <=? 57).

(** The decimal digits of [n >= 0]; one digit per unit of fuel. *)
Fixpoint digits_fuel (fuel : nat) (n : Z) (acc : string) : string :=
  let acc := String (digit_char (n `mod` 10)) acc in
  match fuel with
  | O => acc
  | S fuel => if n <? 10 then acc else digits_fuel fuel (n / 10) acc
  end.
Definition dec_digits (n : Z) : string := digits_fuel (Z.to_nat (Z.log2 n)) n EmptyString.
Definition str_of_int (n : Z) : string :=
  if n <? 0 then "-" ++ dec_digits (- n) else dec_digits n.

Fixpoint zeros (n : nat) : string :=
  match n with O => EmptyString | S n => String "0" (zeros n) end.
(** [f"{n:0{width}d}"]: zeros between the sign and the digits. *)
Definition format_0d (width n : Z) : string :=
  let pad s w := zeros (Z.to_nat (w - str_len s)) ++ s in
  if n <? 0 then "-" ++ pad (dec_digits (- n)) (width - 1) else pad (dec_digits n) width.

(** [int(s)]: white space around, a sign, digits with single underscores
    between them; more than 4300 digits are refused. *)
Fixpoint parse_digits (v : Z) (after_digit : bool) (s : string) : option Z :=
  match s with
  | EmptyString => if after_digit then Some v else None
  | String c s =>
      if is_digit c then parse_digits (v * 10 + (code c - 48)) true s
      else if Ascii.eqb c "_" && after_digit then parse_digits v false s
      else None
  end.
Fixpoint count_digits (s : string) : Z :=
  match s with
  | EmptyString => 0
  | String c s => (if is_digit c then 1 else 0) + count_digits s
  end.
Definition py_int (s : string) : res Z :=
  let s := strip s in
  let signed sign body :=
    match parse_digits 0 false body with
    | Some v => if 4300 <? count_digits body then Err ValueError else Ok (sign * v)
    | None => Err ValueError
    end in
  match s with
  | String c body =>
      if Ascii.eqb c "-" then signed (-1) body
      else if Ascii.eqb c "+" then signed 1 body else signed 1 s
  | EmptyString => Err ValueError
  end.

(** ** Lemmas *)

Fixpoint all_chars (p : ascii -> bool) (s : string) : bool :=
  match s with EmptyString => true | String c s => p c && all_chars p s end.
Definition lacks (sep : ascii) (s : string) : bool := all_chars (fun c => negb (Ascii.eqb c sep)) s.

Lemma all_chars_app p a b : all_chars p (a ++ b) = all_chars p a && all_chars p b.
Proof. induction a as [|c a IH]; [done|]. simpl. by rewrite IH, andb_assoc. Qed.
Lemma all_chars_impl (p q : ascii -> bool) s :
  (forall c, p c = true -> q c = true) -> all_chars p s = true -> all_chars q s = true.
Proof.
  intros Hpq. induction s as [|c s IH]; [done|]. simpl.
  intros [Hc Hs]%andb_prop. by rewrite Hpq, IH.
Qed.
Lemma all_chars_rev p s acc : all_chars p (rev_string s acc) = all_chars p s && all_chars p acc.
Proof.
  revert acc. induction s as [|c s IH]; intros acc; [done|]. simpl. rewrite IH. simpl.
  destruct (p c), (all_chars p s), (all_chars p acc); done.
Qed.
Lemma length_string_app a b : str_len (a ++ b) = str_len a + str_len b.
Proof.
  unfold str_len. induction a as [|c a IH]; [done|].
  change (String c a ++ b) with (String c (a ++ b)). cbn [String.length]. lia.
Qed.

Section split.
Context (sep : ascii).

Lemma split_on_lacks s : lacks sep s = true -> split_on sep s = [s].
Proof.
  induction s as [|c s IH]; [done|]. unfold lacks. simpl. intros [Hc Hs]%andb_prop.
  rewrite (proj1 (negb_true_iff _) Hc). by rewrite IH.
Qed.
Lemma split_on_not_nil s : split_on sep s <> [].
Proof. destruct s as [|c s]; [done|]. simpl. destruct (Ascii.eqb _ _), (split_on sep s); done. Qed.

(** Splitting after the first separator. *)
Lemma split_on_cons a b :
  lacks sep a = true -> split_on sep (a ++ String sep b) = a :: split_on sep b.
Proof.
  induction a as [|c a IH]; intros H.
  - change ("" ++ String sep b) with (String sep b). simpl. by rewrite Ascii.eqb_refl.
  - change (String c a ++ String sep b) with (String c (a ++ String sep b)).
    unfold lacks in H. simpl in H. apply andb_prop in H as [Hc Ha].
    simpl. rewrite (proj1 (negb_true_iff _) Hc). by rewrite IH.
Qed.
(** Splitting around any separator. *)
Lemma split_on_app a b : split_on sep (a ++ String sep b) = (split_on sep a ++ split_on sep b)%list.
Proof.
  induction a as [|c a IH].
  - change ("" ++ String sep b) with (String sep b). simpl. by rewrite Ascii.eqb_refl.
  - change (String c a ++ String sep b) with (String c (a ++ String sep b)). simpl.
    rewrite IH. destruct (Ascii.eqb c sep); [done|].
    pose proof (split_on_not_nil a). destruct (split_on sep a); done.
Qed.
Lemma split_on_first_lacks s : exists p ps, split_on sep s = p :: ps /\ lacks sep p = true.
Proof.
  induction s as [|c s IH]; [by eexists _, _|]. simpl. destruct (Ascii.eqb c sep) eqn:E.
  - by eexists _, _.
  - destruct IH as (p & ps & -> & Hp). eexists _, _. split; [done|].
    unfold lacks in *. simpl. by rewrite E, Hp.
Qed.
End split.

Section digits.

Lemma code_digit d : 0 <= d < 10 -> code (digit_char d) = 48 + d.
Proof.
  intros Hd. unfold code, digit_char. rewrite N_ascii_embedding by lia. lia.
Qed.
Lemma is_digit_char d : 0 <= d < 10 -> is_digit (digit_char d) = true.
Proof. intros Hd. unfold is_digit. rewrite code_digit by done. apply andb_true_intro; lia. Qed.

Lemma digits_fuel_all fuel n acc :
  all_chars is_digit acc = true -> all_chars is_digit (digits_fuel fuel n acc) = true.
Proof.
  assert (forall m acc, all_chars is_digit acc = true ->
            all_chars is_digit (String (digit_char (m `mod` 10)) acc) = true) as Hs.
  { intros m a Ha. simpl. by rewrite is_digit_char by (apply Z.mod_pos_bound; lia). }
  revert n acc. induction fuel as [|fuel IH]; intros n acc Ha; cbn [digits_fuel]; [by apply Hs|].
  destruct (n <? 10); [|apply IH]; by apply Hs.
Qed.
Lemma dec_digits_all n : all_chars is_digit (dec_digits n) = true.
Proof. by apply digits_fuel_all. Qed.
Lemma zeros_all k : all_chars is_digit (zeros k) = true.
Proof. induction k; [done|]. simpl. by rewrite IHk. Qed.

Lemma parse_digit v b d acc :
  0 <= d < 10 -> parse_digits v b (String (digit_char d) acc) = parse_digits (v * 10 + d) true acc.
Proof. intros Hd. simpl. rewrite is_digit_char, code_digit by done. f_equal. lia. Qed.

Lemma parse_digits_fuel fuel n b acc :
  0 <= n < 10 ^ (Z.of_nat fuel + 1) ->
  parse_digits 0 b (digits_fuel fuel n acc) = parse_digits n true acc.
Proof.
  revert n acc. induction fuel as [|fuel IH]; intros n acc Hn; cbn [digits_fuel].
  - change (10 ^ (Z.of_nat 0 + 1)) with 10 in Hn. rewrite parse_digit by (by apply Z.mod_pos_bound).
    by rewrite Z.mod_small.
  - destruct (Z.ltb_spec n 10) as [Hlt|Hge].
    + rewrite parse_digit by (by apply Z.mod_pos_bound). rewrite Z.mod_small by lia. done.
    + rewrite IH.
      * rewrite parse_digit by (by apply Z.mod_pos_bound). f_equal.
        rewrite Z.mul_comm. symmetry. by apply Z.div_mod.
      * replace (Z.of_nat (S fuel) + 1) with (Z.succ (Z.of_nat fuel + 1)) in Hn by lia.
        rewrite Z.pow_succ_r in Hn by lia. split; [apply Z.div_pos; lia|].
        apply Z.div_lt_upper_bound; lia.
Qed.
Lemma parse_dec_digits n b : 0 <= n -> parse_digits 0 b (dec_digits n) = Some n.
Proof.
  intros Hn. unfold dec_digits. rewrite parse_digits_fuel; [done|]. split; [done|].
  destruct (Z.eq_dec n 0) as [->|]; [by apply Z.pow_pos_nonneg|].
  rewrite Z2Nat.id by apply Z.log2_nonneg. pose proof (Z.log2_spec n ltac:(lia)) as [_ H].
  eapply Z.lt_le_trans; [exact H|]. rewrite <- Z.add_1_r. apply Z.pow_le_mono_l. lia.
Qed.
Lemma parse_zeros k b s : exists b', parse_digits 0 b (zeros k ++ s) = parse_digits 0 b' s.
Proof.
  revert b. induction k as [|k IH]; intros b; [by eexists|].
  change (zeros (S k) ++ s) with (String "0" (zeros k ++ s)). simpl. apply IH.
Qed.

Lemma count_digits_le s : count_digits s <= str_len s.
Proof. unfold str_len. induction s as [|c s IH]; simpl; [lia|]. destruct (is_digit c); lia. Qed.

Lemma lstrip_digits s : all_chars is_digit s = true -> lstrip s = s.
Proof.
  destruct s as [|c s]; [done|]. simpl. intros [Hc _]%andb_prop.
  destruct (is_space c) eqn:E; [|done]. unfold is_space in E. unfold is_digit in Hc. lia.
Qed.
Lemma strip_digits s : all_chars is_digit s = true -> strip s = s.
Proof.
  intros H. unfold strip. rewrite (lstrip_digits s H).
  rewrite lstrip_digits by (rewrite all_chars_rev, H; done).
  apply rev_string_involutive.
Qed.

(** Formatted numbers are read back. *)
Lemma py_int_digits s v :
  s <> "" -> all_chars is_digit s = true -> str_len s <= 4300 ->
  parse_digits 0 false s = Some v -> py_int s = Ok v.
Proof.
  intros Hne Hs Hlen Hv. unfold py_int. rewrite strip_digits by done.
  destruct s as [|c s]; [done|]. pose proof (count_digits_le (String c s)).
  assert (code c <> 45 /\ code c <> 43) as [H1 H2].
  { simpl in Hs. apply andb_prop in Hs as [Hc _]. unfold is_digit in Hc. lia. }
  destruct (Ascii.eqb_spec c "-") as [->|]; [done|]. destruct (Ascii.eqb_spec c "+") as [->|]; [done|].
  rewrite Hv. destruct (Z.ltb_spec 4300 (count_digits (String c s))); [lia|]. f_equal. lia.
Qed.

Lemma format_0d_digits w n : 0 <= n ->
  exists k, format_0d w n = zeros k ++ dec_digits n /\ all_chars is_digit (format_0d w n) = true.
Proof.
  intros Hn. unfold format_0d. destruct (Z.ltb_spec n 0); [lia|].
  eexists. split; [done|]. by rewrite all_chars_app, zeros_all, dec_digits_all.
Qed.
Lemma digits_fuel_not_nil f n acc : digits_fuel f n acc <> "".
Proof.
  revert n acc. induction f as [|f IH]; intros n acc; cbn [digits_fuel]; [done|].
  destruct (n <? 10); [done|]. apply IH.
Qed.
Lemma dec_digits_not_nil n : dec_digits n <> "".
Proof. apply digits_fuel_not_nil. Qed.
Lemma py_int_format w n : 0 <= n -> str_len (format_0d w n) <= 4300 -> py_int (format_0d w n) = Ok n.
Proof.
  intros Hn Hlen. destruct (format_0d_digits w n Hn) as (k & E & Hall).
  apply py_int_digits; [|done|done|].
  - rewrite E. intros H. assert (str_len (zeros k ++ dec_digits n) = 0) as H0 by by rewrite H.
    rewrite length_string_app in H0. apply (dec_digits_not_nil n).
    destruct (dec_digits n); [done|]. unfold str_len in H0. simpl in H0. lia.
  - rewrite E. destruct (parse_zeros k false (dec_digits n)) as [b' ->]. by apply parse_dec_digits.
Qed.
End digits.

Lemma lacks_digits sep s : is_digit sep = false -> all_chars is_digit s = true -> lacks sep s = true.
Proof.
  intros Hsep. apply all_chars_impl. intros c Hc. destruct (Ascii.eqb_spec c sep) as [->|]; [|done].
  congruence.
Qed.
