(* ===== verification/Wordlist.v ===== *)
(** * The SLIP-0039 word list and the lookup of a typed word

    [WORDLIST] is [keyshare/wordlist.txt] in file order; the index of a word is
    its position.  [_word_index] resolves a typed token: a full word, or a prefix
    of four letters or more. *)

From S2P Require Import Prelude PyString.

#[local] Open Scope string_scope.
#[local] Open Scope Z_scope.

Definition WORDLIST : list string := [
  "academic"; "acid"; "acne"; "acquire"; "acrobat"; "activity"; "actress"; "adapt"; "adequate";
  "adjust"; "admit"; "adorn"; "adult"; "advance"; "advocate"; "afraid"; "again"; "agency";
  "agree"; "aide"; "aircraft"; "airline"; "airport"; "ajar"; "alarm"; "album"; "alcohol";
  "alien"; "alive"; "alpha"; "already"; "alto"; "aluminum"; "always"; "amazing"; "ambition";
  "amount"; "amuse"; "analysis"; "anatomy"; "ancestor"; "ancient"; "angel"; "angry"; "animal";
  "answer"; "antenna"; "anxiety"; "apart"; "aquatic"; "arcade"; "arena"; "argue"; "armed";
  "artist"; "artwork"; "aspect"; "auction"; "august"; "aunt"; "average"; "aviation"; "avoid";
  "award"; "away"; "axis"; "axle"; "beam"; "beard"; "beaver"; "become"; "bedroom"; "behavior";
  "being"; "believe"; "belong"; "benefit"; "best"; "beyond"; "bike"; "biology"; "birthday";
  "bishop"; "black"; "blanket"; "blessing"; "blimp"; "blind"; "blue"; "body"; "bolt"; "boring";
  "born"; "both"; "boundary"; "bracelet"; "branch"; "brave"; "breathe"; "briefing"; "broken";
  "brother"; "browser"; "bucket"; "budget"; "building"; "bulb"; "bulge"; "bumpy"; "bundle";
  "burden"; "burning"; "busy"; "buyer"; "cage"; "calcium"; "camera"; "campus"; "canyon";
  "capacity"; "capital"; "capture"; "carbon"; "cards"; "careful"; "cargo"; "carpet"; "carve";
  "category"; "cause"; "ceiling"; "center"; "ceramic"; "champion"; "change"; "charity";
  "check"; "chemical"; "chest"; "chew"; "chubby"; "cinema"; "civil"; "class"; "clay";
  "cleanup"; "client"; "climate"; "clinic"; "clock"; "clogs"; "closet"; "clothes"; "club";
  "cluster"; "coal"; "coastal"; "coding"; "column"; "company"; "corner"; "costume"; "counter";
  "course"; "cover"; "cowboy"; "cradle"; "craft"; "crazy"; "credit"; "cricket"; "criminal";
  "crisis"; "critical"; "crowd"; "crucial"; "crunch"; "crush"; "crystal"; "cubic"; "cultural";
  "curious"; "curly"; "custody"; "cylinder"; "daisy"; "damage"; "dance"; "darkness";
  "database"; "daughter"; "deadline"; "deal"; "debris"; "debut"; "decent"; "decision";
  "declare"; "decorate"; "decrease"; "deliver"; "demand"; "density"; "deny"; "depart";
  "depend"; "depict"; "deploy"; "describe"; "desert"; "desire"; "desktop"; "destroy";
  "detailed"; "detect"; "device"; "devote"; "diagnose"; "dictate"; "diet"; "dilemma";
  "diminish"; "dining"; "diploma"; "disaster"; "discuss"; "disease"; "dish"; "dismiss";
  "display"; "distance"; "dive"; "divorce"; "document"; "domain"; "domestic"; "dominant";
  "dough"; "downtown"; "dragon"; "dramatic"; "dream"; "dress"; "drift"; "drink"; "drove";
  "drug"; "dryer"; "duckling"; "duke"; "duration"; "dwarf"; "dynamic"; "early"; "earth";
  "easel"; "easy"; "echo"; "eclipse"; "ecology"; "edge"; "editor"; "educate"; "either";
  "elbow"; "elder"; "election"; "elegant"; "element"; "elephant"; "elevator"; "elite"; "else";
  "email"; "emerald"; "emission"; "emperor"; "emphasis"; "employer"; "empty"; "ending";
  "endless"; "endorse"; "enemy"; "energy"; "enforce"; "engage"; "enjoy"; "enlarge"; "entrance";
  "envelope"; "envy"; "epidemic"; "episode"; "equation"; "equip"; "eraser"; "erode"; "escape";
  "estate"; "estimate"; "evaluate"; "evening"; "evidence"; "evil"; "evoke"; "exact"; "example";
  "exceed"; "exchange"; "exclude"; "excuse"; "execute"; "exercise"; "exhaust"; "exotic";
  "expand"; "expect"; "explain"; "express"; "extend"; "extra"; "eyebrow"; "facility"; "fact";
  "failure"; "faint"; "fake"; "false"; "family"; "famous"; "fancy"; "fangs"; "fantasy";
  "fatal"; "fatigue"; "favorite"; "fawn"; "fiber"; "fiction"; "filter"; "finance"; "findings";
  "finger"; "firefly"; "firm"; "fiscal"; "fishing"; "fitness"; "flame"; "flash"; "flavor";
  "flea"; "flexible"; "flip"; "float"; "floral"; "fluff"; "focus"; "forbid"; "force";
  "forecast"; "forget"; "formal"; "fortune"; "forward"; "founder"; "fraction"; "fragment";
  "frequent"; "freshman"; "friar"; "fridge"; "friendly"; "frost"; "froth"; "frozen"; "fumes";
  "funding"; "furl"; "fused"; "galaxy"; "game"; "garbage"; "garden"; "garlic"; "gasoline";
  "gather"; "general"; "genius"; "genre"; "genuine"; "geology"; "gesture"; "glad"; "glance";
  "glasses"; "glen"; "glimpse"; "goat"; "golden"; "graduate"; "grant"; "grasp"; "gravity";
  "gray"; "greatest"; "grief"; "grill"; "grin"; "grocery"; "gross"; "group"; "grownup";
  "grumpy"; "guard"; "guest"; "guilt"; "guitar"; "gums"; "hairy"; "hamster"; "hand"; "hanger";
  "harvest"; "have"; "havoc"; "hawk"; "hazard"; "headset"; "health"; "hearing"; "heat";
  "helpful"; "herald"; "herd"; "hesitate"; "hobo"; "holiday"; "holy"; "home"; "hormone";
  "hospital"; "hour"; "huge"; "human"; "humidity"; "hunting"; "husband"; "hush"; "husky";
  "hybrid"; "idea"; "identify"; "idle"; "image"; "impact"; "imply"; "improve"; "impulse";
  "include"; "income"; "increase"; "index"; "indicate"; "industry"; "infant"; "inform";
  "inherit"; "injury"; "inmate"; "insect"; "inside"; "install"; "intend"; "intimate";
  "invasion"; "involve"; "iris"; "island"; "isolate"; "item"; "ivory"; "jacket"; "jerky";
  "jewelry"; "join"; "judicial"; "juice"; "jump"; "junction"; "junior"; "junk"; "jury";
  "justice"; "kernel"; "keyboard"; "kidney"; "kind"; "kitchen"; "knife"; "knit"; "laden";
  "ladle"; "ladybug"; "lair"; "lamp"; "language"; "large"; "laser"; "laundry"; "lawsuit";
  "leader"; "leaf"; "learn"; "leaves"; "lecture"; "legal"; "legend"; "legs"; "lend"; "length";
  "level"; "liberty"; "library"; "license"; "lift"; "likely"; "lilac"; "lily"; "lips";
  "liquid"; "listen"; "literary"; "living"; "lizard"; "loan"; "lobe"; "location"; "losing";
  "loud"; "loyalty"; "luck"; "lunar"; "lunch"; "lungs"; "luxury"; "lying"; "lyrics"; "machine";
  "magazine"; "maiden"; "mailman"; "main"; "makeup"; "making"; "mama"; "manager"; "mandate";
  "mansion"; "manual"; "marathon"; "march"; "market"; "marvel"; "mason"; "material"; "math";
  "maximum"; "mayor"; "meaning"; "medal"; "medical"; "member"; "memory"; "mental"; "merchant";
  "merit"; "method"; "metric"; "midst"; "mild"; "military"; "mineral"; "minister"; "miracle";
  "mixed"; "mixture"; "mobile"; "modern"; "modify"; "moisture"; "moment"; "morning";
  "mortgage"; "mother"; "mountain"; "mouse"; "move"; "much"; "mule"; "multiple"; "muscle";
  "museum"; "music"; "mustang"; "nail"; "national"; "necklace"; "negative"; "nervous";
  "network"; "news"; "nuclear"; "numb"; "numerous"; "nylon"; "oasis"; "obesity"; "object";
  "observe"; "obtain"; "ocean"; "often"; "olympic"; "omit"; "oral"; "orange"; "orbit"; "order";
  "ordinary"; "organize"; "ounce"; "oven"; "overall"; "owner"; "paces"; "pacific"; "package";
  "paid"; "painting"; "pajamas"; "pancake"; "pants"; "papa"; "paper"; "parcel"; "parking";
  "party"; "patent"; "patrol"; "payment"; "payroll"; "peaceful"; "peanut"; "peasant"; "pecan";
  "penalty"; "pencil"; "percent"; "perfect"; "permit"; "petition"; "phantom"; "pharmacy";
  "photo"; "phrase"; "physics"; "pickup"; "picture"; "piece"; "pile"; "pink"; "pipeline";
  "pistol"; "pitch"; "plains"; "plan"; "plastic"; "platform"; "playoff"; "pleasure"; "plot";
  "plunge"; "practice"; "prayer"; "preach"; "predator"; "pregnant"; "premium"; "prepare";
  "presence"; "prevent"; "priest"; "primary"; "priority"; "prisoner"; "privacy"; "prize";
  "problem"; "process"; "profile"; "program"; "promise"; "prospect"; "provide"; "prune";
  "public"; "pulse"; "pumps"; "punish"; "puny"; "pupal"; "purchase"; "purple"; "python";
  "quantity"; "quarter"; "quick"; "quiet"; "race"; "racism"; "radar"; "railroad"; "rainbow";
  "raisin"; "random"; "ranked"; "rapids"; "raspy"; "reaction"; "realize"; "rebound"; "rebuild";
  "recall"; "receiver"; "recover"; "regret"; "regular"; "reject"; "relate"; "remember";
  "remind"; "remove"; "render"; "repair"; "repeat"; "replace"; "require"; "rescue"; "research";
  "resident"; "response"; "result"; "retailer"; "retreat"; "reunion"; "revenue"; "review";
  "reward"; "rhyme"; "rhythm"; "rich"; "rival"; "river"; "robin"; "rocky"; "romantic"; "romp";
  "roster"; "round"; "royal"; "ruin"; "ruler"; "rumor"; "sack"; "safari"; "salary"; "salon";
  "salt"; "satisfy"; "satoshi"; "saver"; "says"; "scandal"; "scared"; "scatter"; "scene";
  "scholar"; "science"; "scout"; "scramble"; "screw"; "script"; "scroll"; "seafood"; "season";
  "secret"; "security"; "segment"; "senior"; "shadow"; "shaft"; "shame"; "shaped"; "sharp";
  "shelter"; "sheriff"; "short"; "should"; "shrimp"; "sidewalk"; "silent"; "silver"; "similar";
  "simple"; "single"; "sister"; "skin"; "skunk"; "slap"; "slavery"; "sled"; "slice"; "slim";
  "slow"; "slush"; "smart"; "smear"; "smell"; "smirk"; "smith"; "smoking"; "smug"; "snake";
  "snapshot"; "sniff"; "society"; "software"; "soldier"; "solution"; "soul"; "source"; "space";
  "spark"; "speak"; "species"; "spelling"; "spend"; "spew"; "spider"; "spill"; "spine";
  "spirit"; "spit"; "spray"; "sprinkle"; "square"; "squeeze"; "stadium"; "staff"; "standard";
  "starting"; "station"; "stay"; "steady"; "step"; "stick"; "stilt"; "story"; "strategy";
  "strike"; "style"; "subject"; "submit"; "sugar"; "suitable"; "sunlight"; "superior";
  "surface"; "surprise"; "survive"; "sweater"; "swimming"; "swing"; "switch"; "symbolic";
  "sympathy"; "syndrome"; "system"; "tackle"; "tactics"; "tadpole"; "talent"; "task"; "taste";
  "taught"; "taxi"; "teacher"; "teammate"; "teaspoon"; "temple"; "tenant"; "tendency";
  "tension"; "terminal"; "testify"; "texture"; "thank"; "that"; "theater"; "theory"; "therapy";
  "thorn"; "threaten"; "thumb"; "thunder"; "ticket"; "tidy"; "timber"; "timely"; "ting";
  "tofu"; "together"; "tolerate"; "total"; "toxic"; "tracks"; "traffic"; "training";
  "transfer"; "trash"; "traveler"; "treat"; "trend"; "trial"; "tricycle"; "trip"; "triumph";
  "trouble"; "true"; "trust"; "twice"; "twin"; "type"; "typical"; "ugly"; "ultimate";
  "umbrella"; "uncover"; "undergo"; "unfair"; "unfold"; "unhappy"; "union"; "universe";
  "unkind"; "unknown"; "unusual"; "unwrap"; "upgrade"; "upstairs"; "username"; "usher";
  "usual"; "valid"; "valuable"; "vampire"; "vanish"; "various"; "vegan"; "velvet"; "venture";
  "verdict"; "verify"; "very"; "veteran"; "vexed"; "victim"; "video"; "view"; "vintage";
  "violence"; "viral"; "visitor"; "visual"; "vitamins"; "vocal"; "voice"; "volume"; "voter";
  "voting"; "walnut"; "warmth"; "warn"; "watch"; "wavy"; "wealthy"; "weapon"; "webcam";
  "welcome"; "welfare"; "western"; "width"; "wildlife"; "window"; "wine"; "wireless"; "wisdom";
  "withdraw"; "wits"; "wolf"; "woman"; "work"; "worthy"; "wrap"; "wrist"; "writing"; "wrote";
  "year"; "yelp"; "yield"; "yoga"; "zero"
]%list.

(** [{key(word): index for index, word in enumerate(WORDLIST)}]: a later
    index replaces an earlier one. *)
Definition enumerate_map (key : string -> string) (words : list string) : gmap string Z :=
  foldl (fun m '(index, word) => <[key word := index]> m) ∅
    (imap (fun i w => (Z.of_nat i, w)) words).

Definition _WORD_TO_INDEX : gmap string Z := enumerate_map (fun w => w) WORDLIST.
Definition _PREFIX4_TO_INDEX : gmap string Z := enumerate_map (str_prefix_of 4) WORDLIST.

(** The sanity checks made when the module is imported. *)
Definition wordlist_import_check : res unit :=
  _ ← raise_if (negb (len WORDLIST =? 1024)) RuntimeError;
  raise_if (negb (Z.of_nat (size _PREFIX4_TO_INDEX) =? 1024)) RuntimeError.

Definition _word_index (token : string) : res Z :=
  let word := str_lower token in
  match _WORD_TO_INDEX !! word with
  | Some index => Ok index
  | None =>
      if 4 <=? str_len word then
        match _PREFIX4_TO_INDEX !! str_prefix_of 4 word with
        | Some index =>
            w ← py_get WORDLIST index;
            if startswith w word then Ok index else Err KeyShareError
        | None => Err KeyShareError
        end
      else Err KeyShareError
  end.

Definition _mnemonic_to_indices (mnemonic : string) : res (list Z) :=
  mapM_res _word_index (str_split mnemonic).

Definition _words_from_indices (indices : list Z) : res (list string) :=
  mapM_res (py_get WORDLIST) indices.

Arguments _word_index : simpl never.

(** ** Facts about the list *)

Lemma wordlist_import_ok : wordlist_import_check = Ok tt.
Proof. vm_compute. reflexivity. Qed.

Lemma wordlist_tokens : forallb token_ok WORDLIST = true.
Proof. vm_compute. reflexivity. Qed.

Lemma word_index_all : mapM_res _word_index WORDLIST = Ok (seqZ 0 1024).
Proof. vm_compute. reflexivity. Qed.

Lemma wordlist_lookup i :
  0 <= i < 1024 ->
  exists w, WORDLIST !! Z.to_nat i = Some w /\ py_get WORDLIST i = Ok w /\
    token_ok w = true /\ _word_index w = Ok i.
Proof.
  intros Hi. destruct (py_get_in_range WORDLIST i) as (w & Hw & Hget); [done|].
  exists w. split_and!; [done..| |].
  - pose proof wordlist_tokens as Ht. rewrite forallb_forall in Ht.
    apply Ht, list_elem_of_In. by apply list_elem_of_lookup_2 in Hw.
  - pose proof (mapM_res_lookup _ _ _ _ _ word_index_all Hw) as (j & Hj & ->).
    apply lookup_seqZ in Hj as [-> _]. f_equal. lia.
Qed.

(** Words of valid indices, joined, read back as the indices. *)
Lemma mnemonic_roundtrip idx :
  Forall (fun v => 0 <= v < 1024) idx ->
  exists ws, _words_from_indices idx = Ok ws /\
    _mnemonic_to_indices (str_join ws) = Ok idx.
Proof.
  intros Hidx. unfold _words_from_indices, _mnemonic_to_indices.
  enough (exists ws, mapM_res (py_get WORDLIST) idx = Ok ws /\
    Forall (fun w => token_ok w = true) ws /\ mapM_res _word_index ws = Ok idx)
    as (ws & Hws & Htok & Hback).
  { exists ws. split; [done|]. by rewrite str_split_join. }
  induction Hidx as [|i idx Hi _ (ws & Hws & Htok & Hback)].
  - exists []. repeat split; try constructor.
  - destruct (wordlist_lookup i Hi) as (w & _ & Hget & Hw & Hix).
    exists (w :: ws). cbn [mapM_res]. rewrite Hget, Hws, Hix, Hback. auto.
Qed.

(** An entry of an enumerated dict points at a word with that key. *)
Lemma enumerate_map_lookup key words k i :
  enumerate_map key words !! k = Some i ->
  exists w, words !! Z.to_nat i = Some w /\ key w = k /\ 0 <= i < len words.
Proof.
  unfold enumerate_map. induction words as [|w words IH] using rev_ind; [done|].
  rewrite imap_app, foldl_app, length_app. simpl. rewrite Nat.add_0_r.
  destruct (decide (key w = k)) as [<-|Hne].
  - rewrite lookup_insert_eq. intros [= <-]. exists w.
    rewrite Nat2Z.id, lookup_app_r, Nat.sub_diag by lia. split_and!; [done..|lia|lia].
  - rewrite lookup_insert_ne by done. intros (w' & Hw' & ? & ?)%IH.
    exists w'. rewrite lookup_app_l by (by apply lookup_lt_Some in Hw'). split_and!; [done..|lia|lia].
Qed.

Lemma map_complete (m : gmap string Z) (key : string -> string) words :
  forallb (fun '(i, w) => bool_decide (m !! key w = Some i))
    (imap (fun i w => (Z.of_nat i, w)) words) = true ->
  forall i w, words !! i = Some w -> m !! key w = Some (Z.of_nat i).
Proof.
  intros H i w Hw. rewrite forallb_forall in H.
  specialize (H (Z.of_nat i, w)). apply bool_decide_eq_true in H; [done|].
  apply list_elem_of_In, list_elem_of_lookup. exists i. by rewrite list_lookup_imap, Hw.
Qed.

Lemma word_to_index_complete i w :
  WORDLIST !! i = Some w -> _WORD_TO_INDEX !! w = Some (Z.of_nat i).
Proof. apply (map_complete _ (fun w => w)). vm_compute. reflexivity. Qed.
Lemma prefix4_complete i w :
  WORDLIST !! i = Some w -> _PREFIX4_TO_INDEX !! str_prefix_of 4 w = Some (Z.of_nat i).
Proof. apply map_complete. vm_compute. reflexivity. Qed.
Lemma word_to_index_sound k i :
  _WORD_TO_INDEX !! k = Some i ->
  WORDLIST !! Z.to_nat i = Some k /\ 0 <= i < 1024.
Proof. by intros (w & Hw & -> & Hi)%(enumerate_map_lookup (fun w => w) WORDLIST). Qed.
Lemma prefix4_sound k i :
  _PREFIX4_TO_INDEX !! k = Some i ->
  exists w, WORDLIST !! Z.to_nat i = Some w /\ str_prefix_of 4 w = k /\ 0 <= i < 1024.
Proof. exact (enumerate_map_lookup (str_prefix_of 4) WORDLIST k i). Qed.
#[global] Opaque WORDLIST _WORD_TO_INDEX _PREFIX4_TO_INDEX.

Lemma startswith_prefix_of n t s :
  startswith t s = true -> Z.of_nat n <= str_len s -> str_prefix_of n t = str_prefix_of n s.
Proof.
  unfold startswith, str_prefix_of, str_len.
  revert t s. induction n as [|n IH]; intros t s Hp Hn.
  - by destruct t, s.
  - destruct s as [|c s]; [simpl in Hn; lia|]. destruct t as [|d t]; [done|].
    simpl in Hp. destruct (Ascii.ascii_dec c d) as [->|]; [|done].
    simpl. f_equal. apply IH; [done|]. simpl in Hn. lia.
Qed.

Lemma word_index_range token i : _word_index token = Ok i -> 0 <= i < 1024.
Proof.
  unfold _word_index. destruct (_WORD_TO_INDEX !! _) as [j|] eqn:E.
  - intros [= <-]. apply word_to_index_sound in E as [_ ?]. done.
  - destruct (4 <=? _); [|done].
    destruct (_PREFIX4_TO_INDEX !! _) as [j|] eqn:E'; [|done].
    apply prefix4_sound in E' as (w & Hw & _ & Hi).
    rewrite (py_get_Some WORDLIST j w (proj1 Hi) Hw), bind_Ok.
    destruct (startswith _ _); [|done]. by intros [= <-].
Qed.

Lemma word_index_error token e : _word_index token = Err e -> e = KeyShareError.
Proof.
  unfold _word_index. destruct (_WORD_TO_INDEX !! _); [done|].
  destruct (4 <=? _); [|by intros [= <-]].
  destruct (_PREFIX4_TO_INDEX !! _) as [j|] eqn:E'; [|by intros [= <-]].
  apply prefix4_sound in E' as (w & Hw & _ & Hi).
  rewrite (py_get_Some WORDLIST j w (proj1 Hi) Hw), bind_Ok.
  destruct (startswith _ _); [done|]. by intros [= <-].
Qed.

(** ** Properties *)

(** What a typed token resolves to: [_word_index] answers with index [i]
    exactly when the lower-cased token is the [i]-th word, or has four letters
    or more and the [i]-th word starts with it; any other token raises
    [KeyShareError].  So no token is ever resolved to two words. *)
Theorem word_index_iff token :
  let word := str_lower token in
  match _word_index token with
  | Ok i => exists w, WORDLIST !! Z.to_nat i = Some w /\ 0 <= i < 1024 /\
              (w = word \/ (4 <= str_len word /\ startswith w word = true))
  | Err e => e = KeyShareError /\ word ∉ WORDLIST /\
      (4 <= str_len word -> forall w, (w ∈ WORDLIST) -> startswith w word = false)
  end.
Proof.
  intros word. unfold _word_index. fold word.
  destruct (_WORD_TO_INDEX !! word) as [i|] eqn:Eword.
  { apply word_to_index_sound in Eword as [Hw Hi]. eauto 6. }
  assert (word ∉ WORDLIST) as Hword.
  { intros [j Hj]%list_elem_of_lookup. rewrite (word_to_index_complete j) in Eword; done. }
  destruct (Z.leb_spec 4 (str_len word)) as [Hlen|]; [|split_and!; [done..|lia]].
  destruct (_PREFIX4_TO_INDEX !! _) as [i|] eqn:Epre.
  - apply prefix4_sound in Epre as (w & Hw & Hpre & Hi).
    rewrite (py_get_Some WORDLIST i w (proj1 Hi) Hw), bind_Ok.
    destruct (startswith w word) eqn:Est; [eauto 6|].
    split_and!; [done..|]. intros _ w' [j Hj]%list_elem_of_lookup.
    destruct (startswith w' word) eqn:Est'; [|done].
    pose proof (startswith_prefix_of 4 _ _ Est' Hlen) as Hpre'.
    pose proof (prefix4_complete _ _ Hj) as Hc. rewrite Hpre', <- Hpre in Hc.
    rewrite (prefix4_complete _ _ Hw) in Hc. injection Hc as Hij.
    assert (j = Z.to_nat i) as -> by lia. congruence.
  - split_and!; [done..|]. intros _ w' [j Hj]%list_elem_of_lookup.
    destruct (startswith w' word) eqn:Est'; [|done].
    pose proof (startswith_prefix_of 4 _ _ Est' Hlen) as Hpre'.
    by rewrite <- Hpre', (prefix4_complete _ _ Hj) in Epre.
Qed.
