(* ===== verification/Share.v ===== *)
(** * One SLIP-0039 share and its mnemonic

    [_Share] of [keyshare/slip39.py]: the encoding of a share as 10-bit words
    with a checksum, and its decoding. *)

From S2P Require Import Prelude PyString Rs1024 Wordlist.

Definition RADIX_BITS : Z := 10.
Definition RADIX : Z := Z.shiftl 1 RADIX_BITS.
Definition ID_LENGTH_BITS : Z := 15.
Definition EXTENDABLE_FLAG_LENGTH_BITS : Z := 1.
Definition ITERATION_EXP_LENGTH_BITS : Z := 4.

Definition _bits_to_bytes (n : Z) : Z := (n + 7) / 8.
Definition _bits_to_words (n : Z) : Z := (n + RADIX_BITS - 1) / RADIX_BITS.

Definition ID_EXP_LENGTH_WORDS : Z :=
  _bits_to_words (ID_LENGTH_BITS + EXTENDABLE_FLAG_LENGTH_BITS + ITERATION_EXP_LENGTH_BITS).
Definition METADATA_LENGTH_WORDS : Z := ID_EXP_LENGTH_WORDS + 2 + CHECKSUM_LENGTH_WORDS.
Definition MIN_STRENGTH_BITS : Z := 128.
Definition MIN_MNEMONIC_LENGTH_WORDS : Z :=
  METADATA_LENGTH_WORDS + _bits_to_words MIN_STRENGTH_BITS.

Definition _int_to_word_indices (value length : Z) : list Z :=
  let mask := RADIX - 1 in
  (fun i => Z.land (Z.shiftr value (i * RADIX_BITS)) mask) <$> reverse (seqZ 0 length).

Definition _int_from_word_indices (indices : list Z) : Z :=
  foldl (fun value index => value * RADIX + index) 0 indices.

Record _ShareCommonParameters := ShareCommonParameters {
  cp_identifier : Z; cp_extendable : bool; cp_iteration_exponent : Z;
  cp_group_threshold : Z; cp_group_count : Z;
}.
Record _ShareGroupParameters := ShareGroupParameters {
  gp_identifier : Z; gp_extendable : bool; gp_iteration_exponent : Z;
  gp_group_index : Z; gp_group_threshold : Z; gp_group_count : Z;
  gp_member_threshold : Z;
}.
#[export] Instance common_eq_dec : EqDecision _ShareCommonParameters.
Proof. solve_decision. Defined.
#[export] Instance group_eq_dec : EqDecision _ShareGroupParameters.
Proof. solve_decision. Defined.

Record _Share := Share {
  identifier : Z; extendable : bool; iteration_exponent : Z;
  group_index : Z; group_threshold : Z; group_count : Z;
  member_index : Z; member_threshold : Z; value : bytes;
}.
#[export] Instance share_eq_dec : EqDecision _Share.
Proof. solve_decision. Defined.

Definition common_parameters (s : _Share) : _ShareCommonParameters :=
  ShareCommonParameters (identifier s) (extendable s) (iteration_exponent s)
    (group_threshold s) (group_count s).
Definition group_parameters (s : _Share) : _ShareGroupParameters :=
  ShareGroupParameters (identifier s) (extendable s) (iteration_exponent s)
    (group_index s) (group_threshold s) (group_count s) (member_threshold s).

Definition _encode_id_exp (s : _Share) : list Z :=
  let value := Z.shiftl (identifier s) (ITERATION_EXP_LENGTH_BITS + EXTENDABLE_FLAG_LENGTH_BITS) in
  let value := value + Z.shiftl (Z.b2z (extendable s)) ITERATION_EXP_LENGTH_BITS in
  let value := value + iteration_exponent s in
  _int_to_word_indices value ID_EXP_LENGTH_WORDS.

Definition _encode_share_params (s : _Share) : list Z :=
  let value := group_index s in
  let value := Z.shiftl value 4 + (group_threshold s - 1) in
  let value := Z.shiftl value 4 + (group_count s - 1) in
  let value := Z.shiftl value 4 + member_index s in
  let value := Z.shiftl value 4 + (member_threshold s - 1) in
  _int_to_word_indices value 2.

(** The words of the share before the checksum, as indices. *)
Definition share_data (s : _Share) : list Z :=
  let value_word_count := _bits_to_words (len (value s) * 8) in
  let value_int := int_from_be (value s) in
  let value_data := _int_to_word_indices value_int value_word_count in
  _encode_id_exp s ++ _encode_share_params s ++ value_data.

Definition words (s : _Share) : res (list string) :=
  let checksum := _rs1024_create_checksum (share_data s) (_customization_string (extendable s)) in
  _words_from_indices (share_data s ++ checksum).

Definition mnemonic (s : _Share) : res string :=
  ws ← words s; Ok (str_join ws).

(** The body of [from_mnemonic], on the word indices. *)
Definition share_from_indices (data : list Z) : res _Share :=
  _ ← raise_if (len data <? MIN_MNEMONIC_LENGTH_WORDS) KeyShareError;
  let padding_len := (RADIX_BITS * (len data - METADATA_LENGTH_WORDS)) `mod` 16 in
  _ ← raise_if (8 <? padding_len) KeyShareError;
  let id_exp_int := _int_from_word_indices (slice_to data ID_EXP_LENGTH_WORDS) in
  let identifier := Z.shiftr id_exp_int
                      (EXTENDABLE_FLAG_LENGTH_BITS + ITERATION_EXP_LENGTH_BITS) in
  let extendable := negb (Z.land (Z.shiftr id_exp_int ITERATION_EXP_LENGTH_BITS) 1 =? 0) in
  let iteration_exponent := Z.land id_exp_int (Z.shiftl 1 ITERATION_EXP_LENGTH_BITS - 1) in
  _ ← raise_if (negb (_rs1024_verify_checksum data (_customization_string extendable)))
        KeyShareError;
  let share_params_int :=
    _int_from_word_indices (slice data ID_EXP_LENGTH_WORDS (ID_EXP_LENGTH_WORDS + 2)) in
  let mask := Z.shiftl 1 4 - 1 in
  let param i := Z.land (Z.shiftr share_params_int (i * 4)) mask in
  let group_index := param 4 in
  let group_threshold := param 3 in
  let group_count := param 2 in
  let member_index := param 1 in
  let member_threshold := param 0 in
  _ ← raise_if (group_count <? group_threshold) KeyShareError;
  let value_data := slice data (ID_EXP_LENGTH_WORDS + 2) (- CHECKSUM_LENGTH_WORDS) in
  let value_byte_count := _bits_to_bytes (RADIX_BITS * len value_data - padding_len) in
  let value_int := _int_from_word_indices value_data in
  value ← reraise OverflowError KeyShareError (int_to_be value_int value_byte_count);
  Ok (Share identifier extendable iteration_exponent group_index
        (group_threshold + 1) (group_count + 1) member_index (member_threshold + 1) value).

Definition from_mnemonic (mnemonic : string) : res _Share :=
  data ← _mnemonic_to_indices mnemonic;
  share_from_indices data.

(** [share_identifier] and the per-share diagnosis [check_share]. *)
Definition share_identifier (mnemonic : string) : res Z :=
  s ← from_mnemonic mnemonic; Ok (identifier s).

Inductive share_diagnosis :=
  | NotAShareWord (position : Z) (token : string)
  | TooFewWords (found : Z)
  | ChecksumFailed.

Fixpoint check_tokens (position : Z) (tokens : list string) :
    list Z + share_diagnosis :=
  match tokens with
  | [] => inl []
  | token :: tokens =>
      match _word_index token with
      | Err _ => inr (NotAShareWord position (str_lower token))
      | Ok i => match check_tokens (position + 1) tokens with
                | inl indices => inl (i :: indices)
                | inr d => inr d
                end
      end
  end.

Definition check_share (mnemonic : string) : option share_diagnosis :=
  match check_tokens 1 (str_split mnemonic) with
  | inr d => Some d
  | inl indices =>
      if len indices <? MIN_MNEMONIC_LENGTH_WORDS then Some (TooFewWords (len indices))
      else
        let id_exp_int := _int_from_word_indices (slice_to indices ID_EXP_LENGTH_WORDS) in
        let extendable := negb (Z.land (Z.shiftr id_exp_int ITERATION_EXP_LENGTH_BITS) 1 =? 0) in
        if negb (_rs1024_verify_checksum indices (_customization_string extendable))
        then Some ChecksumFailed else None
  end.

(** ** Words and integers *)

Lemma seqZ_snoc_rev n : 0 <= n -> reverse (seqZ 0 (n + 1)) = n :: reverse (seqZ 0 n).
Proof. intros. rewrite seqZ_app by lia. rewrite reverse_app. done. Qed.

Lemma int_to_word_indices_spec v n :
  _int_to_word_indices v (Z.of_nat n) = be_digits 1024 n v.
Proof.
  unfold _int_to_word_indices. induction n as [|n IH]; [done|].
  rewrite Nat2Z.inj_succ. unfold Z.succ. rewrite seqZ_snoc_rev by lia. csimpl. f_equal; [|done].
  change (RADIX - 1) with (2 ^ 10 - 1). change RADIX_BITS with 10.
  rewrite land_mask, Z.shiftr_div_pow2 by lia. f_equal. f_equal.
  change 1024 with (2 ^ 10). rewrite <- Z.pow_mul_r by lia. f_equal. lia.
Qed.

Lemma int_from_word_indices_spec l : _int_from_word_indices l = be_val 1024 l.
Proof. done. Qed.

Lemma length_int_to_word_indices v n : 0 <= n -> len (_int_to_word_indices v n) = n.
Proof.
  intros. unfold _int_to_word_indices. rewrite length_fmap, length_reverse, length_seqZ. lia.
Qed.
Lemma int_to_word_indices_ok v n : 0 <= n -> words_ok (_int_to_word_indices v n).
Proof.
  intros. rewrite <- (Z2Nat.id n), int_to_word_indices_spec by done.
  by apply be_digits_bound.
Qed.
Lemma int_word_roundtrip v n :
  0 <= n -> 0 <= v < 1024 ^ n -> _int_from_word_indices (_int_to_word_indices v n) = v.
Proof.
  intros Hn Hv. rewrite <- (Z2Nat.id n), int_to_word_indices_spec, int_from_word_indices_spec by done.
  apply be_val_digits; [lia|]. by rewrite Z2Nat.id.
Qed.
Lemma word_int_roundtrip l n :
  words_ok l -> len l = n -> _int_to_word_indices (_int_from_word_indices l) n = l.
Proof.
  intros Hl <-. rewrite int_to_word_indices_spec, int_from_word_indices_spec.
  by apply be_digits_val.
Qed.

(** ** Well-formed shares: every field in the range its bits allow *)

Record share_wf (s : _Share) : Prop := {
  wf_identifier : 0 <= identifier s < 2 ^ 15;
  wf_exponent : 0 <= iteration_exponent s < 16;
  wf_group_index : 0 <= group_index s < 16;
  wf_group_threshold : 1 <= group_threshold s;
  wf_group_count : group_threshold s <= group_count s <= 16;
  wf_member_index : 0 <= member_index s < 16;
  wf_member_threshold : 1 <= member_threshold s <= 16;
  wf_value_bytes : bytes_ok (value s);
  wf_value_len : 16 <= len (value s);
  wf_value_even : len (value s) `mod` 2 = 0;
}.

Definition id_exp_int (s : _Share) : Z :=
  identifier s * 32 + Z.b2z (extendable s) * 16 + iteration_exponent s.
Definition params_int (s : _Share) : Z :=
  (((group_index s * 16 + (group_threshold s - 1)) * 16 + (group_count s - 1)) * 16
    + member_index s) * 16 + (member_threshold s - 1).

Lemma encode_id_exp_eq s : _encode_id_exp s = _int_to_word_indices (id_exp_int s) 2.
Proof.
  unfold _encode_id_exp, id_exp_int. change ID_EXP_LENGTH_WORDS with 2. f_equal.
  rewrite !Z.shiftl_mul_pow2 by done. done.
Qed.
Lemma encode_share_params_eq s : _encode_share_params s = _int_to_word_indices (params_int s) 2.
Proof.
  unfold _encode_share_params, params_int. f_equal. rewrite !Z.shiftl_mul_pow2 by done. done.
Qed.

Lemma id_exp_int_bound s : share_wf s -> 0 <= id_exp_int s < 1024 ^ 2.
Proof. intros []. unfold id_exp_int. destruct (extendable s); simpl Z.b2z; lia. Qed.
Lemma params_int_bound s : share_wf s -> 0 <= params_int s < 1024 ^ 2.
Proof. intros []. unfold params_int. lia. Qed.

(** Number of words of the value, and the unused bits in front of it. *)
Lemma value_word_count n :
  16 <= n -> n `mod` 2 = 0 ->
  let w := _bits_to_words (n * 8) in
  13 <= w /\ n * 8 <= 10 * w /\ 10 * w - n * 8 <= 8 /\
  (10 * w) `mod` 16 = 10 * w - n * 8 /\ _bits_to_bytes (n * 8) = n.
Proof.
  intros Hn He w. unfold w, _bits_to_words, _bits_to_bytes, RADIX_BITS.
  assert (exists m, n = 2 * m) as [m ->] by (exists (n / 2); pose proof (Z.div_mod n 2); lia).
  set (q := (2 * m * 8 + 10 - 1) / 10).
  assert (10 * q <= 16 * m + 9 < 10 * q + 10) as Hq.
  { unfold q. pose proof (Z.div_mod (2 * m * 8 + 10 - 1) 10 ltac:(lia)).
    pose proof (Z.mod_pos_bound (2 * m * 8 + 10 - 1) 10 ltac:(lia)). lia. }
  split_and!; try lia.
  - rewrite <- (Z.mod_unique (10 * q) 16 m (10 * q - 16 * m)); lia.
  - replace (2 * m * 8 + 7) with (7 + 2 * m * 8) by lia.
    rewrite Z.div_add by done. done.
Qed.

Lemma value_int_bound v : bytes_ok v -> 0 <= int_from_be v < 256 ^ len v.
Proof. intros. apply be_val_bound; [lia|done]. Qed.

Lemma pow_256_1024 n w : 0 <= n -> n * 8 <= 10 * w -> 256 ^ n <= 1024 ^ w.
Proof.
  intros Hn Hw. change 256 with (2 ^ 8). change 1024 with (2 ^ 10).
  rewrite <- !Z.pow_mul_r by lia. apply Z.pow_le_mono_r; lia.
Qed.

Lemma share_data_words s : share_wf s -> words_ok (share_data s).
Proof.
  intros Hs. unfold share_data. rewrite encode_id_exp_eq, encode_share_params_eq.
  destruct (value_word_count (len (value s))) as (? & _); [apply Hs..|].
  repeat apply Forall_app_2; apply int_to_word_indices_ok; lia.
Qed.

(** Reading the fields back out of the two header integers. *)
Lemma id_exp_fields s (x := id_exp_int s) :
  share_wf s ->
  Z.shiftr x 5 = identifier s /\ negb (Z.land (Z.shiftr x 4) 1 =? 0) = extendable s /\
  Z.land x (Z.shiftl 1 4 - 1) = iteration_exponent s.
Proof.
  intros [Hi He _ _ _ _ _ _ _ _]. subst x. unfold id_exp_int.
  change (Z.shiftl 1 4 - 1) with (2 ^ 4 - 1). change 1 with (2 ^ 1 - 1).
  rewrite !land_mask, !Z.shiftr_div_pow2 by done.
  change (2 ^ 4) with 16. change (2 ^ 5) with 32. change (2 ^ 1) with 2.
  split_and!.
  - symmetry. apply (Z.div_unique_pos _ _ _ (Z.b2z (extendable s) * 16 + iteration_exponent s));
      destruct (extendable s); simpl Z.b2z; lia.
  - replace ((identifier s * 32 + Z.b2z (extendable s) * 16 + iteration_exponent s) / 16)
      with (identifier s * 2 + Z.b2z (extendable s))
      by (apply (Z.div_unique_pos _ _ _ (iteration_exponent s)); lia).
    replace ((identifier s * 2 + Z.b2z (extendable s)) mod 2) with (Z.b2z (extendable s))
      by (apply (Z.mod_unique_pos _ _ (identifier s)); destruct (extendable s); simpl Z.b2z; lia).
    by destruct (extendable s).
  - symmetry. apply (Z.mod_unique_pos _ _ (identifier s * 2 + Z.b2z (extendable s))); lia.
Qed.

Lemma nibble a b : 0 <= b < 16 -> (a * 16 + b) / 16 = a /\ (a * 16 + b) mod 16 = b.
Proof.
  intros Hb. split; symmetry; [apply (Z.div_unique_pos _ _ _ b)|apply (Z.mod_unique_pos _ _ a)]; lia.
Qed.

Lemma params_fields s (x := params_int s) (param := fun i => Z.land (Z.shiftr x (i * 4)) (Z.shiftl 1 4 - 1)) :
  share_wf s ->
  param 4 = group_index s /\ param 3 = group_threshold s - 1 /\ param 2 = group_count s - 1 /\
  param 1 = member_index s /\ param 0 = member_threshold s - 1.
Proof.
  intros []. subst param x. cbv beta.
  change (Z.shiftl 1 4 - 1) with (2 ^ 4 - 1).
  rewrite !land_mask, !Z.shiftr_div_pow2 by done. unfold params_int.
  change (2 ^ 4) with 16.
  change (2 ^ (0 * 4)) with 1. change (2 ^ (1 * 4)) with 16.
  change (2 ^ (2 * 4)) with (16 * 16). change (2 ^ (3 * 4)) with (16 * 16 * 16).
  change (2 ^ (4 * 4)) with (16 * 16 * 16 * 16).
  rewrite <- !Z.div_div by done. rewrite Z.div_1_r.
  rewrite !(fun a b H => proj1 (nibble a b H)), !(fun a b H => proj2 (nibble a b H)) by lia.
  rewrite Z.mod_small by lia. done.
Qed.

(** ** Encoding, then decoding *)

Definition checksum_of (s : _Share) : list Z :=
  _rs1024_create_checksum (share_data s) (_customization_string (extendable s)).

Lemma customization_string_bytes b : bytes_ok (_customization_string b).
Proof. destruct b; apply (bool_decide_unpack _); vm_compute; exact I. Qed.

Lemma int_to_be_val v n :
  0 <= n -> int_to_be v n = if (v <? 0) || (256 ^ n <=? v) then Err OverflowError
                            else Ok (be_digits 256 (Z.to_nat n) v).
Proof. done. Qed.

Lemma int_to_be_from_be l : bytes_ok l -> int_to_be (int_from_be l) (len l) = Ok l.
Proof.
  intros Hl. unfold int_to_be. pose proof (value_int_bound l Hl).
  destruct (Z.ltb_spec (int_from_be l) 0); [lia|].
  destruct (Z.leb_spec (256 ^ len l) (int_from_be l)); [lia|]. simpl. f_equal.
  rewrite Nat2Z.id. by apply be_digits_val.
Qed.

Lemma share_indices_roundtrip s :
  share_wf s -> share_from_indices (share_data s ++ checksum_of s) = Ok s.
Proof.
  intros Hs. pose proof (share_data_words s Hs) as Hwords.
  pose proof (rs1024_create_verify (share_data s) (_customization_string (extendable s)) Hwords
    (customization_string_bytes _)) as Hver.
  fold (checksum_of s) in Hver.
  assert (length (checksum_of s) = 3%nat) as Hck by done.
  unfold share_from_indices.
  set (n := len (value s)). set (w := _bits_to_words (n * 8)).
  destruct (value_word_count n) as (Hw & Hnw & Hpad & Hmod & Hbytes); [apply Hs..|].
  fold w in Hw, Hnw, Hpad, Hmod.
  set (idw := _int_to_word_indices (id_exp_int s) 2).
  set (prw := _int_to_word_indices (params_int s) 2).
  set (vw := _int_to_word_indices (int_from_be (value s)) w).
  assert (share_data s = idw ++ prw ++ vw) as Hdata.
  { unfold share_data. rewrite encode_id_exp_eq, encode_share_params_eq. done. }
  assert (len idw = 2) by (by apply length_int_to_word_indices).
  assert (len prw = 2) by (by apply length_int_to_word_indices).
  assert (len vw = w) by (apply length_int_to_word_indices; lia).
  rewrite Hdata in *. clear Hdata.
  assert (len ((idw ++ prw ++ vw) ++ checksum_of s) = w + 7) as Hlen.
  { rewrite !length_app, Hck. lia. }
  rewrite Hlen. change MIN_MNEMONIC_LENGTH_WORDS with 20. change METADATA_LENGTH_WORDS with 7.
  rewrite (proj2 (Z.ltb_ge (w + 7) 20)) by lia. cbn [raise_if mbind res_bind].
  replace (RADIX_BITS * (w + 7 - 7)) with (10 * w) by (unfold RADIX_BITS; lia).
  rewrite Hmod, (proj2 (Z.ltb_ge 8 (10 * w - n * 8))) by lia. cbn [raise_if mbind res_bind].
  change ID_EXP_LENGTH_WORDS with 2.
  change (EXTENDABLE_FLAG_LENGTH_BITS + ITERATION_EXP_LENGTH_BITS) with 5.
  change ITERATION_EXP_LENGTH_BITS with 4.
  rewrite <- !app_assoc in *. rewrite slice_to_app by done.
  rewrite (slice_app idw prw) by lia.
  replace (slice (idw ++ prw ++ vw ++ checksum_of s) (2 + 2) (- CHECKSUM_LENGTH_WORDS)) with vw.
  2: { unfold slice, slice_bound. rewrite !length_app, Hck.
       change (2 + 2 <? 0) with false. change (- CHECKSUM_LENGTH_WORDS <? 0) with true.
       cbv iota. rewrite app_assoc, Z.min_l, Z.max_r by (unfold CHECKSUM_LENGTH_WORDS; lia).
       rewrite drop_app_length' by (rewrite length_app; lia).
       rewrite take_app_length'; [done|]. unfold CHECKSUM_LENGTH_WORDS. lia. }
  assert (_int_from_word_indices idw = id_exp_int s) as ->
    by (by apply int_word_roundtrip, id_exp_int_bound).
  assert (_int_from_word_indices prw = params_int s) as ->
    by (by apply int_word_roundtrip, params_int_bound).
  destruct (id_exp_fields s Hs) as (-> & -> & ->).
  rewrite Hver. cbn [negb raise_if mbind res_bind].
  destruct (params_fields s Hs) as (-> & -> & -> & -> & ->).
  rewrite (proj2 (Z.ltb_ge (group_count s - 1) (group_threshold s - 1))) by (destruct Hs; lia). cbn [raise_if mbind res_bind].
  unfold vw. rewrite length_int_to_word_indices, int_word_roundtrip; try lia.
  2: { pose proof (value_int_bound (value s) (wf_value_bytes s Hs)) as Hv. fold n in Hv.
       pose proof (pow_256_1024 n w ltac:(lia) Hnw). lia. }
  replace (RADIX_BITS * w - (10 * w - n * 8)) with (n * 8) by (unfold RADIX_BITS; lia).
  rewrite Hbytes. unfold n. rewrite int_to_be_from_be by apply Hs.
  cbn [reraise mbind res_bind].
  destruct s. cbn. do 2 f_equal; lia.
Qed.

(** ** Decoding gives a well-formed share, and is injective on words *)

(** The three checksum words are determined by the rest. *)
Lemma checksum_unique d ck cust :
  words_ok d -> words_ok ck -> bytes_ok cust -> length ck = 3%nat ->
  _rs1024_verify_checksum (d ++ ck) cust = true -> ck = _rs1024_create_checksum d cust.
Proof.
  intros Hd Hck Hcust Hlen Hver.
  destruct (decide (ck = _rs1024_create_checksum d cust)) as [|Hne]; [done|].
  pose proof (rs1024_create_verify d cust Hd Hcust) as Hgood.
  pose proof (rs1024_burst_detected d ck (_rs1024_create_checksum d cust) [] cust) as Hb.
  rewrite !app_nil_r in Hb. rewrite Hb in Hgood; try done.
  - apply create_checksum_words.
  - by rewrite Hlen.
Qed.

Lemma split_lengths (l : list Z) a b :
  (a + b <= length l)%nat ->
  exists l1 l2 l3, l = l1 ++ l2 ++ l3 /\ length l1 = a /\ length l2 = b.
Proof.
  intros H. exists (take a l), (take b (drop a l)), (drop b (drop a l)).
  split_and!.
  - by rewrite take_drop, take_drop.
  - rewrite length_take. lia.
  - rewrite length_take, length_drop. lia.
Qed.

(** The shape of an accepted word sequence. *)
Lemma indices_parts data :
  20 <= len data -> words_ok data ->
  exists idw prw vw ck, data = idw ++ prw ++ vw ++ ck /\
    len idw = 2 /\ len prw = 2 /\ len ck = 3 /\ len vw = len data - 7 /\
    words_ok idw /\ words_ok prw /\ words_ok vw /\ words_ok ck.
Proof.
  intros Hlen Hok.
  destruct (split_lengths data 2 2) as (idw & prw & rest & -> & H1 & H2); [lia|].
  rewrite !length_app in Hlen. rewrite !Forall_app in Hok. destruct Hok as (? & ? & Hrest).
  destruct (split_lengths rest (length rest - 3) 3) as (vw & ck & e & -> & H3 & H4); [lia|].
  rewrite !length_app in H3. assert (e = []) as -> by (destruct e; simpl in *; [done|lia]).
  rewrite app_nil_r in *. rewrite !Forall_app in Hrest. destruct Hrest.
  exists idw, prw, vw, ck. rewrite !length_app. split_and!; try done; lia.
Qed.

Lemma value_bytes_count w :
  13 <= w -> (10 * w) mod 16 <= 8 ->
  let n := _bits_to_bytes (10 * w - (10 * w) mod 16) in
  16 <= n /\ n mod 2 = 0 /\ _bits_to_words (n * 8) = w.
Proof.
  intros Hw Hpad n. unfold n, _bits_to_bytes, _bits_to_words, RADIX_BITS.
  pose proof (Z.div_mod (10 * w) 16 ltac:(lia)) as Hd.
  pose proof (Z.mod_pos_bound (10 * w) 16 ltac:(lia)) as Hb.
  set (m := 10 * w / 16) in *. set (p := (10 * w) mod 16) in *.
  replace (10 * w - p + 7) with (7 + 2 * m * 8) by lia.
  rewrite Z.div_add by done. change (7 / 8) with 0. split_and!.
  - lia.
  - symmetry. apply (Z.mod_unique_pos _ _ m); lia.
  - symmetry. apply (Z.div_unique_pos _ _ _ (9 - p)); lia.
Qed.

Lemma id_exp_int_read x e :
  0 <= x < 1024 ^ 2 -> e = negb (Z.land (Z.shiftr x 4) 1 =? 0) ->
  Z.shiftr x 5 * 32 + Z.b2z e * 16 + Z.land x (Z.shiftl 1 4 - 1) = x /\
  0 <= Z.shiftr x 5 < 2 ^ 15 /\ 0 <= Z.land x (Z.shiftl 1 4 - 1) < 16.
Proof.
  intros Hx ->. change (Z.shiftl 1 4 - 1) with (2 ^ 4 - 1).
  rewrite land_1_eqb, negb_involutive, Z.testbit_spec', land_mask, Z.shiftr_div_pow2 by done.
  change (2 ^ 4) with 16. change (2 ^ 5) with 32.
  pose proof (Z.div_mod x 16 ltac:(lia)). pose proof (Z.mod_pos_bound x 16 ltac:(lia)).
  pose proof (Z.div_mod (x / 16) 2 ltac:(lia)).
  pose proof (Z.mod_pos_bound (x / 16) 2 ltac:(lia)).
  replace (x / 32) with (x / 16 / 2) by (rewrite Z.div_div by done; reflexivity).
  assert (0 <= x / 16 / 2 < 2 ^ 15); [|lia].
  rewrite Z.div_div by done. split; [apply Z.div_pos|apply Z.div_lt_upper_bound]; lia.
Qed.

Lemma params_int_read x (param := fun i => Z.land (Z.shiftr x (i * 4)) (Z.shiftl 1 4 - 1)) :
  0 <= x < 1024 ^ 2 ->
  (((param 4 * 16 + param 3) * 16 + param 2) * 16 + param 1) * 16 + param 0 = x /\
  forall i, 0 <= param i < 16.
Proof.
  intros Hx. split; [|intros i; subst param; cbv beta; by apply (land_ones_bound 4)].
  subst param. cbv beta. change (Z.shiftl 1 4 - 1) with (2 ^ 4 - 1).
  rewrite !land_mask, !Z.shiftr_div_pow2 by done.
  change (2 ^ 4) with 16.
  change (2 ^ (0 * 4)) with 1. change (2 ^ (1 * 4)) with 16.
  change (2 ^ (2 * 4)) with (16 * 16). change (2 ^ (3 * 4)) with (16 * 16 * 16).
  change (2 ^ (4 * 4)) with (16 * 16 * 16 * 16).
  rewrite <- !Z.div_div by done. rewrite Z.div_1_r.
  set (x1 := x / 16). set (x2 := x1 / 16). set (x3 := x2 / 16). set (x4 := x3 / 16).
  assert (0 <= x4 < 16).
  { subst x4 x3 x2 x1. rewrite !Z.div_div by done.
    split; [apply Z.div_pos|apply Z.div_lt_upper_bound]; lia. }
  rewrite (Z.mod_small x4) by done.
  pose proof (Z.div_mod x 16 ltac:(lia)) as H0. pose proof (Z.div_mod x1 16 ltac:(lia)) as H1.
  pose proof (Z.div_mod x2 16 ltac:(lia)) as H2. pose proof (Z.div_mod x3 16 ltac:(lia)) as H3.
  fold x1 in H0. fold x2 in H1. fold x3 in H2. fold x4 in H3. lia.
Qed.

Lemma share_from_indices_inv data s :
  words_ok data -> share_from_indices data = Ok s ->
  share_wf s /\ data = share_data s ++ checksum_of s.
Proof.
  intros Hok H. unfold share_from_indices in H.
  change MIN_MNEMONIC_LENGTH_WORDS with 20 in H.
  destruct (Z.ltb_spec (len data) 20) as [|Hlen]; [done|]. cbn [raise_if mbind res_bind] in H.
  destruct (indices_parts data Hlen Hok)
    as (idw & prw & vw & ck & Hdata & Hl1 & Hl2 & Hl4 & Hl3 & Hw1 & Hw2 & Hw3 & Hw4).
  change METADATA_LENGTH_WORDS with 7 in H. rewrite <- Hl3 in H.
  change RADIX_BITS with 10 in H.
  destruct (Z.ltb_spec 8 ((10 * len vw) mod 16)) as [|Hpad]; [done|].
  cbn [raise_if mbind res_bind] in H.
  change ID_EXP_LENGTH_WORDS with 2 in H.
  change (EXTENDABLE_FLAG_LENGTH_BITS + ITERATION_EXP_LENGTH_BITS) with 5 in H.
  change ITERATION_EXP_LENGTH_BITS with 4 in H.
  replace (slice_to data 2) with idw in H by (rewrite Hdata; symmetry; by apply slice_to_app).
  replace (slice data 2 (2 + 2)) with prw in H
    by (rewrite Hdata; symmetry; apply slice_app; lia).
  replace (slice data (2 + 2) (- CHECKSUM_LENGTH_WORDS)) with vw in H.
  2: { rewrite Hdata. unfold slice, slice_bound. rewrite !length_app.
       change (2 + 2 <? 0) with false. change (- CHECKSUM_LENGTH_WORDS <? 0) with true.
       cbv iota. rewrite app_assoc, Z.min_l, Z.max_r by (unfold CHECKSUM_LENGTH_WORDS; lia).
       rewrite drop_app_length' by (rewrite length_app; lia).
       rewrite take_app_length'; [done|]. unfold CHECKSUM_LENGTH_WORDS. lia. }
  change _int_from_word_indices with (be_val 1024) in H.
  assert (0 <= be_val 1024 idw < 1024 ^ 2) as Hx by (rewrite <- Hl1; by apply be_val_bound).
  assert (0 <= be_val 1024 prw < 1024 ^ 2) as Hy by (rewrite <- Hl2; by apply be_val_bound).
  set (x := be_val 1024 idw) in *. set (y := be_val 1024 prw) in *.
  set (e := negb _) in H. destruct (id_exp_int_read x e Hx eq_refl) as (Hx1 & Hx2 & Hx3).
  destruct (params_int_read y Hy) as (Hy1 & Hy2).
  destruct (_rs1024_verify_checksum data (_customization_string e)) eqn:Hver; [|done].
  cbn [negb raise_if mbind res_bind] in H.
  pose proof (Hy2 4) as Hp4. pose proof (Hy2 3) as Hp3. pose proof (Hy2 2) as Hp2.
  pose proof (Hy2 1) as Hp1. pose proof (Hy2 0) as Hp0. clear Hy2. cbv beta in *.
  set (p4 := Z.land (Z.shiftr y (4 * 4)) _) in *. set (p3 := Z.land (Z.shiftr y (3 * 4)) _) in *.
  set (p2 := Z.land (Z.shiftr y (2 * 4)) _) in *. set (p1 := Z.land (Z.shiftr y (1 * 4)) _) in *.
  set (p0 := Z.land (Z.shiftr y (0 * 4)) _) in *.
  destruct (Z.ltb_spec p2 p3) as [|Hp]; [done|]. cbn [raise_if mbind res_bind] in H.
  destruct (value_bytes_count (len vw)) as (Hn1 & Hn2 & Hn3); [lia|done|].
  set (n := _bits_to_bytes _) in *. unfold int_to_be in H.
  pose proof (be_val_bound 1024 ltac:(lia) vw Hw3) as Hv.
  destruct (Z.ltb_spec (be_val 1024 vw) 0); [lia|].
  destruct (Z.leb_spec (256 ^ n) (be_val 1024 vw)) as [|Hv2]; [done|].
  cbn [orb reraise mbind res_bind] in H. injection H as <-.
  assert (len (be_digits 256 (Z.to_nat n) (be_val 1024 vw)) = n) as Hvl
    by (rewrite length_be_digits; lia).
  assert (share_data (Share (Z.shiftr x 5) e (Z.land x (Z.shiftl 1 4 - 1)) p4 (p3 + 1) (p2 + 1)
    p1 (p0 + 1) (be_digits 256 (Z.to_nat n) (be_val 1024 vw))) = idw ++ prw ++ vw) as Hsd.
  { unfold share_data. rewrite encode_id_exp_eq, encode_share_params_eq.
    unfold id_exp_int, params_int. cbn [identifier extendable iteration_exponent group_index
      group_threshold group_count member_index member_threshold value].
    rewrite Hvl, Hx1, Hn3. rewrite !Z.add_simpl_r, Hy1.
    unfold int_from_be. rewrite be_val_digits by (lia || rewrite Z2Nat.id; lia).
    unfold x, y. rewrite !(word_int_roundtrip _ _) by done. done. }
  split.
  - constructor; cbn [identifier extendable iteration_exponent group_index
      group_threshold group_count member_index member_threshold value]; try lia.
    + by apply be_digits_bound.
    + by rewrite Hvl.
  - unfold checksum_of. rewrite Hsd. cbn [extendable].
    rewrite Hdata, <- !app_assoc. do 3 f_equal.
    apply checksum_unique.
    + by repeat apply Forall_app_2.
    + done.
    + apply customization_string_bytes.
    + lia.
    + by rewrite <- !app_assoc, <- Hdata.
Qed.

(** The token-resolving half of [from_mnemonic] yields words of ten bits. *)
Lemma mnemonic_to_indices_ok m data : _mnemonic_to_indices m = Ok data -> words_ok data.
Proof.
  intros H. apply Forall_lookup. intros i x Hx. unfold _mnemonic_to_indices in H.
  assert (length data = length (str_split m)) as Hlen by (by apply mapM_res_length in H).
  destruct (lookup_lt_is_Some_2 (str_split m) i) as [tok Htok].
  { rewrite <- Hlen. by apply lookup_lt_Some in Hx. }
  destruct (mapM_res_lookup _ _ _ _ _ H Htok) as (y & Hy & Hw).
  assert (x = y) as -> by congruence. by apply word_index_range in Hw.
Qed.

Lemma share_words_ok s : share_wf s -> words_ok (share_data s ++ checksum_of s).
Proof.
  intros Hs. apply Forall_app_2; [exact (share_data_words s Hs)|].
  unfold checksum_of. apply create_checksum_words.
Qed.

(** Parsing raises nothing but [KeyShareError]. *)
Lemma from_mnemonic_error m e : from_mnemonic m = Err e -> e = KeyShareError.
Proof.
  intros H. assert (ensures (fun _ => True) (fun e => e = KeyShareError) (from_mnemonic m)) as He.
  2: { by rewrite H in He. }
  clear H. unfold from_mnemonic, _mnemonic_to_indices.
  eapply ensures_bind.
  { apply (ensures_mapM _ (fun i => 0 <= i < 1024)). intros tok _.
    destruct (_word_index tok) as [i|e'] eqn:Hi; cbn.
    - by apply word_index_range in Hi.
    - by apply word_index_error in Hi. }
  intros data _ [Hok _]. unfold share_from_indices.
  repeat (eapply ensures_bind; [by apply ensures_raise_if|intros _ _ _]).
  eapply ensures_bind with (P := fun _ => True); [|done].
  unfold int_to_be. rewrite int_from_word_indices_spec.
  match goal with |- context [be_val 1024 ?l <? 0] =>
    assert (0 <= be_val 1024 l) as Hnn end.
  { apply be_val_bound; [lia|]. unfold slice. by apply Forall_take, Forall_drop. }
  destruct (Z.ltb_spec (be_val 1024 (slice data (ID_EXP_LENGTH_WORDS + 2)
    (- CHECKSUM_LENGTH_WORDS))) 0); [lia|].
  by destruct (_ <=? _).
Qed.

(** A well-formed share prints, and its mnemonic reads back as the share. *)
Lemma mnemonic_from_mnemonic s :
  share_wf s -> exists m, mnemonic s = Ok m /\ from_mnemonic m = Ok s.
Proof.
  intros Hs. destruct (mnemonic_roundtrip _ (share_words_ok s Hs)) as (ws & Hws & Hback).
  exists (str_join ws). unfold mnemonic, words, from_mnemonic.
  fold (checksum_of s). rewrite Hws, Hback. split; [done|].
  by apply share_indices_roundtrip.
Qed.

Lemma from_mnemonic_inv m s :
  from_mnemonic m = Ok s ->
  share_wf s /\ _mnemonic_to_indices m = Ok (share_data s ++ checksum_of s).
Proof.
  unfold from_mnemonic. intros (data & Hd & H)%bind_Ok_inv.
  destruct (share_from_indices_inv data s) as [Hwf ->]; [|done|done].
  by apply (mnemonic_to_indices_ok m).
Qed.

(** ** Properties *)

(** C7.  Printing then parsing a share: every well-formed share (each field in
    the range its bits allow, at least 16 bytes of even length) has a mnemonic,
    and [from_mnemonic] reads it back as the same share. *)
Theorem share_mnemonic_roundtrip s :
  share_wf s -> exists m, mnemonic s = Ok m /\ from_mnemonic m = Ok s.
Proof. apply mnemonic_from_mnemonic. Qed.

Definition demo_share : _Share :=
  Share 7945 true 1 0 1 1 2 3 [187; 84; 170; 196; 184; 157; 200; 104; 186; 55; 217; 204; 33; 178; 206; 206].

Lemma demo_share_wf : share_wf demo_share.
Proof. constructor; cbn; try lia; try done. apply (bool_decide_unpack _). vm_compute. exact I. Qed.

Lemma share_mnemonic_roundtrip_witness :
  exists m, mnemonic demo_share = Ok m /\ from_mnemonic m = Ok demo_share.
Proof. apply (share_mnemonic_roundtrip demo_share). apply demo_share_wf. Defined.

(** Parsing only accepts well-formed shares, and two texts that parse to
    the same share consist of the same words: the share determines all word
    indices, checksum and padding included. *)
Theorem from_mnemonic_sound m s :
  from_mnemonic m = Ok s ->
  share_wf s /\
  forall m', from_mnemonic m' = Ok s -> _mnemonic_to_indices m' = _mnemonic_to_indices m.
Proof.
  intros [Hwf Hm]%from_mnemonic_inv. split; [done|].
  intros m' [_ Hm']%from_mnemonic_inv. by rewrite Hm, Hm'.
Qed.

Definition demo_mnemonic : string :=
  match mnemonic demo_share with Ok m => m | Err _ => EmptyString end.

Lemma from_mnemonic_sound_witness :
  share_wf demo_share /\
  forall m', from_mnemonic m' = Ok demo_share ->
    _mnemonic_to_indices m' = _mnemonic_to_indices demo_mnemonic.
Proof. apply (from_mnemonic_sound demo_mnemonic). vm_compute. reflexivity. Defined.

(** The flag that selects the customization string, from the first two words. *)
Definition flag_of (data : list Z) : bool := negb (Z.land (Z.shiftr (be_val 1024 (slice_to data 2)) 4) 1 =? 0).
Lemma flag_of_app (l e e' r : list Z) : (2 <= length l)%nat -> flag_of (l ++ e ++ r) = flag_of (l ++ e' ++ r).
Proof. intros. unfold flag_of. rewrite !slice_to_nonneg by done. by rewrite !take_app_le. Qed.

Lemma share_from_indices_checksum data data' s :
  share_from_indices data = Ok s -> length data' = length data ->
  _rs1024_verify_checksum data' (_customization_string (flag_of data')) = false ->
  share_from_indices data' = Err KeyShareError.
Proof.
  intros H Hlen Hver. unfold share_from_indices in *. rewrite Hlen.
  destruct (len data <? _); [done|]. cbn [raise_if mbind res_bind] in *.
  destruct (8 <? _); [done|]. cbn [raise_if mbind res_bind] in *.
  change (negb (Z.land (Z.shiftr (_int_from_word_indices (slice_to data' ID_EXP_LENGTH_WORDS)) ITERATION_EXP_LENGTH_BITS) 1 =? 0))
    with (flag_of data'). by rewrite Hver.
Qed.
Lemma share_flag data s : share_from_indices data = Ok s -> flag_of data = extendable s.
Proof.
  intros H. unfold share_from_indices in H. change ID_EXP_LENGTH_WORDS with 2 in H.
  destruct (len data <? _); [done|]. cbn [raise_if mbind res_bind] in H.
  destruct (8 <? _); [done|]. cbn [raise_if mbind res_bind] in H.
  change (negb (Z.land (Z.shiftr (_int_from_word_indices (slice_to data 2)) ITERATION_EXP_LENGTH_BITS) 1 =? 0))
    with (flag_of data) in H.
  destruct (negb (_rs1024_verify_checksum _ _)); [done|]. cbn [raise_if mbind res_bind] in H.
  destruct (_ <? _); [done|]. cbn [raise_if mbind res_bind] in H.
  destruct (reraise _ _ _); [|done]. cbn [mbind res_bind] in H. by injection H as <-.
Qed.

(** C8.  Typing errors are detected: if a share text is accepted, and another
    text of as many words agrees with it except in one word or in two neighbouring
    words (which may be exchanged), wherever they are, or in three consecutive
    words after the first two, then the other text is rejected with
    [KeyShareError].  The first two words hold the flag that selects what the
    checksum is taken over. *)
Theorem typing_error_detected m m' s l e e' r :
  from_mnemonic m = Ok s ->
  _mnemonic_to_indices m = Ok (l ++ e ++ r) ->
  _mnemonic_to_indices m' = Ok (l ++ e' ++ r) ->
  length e = length e' -> e <> e' ->
  (length e <= 2)%nat \/ (length e <= 3 /\ 2 <= length l)%nat ->
  from_mnemonic m' = Err KeyShareError.
Proof.
  intros Hs Hm Hm' Hlen Hne Hwhere.
  pose proof (mnemonic_to_indices_ok _ _ Hm) as Hok.
  pose proof (mnemonic_to_indices_ok _ _ Hm') as Hok'.
  rewrite !Forall_app in Hok, Hok'. destruct Hok as (? & ? & ?), Hok' as (_ & ? & _).
  destruct (from_mnemonic_inv m s Hs) as [Hwf Hidx]. assert (l ++ e ++ r = share_data s ++ checksum_of s) as Hidx'
    by (rewrite Hm in Hidx; congruence).
  unfold from_mnemonic in *. rewrite Hm' , Hm in *. rewrite bind_Ok in *.
  assert (_rs1024_verify_checksum (l ++ e ++ r) (_customization_string (flag_of (l ++ e ++ r))) = true) as Hver.
  { rewrite (share_flag _ _ Hs), Hidx'.
    apply rs1024_create_verify; [by apply share_data_words|apply customization_string_bytes]. }
  apply (share_from_indices_checksum (l ++ e ++ r) _ s Hs); [rewrite !length_app; lia|].
  destruct (decide (flag_of (l ++ e' ++ r) = flag_of (l ++ e ++ r))) as [->|Hf].
  - apply (rs1024_burst_detected l e e' r); try done; [apply customization_string_bytes|lia].
  - replace (flag_of (l ++ e' ++ r)) with (negb (flag_of (l ++ e ++ r))) by by destruct (flag_of _), (flag_of _).
    assert (length l < 2)%nat as Hl2 by (apply not_ge; intros Hl; by apply Hf, flag_of_app).
    assert (length e <> 0)%nat by (intros He0; apply Hne; destruct e, e'; done).
    apply (rs1024_flip_detected l e e' r); try done; lia.
Qed.

(** The demo share's mnemonic with its tenth word replaced. *)
Definition demo_indices : list Z := share_data demo_share ++ checksum_of demo_share.
Definition demo_mistyped : string :=
  match _words_from_indices (<[9%nat := 1]> demo_indices) with
  | Ok ws => str_join ws | Err _ => EmptyString end.

(** The same with the flag bit of its second word turned over. *)
Definition demo_flipped : string :=
  match _words_from_indices (<[1%nat := Z.lxor (nth 1 demo_indices 0) 16]> demo_indices) with
  | Ok ws => str_join ws | Err _ => EmptyString end.

Lemma typing_error_detected_witness :
  from_mnemonic demo_mistyped = Err KeyShareError /\ from_mnemonic demo_flipped = Err KeyShareError.
Proof.
  split.
  - apply (typing_error_detected demo_mnemonic demo_mistyped demo_share
      (take 9 demo_indices) (take 1 (drop 9 demo_indices)) [1] (drop 10 demo_indices));
      try (vm_compute; reflexivity); [vm_compute; discriminate|]. left. vm_compute. lia.
  - apply (typing_error_detected demo_mnemonic demo_flipped demo_share
      (take 1 demo_indices) (take 1 (drop 1 demo_indices)) [Z.lxor (nth 1 demo_indices 0) 16] (drop 2 demo_indices));
      try (vm_compute; reflexivity); [vm_compute; discriminate|]. left. vm_compute. lia.
Defined.

Lemma check_tokens_spec pos tokens :
  match check_tokens pos tokens with
  | inl indices => mapM_res _word_index tokens = Ok indices
  | inr d => exists i t e, tokens !! i = Some t /\ _word_index t = Err e /\
      d = NotAShareWord (pos + Z.of_nat i) (str_lower t) /\
      forall j u, (j < i)%nat -> tokens !! j = Some u -> is_ok (_word_index u) = true
  end.
Proof.
  revert pos. induction tokens as [|t tokens IH]; intros pos; [done|].
  cbn [check_tokens mapM_res]. destruct (_word_index t) as [k|e] eqn:E.
  - specialize (IH (pos + 1)). destruct (check_tokens (pos + 1) tokens) as [idx|d].
    + by rewrite IH.
    + destruct IH as (i & u & e & Hu & He & -> & Hbefore).
      exists (S i), u, e. split_and!; [done|done|f_equal; lia|].
      intros [|j] v Hj; simpl; [intros [= <-]; by rewrite E|].
      apply Hbefore. lia.
  - exists 0%nat, t, e. split_and!; [done|done|f_equal; lia|lia].
Qed.

Lemma check_share_lemma m :
  match check_share m with
  | None => exists data, _mnemonic_to_indices m = Ok data /\ 20 <= len data /\
      let flag := negb (Z.land (Z.shiftr (be_val 1024 (slice_to data 2)) 4) 1 =? 0) in
      _rs1024_verify_checksum data (_customization_string flag) = true
  | Some (NotAShareWord position token) =>
      exists i t e, str_split m !! i = Some t /\ _word_index t = Err e /\
        position = Z.of_nat i + 1 /\ token = str_lower t /\
        forall j u, (j < i)%nat -> str_split m !! j = Some u -> is_ok (_word_index u) = true
  | Some (TooFewWords found) => exists data, _mnemonic_to_indices m = Ok data /\
      found = len data /\ found < 20
  | Some ChecksumFailed => exists data, _mnemonic_to_indices m = Ok data /\ 20 <= len data /\
      share_from_indices data = Err KeyShareError
  end.
Proof.
  unfold check_share, _mnemonic_to_indices.
  pose proof (check_tokens_spec 1 (str_split m)) as Ht.
  destruct (check_tokens 1 (str_split m)) as [data|d].
  - rewrite Ht. change MIN_MNEMONIC_LENGTH_WORDS with 20.
    destruct (Z.ltb_spec (len data) 20); [eauto|].
    set (flag := negb (_ =? 0)).
    destruct (_rs1024_verify_checksum data (_customization_string flag)) eqn:Hv; cbn [negb].
    + eauto.
    + exists data. split_and!; [done|done|]. unfold share_from_indices.
      change MIN_MNEMONIC_LENGTH_WORDS with 20.
      rewrite (proj2 (Z.ltb_ge (len data) 20)) by done. cbn [raise_if mbind res_bind].
      destruct (8 <? _); [done|]. cbn [raise_if mbind res_bind]. fold flag. by rewrite Hv.
  - destruct Ht as (i & t & e & Hl & He & -> & Hb). exists i, t, e.
    split_and!; [done|done|lia|done|done].
Qed.

(** [check_share] diagnoses a share text correctly: it reports nothing
    exactly for texts of at least 20 share words whose checksum verifies (for
    the customization string their flag bit selects), it reports the FIRST
    token that is no share word, with its 1-based position, and otherwise the
    word count or the checksum failure. *)
Theorem check_share_spec m :
  match check_share m with
  | None => exists data, _mnemonic_to_indices m = Ok data /\ 20 <= len data /\
      let flag := negb (Z.land (Z.shiftr (be_val 1024 (slice_to data 2)) 4) 1 =? 0) in
      _rs1024_verify_checksum data (_customization_string flag) = true
  | Some (NotAShareWord position token) =>
      exists i t e, str_split m !! i = Some t /\ _word_index t = Err e /\
        position = Z.of_nat i + 1 /\ token = str_lower t /\
        forall j u, (j < i)%nat -> str_split m !! j = Some u -> is_ok (_word_index u) = true
  | Some (TooFewWords found) => exists data, _mnemonic_to_indices m = Ok data /\
      found = len data /\ found < 20
  | Some ChecksumFailed => exists data, _mnemonic_to_indices m = Ok data /\ 20 <= len data /\
      share_from_indices data = Err KeyShareError
  end.
Proof. apply check_share_lemma. Qed.
