(* ===== verification/Feistel.v ===== *)
(** * Passphrase encryption of the master secret

    The four-round Feistel network of [keyshare/slip39.py].  PBKDF2-HMAC-SHA256
    is a parameter: [pbkdf2_hmac password salt iterations dklen]. *)

From S2P Require Import Prelude Rs1024 Share.

Definition BASE_ITERATION_COUNT : Z := 10000.
Definition ROUND_COUNT : Z := 4.

Definition _xor (a b : bytes) : res bytes :=
  zip_strict a b ≫= fun pairs : list (Z * Z) =>
  Ok ((fun '(x, y) => Z.lxor x y) <$> pairs).

Definition _get_salt (identifier : Z) (extendable : bool) : res bytes :=
  if extendable then Ok []
  else id ← int_to_be identifier (_bits_to_bytes ID_LENGTH_BITS);
       Ok (CUSTOMIZATION_STRING_ORIG ++ id).

Section pbkdf2.
Variable pbkdf2_hmac : bytes -> bytes -> Z -> Z -> bytes.

(** A negative shift count raises, and [hashlib.pbkdf2_hmac] refuses a key
    length below one. *)
Definition _round_function (i : Z) (passphrase : bytes) (exponent : Z) (salt r : bytes) :
    res bytes :=
  if exponent <? 0 then Err ValueError
  else if len r <? 1 then Err ValueError
  else Ok (pbkdf2_hmac ([i] ++ passphrase) (salt ++ r)
             (Z.shiftl BASE_ITERATION_COUNT exponent / ROUND_COUNT) (len r)).

(** One round: [left, right = right, _xor(left, f)]. *)
Definition feistel_round (passphrase : bytes) (exponent : Z) (salt : bytes)
    (st : bytes * bytes) (i : Z) : res (bytes * bytes) :=
  let '(l, r) := st in
  f ← _round_function i passphrase exponent salt r;
  x ← _xor l f;
  Ok (r, x).

Definition _encrypt (master_secret passphrase : bytes) (iteration_exponent identifier : Z)
    (extendable : bool) : res bytes :=
  let l := slice_to master_secret (len master_secret / 2) in
  let r := slice_from master_secret (len master_secret / 2) in
  salt ← _get_salt identifier extendable;
  '(l, r) ← foldM (feistel_round passphrase iteration_exponent salt) (l, r)
                     (seqZ 0 ROUND_COUNT);
  Ok (r ++ l).

Definition _decrypt (encrypted_master_secret passphrase : bytes)
    (iteration_exponent identifier : Z) (extendable : bool) : res bytes :=
  let l := slice_to encrypted_master_secret (len encrypted_master_secret / 2) in
  let r := slice_from encrypted_master_secret (len encrypted_master_secret / 2) in
  salt ← _get_salt identifier extendable;
  '(l, r) ← foldM (feistel_round passphrase iteration_exponent salt) (l, r)
                     (reverse (seqZ 0 ROUND_COUNT));
  Ok (r ++ l).

(** What is relied on of PBKDF2: it returns [dklen] bytes. *)
Definition pbkdf2_ok : Prop := forall password salt iterations dklen, 0 <= dklen ->
  len (pbkdf2_hmac password salt iterations dklen) = dklen /\
  bytes_ok (pbkdf2_hmac password salt iterations dklen).
End pbkdf2.

Section feistel.
Context (pbkdf2_hmac : bytes -> bytes -> Z -> Z -> bytes) (Hkdf : pbkdf2_ok pbkdf2_hmac).
Context (passphrase : bytes) (exponent : Z) (Hexp : 0 <= exponent) (salt : bytes).

Abbreviation round := (feistel_round pbkdf2_hmac passphrase exponent salt).

Lemma xor_Ok (a b : bytes) : length a = length b -> _xor a b = Ok (zip_with Z.lxor a b).
Proof using.
  intros H. unfold _xor, zip_strict. rewrite decide_True by done. simpl. f_equal.
  clear H. revert b. induction a as [|x a IH]; intros [|y b]; csimpl; [done..|by f_equal].
Qed.
Lemma xor_Err (a b : bytes) : length a <> length b -> _xor a b = Err ValueError.
Proof using. intros H. unfold _xor, zip_strict. by rewrite decide_False. Qed.

Lemma zip_with_lxor_cancel (a b : bytes) :
  length a = length b -> zip_with Z.lxor (zip_with Z.lxor a b) b = a.
Proof using.
  revert b. induction a as [|x a IH]; intros [|y b]; simpl; try done.
  intros [= H]. by rewrite lxor_cancel, IH.
Qed.

(** A round on halves of equal positive length, and its inverse. *)
Lemma round_Ok l r i :
  length l = length r -> (0 < length r)%nat ->
  exists f, len f = len r /\ bytes_ok f /\ round (l, r) i = Ok (r, zip_with Z.lxor l f) /\
    round (zip_with Z.lxor l f, r) i = Ok (r, l).
Proof using Hkdf Hexp.
  intros Hlen Hpos. unfold feistel_round, _round_function.
  destruct (Z.ltb_spec exponent 0); [lia|].
  destruct (Z.ltb_spec (len r) 1); [lia|]. simpl.
  set (f := pbkdf2_hmac _ _ _ _).
  assert (len f = len r /\ bytes_ok f) as [Hf Hfb] by (apply Hkdf; lia).
  exists f. split_and!; [done..| |]; rewrite !xor_Ok by (rewrite ?length_zip_with; lia);
    simpl; by rewrite ?zip_with_lxor_cancel by lia.
Qed.

Lemma zip_with_lxor_bytes (a b : bytes) :
  bytes_ok a -> bytes_ok b -> bytes_ok (zip_with Z.lxor a b).
Proof using.
  intros Ha Hb. apply Forall_zip_with_fst with (P := is_byte); [done|].
  eapply Forall_impl; [done|]. intros; by apply lxor_byte.
Qed.

(** Running the rounds in reverse order on the swapped halves undoes them. *)
Lemma rounds_inverse l r ks n :
  length l = n -> length r = n -> (0 < n)%nat ->
  exists l' r', foldM round (l, r) ks = Ok (l', r') /\ length l' = n /\ length r' = n /\
    (bytes_ok l -> bytes_ok r -> bytes_ok l' /\ bytes_ok r') /\
    foldM round (r', l') (reverse ks) = Ok (r, l).
Proof using Hkdf Hexp.
  intros Hl Hr Hn. revert l r Hl Hr. induction ks as [|i ks IH]; intros l r Hl Hr.
  { exists l, r. done. }
  destruct (round_Ok l r i) as (f & Hf & Hfb & H1 & H2); [lia..|].
  destruct (IH r (zip_with Z.lxor l f)) as (l' & r' & Hf' & Hl' & Hr' & Hby & Hinv);
    [done|rewrite length_zip_with; lia|].
  exists l', r'. cbn [foldM]. rewrite H1, bind_Ok. split_and!; [done..| |].
  { intros Hlb Hrb. apply Hby; [done|by apply zip_with_lxor_bytes]. }
  rewrite reverse_cons, foldM_app, Hinv, bind_Ok. cbn [foldM]. by rewrite H2.
Qed.
End feistel.

(** The two halves of a string of even length. *)
Lemma halves (m : bytes) :
  len m `mod` 2 = 0 ->
  exists n, length (slice_to m (len m / 2)) = n /\ length (slice_from m (len m / 2)) = n /\
    length m = (n + n)%nat /\ slice_to m (len m / 2) ++ slice_from m (len m / 2) = m.
Proof.
  intros He. pose proof (Z.div_mod (len m) 2 ltac:(lia)) as Hd. rewrite He in Hd.
  exists (Z.to_nat (len m / 2)).
  rewrite slice_to_nonneg, slice_from_nonneg by (apply Z.div_pos; lia).
  rewrite length_take, length_drop, take_drop. split_and!; [lia..|done].
Qed.

Lemma halves_app (l r : bytes) :
  length l = length r ->
  slice_to (l ++ r) (len (l ++ r) / 2) = l /\ slice_from (l ++ r) (len (l ++ r) / 2) = r.
Proof.
  intros H. assert (len (l ++ r) / 2 = len l) as ->.
  { rewrite length_app, H. symmetry. apply (Z.div_unique_pos _ _ _ 0); lia. }
  split; [by apply slice_to_app|by apply slice_from_app].
Qed.

Lemma get_salt_Ok i e : 0 <= i < 2 ^ 15 -> exists salt, _get_salt i e = Ok salt.
Proof.
  intros Hi. unfold _get_salt. destruct e; [eauto|].
  change (_bits_to_bytes ID_LENGTH_BITS) with 2. unfold int_to_be.
  destruct (Z.ltb_spec i 0); [lia|]. destruct (Z.leb_spec (256 ^ 2) i); [lia|]. eauto.
Qed.

Lemma decrypt_encrypt_gen pbkdf2_hmac m pw e i x :
  pbkdf2_ok pbkdf2_hmac -> len m `mod` 2 = 0 -> 0 < len m -> 0 <= i < 2 ^ 15 -> 0 <= e ->
  exists c, _encrypt pbkdf2_hmac m pw e i x = Ok c /\ length c = length m /\
    (bytes_ok m -> bytes_ok c) /\ _decrypt pbkdf2_hmac c pw e i x = Ok m.
Proof.
  intros Hkdf He Hpos Hi Hexp. destruct (halves m He) as (n & Hl & Hr & Hn & Hm).
  destruct (get_salt_Ok i x Hi) as [salt Hsalt].
  destruct (rounds_inverse pbkdf2_hmac Hkdf pw e Hexp salt _ _ (seqZ 0 ROUND_COUNT) n Hl Hr)
    as (l' & r' & Henc & Hl' & Hr' & Hby & Hdec); [lia|].
  exists (r' ++ l'). unfold _encrypt, _decrypt. rewrite Hsalt, !bind_Ok, Henc.
  destruct (halves_app r' l') as [-> ->]; [lia|].
  rewrite Hdec, length_app. split_and!; [done|lia| |].
  - rewrite <- Hm at 1. intros [Hlb Hrb]%Forall_app.
    destruct (Hby Hlb Hrb). by apply Forall_app.
  - cbn [mbind res_bind]. by rewrite Hm.
Qed.

(** ** Properties *)

(** Decryption inverts encryption: for every non-empty secret of even
    length, passphrase, iteration exponent, 15-bit identifier and either salt
    construction, [_encrypt] produces a ciphertext of the same length which
    [_decrypt] with the same parameters turns back into the secret; nothing is
    assumed of PBKDF2 beyond the length of its output. *)
Theorem decrypt_encrypt pbkdf2_hmac m pw e i x :
  pbkdf2_ok pbkdf2_hmac -> len m `mod` 2 = 0 -> 0 < len m -> 0 <= i < 2 ^ 15 -> 0 <= e ->
  exists c, _encrypt pbkdf2_hmac m pw e i x = Ok c /\ length c = length m /\
    _decrypt pbkdf2_hmac c pw e i x = Ok m.
Proof.
  intros Hkdf He Hpos Hi Hexp.
  destruct (decrypt_encrypt_gen pbkdf2_hmac m pw e i x) as (c & ? & ? & _ & ?); eauto.
Qed.

Definition demo_pbkdf2 (password salt : bytes) (iterations dklen : Z) : bytes :=
  (fun i => (sumZ password * 3 + sumZ salt + iterations + 11 * i) `mod` 256) <$> seqZ 0 dklen.
Lemma demo_pbkdf2_ok : pbkdf2_ok demo_pbkdf2.
Proof.
  intros pw s it n Hn. unfold demo_pbkdf2. rewrite length_fmap, length_seqZ. split; [lia|].
  apply Forall_fmap, Forall_true. intros i. by apply Z.mod_pos_bound.
Qed.

Lemma decrypt_encrypt_witness :
  exists c, _encrypt demo_pbkdf2 [1; 2; 3; 4] [112; 119] 1 77 false = Ok c /\
    length c = 4%nat /\ _decrypt demo_pbkdf2 c [112; 119] 1 77 false = Ok [1; 2; 3; 4].
Proof.
  apply (decrypt_encrypt demo_pbkdf2 [1; 2; 3; 4]); [apply demo_pbkdf2_ok|reflexivity|reflexivity|lia|lia].
Defined.
