(* ===== verification/Slip39.v ===== *)
(** * Splitting and combining mnemonic shares

    The grouped SLIP-0039 layer of [keyshare/slip39.py]: the encrypted master
    secret, the share groups collected from mnemonics, and the public entry
    points [generate_mnemonics], [combine_mnemonics], [split_secret] and
    [recover_secret].  A Python set of shares is a duplicate-free list (no
    result depends on its order); the dictionary of groups is an association
    list in insertion order. *)

From S2P Require Import Prelude Shamir Rs1024 Wordlist Share Feistel.

(** ** Groups of shares *)

(** [set.add]. *)
Definition set_add {A} `{EqDecision A} (x : A) (s : list A) : list A :=
  if decide (x ∈ s) then s else s ++ [x].

Record _ShareGroup := ShareGroup { shares : list _Share }.

(** [next(iter(self.shares))]. *)
Definition any_share (g : _ShareGroup) : res _Share :=
  match shares g with s :: _ => Ok s | [] => Err StopIteration end.
Definition ShareGroup_common_parameters (g : _ShareGroup) : res _ShareCommonParameters :=
  s ← any_share g; Ok (common_parameters s).
Definition ShareGroup_group_parameters (g : _ShareGroup) : res _ShareGroupParameters :=
  s ← any_share g; Ok (group_parameters s).
Definition ShareGroup_member_threshold (g : _ShareGroup) : res Z :=
  s ← any_share g; Ok (member_threshold s).

Definition ShareGroup_add (g : _ShareGroup) (share : _Share) : res _ShareGroup :=
  mismatch ← (match shares g with
              | [] => Ok false
              | _ => p ← ShareGroup_group_parameters g;
                     Ok (bool_decide (p <> group_parameters share))
              end);
  _ ← raise_if mismatch KeyShareError;
  Ok (ShareGroup (set_add share (shares g))).

#[global] Instance member_index_le_dec :
  RelDecision (fun s1 s2 : _Share => member_index s1 <= member_index s2).
Proof. intros s1 s2. apply _. Defined.

(** The shares of a group in the order of their member indices. *)
Definition to_raw_shares (g : _ShareGroup) : list _RawShare :=
  (fun s => RawShare (member_index s) (value s)) <$>
    merge_sort (fun s1 s2 => member_index s1 <= member_index s2) (shares g).

(** ** The dictionary of groups *)

Abbreviation group_dict := (list (Z * _ShareGroup)).

(** [group = groups.setdefault(k, _ShareGroup()); group.add(share)]: the group
    object in the dictionary is the one updated. *)
Fixpoint groups_add (groups : group_dict) (k : Z) (share : _Share) : res group_dict :=
  match groups with
  | [] => g ← ShareGroup_add (ShareGroup []) share; Ok [(k, g)]
  | (k', g) :: rest =>
      if k' =? k then g ← ShareGroup_add g share; Ok ((k', g) :: rest)
      else rest ← groups_add rest k share; Ok ((k', g) :: rest)
  end.

Definition decode_share (st : list _ShareCommonParameters * group_dict) (share : _Share) :
    res (list _ShareCommonParameters * group_dict) :=
  let '(common_params, groups) := st in
  groups ← groups_add groups (group_index share) share;
  Ok (set_add (common_parameters share) common_params, groups).

Definition decode_mnemonic (st : list _ShareCommonParameters * group_dict) (mnemonic : string) :
    res (list _ShareCommonParameters * group_dict) :=
  share ← from_mnemonic mnemonic; decode_share st share.

Definition _decode_mnemonics (mnemonics : list string) : res group_dict :=
  '(common_params, groups) ← foldM decode_mnemonic ([], []) mnemonics;
  _ ← raise_if (negb (length common_params =? 1)%nat) KeyShareError;
  Ok groups.

(** ** The encrypted master secret *)

Record _EncryptedMasterSecret := EncryptedMasterSecret {
  ems_identifier : Z; ems_extendable : bool; ems_iteration_exponent : Z; ciphertext : bytes
}.

(** The checks of one group before its secret is rebuilt. *)
Definition check_group (g : _ShareGroup) : res unit :=
  t ← ShareGroup_member_threshold g;
  _ ← raise_if (len (shares g) <? t) KeyShareError;
  raise_if (negb (size (list_to_set (member_index <$> shares g) : gset Z)
                  =? length (shares g))%nat) KeyShareError.

Section slip39.
Variable token_bytes : nat -> Z -> bytes.
Variable hmac_sha256 : bytes -> bytes -> bytes.
Variable pbkdf2_hmac : bytes -> bytes -> Z -> Z -> bytes.

Definition from_master_secret (master_secret passphrase : bytes) (identifier : Z)
    (extendable : bool) (iteration_exponent : Z) : res _EncryptedMasterSecret :=
  ciphertext ← _encrypt pbkdf2_hmac master_secret passphrase iteration_exponent identifier
                 extendable;
  Ok (EncryptedMasterSecret identifier extendable iteration_exponent ciphertext).

Definition decrypt (ems : _EncryptedMasterSecret) (passphrase : bytes) : res bytes :=
  _decrypt pbkdf2_hmac (ciphertext ems) passphrase (ems_iteration_exponent ems)
    (ems_identifier ems) (ems_extendable ems).

Definition _random_identifier (ctr : nat) : res (Z * nat) :=
  '(raw, ctr) ← _random_bytes token_bytes ctr (_bits_to_bytes ID_LENGTH_BITS);
  Ok (Z.land (int_from_be raw) (Z.shiftl 1 ID_LENGTH_BITS - 1), ctr).

Definition _check_master_secret (master_secret : bytes) : res unit :=
  _ ← raise_if (len master_secret * 8 <? MIN_STRENGTH_BITS) KeyShareError;
  raise_if (negb (len master_secret `mod` 2 =? 0)) KeyShareError.

Definition _check_passphrase (passphrase : bytes) : res unit :=
  raise_if (negb (forallb (fun c => (32 <=? c) && (c <=? 126)) passphrase)) KeyShareError.

(** The mnemonics of one group, from its group secret. *)
Definition group_mnemonics (identifier : Z) (extendable : bool) (iteration_exponent : Z)
    (group_threshold group_count : Z) (st : list (list string) * nat)
    (g : (Z * Z) * _RawShare) : res (list (list string) * nat) :=
  let '(result, ctr) := st in
  let '((member_threshold, member_count), group_share) := g in
  '(members, ctr) ← _split_secret token_bytes hmac_sha256 ctr member_threshold member_count
                      (rs_data group_share);
  mnemonics ← mapM_res (fun m =>
      mnemonic (Share identifier extendable iteration_exponent (rs_x group_share)
        group_threshold group_count (rs_x m) member_threshold (rs_data m))) members;
  Ok (result ++ [mnemonics], ctr).

Definition generate_mnemonics (ctr : nat) (group_threshold : Z) (groups : list (Z * Z))
    (master_secret passphrase : bytes) (iteration_exponent : Z) (extendable : bool) :
    res (list (list string) * nat) :=
  _ ← _check_master_secret master_secret;
  _ ← _check_passphrase passphrase;
  _ ← raise_if (group_threshold <? 1) KeyShareError;
  _ ← raise_if (len groups <? group_threshold) KeyShareError;
  _ ← raise_if (existsb (fun '(member_threshold, member_count) =>
                   (member_threshold =? 1) && (1 <? member_count)) groups) KeyShareError;
  '(identifier, ctr) ← _random_identifier ctr;
  ems ← from_master_secret master_secret passphrase identifier extendable iteration_exponent;
  '(group_shares, ctr) ← _split_secret token_bytes hmac_sha256 ctr group_threshold
                           (len groups) (ciphertext ems);
  zipped ← zip_strict groups group_shares;
  foldM (group_mnemonics identifier extendable iteration_exponent group_threshold
           (len groups)) ([], ctr) zipped.

(** One entry of [group_shares]: the group's secret from its first
    [member_threshold] shares. *)
Definition recover_group (kg : Z * _ShareGroup) : res _RawShare :=
  let '(group_index, g) := kg in
  t ← ShareGroup_member_threshold g;
  d ← _recover_secret hmac_sha256 t (slice_to (to_raw_shares g) t);
  Ok (RawShare group_index d).

Definition _recover_ems (groups : group_dict) : res _EncryptedMasterSecret :=
  match groups with
  | [] => Err KeyShareError
  | (_, g) :: _ =>
      params ← ShareGroup_common_parameters g;
      _ ← raise_if (len groups <? cp_group_threshold params) KeyShareError;
      _ ← raise_if (negb (len groups =? cp_group_threshold params)) KeyShareError;
      _ ← foldM (fun _ kg => check_group kg.2) tt groups;
      group_shares ← mapM_res recover_group groups;
      ciphertext ← _recover_secret hmac_sha256 (cp_group_threshold params) group_shares;
      Ok (EncryptedMasterSecret (cp_identifier params) (cp_extendable params)
            (cp_iteration_exponent params) ciphertext)
  end.

Definition combine_mnemonics (mnemonics : list string) (passphrase : bytes) : res bytes :=
  _ ← raise_if (match mnemonics with [] => true | _ => false end) KeyShareError;
  groups ← _decode_mnemonics mnemonics;
  ems ← _recover_ems groups;
  decrypt ems passphrase.

Definition split_secret (ctr : nat) (secret : bytes) (threshold count : Z)
    (passphrase : bytes) (iteration_exponent : Z) : res (list string) :=
  '(groups, _) ← generate_mnemonics ctr 1 [(threshold, count)] secret passphrase
                   iteration_exponent true;
  py_get groups 0.

Definition recover_secret (mnemonics : list string) (passphrase : bytes) : res bytes :=
  combine_mnemonics mnemonics passphrase.
End slip39.

(** ** Collecting shares into groups *)

Section set_add.
Context {A : Type} `{EqDecision A}.
Implicit Types (x y : A) (s : list A).
Lemma elem_of_set_add x y s : y ∈ set_add x s <-> y ∈ s \/ y = x.
Proof using.
  unfold set_add. case_decide; [naive_solver|].
  by rewrite elem_of_app, list_elem_of_singleton.
Qed.
Lemma NoDup_set_add x s : NoDup s -> NoDup (set_add x s).
Proof using.
  intros Hs. unfold set_add. case_decide as Hx; [done|]. apply NoDup_app.
  split_and!; [done| |apply NoDup_singleton].
  intros y Hy ->%list_elem_of_singleton. done.
Qed.
Lemma set_add_nonempty x s : set_add x s <> [].
Proof using. unfold set_add. case_decide; [by intros ->; set_solver|by destruct s]. Qed.
End set_add.

(** [groups] holds exactly the shares [ss], filed by group index, and the
    shares of one group agree on the group parameters. *)
Record groups_inv (ss : list _Share) (groups : group_dict) : Prop := {
  gi_nodup : NoDup groups.*1;
  gi_keys : forall s, s ∈ ss -> group_index s ∈ groups.*1;
  gi_group : forall k g, (k, g) ∈ groups ->
    NoDup (shares g) /\ shares g <> [] /\
    (forall s, s ∈ shares g <-> s ∈ ss /\ group_index s = k);
  gi_params : forall s s', s ∈ ss -> s' ∈ ss -> group_index s = group_index s' ->
    group_parameters s = group_parameters s';
}.

Lemma groups_add_new groups k s :
  k ∉ groups.*1 -> groups_add groups k s = Ok (groups ++ [(k, ShareGroup [s])]).
Proof.
  induction groups as [|[k' g] groups IH]; csimpl; [done|].
  intros [Hne Hk]%not_elem_of_cons. destruct (Z.eqb_spec k' k) as [->|]; [done|].
  by rewrite IH.
Qed.
Lemma groups_add_old l1 k g l2 s :
  k ∉ l1.*1 ->
  groups_add (l1 ++ (k, g) :: l2) k s
  = (g' ← ShareGroup_add g s; Ok (l1 ++ (k, g') :: l2)).
Proof.
  induction l1 as [|[k' g0] l1 IH]; csimpl; [by rewrite Z.eqb_refl|].
  intros [Hne Hk]%not_elem_of_cons. destruct (Z.eqb_spec k' k) as [->|]; [done|].
  rewrite IH by done. by destruct (ShareGroup_add g s).
Qed.

Lemma ShareGroup_add_spec g s :
  shares g <> [] ->
  (forall a b, a ∈ shares g -> b ∈ shares g -> group_parameters a = group_parameters b) ->
  (exists s', s' ∈ shares g /\ group_parameters s' <> group_parameters s /\
     ShareGroup_add g s = Err KeyShareError) \/
  ((forall s', s' ∈ shares g -> group_parameters s' = group_parameters s) /\
     ShareGroup_add g s = Ok (ShareGroup (set_add s (shares g)))).
Proof.
  destruct g as [[|s0 l]]; [done|]. intros _ Hg. unfold ShareGroup_add. cbn [shares] in *.
  cbn. case_bool_decide as Hp; cbn.
  - left. exists s0. split_and!; [set_solver|done|done].
  - right. split; [|done]. intros s' Hs'. rewrite <- Hp. apply Hg; set_solver.
Qed.

(** Filing one more share. *)
Lemma groups_add_spec ss groups s :
  groups_inv ss groups ->
  (exists groups', groups_add groups (group_index s) s = Ok groups' /\
     groups_inv (ss ++ [s]) groups') \/
  (groups_add groups (group_index s) s = Err KeyShareError /\
   exists s', s' ∈ ss /\ group_index s' = group_index s /\
     group_parameters s' <> group_parameters s).
Proof.
  intros [Hnd Hkeys Hgr Hpar].
  destruct (decide (group_index s ∈ groups.*1)) as [Hin|Hnin].
  - apply list_elem_of_fmap in Hin as ([k g] & Hk & (l1 & l2 & ->)%list_elem_of_split).
    cbn in Hk. subst k. rewrite fmap_app in Hnd. csimpl in Hnd.
    pose proof Hnd as (Hnd1 & Hdisj & [Hk2 Hnd2]%NoDup_cons)%NoDup_app.
    assert (group_index s ∉ l1.*1) as Hk1 by (intros H; apply (Hdisj _ H); left).
    rewrite groups_add_old by done.
    destruct (Hgr (group_index s) g) as (Hgnd & Hne & Hmem); [set_solver|].
    destruct (ShareGroup_add_spec g s Hne) as [(s' & Hs' & Hp & ->)|[Hp ->]].
    + intros a b [? ?]%Hmem [? ?]%Hmem. apply Hpar; [done..|congruence].
    + right. split; [done|]. apply Hmem in Hs' as [? ?]. eauto.
    + left. eexists. split; [done|]. constructor.
      * rewrite fmap_app. by csimpl.
      * intros s' [Hs' | ->%list_elem_of_singleton]%elem_of_app; rewrite fmap_app; csimpl;
          [|set_solver]. apply Hkeys in Hs'. rewrite fmap_app in Hs'. by csimpl in Hs'.
      * intros k g' Hkg. destruct (decide (k = group_index s)) as [->|Hne'].
        { assert (g' = ShareGroup (set_add s (shares g))) as ->.
          { apply elem_of_app in Hkg as [Hkg|Hkg].
            - destruct Hk1. apply list_elem_of_fmap. by exists (group_index s, g').
            - apply elem_of_cons in Hkg as [[= ->]|Hkg]; [done|].
              destruct Hk2. apply list_elem_of_fmap. by exists (group_index s, g'). }
          cbn. split_and!; [by apply NoDup_set_add|apply set_add_nonempty|].
          intros s'. rewrite elem_of_set_add, Hmem. set_solver. }
        destruct (Hgr k g') as (? & ? & Hm); [set_solver|]. split_and!; [done..|].
        intros s'. rewrite Hm. set_solver.
      * assert (forall a, a ∈ ss -> group_index a = group_index s ->
                  group_parameters a = group_parameters s) as Hs.
        { intros a Ha Hag. apply Hp, Hmem. done. }
        set_unfold. intros a b [? | [-> | []]] [? | [-> | []]] ?; auto. symmetry. auto.
  - left. rewrite groups_add_new by done. eexists. split; [done|]. constructor.
    + rewrite fmap_app. csimpl. apply NoDup_app. split_and!; [done| |apply NoDup_singleton].
      intros k Hk ->%list_elem_of_singleton. done.
    + intros s' [Hs' | ->%list_elem_of_singleton]%elem_of_app; rewrite fmap_app; csimpl; set_solver.
    + intros k g [Hkg|[= -> ->]%list_elem_of_singleton]%elem_of_app.
      * assert (k <> group_index s).
        { intros ->. apply Hnin, list_elem_of_fmap. by exists (group_index s, g). }
        destruct (Hgr k g Hkg) as (? & ? & Hm). split_and!; [done..|].
        intros s'. rewrite Hm. set_solver.
      * cbn. split_and!; [apply NoDup_singleton|done|]. intros s'.
        rewrite elem_of_app, !list_elem_of_singleton. split; [intros ->; auto|].
        intros [[Hs' | -> ] Hg]; [|done]. apply Hkeys in Hs'. congruence.
    + assert (forall a, a ∈ ss -> group_index a = group_index s -> False) as Hs.
      { intros a Ha Hg. apply Hkeys in Ha. congruence. }
      set_unfold. intros a b [? | [-> | []]] [? | [-> | []]] ?; auto; exfalso; eauto.
Qed.

(** The state of [_decode_mnemonics] after the shares [ss]. *)
Record decode_inv (ss : list _Share) (st : list _ShareCommonParameters * group_dict) : Prop := {
  di_groups : groups_inv ss st.2;
  di_common_nodup : NoDup st.1;
  di_common : forall c, c ∈ st.1 <-> exists s, s ∈ ss /\ c = common_parameters s;
}.

Lemma decode_inv_nil : decode_inv [] ([], []).
Proof. repeat constructor; set_solver. Qed.

Lemma decode_share_spec ss st s :
  decode_inv ss st ->
  (exists st', decode_share st s = Ok st' /\ decode_inv (ss ++ [s]) st') \/
  (decode_share st s = Err KeyShareError /\
   exists s', s' ∈ ss /\ group_index s' = group_index s /\
     group_parameters s' <> group_parameters s).
Proof.
  destruct st as [cps groups]. intros [Hg Hnd Hc]. cbn in *.
  destruct (groups_add_spec ss groups s Hg) as [(groups' & -> & Hg')|[-> Hs]]; cbn; [|by right].
  left. eexists. split; [done|]. constructor; cbn; [done|by apply NoDup_set_add|].
  intros c. rewrite elem_of_set_add, Hc. set_solver.
Qed.

Lemma decode_mnemonic_eq st m :
  decode_mnemonic st m = (share ← from_mnemonic m; decode_share st share).
Proof. done. Qed.

(** Decoding a list of mnemonics: the shares they parse to, grouped; or a
    [KeyShareError]. *)
Lemma decode_fold_spec ms ss st :
  (forall m e, m ∈ ms -> from_mnemonic m = Err e -> e = KeyShareError) ->
  decode_inv ss st ->
  (exists ss' st', Forall2 (fun m s => from_mnemonic m = Ok s) ms ss' /\
     foldM decode_mnemonic st ms = Ok st' /\ decode_inv (ss ++ ss') st') \/
  foldM decode_mnemonic st ms = Err KeyShareError.
Proof.
  intros Herr. revert ss st. induction ms as [|m ms IH]; intros ss st Hst.
  { left. exists [], st. rewrite app_nil_r. split_and!; [constructor|done|done]. }
  cbn [foldM]. rewrite decode_mnemonic_eq. destruct (from_mnemonic m) as [s|e] eqn:Hm; cbn [mbind res_bind].
  2: { right. f_equal. eapply Herr; [left|done]. }
  destruct (decode_share_spec ss st s Hst) as [(st' & -> & Hst')|[-> _]]; cbn [mbind res_bind];
    [|by right].
  destruct (IH ltac:(intros; eapply Herr; [by right|done]) _ _ Hst')
    as [(ss' & st'' & HF & Hf & Hinv)|?]; [|by right].
  left. exists (s :: ss'), st''. split_and!; [by constructor|done|]. by rewrite <- app_assoc in Hinv.
Qed.

Lemma decode_fold_Ok ms ss ss0 st :
  decode_inv ss0 st -> Forall2 (fun m s => from_mnemonic m = Ok s) ms ss ->
  (forall s s', s ∈ ss0 ++ ss -> s' ∈ ss0 ++ ss -> group_index s = group_index s' ->
     group_parameters s = group_parameters s') ->
  exists st', foldM decode_mnemonic st ms = Ok st' /\
    decode_inv (ss0 ++ ss) st'.
Proof.
  intros Hst HF. revert ss0 st Hst. induction HF as [|m s ms ss Hm HF IH]; intros ss0 st Hst Hp.
  { exists st. by rewrite app_nil_r. }
  cbn [foldM]. rewrite decode_mnemonic_eq, Hm, bind_Ok.
  destruct (decode_share_spec ss0 st s Hst) as [(st' & -> & Hst')|[_ (s' & ? & ? & [])]].
  - rewrite bind_Ok. destruct (IH _ _ Hst') as (st'' & Hf & Hinv).
    { intros a b. rewrite <- app_assoc. apply Hp. }
    rewrite <- app_assoc in Hinv. eauto.
  - apply Hp; [set_solver..|done].
Qed.

(** [len(common_params) != 1]. *)
Lemma common_params_one ss st :
  decode_inv ss st ->
  (length st.1 =? 1)%nat = true <->
  ss <> [] /\ forall s s', s ∈ ss -> s' ∈ ss -> common_parameters s = common_parameters s'.
Proof.
  intros [_ Hnd Hc]. rewrite Nat.eqb_eq. destruct st as [cps groups]. cbn in *. split.
  - destruct cps as [|c [|]]; [done| |done]. intros _. split.
    + intros ->. destruct (proj1 (Hc c)) as (s & Hs & _); set_solver.
    + intros s s' Hs Hs'. assert (common_parameters s ∈ [c] /\ common_parameters s' ∈ [c]) as [H1 H2].
      { split; apply Hc; eauto. }
      apply list_elem_of_singleton in H1, H2. congruence.
  - intros [Hne Hall]. destruct ss as [|s ss]; [done|].
    assert (cps ≡ₚ [common_parameters s]) as Hp; [|by apply Permutation_length in Hp].
    apply NoDup_Permutation; [done|apply NoDup_singleton|]. intros c.
    rewrite Hc, list_elem_of_singleton. split.
    + intros (s' & Hs' & ->). apply Hall; [done|left].
    + intros ->. exists s. split; [left|done].
Qed.

(** ** Rebuilding the secrets *)

Section recover.
Context (hmac : bytes -> bytes -> bytes) (Hhmac : hmac_ok hmac).

Lemma to_raw_shares_perm g :
  to_raw_shares g ≡ₚ (fun s => RawShare (member_index s) (value s)) <$> shares g.
Proof using. unfold to_raw_shares. by rewrite merge_sort_Permutation. Qed.

(** A group holding enough shares of a sharing of [secret] passes the checks
    and yields [secret]. *)
Lemma recover_group_Ok k g t c secret members :
  shares g <> [] -> Forall (fun s => member_threshold s = t) (shares g) ->
  NoDup (member_index <$> shares g) -> t <= len (shares g) ->
  1 <= t -> c <= 16 -> bytes_ok secret -> 4 <= len secret ->
  shares_of hmac t c secret members ->
  (forall s, s ∈ shares g -> RawShare (member_index s) (value s) ∈ members) ->
  check_group g = Ok tt /\ recover_group hmac (k, g) = Ok (RawShare k secret).
Proof using Hhmac.
  intros Hne Hthr Hnd Hlen Ht Hc Hb Hl Hof Hmem.
  assert (ShareGroup_member_threshold g = Ok t) as Hmt.
  { unfold ShareGroup_member_threshold, any_share. destruct (shares g) as [|s l]; [done|].
    cbn. by apply Forall_cons in Hthr as [-> _]. }
  split.
  - unfold check_group. rewrite Hmt, bind_Ok.
    destruct (Z.ltb_spec (len (shares g)) t); [lia|]. cbn [raise_if]. rewrite bind_Ok.
    rewrite <- (length_fmap member_index) at 1.
    rewrite (proj2 (Nat.eqb_eq _ _)); [done|]. by apply size_list_to_set_NoDup.
  - unfold recover_group. rewrite Hmt, bind_Ok.
    rewrite (recover_shares_of hmac Hhmac t c secret members); [done|try done..].
    + rewrite slice_to_nonneg by lia.
      eapply (sublist_NoDup _ (rs_x <$> to_raw_shares g)); [|apply fmap_sublist, sublist_take].
      by rewrite to_raw_shares_perm, <- list_fmap_compose.
    + rewrite slice_to_nonneg by lia. intros s Hs.
      assert (s ∈ to_raw_shares g) as Hs' by (eapply elem_of_sublist; [done|apply sublist_take]).
      rewrite to_raw_shares_perm in Hs'. apply list_elem_of_fmap in Hs' as (s' & -> & ?). auto.
    + rewrite slice_to_nonneg by lia. rewrite length_take.
      rewrite (Permutation_length (to_raw_shares_perm g)), length_fmap. lia.
Qed.

(** Every group yields its secret, and enough group secrets yield the
    ciphertext. *)
Lemma recover_ems_Ok (groups : group_dict) (params : _ShareCommonParameters) gc
    (gshares : list _RawShare) ct (gsecret : Z -> bytes) :
  groups <> [] -> 1 <= cp_group_threshold params -> gc <= 16 ->
  len groups = cp_group_threshold params -> NoDup groups.*1 ->
  Forall (fun kg => shares kg.2 <> [] /\
    Forall (fun s => common_parameters s = params) (shares kg.2) /\
    RawShare kg.1 (gsecret kg.1) ∈ gshares /\
    check_group kg.2 = Ok tt /\ recover_group hmac kg = Ok (RawShare kg.1 (gsecret kg.1))) groups ->
  bytes_ok ct -> 4 <= len ct ->
  shares_of hmac (cp_group_threshold params) gc ct gshares ->
  _recover_ems hmac groups
  = Ok (EncryptedMasterSecret (cp_identifier params) (cp_extendable params)
          (cp_iteration_exponent params) ct).
Proof using Hhmac.
  intros Hne Ht Hgc Hlen Hnd Hgs Hb Hl Hof. unfold _recover_ems.
  destruct groups as [|[k g] rest] eqn:Hgroups; [done|]. rewrite <- Hgroups in *.
  assert (ShareGroup_common_parameters g = Ok params) as ->.
  { rewrite Hgroups in Hgs. apply Forall_cons in Hgs as [(Hn & Hp & _) _]. cbn in *.
    unfold ShareGroup_common_parameters, any_share. destruct (shares g); [done|].
    cbn. by apply Forall_cons in Hp as [-> _]. }
  rewrite bind_Ok, Hlen, Z.ltb_irrefl, Z.eqb_refl. cbn [negb raise_if]. rewrite !bind_Ok.
  assert (forall u, foldM (fun (_ : unit) kg => check_group kg.2) u groups = Ok tt) as ->.
  { clear -Hgs. induction Hgs as [|kg l (_ & _ & _ & Hc & _) _ IH]; intros []; [done|].
    cbn [foldM]. by rewrite Hc, bind_Ok, IH. }
  rewrite bind_Ok.
  rewrite (mapM_res_Ok _ (fun kg => RawShare kg.1 (gsecret kg.1))).
  2: { intros kg Hkg. rewrite Forall_forall in Hgs. by apply Hgs in Hkg as (_&_&_&_&?). }
  rewrite bind_Ok, (recover_shares_of hmac Hhmac _ gc ct gshares); [done|try done..].
  - rewrite <- list_fmap_compose. done.
  - intros s (kg & -> & Hkg)%list_elem_of_fmap. rewrite Forall_forall in Hgs.
    by apply Hgs in Hkg as (_&_&?&_).
  - rewrite length_fmap. lia.
Qed.
End recover.

(** ** Generating the mnemonics *)

(** What one group of mnemonics consists of: the shares of the group's secret,
    each printed with the split's parameters. *)
Definition member_share (i : Z) (x : bool) (e gt gc : Z) (t : Z) (gs m : _RawShare) : _Share :=
  Share i x e (rs_x gs) gt gc (rs_x m) t (rs_data m).

Record group_out (hmac : bytes -> bytes -> bytes) (i : Z) (x : bool) (e gt gc : Z)
    (z : (Z * Z) * _RawShare) (ms : list _RawShare) (mns : list string) : Prop := {
  go_shares : shares_of hmac z.1.1 z.1.2 (rs_data z.2) ms;
  go_print : Forall2 (fun m mn => from_mnemonic mn = Ok (member_share i x e gt gc z.1.1 z.2 m))
               ms mns;
}.

(** A group configuration the standard allows. *)
Definition group_config_ok (g : Z * Z) : Prop :=
  1 <= g.1 <= g.2 /\ g.2 <= 16 /\ (g.1 = 1 -> g.2 = 1).

Lemma random_identifier_Ok tok ctr :
  exists i, _random_identifier tok ctr = Ok (i, S ctr) /\ 0 <= i < 2 ^ 15.
Proof.
  unfold _random_identifier, _random_bytes. cbn. eexists. split; [done|].
  apply (land_ones_bound 15). lia.
Qed.

Section generate.
Context (tok : nat -> Z -> bytes) (hmac : bytes -> bytes -> bytes)
  (kdf : bytes -> bytes -> Z -> Z -> bytes).
Context (Htok : token_bytes_ok tok) (Hhmac : hmac_ok hmac) (Hkdf : pbkdf2_ok kdf).

Lemma group_fold i x e gt gc n acc ctr zipped :
  0 <= i < 2 ^ 15 -> 0 <= e < 16 -> 1 <= gt <= gc -> gc <= 16 ->
  (16 <= n)%Z -> n `mod` 2 = 0 ->
  Forall (fun z => group_config_ok z.1 /\ 0 <= rs_x z.2 < 16 /\
                   bytes_ok (rs_data z.2) /\ len (rs_data z.2) = n) zipped ->
  exists mns ctr', foldM (group_mnemonics tok hmac i x e gt gc) (acc, ctr) zipped
      = Ok (acc ++ mns, ctr') /\
    Forall2 (fun z mn => exists ms, group_out hmac i x e gt gc z ms mn) zipped mns.
Proof using Htok Hhmac.
  intros Hi He Hgt Hgc Hn Heven Hz. revert acc ctr.
  induction Hz as [|[[t c] gs] zipped (Hcfg & Hx & Hb & Hl) Hz IH]; intros acc ctr.
  { exists [], ctr. by rewrite app_nil_r. }
  destruct Hcfg as (Htc & Hc & _). cbn in Htc, Hc, Hx, Hb, Hl.
  destruct (split_secret_spec tok hmac ctr t c (rs_data gs))
    as (ms & ctr1 & Hsplit & Hof); [done..|lia|].
  assert (forall m, m ∈ ms -> share_wf (member_share i x e gt gc t gs m)) as Hwf.
  { intros m Hm. pose proof (sh_len _ _ _ _ _ Hof) as Hlen.
    pose proof (sh_bytes _ _ _ _ _ Hof) as Hby. rewrite Forall_forall in Hlen, Hby.
    specialize (Hlen m Hm). specialize (Hby m Hm).
    assert (rs_x m ∈ seqZ 0 c) as Hmx%elem_of_seqZ.
    { rewrite <- (sh_x _ _ _ _ _ Hof). by apply list_elem_of_fmap_2. }
    constructor; cbn; first [lia | done | congruence | idtac]; by rewrite Hlen, Hl. }
  destruct (mapM_res_Forall2 (fun m => mnemonic (member_share i x e gt gc t gs m))
              ms) as (mns & Hmns & HF).
  { intros m Hm. destruct (mnemonic_from_mnemonic _ (Hwf m Hm)) as (mn & ? & _). eauto. }
  destruct (IH (acc ++ [mns]) ctr1) as (rest & ctr' & Hrest & HFrest).
  assert (group_mnemonics tok hmac i x e gt gc (acc, ctr) ((t, c), gs)
          = Ok (acc ++ [mns], ctr1)) as Hstep.
  { unfold group_mnemonics. rewrite Hsplit, bind_Ok. unfold member_share in Hmns.
    by rewrite Hmns. }
  exists (mns :: rest), ctr'. cbn [foldM]. rewrite Hstep, bind_Ok, Hrest, <- app_assoc. split; [done|]. constructor; [|done].
  exists ms. split; [done|]. cbn.
  apply Forall2_same_length_lookup. split; [by apply Forall2_length in HF|].
  intros j m mn Hm Hmn. pose proof (Forall2_lookup_lr _ _ _ _ _ _ HF Hm Hmn) as Hp. cbn in Hp.
  destruct (mnemonic_from_mnemonic _ (Hwf m (list_elem_of_lookup_2 _ _ _ Hm))) as (mn' & H1 & H2).
  congruence.
Qed.

(** An accepted call of [generate_mnemonics]. *)
Record split_request (gt : Z) (groups : list (Z * Z)) (secret pw : bytes) (e : Z) : Prop := {
  sr_threshold : 1 <= gt <= len groups;
  sr_count : len groups <= 16;
  sr_groups : Forall group_config_ok groups;
  sr_secret : bytes_ok secret;
  sr_length : 16 <= len secret;
  sr_even : len secret `mod` 2 = 0;
  sr_passphrase : Forall (fun c => 32 <= c <= 126) pw;
  sr_exponent : 0 <= e < 16;
}.

(** Everything a successful split determines. *)
Lemma generate_spec ctr gt groups secret pw e x :
  split_request gt groups secret pw e ->
  exists result ctr' i ct gss,
    generate_mnemonics tok hmac kdf ctr gt groups secret pw e x = Ok (result, ctr') /\
    0 <= i < 2 ^ 15 /\
    bytes_ok ct /\ len ct = len secret /\ _decrypt kdf ct pw e i x = Ok secret /\
    shares_of hmac gt (len groups) ct gss /\
    Forall2 (fun z mns => exists ms, group_out hmac i x e gt (len groups) z ms mns)
      (zip groups gss) result.
Proof using Htok Hhmac Hkdf.
  intros [Hgt Hcnt Hcfg Hsb Hsl Hse Hpw He].
  destruct (random_identifier_Ok tok ctr) as (i & Hid & Hi).
  destruct (decrypt_encrypt_gen kdf secret pw e i x) as (ct & Henc & Hct & Hctb & Hdec);
    [done..|lia|done|lia|].
  destruct (split_secret_spec tok hmac (S ctr) gt (len groups) ct)
    as (gss & ctr1 & Hsplit & Hof); [done..|auto|lia|].
  assert (length groups = length gss) as Hlen.
  { rewrite <- (length_fmap rs_x), (sh_x _ _ _ _ _ Hof), length_seqZ. lia. }
  destruct (group_fold i x e gt (len groups) (len ct) [] ctr1 (zip groups gss))
    as (mns & ctr' & Hfold & HF); [done..|lia|congruence| |].
  { apply Forall_lookup. intros k z Hz. apply lookup_zip_with_Some in Hz as (g & gs & -> & Hg & Hgs).
    cbn. pose proof (sh_len _ _ _ _ _ Hof) as Hl. pose proof (sh_bytes _ _ _ _ _ Hof) as Hb.
    rewrite Forall_lookup in Hl. rewrite Forall_lookup in Hb.
    rewrite Forall_lookup in Hcfg. split_and!; [eauto|..|eauto|by f_equal; eauto].
    all: assert (rs_x gs ∈ seqZ 0 (len groups)) as ?%elem_of_seqZ; [|lia].
    all: rewrite <- (sh_x _ _ _ _ _ Hof); by eapply list_elem_of_fmap_2, list_elem_of_lookup_2. }
  exists mns, ctr', i, ct, gss. split_and!; [|lia|lia|auto|lia|done|done|done].
  unfold generate_mnemonics, _check_master_secret, _check_passphrase.
  change MIN_STRENGTH_BITS with 128. destruct (Z.ltb_spec (len secret * 8) 128); [lia|].
  rewrite Hse, (proj2 (forallb_forall _ _)).
  2: { intros c Hc. rewrite Forall_forall in Hpw. apply list_elem_of_In, Hpw in Hc. lia. }
  destruct (Z.ltb_spec gt 1); [lia|]. destruct (Z.ltb_spec (len groups) gt); [lia|].
  cbn [negb raise_if Z.eqb]. rewrite !bind_Ok.
  match goal with |- context [existsb ?f groups] => assert (existsb f groups = false) as -> end.
  { apply not_true_iff_false. intros ([t c] & Hin & Hb)%existsb_exists. rewrite Forall_forall in Hcfg.
       apply list_elem_of_In, Hcfg in Hin as (_ & _ & Hone). cbn in Hone. lia. }
  cbn [raise_if]. rewrite bind_Ok, Hid, bind_Ok.
  unfold from_master_secret. rewrite Henc, !bind_Ok. cbn [ciphertext]. rewrite Hsplit, bind_Ok.
  unfold zip_strict. rewrite decide_True by done. rewrite bind_Ok. exact Hfold.
Qed.
End generate.

(** ** Combining a selection of the mnemonics *)

(** The mnemonics at the positions [picks] of the result of a split: pairs of a
    group's and a member's position, in any order, repetitions allowed. *)
Definition pick_mnemonics (result : list (list string)) (picks : list (nat * nat)) :
    option (list string) :=
  mapM (fun p => mns ← result !! p.1; mns !! p.2) picks.

(** As many groups as the group threshold says, and in each at least its member
    threshold of different members. *)
Record sufficient (gt : Z) (groups : list (Z * Z)) (picks : list (nat * nat)) : Prop := {
  su_groups : Z.of_nat (length (remove_dups picks.*1)) = gt;
  su_members : forall k t c, k ∈ picks.*1 -> groups !! k = Some (t, c) ->
    t <= len (remove_dups ((filter (fun p => p.1 = k) picks).*2));
}.

Lemma shares_of_x hmac t c secret ms k m :
  shares_of hmac t c secret ms -> ms !! k = Some m -> rs_x m = Z.of_nat k.
Proof.
  intros H Hm. assert (rs_x <$> ms !! k = Some (rs_x m)) as Hk by (by rewrite Hm).
  rewrite <- list_lookup_fmap, (sh_x _ _ _ _ _ H) in Hk.
  apply lookup_seqZ in Hk. lia.
Qed.

(** A group's printed mnemonics determine its shares. *)
Lemma group_out_unique hmac i x e gt gc z ms ms' mns :
  group_out hmac i x e gt gc z ms mns -> group_out hmac i x e gt gc z ms' mns -> ms = ms'.
Proof.
  intros [_ H] [_ H']. revert ms' H'.
  induction H as [|m mn ms mns Hm H IH]; intros ms' H'; inv H'; [done|].
  f_equal; [|auto]. rewrite Hm in *. destruct m, x0. unfold member_share in *. cbn in *. congruence.
Qed.

Section combine.
Context (hmac : bytes -> bytes -> bytes) (Hhmac : hmac_ok hmac).
Context (i : Z) (x : bool) (e gt : Z) (groups : list (Z * Z)) (ct : bytes)
  (gss : list _RawShare) (result : list (list string)).
Context (Hct : bytes_ok ct) (Hctlen : 16 <= len ct) (Hcnt : len groups <= 16)
  (Hgt : 1 <= gt) (Hcfg : Forall group_config_ok groups).
Context (Hof : shares_of hmac gt (len groups) ct gss).
Context (Hout : Forall2 (fun z mns => exists ms, group_out hmac i x e gt (len groups) z ms mns)
                  (zip groups gss) result).

(** The share behind a picked mnemonic. *)
Record picked (p : nat * nat) (s : _Share) : Prop := {
  pk_group_index : group_index s = Z.of_nat p.1;
  pk_member_index : member_index s = Z.of_nat p.2;
  pk_common : common_parameters s = ShareCommonParameters i x e gt (len groups);
  pk_source : exists t c gs ms mns, groups !! p.1 = Some (t, c) /\ gss !! p.1 = Some gs /\
    result !! p.1 = Some mns /\ group_out hmac i x e gt (len groups) (t, c, gs) ms mns /\
    member_threshold s = t /\ rs_x gs = Z.of_nat p.1 /\
    RawShare (member_index s) (value s) ∈ ms;
}.

Lemma picked_mnemonic p mn :
  (mns ← result !! p.1; mns !! p.2) = Some mn ->
  exists s, from_mnemonic mn = Ok s /\ picked p s.
Proof using Hof Hout.
  intros (mns & Hmns & Hmn)%bind_Some.
  destruct (Forall2_lookup_r _ _ _ _ _ Hout Hmns) as (z & Hz & ms & Hgo); pose proof Hgo as [Hms Hpr].
  apply lookup_zip_with_Some in Hz as ([t c] & gs & -> & Hg & Hgs). cbn in *.
  destruct (Forall2_lookup_r _ _ _ _ _ Hpr Hmn) as (m & Hm & Hfm).
  eexists. split; [exact Hfm|].
  pose proof (shares_of_x _ _ _ _ _ _ _ Hof Hgs) as Hgx.
  pose proof (shares_of_x _ _ _ _ _ _ _ Hms Hm) as Hmx.
  constructor; cbn; [done..|].
  exists t, c, gs, ms, mns. split_and!; [done..|]. destruct m. by apply (list_elem_of_lookup_2 _ p.2).
Qed.

Lemma picked_shares picks sel :
  pick_mnemonics result picks = Some sel ->
  exists ss, Forall2 (fun m s => from_mnemonic m = Ok s) sel ss /\ Forall2 picked picks ss.
Proof using Hof Hout.
  unfold pick_mnemonics. intros H%mapM_Some. induction H as [|p mn picks sel Hp H IH].
  - exists []. by split.
  - destruct (picked_mnemonic _ _ Hp) as (s & ? & ?). destruct IH as (ss & ? & ?).
    exists (s :: ss). split; by constructor.
Qed.

Lemma picked_params picks ss :
  Forall2 picked picks ss -> forall s s', s ∈ ss -> s' ∈ ss ->
  common_parameters s = common_parameters s' /\
  (group_index s = group_index s' -> group_parameters s = group_parameters s').
Proof using.
  intros HF s s' [a Ha]%list_elem_of_lookup [b Hb]%list_elem_of_lookup.
  destruct (Forall2_lookup_r _ _ _ _ _ HF Ha) as (p & _ & [Hg _ Hc (t & c & gs & ms & mns & ? & _ & _ & _ & Ht & _)]).
  destruct (Forall2_lookup_r _ _ _ _ _ HF Hb)
    as (p' & _ & [Hg' _ Hc' (t' & c' & gs' & ms' & mns' & ? & _ & _ & _ & Ht' & _)]).
  split; [congruence|]. intros Heq.
  assert (p.1 = p'.1) as Hp by (apply Nat2Z.inj; congruence). rewrite Hp in *.
  assert (t = t') as -> by congruence.
  unfold common_parameters in Hc, Hc'. unfold group_parameters. congruence.
Qed.

Lemma picked_inj p p' s : picked p s -> picked p' s -> p = p'.
Proof using.
  intros [Hg Hm _ _] [Hg' Hm' _ _]. destruct p, p'. cbn in *.
  rewrite Hg in Hg'. rewrite Hm in Hm'. f_equal; by apply Nat2Z.inj.
Qed.

(** The groups collected from the picked shares: their keys and their
    members. *)
Lemma picked_keys picks ss gd :
  Forall2 picked picks ss -> groups_inv ss gd ->
  gd.*1 ≡ₚ Z.of_nat <$> remove_dups picks.*1.
Proof using.
  intros HF Hinv. apply NoDup_Permutation; [apply Hinv|..].
  { apply NoDup_fmap_2; [apply _|apply NoDup_remove_dups]. }
  intros k. rewrite !list_elem_of_fmap. split.
  - intros ([k' g] & -> & Hkg).
    destruct (gi_group _ _ Hinv _ _ Hkg) as (_ & Hne & Hmem). cbn.
    destruct (shares g) as [|s l]; [done|].
    destruct (proj1 (Hmem s)) as [Hs Hgs]; [left|].
    apply list_elem_of_lookup in Hs as [a Ha].
    destruct (Forall2_lookup_r _ _ _ _ _ HF Ha) as (p & Hp & [Hpg _ _ _]).
    exists p.1. split; [congruence|]. apply elem_of_remove_dups.
    by eapply list_elem_of_fmap_2, list_elem_of_lookup_2.
  - intros (a & -> & ([p1 p2] & -> & Hp)%elem_of_remove_dups%list_elem_of_fmap).
    apply list_elem_of_lookup in Hp as [b Hb].
    destruct (Forall2_lookup_l _ _ _ _ _ HF Hb) as (s & Hs & [Hpg _ _ _]).
    cbn in *. rewrite <- Hpg. apply list_elem_of_fmap.
    by eapply (gi_keys _ _ Hinv), list_elem_of_lookup_2.
Qed.

Lemma picked_member_nodup picks ss gd k g :
  Forall2 picked picks ss -> groups_inv ss gd -> (k, g) ∈ gd ->
  NoDup (member_index <$> shares g).
Proof using.
  intros HF Hinv Hkg. destruct (gi_group _ _ Hinv _ _ Hkg) as (Hnd & _ & Hmem).
  apply NoDup_fmap_2_strong; [|done]. intros s s' [Hs Hk]%Hmem [Hs' Hk']%Hmem Heq.
  apply list_elem_of_lookup in Hs as [a Ha]. apply list_elem_of_lookup in Hs' as [b Hb].
  destruct (Forall2_lookup_r _ _ _ _ _ HF Ha) as (p & _ & Hp).
  destruct (Forall2_lookup_r _ _ _ _ _ HF Hb) as (p' & _ & Hp').
  pose proof Hp as [Hg Hm Hc (t & c & gs & ms & mns & E1 & E2 & E3 & Hgo & Et & Ex & Hin)].
  pose proof Hp' as [Hg' Hm' Hc' (t' & c' & gs' & ms' & mns' & E1' & E2' & E3' & Hgo' & Et' & Ex' & Hin')].
  assert (p.1 = p'.1) as Hpp by (apply Nat2Z.inj; congruence). rewrite Hpp in *.
  assert (t = t') as -> by congruence. assert (c = c') as -> by congruence.
  assert (gs = gs') as -> by congruence. assert (mns = mns') as -> by congruence.
  assert (ms = ms') as -> by (by eapply group_out_unique).
  assert (value s = value s') as Hv.
  { apply list_elem_of_lookup in Hin as [n Hn]. apply list_elem_of_lookup in Hin' as [n' Hn'].
    pose proof (shares_of_x _ _ _ _ _ _ _ (go_shares _ _ _ _ _ _ _ _ _ Hgo') Hn) as X.
    pose proof (shares_of_x _ _ _ _ _ _ _ (go_shares _ _ _ _ _ _ _ _ _ Hgo') Hn') as X'.
    cbn in X, X'. assert (n = n') as -> by (apply Nat2Z.inj; congruence). congruence. }
  destruct s, s'. unfold common_parameters in *. cbn in *. congruence.
Qed.

Lemma picked_member_count picks ss gd k g :
  Forall2 picked picks ss -> groups_inv ss gd -> (Z.of_nat k, g) ∈ gd ->
  (length (remove_dups ((filter (fun p => p.1 = k) picks).*2)) <= length (shares g))%nat.
Proof using.
  intros HF Hinv Hkg. pose proof (picked_member_nodup _ _ _ _ _ HF Hinv Hkg) as Hnd.
  destruct (gi_group _ _ Hinv _ _ Hkg) as (_ & _ & Hmem).
  rewrite <- (length_fmap member_index), <- (length_fmap Z.of_nat).
  apply submseteq_length, NoDup_submseteq.
  { apply NoDup_fmap_2; [apply _|apply NoDup_remove_dups]. }
  intros j (b & -> & Hb)%list_elem_of_fmap.
  apply elem_of_remove_dups, list_elem_of_fmap in Hb as (p & -> & [Hp Hin]%list_elem_of_filter).
  apply list_elem_of_lookup in Hin as [n Hn].
  destruct (Forall2_lookup_l _ _ _ _ _ HF Hn) as (s & Hs & [Hg Hm _ _]).
  rewrite <- Hm. apply list_elem_of_fmap_2, Hmem. split; [by eapply list_elem_of_lookup_2|congruence].
Qed.

(** The secret of the group at a key, from the top-level shares. *)
Definition group_secret (k : Z) : bytes :=
  match gss !! Z.to_nat k with Some gs => rs_data gs | None => [] end.

(** One collected group rebuilds its secret. *)
Lemma picked_group picks ss gd kg :
  sufficient gt groups picks -> Forall2 picked picks ss -> groups_inv ss gd -> kg ∈ gd ->
  shares kg.2 <> [] /\
  Forall (fun s => common_parameters s = ShareCommonParameters i x e gt (len groups)) (shares kg.2) /\
  RawShare kg.1 (group_secret kg.1) ∈ gss /\
  check_group kg.2 = Ok tt /\ recover_group hmac kg = Ok (RawShare kg.1 (group_secret kg.1)).
Proof using Hhmac Hcfg Hof Hct Hctlen.
  intros [_ Hsuf] HF Hinv Hkg. destruct kg as [k g]. cbn [fst snd].
  destruct (gi_group _ _ Hinv _ _ Hkg) as (_ & Hne & Hmem).
  assert (forall s, s ∈ shares g -> exists p, p ∈ picks /\ picked p s /\ Z.of_nat p.1 = k) as Hpk.
  { intros s [Hs Hk]%Hmem. apply list_elem_of_lookup in Hs as [a Ha].
    destruct (Forall2_lookup_r _ _ _ _ _ HF Ha) as (p & Hp & Hps). exists p.
    split_and!; [by eapply list_elem_of_lookup_2|done|]. destruct Hps. congruence. }
  assert (exists s0, s0 ∈ shares g) as [s0 Hs0].
  { destruct (shares g) as [|s l]; [done|]. exists s. left. }
  destruct (Hpk s0 Hs0) as (p0 & Hp0 & Hps0 & Hk0).
  destruct Hps0 as [_ _ _ (t & c & gs & ms & mns & E1 & E2 & E3 & Hgo & _ & Ex & _)].
  assert (group_secret k = rs_data gs) as Hsec.
  { unfold group_secret. by rewrite <- Hk0, Nat2Z.id, E2. }
  assert (RawShare k (group_secret k) = gs) as Hgs by (rewrite Hsec; destruct gs; cbn in *; congruence).
  assert (forall s, s ∈ shares g -> member_threshold s = t /\
            RawShare (member_index s) (value s) ∈ ms) as Hsrc.
  { intros s Hs. destruct (Hpk s Hs) as (p & _ & Hps & Hk).
    destruct Hps as [_ _ _ (t' & c' & gs' & ms' & mns' & E1' & E2' & E3' & Hgo' & Et' & _ & Hin)].
    assert (p.1 = p0.1) as Hpp by (apply Nat2Z.inj; congruence). rewrite Hpp in *.
    assert (t' = t) as -> by congruence. assert (c' = c) as -> by congruence.
    assert (gs' = gs) as -> by congruence. assert (mns' = mns) as -> by congruence.
    by rewrite (group_out_unique _ _ _ _ _ _ _ _ _ _ Hgo Hgo'). }
  assert (group_config_ok (t, c)) as (Htc & Hc & _).
  { rewrite Forall_lookup in Hcfg. eauto. }
  cbn in Htc, Hc.
  pose proof (list_elem_of_lookup_2 _ _ _ E2) as Hgsin.
  assert (bytes_ok (rs_data gs) /\ length (rs_data gs) = length ct) as [Hgb Hgl].
  { pose proof (sh_len _ _ _ _ _ Hof) as Hl. pose proof (sh_bytes _ _ _ _ _ Hof) as Hb.
    rewrite Forall_forall in Hl. rewrite Forall_forall in Hb. auto. }
  assert (check_group g = Ok tt /\ recover_group hmac (k, g) = Ok (RawShare k (rs_data gs)))
    as [Hchk Hrec].
  { apply (recover_group_Ok hmac Hhmac k g t c (rs_data gs) ms); [done| | | |lia|done|done|lia|apply Hgo|].
    - apply Forall_forall. intros s Hs. by apply Hsrc.
    - by eapply picked_member_nodup.
    - assert (p0.1 ∈ picks.*1) as Hp1 by (by apply list_elem_of_fmap_2).
      pose proof (Hsuf _ _ _ Hp1 E1). rewrite <- Hk0 in Hkg.
      pose proof (picked_member_count _ _ _ _ _ HF Hinv Hkg). lia.
    - intros s Hs. by apply Hsrc. }
  rewrite Hsec in *. split_and!; [done| |by rewrite Hgs|done..].
  apply Forall_forall. intros s Hs. by destruct (Hpk s Hs) as (p & _ & [_ _ Hc' _] & _).
Qed.

(** A sufficient selection decodes and rebuilds the encrypted secret. *)
Lemma combine_selection picks sel :
  sufficient gt groups picks -> pick_mnemonics result picks = Some sel ->
  exists gd, _decode_mnemonics sel = Ok gd /\
    _recover_ems hmac gd = Ok (EncryptedMasterSecret i x e ct).
Proof using Hhmac Hcfg Hof Hct Hctlen Hout Hgt Hcnt.
  intros Hsuf (ss & Hsel & HF)%picked_shares.
  assert (picks <> []) as Hne.
  { intros ->. destruct Hsuf as [Hs _]. cbn in Hs. lia. }
  assert (ss <> []) as Hsne by (intros ->; by inv HF).
  destruct (decode_fold_Ok sel ss [] ([], []) decode_inv_nil Hsel) as (st & Hst & Hinv).
  { intros s s' Hs Hs' Heq. by apply (picked_params _ _ HF). }
  cbn [app] in Hinv. exists st.2.
  pose proof (di_groups _ _ Hinv) as Hgi. split.
  { unfold _decode_mnemonics. rewrite Hst. destruct st as [cps gd].
    pose proof (proj2 (common_params_one _ _ Hinv)) as Hone. cbn [fst] in Hone.
    rewrite bind_Ok. cbn [snd]. rewrite Hone; [done|].
    split; [done|]. intros s s' Hs Hs'. by apply (picked_params _ _ HF). }
  pose proof (picked_keys _ _ _ HF Hgi) as Hkeys.
  assert (len st.2 = gt) as Hlen.
  { rewrite <- (length_fmap fst), (Permutation_length Hkeys), length_fmap. apply Hsuf. }
  apply (recover_ems_Ok hmac Hhmac st.2 (ShareCommonParameters i x e gt (len groups))
           (len groups) gss ct group_secret); try done; [|apply Hgi| |lia].
  - intros Hnil. rewrite Hnil in Hlen. cbn in Hlen. lia.
  - apply Forall_forall. intros kg Hkg. by eapply picked_group.
Qed.
End combine.

(** ** Combining never raises anything but [KeyShareError] *)

(** Byte strings a Feistel network accepts. *)
Definition secret_like (d : bytes) : Prop := bytes_ok d /\ 16 <= len d /\ len d `mod` 2 = 0.
Abbreviation key_share_error := (fun e => e = KeyShareError).

Lemma recover_secret_total hmac t sel :
  sel <> [] -> Forall (fun s => is_byte (rs_x s) /\ secret_like (rs_data s)) sel ->
  ensures secret_like key_share_error (_recover_secret hmac t sel).
Proof.
  intros Hne Hs. unfold _recover_secret. destruct (t =? 1).
  { destruct sel as [|s sel]; [done|]. by apply Forall_cons in Hs as [[_ ?] _]. }
  assert (forall k, is_byte k -> ensures secret_like key_share_error (_interpolate sel k)) as Hint.
  { intros k Hk. destruct (interpolate_cases sel k) as [(n & Hok & ->)|[_ ->]]; [done| |cbn|done].
    - eapply Forall_impl; [done|]. by intros s [? [? _]].
    - destruct sel as [|s sel]; [done|]. apply Forall_cons in Hs as [[_ (_ & Hl & He)] _].
      destruct Hok as [_ _ Hlen _ _]. apply Forall_cons in Hlen as [Hlen _].
      split; [apply uncol_bytes|]. rewrite length_uncol, <- Hlen. done. }
  eapply ensures_bind; [by apply Hint|]. intros secret _ Hsec.
  eapply ensures_bind; [by apply Hint|]. intros dig _ _.
  eapply ensures_bind; [by apply ensures_raise_if|]. done.
Qed.

Lemma share_wf_secret_like s : share_wf s -> secret_like (value s).
Proof. intros H. split_and!; apply H. Qed.

(** What decoding leaves in the dictionary of groups. *)
Lemma decode_mnemonics_spec ms :
  ensures (fun gd => gd <> [] /\
      Forall (fun kg => shares kg.2 <> [] /\ is_byte kg.1 /\ Forall share_wf (shares kg.2)) gd)
    key_share_error (_decode_mnemonics ms).
Proof.
  unfold _decode_mnemonics.
  destruct (decode_fold_spec ms [] ([], []) (fun m e _ => from_mnemonic_error m e) decode_inv_nil)
    as [(ss & [cps gd] & HF & -> & Hinv)| ->]; [|done].
  rewrite bind_Ok. destruct (length cps =? 1)%nat eqn:Hone; [|done]. cbn.
  apply (common_params_one _ _ Hinv) in Hone as [Hne _].
  pose proof (di_groups _ _ Hinv) as Hgi. cbn in Hgi, Hne.
  assert (forall s, s ∈ ss -> share_wf s) as Hwf.
  { intros s [a Ha]%list_elem_of_lookup. destruct (Forall2_lookup_r _ _ _ _ _ HF Ha) as (m & _ & Hm).
    by apply from_mnemonic_inv in Hm as [? _]. }
  split.
  - intros ->. destruct ss as [|s ss]; [done|].
    pose proof (gi_keys _ _ Hgi s (list_elem_of_here _ _)) as Hk. by inv Hk.
  - apply Forall_forall. intros [k g] Hkg. cbn.
    destruct (gi_group _ _ Hgi _ _ Hkg) as (_ & Hgne & Hmem). split_and!; [done|..].
    { destruct (shares g) as [|s l]; [done|]. destruct (proj1 (Hmem s)) as [Hs <-]; [left|].
      pose proof (wf_group_index _ (Hwf s Hs)). unfold is_byte. lia. }
    apply Forall_forall. intros s [Hs _]%Hmem. auto.
Qed.

Section combine_total.
Context (hmac : bytes -> bytes -> bytes) (kdf : bytes -> bytes -> Z -> Z -> bytes)
  (Hkdf : pbkdf2_ok kdf).

Lemma decrypt_total ems pw :
  secret_like (ciphertext ems) -> 0 <= ems_identifier ems < 2 ^ 15 ->
  0 <= ems_iteration_exponent ems ->
  exists d, decrypt kdf ems pw = Ok d /\ len d = len (ciphertext ems).
Proof using Hkdf.
  destruct ems as [i x e c]. cbn [ciphertext ems_identifier ems_iteration_exponent].
  intros (Hb & Hl & He) Hi Hexp. unfold decrypt, _decrypt. cbn [ciphertext ems_identifier
    ems_iteration_exponent ems_extendable].
  destruct (get_salt_Ok i x Hi) as [salt ->]. rewrite bind_Ok.
  destruct (halves c He) as (n & H1 & H2 & Hn & _).
  destruct (rounds_inverse kdf Hkdf pw e Hexp salt _ _ (reverse (seqZ 0 ROUND_COUNT)) n H1 H2)
    as (l' & r' & -> & Hl' & Hr' & _); [lia|].
  cbn [mbind res_bind]. eexists. split; [done|]. rewrite length_app. lia.
Qed.

Lemma check_group_spec g :
  shares g <> [] ->
  ensures (fun t => 1 <= t) key_share_error (ShareGroup_member_threshold g) ->
  ensures (fun _ => True) key_share_error (check_group g).
Proof using.
  intros Hne Ht. unfold check_group. eapply ensures_bind; [exact Ht|]. intros t _ _.
  eapply ensures_bind; [by apply ensures_raise_if|]. intros _ _ _.
  eapply (ensures_weaken _ _ _ key_share_error); [by apply ensures_raise_if|done|done].
Qed.

Lemma recover_ems_total gd :
  gd <> [] ->
  Forall (fun kg => shares kg.2 <> [] /\ is_byte kg.1 /\ Forall share_wf (shares kg.2)) gd ->
  ensures (fun ems => secret_like (ciphertext ems) /\ 0 <= ems_identifier ems < 2 ^ 15 /\
             0 <= ems_iteration_exponent ems) key_share_error (_recover_ems hmac gd).
Proof using.
  intros Hne Hgd. destruct gd as [|[k0 g0] rest] eqn:Hgde; [done|].
  unfold _recover_ems. rewrite <- Hgde in *.
  assert (forall kg, kg ∈ gd -> ensures (fun t => 1 <= t) key_share_error
            (ShareGroup_member_threshold kg.2)) as Hthr.
  { intros kg Hkg. rewrite Forall_forall in Hgd. destruct (Hgd _ Hkg) as (Hn & _ & Hwf).
    unfold ShareGroup_member_threshold, any_share. destruct (shares kg.2); [done|].
    apply Forall_cons in Hwf as [Hwf _]. apply Hwf. }
  assert ((k0, g0) ∈ gd) as H0 by (rewrite Hgde; left).
  eapply ensures_bind with (P := fun c => 0 <= cp_identifier c < 2 ^ 15 /\
    0 <= cp_iteration_exponent c).
  { rewrite Forall_forall in Hgd. destruct (Hgd _ H0) as (Hn & _ & Hwf). cbn in Hn, Hwf.
    unfold ShareGroup_common_parameters, any_share. destruct (shares g0) as [|s l]; [done|].
    apply Forall_cons in Hwf as [Hwf _]. cbn. destruct Hwf. lia. }
  intros params _ [Hid Hexp].
  do 2 (eapply ensures_bind; [by apply ensures_raise_if|intros _ _ _]).
  eapply ensures_bind with (P := fun _ => True).
  { apply ensures_foldM; [done|]. intros _ kg Hkg _. rewrite Forall_forall in Hgd.
    apply check_group_spec; [by apply Hgd in Hkg as (? & _)|by apply Hthr]. }
  intros [] _ _. eapply ensures_bind.
  { apply (ensures_mapM _ (fun s => is_byte (rs_x s) /\ secret_like (rs_data s))).
    intros [k g] Hkg. pose proof (Hthr _ Hkg) as Ht. cbn [snd] in Ht. unfold recover_group.
    rewrite Forall_forall in Hgd. destruct (Hgd _ Hkg) as (Hn & Hk & Hwf). cbn [fst snd] in *.
    eapply ensures_bind; [exact Ht|]. intros t _ Htpos. cbn beta in Htpos.
    eapply ensures_bind; [|intros d _ Hd; by split].
    rewrite slice_to_nonneg by lia.
    pose proof (to_raw_shares_perm g) as Hperm.
    apply recover_secret_total.
    - destruct (to_raw_shares g) as [|s l] eqn:E.
      + by apply Permutation_nil_l, eq_sym, fmap_nil_inv in Hperm.
      + destruct (Z.to_nat t) eqn:Et; [lia|done].
    - apply Forall_take. rewrite Hperm. apply Forall_fmap.
      eapply Forall_impl; [exact Hwf|]. intros s Hs. cbn. split; [|by apply share_wf_secret_like].
      pose proof (wf_member_index _ Hs). unfold is_byte. lia. }
  intros gss _ [Hgss Hlen]. eapply ensures_bind.
  { apply (recover_secret_total hmac _ gss); [|done].
    intros ->. rewrite Hgde in Hlen. done. }
  intros c _ Hc. cbn. split; [exact Hc|]. lia.
Qed.
End combine_total.

(** ** Properties *)

(** Every group gets as many mnemonics as it has members. *)
Lemma group_sizes hmac i x e gt gc groups gss result :
  length gss = length groups -> Forall (fun g : Z * Z => 0 <= g.2) groups ->
  Forall2 (fun z mns => exists ms, group_out hmac i x e gt gc z ms mns) (zip groups gss) result ->
  Forall2 (fun g mns => len mns = g.2) groups result.
Proof.
  revert gss result. induction groups as [|g groups IH]; intros [|s gss] result Hl Hg Hout; try done.
  { by inv Hout. }
  csimpl in *. inv Hg. inv Hout. constructor; [|by apply (IH gss)].
  match goal with H : exists ms, group_out _ _ _ _ _ _ _ ms _ |- _ =>
    destruct H as (ms & [Hsh Hpr]) end.
  apply Forall2_length in Hpr. rewrite <- Hpr. pose proof (length_fmap rs_x ms) as Hx.
  rewrite (sh_x _ _ _ _ _ Hsh), length_seqZ in Hx. cbn [fst snd] in *. lia.
Qed.

Lemma generate_combine_lemma tok hmac kdf ctr gt groups secret pw e x :
  token_bytes_ok tok -> hmac_ok hmac -> pbkdf2_ok kdf ->
  split_request gt groups secret pw e ->
  exists result ctr',
    generate_mnemonics tok hmac kdf ctr gt groups secret pw e x = Ok (result, ctr') /\
    Forall2 (fun g mns => len mns = g.2) groups result /\
    forall picks sel, pick_mnemonics result picks = Some sel -> sufficient gt groups picks ->
      combine_mnemonics hmac kdf sel pw = Ok secret.
Proof.
  intros Htok Hhmac Hkdf Hreq.
  destruct (generate_spec tok hmac kdf Htok Hhmac Hkdf ctr gt groups secret pw e x Hreq)
    as (result & ctr' & i & ct & gss & Hgen & Hi & Hctb & Hctl & Hdec & Hof & Hout).
  destruct Hreq as [Hgt Hcnt Hcfg _ Hsl _ _ _].
  exists result, ctr'. split_and!; [done| |].
  - assert (length gss = length groups) as Hl.
    { pose proof (length_fmap rs_x gss) as Hl. rewrite (sh_x _ _ _ _ _ Hof), length_seqZ in Hl. lia. }
    apply (group_sizes hmac i x e gt (len groups) groups gss); [done| |done].
    eapply Forall_impl; [exact Hcfg|]. intros g (? & _). lia.
  - intros picks sel Hsel Hsuf.
    destruct (combine_selection hmac Hhmac i x e gt groups ct gss result) with picks sel
      as (gd & Hgd & Hems); try done; try lia.
    unfold combine_mnemonics. destruct sel as [|mn sel].
    { exfalso. assert (length picks = 0%nat) as Hp by (by apply mapM_Some, Forall2_length in Hsel).
      apply nil_length_inv in Hp as ->. destruct Hsuf as [Hs _]. cbn in Hs. lia. }
    cbn [raise_if]. rewrite bind_Ok, Hgd, bind_Ok, Hems, bind_Ok. exact Hdec.
Qed.

(** C1.  Splitting then combining gives the master secret back.  For every
    group configuration the standard allows, every master secret of at least
    16 bytes and even length, every printable passphrase and exponent below 16,
    whatever the random source returns: [generate_mnemonics] succeeds with one
    list per group, of as many mnemonics as the group has members; and [combine_mnemonics] on ANY selection of the mnemonics
    (in any order, some repeated, more than needed from a group) with as many
    groups as the group threshold and at least the member threshold of
    different mnemonics in each returns exactly the master secret. *)
Theorem generate_combine tok hmac kdf ctr gt groups secret pw e x :
  token_bytes_ok tok -> hmac_ok hmac -> pbkdf2_ok kdf ->
  split_request gt groups secret pw e ->
  exists result ctr',
    generate_mnemonics tok hmac kdf ctr gt groups secret pw e x = Ok (result, ctr') /\
    Forall2 (fun g mns => len mns = g.2) groups result /\
    forall picks sel, pick_mnemonics result picks = Some sel -> sufficient gt groups picks ->
      combine_mnemonics hmac kdf sel pw = Ok secret.
Proof. apply generate_combine_lemma. Qed.

Definition demo_groups : list (Z * Z) := [(1, 1); (2, 3)].
Definition demo_passphrase : bytes := [84; 82; 69; 90; 79; 82].

Lemma demo_request : split_request 2 demo_groups demo_secret demo_passphrase 1.
Proof.
  constructor; try (cbn; lia); try done.
  - repeat constructor; cbn; lia.
  - apply (bool_decide_unpack _). vm_compute. exact I.
  - repeat constructor; lia.
Qed.

Lemma generate_combine_witness :
  exists result ctr',
    generate_mnemonics demo_token_bytes demo_hmac demo_pbkdf2 0 2 demo_groups demo_secret
      demo_passphrase 1 true = Ok (result, ctr') /\
    Forall2 (fun g mns => len mns = g.2) demo_groups result /\
    forall picks sel, pick_mnemonics result picks = Some sel ->
      sufficient 2 demo_groups picks ->
      combine_mnemonics demo_hmac demo_pbkdf2 sel demo_passphrase = Ok demo_secret.
Proof.
  apply (generate_combine demo_token_bytes demo_hmac demo_pbkdf2 0 2 demo_groups demo_secret
           demo_passphrase 1 true).
  - apply demo_token_bytes_ok.
  - apply demo_hmac_ok.
  - apply demo_pbkdf2_ok.
  - apply demo_request.
Defined.

Lemma combine_total_lemma hmac kdf ms pw :
  pbkdf2_ok kdf ->
  ensures (fun d => 16 <= len d /\ len d `mod` 2 = 0) (fun e => e = KeyShareError)
    (combine_mnemonics hmac kdf ms pw).
Proof.
  intros Hkdf. unfold combine_mnemonics.
  eapply ensures_bind; [by apply ensures_raise_if|]. intros _ _ _.
  eapply ensures_bind; [apply decode_mnemonics_spec|]. intros gd _ [Hne Hgd].
  eapply ensures_bind; [by apply recover_ems_total|]. intros ems _ ((Hb & Hl & He) & Hi & Hexp).
  destruct (decrypt_total kdf Hkdf ems pw) as (d & -> & Hd); [by split_and!|lia|lia|].
  cbn. by rewrite Hd.
Qed.

(** C5.  Whatever the texts handed to it (typing errors, cards of different
    splits, too few or conflicting cards, none at all), [combine_mnemonics]
    either returns a secret of at least 16 bytes and even length or raises
    [KeyShareError]: no other exception escapes. *)
Theorem combine_total hmac kdf ms pw :
  pbkdf2_ok kdf ->
  ensures (fun d => 16 <= len d /\ len d `mod` 2 = 0) (fun e => e = KeyShareError)
    (combine_mnemonics hmac kdf ms pw).
Proof. apply combine_total_lemma. Qed.

Lemma combine_total_witness :
  ensures (fun d => 16 <= len d /\ len d `mod` 2 = 0) (fun e => e = KeyShareError)
    (combine_mnemonics demo_hmac demo_pbkdf2 [demo_mnemonic; demo_mistyped] []).
Proof.
  apply (combine_total demo_hmac demo_pbkdf2 [demo_mnemonic; demo_mistyped] []).
  apply demo_pbkdf2_ok.
Defined.

(** What the decoded groups say about the shares. *)
Lemma groups_inv_keys ss gd :
  groups_inv ss gd -> gd.*1 ≡ₚ remove_dups (group_index <$> ss).
Proof.
  intros Hinv. apply NoDup_Permutation; [apply Hinv|apply NoDup_remove_dups|].
  intros k. rewrite elem_of_remove_dups, !list_elem_of_fmap. split.
  - intros ([k' g] & -> & Hkg). destruct (gi_group _ _ Hinv _ _ Hkg) as (_ & Hne & Hmem). cbn.
    destruct (shares g) as [|s l]; [done|]. exists s.
    destruct (proj1 (Hmem s)) as [? ?]; [left|]. by split.
  - intros (s & -> & Hs). by apply list_elem_of_fmap, (gi_keys _ _ Hinv).
Qed.

Lemma recover_ems_inv hmac gd ems :
  _recover_ems hmac gd = Ok ems ->
  exists k g, (k, g) ∈ gd /\
    (exists s, s ∈ shares g /\ len gd = group_threshold s) /\
    forall k' g', (k', g') ∈ gd ->
      exists s, s ∈ shares g' /\ member_threshold s <= len (shares g') /\
        NoDup (member_index <$> shares g').
Proof.
  unfold _recover_ems. destruct gd as [|[k g] rest] eqn:Hgd; [done|]. rewrite <- Hgd.
  intros (params & Hp & (u1 & _ & (u2 & H2 & (u3 & H3 & _)%bind_Ok_inv)%bind_Ok_inv)%bind_Ok_inv)%bind_Ok_inv.
  apply raise_if_Ok, negb_false_iff, Z.eqb_eq in H2.
  exists k, g. split_and!; [rewrite Hgd; left|..].
  - unfold ShareGroup_common_parameters, any_share in Hp. destruct (shares g) as [|s l]; [done|].
    injection Hp as <-. exists s. split; [left|exact H2].
  - clear Hp H2 Hgd. assert (u1 = tt) as -> by (by destruct u1).
    revert H3. generalize tt. induction gd as [|kg gd IH]; intros u H3 k' g' Hin; [by inv Hin|].
    cbn [foldM] in H3. apply bind_Ok_inv in H3 as (u' & Hchk & H3).
    apply elem_of_cons in Hin as [<-|Hin]; [|by eapply IH]. cbn in Hchk. clear -Hchk.
    unfold check_group in Hchk. apply bind_Ok_inv in Hchk as (t & Ht & Hchk).
    apply bind_Ok_inv in Hchk as (u & H1 & H2).
    apply raise_if_Ok, Z.ltb_ge in H1.
    apply raise_if_Ok, negb_false_iff, Nat.eqb_eq in H2.
    rewrite <- (length_fmap member_index), size_list_to_set_NoDup in H2.
    unfold ShareGroup_member_threshold, any_share in Ht.
    destruct (shares g') as [|s l]; [done|]. injection Ht as <-. exists s. split_and!; [left|done..].
Qed.

Lemma combine_requires_enough_lemma hmac kdf ms pw d :
  combine_mnemonics hmac kdf ms pw = Ok d ->
  exists ss, Forall2 (fun m s => from_mnemonic m = Ok s) ms ss /\ ss <> [] /\
    (forall s s', s ∈ ss -> s' ∈ ss -> common_parameters s = common_parameters s') /\
    (forall s, s ∈ ss -> len (remove_dups (group_index <$> ss)) = group_threshold s) /\
    (forall s, s ∈ ss ->
       member_threshold s <=
         len (remove_dups (member_index <$> filter (fun s' => group_index s' = group_index s) ss))) /\
    (forall s s', s ∈ ss -> s' ∈ ss -> group_index s = group_index s' ->
       member_threshold s = member_threshold s' /\
       (member_index s = member_index s' -> s = s')).
Proof.
  unfold combine_mnemonics.
  intros (u & _ & (gd & Hdec & (ems & Hrec & _)%bind_Ok_inv)%bind_Ok_inv)%bind_Ok_inv.
  unfold _decode_mnemonics in Hdec.
  destruct (decode_fold_spec ms [] ([], []) (fun m e _ => from_mnemonic_error m e) decode_inv_nil)
    as [(ss & [cps gd'] & HF & Hf & Hinv)|Hf]; rewrite Hf in Hdec; [|done].
  rewrite bind_Ok in Hdec. destruct (length cps =? 1)%nat eqn:Hone; [|done].
  injection Hdec as <-. apply (common_params_one _ _ Hinv) in Hone as [Hne Hcom].
  pose proof (di_groups _ _ Hinv) as Hgi. cbn [snd app] in Hgi, Hne, Hcom.
  apply recover_ems_inv in Hrec as (k & g & Hkg & (s0 & Hs0 & Hlen) & Hall).
  exists ss. split_and!; [done|done|done|..].
  - intros s Hs. rewrite <- (Permutation_length (groups_inv_keys _ _ Hgi)), length_fmap, Hlen.
    destruct (gi_group _ _ Hgi _ _ Hkg) as (_ & _ & Hmem). apply Hmem in Hs0 as [Hs0 _].
    pose proof (Hcom s0 s Hs0 Hs) as Hc. unfold common_parameters in Hc. congruence.
  - intros s Hs. pose proof (gi_keys _ _ Hgi s Hs) as ([k' g'] & Hk' & Hin)%list_elem_of_fmap.
    cbn in Hk'. subst k'. destruct (Hall _ _ Hin) as (s1 & Hs1 & Hle & Hnd).
    destruct (gi_group _ _ Hgi _ _ Hin) as (_ & _ & Hmem). apply Hmem in Hs1 as [Hs1 Hg1].
    pose proof (gi_params _ _ Hgi s s1 Hs Hs1 (eq_sym Hg1)) as Hp. unfold group_parameters in Hp.
    assert (length (shares g') <= length (remove_dups
      (member_index <$> filter (fun s' => group_index s' = group_index s) ss)))%nat.
    { rewrite <- (length_fmap member_index). apply submseteq_length, NoDup_submseteq; [done|].
      intros j (s2 & -> & [Hs2 Hg2]%Hmem)%list_elem_of_fmap.
      apply elem_of_remove_dups, list_elem_of_fmap_2, list_elem_of_filter. done. }
    assert (member_threshold s = member_threshold s1) by congruence. lia.
  - intros s s' Hs Hs' Hg. pose proof (gi_params _ _ Hgi s s' Hs Hs' Hg) as Hp.
    unfold group_parameters in Hp. split; [congruence|]. intros Hm.
    pose proof (gi_keys _ _ Hgi s Hs) as ([k' g'] & Hk' & Hin)%list_elem_of_fmap.
    cbn in Hk'. subst k'. destruct (Hall _ _ Hin) as (_ & _ & _ & Hnd).
    destruct (gi_group _ _ Hgi _ _ Hin) as (_ & _ & Hmem).
    assert (s ∈ shares g') as [a Ha]%list_elem_of_lookup by (by apply Hmem).
    assert (s' ∈ shares g') as [b Hb]%list_elem_of_lookup by (by apply Hmem).
    assert (a = b) as ->; [|congruence].
    eapply (NoDup_lookup _ _ _ (member_index s) Hnd); rewrite list_lookup_fmap.
    + by rewrite Ha.
    + by rewrite Hb, Hm.
Qed.

(** C6.  Combining never succeeds on an insufficient or inconsistent set of
    cards: when [combine_mnemonics] returns a secret, every text parsed, all
    shares carry the same identifier, exponent, group threshold and count, the
    shares of one group the same member threshold; exactly the group
    threshold of different groups is present, and every group present has at
    least its member threshold of different members. *)
Theorem combine_requires_enough hmac kdf ms pw d :
  combine_mnemonics hmac kdf ms pw = Ok d ->
  exists ss, Forall2 (fun m s => from_mnemonic m = Ok s) ms ss /\ ss <> [] /\
    (forall s s', s ∈ ss -> s' ∈ ss -> common_parameters s = common_parameters s') /\
    (forall s, s ∈ ss -> len (remove_dups (group_index <$> ss)) = group_threshold s) /\
    (forall s, s ∈ ss ->
       member_threshold s <=
         len (remove_dups (member_index <$> filter (fun s' => group_index s' = group_index s) ss))) /\
    (forall s s', s ∈ ss -> s' ∈ ss -> group_index s = group_index s' ->
       member_threshold s = member_threshold s' /\
       (member_index s = member_index s' -> s = s')).
Proof. apply combine_requires_enough_lemma. Qed.

(** Three cards of the demonstration split: the third and first of group 1 and
    the only one of group 0. *)
Definition demo_cards : list string :=
  match generate_mnemonics demo_token_bytes demo_hmac demo_pbkdf2 0 2 demo_groups demo_secret
          demo_passphrase 1 true with
  | Ok (result, _) => default [] (pick_mnemonics result [(1, 2); (0, 0); (1, 0)]%nat)
  | Err _ => []
  end.

Lemma combine_requires_enough_witness :
  exists ss, Forall2 (fun m s => from_mnemonic m = Ok s) demo_cards ss /\ ss <> [] /\
    (forall s s', s ∈ ss -> s' ∈ ss -> common_parameters s = common_parameters s') /\
    (forall s, s ∈ ss -> len (remove_dups (group_index <$> ss)) = group_threshold s) /\
    (forall s, s ∈ ss ->
       member_threshold s <=
         len (remove_dups (member_index <$> filter (fun s' => group_index s' = group_index s) ss))) /\
    (forall s s', s ∈ ss -> s' ∈ ss -> group_index s = group_index s' ->
       member_threshold s = member_threshold s' /\
       (member_index s = member_index s' -> s = s')).
Proof.
  apply (combine_requires_enough demo_hmac demo_pbkdf2 demo_cards demo_passphrase demo_secret).
  vm_compute. reflexivity.
Defined.

(** Errors of a single-group split: an impossible threshold is refused,
    but with two different exceptions: [KeyShareError] below one or for
    several one-of-one cards, [ValueError] (which the documentation of
    [split_secret] does not name) when the threshold exceeds the count or the
    count exceeds sixteen. *)
Theorem split_secret_errors tok hmac kdf ctr secret t c pw e :
  token_bytes_ok tok -> pbkdf2_ok kdf ->
  16 <= len secret -> len secret `mod` 2 = 0 -> Forall (fun c => 32 <= c <= 126) pw -> 0 <= e ->
  (t = 1 -> 1 < c ->
     split_secret tok hmac kdf ctr secret t c pw e = Err KeyShareError) /\
  (t < 1 \/ c < t \/ (16 < c /\ t <> 1) ->
     split_secret tok hmac kdf ctr secret t c pw e = Err ValueError).
Proof.
  intros Htok Hkdf Hl He Hpw Hexp.
  destruct (random_identifier_Ok tok ctr) as (i & Hid & Hi).
  destruct (decrypt_encrypt_gen kdf secret pw e i true) as (ct & Henc & _ & _ & _);
    [done..|lia|done|done|].
  unfold split_secret, generate_mnemonics, _check_master_secret, _check_passphrase.
  change MIN_STRENGTH_BITS with 128. destruct (Z.ltb_spec (len secret * 8) 128); [lia|].
  rewrite He, (proj2 (forallb_forall _ _)).
  2: { intros b Hb. rewrite Forall_forall in Hpw. apply list_elem_of_In, Hpw in Hb. lia. }
  cbn [negb raise_if Z.eqb Z.ltb length Z.of_nat Pos.of_succ_nat Z.compare Pos.compare Pos.compare_cont].
  rewrite !bind_Ok. cbn [existsb]. rewrite orb_false_r. split.
  - intros -> Hc. by destruct (Z.ltb_spec 1 c); [|lia].
  - intros Hbad. destruct ((t =? 1) && (1 <? c)) eqn:Hone; [lia|].
    cbn [raise_if]. rewrite bind_Ok, Hid, bind_Ok. unfold from_master_secret.
    rewrite Henc, !bind_Ok. cbn [ciphertext].
    assert (_split_secret tok hmac (S ctr) 1 (Z.of_nat 1) ct = Ok ([RawShare 0 ct], S ctr)) as -> by done.
    rewrite bind_Ok. cbn [zip_strict length]. unfold zip_strict. rewrite decide_True by done.
    rewrite bind_Ok. cbn [zip zip_with foldM]. unfold group_mnemonics. unfold _split_secret.
    change MAX_SHARE_COUNT with 16.
    destruct (Z.ltb_spec t 1); [done|]. destruct (Z.ltb_spec c t); [done|].
    destruct (Z.ltb_spec 16 c); [done|]. lia.
Qed.

Lemma split_secret_errors_witness :
  (3 = 1 -> 1 < 2 ->
     split_secret demo_token_bytes demo_hmac demo_pbkdf2 0 demo_secret 3 2 [] 1 = Err KeyShareError) /\
  (3 < 1 \/ 2 < 3 \/ (16 < 2 /\ 3 <> 1) ->
     split_secret demo_token_bytes demo_hmac demo_pbkdf2 0 demo_secret 3 2 [] 1 = Err ValueError).
Proof.
  apply (split_secret_errors demo_token_bytes demo_hmac demo_pbkdf2 0 demo_secret 3 2 [] 1).
  - apply demo_token_bytes_ok.
  - apply demo_pbkdf2_ok.
  - vm_compute. discriminate.
  - reflexivity.
  - constructor.
  - lia.
Defined.

(** An iteration exponent of 16 is not refused, and it is not
    recoverable: [split_secret] hands out a full set of cards for it, all of
    which [combine_mnemonics] rejects (the exponent spills over the extendable
    flag, so the checksum is verified against the other customization). *)
Theorem exponent_16_unrecoverable :
  exists cards, split_secret demo_token_bytes demo_hmac demo_pbkdf2 0 demo_secret 2 3 [] 16
      = Ok cards /\ length cards = 3%nat /\
    Forall (fun card => from_mnemonic card = Err KeyShareError) cards /\
    combine_mnemonics demo_hmac demo_pbkdf2 cards [] = Err KeyShareError.
Proof.
  exists (match split_secret demo_token_bytes demo_hmac demo_pbkdf2 0 demo_secret 2 3 [] 16 with
          | Ok cards => cards | Err _ => [] end).
  split_and!; [vm_compute; reflexivity..| |vm_compute; reflexivity].
  apply (bool_decide_unpack _). vm_compute. exact I.
Qed.
