(* ===== verification/Codec.v ===== *)
(** * Passwords as master secrets

    [keyshare/codec.py]: the reversible framing of a password of any length into
    a master secret of even length and at least 16 bytes. *)

From S2P Require Import Prelude Lagrange Gf256 Shamir Rs1024 PyString Wordlist Share Feistel Slip39.

#[local] Open Scope Z_scope.

Definition _MAX_PASSWORD_LEN : Z := 0xFFFF.
Definition _LENGTH_PREFIX_BYTES : Z := 2.
Definition _MIN_MASTER_SECRET_BYTES : Z := 16.

Definition encode_master_secret (pw : bytes) : res bytes :=
  _ ← raise_if (_MAX_PASSWORD_LEN <? len pw) KeyShareError;
  prefix ← int_to_be (len pw) _LENGTH_PREFIX_BYTES;
  let body := prefix ++ pw in
  let target := Z.max _MIN_MASTER_SECRET_BYTES (len body + Z.land (len body) 1) in
  Ok (body ++ replicate (Z.to_nat (target - len body)) 0).

Definition decode_master_secret (ms : bytes) : res bytes :=
  _ ← raise_if (len ms <? _LENGTH_PREFIX_BYTES) KeyShareError;
  let n := int_from_be (slice_to ms _LENGTH_PREFIX_BYTES) in
  _ ← raise_if (len ms <? _LENGTH_PREFIX_BYTES + n) KeyShareError;
  Ok (slice ms _LENGTH_PREFIX_BYTES (_LENGTH_PREFIX_BYTES + n)).

(** ** Lemmas *)

(** The zeros after the body. *)
Definition pad (n : Z) : nat := Z.to_nat (Z.max 16 (n + Z.land n 1) - n).

Lemma land_1 n : Z.land n 1 = n mod 2.
Proof. by apply (Z.land_ones n 1). Qed.

Lemma encode_eq pw :
  len pw <= 65535 -> bytes_ok pw ->
  encode_master_secret pw
  = Ok (be_digits 256 2 (len pw) ++ pw ++ replicate (pad (len pw + 2)) 0).
Proof.
  intros Hlen Hpw. unfold encode_master_secret, _MAX_PASSWORD_LEN.
  rewrite (proj2 (Z.ltb_ge 0xFFFF (len pw))) by lia. cbn [raise_if]. rewrite bind_Ok.
  unfold int_to_be, _LENGTH_PREFIX_BYTES. rewrite (proj2 (Z.ltb_ge (len pw) 0)) by lia.
  rewrite (proj2 (Z.leb_gt (256 ^ 2) (len pw))) by lia. cbn [orb]. rewrite bind_Ok.
  cbv zeta. rewrite !length_app. change (length (be_digits 256 (Z.to_nat 2) (len pw))) with 2%nat.
  rewrite <- app_assoc. do 4 f_equal. unfold pad, _MIN_MASTER_SECRET_BYTES.
  by replace (Z.of_nat (2 + length pw)) with (len pw + 2) by lia.
Qed.

Lemma encode_spec pw :
  len pw <= 65535 -> bytes_ok pw ->
  exists ms, encode_master_secret pw = Ok ms /\ bytes_ok ms /\ 16 <= len ms /\ len ms mod 2 = 0 /\
    len ms <= Z.max 16 (len pw + 3) /\ decode_master_secret ms = Ok pw.
Proof.
  intros Hlen Hpw. eexists. split; [by apply encode_eq|].
  set (n := pad (len pw + 2)).
  assert (Z.of_nat n = Z.max 16 (len pw + 2 + (len pw + 2) mod 2) - (len pw + 2)) as Hn.
  { unfold n, pad. rewrite land_1. pose proof (Z.mod_pos_bound (len pw + 2) 2). lia. }
  set (ms := be_digits 256 2 (len pw) ++ pw ++ replicate n 0).
  assert (len ms = Z.max 16 (len pw + 2 + (len pw + 2) mod 2)) as Hms.
  { unfold ms. rewrite !length_app, length_replicate. change (length (be_digits 256 2 (len pw))) with 2%nat. lia. }
  pose proof (Z.mod_pos_bound (len pw + 2) 2 ltac:(lia)) as Hm.
  split_and!.
  - unfold ms. rewrite !Forall_app. split_and!; [|done|].
    + repeat constructor; apply Z.mod_pos_bound; lia.
    + apply Forall_replicate. unfold is_byte. lia.
  - lia.
  - rewrite Hms. destruct (Z.max_spec 16 (len pw + 2 + (len pw + 2) mod 2)) as [[_ ->]|[_ ->]]; [|done].
    pose proof (Z.div_mod (len pw + 2) 2 ltac:(lia)) as Hd.
    rewrite Hd at 1. rewrite <- Z.add_assoc. replace (2 * ((len pw + 2) / 2) + (_ + _))
      with (((len pw + 2) / 2 + (len pw + 2) mod 2) * 2) by lia. by apply Z.mod_mul.
  - lia.
  - unfold decode_master_secret, _LENGTH_PREFIX_BYTES.
    rewrite (proj2 (Z.ltb_ge (len ms) 2)) by lia. cbn [raise_if]. rewrite bind_Ok. cbv zeta.
    assert (slice_to ms 2 = be_digits 256 2 (len pw)) as -> by (by apply slice_to_app).
    assert (int_from_be (be_digits 256 2 (len pw)) = len pw) as -> by (apply be_val_digits; lia).
    rewrite (proj2 (Z.ltb_ge (len ms) (2 + len pw))) by lia. cbn [raise_if]. rewrite bind_Ok. f_equal.
    by apply slice_app.
Qed.

Lemma decode_total ms :
  bytes_ok ms -> ensures (fun pw => bytes_ok pw /\ len pw + 2 <= len ms) (fun e => e = KeyShareError)
    (decode_master_secret ms).
Proof.
  intros Hms. unfold decode_master_secret, _LENGTH_PREFIX_BYTES.
  eapply ensures_bind; [by apply ensures_raise_if|]. intros ? _ Hl. cbv zeta.
  set (n := int_from_be (slice_to ms 2)).
  assert (0 <= n) as Hn.
  { unfold n, int_from_be. apply (be_val_bound 256); [lia|]. apply Forall_take, Hms. }
  eapply ensures_bind; [by apply ensures_raise_if|]. intros ? _ Hr. cbn [ensures].
  rewrite slice_nonneg by lia. split; [by apply Forall_take, Forall_drop|].
  rewrite length_take, length_drop. apply Z.ltb_ge in Hl, Hr. lia.
Qed.

(** ** Properties *)

(** The framing is exactly reversible and always fits the secret-sharing
    scheme: a password of up to 65535 bytes becomes a master secret of bytes, at
    least 16 long and even, at most three bytes longer than it must be, and
    decodes to the same password, zero bytes at its end included; a longer one is
    refused with [KeyShareError]. *)
Theorem master_secret_roundtrip pw :
  bytes_ok pw ->
  match encode_master_secret pw with
  | Ok ms => bytes_ok ms /\ 16 <= len ms /\ len ms mod 2 = 0 /\ len ms <= Z.max 16 (len pw + 3) /\
             decode_master_secret ms = Ok pw
  | Err e => e = KeyShareError /\ 65535 < len pw
  end.
Proof.
  intros Hpw. destruct (Z.le_gt_cases (len pw) 65535) as [Hl|Hl].
  - by destruct (encode_spec pw Hl Hpw) as (ms & -> & H).
  - unfold encode_master_secret, _MAX_PASSWORD_LEN.
    by rewrite (proj2 (Z.ltb_lt 0xFFFF (len pw))) by lia.
Qed.
Lemma master_secret_roundtrip_witness :
  match encode_master_secret [104; 117; 110; 116; 101; 114; 50; 0] with
  | Ok ms => bytes_ok ms /\ 16 <= len ms /\ len ms mod 2 = 0 /\ len ms <= Z.max 16 (8 + 3) /\
             decode_master_secret ms = Ok [104; 117; 110; 116; 101; 114; 50; 0]
  | Err e => e = KeyShareError /\ 65535 < 8
  end.
Proof.
  apply (master_secret_roundtrip [104; 117; 110; 116; 101; 114; 50; 0]).
  apply (bool_decide_unpack _). vm_compute. exact I.
Defined.
