(* ===== verification/Cards.v ===== *)
(** * Share cards and the combiner

    [keyshare/cards.py], which finds the share in a printed card, and
    [meta/keyshare_combine.py], the program on the rescue disc that turns cards
    back into the password.  The text of a file comes from [read_text], which may
    fail with [OSError]; text is ASCII. *)

From Stdlib Require Import Ascii.
From S2P Require Import Prelude Lagrange Gf256 Shamir Rs1024 PyString PyText Wordlist Share Feistel Slip39 Codec.

#[local] Open Scope string_scope.
#[local] Open Scope Z_scope.

Definition is_word (tok : string) : bool :=
  match _WORD_TO_INDEX !! str_lower tok with Some _ => true | None => false end.
Definition is_mnemonic_line (line : string) : bool :=
  let tokens := str_split line in
  match tokens with [] => false | _ => forallb is_word tokens end.

(** One token of the loop that counts the words that do not resolve. *)
Definition count_bad (bad : Z) (tok : string) : res Z :=
  match _word_index tok with
  | Ok _ => Ok bad
  | Err KeyShareError => Ok (bad + 1)
  | Err e => Err e
  end.
Definition is_mistyped_share_line (line : string) : res bool :=
  let tokens := str_split line in
  if len tokens <? 13 then Ok false
  else bad ← foldM count_bad 0 tokens; Ok (bad * 4 <=? len tokens).

Definition card_words (text : string) : list string :=
  line ← str_splitlines text;
  if is_mnemonic_line line then str_lower <$> str_split line else [].
Definition extract_mnemonic (text : string) : res string :=
  let words := card_words text in
  _ ← raise_if (len words <? MIN_MNEMONIC_LENGTH_WORDS) KeyShareError;
  Ok (str_join words).

(** ** Printing *)

(** Lines joined into a text, each ended by a line feed. *)
Definition newline : ascii := ascii_of_N 10.
Fixpoint unlines (ls : list string) : string :=
  match ls with [] => "" | l :: ls => l ++ String newline (unlines ls) end.

(** [_share_card_text] of cli/main.py, the card of one share *)
Definition card_head (repo : string) (index threshold count : Z) (split_date : string) (split_id : Z) : list string :=
  ["=============== LCSAS SHARE CARD ===============";
   "Repository : " ++ repo;
   "Share      : " ++ str_of_int index ++ " of " ++ str_of_int count;
   "Split on   : " ++ split_date;
   "Split ID   : " ++ format_0d 5 split_id;
   "";
   "WHAT THIS IS";
   "  This card holds ONE share of the password that unlocks the";
   "  repository '" ++ repo ++ "'.  The password was split into " ++ str_of_int count;
   "  shares using Shamir Secret Sharing (SLIP-0039).";
   "";
   "HOW TO USE IT";
   "  You need ANY " ++ str_of_int threshold ++ " of the " ++ str_of_int count ++ " shares to rebuild the";
   "  password.  Fewer than that reveal NOTHING about it.  Gather at";
   "  least " ++ str_of_int threshold ++ " share cards and, on the META disc, run:";
   "      recovery/bin/<machine>/lcsas-keyshare <card1> <card2> ...";
   "  If that program will not run, the fallback is:";
   "      python3 keyshare_combine.py <card1> <card2> ...";
   "  (or follow the META disc's instructions).";
   "";
   "  Other people each hold one of the remaining shares.  Losing more";
   "  than " ++ str_of_int (count - threshold) ++ " of the " ++ str_of_int count ++ " shares means the";
   "  password can never be rebuilt.";
   "";
   "THE SHARE WORDS (keep every word, in order)"].
Definition card_tail : list string :=
  ["";
   "  Tip: you may type just the first 4 letters of each word — the";
   "  combiner expands any unambiguous prefix to the full word.";
   "================================================"].
Definition _share_card_text (repo : string) (index threshold count : Z) (mnemonic split_date : string)
    (split_id : Z) : string :=
  let share := "  " ++ mnemonic in
  unlines (card_head repo index threshold count split_date split_id ++ [share] ++ card_tail)%list.

(** ** The combiner *)

Definition EXIT_CANNOT_COMBINE : Z := 1.
Definition EXIT_USAGE : Z := 2.
Definition EXIT_BAD_SHARE : Z := 3.

Inductive card_label := FromFile (path : string) | FromStdin (lineno : Z).

(** What a run leaves: the exit code, the bytes on standard output, and the
    verdict on each share. *)
Record outcome := mkOutcome {
  exit_code : Z; stdout : bytes; verdicts : list (card_label * option share_diagnosis);
}.

Section combiner.
Variable read_text : string -> res string.
Variable stdin : string.
Variable hmac_sha256 : bytes -> bytes -> bytes.
Variable pbkdf2_hmac : bytes -> bytes -> Z -> Z -> bytes.

Definition read_card (p : string) : res (card_label * string) :=
  text ← read_text p;
  m ← extract_mnemonic text;
  Ok (FromFile p, m).
Fixpoint read_lines (lineno : Z) (lines : list string) : res (list (card_label * string)) :=
  match lines with
  | [] => Ok []
  | line :: lines =>
      mistyped ← (if is_mnemonic_line line then Ok true else is_mistyped_share_line line);
      rest ← read_lines (lineno + 1) lines;
      if (mistyped : bool) then Ok ((FromStdin lineno, str_join (str_split (str_lower line))) :: rest)
      else Ok rest
  end.
Definition _read_mnemonics (paths : list string) : res (list (card_label * string)) :=
  match paths with
  | [] => read_lines 1 (str_splitlines stdin)
  | _ => mapM_res read_card paths
  end.

Definition main (args : list string) : res outcome :=
  if match args with a :: _ => String.eqb a "-h" || String.eqb a "--help" | [] => false end
  then Ok (mkOutcome 0 [] [])
  else
    match _read_mnemonics args with
    | Err OSError | Err FileNotFoundError => Ok (mkOutcome EXIT_USAGE [] [])
    | Err KeyShareError => Ok (mkOutcome EXIT_BAD_SHARE [] [])
    | Err e => Err e
    | Ok [] => Ok (mkOutcome EXIT_USAGE [] [])
    | Ok pairs =>
        let verdicts := (fun p : card_label * string => (p.1, check_share p.2)) <$> pairs in
        if existsb (fun v : card_label * option share_diagnosis =>
                      match v.2 with Some _ => true | None => false end) verdicts
        then Ok (mkOutcome EXIT_BAD_SHARE [] verdicts)
        else
          match (ms ← recover_secret hmac_sha256 pbkdf2_hmac (snd <$> pairs) [];
                 decode_master_secret ms) with
          | Ok password => Ok (mkOutcome 0 password verdicts)
          | Err KeyShareError => Ok (mkOutcome EXIT_CANNOT_COMBINE [] verdicts)
          | Err e => Err e
          end
    end.
End combiner.

(** ** Reading a card *)

Fixpoint no_break (s : string) : bool :=
  match s with EmptyString => true | String c s => negb (is_line_break c) && no_break s end.

Lemma splitlines_line w s cur :
  no_break w = true ->
  splitlines_aux cur false (w ++ String newline s) = rev_string (rev_string w cur) "" :: splitlines_aux "" false s.
Proof.
  revert cur. induction w as [|c w IH]; intros cur; [done|]. cbn [no_break]. intros [Hc Hw]%andb_prop.
  apply negb_true_iff in Hc. change (String c w ++ String newline s) with (String c (w ++ String newline s)). cbn [splitlines_aux andb rev_string]. rewrite Hc. by apply IH.
Qed.
Lemma splitlines_unlines ls :
  Forall (fun l => no_break l = true) ls -> str_splitlines (unlines ls) = ls.
Proof.
  unfold str_splitlines. induction 1 as [|l ls Hl _ IH]; [done|]. cbn [unlines].
  rewrite splitlines_line, IH by done. by rewrite rev_string_involutive.
Qed.

Lemma line_break_space c : is_line_break c = true -> is_space c = true.
Proof.
  unfold is_line_break, is_space. rewrite !orb_true_iff, !andb_true_iff, !Z.leb_le. lia.
Qed.
Lemma no_space_no_break w : no_space w = true -> no_break w = true.
Proof.
  induction w as [|c w IH]; [done|]. cbn [no_space no_break]. intros [Hc Hw]%andb_prop.
  rewrite (IH Hw), andb_true_r. apply negb_true_iff in Hc. apply negb_true_iff, not_true_iff_false.
  intros Hb. apply line_break_space in Hb. by rewrite Hb in Hc.
Qed.
Lemma no_break_app a b : no_break (a ++ b) = no_break a && no_break b.
Proof.
  induction a as [|c a IH]; [done|]. change (String c a ++ b) with (String c (a ++ b)).
  cbn [no_break]. rewrite IH. by rewrite andb_assoc.
Qed.
Lemma no_break_join l : Forall (fun w => token_ok w = true) l -> no_break (str_join l) = true.
Proof.
  induction 1 as [|w l [_ Hw]%token_ok_inv Hl IH]; [done|]. apply no_space_no_break in Hw.
  destruct l as [|w' l]; [done|].
  change (str_join (w :: w' :: l)) with (w ++ String " " (str_join (w' :: l))).
  rewrite no_break_app, Hw. exact IH.
Qed.

Lemma is_word_token w : is_word w = true -> token_ok (str_lower w) = true.
Proof.
  unfold is_word. destruct (_WORD_TO_INDEX !! _) as [i|] eqn:E; [|done]. intros _.
  apply word_to_index_sound in E as [Hw _].
  pose proof wordlist_tokens as Ht. rewrite forallb_forall in Ht.
  apply Ht, list_elem_of_In. by apply list_elem_of_lookup_2 in Hw.
Qed.

(** A share on paper or in a file: its words, in any case, on one or more lines of their own
    with any spacing, between lines of prose. *)
Definition share_line (l : string) : Prop :=
  no_break l = true /\ str_split l <> [] /\ Forall (fun w => is_word w = true) (str_split l).
Record card_of (words : list string) (text : string) : Prop := {
  card_lines : exists pre shares post,
    text = unlines (pre ++ shares ++ post) /\
    str_lower <$> concat (str_split <$> shares) = words /\
    Forall (fun l => no_break l = true /\ is_mnemonic_line l = false) (pre ++ post) /\
    Forall share_line shares;
}.

Lemma share_line_mnemonic l : share_line l -> is_mnemonic_line l = true.
Proof.
  intros (_ & Hne & Hw). unfold is_mnemonic_line. destruct (str_split l); [done|].
  apply forallb_forall. intros x Hx%list_elem_of_In. by eapply Forall_forall in Hw.
Qed.
Lemma join_share_line c :
  c <> [] -> Forall (fun w => token_ok w = true /\ is_word w = true) c ->
  share_line (str_join c) /\ str_split (str_join c) = c.
Proof.
  intros Hne Hc. apply Forall_and in Hc as [Ht Hw]. pose proof (str_split_join c Ht) as Hs.
  split; [|done]. split_and!; [by apply no_break_join|by rewrite Hs..].
Qed.

Lemma card_words_card words text : card_of words text -> card_words text = words.
Proof.
  intros [(pre & shares & post & -> & <- & Hprose & Hshares)].
  apply Forall_app in Hprose as [Hpre Hpost]. unfold card_words.
  set (f := fun line => if is_mnemonic_line line then str_lower <$> str_split line else []).
  assert (forall ls, Forall (fun l => no_break l = true /\ is_mnemonic_line l = false) ls -> ls ≫= f = []) as Hnil.
  { induction 1 as [|l ls [_ Hl] _ IH]; [done|]. csimpl. unfold f at 1. by rewrite Hl, IH. }
  rewrite splitlines_unlines.
  - rewrite !bind_app, Hnil, (Hnil post) by done. rewrite app_nil_r. cbn [app].
    clear -Hshares. induction Hshares as [|l shares Hl _ IH]; [done|].
    csimpl. cbn [concat]. rewrite fmap_app, IH. f_equal. unfold f. by rewrite (share_line_mnemonic l Hl).
  - rewrite !Forall_app. split_and!.
    1, 3: eapply Forall_impl; [done|]; by intros ? [? _].
    eapply Forall_impl; [done|]. by intros l (? & _).
Qed.

Lemma extract_card words text :
  card_of words text -> 20 <= len words -> extract_mnemonic text = Ok (str_join words).
Proof.
  intros Hc Hl. unfold extract_mnemonic. rewrite (card_words_card words) by done.
  change MIN_MNEMONIC_LENGTH_WORDS with 20. by rewrite (proj2 (Z.ltb_ge (len words) 20)) by done.
Qed.
Lemma card_of_tokens words text : card_of words text -> Forall (fun w => token_ok w = true) words.
Proof.
  intros [(pre & shares & post & _ & <- & _ & Hs)]. apply Forall_fmap, Forall_concat, Forall_fmap.
  eapply Forall_impl; [done|]. intros l (_ & _ & Hw). eapply Forall_impl; [done|].
  intros w H. by apply is_word_token.
Qed.

(** *** The card that is printed *)

Lemma no_break_all p s : all_chars p s = true -> (forall c, p c = true -> is_line_break c = false) -> no_break s = true.
Proof.
  intros H Hp. induction s as [|c s IH]; [done|]. cbn [all_chars no_break] in *. apply andb_prop in H as [Hc Hs].
  by rewrite (Hp c Hc), IH.
Qed.
Lemma no_break_digits s : all_chars is_digit s = true -> no_break s = true.
Proof.
  intros H. apply (no_break_all _ _ H). intros c. unfold is_digit, is_line_break.
  rewrite andb_true_iff, !Z.leb_le, orb_false_iff, !andb_false_iff, !Z.leb_gt. lia.
Qed.
Lemma no_break_int n : no_break (str_of_int n) = true.
Proof.
  unfold str_of_int. destruct (n <? 0).
  - rewrite no_break_app. by rewrite (no_break_digits (dec_digits (- n))) by apply dec_digits_all.
  - apply no_break_digits, dec_digits_all.
Qed.
Lemma no_break_0d w n : no_break (format_0d w n) = true.
Proof.
  unfold format_0d. assert (forall s k, all_chars is_digit s = true -> no_break (zeros k ++ s) = true) as H.
  { intros s k Hs. rewrite no_break_app. by rewrite !no_break_digits by (done || apply zeros_all). }
  destruct (n <? 0); [rewrite no_break_app|]; by rewrite H by apply dec_digits_all.
Qed.

(** A line with a word of prose is no share line. *)
Lemma prose_line (w s : string) : token_ok w = true -> is_word w = false -> is_mnemonic_line (w ++ String " " s) = false.
Proof.
  intros [Hne Hns]%token_ok_inv Hw. unfold is_mnemonic_line, str_split. rewrite split_aux_token by done.
  cbn [split_aux]. change (is_space " ") with true. cbv iota. rewrite flush_rev by done. cbn [forallb]. by rewrite Hw.
Qed.
Lemma indented (s : string) : str_split (String " " s) = str_split s.
Proof. done. Qed.
Lemma indented_line (s : string) : is_mnemonic_line (String " " s) = is_mnemonic_line s.
Proof. done. Qed.

Ltac prose := repeat rewrite indented_line; first
  [ vm_compute; reflexivity
  | match goal with |- is_mnemonic_line ?l = false =>
      first [apply (prose_line "Repository")|apply (prose_line "Share")|apply (prose_line "Split")
            |apply (prose_line "repository")|apply (prose_line "You")|apply (prose_line "least")
            |apply (prose_line "than")] end; vm_compute; reflexivity ].

Lemma card_prose repo index threshold count split_date split_id :
  no_break repo = true -> no_break split_date = true ->
  Forall (fun l => no_break l = true /\ is_mnemonic_line l = false)
    (card_head repo index threshold count split_date split_id ++ card_tail).
Proof.
  intros Hr Hd. unfold card_head, card_tail. cbn [app].
  repeat (apply Forall_cons_2; [split|]); [..|apply Forall_nil_2].
  all: try (rewrite !no_break_app, ?no_break_int, ?no_break_0d, ?Hr, ?Hd; vm_compute; reflexivity).
  all: prose.
Qed.

(** The words of a mnemonic that was made. *)
Definition made (m : string) : Prop :=
  exists ws, m = str_join ws /\ ws <> [] /\ Forall (fun w => token_ok w = true /\ is_word w = true /\ str_lower w = w) ws.
Lemma wordlist_words : forallb (fun w => token_ok w && is_word w && String.eqb (str_lower w) w) WORDLIST = true.
Proof. vm_compute. reflexivity. Qed.
Lemma printed_card m repo index threshold count split_date split_id :
  made m -> no_break repo = true -> no_break split_date = true ->
  card_of (str_split m) (_share_card_text repo index threshold count m split_date split_id).
Proof.
  intros (ws & -> & Hne & Hws) Hr Hd.
  assert (Forall (fun w => token_ok w = true /\ is_word w = true) ws) as Hw
    by (eapply Forall_impl; [exact Hws|]; intros w (? & ? & ?); by split).
  destruct (join_share_line ws Hne Hw) as [[Hb Hl] Hs]. constructor.
  exists (card_head repo index threshold count split_date split_id), ["  " ++ str_join ws], card_tail.
  split_and!; [done| |by apply card_prose|].
  - csimpl. cbn [concat]. rewrite app_nil_r. change ("  " ++ str_join ws) with (String " " (String " " (str_join ws))).
    rewrite !indented, Hs. clear -Hws. induction Hws as [|w ws (_ & _ & H) _ IH]; [done|]. csimpl. by rewrite H, IH.
  - apply Forall_singleton. change ("  " ++ str_join ws) with (String " " (String " " (str_join ws))).
    split; [exact Hb|]. by rewrite !indented.
Qed.

Lemma py_get_elem {A} (l : list A) i x : py_get l i = Ok x -> x ∈ l.
Proof.
  unfold py_get. intros H. destruct (norm_index _ _ <? 0); [done|].
  destruct (l !! _) eqn:E; [|done]. cbn in H. injection H as <-. by eapply list_elem_of_lookup_2.
Qed.
Lemma mnemonic_made s m : mnemonic s = Ok m -> made m.
Proof.
  unfold mnemonic, words, _words_from_indices. intros H.
  destruct (mapM_res _ _) as [ws|] eqn:E; [|done]. injection H as <-. exists ws.
  pose proof (mapM_res_length _ _ _ E) as Hlen. rewrite length_app, length_create_checksum in Hlen. split_and!; [done| |].
  - intros ->. cbn in Hlen. lia.
  - assert (ensures (fun l' => Forall (fun w => w ∈ WORDLIST) l' /\ length l' = length (share_data s ++
      _rs1024_create_checksum (share_data s) (_customization_string (extendable s)))) (fun _ => True)
      (mapM_res (py_get WORDLIST) (share_data s ++
        _rs1024_create_checksum (share_data s) (_customization_string (extendable s))))) as Hin.
    { apply ensures_mapM. intros i _. destruct (py_get WORDLIST i) eqn:Ei; [|done]. by apply py_get_elem in Ei. }
    rewrite E in Hin. destruct Hin as [Hin _]. eapply Forall_impl; [exact Hin|]. intros w Hw.
    pose proof wordlist_words as Hall. rewrite forallb_forall in Hall.
    specialize (Hall w ltac:(by apply list_elem_of_In)). apply andb_prop in Hall as [[? ?]%andb_prop ?%String.eqb_eq].
    by split_and!.
Qed.
Lemma split_secret_made tok hmac kdf ctr ms t c pw e cards :
  split_secret tok hmac kdf ctr ms t c pw e = Ok cards -> Forall made cards.
Proof.
  unfold split_secret. intros H. destruct (generate_mnemonics _ _ _ _ _ _ _ _ _ _) as [[groups ctr']|] eqn:Hg; [|done].
  cbn in H. apply py_get_elem in H. unfold generate_mnemonics in Hg. inv_bind Hg.
  destruct x4 as [identifier n1]. inv_bind Hg. destruct x5 as [shares n2]. inv_bind Hg.
  match type of Hg with foldM ?f ?s ?l = _ =>
    assert (ensures (fun x => Forall (Forall made) x.1) (fun _ => True) (foldM f s l)) as Hf end.
  { apply ensures_foldM; [constructor|]. intros [result n] [[t' c'] share] _ Hr. cbn [group_mnemonics fst] in *.
    unfold group_mnemonics. destruct (_split_secret tok hmac n t' c' (rs_data share)) as [[members n']|]; [|done]. cbn [mbind res_bind].
    eapply (ensures_bind _ (fun l => Forall made l /\ length l = length members)).
    - apply ensures_mapM. intros m _. destruct (mnemonic _) eqn:Em; [|done]. by eapply mnemonic_made.
    - intros mns _ [Hm _]. cbn. apply Forall_app. by split; [|constructor]. }
  rewrite Hg in Hf. cbn in Hf. by eapply Forall_forall in Hf.
Qed.

(** *** What depends on the words only *)

Lemma from_mnemonic_words m m' : str_split m = str_split m' -> from_mnemonic m = from_mnemonic m'.
Proof. unfold from_mnemonic, _mnemonic_to_indices. by intros ->. Qed.
Lemma check_share_words m m' : str_split m = str_split m' -> check_share m = check_share m'.
Proof. unfold check_share. by intros ->. Qed.
Lemma combine_words hmac kdf ms ms' pw :
  Forall2 (fun m m' => str_split m = str_split m') ms ms' ->
  combine_mnemonics hmac kdf ms pw = combine_mnemonics hmac kdf ms' pw.
Proof.
  intros H. unfold combine_mnemonics, _decode_mnemonics.
  assert (forall st, foldM decode_mnemonic st ms = foldM decode_mnemonic st ms') as Hf.
  { induction H as [|m m' ms ms' Hm _ IH]; intros st; [done|]. cbn [foldM].
    assert (decode_mnemonic st m = decode_mnemonic st m') as ->
      by (unfold decode_mnemonic; by rewrite (from_mnemonic_words m m' Hm)).
    destruct (decode_mnemonic st m'); [apply IH|done]. }
  rewrite Hf. by destruct H.
Qed.
Lemma parsed_is_valid m s : from_mnemonic m = Ok s -> check_share m = None /\ 20 <= len (str_split m).
Proof.
  intros Hm. unfold from_mnemonic in Hm. pose proof (check_share_lemma m) as Hc.
  destruct (_mnemonic_to_indices m) as [data|e] eqn:E; [|done]. rewrite bind_Ok in Hm.
  assert (20 <= len data) as Hl.
  { unfold share_from_indices in Hm. change MIN_MNEMONIC_LENGTH_WORDS with 20 in Hm.
    destruct (Z.ltb_spec (len data) 20); [done|lia]. }
  pose proof (mapM_res_length _ _ _ E) as Hlen. split; [|lia].
  destruct (check_share m) as [[position token|found|]|]; [..|done]; exfalso.
  - destruct Hc as (i & t & e & Ht & He & _). unfold _mnemonic_to_indices in E.
    destruct (mapM_res_lookup _ _ _ _ _ E Ht) as (y & _ & Hy). by rewrite He in Hy.
  - destruct Hc as (data' & [= <-] & -> & ?). lia.
  - destruct Hc as (data' & [= <-] & _ & Hs). by rewrite Hs in Hm.
Qed.

(** ** Running the combiner *)

Section run.
Context (read_text : string -> res string) (stdin : string).
Context (hmac : bytes -> bytes -> bytes) (kdf : bytes -> bytes -> Z -> Z -> bytes).

Definition help_args (args : list string) : bool :=
  match args with a :: _ => String.eqb a "-h" || String.eqb a "--help" | [] => false end.

(** Files that are cards of the words [ws] give the mnemonics of those words. *)
Lemma read_cards paths wss :
  Forall2 (fun p ws => exists text, read_text p = Ok text /\ card_of ws text /\ 20 <= len ws) paths wss ->
  mapM_res (read_card read_text) paths = Ok (zip (FromFile <$> paths) (str_join <$> wss)).
Proof using.
  induction 1 as [|p ws paths wss (text & Ht & Hc & Hl) _ IH]; [done|]. cbn [mapM_res].
  assert (read_card read_text p = Ok (FromFile p, str_join ws)) as ->.
  { unfold read_card. rewrite Ht, bind_Ok. by rewrite (extract_card ws). }
  by rewrite bind_Ok, IH.
Qed.

Lemma run_cards paths wss ms password :
  paths <> [] -> help_args paths = false ->
  Forall2 (fun p ws => exists text, read_text p = Ok text /\ card_of ws text) paths wss ->
  combine_mnemonics hmac kdf (str_join <$> wss) [] = Ok ms ->
  decode_master_secret ms = Ok password ->
  main read_text stdin hmac kdf paths
  = Ok (mkOutcome 0 password ((fun p => (FromFile p, None)) <$> paths)).
Proof using.
  intros Hne Hh Hcards Hms Hpw.
  destruct (combine_requires_enough_lemma _ _ _ _ _ Hms) as (ss & Hss & _).
  assert (Forall (fun ws => check_share (str_join ws) = None /\ 20 <= len ws) wss) as Hval.
  { clear -Hss Hcards. revert ss Hss. induction Hcards as [|p ws paths wss (text & _ & Hc) _ IH];
      intros ss Hss; csimpl in *; inv Hss; [done|]. constructor; [|eauto].
    match goal with H : from_mnemonic _ = Ok _ |- _ => apply parsed_is_valid in H as [? Hl] end.
    rewrite str_split_join in Hl by (by eapply card_of_tokens). done. }
  assert (length paths = length wss) as Hlen by (by eapply Forall2_length).
  unfold main. fold (help_args paths). rewrite Hh. unfold _read_mnemonics.
  destruct paths as [|p0 paths'] eqn:Ep; [done|]. rewrite <- Ep in *.
  rewrite (read_cards paths wss).
  2: { clear -Hcards Hval. induction Hcards as [|p ws paths wss (text & ? & ?) _ IH]; inv Hval; constructor; [|auto].
       exists text. naive_solver. }
  assert (snd <$> zip (FromFile <$> paths) (str_join <$> wss) = str_join <$> wss) as Hsnd.
  { apply snd_zip. rewrite !length_fmap. lia. }
  assert ((fun p : card_label * string => (p.1, check_share p.2)) <$>
            zip (FromFile <$> paths) (str_join <$> wss) = (fun p => (FromFile p, None)) <$> paths) as Hv.
  { clear -Hlen Hval. revert wss Hlen Hval. induction paths as [|p paths IH]; intros [|ws wss] Hlen Hval; try done.
    csimpl in *. inv Hval. rewrite IH by (done || lia). by destruct_and!; f_equal; f_equal. }
  cbv zeta. rewrite Hv, Hsnd. unfold recover_secret. rewrite Hms, bind_Ok, Hpw.
  assert (existsb (fun v : card_label * option share_diagnosis =>
      match v.2 with Some _ => true | None => false end) ((fun p => (FromFile p, None)) <$> paths) = false) as ->.
  { clear. by induction paths. }
  by destruct (zip _ _) eqn:Ez; [subst paths; destruct wss|].
Qed.
End run.

(** Different members of the only group are enough for it. *)
Lemma one_group_sufficient t c picks :
  1 <= t -> t <= len (remove_dups picks) -> sufficient 1 [(t, c)] ((fun k => (0%nat, k)) <$> picks).
Proof.
  intros Ht Hlen. constructor.
  - rewrite <- list_fmap_compose.
    assert (remove_dups (fst ∘ (fun k => (0%nat, k)) <$> picks) ≡ₚ [0%nat]) as ->; [|done].
    apply NoDup_Permutation; [apply NoDup_remove_dups|apply NoDup_singleton|]. intros k.
    rewrite elem_of_remove_dups, list_elem_of_fmap, list_elem_of_singleton. split; [by intros (? & -> & _)|].
    intros ->. destruct picks as [|p picks]; [cbn in Hlen; lia|]. exists p. by split; [|left].
  - intros k t' c' Hk Hg. apply list_elem_of_fmap in Hk as (? & -> & (p & -> & _)%list_elem_of_fmap).
    injection Hg as <- <-. cbn [fst].
    assert ((filter (fun p : nat * nat => p.1 = 0%nat) ((fun k => (0%nat, k)) <$> picks)).*2 = picks) as ->; [|done].
    clear. induction picks as [|k picks IH]; [done|]. csimpl. by rewrite IH.
Qed.

(** *** Every run ends in an exit code *)

Definition io_error (e : exn) : Prop := e = OSError \/ e = FileNotFoundError.

Lemma decode_errors ms : ensures (fun _ => True) (fun e => e = KeyShareError) (decode_master_secret ms).
Proof.
  unfold decode_master_secret. eapply ensures_bind; [by apply ensures_raise_if|]. intros ? _ _.
  cbv zeta. eapply ensures_bind; [by apply ensures_raise_if|]. by intros.
Qed.
Lemma extract_errors text : ensures (fun _ => True) (fun e => e = KeyShareError) (extract_mnemonic text).
Proof. unfold extract_mnemonic. eapply ensures_bind; [by apply ensures_raise_if|]. by intros. Qed.
Lemma mistyped_total line : is_ok (is_mistyped_share_line line) = true.
Proof.
  unfold is_mistyped_share_line. destruct (_ <? _); [done|].
  assert (forall l b, exists n, foldM count_bad b l = Ok n) as H.
  { induction l as [|t l IH]; intros b; [by eexists|]. cbn [foldM].
    assert (exists b', count_bad b t = Ok b') as [b' ->]; [|apply IH].
    unfold count_bad. destruct (_word_index t) as [i|e] eqn:E; [by eexists|].
    apply word_index_error in E as ->. by eexists. }
  by destruct (H (str_split line) 0) as [n ->].
Qed.
Lemma read_lines_total n lines : is_ok (read_lines n lines) = true.
Proof.
  revert n. induction lines as [|line lines IH]; intros n; [done|]. cbn [read_lines].
  assert (exists b, (if is_mnemonic_line line then Ok true else is_mistyped_share_line line) = Ok b) as [b ->].
  { destruct (is_mnemonic_line line); [by eexists|]. pose proof (mistyped_total line) as H.
    destruct (is_mistyped_share_line line); [by eexists|done]. }
  rewrite bind_Ok. specialize (IH (n + 1)). destruct (read_lines _ _) as [rest|]; [|done]. by destruct b.
Qed.
Lemma read_mnemonics_errors read_text stdin paths :
  (forall p e, read_text p = Err e -> io_error e) ->
  ensures (fun _ => True) (fun e => e = KeyShareError \/ io_error e) (_read_mnemonics read_text stdin paths).
Proof.
  intros Hio. unfold _read_mnemonics. destruct paths as [|p0 paths0].
  { pose proof (read_lines_total 1 (str_splitlines stdin)) as H. by destruct (read_lines _ _). }
  generalize (p0 :: paths0). clear p0 paths0. induction l as [|p l IH]; [done|]. cbn [mapM_res].
  eapply (ensures_bind _ (fun _ => True)).
  - unfold read_card. eapply (ensures_bind _ (fun _ => True)).
    + destruct (read_text p) eqn:E; cbn; [done|]. right. by eapply Hio.
    + intros text _ _. eapply (ensures_bind _ (fun _ => True)); [|done].
      eapply ensures_weaken; [apply extract_errors|done|by left].
  - intros x _ _. eapply (ensures_bind _ (fun _ => True)); [exact IH|done].
Qed.

(** ** Properties *)

(** Reading a printed card: whatever prose lines surround it, however its
    words are broken over lines and in whatever case they are written, the
    extracted text is exactly the share's words in lower case. *)
Theorem extract_card_words words text :
  card_of words text -> 20 <= len words -> extract_mnemonic text = Ok (str_join words).
Proof. apply extract_card. Qed.

(** C2.  From password to cards and back: any password of up to 65535 bytes,
    framed and split into [c] cards with threshold [t], is what the combiner
    writes to standard output, with exit code 0, when it is run on the files of
    any [t] or more different cards, in any order, some given twice.  A file may
    hold a card as [key split] prints it, for any repository name and date of one
    line, or the words of the share in any case and spacing, on lines of their own,
    between lines of prose. *)
Theorem cards_recover_password tok hmac kdf ctr pw t c e :
  token_bytes_ok tok -> hmac_ok hmac -> pbkdf2_ok kdf ->
  bytes_ok pw -> len pw <= 65535 -> 1 <= t <= c -> c <= 16 -> (t = 1 -> c = 1) -> 0 <= e < 16 ->
  exists ms cards, encode_master_secret pw = Ok ms /\
    split_secret tok hmac kdf ctr ms t c [] e = Ok cards /\ len cards = c /\
    (forall k m repo index date id, cards !! k = Some m -> no_break repo = true -> no_break date = true ->
       card_of (str_split m) (_share_card_text repo index t c m date id)) /\
    forall read_text stdin paths picks,
      help_args paths = false -> t <= len (remove_dups picks) ->
      Forall2 (fun p k => exists m text, cards !! k = Some m /\ read_text p = Ok text /\
                 card_of (str_split m) text) paths picks ->
      main read_text stdin hmac kdf paths
      = Ok (mkOutcome 0 pw ((fun p => (FromFile p, None)) <$> paths)).
Proof.
  intros Htok Hhmac Hkdf Hpw Hlen Ht Hc Hone He.
  destruct (encode_spec pw Hlen Hpw) as (ms & Hms & Hmsb & Hmsl & Hmse & _ & Hdec).
  destruct (generate_combine_lemma tok hmac kdf ctr 1 [(t, c)] ms [] e true Htok Hhmac Hkdf)
    as (result & ctr' & Hgen & Hsizes & Hcomb).
  { constructor; try (cbn; lia); try done. by repeat constructor; cbn; try lia. }
  destruct result as [|cards [|? ?]]; [by inv Hsizes| |by inv Hsizes; inv select (Forall2 _ [] _)].
  assert (len cards = c) as Hcards by (by inv Hsizes).
  assert (split_secret tok hmac kdf ctr ms t c [] e = Ok cards) as Hsplit by (unfold split_secret; by rewrite Hgen).
  exists ms, cards. split_and!; [done..| |].
  { intros k m repo index date id Hk Hr Hd. apply printed_card; [|done..].
    apply split_secret_made in Hsplit. rewrite Forall_lookup in Hsplit. by eapply Hsplit. }
  intros read_text stdin paths picks Hh Henough Hfiles.
  assert (exists mns, mapM (fun k => cards !! k) picks = Some mns /\
    Forall2 (fun p m => exists text, read_text p = Ok text /\ card_of (str_split m) text) paths mns)
    as (mns & Hmns & Hread).
  { clear -Hfiles. induction Hfiles as [|p k paths picks (m & text & Hk & Ht & Hcard) _ (mns & Hm & IH)].
    - by exists [].
    - exists (m :: mns). cbn [mapM]. rewrite Hk. cbn. rewrite Hm. split; [done|]. constructor; eauto. }
  apply (run_cards read_text stdin hmac kdf paths (str_split <$> mns) ms pw); [|done| | |done].
  - intros ->. inv Hfiles. cbn in Henough. lia.
  - apply Forall2_fmap_r. done.
  - rewrite <- list_fmap_compose. rewrite (combine_words _ _ _ mns).
    + apply (Hcomb ((fun k => (0%nat, k)) <$> picks)).
      * rewrite <- Hmns. clear. unfold pick_mnemonics.
        induction picks as [|k picks IH]; [done|]. csimpl. destruct (cards !! k) as [m|]; [|done]. exact (f_equal (fun o => o ≫= fun k0 => Some (m :: k0)) IH).
      * apply one_group_sufficient; [lia|done].
    + apply Forall2_fmap_l, Forall_Forall2_diag. clear -Hread.
      induction Hread as [|p m paths mns (text & _ & Hcard) _ IH]; constructor; [|done].
      apply str_split_join. by eapply card_of_tokens.
Qed.

(** A card as it may be printed: a title, the words on three lines, some of them
    capitals, and a footer. *)
Definition print_card (words : list string) : string :=
  unlines (["LCSAS key share"; ""] ++ [str_join (take 7 words); str_join (take 7 (drop 7 words));
            str_join (drop 14 words)] ++ ["keep this card safe"]).
Lemma print_card_of words :
  14 < len words -> Forall (fun w => token_ok w = true /\ is_word w = true /\ str_lower w = w) words ->
  card_of words (print_card words).
Proof.
  intros Hl Hw. constructor. exists ["LCSAS key share"; ""], [str_join (take 7 words); str_join (take 7 (drop 7 words));
    str_join (drop 14 words)], ["keep this card safe"].
  assert (forall ws, ws <> [] -> ws ⊆ words -> share_line (str_join ws) /\ str_split (str_join ws) = ws) as Hsub.
  { intros ws Hne Hs. apply join_share_line; [done|]. apply Forall_forall. intros w Hin.
    destruct (proj1 (Forall_forall _ _) Hw w (Hs w Hin)) as (H1 & H2 & _). by split. }
  destruct (Hsub (take 7 words)) as [H1 E1].
  { destruct words; [cbn in Hl; lia|done]. }
  { intros w Hin. by eapply subseteq_take. }
  destruct (Hsub (take 7 (drop 7 words))) as [H2 E2].
  { intros Hn%(f_equal length). rewrite length_take, length_drop in Hn. cbn [length] in Hn. lia. }
  { intros w Hin. by eapply subseteq_drop, subseteq_take. }
  destruct (Hsub (drop 14 words)) as [H3 E3].
  { intros Hn%(f_equal length). rewrite length_drop in Hn. cbn [length] in Hn. lia. }
  { intros w Hin. by eapply subseteq_drop. }
  split_and!; [done| |repeat constructor; vm_compute; reflexivity|by repeat apply Forall_cons_2].
  csimpl. cbn [concat]. rewrite E1, E2, E3, app_nil_r.
  assert ((take 7 words ++ take 7 (drop 7 words) ++ drop 14 words)%list = words) as ->.
  { rewrite <- (take_drop 7 words) at 4. f_equal. rewrite <- (take_drop 7 (drop 7 words)) at 2.
    by rewrite drop_drop. }
  clear -Hw. induction Hw as [|w words (_ & _ & H) _ IH]; [done|]. csimpl. by rewrite H, IH.
Qed.

Lemma extract_card_words_witness :
  extract_mnemonic (print_card (str_split demo_mnemonic)) = Ok (str_join (str_split demo_mnemonic)).
Proof.
  apply (extract_card_words (str_split demo_mnemonic)); [|vm_compute; discriminate].
  apply print_card_of; [vm_compute; reflexivity|].
  apply (bool_decide_unpack _). vm_compute. exact I.
Defined.

(** Two of three cards of a demonstration password, the second card first. *)
Definition demo_password : bytes := [99; 111; 114; 114; 101; 99; 116].
Definition demo_password_cards : list string :=
  match (ms ← encode_master_secret demo_password;
         split_secret demo_token_bytes demo_hmac demo_pbkdf2 0 ms 2 3 [] 1) with
  | Ok cards => cards | Err _ => [] end.
Definition demo_cards_computed : list string := Eval vm_compute in demo_password_cards.
Definition demo_read (p : string) : res string :=
  match p with
  | "card1" => Ok (print_card (str_split (nth 0 demo_password_cards "")))
  | "card3" => Ok (_share_card_text "family" 3 2 3 (nth 2 demo_password_cards "") "2026-01-01" 1234)
  | _ => Err OSError
  end.

(** The combiner is run on a card as it is printed and on one that was copied by hand. *)
Lemma cards_recover_password_witness :
  main demo_read "" demo_hmac demo_pbkdf2 ["card3"; "card1"]
  = Ok (mkOutcome 0 demo_password [(FromFile "card3", None); (FromFile "card1", None)]).
Proof.
  destruct (cards_recover_password demo_token_bytes demo_hmac demo_pbkdf2 0 demo_password 2 3 1)
    as (ms & cards & Hms & Hsplit & _ & Hprint & Hrun).
  - apply demo_token_bytes_ok.
  - apply demo_hmac_ok.
  - apply demo_pbkdf2_ok.
  - apply (bool_decide_unpack _). vm_compute. exact I.
  - vm_compute. discriminate.
  - lia.
  - lia.
  - lia.
  - lia.
  - assert (cards = demo_password_cards) as -> by (unfold demo_password_cards; rewrite Hms, bind_Ok, Hsplit; reflexivity).
    assert (demo_password_cards = demo_cards_computed) as Hc by (vm_compute; reflexivity).
    apply (Hrun demo_read "" ["card3"; "card1"] [2%nat; 0%nat]); [reflexivity|vm_compute; discriminate|].
    repeat constructor.
    + exists (nth 2 demo_password_cards ""), (_share_card_text "family" 3 2 3 (nth 2 demo_password_cards "") "2026-01-01" 1234).
      assert (demo_password_cards !! 2%nat = Some (nth 2 demo_password_cards "")) as Hk by (rewrite Hc; vm_compute; reflexivity).
      split; [exact Hk|]. split; [reflexivity|]. exact (Hprint 2%nat _ "family" 3 "2026-01-01" 1234 Hk eq_refl eq_refl).
    + exists (nth 0 demo_password_cards ""), (print_card (str_split (nth 0 demo_password_cards ""))).
      split; [rewrite Hc; vm_compute; reflexivity|]. split; [reflexivity|].
      rewrite Hc. apply print_card_of; [vm_compute; reflexivity|]. apply (bool_decide_unpack _). vm_compute. exact I.
Defined.
(** Every run of the combiner ends with an exit code, whatever is on the
    cards: when reading a file fails in no other way than an [OSError], no
    exception escapes, the code is 0, 1, 2 or 3, nothing is written to standard
    output unless the code is 0, and the code is 3 as soon as a share that was
    read is not valid on its own. *)
Theorem combiner_exit_codes read_text stdin hmac kdf args :
  pbkdf2_ok kdf -> (forall p e, read_text p = Err e -> e = OSError \/ e = FileNotFoundError) ->
  exists o, main read_text stdin hmac kdf args = Ok o /\
    exit_code o ∈ [0; EXIT_CANNOT_COMBINE; EXIT_USAGE; EXIT_BAD_SHARE] /\
    (exit_code o <> 0 -> stdout o = []) /\
    (forall l d, (l, Some d) ∈ verdicts o -> exit_code o = EXIT_BAD_SHARE).
Proof.
  intros Hkdf Hio. unfold main. destruct (match args with [] => false | _ => _ end).
  { eexists. split; [done|]. cbn. split_and!; [left|done|]. intros l d H. by inv H. }
  assert (forall code, code ∈ [0; EXIT_CANNOT_COMBINE; EXIT_USAGE; EXIT_BAD_SHARE] ->
    exists o, Ok (mkOutcome code [] []) = Ok o /\
    exit_code o ∈ [0; EXIT_CANNOT_COMBINE; EXIT_USAGE; EXIT_BAD_SHARE] /\
    (exit_code o <> 0 -> stdout o = []) /\
    (forall l d, (l, Some d) ∈ verdicts o -> exit_code o = EXIT_BAD_SHARE)) as Hplain.
  { intros code Hc. eexists. split; [done|]. cbn. split_and!; [done|done|]. intros l d H. by inv H. }
  pose proof (read_mnemonics_errors read_text stdin args Hio) as Hr.
  destruct (_read_mnemonics read_text stdin args) as [pairs|e].
  2: { destruct Hr as [->|[->| ->]]; apply Hplain; set_solver. }
  destruct pairs as [|pr prs] eqn:Ep; [apply Hplain; set_solver|]. rewrite <- Ep. cbv zeta.
  set (vs := _ <$> pairs). destruct (existsb _ vs) eqn:Ev.
  { eexists. split; [done|]. cbn. split_and!; [set_solver|done|done]. }
  assert (forall l d, (l, Some d) ∈ vs -> False) as Hvs.
  { intros l d Hin%list_elem_of_In. apply not_true_iff_false in Ev. apply Ev, existsb_exists. by exists (l, Some d). }
  assert (ensures (fun _ => True) (fun e => e = KeyShareError)
    (ms ← recover_secret hmac kdf (snd <$> pairs) []; decode_master_secret ms)) as Hrun.
  { eapply ensures_bind; [by apply combine_total_lemma|]. intros ms _ _. apply decode_errors. }
  destruct (_ ≫= _) as [password|e].
  - eexists. split; [done|]. cbn. split_and!; [left|done|]. intros l d H. by apply Hvs in H.
  - cbn in Hrun. subst e. eexists. split; [done|]. cbn. split_and!; [set_solver|done|].
    intros l d H. by apply Hvs in H.
Qed.
Lemma combiner_exit_codes_witness :
  exists o, main demo_read "" demo_hmac demo_pbkdf2 ["card1"; "nowhere"] = Ok o /\
    exit_code o ∈ [0; EXIT_CANNOT_COMBINE; EXIT_USAGE; EXIT_BAD_SHARE] /\
    (exit_code o <> 0 -> stdout o = []) /\
    (forall l d, (l, Some d) ∈ verdicts o -> exit_code o = EXIT_BAD_SHARE).
Proof.
  apply (combiner_exit_codes demo_read "" demo_hmac demo_pbkdf2 ["card1"; "nowhere"]).
  - apply demo_pbkdf2_ok.
  - intros p e. unfold demo_read. repeat case_match; intros; simplify_eq; by left.
Defined.

(** One failure is not turned into an exit code: a share file that is not
    valid UTF-8 ([read_text] raises [UnicodeDecodeError], a [ValueError]) makes
    the program end with that exception, although an unreadable file is to end
    it with code 2. *)
Theorem undecodable_file_escapes read_text stdin hmac kdf p args :
  read_text p = Err ValueError -> help_args (p :: args) = false ->
  main read_text stdin hmac kdf (p :: args) = Err ValueError.
Proof.
  intros Hp Hh. unfold main. fold (help_args (p :: args)). rewrite Hh. unfold _read_mnemonics.
  cbn [mapM_res]. unfold read_card. by rewrite Hp.
Qed.
Lemma undecodable_file_escapes_witness :
  main (fun _ => Err ValueError) "" demo_hmac demo_pbkdf2 ["card.jpg"] = Err ValueError.
Proof. by apply (undecodable_file_escapes (fun _ => Err ValueError) "" demo_hmac demo_pbkdf2 "card.jpg" []). Defined.
