(* ===== verification/Json.v ===== *)
(** * Python exceptions and JSON documents

    Which [except] clauses catch an exception, and the values of [json.load] with
    the operations the readers apply to them.  Python raises [TypeError],
    [AttributeError] or [KeyError] where a document has another shape. *)

From S2P Require Import Prelude PyString PyText.
Open Scope string_scope.
Open Scope list_scope.
Open Scope Z_scope.

(** ** Exception classes *)

(** The subclass relation of the classes the readers name. *)
Definition is_a (e class : exn) : bool :=
  bool_decide (e = class) ||
  match e, class with
  | JSONDecodeError, ValueError => true
  | FileNotFoundError, OSError => true
  | PermissionError, OSError => true
  | SqliteOperationalError, SqliteDatabaseError => true
  | SqliteIntegrityError, SqliteDatabaseError => true
  | KeyFileCorruptError, IntegrityError => true
  | NoKeyUnlockedError, IntegrityError => true
  | RecursionError, RuntimeError => true
  | EscrowDriftError, RuntimeError => true
  | MirrorUnavailableError, MissingPacksError => true
  | _, _ => false
  end.
(** [except Exception]: an interrupt is a [BaseException] only. *)
Definition is_exception (e : exn) : bool := negb (bool_decide (e = KeyboardInterrupt)).
(** [except (c1, c2, ...)] *)
Definition caught (classes : list exn) (e : exn) : bool := existsb (is_a e) classes.

(** ** Documents *)

(** A float is [m * 2^e], with [m] odd unless [e] is 0.  The keys of an object are
    different. *)
#[warnings="-register-all"]
Inductive json :=
  | JNull
  | JBool (b : bool)
  | JInt (z : Z)
  | JFloat (m e : Z)
  | JString (s : string)
  | JList (l : list json)
  | JObject (members : list (string * json)).

Section json_eq.
Variable eq_dec : forall x y : json, {x = y} + {x <> y}.
Definition members_eq_dec (x y : string * json) : {x = y} + {x <> y}.
Proof. decide equality. apply String.string_dec. Defined.
End json_eq.
Fixpoint json_eq_dec (x y : json) : {x = y} + {x <> y}.
Proof.
  decide equality; try apply Z.eq_dec; try apply Bool.bool_dec; try apply String.string_dec.
  - apply (List.list_eq_dec json_eq_dec).
  - apply (List.list_eq_dec (members_eq_dec json_eq_dec)).
Defined.
#[export] Instance json_eq_decision : EqDecision json := json_eq_dec.

Definition member (k : string) (members : list (string * json)) : option json :=
  snd <$> List.find (fun m => String.eqb m.1 k) members.

(** [doc[k]], [doc.get(k, default)] and [k in doc] *)
Definition getitem (doc : json) (k : string) : res json :=
  match doc with
  | JObject members => of_option KeyError (member k members)
  | _ => Err TypeError
  end.
Definition get_or (doc : json) (k : string) (default : json) : res json :=
  match doc with
  | JObject members => Ok (match member k members with Some v => v | None => default end)
  | _ => Err AttributeError
  end.
Definition has_key (k : string) (doc : json) : res bool :=
  match doc with
  | JObject members => Ok (existsb (fun m => String.eqb m.1 k) members)
  | JList l => Ok (bool_decide (JString k ∈ l))
  | JString s => Ok (contains k s)
  | _ => Err TypeError
  end.

(** [for x in v] *)
Definition iterate (v : json) : res (list json) :=
  match v with
  | JList l => Ok l
  | JObject members => Ok ((fun m => JString m.1) <$> members)
  | JString s => Ok ((fun c => JString (String c EmptyString)) <$> String.list_ascii_of_string s)
  | _ => Err TypeError
  end.
(** [if v] *)
Definition truthy (v : json) : bool :=
  match v with
  | JNull => false
  | JBool b => b
  | JInt z => negb (z =? 0)
  | JFloat m _ => negb (m =? 0)
  | JString s => negb (bool_decide (s = EmptyString))
  | JList l => negb (bool_decide (l = []))
  | JObject members => negb (bool_decide (members = []))
  end.
(** The numbers, as [m * 2^e]; [None < v] and the like raise [TypeError]. *)
Definition number (v : json) : res (Z * Z) :=
  match v with
  | JBool b => Ok (if b then 1 else 0, 0)
  | JInt z => Ok (z, 0)
  | JFloat m e => Ok (m, e)
  | _ => Err TypeError
  end.
Definition less_than (x y : Z * Z) : bool :=
  let e := Z.min x.2 y.2 in x.1 * 2 ^ (x.2 - e) <? y.1 * 2 ^ (y.2 - e).
(** [v > 1] and [n > v] *)
Definition above_one (v : json) : res bool := x ← number v; Ok (less_than (1, 0) x).
Definition exceeds (n : Z) (v : json) : res bool := x ← number v; Ok (less_than x (n, 0)).
(** [v & mask], and a value where a library function wants an integer. *)
Definition as_int (v : json) : res Z :=
  match v with
  | JInt z => Ok z
  | JBool b => Ok (if b then 1 else 0)
  | _ => Err TypeError
  end.
(** The key of a dictionary or set that a value is: equal numbers are one key, and
    lists and objects cannot be hashed. *)
Definition hash_key (v : json) : res json :=
  match v with
  | JBool b => Ok (JInt (if b then 1 else 0))
  | JFloat m e => Ok (if 0 <=? e then JInt (m * 2 ^ e) else v)
  | JList _ | JObject _ => Err TypeError
  | _ => Ok v
  end.
(** A value where a library function wants a text. *)
Definition as_str (v : json) : res string := match v with JString s => Ok s | _ => Err TypeError end.

(** ** Handlers and dictionaries *)

(** [try: r except classes: raise to] *)
Definition reraise_as {A} (classes : list exn) (to : exn) (r : res A) : res A :=
  match r with
  | Ok a => Ok a
  | Err e => if caught classes e then Err to else Err e
  end.

(** A dictionary in the order of insertion: [d.get(k)] and [d[k] = v]. *)
Section dict.
Context {K V : Type} `{EqDecision K}.

Fixpoint dict_get (k : K) (d : list (K * V)) : option V :=
  match d with
  | [] => None
  | (k', v) :: d => if decide (k' = k) then Some v else dict_get k d
  end.
Fixpoint dict_put (k : K) (v : V) (d : list (K * V)) : list (K * V) :=
  match d with
  | [] => [(k, v)]
  | (k', v') :: d => if decide (k' = k) then (k', v) :: d else (k', v') :: dict_put k v d
  end.

Lemma dict_get_put k k' v d : dict_get k' (dict_put k v d) = if decide (k = k') then Some v else dict_get k' d.
Proof.
  induction d as [|[k0 v0] d IH]; cbn; [done|]. destruct (decide (k0 = k)) as [->|Hne]; cbn.
  - by destruct (decide (k = k')).
  - rewrite IH. destruct (decide (k0 = k')) as [->|]; [|done]. by rewrite decide_False by congruence.
Qed.
Lemma dict_get_in k v d : dict_get k d = Some v -> (k, v) ∈ d.
Proof.
  induction d as [|[k0 v0] d IH]; cbn; [done|]. destruct (decide (k0 = k)) as [->|].
  - intros [= ->]. by left.
  - intros H. right. by apply IH.
Qed.
End dict.
