(* ===== verification/Effects.v ===== *)
(** * Computations with state and exceptions

    What a method that changes its object and may raise is: from a state to a result
    and the state it leaves, in either case; and the rules for reasoning about it. *)

From S2P Require Import Prelude Json.

Definition eff (S A : Type) : Type := S -> res A * S.

#[export] Instance eff_ret {S} : MRet (eff S) := fun A a s => (Ok a, s).
#[export] Instance eff_bind {S} : MBind (eff S) := fun A B f m s =>
  match m s with
  | (Ok a, s') => f a s'
  | (Err e, s') => (Err e, s')
  end.

Definition lift {S A} (r : res A) : eff S A := fun s => (r, s).
Definition throw {S A} (e : exn) : eff S A := lift (Err e).
Definition gets {S A} (f : S -> A) : eff S A := fun s => (Ok (f s), s).
Definition modify {S} (f : S -> S) : eff S unit := fun s => (Ok tt, f s).

(** [try: m except handler]; [handler e] is [None] for an exception that no clause
    names. *)
Definition handle {S A} (m : eff S A) (handler : exn -> option (eff S A)) : eff S A := fun s =>
  match m s with
  | (Ok a, s') => (Ok a, s')
  | (Err e, s') => match handler e with Some h => h s' | None => (Err e, s') end
  end.

(** [for x in l: m(x)] *)
Fixpoint for_each {S A} (m : A -> eff S unit) (l : list A) : eff S unit :=
  match l with
  | [] => mret tt
  | x :: l => m x ≫= fun _ => for_each m l
  end.
(** [for i, x in enumerate(l, start=i)] *)
Fixpoint for_enumerate {S A} (m : Z -> A -> eff S unit) (i : Z) (l : list A) : eff S unit :=
  match l with
  | [] => mret tt
  | x :: l => m i x ≫= fun _ => for_enumerate m (i + 1)%Z l
  end.

Section eff.
Context {S A B : Type}.

Lemma eff_bind_Ok (m : eff S A) (f : A -> eff S B) s a s' : m s = (Ok a, s') -> (m ≫= f) s = f a s'.
Proof. intros H. unfold mbind, eff_bind. by rewrite H. Qed.
Lemma eff_bind_Err (m : eff S A) (f : A -> eff S B) s e s' : m s = (Err e, s') -> (m ≫= f) s = (Err e, s').
Proof. intros H. unfold mbind, eff_bind. by rewrite H. Qed.

Lemma eff_bind_Ok_inv (m : eff S A) (f : A -> eff S B) s b s' :
  (m ≫= f) s = (Ok b, s') -> exists a s1, m s = (Ok a, s1) /\ f a s1 = (Ok b, s').
Proof. unfold mbind, eff_bind. destruct (m s) as [[a|e] s1]; [eauto|done]. Qed.
Lemma lift_inv (r : res A) (s s' : S) a : lift r s = (Ok a, s') -> r = Ok a /\ s' = s.
Proof. unfold lift. by intros [= -> ->]. Qed.
Lemma handle_Ok (m : eff S A) h s a s' : m s = (Ok a, s') -> handle m h s = (Ok a, s').
Proof. intros H. unfold handle. by rewrite H. Qed.
Lemma handle_Err (m : eff S A) h s e s' :
  m s = (Err e, s') -> handle m h s = match h e with Some k => k s' | None => (Err e, s') end.
Proof. intros H. unfold handle. by rewrite H. Qed.
Lemma handle_Ok_inv (m : eff S A) h s a s' :
  handle m h s = (Ok a, s') ->
  m s = (Ok a, s') \/ exists e s1 k, m s = (Err e, s1) /\ h e = Some k /\ k s1 = (Ok a, s').
Proof.
  unfold handle. destruct (m s) as [[a'|e] s1]; [by left|]. destruct (h e) as [k|] eqn:E; [|done].
  right. by exists e, s1, k.
Qed.

Lemma for_each_app (m : A -> eff S unit) l1 l2 s :
  for_each m (l1 ++ l2) s = (for_each m l1 ≫= fun _ => for_each m l2) s.
Proof.
  revert s. induction l1 as [|x l1 IH]; intros s; [done|]. cbn [for_each app].
  unfold mbind, eff_bind in *. destruct (m x s) as [[[]|e] s']; [apply IH|done].
Qed.
End eff.

(** ** What a computation preserves

    [preserves R m]: whatever the result, the state before and after are related by
    [R], for a preorder [R]. *)

Definition preserves {S A} (R : S -> S -> Prop) (m : eff S A) : Prop := forall s, R s (m s).2.

Section preserves.
Context {S : Type} (R : S -> S -> Prop) `{!PreOrder R}.

Lemma preserves_ret {A} (a : A) : preserves R (mret a : eff S A).
Proof using Type*. intros s. reflexivity. Qed.
Lemma preserves_lift {A} (r : res A) : preserves R (lift r).
Proof using Type*. intros s. reflexivity. Qed.
Lemma preserves_gets {A} (f : S -> A) : preserves R (gets f).
Proof using Type*. intros s. reflexivity. Qed.
Lemma preserves_modify f : (forall s, R s (f s)) -> preserves R (modify f).
Proof. intros H s. apply H. Qed.
Lemma preserves_bind {A B} (m : eff S A) (f : A -> eff S B) :
  preserves R m -> (forall a, preserves R (f a)) -> preserves R (m ≫= f).
Proof using Type*.
  intros Hm Hf s. unfold mbind, eff_bind. specialize (Hm s). destruct (m s) as [[a|e] s']; [|done].
  etrans; [exact Hm|apply Hf].
Qed.
Lemma preserves_handle {A} (m : eff S A) h :
  preserves R m -> (forall e k, h e = Some k -> preserves R k) -> preserves R (handle m h).
Proof using Type*.
  intros Hm Hh s. unfold handle. specialize (Hm s). destruct (m s) as [[a|e] s']; [done|].
  destruct (h e) as [k|] eqn:E; [|done]. etrans; [exact Hm|]. by apply (Hh e k E).
Qed.
Lemma preserves_for_each {A} (m : A -> eff S unit) l :
  (forall x, preserves R (m x)) -> preserves R (for_each m l).
Proof using Type*.
  intros Hm. induction l as [|x l IH]; [apply preserves_ret|]. by apply preserves_bind.
Qed.
End preserves.

Create HintDb effects.
#[export] Hint Resolve preserves_ret preserves_lift preserves_gets preserves_bind preserves_for_each : effects.

(** ** Triples over computations with exceptions

    [spec P m Q E]: started where [P] holds, [m] returns with [Q] or raises with [E].
    Every computation of [Effects] ends, so a triple is a total statement; [E] as [False]
    says that nothing is raised. *)

Definition spec {S A} (P : S -> Prop) (m : eff S A) (Q : A -> S -> Prop) (E : exn -> S -> Prop) : Prop :=
  forall s, P s -> match m s with (Ok a, s') => Q a s' | (Err e, s') => E e s' end.

Section rules.
Context {S : Type}.
Implicit Types (P : S -> Prop) (E : exn -> S -> Prop).

Lemma spec_conseq {A} P' Q' E' P (m : eff S A) Q E :
  spec P' m Q' E' -> (forall s, P s -> P' s) -> (forall a s, Q' a s -> Q a s) ->
  (forall e s, E' e s -> E e s) -> spec P m Q E.
Proof.
  intros Hm HP HQ HE s Hs. specialize (Hm s (HP s Hs)). destruct (m s) as [[a|e] s']; auto.
Qed.
Lemma spec_pre {A} P' P (m : eff S A) Q E : spec P' m Q E -> (forall s, P s -> P' s) -> spec P m Q E.
Proof. intros. by eapply spec_conseq. Qed.
Lemma spec_safe {A} P (m : eff S A) Q E : spec P m Q (fun _ _ => False) -> spec P m Q E.
Proof. intros. by eapply spec_conseq. Qed.
(** The run itself, for a postcondition that speaks of it. *)
Lemma spec_run {A} P (m : eff S A) Q E :
  spec P m Q E -> spec P m (fun a s' => Q a s' /\ exists s, P s /\ m s = (Ok a, s')) E.
Proof. intros Hm s Hs. specialize (Hm s Hs). destruct (m s) as [[a|e] s'] eqn:Er; [|done]. split; [done|by exists s]. Qed.
Lemma spec_ret {A} (a : A) P Q E : (forall s, P s -> Q a s) -> spec P (mret a) Q E.
Proof. intros H s Hs. by apply H. Qed.
Lemma spec_throw {A} e P (Q : A -> S -> Prop) E : (forall s, P s -> E e s) -> spec P (throw e) Q E.
Proof. intros H s Hs. by apply H. Qed.
Lemma spec_gets {A} (f : S -> A) P E :
  spec P (gets f) (fun a s => P s /\ a = f s) E.
Proof. by intros s Hs. Qed.
Lemma spec_modify f P Q E : (forall s, P s -> Q tt (f s)) -> spec P (modify f) Q E.
Proof. intros H s Hs. by apply H. Qed.
Lemma spec_bind {A B} P (m : eff S A) (f : A -> eff S B) R Q E :
  spec P m R E -> (forall a, spec (R a) (f a) Q E) -> spec P (m ≫= f) Q E.
Proof.
  intros Hm Hf s Hs. specialize (Hm s Hs). unfold mbind, eff_bind.
  destruct (m s) as [[a|e] s']; [|done]. by apply Hf.
Qed.
Lemma spec_handle {A} P (m : eff S A) h Q E' E :
  spec P m Q E' -> (forall e k, h e = Some k -> spec (E' e) k Q E) ->
  (forall e s, h e = None -> E' e s -> E e s) -> spec P (handle m h) Q E.
Proof.
  intros Hm Hh Hn s Hs. specialize (Hm s Hs). unfold handle.
  destruct (m s) as [[a|e] s']; [done|]. destruct (h e) as [k|] eqn:He; [|auto].
  by apply (Hh e k He s').
Qed.
(** The invariant of a loop speaks of the elements done so far. *)
Lemma spec_for_each {A} (I : list A -> S -> Prop) (m : A -> eff S unit) l done_ E :
  (forall l1 x l2, l = l1 ++ x :: l2 -> spec (I (done_ ++ l1)) (m x) (fun _ => I (done_ ++ l1 ++ [x])) E) ->
  spec (I done_) (for_each m l) (fun _ => I (done_ ++ l)) E.
Proof.
  revert done_. induction l as [|x l IH]; intros done_ Hm; cbn [for_each].
  - apply spec_ret. intros s. by rewrite app_nil_r.
  - eapply spec_bind.
    + pose proof (Hm [] x l eq_refl) as H1. rewrite app_nil_r in H1. exact H1.
    + intros []. cbn [app]. eapply spec_conseq; [apply (IH (done_ ++ [x]))|..]; try done.
      * intros l1' y l2' E1. pose proof (Hm (x :: l1') y l2' (f_equal (cons x) E1)) as H2.
        by rewrite <- !app_assoc.
      * intros [] s. by rewrite <- app_assoc.
Qed.
Lemma spec_for_enumerate {A} (I : list A -> S -> Prop) (m : Z -> A -> eff S unit) l E : forall i done_,
  (forall k l1 x l2, l = l1 ++ x :: l2 -> spec (I (done_ ++ l1)) (m k x) (fun _ => I (done_ ++ l1 ++ [x])) E) ->
  spec (I done_) (for_enumerate m i l) (fun _ => I (done_ ++ l)) E.
Proof.
  induction l as [|x l IH]; intros i done_ Hm; cbn [for_enumerate].
  - apply spec_ret. intros s. by rewrite app_nil_r.
  - eapply spec_bind.
    + pose proof (Hm i [] x l eq_refl) as H1. rewrite app_nil_r in H1. exact H1.
    + intros []. cbn [app]. eapply spec_conseq; [apply (IH (i + 1)%Z (done_ ++ [x]))|..]; try done.
      * intros k l1' y l2' E1. pose proof (Hm k (x :: l1') y l2' (f_equal (cons x) E1)) as H2.
        by rewrite <- !app_assoc.
      * intros [] s. by rewrite <- app_assoc.
Qed.
(** A case distinction on what is known of the start. *)
Lemma spec_or {A} P1 P2 (m : eff S A) Q E :
  spec P1 m Q E -> spec P2 m Q E -> spec (fun s => P1 s \/ P2 s) m Q E.
Proof. intros H1 H2 s [Hs|Hs]; [by apply H1|by apply H2]. Qed.
Lemma spec_exists {A B} (P : B -> S -> Prop) (m : eff S A) Q E :
  (forall b, spec (P b) m Q E) -> spec (fun s => exists b, P b s) m Q E.
Proof. intros Hm s [b Hs]. by apply (Hm b). Qed.
Lemma spec_pure {A} (H : Prop) P (m : eff S A) Q E :
  (H -> spec P m Q E) -> spec (fun s => H /\ P s) m Q E.
Proof. intros Hm s [HH Hs]. by apply Hm. Qed.
Lemma spec_if {A} (b : bool) P (m1 m2 : eff S A) Q E :
  (b = true -> spec P m1 Q E) -> (b = false -> spec P m2 Q E) -> spec P (if b then m1 else m2) Q E.
Proof. destruct b; auto. Qed.
End rules.
Lemma spec_and {S A} (P P' : S -> Prop) (m : eff S A) Q Q' E E' :
  spec P m Q E -> spec P' m Q' E' ->
  spec (fun s => P s /\ P' s) m (fun a s => Q a s /\ Q' a s) (fun e s => E e s /\ E' e s).
Proof. intros H H' s [Hs Hs']. specialize (H s Hs). specialize (H' s Hs'). by destruct (m s) as [[a|e] s']. Qed.
