(* ===== verification/Ddl.v ===== *)
(** * SQLite schemas and the statements that change them

    What the migrations of the catalog use of SQLite: tables with named columns,
    defaults, constraints and rows, the statements that create, rename, extend, drop
    and copy them, and a connection that is either in a transaction or commits every
    statement at once.  Names are compared exactly; SQLite, which ignores case, has
    no two names here that differ in case only.  AUTOINCREMENT counters are left
    out. *)

From S2P Require Import Prelude PyString Json Effects.
Open Scope string_scope.
Open Scope list_scope.
Open Scope Z_scope.

(** ** Tables *)

Inductive val := Null | IntV (z : Z) | TextV (s : string).
Inductive default_value := NoDefault | Const (v : val) | Now.
Record column := mkColumn { col_name : string; not_null : bool; col_default : default_value }.
Record reference := mkReference {
  from_column : string; parent : string; to_column : string; on_delete_cascade : bool }.
Record table := mkTable {
  columns : list column;
  unique : list (list string);                  (* PRIMARY KEY and UNIQUE *)
  check_in : list (string * list string);       (* CHECK (column IN (...)) *)
  references : list reference;                  (* FOREIGN KEY *)
  rows : list (list val);
}.
Record index := mkIndex { index_name : string; on_table : string; on_columns : list string }.
Record database := mkDatabase { tables : list (string * table); indices : list index }.

#[export] Instance val_eq_dec : EqDecision val. Proof. solve_decision. Defined.
#[export] Instance default_eq_dec : EqDecision default_value. Proof. solve_decision. Defined.
#[export] Instance column_eq_dec : EqDecision column. Proof. solve_decision. Defined.
#[export] Instance reference_eq_dec : EqDecision reference. Proof. solve_decision. Defined.
#[export] Instance table_eq_dec : EqDecision table. Proof. solve_decision. Defined.
#[export] Instance index_eq_dec : EqDecision index. Proof. solve_decision. Defined.
#[export] Instance database_eq_dec : EqDecision database. Proof. solve_decision. Defined.

Definition find_table (n : string) (d : database) : option table := dict_get n (tables d).
Definition put_table (n : string) (t : table) (d : database) : database :=
  mkDatabase (dict_put n t (tables d)) (indices d).
Definition has_table (n : string) (d : database) : bool := bool_decide (is_Some (find_table n d)).
(** [no such table], [no such column] and the other errors of preparing a statement. *)
Definition get_table (n : string) (d : database) : res table :=
  of_option SqliteOperationalError (find_table n d).

Definition column_names (t : table) : list string := col_name <$> columns t.
Definition set_rows (t : table) (r : list (list val)) : table :=
  mkTable (columns t) (unique t) (check_in t) (references t) r.
Definition value (t : table) (row : list val) (c : string) : option val :=
  match list_find (fun x => col_name x = c) (columns t) with
  | Some (i, _) => row !! i
  | None => None
  end.

(** ** Statements *)

(** [CREATE TABLE] and [CREATE TABLE IF NOT EXISTS] *)
Definition create_table (if_not_exists : bool) (n : string) (t : table) (d : database) : res database :=
  if has_table n d then (if if_not_exists then Ok d else Err SqliteOperationalError)
  else Ok (mkDatabase (tables d ++ [(n, t)]) (indices d)).

(** [CREATE INDEX IF NOT EXISTS] *)
Definition create_index (i : index) (d : database) : res database :=
  if existsb (fun j => String.eqb (index_name j) (index_name i)) (indices d) then Ok d
  else
    t ← get_table (on_table i) d;
    _ ← raise_if (negb (forallb (fun c => bool_decide (c ∈ column_names t)) (on_columns i)))
          SqliteOperationalError;
    Ok (mkDatabase (tables d) (indices d ++ [i])).
(** [DROP INDEX IF EXISTS] *)
Definition drop_index (n : string) (d : database) : res database :=
  Ok (mkDatabase (tables d) (List.filter (fun i => negb (String.eqb (index_name i) n)) (indices d))).

(** [ALTER TABLE o RENAME TO n].  From SQLite 3.26 on the foreign keys that refer to the
    table are changed with it, whether or not they are enforced. *)
Definition retarget (o n : string) (t : table) : table :=
  mkTable (columns t) (unique t) (check_in t)
    ((fun r => mkReference (from_column r) (if String.eqb (parent r) o then n else parent r)
                 (to_column r) (on_delete_cascade r)) <$> references t) (rows t).
Definition rename_table (o n : string) (d : database) : res database :=
  _ ← get_table o d;
  _ ← raise_if (has_table n d) SqliteOperationalError;
  Ok (mkDatabase
        ((fun x => (if String.eqb x.1 o then n else x.1, retarget o n x.2)) <$> tables d)
        ((fun i => mkIndex (index_name i) (if String.eqb (on_table i) o then n else on_table i)
                     (on_columns i)) <$> indices d)).

(** [DROP TABLE], with foreign keys not enforced: its indices go with it. *)
Definition drop_table (n : string) (d : database) : res database :=
  _ ← get_table n d;
  Ok (mkDatabase (List.filter (fun x => negb (String.eqb x.1 n)) (tables d))
        (List.filter (fun i => negb (String.eqb (on_table i) n)) (indices d))).

(** [ALTER TABLE n ADD COLUMN c]: the rows that are there get the default, which must
    then be a constant, and not NULL for a NOT NULL column. *)
Definition added_value (c : column) : option val :=
  match not_null c, col_default c with
  | _, Const v => Some v
  | false, NoDefault => Some Null
  | _, _ => None
  end.
Definition add_column (n : string) (c : column) (d : database) : res database :=
  t ← get_table n d;
  _ ← raise_if (bool_decide (col_name c ∈ column_names t)) SqliteOperationalError;
  r ← match added_value c with
      | Some v => Ok ((fun row => row ++ [v]) <$> rows t)
      | None => if bool_decide (rows t = []) then Ok [] else Err SqliteOperationalError
      end;
  Ok (put_table n (mkTable (columns t ++ [c]) (unique t) (check_in t) (references t) r) d).

(** The constraints on a new row. *)
Definition nulls_ok (t : table) (row : list val) : bool :=
  forallb (fun x => negb (not_null x.1 && bool_decide (x.2 = Null))) (zip (columns t) row).
Definition checks_ok (t : table) (row : list val) : bool :=
  forallb (fun x => match value t row x.1 with
                    | Some (TextV s) => bool_decide (s ∈ x.2)
                    | Some (IntV _) => false
                    | _ => true
                    end) (check_in t).
Definition clash (t : table) (row row' : list val) (key : list string) : bool :=
  forallb (fun c => bool_decide (value t row c = value t row' c) &&
                    bool_decide (value t row c <> Some Null)) key.
Definition unique_ok (t : table) (row : list val) : bool :=
  forallb (fun row' => negb (existsb (clash t row row') (unique t))) (rows t).
Definition reference_ok (d : database) (t : table) (row : list val) (r : reference) : bool :=
  match find_table (parent r) d, value t row (from_column r) with
  | Some p, Some v =>
      bool_decide (v = Null) || existsb (fun row' => bool_decide (value p row' (to_column r) = Some v)) (rows p)
  | _, _ => true
  end.

(** [INSERT INTO n VALUES (row)]: when foreign keys are enforced, a reference to a table
    that is not there makes the statement fail whatever the row. *)
Definition insert_row (enforced : bool) (n : string) (row : list val) (d : database) : res database :=
  t ← get_table n d;
  _ ← raise_if (negb (bool_decide (length row = length (columns t)))) SqliteOperationalError;
  _ ← raise_if (enforced && negb (forallb (fun r => has_table (parent r) d) (references t)))
        SqliteOperationalError;
  _ ← raise_if (negb (nulls_ok t row && checks_ok t row && unique_ok t row)) SqliteIntegrityError;
  _ ← raise_if (enforced && negb (forallb (reference_ok d t row) (references t))) SqliteIntegrityError;
  Ok (put_table n (set_rows t (rows t ++ [row])) d).

(** [INSERT INTO n (names) VALUES (values)]: other columns get their defaults. *)
Definition default_of (now : string) (c : column) : val :=
  match col_default c with NoDefault => Null | Const v => v | Now => TextV now end.
Definition complete_row (now : string) (t : table) (named : list (string * val)) : list val :=
  (fun c => match dict_get (col_name c) named with Some v => v | None => default_of now c end) <$> columns t.
Definition insert_named (enforced : bool) (now n : string) (named : list (string * val)) (d : database) :
    res database :=
  t ← get_table n d;
  _ ← raise_if (negb (forallb (fun x => bool_decide (x.1 ∈ column_names t)) named)) SqliteOperationalError;
  insert_row enforced n (complete_row now t named) d.

(** [INSERT INTO n SELECT * FROM src] *)
Definition insert_select_all (enforced : bool) (n src : string) (d : database) : res database :=
  t ← get_table n d; s ← get_table src d;
  _ ← raise_if (negb (bool_decide (length (columns s) = length (columns t)))) SqliteOperationalError;
  foldM (fun d row => insert_row enforced n row d) d (rows s).
(** [INSERT INTO n (names) SELECT names FROM src] *)
Definition select_columns (names : list string) (s : table) (row : list val) : list (string * val) :=
  (fun c => (c, match value s row c with Some v => v | None => Null end)) <$> names.
Definition insert_select (enforced : bool) (now n : string) (names : list string) (src : string) (d : database) :
    res database :=
  s ← get_table src d;
  _ ← raise_if (negb (forallb (fun c => bool_decide (c ∈ column_names s)) names)) SqliteOperationalError;
  foldM (fun d row => insert_named enforced now n (select_columns names s row) d) d (rows s).

(** ** Connections

    [on_disk] holds the databases that were ever committed, the newest first: a crash
    leaves the one that was the newest at its time.  [isolation] is Python's
    [isolation_level], [None] when false.  [fk_off] is a local variable of [migrate]. *)

Record session := mkSession {
  on_disk : list database;
  image : database;               (* what this connection sees *)
  open_tx : bool;
  enforcing : bool;               (* PRAGMA foreign_keys *)
  isolation : bool;
  read_only : bool;
  query_only : bool;
  fk_off : bool;
}.

Definition with_image (s : session) (d : database) : session :=
  mkSession (on_disk s) d (open_tx s) (enforcing s) (isolation s) (read_only s) (query_only s) (fk_off s).
Definition with_tx (s : session) (b : bool) : session :=
  mkSession (on_disk s) (image s) b (enforcing s) (isolation s) (read_only s) (query_only s) (fk_off s).
Definition with_enforcing (s : session) (b : bool) : session :=
  mkSession (on_disk s) (image s) (open_tx s) b (isolation s) (read_only s) (query_only s) (fk_off s).
Definition with_isolation (s : session) (b : bool) : session :=
  mkSession (on_disk s) (image s) (open_tx s) (enforcing s) b (read_only s) (query_only s) (fk_off s).
Definition with_fk_off (s : session) (b : bool) : session :=
  mkSession (on_disk s) (image s) (open_tx s) (enforcing s) (isolation s) (read_only s) (query_only s) b.
(** What is seen reaches the disk. *)
Definition flush_disk (s : session) : session :=
  mkSession (image s :: on_disk s) (image s) false (enforcing s) (isolation s) (read_only s) (query_only s) (fk_off s).
Definition newest (s : session) : database := match on_disk s with d :: _ => d | [] => image s end.

Definition select {A} (f : database -> res A) : eff session A := fun s => (f (image s), s).

(** A statement that writes: outside a transaction it is committed at once. *)
Definition execute (f : bool -> database -> res database) : eff session unit := fun s =>
  match f (enforcing s) (image s) with
  | Err e => (Err e, s)
  | Ok d =>
      if read_only s || query_only s then (Err SqliteOperationalError, s)
      else if open_tx s then (Ok tt, with_image s d)
      else (Ok tt, flush_disk (with_image s d))
  end.
Definition ddl (f : database -> res database) : eff session unit := execute (fun _ => f).
(** [INSERT]: unless [isolation_level] is [None], Python opens a transaction first. *)
Definition dml (f : bool -> database -> res database) : eff session unit := fun s =>
  execute f (with_tx s (open_tx s || isolation s)).

(** [BEGIN IMMEDIATE], [COMMIT] and [ROLLBACK]; [conn.commit()] and [conn.rollback()] *)
Definition begin_immediate : eff session unit := fun s =>
  if open_tx s then (Err SqliteOperationalError, s) else (Ok tt, with_tx s true).
Definition commit_tx : eff session unit := fun s =>
  if open_tx s then (Ok tt, flush_disk s) else (Err SqliteOperationalError, s).
Definition rollback_tx : eff session unit := fun s =>
  if open_tx s then (Ok tt, with_tx (with_image s (newest s)) false) else (Err SqliteOperationalError, s).
Definition conn_commit : eff session unit := fun s =>
  (Ok tt, if open_tx s then flush_disk s else s).
Definition conn_rollback : eff session unit := fun s =>
  (Ok tt, if open_tx s then with_tx (with_image s (newest s)) false else s).
(** [PRAGMA foreign_keys = b], which does nothing in a transaction. *)
Definition pragma_foreign_keys (b : bool) : eff session unit := fun s =>
  (Ok tt, if open_tx s then s else with_enforcing s b).
(** [conn.isolation_level = ...]: [None] commits what is pending. *)
Definition set_isolation (b : bool) : eff session unit := fun s =>
  (Ok tt, with_isolation (if b then s else if open_tx s then flush_disk s else s) b).
Definition set_fk_off (b : bool) : eff session unit := modify (fun s => with_fk_off s b).

(** [if b: m] *)
Definition when_ (b : bool) (m : eff session unit) : eff session unit := if b then m else mret tt.
(** [finally] *)
Definition finally {A} (m : eff session A) (h : eff session unit) : eff session A := fun s =>
  let (r, s) := m s in
  match h s with
  | (Ok _, s) => (r, s)
  | (Err e, s) => (Err e, s)
  end.
(** [except BaseException: h; raise] *)
Definition on_exception {A} (m : eff session A) (h : eff session unit) : eff session A := fun s =>
  match m s with
  | (Ok a, s) => (Ok a, s)
  | (Err e, s) => match h s with (Ok _, s) => (Err e, s) | (Err e', s) => (Err e', s) end
  end.
