(* ===== verification/DdlProps.v ===== *)
(** * What the statements of Ddl do to each table

    One equation per statement for the table of any name afterwards; the typing of
    rows, which every statement keeps; and the calculus [runs] that reads the effect
    of statements inside a transaction off the database alone. *)

From S2P Require Import Prelude PyString Json Effects Ddl.
Open Scope string_scope.
Open Scope list_scope.
Open Scope Z_scope.

(** ** Dictionaries *)

Section dict_lemmas.
Context {V : Type}.
Implicit Types (l : list (string * V)) (n x : string).

Lemma dict_get_app x l l' :
  dict_get x (l ++ l') = match dict_get x l with Some v => Some v | None => dict_get x l' end.
Proof. induction l as [|[k v] l IH]; cbn; [done|]. by case_decide. Qed.
Lemma dict_get_filter_ne n x l :
  dict_get x (List.filter (fun y => negb (String.eqb y.1 n)) l) =
  if decide (x = n) then None else dict_get x l.
Proof.
  induction l as [|[k v] l IH]; cbn [List.filter dict_get]; [by case_decide|]. cbn [fst].
  destruct (String.eqb_spec k n) as [->|Hk]; cbn [negb dict_get]; rewrite IH; [|].
  - case_decide as H1; [done|]. by rewrite (decide_False _ _ (not_eq_sym H1)).
  - destruct (decide (k = x)) as [->|]; [by rewrite decide_False|]. done.
Qed.
Lemma dict_get_None x l : dict_get x l = None <-> x ∉ l.*1.
Proof.
  induction l as [|[k v] l IH]; csimpl; [split; [|done]; by intros _ ?%not_elem_of_nil|].
  rewrite not_elem_of_cons. case_decide as H; [subst; split; [done|]; by intros []|].
  rewrite IH. split; [intros ?; split; congruence|tauto].
Qed.
Lemma dict_get_rename (f : V -> V) o n x l :
  dict_get n l = None ->
  dict_get x ((fun y => (if String.eqb y.1 o then n else y.1, f y.2)) <$> l) =
  if decide (x = n) then f <$> dict_get o l
  else if decide (x = o) then None else f <$> dict_get x l.
Proof.
  intros Hn. induction l as [|[k v] l IH]; csimpl.
  { repeat case_decide; done. }
  cbn [dict_get] in Hn. destruct (decide (k = n)) as [|Hkn]; [done|]. specialize (IH Hn).
  destruct (String.eqb_spec k o) as [->|Hko]; cbn [fst snd]; rewrite IH;
    repeat case_decide; subst; done.
Qed.
Lemma fst_dict_put n (v : V) l : (dict_put n v l).*1 = if decide (n ∈ l.*1) then l.*1 else l.*1 ++ [n].
Proof.
  induction l as [|[k w] l IH]; cbn [dict_put].
  { case_decide as H; [|done]. by apply not_elem_of_nil in H. }
  destruct (decide (k = n)) as [->|Hk]; csimpl; [by rewrite decide_True by set_solver|].
  rewrite IH. destruct (decide (n ∈ l.*1)); [by rewrite decide_True by set_solver|].
  by rewrite decide_False by set_solver.
Qed.
End dict_lemmas.

Lemma has_table_true n d : has_table n d = true <-> is_Some (find_table n d).
Proof. apply bool_decide_eq_true. Qed.
Lemma has_table_false n d : has_table n d = false <-> find_table n d = None.
Proof. unfold has_table. rewrite bool_decide_eq_false. by rewrite eq_None_not_Some. Qed.
Lemma get_table_Ok n d t : get_table n d = Ok t <-> find_table n d = Some t.
Proof. unfold get_table. destruct (find_table n d); naive_solver. Qed.

(** Takes a statement that succeeded apart. *)
Ltac stmt_inv H :=
  repeat match type of H with
  | Ok _ = Ok _ => injection H as H; try subst
  | Err _ = Ok _ => discriminate H
  | (_ ≫= _) = Ok _ =>
      let a := fresh "a" in let Ha := fresh "Ha" in apply bind_Ok_inv in H as (a & Ha & H); cbv beta in H
  | context [if ?b then _ else _] => let E := fresh "E" in destruct b eqn:E; try discriminate H
  end;
  repeat match goal with
  | X : raise_if _ _ = Ok _ |- _ => apply raise_if_Ok in X
  | X : get_table _ _ = Ok _ |- _ => apply get_table_Ok in X
  | X : has_table _ _ = true |- _ => apply has_table_true in X
  | X : has_table _ _ = false |- _ => apply has_table_false in X
  end.

(** ** The table of a name after a statement *)

Section tables.
Implicit Types (d : database) (n x : string).

Lemma find_put x n t d : find_table x (put_table n t d) = if decide (n = x) then Some t else find_table x d.
Proof. apply dict_get_put. Qed.

Lemma find_create b n t d d' x : create_table b n t d = Ok d' ->
  find_table x d' = match find_table x d with Some t' => Some t' | None => if decide (n = x) then Some t else None end.
Proof.
  unfold create_table. intros H. stmt_inv H.
  - destruct (find_table x d') eqn:Ex; [done|]. case_decide; [|done]. subst. by destruct E; congruence.
  - unfold find_table. cbn [tables]. rewrite dict_get_app. cbn. by destruct (dict_get x (tables d)).
Qed.
Lemma find_create_index i d d' x : create_index i d = Ok d' -> find_table x d' = find_table x d.
Proof. unfold create_index. intros H. by stmt_inv H. Qed.
Lemma find_drop_index n d d' x : drop_index n d = Ok d' -> find_table x d' = find_table x d.
Proof. unfold drop_index. intros H. by stmt_inv H. Qed.
Lemma find_rename o n d d' x : rename_table o n d = Ok d' ->
  find_table x d' = if decide (x = n) then retarget o n <$> find_table o d
                    else if decide (x = o) then None else retarget o n <$> find_table x d.
Proof.
  unfold rename_table. intros H. stmt_inv H. unfold find_table. cbn [tables].
  by apply (dict_get_rename (retarget o n)).
Qed.
Lemma find_drop n d d' x : drop_table n d = Ok d' ->
  find_table x d' = if decide (x = n) then None else find_table x d.
Proof. unfold drop_table. intros H. stmt_inv H. apply dict_get_filter_ne. Qed.
Lemma find_add_column n c d d' x : add_column n c d = Ok d' ->
  exists t r, find_table n d = Some t /\ col_name c ∉ column_names t /\
    find_table x d' = (if decide (n = x) then Some (mkTable (columns t ++ [c]) (unique t) (check_in t) (references t) r)
                       else find_table x d) /\
    match added_value c with Some v => r = (fun row => row ++ [v]) <$> rows t | None => rows t = [] /\ r = [] end.
Proof.
  unfold add_column. intros H. stmt_inv H. exists a, a1. split_and!; [done| |apply find_put|].
  - by apply bool_decide_eq_false in Ha0.
  - destruct (added_value c); [congruence|]. case_bool_decide; [|done]. by injection Ha1 as <-.
Qed.
Lemma add_column_error n c d e : add_column n c d = Err e -> e = SqliteOperationalError.
Proof.
  unfold add_column, get_table. destruct (find_table n d) as [t|]; cbn [of_option]; [|intros H; by inversion H].
  rewrite bind_Ok. destruct (bool_decide (col_name c ∈ column_names t)); cbn [raise_if]; [intros H; by inversion H|]. rewrite bind_Ok.
  destruct (added_value c); [by rewrite bind_Ok|]. case_bool_decide; [by rewrite bind_Ok|]. intros He; by inversion He.
Qed.
Lemma find_insert_row on n row d d' x : insert_row on n row d = Ok d' ->
  exists t, find_table n d = Some t /\ length row = length (columns t) /\
    find_table x d' = if decide (n = x) then Some (set_rows t (rows t ++ [row])) else find_table x d.
Proof.
  unfold insert_row. intros H. stmt_inv H. exists a. split_and!; [done| |apply find_put].
  by apply negb_false_iff, bool_decide_eq_true in Ha0.
Qed.
Lemma find_insert_named on now n named d d' x : insert_named on now n named d = Ok d' ->
  exists t, find_table n d = Some t /\
    find_table x d' = if decide (n = x) then Some (set_rows t (rows t ++ [complete_row now t named])) else find_table x d.
Proof.
  unfold insert_named. intros H. stmt_inv H. apply (find_insert_row _ _ _ _ _ x) in H as (t & Ht & _ & Hx).
  rewrite Ha in Ht. injection Ht as <-. by exists a.
Qed.

(** Copying rows appends them. *)
Lemma foldM_insert_rows {A} (ins : A -> database -> res database) (row_of : table -> A -> list val) n l d d' x :
  (forall a d d' x, ins a d = Ok d' -> exists t, find_table n d = Some t /\
     find_table x d' = if decide (n = x) then Some (set_rows t (rows t ++ [row_of t a])) else find_table x d) ->
  (forall t r a, row_of (set_rows t r) a = row_of t a) ->
  forall t, find_table n d = Some t -> foldM (fun d a => ins a d) d l = Ok d' ->
  find_table x d' = if decide (n = x) then Some (set_rows t (rows t ++ (row_of t <$> l))) else find_table x d.
Proof.
  intros Hins Hrow. revert d. induction l as [|a l IH]; intros d t Ht; cbn [foldM].
  - intros [= <-]. case_decide; [|done]. subst. rewrite Ht. destruct t. cbn. by rewrite app_nil_r.
  - intros H. apply bind_Ok_inv in H as (d1 & H1 & H).
    pose proof (Hins _ _ _ n H1) as (t1 & Ht1 & Hn). rewrite Ht in Ht1. injection Ht1 as <-.
    rewrite decide_True in Hn by done. rewrite (IH _ _ Hn H).
    pose proof (Hins _ _ _ x H1) as (t1 & Ht1 & Hx). case_decide; [|done]. do 2 f_equal. cbn [set_rows rows].
    rewrite <- app_assoc. f_equal. cbn. f_equal. apply list_fmap_ext. intros. apply Hrow.
Qed.
Lemma complete_row_set_rows now t r named : complete_row now (set_rows t r) named = complete_row now t named.
Proof. done. Qed.
Lemma find_insert_all on n src d d' x : insert_select_all on n src d = Ok d' ->
  exists t s, find_table n d = Some t /\ find_table src d = Some s /\ length (columns s) = length (columns t) /\
    find_table x d' = if decide (n = x) then Some (set_rows t (rows t ++ rows s)) else find_table x d.
Proof.
  unfold insert_select_all. intros H. stmt_inv H. exists a, a0. split_and!; [done..| |].
  { by apply negb_false_iff, bool_decide_eq_true in Ha1. }
  rewrite (foldM_insert_rows (fun row => insert_row on n row) (fun _ row => row) n (rows a0) d d' x) with (t := a);
    [by rewrite list_fmap_id| |done..].
  intros row d0 d1 y H1. apply (find_insert_row _ _ _ _ _ y) in H1 as (t & ? & _ & ?). eauto.
Qed.
Lemma find_insert_select on now n names src d d' x : insert_select on now n names src d = Ok d' ->
  forall t, find_table n d = Some t ->
  exists s, find_table src d = Some s /\ Forall (fun c => c ∈ column_names s) names /\
    find_table x d' = if decide (n = x) then Some (set_rows t (rows t ++
        ((fun row => complete_row now t (select_columns names s row)) <$> rows s))) else find_table x d.
Proof.
  unfold insert_select. intros H t Ht. stmt_inv H. exists a. split_and!; [done| |].
  { apply negb_false_iff, Is_true_eq_left, forallb_True in Ha0. eapply Forall_impl; [exact Ha0|].
    intros c Hc%bool_decide_unpack. done. }
  rewrite (foldM_insert_rows (fun row => insert_named on now n (select_columns names a row))
    (fun t row => complete_row now t (select_columns names a row)) n (rows a) d d' x) with (t := t); [done| |done..].
  intros row d0 d1 y H1. by apply (find_insert_named _ _ _ _ _ _ y) in H1.
Qed.
End tables.

(** ** Typed databases

    Table names are different, and every row has one value per column. *)

Definition typed_table (t : table) : Prop := Forall (fun row => length row = length (columns t)) (rows t).
Record typed (d : database) : Prop := {
  typed_names : NoDup (tables d).*1;
  typed_rows : forall n t, find_table n d = Some t -> typed_table t;
}.

Lemma typed_retarget o n t : typed_table t -> typed_table (retarget o n t).
Proof. done. Qed.
Lemma length_complete_row now t named : length (complete_row now t named) = length (columns t).
Proof. apply length_fmap. Qed.

Section typed.
Implicit Types d : database.

Lemma typed_put n t d : typed d -> find_table n d <> None -> typed_table t -> typed (put_table n t d).
Proof.
  intros [Hn Hr] Hd Ht. constructor.
  - cbn. rewrite fst_dict_put. case_decide as E; [done|]. by apply dict_get_None in E.
  - intros x t'. rewrite find_put. case_decide; [by intros [= <-]|apply Hr].
Qed.
Lemma typed_same d d' :
  (tables d').*1 = (tables d).*1 -> (forall x, find_table x d' = find_table x d) -> typed d -> typed d'.
Proof. intros Hn Hf [Hnd Hr]. constructor; [by rewrite Hn|]. intros x t. rewrite Hf. apply Hr. Qed.

Lemma typed_create b n t d d' : typed d -> typed_table t -> create_table b n t d = Ok d' -> typed d'.
Proof.
  intros Hd Ht H. pose proof (fun x => find_create _ _ _ _ _ x H) as Hf. destruct Hd as [Hnd Hr].
  constructor.
  - unfold create_table in H. stmt_inv H; [done|]. cbn [tables]. rewrite fmap_app. cbn.
    apply NoDup_app. split_and!; [done| |by apply NoDup_singleton].
    intros x Hx ->%list_elem_of_singleton. by apply dict_get_None in E.
  - intros x t'. rewrite Hf. destruct (find_table x d) eqn:E; [intros [= <-]; by eapply Hr|].
    case_decide; [by intros [= <-]|done].
Qed.
Lemma typed_create_index i d d' : typed d -> create_index i d = Ok d' -> typed d'.
Proof.
  intros Hd H. eapply typed_same, Hd; [|intros; by eapply find_create_index].
  unfold create_index in H. by stmt_inv H.
Qed.
Lemma typed_drop_index n d d' : typed d -> drop_index n d = Ok d' -> typed d'.
Proof.
  intros Hd H. eapply typed_same, Hd; [|intros; by eapply find_drop_index].
  unfold drop_index in H. by stmt_inv H.
Qed.
Lemma typed_rename o n d d' : typed d -> rename_table o n d = Ok d' -> typed d'.
Proof.
  intros [Hnd Hr] H. pose proof (fun x => find_rename _ _ _ _ x H) as Hf. constructor.
  - unfold rename_table in H. stmt_inv H. cbn [tables]. apply dict_get_None in Ha0.
    rewrite <- list_fmap_compose. revert Hnd Ha0. generalize (tables d). clear. intros l.
    induction l as [|[k t] l IH]; csimpl; [constructor|]. intros [Hk Hl]%NoDup_cons [Hnk Hn]%not_elem_of_cons.
    constructor; [|by apply IH]. intros ([k' t'] & Heq & Hin)%list_elem_of_fmap. cbn in Heq.
    apply (list_elem_of_fmap_2 fst) in Hin. cbn in Hin.
    destruct (String.eqb_spec k o), (String.eqb_spec k' o); congruence.
  - intros x t. rewrite Hf. repeat case_decide; [|done|]; intros (t' & Ht & ->)%fmap_Some; apply typed_retarget;
      by eapply Hr.
Qed.
Lemma typed_drop n d d' : typed d -> drop_table n d = Ok d' -> typed d'.
Proof.
  intros [Hnd Hr] H. pose proof (fun x => find_drop _ _ _ x H) as Hf. constructor.
  - unfold drop_table in H. stmt_inv H. cbn [tables]. revert Hnd. generalize (tables d). clear. intros l.
    induction l as [|[k t] l IH]; csimpl; [done|]. intros [Hk Hl]%NoDup_cons.
    destruct (negb _); csimpl; [|auto]. constructor; [|auto].
    intros (x & Hx & Hin)%list_elem_of_fmap. apply Hk. rewrite Hx. apply list_elem_of_fmap_2.
    apply list_elem_of_In in Hin. apply filter_In in Hin as [Hin _]. by apply list_elem_of_In.
  - intros x t. rewrite Hf. case_decide; [done|]. apply Hr.
Qed.
Lemma typed_add_column n c d d' : typed d -> add_column n c d = Ok d' -> typed d'.
Proof.
  intros Hd H. pose proof H as (t & r & Hn & _ & _ & Hr)%(find_add_column _ _ _ _ n).
  unfold add_column in H. stmt_inv H. rewrite Ha in Hn. injection Hn as ->.
  apply typed_put; [done|congruence|]. pose proof (typed_rows _ Hd _ _ Ha) as Ht.
  unfold typed_table. cbn [columns rows]. destruct (added_value c).
  - injection Ha1 as <-. apply Forall_fmap. eapply Forall_impl; [exact Ht|]. intros row Hrow. cbn.
    rewrite !length_app. cbn. by rewrite Hrow.
  - case_bool_decide; [|done]. injection Ha1 as <-. constructor.
Qed.
Lemma typed_insert_row on n row d d' : typed d -> insert_row on n row d = Ok d' -> typed d'.
Proof.
  intros Hd H. pose proof H as (t & Hn & Hl & _)%(find_insert_row _ _ _ _ _ n).
  unfold insert_row in H. stmt_inv H. rewrite Ha in Hn. injection Hn as ->.
  apply typed_put; [done|congruence|]. apply Forall_app. split; [by apply (typed_rows _ Hd n t)|].
  by apply Forall_singleton.
Qed.
Lemma typed_insert_named on now n named d d' : typed d -> insert_named on now n named d = Ok d' -> typed d'.
Proof. intros Hd H. unfold insert_named in H. stmt_inv H. by eapply typed_insert_row. Qed.
Lemma typed_foldM {A} (ins : database -> A -> res database) l d d' :
  (forall a d d', typed d -> ins d a = Ok d' -> typed d') -> typed d -> foldM ins d l = Ok d' -> typed d'.
Proof.
  intros Hins. revert d. induction l as [|a l IH]; intros d Hd; cbn [foldM]; [by intros [= <-]|].
  intros H. apply bind_Ok_inv in H as (d1 & H1 & H). eapply IH; [|done]. by eapply Hins.
Qed.
Lemma typed_insert_all on n src d d' : typed d -> insert_select_all on n src d = Ok d' -> typed d'.
Proof.
  intros Hd H. unfold insert_select_all in H. stmt_inv H. eapply typed_foldM, H; [|done].
  intros row d1 d2 Ht. by apply typed_insert_row.
Qed.
Lemma typed_insert_select on now n names src d d' :
  typed d -> insert_select on now n names src d = Ok d' -> typed d'.
Proof.
  intros Hd H. unfold insert_select in H. stmt_inv H. eapply typed_foldM, H; [|done].
  intros row d1 d2 Ht. by apply typed_insert_named.
Qed.
End typed.

(** ** Statements in a transaction

    [runs m f]: in a transaction, [m] does to the database what [f] computes, and
    nothing else; when [f] fails so does [m], somewhere on the way. *)

Definition writable (s : session) : Prop := read_only s = false /\ query_only s = false.

Definition runs (m : eff session unit) (f : bool -> database -> res database) : Prop :=
  forall s, writable s -> open_tx s = true ->
  match f (enforcing s) (image s) with
  | Ok d => m s = (Ok tt, with_image s d)
  | Err e => exists d, m s = (Err e, with_image s d)
  end.
(** [commits m f g]: [m] also commits, and then changes the session as [g] says. *)
Definition commits (m : eff session unit) (f : bool -> database -> res database) (g : session -> session) : Prop :=
  forall s, writable s -> open_tx s = true ->
  match f (enforcing s) (image s) with
  | Ok d => m s = (Ok tt, g (flush_disk (with_image s d)))
  | Err e => exists d, m s = (Err e, with_image s d)
  end.

Lemma with_image_id s : with_image s (image s) = s.
Proof. by destruct s. Qed.
Lemma with_tx_id s b : open_tx s = b -> with_tx s b = s.
Proof. destruct s; cbn. by intros ->. Qed.

Lemma runs_ret : runs (mret tt) (fun _ d => Ok d).
Proof. intros s _ _. by rewrite with_image_id. Qed.
Lemma runs_execute f : runs (execute f) f.
Proof.
  intros s [Hr Hq] Ho. unfold execute. destruct (f _ _) as [d|e].
  - by rewrite Hr, Hq, Ho.
  - exists (image s). by rewrite with_image_id.
Qed.
Lemma runs_ddl f : runs (ddl f) (fun _ => f).
Proof. apply runs_execute. Qed.
Lemma runs_dml f : runs (dml f) f.
Proof.
  intros s Hw Ho. unfold dml. rewrite Ho. cbn [orb]. rewrite with_tx_id by done. by apply runs_execute.
Qed.
Lemma runs_seq m1 m2 f1 f2 : runs m1 f1 -> runs m2 f2 ->
  runs (_ ← m1; m2) (fun on d => d ← f1 on d; f2 on d).
Proof.
  intros H1 H2 s Hw Ho. specialize (H1 s Hw Ho). cbv beta. destruct (f1 _ _) as [d|e].
  - rewrite bind_Ok, (eff_bind_Ok _ _ s tt _ H1). exact (H2 (with_image s d) Hw Ho).
  - destruct H1 as [d H1]. exists d. by rewrite (eff_bind_Err _ _ s _ _ H1).
Qed.
Lemma runs_when b m f : runs m f -> runs (when_ b m) (fun on d => if b then f on d else Ok d).
Proof. intros H. destruct b; [done|apply runs_ret]. Qed.
Lemma runs_select {A} (g : database -> A) k f : (forall a, runs (k a) (f a)) ->
  runs (select (fun d => Ok (g d)) ≫= k) (fun on d => f (g d) on d).
Proof. intros H s Hw Ho. exact (H (g (image s)) s Hw Ho). Qed.
Lemma runs_if (b : bool) m1 m2 f1 f2 : runs m1 f1 -> runs m2 f2 ->
  runs (if b then m1 else m2) (fun on d => if b then f1 on d else f2 on d).
Proof. by destruct b. Qed.

Lemma commits_tx : commits commit_tx (fun _ d => Ok d) id.
Proof. intros s _ Ho. unfold commit_tx. rewrite Ho. by rewrite with_image_id. Qed.
Lemma commits_seq m1 m2 f1 f2 g : runs m1 f1 -> commits m2 f2 g ->
  commits (_ ← m1; m2) (fun on d => d ← f1 on d; f2 on d) g.
Proof.
  intros H1 H2 s Hw Ho. specialize (H1 s Hw Ho). cbv beta. destruct (f1 _ _) as [d|e].
  - rewrite bind_Ok, (eff_bind_Ok _ _ s tt _ H1). exact (H2 (with_image s d) Hw Ho).
  - destruct H1 as [d H1]. exists d. by rewrite (eff_bind_Err _ _ s _ _ H1).
Qed.
Lemma commits_select {A} (g : database -> A) k f h : (forall a, commits (k a) (f a) h) ->
  commits (select (fun d => Ok (g d)) ≫= k) (fun on d => f (g d) on d) h.
Proof. intros H s Hw Ho. exact (H (g (image s)) s Hw Ho). Qed.

Create HintDb runs.
#[export] Hint Resolve runs_ret runs_execute runs_ddl runs_dml runs_when commits_tx : runs.

(** ** Frames

    The columns and rows of a table; [touches l f]: of the tables not in [l], [f]
    changes neither. *)

Definition content (n : string) (d : database) : option (list column * list (list val)) :=
  (fun t => (columns t, rows t)) <$> find_table n d.
Definition touches (l : list string) (f : database -> res database) : Prop :=
  forall d d' n, f d = Ok d' -> n ∉ l -> content n d' = content n d.

Section touches.
Implicit Types (l : list string) (n : string).

Lemma touches_ret l : touches l (fun d => Ok d).
Proof. by intros d d' n [= <-]. Qed.
Lemma touches_bind l f g : touches l f -> touches l g -> touches l (fun d => d ← f d; g d).
Proof.
  intros Hf Hg d d' n H Hn. apply bind_Ok_inv in H as (d1 & H1 & H).
  rewrite (Hg _ _ _ H Hn). by apply (Hf _ _ _ H1 Hn).
Qed.
Lemma touches_create l b n t : n ∈ l -> touches l (create_table b n t).
Proof.
  intros Hn d d' x H Hx. unfold content. rewrite (find_create _ _ _ _ _ x H).
  destruct (find_table x d); [done|]. by case_decide; subst.
Qed.
Lemma touches_create_index l i : touches l (create_index i).
Proof. intros d d' x H Hx. unfold content. by rewrite (find_create_index _ _ _ x H). Qed.
Lemma touches_drop_index l n : touches l (drop_index n).
Proof. intros d d' x H Hx. unfold content. by rewrite (find_drop_index _ _ _ x H). Qed.
Lemma touches_rename l o n : o ∈ l -> n ∈ l -> touches l (rename_table o n).
Proof.
  intros Ho Hn d d' x H Hx. unfold content. rewrite (find_rename _ _ _ _ x H).
  repeat case_decide; subst; [done..|]. by destruct (find_table x d).
Qed.
Lemma touches_drop l n : n ∈ l -> touches l (drop_table n).
Proof.
  intros Hn d d' x H Hx. unfold content. rewrite (find_drop _ _ _ x H). by case_decide; subst.
Qed.
Lemma touches_add_column l n c : n ∈ l -> touches l (add_column n c).
Proof.
  intros Hn d d' x H Hx. apply (find_add_column _ _ _ _ x) in H as (t & r & _ & _ & H & _).
  unfold content. rewrite H. by case_decide; subst.
Qed.
Lemma touches_insert_named l on now n named : n ∈ l -> touches l (insert_named on now n named).
Proof.
  intros Hn d d' x H Hx. apply (find_insert_named _ _ _ _ _ _ x) in H as (t & _ & H).
  unfold content. rewrite H. by case_decide; subst.
Qed.
Lemma touches_insert_all l on n src : n ∈ l -> touches l (insert_select_all on n src).
Proof.
  intros Hn d d' x H Hx. apply (find_insert_all _ _ _ _ _ x) in H as (t & s & _ & _ & _ & H).
  unfold content. rewrite H. by case_decide; subst.
Qed.
Lemma touches_foldM {A} l (ins : A -> database -> res database) xs :
  (forall a, touches l (ins a)) -> touches l (fun d => foldM (fun d a => ins a d) d xs).
Proof.
  intros Hins. induction xs as [|a xs IH]; intros d d' n; cbn [foldM]; [by intros [= <-]|].
  intros H Hn. apply bind_Ok_inv in H as (d1 & H1 & H). rewrite (IH _ _ _ H Hn). by apply (Hins _ _ _ _ H1).
Qed.
Lemma touches_insert_select l on now n names src : n ∈ l -> touches l (insert_select on now n names src).
Proof.
  intros Hn d d' x H Hx. unfold insert_select in H. stmt_inv H.
  eapply (touches_foldM l (fun row => insert_named on now n (select_columns names a row))), Hx; [|exact H].
  intros row. by apply touches_insert_named.
Qed.
End touches.

Create HintDb touches.
#[export] Hint Resolve touches_ret touches_create touches_create_index touches_drop_index touches_rename
  touches_drop touches_add_column touches_insert_named touches_insert_all touches_insert_select : touches.
#[export] Hint Extern 1 (_ ∈ _) => (apply (bool_decide_unpack _); vm_compute; exact I) : touches.

(** The value of a column, in rows of the same columns and in rows that grew. *)
Lemma value_columns t t' row c : columns t = columns t' -> value t row c = value t' row c.
Proof. intros H. unfold value. by rewrite H. Qed.
Lemma find_column t c : c ∈ column_names t ->
  exists i x, list_find (fun y => col_name y = c) (columns t) = Some (i, x) /\ columns t !! i = Some x /\ col_name x = c.
Proof.
  intros (x & -> & Hx)%list_elem_of_fmap.
  destruct (list_find_elem_of (fun y => col_name y = col_name x) (columns t) x Hx eq_refl) as [[i y] H].
  pose proof H as (Hi & Hy & _)%list_find_Some. by exists i, y.
Qed.
Lemma value_complete_row now t named c : c ∈ column_names t ->
  exists x, x ∈ columns t /\ col_name x = c /\
    value t (complete_row now t named) c =
    Some (match dict_get c named with Some v => v | None => default_of now x end).
Proof.
  intros (i & x & Hf & Hi & Hx)%find_column. exists x. split_and!; [by apply list_elem_of_lookup_2 in Hi|done|].
  unfold value. rewrite Hf. unfold complete_row. rewrite list_lookup_fmap, Hi. cbn. by rewrite Hx.
Qed.
Lemma value_grown t t' row row' c v : columns t `prefix_of` columns t' -> row `prefix_of` row' ->
  value t row c = Some v -> value t' row' c = Some v.
Proof.
  intros [k Hk] Hrow. unfold value. destruct (list_find _ (columns t)) as [[i x]|] eqn:E; [|done].
  rewrite Hk, (list_find_app_l _ (columns t) k i x E). intros H. by eapply prefix_lookup_Some.
Qed.
