(* ===== verification/Schema.v ===== *)
(** * The catalog's schema and its migrations ([db/schema.py])

    The DDL of the current schema, creation of a catalog, and the migrations of older
    catalogs, each version in a transaction of its own.  A catalog is a [database] of
    Ddl.  [now] is what CURRENT_TIMESTAMP gives. *)

From Stdlib Require Import Ascii.
From S2P Require Import Prelude PyString Json Effects Ddl.
Open Scope string_scope.
Open Scope list_scope.
Open Scope Z_scope.

Definition CURRENT_SCHEMA_VERSION : Z := 10.

Definition TIER1_FROZEN_SURFACE : list (string * list string) :=
  [("schema_version", ["version"]);
   ("packs", ["pack_id"; "sha256"; "size_bytes"; "repo_id"]);
   ("volume_packs", ["volume_id"; "pack_id"]);
   ("volumes", ["volume_id"; "label"; "status"])].
Definition TIER1_REQUIRED_VOLUME_STATUS : string := "DESTROYED".

(** ** DDL *)

(** A column that may be NULL, and one that may not, without and with a default. *)
Definition col (n : string) : column := mkColumn n false NoDefault.
Definition col_default_to (n : string) (v : default_value) : column := mkColumn n false v.
Definition required (n : string) : column := mkColumn n true NoDefault.
Definition required_default (n : string) (v : default_value) : column := mkColumn n true v.
Definition text (s : string) : default_value := Const (TextV s).
Definition empty_table (c : list column) (u : list (list string)) (k : list (string * list string))
    (r : list reference) : table := mkTable c u k r [].

Definition SQL_CREATE_SCHEMA_VERSION : string * table :=
  ("schema_version", empty_table [required "version"; col_default_to "applied_at" Now] [] [] []).
Definition SQL_CREATE_VOLUMES : string * table :=
  ("volumes", empty_table
    [col "volume_id"; required "label"; required "uuid"; required "media_type"; required "capacity_bytes";
     required_default "used_bytes" (Const (IntV 0)); required_default "location" (text "Home_Shelf");
     required_default "status" (text "STAGING"); required_default "created_at" Now; col "closed_at";
     col "verified_at"]
    [["volume_id"]; ["label"]; ["uuid"]]
    [("status", ["STAGING"; "BURNING"; "BURNED"; "VERIFIED"; "CONSOLIDATING"; "DEPRECATED"; "DESTROYED"])]
    []).
Definition SQL_CREATE_REPOSITORIES : string * table :=
  ("repositories", empty_table
    [col "repo_id"; required "name"; required "mirror_path"; required_default "encryption_key_id" (text "");
     required_default "created_at" Now; required_default "status" (text "active")]
    [["repo_id"]] [] []).
Definition SQL_CREATE_PACKS : string * table :=
  ("packs", empty_table
    [col "pack_id"; required "sha256"; required "size_bytes"; required "repo_id";
     required_default "is_pruned" (Const (IntV 0)); required_default "created_at" Now]
    [["pack_id"]; ["sha256"]] [] [mkReference "repo_id" "repositories" "repo_id" false]).
Definition SQL_CREATE_VOLUME_PACKS : string * table :=
  ("volume_packs", empty_table [required "volume_id"; required "pack_id"] [["volume_id"; "pack_id"]] []
    [mkReference "volume_id" "volumes" "volume_id" true; mkReference "pack_id" "packs" "pack_id" false]).
Definition SQL_CREATE_SNAPSHOTS : string * table :=
  ("snapshots", empty_table
    [col "snapshot_id"; required "repo_id"; required_default "hostname" (text ""); col "timestamp";
     required_default "paths" (text "[]"); required_default "tags" (text "[]");
     required_default "description" (text "")]
    [["snapshot_id"]] [] [mkReference "repo_id" "repositories" "repo_id" false]).
Definition SQL_CREATE_LOCATIONS : string * table :=
  ("locations", empty_table
    [col "name"; col_default_to "created_at" Now; col_default_to "description" (text "")] [["name"]] [] []).
Definition SQL_CREATE_VOLUME_COPIES : string * table :=
  ("volume_copies", empty_table
    [col "id"; required "volume_id"; required "location"; required_default "status" (text "ACTIVE");
     required "burn_date"; col_default_to "notes" (text ""); col "iso_sha256"; col "iso_size_bytes";
     col "last_verified_at"; required_default "media_serial" (text "")]
    [["id"]; ["volume_id"; "location"]] [("status", ["ACTIVE"; "DEPRECATED"; "DESTROYED"])]
    [mkReference "volume_id" "volumes" "volume_id" true; mkReference "location" "locations" "name" false]).
Definition SQL_CREATE_BURN_SESSIONS : string * table :=
  ("burn_sessions", empty_table
    [col "session_id"; col_default_to "created_at" Now; required "media_type";
     required_default "status" (text "STAGED"); required "staging_dir"]
    [["session_id"]] [("status", ["STAGED"; "PARTIAL"; "COMPLETE"; "CLEANED"])] []).
Definition SQL_CREATE_SESSION_VOLUMES : string * table :=
  ("session_volumes", empty_table
    [required "session_id"; required "volume_id"; required "iso_path"; col "iso_sha256"; col "iso_size_bytes"]
    [["session_id"; "volume_id"]] []
    [mkReference "session_id" "burn_sessions" "session_id" false;
     mkReference "volume_id" "volumes" "volume_id" false]).
Definition SQL_CREATE_VOLUME_EVENTS : string * table :=
  ("volume_events", empty_table
    [col "event_id"; required "volume_id"; required "event_type"; required_default "event_date" Now;
     col "location"; required_default "detail" (text "")]
    [["event_id"]]
    [("event_type", ["VERIFY_PASS"; "VERIFY_FAIL"; "VERIFY_FAIL_REBURN"; "ECC_REPAIR"; "LOCATION_MOVE";
                     "CONDITION_CHECK"; "NOTE"; "BURN_RECEIPT_IMPORTED"])]
    [mkReference "volume_id" "volumes" "volume_id" true; mkReference "location" "locations" "name" false]).
Definition SQL_CREATE_KEY_ESCROW : string * table :=
  ("key_escrow", empty_table
    [col "repo_id"; required "threshold"; required "shares"; required "slip39_id"; required "split_at"]
    [["repo_id"]] [] []).

Definition SQL_CREATE_INDICES : list index :=
  [mkIndex "idx_packs_repo_id" "packs" ["repo_id"];
   mkIndex "idx_packs_is_pruned" "packs" ["is_pruned"];
   mkIndex "idx_volume_packs_pack_id" "volume_packs" ["pack_id"];
   mkIndex "idx_volumes_status" "volumes" ["status"];
   mkIndex "idx_snapshots_repo_id" "snapshots" ["repo_id"];
   mkIndex "idx_volume_copies_volume_id" "volume_copies" ["volume_id"];
   mkIndex "idx_volume_copies_location" "volume_copies" ["location"];
   mkIndex "idx_session_volumes_session" "session_volumes" ["session_id"];
   mkIndex "idx_volume_events_volume" "volume_events" ["volume_id"];
   mkIndex "idx_volume_events_type" "volume_events" ["event_type"];
   mkIndex "idx_volume_events_date" "volume_events" ["event_date"]].

(** [CREATE TABLE IF NOT EXISTS] of one of them. *)
Definition create (t : string * table) : eff session unit := ddl (create_table true t.1 t.2).
Definition table_info (n : string) : eff session (list string) :=
  select (fun d => Ok (match find_table n d with Some t => column_names t | None => [] end)).
Definition table_names : eff session (list string) := select (fun d => Ok (fst <$> tables d)).
Definition has (x : string) (l : list string) : bool := bool_decide (x ∈ l).

(** ** Interrupted migrations of older builds *)

(** [name LIKE '%\_old' ESCAPE '\']: LIKE ignores the case of ASCII letters. *)
Definition is_leftover (n : string) : bool :=
  (4 <=? String.length n)%nat &&
  String.eqb (str_lower (String.substring (String.length n - 4) 4 n)) "_old".
Definition detect_wedged_migration : eff session (list string) :=
  select (fun d => Ok (merge_sort (fun x y => Is_true (String.leb x y))
                         (List.filter is_leftover (fst <$> tables d)))).
Definition _refuse_wedged : eff session unit :=
  leftovers ← detect_wedged_migration;
  lift (raise_if (negb (bool_decide (leftovers = []))) WedgedMigrationError).

(** ** Versions *)

(** [SELECT MAX(version)]; the column holds integers. *)
Definition max_version (vs : list val) : option Z :=
  foldr (fun v m => match v with
                    | IntV z => Some (match m with Some w => Z.max z w | None => z end)
                    | _ => m
                    end) None vs.
Definition schema_version (d : database) : Z :=
  match find_table "schema_version" d with
  | Some t =>
      match max_version (omap (fun row => value t row "version") (rows t)) with
      | Some v => v
      | None => 0
      end
  | None => 0
  end.
Definition get_schema_version : eff session Z := select (fun d => Ok (schema_version d)).

Section migrations.
Variable now : string.

Definition record_version (v : Z) : eff session unit :=
  dml (fun on => insert_named on now "schema_version" [("version", IntV v)]).

(** v2 to v3 *)
Definition migrate_to_3 : eff session unit :=
  _ ← begin_immediate;
  cols ← table_info "volumes";
  _ ← when_ (negb (has "verified_at" cols)) (ddl (add_column "volumes" (col "verified_at")));
  cols ← table_info "repositories";
  _ ← when_ (negb (has "created_at" cols))
        (ddl (add_column "repositories" (required_default "created_at" Now)));
  _ ← ddl (drop_index "idx_packs_sha256");
  _ ← ddl (drop_index "idx_volume_packs_volume_id");
  _ ← record_version 3;
  commit_tx.

(** v3 to v4 *)
Definition migrate_to_4 : eff session unit :=
  _ ← begin_immediate;
  _ ← create SQL_CREATE_VOLUME_EVENTS;
  _ ← ddl (create_index (mkIndex "idx_volume_events_volume" "volume_events" ["volume_id"]));
  _ ← ddl (create_index (mkIndex "idx_volume_events_type" "volume_events" ["event_type"]));
  cols ← table_info "volume_copies";
  _ ← when_ (negb (has "iso_sha256" cols)) (ddl (add_column "volume_copies" (col "iso_sha256")));
  _ ← when_ (negb (has "last_verified_at" cols)) (ddl (add_column "volume_copies" (col "last_verified_at")));
  _ ← when_ (negb (has "media_serial" cols))
        (ddl (add_column "volume_copies" (required_default "media_serial" (text ""))));
  _ ← record_version 4;
  commit_tx.

(** v4 to v5: the table of volumes is made anew, with a wider CHECK. *)
Definition migrate_to_5 : eff session unit :=
  _ ← pragma_foreign_keys false;
  _ ← set_fk_off true;
  _ ← begin_immediate;
  _ ← ddl (rename_table "volumes" "volumes_old");
  _ ← ddl (create_table false SQL_CREATE_VOLUMES.1 SQL_CREATE_VOLUMES.2);
  _ ← dml (fun on => insert_select_all on "volumes" "volumes_old");
  _ ← ddl (drop_table "volumes_old");
  _ ← ddl (create_index (mkIndex "idx_volumes_status" "volumes" ["status"]));
  _ ← record_version 5;
  _ ← commit_tx;
  _ ← pragma_foreign_keys true;
  set_fk_off false.

(** v5 to v6: the table of events is made anew, with a wider CHECK. *)
Definition event_columns : list string :=
  ["event_id"; "volume_id"; "event_type"; "event_date"; "location"; "detail"].
Definition migrate_to_6 : eff session unit :=
  _ ← pragma_foreign_keys false;
  _ ← set_fk_off true;
  _ ← begin_immediate;
  _ ← ddl (rename_table "volume_events" "volume_events_old");
  _ ← create SQL_CREATE_VOLUME_EVENTS;
  _ ← dml (fun on => insert_select on now "volume_events" event_columns "volume_events_old");
  _ ← ddl (drop_table "volume_events_old");
  _ ← ddl (create_index (mkIndex "idx_volume_events_volume" "volume_events" ["volume_id"]));
  _ ← ddl (create_index (mkIndex "idx_volume_events_type" "volume_events" ["event_type"]));
  _ ← ddl (create_index (mkIndex "idx_volume_events_date" "volume_events" ["event_date"]));
  _ ← record_version 6;
  _ ← commit_tx;
  _ ← pragma_foreign_keys true;
  set_fk_off false.

(** v6 to v7, v7 to v8 and v9 to v10 add a column to a table, which is created when it
    is not there. *)
Definition add_or_create (t : string * table) (c : column) : eff session unit :=
  names ← table_names;
  if (negb (has t.1 names) : bool) then create t
  else
    cols ← table_info t.1;
    when_ (negb (has (col_name c) cols)) (ddl (add_column t.1 c)).
Definition migrate_to_7 : eff session unit :=
  _ ← begin_immediate;
  _ ← add_or_create SQL_CREATE_SESSION_VOLUMES (col "iso_size_bytes");
  _ ← record_version 7;
  commit_tx.
Definition migrate_to_8 : eff session unit :=
  _ ← begin_immediate;
  _ ← add_or_create SQL_CREATE_VOLUME_COPIES (col "iso_size_bytes");
  _ ← record_version 8;
  commit_tx.
Definition migrate_to_9 : eff session unit :=
  _ ← begin_immediate;
  _ ← create SQL_CREATE_KEY_ESCROW;
  _ ← record_version 9;
  commit_tx.
Definition migrate_to_10 : eff session unit :=
  _ ← begin_immediate;
  _ ← add_or_create SQL_CREATE_REPOSITORIES (required_default "status" (text "active"));
  _ ← record_version 10;
  commit_tx.

(** The steps of the versions after [current]. *)
Definition pending_steps (current : Z) : eff session unit :=
  _ ← when_ (current <? 3) migrate_to_3;
  _ ← when_ (current <? 4) migrate_to_4;
  _ ← when_ (current <? 5) migrate_to_5;
  _ ← when_ (current <? 6) migrate_to_6;
  _ ← when_ (current <? 7) migrate_to_7;
  _ ← when_ (current <? 8) migrate_to_8;
  _ ← when_ (current <? 9) migrate_to_9;
  when_ (current <? 10) migrate_to_10.

(** A failed step is rolled back, and foreign keys are enforced again. *)
Definition undo_step : eff session unit :=
  _ ← conn_rollback;
  off ← gets fk_off;
  when_ off (pragma_foreign_keys true).

Definition migrate : eff session Z :=
  _ ← _refuse_wedged;
  current ← get_schema_version;
  if (CURRENT_SCHEMA_VERSION <=? current : bool) then mret current
  else
    prior_isolation ← gets isolation;
    _ ← set_isolation false;
    _ ← set_fk_off false;
    _ ← finally (on_exception (pending_steps current) undo_step) (set_isolation prior_isolation);
    mret CURRENT_SCHEMA_VERSION.

(** ** Creation *)

Definition create_all : eff session unit :=
  _ ← _refuse_wedged;
  _ ← create SQL_CREATE_SCHEMA_VERSION;
  _ ← create SQL_CREATE_VOLUMES;
  _ ← create SQL_CREATE_REPOSITORIES;
  _ ← create SQL_CREATE_PACKS;
  _ ← create SQL_CREATE_VOLUME_PACKS;
  _ ← create SQL_CREATE_SNAPSHOTS;
  _ ← create SQL_CREATE_LOCATIONS;
  _ ← create SQL_CREATE_VOLUME_COPIES;
  _ ← create SQL_CREATE_BURN_SESSIONS;
  _ ← create SQL_CREATE_SESSION_VOLUMES;
  _ ← create SQL_CREATE_VOLUME_EVENTS;
  _ ← create SQL_CREATE_KEY_ESCROW;
  _ ← for_each (fun i => ddl (create_index i)) SQL_CREATE_INDICES;
  n ← select (fun d => t ← get_table "schema_version" d; Ok (len (rows t)));
  _ ← when_ (n =? 0) (record_version CURRENT_SCHEMA_VERSION);
  _ ← conn_commit;
  _ ← migrate;
  mret tt.

(** A read-only database is noticed by the update of no rows, unless the catalog has no
    table of versions: then preparing the update fails first. *)
Definition _is_readonly : eff session bool := fun s =>
  if query_only s then (Ok true, s)
  else if open_tx s then (Ok false, s)
  else (Ok (has_table "schema_version" (image s) && read_only s), s).

Definition ensure_schema : eff session Z :=
  version ← get_schema_version;
  _ ← lift (raise_if (CURRENT_SCHEMA_VERSION <? version) SchemaVersionError);
  readonly ← _is_readonly;
  if (readonly : bool) then mret version
  else
    _ ← create_all;
    mret CURRENT_SCHEMA_VERSION.
End migrations.

(** A connection of [get_connection] to a database, and to a new file. *)
Definition connect (d : database) : session := mkSession [d] d false true true false false false.
Definition new_database : database := mkDatabase [] [].
