(* ===== verification/SchemaProps.v ===== *)
(** * Migrations: crashes, data, and two defects

    What [migrate] does as a sequence of functions on the database, one per version;
    what a crash leaves and how migrating again ends; what becomes of the rows.  Then
    the catalogs of version 2 that cannot be migrated, and the foreign keys that the
    step to version 5 leaves pointing at a table that is gone. *)

From S2P Require Import Prelude PyString Json Effects Ddl DdlProps Schema.
Open Scope string_scope.
Open Scope list_scope.
Open Scope Z_scope.

(** ** The steps as functions *)

Definition cols (n : string) (d : database) : list string :=
  match find_table n d with Some t => column_names t | None => [] end.

Section steps.
Variable now : string.

Abbreviation step := (bool -> database -> res database).

Definition recorded (v : Z) : step := fun on => insert_named on now "schema_version" [("version", IntV v)].
Definition added_unless (cs : list string) (n : string) (c : column) : step := fun _ d =>
  if negb (has (col_name c) cs) then add_column n c d else Ok d.
Definition added (n : string) (c : column) : step := fun on d => added_unless (cols n d) n c on d.
Definition created (t : string * table) : step := fun _ => create_table true t.1 t.2.
Definition added_or_created (t : string * table) (c : column) : step := fun on d =>
  if negb (has t.1 (tables d).*1) then created t on d else added t.1 c on d.
(** Statement after statement. *)
Fixpoint in_turn (l : list step) : step := fun on d =>
  match l with
  | [] => Ok d
  | f :: l => d ← f on d; in_turn l on d
  end.

Definition step_3 : list step :=
  [added "volumes" (col "verified_at");
   added "repositories" (required_default "created_at" Now);
   (fun _ => drop_index "idx_packs_sha256");
   (fun _ => drop_index "idx_volume_packs_volume_id");
   recorded 3].
Definition step_4 : list step :=
  [created SQL_CREATE_VOLUME_EVENTS;
   (fun _ => create_index (mkIndex "idx_volume_events_volume" "volume_events" ["volume_id"]));
   (fun _ => create_index (mkIndex "idx_volume_events_type" "volume_events" ["event_type"]));
   (fun on d => let cs := cols "volume_copies" d in
      in_turn [added_unless cs "volume_copies" (col "iso_sha256");
               added_unless cs "volume_copies" (col "last_verified_at");
               added_unless cs "volume_copies" (required_default "media_serial" (text ""))] on d);
   recorded 4].
Definition step_5 : list step :=
  [(fun _ => rename_table "volumes" "volumes_old");
   (fun _ => create_table false SQL_CREATE_VOLUMES.1 SQL_CREATE_VOLUMES.2);
   (fun on => insert_select_all on "volumes" "volumes_old");
   (fun _ => drop_table "volumes_old");
   (fun _ => create_index (mkIndex "idx_volumes_status" "volumes" ["status"]));
   recorded 5].
Definition step_6 : list step :=
  [(fun _ => rename_table "volume_events" "volume_events_old");
   created SQL_CREATE_VOLUME_EVENTS;
   (fun on => insert_select on now "volume_events" event_columns "volume_events_old");
   (fun _ => drop_table "volume_events_old");
   (fun _ => create_index (mkIndex "idx_volume_events_volume" "volume_events" ["volume_id"]));
   (fun _ => create_index (mkIndex "idx_volume_events_type" "volume_events" ["event_type"]));
   (fun _ => create_index (mkIndex "idx_volume_events_date" "volume_events" ["event_date"]));
   recorded 6].
Definition step_7 : list step := [added_or_created SQL_CREATE_SESSION_VOLUMES (col "iso_size_bytes"); recorded 7].
Definition step_8 : list step := [added_or_created SQL_CREATE_VOLUME_COPIES (col "iso_size_bytes"); recorded 8].
Definition step_9 : list step := [created SQL_CREATE_KEY_ESCROW; recorded 9].
Definition step_10 : list step :=
  [added_or_created SQL_CREATE_REPOSITORIES (required_default "status" (text "active")); recorded 10].

(** Foreign keys are not enforced in the two steps that make a table anew. *)
Definition steps : list (Z * (database -> res database)) :=
  [(3, in_turn step_3 true); (4, in_turn step_4 true); (5, in_turn step_5 false); (6, in_turn step_6 false);
   (7, in_turn step_7 true); (8, in_turn step_8 true); (9, in_turn step_9 true); (10, in_turn step_10 true)].

(** The databases committed on the way, and the exception that ends it. *)
Fixpoint upgrade (current : Z) (l : list (Z * (database -> res database))) (d : database) :
    list database * option exn :=
  match l with
  | [] => ([], None)
  | (v, f) :: l =>
      if current <? v then
        match f d with
        | Ok d' => let (ds, e) := upgrade current l d' in (d' :: ds, e)
        | Err e => ([], Some e)
        end
      else upgrade current l d
  end.

(** ** [migrate] takes these steps *)

Lemma runs_record v : runs (record_version now v) (recorded v).
Proof. apply runs_dml. Qed.
Lemma runs_create t : runs (create t) (created t).
Proof. apply runs_ddl. Qed.
Lemma runs_added n c :
  runs (cs ← table_info n; when_ (negb (has (col_name c) cs)) (ddl (add_column n c))) (added n c).
Proof.
  apply (runs_select (cols n) (fun cs => when_ (negb (has (col_name c) cs)) (ddl (add_column n c)))
    (fun cs => added_unless cs n c)).
  intros cs. apply runs_when, runs_ddl.
Qed.
Lemma runs_add_or_create t c : runs (add_or_create t c) (added_or_created t c).
Proof.
  apply (runs_select (fun d => (tables d).*1) _ (fun names on d =>
    if negb (has t.1 names) then created t on d else added t.1 c on d)).
  intros names. apply runs_if; [apply runs_create|]. apply runs_added.
Qed.
Hint Resolve runs_record runs_create runs_added runs_add_or_create : runs.

(** A statement, a commit at the end, or a column list looked up before them. *)
Lemma commits_in_turn m f l k g :
  runs m f -> commits k (in_turn l) g -> commits (_ ← m; k) (in_turn (f :: l)) g.
Proof. apply commits_seq. Qed.
Lemma commits_end : commits commit_tx (in_turn []) id.
Proof. apply commits_tx. Qed.
Lemma eff_assoc {S A B C} (m : eff S A) (k : A -> eff S B) (h : B -> eff S C) s :
  ((m ≫= k) ≫= h) s = (m ≫= fun a => k a ≫= h) s.
Proof. unfold mbind, eff_bind. by destruct (m s) as [[a|e] s']. Qed.
Lemma commits_ext m m' f g : (forall s, m s = m' s) -> commits m f g -> commits m' f g.
Proof.
  intros Hm H s Hw Ho. specialize (H s Hw Ho). destruct (f _ _); [by rewrite <- Hm|].
  destruct H as [d H]. exists d. by rewrite <- Hm.
Qed.
Lemma commits_added n c l k g : commits k (in_turn l) g ->
  commits (cs ← table_info n; _ ← when_ (negb (has (col_name c) cs)) (ddl (add_column n c)); k)
    (in_turn (added n c :: l)) g.
Proof.
  intros H. eapply commits_ext, commits_in_turn; [|apply runs_added|exact H].
  intros s. apply eff_assoc.
Qed.

(** A connection in autocommit mode, outside a transaction, that enforces foreign keys. *)
Record ready (s : session) : Prop := {
  ready_writable : writable s;
  ready_closed : open_tx s = false;
  ready_enforcing : enforcing s = true;
  ready_disk : exists old, on_disk s = image s :: old;
}.
Definition committed_as (s : session) (d : database) : session := flush_disk (with_image s d).
Lemma ready_committed s d : ready s -> ready (committed_as s d).
Proof. intros [? ? ? ?]. constructor; try done. by eexists. Qed.

(** A step commits what its function computes; when it fails, [undo_step] puts
    everything back. *)
Definition takes (m : eff session unit) (f : database -> res database) : Prop := forall s,
  ready s -> fk_off s = false ->
  match f (image s) with
  | Ok d => m s = (Ok tt, committed_as s d)
  | Err e => exists s' b, m s = (Err e, s') /\ undo_step s' = (Ok tt, with_fk_off s b)
  end.

Lemma undo_in_tx s d b b' : ready s ->
  undo_step (with_fk_off (with_enforcing (with_tx (with_image s d) true) b) b') =
  (Ok tt, with_fk_off (with_enforcing s (b' || b)) b').
Proof.
  intros [_ Hc _ [old Hd]]. unfold undo_step, mbind, eff_bind, conn_rollback, gets.
  cbn. unfold newest. cbn. rewrite Hd. destruct s; cbn in *; subst. by destruct b', b.
Qed.
Lemma takes_transaction m l :
  commits m (in_turn l) id -> takes (_ ← begin_immediate; m) (in_turn l true).
Proof.
  intros Hm s Hs Hf. pose proof Hs as [Hw Hc He Hd].
  assert (begin_immediate s = (Ok tt, with_tx s true)) as Hb by (unfold begin_immediate; by rewrite Hc).
  rewrite (eff_bind_Ok _ _ _ _ _ Hb). pose proof (Hm (with_tx s true) Hw eq_refl) as H.
  change (image (with_tx s true)) with (image s) in H.
  change (enforcing (with_tx s true)) with (enforcing s) in H. rewrite He in H.
  destruct (in_turn l true (image s)) as [d|e].
  - rewrite H. destruct s; cbn in *. by subst.
  - destruct H as [d ->]. eexists _, false. split; [done|].
    pose proof (undo_in_tx s d true false Hs) as H. destruct s; cbn in *; subst. apply H.
Qed.
Definition restore_keys (s : session) : session := with_fk_off (with_enforcing s true) false.
Lemma takes_transaction_off m l :
  commits m (in_turn l) restore_keys ->
  takes (_ ← pragma_foreign_keys false; _ ← set_fk_off true; _ ← begin_immediate; m) (in_turn l false).
Proof.
  intros Hm s Hs Hf. pose proof Hs as [Hw Hc He Hd].
  assert (pragma_foreign_keys false s = (Ok tt, with_enforcing s false)) as Hp
    by (unfold pragma_foreign_keys; by rewrite Hc).
  rewrite (eff_bind_Ok _ _ _ _ _ Hp).
  rewrite (eff_bind_Ok (set_fk_off true) _ (with_enforcing s false) tt
    (with_fk_off (with_enforcing s false) true) eq_refl).
  assert (begin_immediate (with_fk_off (with_enforcing s false) true) =
    (Ok tt, with_tx (with_fk_off (with_enforcing s false) true) true)) as Hb
    by (unfold begin_immediate; cbn; by rewrite Hc).
  rewrite (eff_bind_Ok _ _ _ _ _ Hb).
  pose proof (Hm (with_tx (with_fk_off (with_enforcing s false) true) true) Hw eq_refl) as H.
  cbn [enforcing image with_tx with_fk_off with_enforcing] in H.
  destruct (in_turn l false (image s)) as [d|e].
  - rewrite H. destruct s; cbn in *. by subst.
  - destruct H as [d ->]. eexists _, true. split; [done|].
    pose proof (undo_in_tx s d false true Hs) as H. destruct s; cbn in *; subst. apply H.
Qed.
Lemma commits_restore :
  commits (_ ← commit_tx; _ ← pragma_foreign_keys true; set_fk_off false) (in_turn []) restore_keys.
Proof. intros s _ Ho. cbn. unfold mbind, eff_bind, commit_tx. rewrite Ho. by destruct s. Qed.

Ltac steps_of :=
  repeat first [ apply commits_end | apply commits_restore | apply commits_added
               | apply commits_in_turn; [solve [auto with runs | apply runs_ddl | apply runs_dml]|] ].
Lemma takes_3 : takes (migrate_to_3 now) (in_turn step_3 true).
Proof. apply takes_transaction. unfold step_3. steps_of. Qed.
Lemma takes_4 : takes (migrate_to_4 now) (in_turn step_4 true).
Proof.
  apply takes_transaction. unfold step_4. do 3 (apply commits_in_turn; [auto with runs|]).
  eapply commits_ext, commits_in_turn; [| |steps_of].
  2:{ apply (runs_select (cols "volume_copies") (fun cs =>
        _ ← when_ (negb (has "iso_sha256" cs)) (ddl (add_column "volume_copies" (col "iso_sha256")));
        _ ← when_ (negb (has "last_verified_at" cs)) (ddl (add_column "volume_copies" (col "last_verified_at")));
        _ ← when_ (negb (has "media_serial" cs))
              (ddl (add_column "volume_copies" (required_default "media_serial" (text ""))));
        mret tt) (fun cs => in_turn
          [added_unless cs "volume_copies" (col "iso_sha256");
           added_unless cs "volume_copies" (col "last_verified_at");
           added_unless cs "volume_copies" (required_default "media_serial" (text ""))])).
      intros cs. cbn [in_turn]. repeat (apply runs_seq; [apply runs_when, runs_ddl|]). apply runs_ret. }
  intros s. rewrite !eff_assoc. unfold table_info, select, mbind, eff_bind.
  destruct (when_ _ _ _) as [[?|?] ?]; [|done]. destruct (when_ _ _ _) as [[?|?] ?]; [|done].
  by destruct (when_ _ _ _) as [[[]|?] ?].
Qed.
Lemma takes_5 : takes (migrate_to_5 now) (in_turn step_5 false).
Proof. apply takes_transaction_off. unfold step_5. steps_of. Qed.
Lemma takes_6 : takes (migrate_to_6 now) (in_turn step_6 false).
Proof. apply takes_transaction_off. unfold step_6. steps_of. Qed.
Lemma takes_7 : takes (migrate_to_7 now) (in_turn step_7 true).
Proof. apply takes_transaction. unfold step_7. steps_of. Qed.
Lemma takes_8 : takes (migrate_to_8 now) (in_turn step_8 true).
Proof. apply takes_transaction. unfold step_8. steps_of. Qed.
Lemma takes_9 : takes (migrate_to_9 now) (in_turn step_9 true).
Proof. apply takes_transaction. unfold step_9. steps_of. Qed.
Lemma takes_10 : takes (migrate_to_10 now) (in_turn step_10 true).
Proof. apply takes_transaction. unfold step_10. steps_of. Qed.

Definition follows (current : Z) (m : eff session unit) (l : list (Z * (database -> res database))) : Prop :=
  forall s, ready s -> fk_off s = false ->
  let (ds, e) := upgrade current l (image s) in
  match e with
  | None => m s = (Ok tt, foldl committed_as s ds)
  | Some e => exists s' b, m s = (Err e, s') /\ undo_step s' = (Ok tt, with_fk_off (foldl committed_as s ds) b)
  end.
Lemma follows_nil current : follows current (mret tt) [].
Proof. intros s _ _. done. Qed.
Lemma follows_cons current v m f k l : takes m f -> follows current k l ->
  follows current (_ ← when_ (current <? v) m; k) ((v, f) :: l).
Proof.
  intros Hm Hk s Hs Hf. cbn [upgrade]. destruct (current <? v); cbn [when_].
  - specialize (Hm s Hs Hf). destruct (f (image s)) as [d|e].
    + rewrite (eff_bind_Ok _ _ _ _ _ Hm).
      pose proof (Hk (committed_as s d) (ready_committed s d Hs)) as H. cbn [fk_off committed_as] in H.
      specialize (H Hf). change (image (committed_as s d)) with d in H.
      destruct (upgrade current l d) as [ds e]. exact H.
    + destruct Hm as (s' & b & Hm & Hu). exists s', b. by rewrite (eff_bind_Err _ _ _ _ _ Hm).
  - rewrite (eff_bind_Ok (mret tt) _ _ tt s) by done. by apply Hk.
Qed.
Lemma pending_follows current : follows current (pending_steps now current) steps.
Proof.
  assert (follows current (_ ← when_ (current <? 10) (migrate_to_10 now); mret tt) [(10, in_turn step_10 true)])
    as H10 by (apply follows_cons, follows_nil; apply takes_10).
  unfold pending_steps, steps.
  do 7 (apply follows_cons; [first [apply takes_3|apply takes_4|apply takes_5|apply takes_6|apply takes_7
    |apply takes_8|apply takes_9]|]).
  intros s Hs Hf. specialize (H10 s Hs Hf). destruct (upgrade _ _ _) as [ds [e|]].
  - destruct H10 as (s' & b & Hm & Hu). exists s', b. split; [|done]. revert Hm.
    unfold mbind, eff_bind. by destruct (when_ _ _ _) as [[[]|?] ?].
  - revert H10. unfold mbind, eff_bind. by destruct (when_ _ _ _) as [[[]|?] ?].
Qed.
End steps.

(** A connection outside a transaction, as the callers of [ensure_schema] have it. *)
Record settled (s : session) : Prop := {
  settled_writable : writable s;
  settled_closed : open_tx s = false;
  settled_enforcing : enforcing s = true;
  settled_disk : exists old, on_disk s = image s :: old;
}.
Definition unwedged (d : database) : Prop := forall n, is_leftover n = true -> find_table n d = None.

Lemma leftovers_unwedged d : List.filter is_leftover (tables d).*1 = [] <-> unwedged d.
Proof.
  split.
  - intros H n Hn. apply dict_get_None. intros Hin. apply list_elem_of_In in Hin.
    assert (In n (List.filter is_leftover (tables d).*1)) as Hf by (by apply filter_In). by rewrite H in Hf.
  - intros H. destruct (List.filter _ _) as [|n l] eqn:E; [done|].
    assert (In n (List.filter is_leftover (tables d).*1)) as Hin by (rewrite E; by left).
    apply filter_In in Hin as [Hin Hn]. apply H in Hn. apply dict_get_None in Hn.
    by apply list_elem_of_In in Hin.
Qed.
Lemma refuse_unwedged s : unwedged (image s) -> _refuse_wedged s = (Ok tt, s).
Proof.
  intros H%leftovers_unwedged. unfold _refuse_wedged, detect_wedged_migration, select, mbind, eff_bind, lift.
  rewrite H. by rewrite bool_decide_eq_true_2 by done.
Qed.
Lemma refuse_wedged s : ~ unwedged (image s) -> _refuse_wedged s = (Err WedgedMigrationError, s).
Proof.
  intros H. rewrite <- leftovers_unwedged in H.
  unfold _refuse_wedged, detect_wedged_migration, select, mbind, eff_bind, lift.
  rewrite bool_decide_eq_false_2; [done|]. intros Hm. apply H, Permutation_nil_r.
  by rewrite <- (merge_sort_Permutation (fun x y => Is_true (x <=? y)%string)), Hm.
Qed.

Lemma last_cons_default {A} (l : list A) a b : List.last (a :: l) b = List.last l a.
Proof. revert a b. induction l as [|x l IH]; intros a b; [done|]. change (List.last (x :: l) b = List.last (x :: l) a). by rewrite !IH. Qed.
Lemma foldl_committed_disk ds s :
  on_disk (foldl committed_as s ds) = rev ds ++ on_disk s /\
  image (foldl committed_as s ds) = List.last ds (image s) /\
  open_tx (foldl committed_as s ds) = (if bool_decide (ds = []) then open_tx s else false) /\
  enforcing (foldl committed_as s ds) = enforcing s.
Proof.
  revert s. induction ds as [|d ds IH]; intros s; [done|]. cbn [foldl].
  destruct (IH (committed_as s d)) as (H1 & H2 & H3 & H4). rewrite H1, H2, H3, H4, last_cons_default. cbn [on_disk committed_as flush_disk rev].
  split_and!; [by rewrite <- app_assoc|done|by case_bool_decide|done].
Qed.

(** What [migrate] returns and leaves behind. *)
Lemma migrate_spec now s : settled s -> unwedged (image s) -> schema_version (image s) < CURRENT_SCHEMA_VERSION ->
  let (ds, e) := upgrade (schema_version (image s)) (steps now) (image s) in
  let (r, s') := migrate now s in
  r = match e with None => Ok CURRENT_SCHEMA_VERSION | Some e => Err e end /\
  on_disk s' = rev ds ++ on_disk s /\ image s' = List.last ds (image s) /\
  open_tx s' = false /\ enforcing s' = true /\ isolation s' = isolation s /\ writable s'.
Proof.
  intros Hs Hu Hv. destruct Hs as [Hw Hc He Hd].
  unfold migrate. rewrite (eff_bind_Ok _ _ _ _ _ (refuse_unwedged s Hu)).
  rewrite (eff_bind_Ok get_schema_version _ s (schema_version (image s)) s) by done.
  replace (CURRENT_SCHEMA_VERSION <=? schema_version (image s)) with false by (symmetry; by apply Z.leb_gt).
  rewrite (eff_bind_Ok (gets isolation) _ s (isolation s) s) by done.
  rewrite (eff_bind_Ok (set_isolation false) _ s tt (with_isolation s false))
    by (unfold set_isolation; by rewrite Hc).
  set (s0 := with_fk_off (with_isolation s false) false).
  rewrite (eff_bind_Ok (set_fk_off false) _ _ tt s0) by done.
  assert (ready s0) as Hr by (by constructor).
  pose proof (pending_follows now (schema_version (image s)) s0 Hr eq_refl) as H.
  change (image s0) with (image s) in H. destruct (upgrade _ _ _) as [ds e].
  pose proof (foldl_committed_disk ds s0) as (H1 & H2 & H3 & H4).
  assert (writable (foldl committed_as s0 ds)) as Hwf.
  { clear -Hw. change (writable s0) in Hw. revert Hw. generalize s0. induction ds as [|d ds IH]; intros s1 H; [done|].
    by apply IH. }
  assert (forall s1 b, s1 = with_fk_off (foldl committed_as s0 ds) b \/ s1 = foldl committed_as s0 ds ->
    on_disk s1 = rev ds ++ on_disk s /\ image s1 = List.last ds (image s) /\ open_tx s1 = false /\
    enforcing s1 = true /\ writable s1) as Hs1.
  { intros s1 b Hs1. assert (open_tx (foldl committed_as s0 ds) = false) as Ho
      by (rewrite H3; by case_bool_decide).
    assert (enforcing (foldl committed_as s0 ds) = true) as He' by (by rewrite H4).
    destruct Hs1 as [-> | ->]; cbn; split_and!; try done; by destruct Hwf. }
  destruct e as [e|].
  - destruct H as (s' & b & Hm & Hu'). unfold mbind, eff_bind, finally, on_exception.
    rewrite Hm, Hu'. destruct (Hs1 _ b (or_introl eq_refl)) as (?&?&Ho&?&?).
    unfold set_isolation. rewrite Ho. destruct (isolation s); cbn; split_and!; done.
  - unfold mbind, eff_bind, finally, on_exception. rewrite H.
    destruct (Hs1 _ false (or_intror eq_refl)) as (?&?&Ho&?&?).
    unfold set_isolation. rewrite Ho. destruct (isolation s); cbn; split_and!; done.
Qed.

Lemma connect_settled d : settled (connect d).
Proof. constructor; [done..|by eexists]. Qed.
(** The database that is seen after [migrate], in any case. *)
Lemma migrate_cases now d :
  image (migrate now (connect d)).2 = d \/
  exists ds e, upgrade (schema_version d) (steps now) d = (ds, e) /\
    image (migrate now (connect d)).2 = List.last ds d.
Proof.
  destruct (decide (List.filter is_leftover (tables d).*1 = [])) as [Hu%leftovers_unwedged|Hl].
  2:{ left. unfold migrate. rewrite (eff_bind_Err _ _ _ WedgedMigrationError (connect d)); [done|].
      apply refuse_wedged. by rewrite <- leftovers_unwedged. }
  destruct (Z.le_gt_cases CURRENT_SCHEMA_VERSION (schema_version d)) as [Hv|Hv].
  { left. unfold migrate. rewrite (eff_bind_Ok _ _ _ _ _ (refuse_unwedged (connect d) Hu)).
    rewrite (eff_bind_Ok get_schema_version _ _ (schema_version d) (connect d)) by done.
    by rewrite (proj2 (Z.leb_le _ _) Hv). }
  right. pose proof (migrate_spec now (connect d) (connect_settled d) Hu Hv) as Hm.
  change (image (connect d)) with d in Hm. destruct (upgrade _ _ _) as [ds e]. exists ds, e. split; [done|].
  destruct (migrate now (connect d)) as [r s']. cbn [snd]. by destruct Hm as (_ & _ & -> & _).
Qed.

(** ** The version a step leaves *)

Definition version_of (c : option (list column * list (list val))) : Z :=
  match c with
  | Some (cs, rs) =>
      match max_version (omap (fun row => value (mkTable cs [] [] [] []) row "version") rs) with
      | Some v => v
      | None => 0
      end
  | None => 0
  end.
Lemma schema_version_content d : schema_version d = version_of (content "schema_version" d).
Proof.
  unfold schema_version, content. destruct (find_table _ d) as [t|]; [|done]. cbn [fmap option_fmap option_map version_of].
  done.
Qed.
Lemma max_version_snoc l v :
  max_version (l ++ [IntV v]) = Some (match max_version l with Some w => Z.max w v | None => v end).
Proof.
  induction l as [|x l IH]; [done|]. cbn [app max_version foldr]. fold (max_version (l ++ [IntV v])).
  fold (max_version l). rewrite IH. destruct x; try done. destruct (max_version l); f_equal; lia.
Qed.
Lemma recorded_version now v on d d' : recorded now v on d = Ok d' -> 0 < v -> schema_version d < v ->
  schema_version d' = v.
Proof.
  intros H Hv Hlt. pose proof H as (t & Ht & Hf)%(find_insert_named _ _ _ _ _ _ "schema_version").
  unfold recorded, insert_named in H. stmt_inv H. rewrite Ha in Ht. injection Ht as ->.
  apply negb_false_iff in Ha0. cbn in Ha0. rewrite andb_true_r in Ha0. apply bool_decide_eq_true in Ha0.
  unfold schema_version in *. rewrite Hf, decide_True by done. rewrite Ha in Hlt.
  cbn [rows set_rows]. rewrite omap_app.
  destruct (value_complete_row now t [("version", IntV v)] "version" Ha0) as (x & _ & _ & Hval).
  cbn [omap list_omap]. change (value (set_rows t _)) with (value t). cbn [dict_get] in Hval.
  rewrite decide_True in Hval by done. rewrite Hval.
  rewrite max_version_snoc.
  destruct (max_version (omap (λ row, value t row "version") (rows t))); lia.
Qed.

Lemma in_turn_snoc l f on d d' : in_turn (l ++ [f]) on d = Ok d' ->
  exists d1, in_turn l on d = Ok d1 /\ f on d1 = Ok d'.
Proof.
  revert d. induction l as [|g l IH]; intros d; cbn [app in_turn].
  - intros H. apply bind_Ok_inv in H as (d1 & H & [= <-]). by exists d.
  - intros H. apply bind_Ok_inv in H as (d1 & H1 & H). apply IH in H as (d2 & H2 & H). exists d2.
    split; [|done]. by rewrite H1.
Qed.
Lemma touches_in_turn ns l on : Forall (fun f => touches ns (f on)) l -> touches ns (in_turn l on).
Proof.
  induction 1 as [|f l Hf _ IH]; cbn [in_turn]; [apply touches_ret|]. by apply touches_bind.
Qed.
Lemma touches_added ns n c on : n ∈ ns -> touches ns (added n c on).
Proof.
  intros Hn d d' x. unfold added, added_unless. destruct (negb _); [by apply touches_add_column|by intros [= <-]].
Qed.
Lemma touches_added_unless ns cs n c on : n ∈ ns -> touches ns (added_unless cs n c on).
Proof. intros Hn. unfold added_unless. destruct (negb _); auto with touches. Qed.
Lemma touches_added_or_created ns t c on : t.1 ∈ ns -> touches ns (added_or_created t c on).
Proof.
  intros Hn d d' x. unfold added_or_created, created.
  destruct (negb _); [by apply touches_create|by apply touches_added].
Qed.
#[export] Hint Resolve touches_added touches_added_unless touches_added_or_created : touches.
#[export] Hint Extern 1 (touches _ (created _ _)) => (apply touches_create) : touches.
#[export] Hint Extern 1 (touches _ (recorded _ _ _)) => (apply touches_insert_named) : touches.
Lemma touches_step_4 on ns : "volume_copies" ∈ ns ->
  touches ns ((fun on d => let cs := cols "volume_copies" d in
      in_turn [added_unless cs "volume_copies" (col "iso_sha256");
               added_unless cs "volume_copies" (col "last_verified_at");
               added_unless cs "volume_copies" (required_default "media_serial" (text ""))] on d) on).
Proof.
  intros Hn d d' x H. revert H.
  apply (touches_in_turn ns [added_unless (cols "volume_copies" d) "volume_copies" (col "iso_sha256");
    added_unless (cols "volume_copies" d) "volume_copies" (col "last_verified_at");
    added_unless (cols "volume_copies" d) "volume_copies" (required_default "media_serial" (text ""))]).
  repeat constructor; by apply touches_added_unless.
Qed.
#[export] Hint Resolve touches_step_4 : touches.

(** Every step: the statements before the version is recorded leave the table of
    versions alone. *)
Lemma steps_version now v f d d' :
  (v, f) ∈ steps now -> f d = Ok d' -> schema_version d < v -> schema_version d' = v.
Proof.
  intros Hin Hf Hv.
  assert (exists l on, f = in_turn (l ++ [recorded now v]) on /\
    touches ["volumes"; "volumes_old"; "repositories"; "volume_copies"; "volume_events"; "volume_events_old";
             "session_volumes"; "key_escrow"] (in_turn l on) /\ 0 < v) as (l & on & -> & Hl & Hpos).
  { unfold steps in Hin. repeat (apply elem_of_cons in Hin as [[= -> ->]|Hin]); [..|by apply not_elem_of_nil in Hin];
    [exists (take 4 (step_3 now)), true|exists (take 4 (step_4 now)), true
    |exists (take 5 (step_5 now)), false|exists (take 7 (step_6 now)), false|exists (take 1 (step_7 now)), true
    |exists (take 1 (step_8 now)), true|exists (take 1 (step_9 now)), true|exists (take 1 (step_10 now)), true];
    (split; [done|]; split; [|lia]; apply touches_in_turn; cbn [take step_3 step_4 step_5 step_6 step_7 step_8 step_9 step_10]);
    repeat (apply Forall_cons; split; [auto with touches|]); apply Forall_nil_2. }
  apply in_turn_snoc in Hf as (d1 & H1 & H2). eapply recorded_version; [exact H2|done|].
  rewrite schema_version_content, (Hl _ _ "schema_version" H1), <- schema_version_content; [done|].
  apply (bool_decide_unpack _). by vm_compute.
Qed.

(** ** Leftover tables *)

Lemma unwedged_content d : unwedged d <-> forall n, is_leftover n = true -> content n d = None.
Proof.
  unfold unwedged, content. split; intros H n Hn; specialize (H n Hn); [by rewrite H|].
  by destruct (find_table n d).
Qed.
Lemma in_turn_app l1 l2 on d d' : in_turn (l1 ++ l2) on d = Ok d' ->
  exists d1, in_turn l1 on d = Ok d1 /\ in_turn l2 on d1 = Ok d'.
Proof.
  revert d. induction l1 as [|f l1 IH]; intros d; cbn [app in_turn]; [by exists d|].
  intros H. apply bind_Ok_inv in H as (d1 & H1 & H). rewrite H1. by apply IH.
Qed.
Lemma unwedged_touches ns f d d' :
  touches ns f -> forallb (fun n => negb (is_leftover n)) ns = true -> f d = Ok d' -> unwedged d -> unwedged d'.
Proof.
  intros Hf Hns H. rewrite !unwedged_content. intros Hu n Hn. rewrite (Hf _ _ _ H); [by apply Hu|].
  intros Hin. rewrite forallb_forall in Hns. apply list_elem_of_In, Hns in Hin. by rewrite Hn in Hin.
Qed.
(** A step that uses one leftover name, and drops the table. *)
Lemma unwedged_dropped ns o l1 l2 on d d' :
  touches (o :: ns) (in_turn l1 on) -> touches ns (in_turn l2 on) ->
  forallb (fun n => negb (is_leftover n)) ns = true -> is_leftover o = true ->
  in_turn (l1 ++ (fun _ => drop_table o) :: l2) on d = Ok d' -> unwedged d -> unwedged d'.
Proof.
  intros H1 H2 Hns Ho H Hu. apply in_turn_app in H as (d1 & Hd1 & H). cbn [in_turn] in H.
  apply bind_Ok_inv in H as (d2 & Hd2 & H). eapply (unwedged_touches ns); [exact H2|done|exact H|].
  rewrite unwedged_content in *. intros n Hn. unfold content. rewrite (find_drop _ _ _ n Hd2).
  case_decide as Hno; [done|]. change (content n d1 = None). rewrite (H1 _ _ _ Hd1); [by apply Hu|].
  intros [->|Hin]%elem_of_cons; [done|].
  rewrite forallb_forall in Hns. apply list_elem_of_In, Hns in Hin. by rewrite Hn in Hin.
Qed.
Ltac touch_all := apply touches_in_turn; cbn [take drop step_3 step_4 step_5 step_6 step_7 step_8 step_9 step_10];
  repeat (apply Forall_cons; split; [auto with touches|]); apply Forall_nil_2.
Definition LASTING : list string :=
  ["volumes"; "repositories"; "volume_copies"; "volume_events"; "session_volumes"; "key_escrow"; "schema_version"].
Lemma steps_cases now (P : (database -> res database) -> Prop) v f :
  P (in_turn (step_3 now) true) -> P (in_turn (step_4 now) true) -> P (in_turn (step_5 now) false) ->
  P (in_turn (step_6 now) false) -> P (in_turn (step_7 now) true) -> P (in_turn (step_8 now) true) ->
  P (in_turn (step_9 now) true) -> P (in_turn (step_10 now) true) -> (v, f) ∈ steps now -> P f.
Proof.
  intros ? ? ? ? ? ? ? ? Hin. unfold steps in Hin.
  repeat (apply elem_of_cons in Hin as [[= -> ->]|Hin]); [assumption..|by apply not_elem_of_nil in Hin].
Qed.
Lemma steps_unwedged now v f d d' : (v, f) ∈ steps now -> f d = Ok d' -> unwedged d -> unwedged d'.
Proof.
  intros Hin. revert d d'.
  apply (steps_cases now (fun f => forall d d', f d = Ok d' -> unwedged d -> unwedged d') v f);
    [..|exact Hin]; intros d d';
    try (apply (unwedged_touches LASTING); [touch_all|done]).
  - apply (unwedged_dropped LASTING "volumes_old" (take 3 (step_5 now)) (drop 4 (step_5 now)));
      [touch_all|touch_all|done|done].
  - apply (unwedged_dropped LASTING "volume_events_old" (take 3 (step_6 now)) (drop 4 (step_6 now)));
      [touch_all|touch_all|done|done].
Qed.

(** ** Crashes *)

Lemma steps_sorted now : StronglySorted Z.lt (steps now).*1.
Proof. cbn. repeat (constructor; [|repeat constructor]). constructor. Qed.
Lemma steps_order now l1 v f l2 w g : steps now = l1 ++ (v, f) :: l2 ->
  ((w, g) ∈ l1 -> w < v) /\ ((w, g) ∈ l2 -> v < w).
Proof.
  intros H. pose proof (steps_sorted now) as Hs. rewrite H, fmap_app in Hs. split; intros Hin.
  - eapply (StronglySorted_app_1_elem_of _ _ _ w v Hs); [|by left]. by apply (list_elem_of_fmap_2 fst _ (w, g)).
  - assert (l1.*1 ++ ((v, f) :: l2).*1 = (l1.*1 ++ [v]) ++ l2.*1) as E by (by rewrite <- app_assoc).
    rewrite E in Hs. eapply (StronglySorted_app_1_elem_of _ _ _ v w Hs).
    + apply elem_of_app. right. by left.
    + by apply (list_elem_of_fmap_2 fst _ (w, g)).
Qed.
Lemma upgrade_skip current l1 l2 d : (forall v f, (v, f) ∈ l1 -> v <= current) ->
  upgrade current (l1 ++ l2) d = upgrade current l2 d.
Proof.
  intros H. induction l1 as [|[v f] l1 IH]; [done|]. cbn [app upgrade].
  replace (current <? v) with false by (symmetry; apply Z.ltb_ge; eapply H; by left).
  apply IH. intros w g Hin. eapply H. by right.
Qed.
Lemma upgrade_current c1 c2 l d : (forall v f, (v, f) ∈ l -> c1 < v <-> c2 < v) -> upgrade c1 l d = upgrade c2 l d.
Proof.
  intros H. revert d. induction l as [|[v f] l IH]; intros d; [done|]. cbn [upgrade].
  assert ((c1 <? v) = (c2 <? v)) as -> by (apply eq_true_iff_eq; rewrite !Z.ltb_lt; eapply H; by left).
  assert (forall d, upgrade c1 l d = upgrade c2 l d) as IH' by (intros; apply IH; intros; eapply H; by right).
  destruct (c2 <? v); [|apply IH']. by destruct (f d) as [d'|]; [rewrite IH'|].
Qed.
(** Whatever is committed on the way is not wedged, and its own upgrade ends where the
    interrupted one would have ended. *)
Lemma upgrade_resume now l2 : forall current l1 d ds,
  steps now = l1 ++ l2 -> (forall v f, (v, f) ∈ l1 -> v <= schema_version d) ->
  (forall v f, (v, f) ∈ l2 -> current < v <-> schema_version d < v) -> unwedged d ->
  upgrade current l2 d = (ds, None) ->
  forall d', d' ∈ d :: ds -> unwedged d' /\
    (schema_version d' = schema_version d \/ schema_version d' <= CURRENT_SCHEMA_VERSION) /\
    exists ds', upgrade (schema_version d') (steps now) d' = (ds', None) /\ List.last ds' d' = List.last ds d.
Proof.
  induction l2 as [|[v f] l2 IH]; intros current l1 d ds Hsteps H1 H2 Hu H d' Hd'.
  { cbn in H. injection H as <-. apply list_elem_of_singleton in Hd' as ->. split; [done|]. split; [by left|].
    exists []. rewrite Hsteps, upgrade_skip by done. done. }
  assert (steps now = (l1 ++ [(v, f)]) ++ l2) as Hsteps' by (by rewrite <- app_assoc).
  assert (forall w g, (w, g) ∈ l1 -> w < v) as Hlow by (intros w g; exact (proj1 (steps_order _ _ _ _ _ w g Hsteps))).
  assert (forall w g, (w, g) ∈ l2 -> v < w) as Hhigh by (intros w g; exact (proj2 (steps_order _ _ _ _ _ w g Hsteps))).
  cbn [upgrade] in H. destruct (Z.ltb_spec current v) as [Hlt|Hge].
  - destruct (f d) as [d1|] eqn:Hf; [|by destruct (upgrade current l2 d)].
    destruct (upgrade current l2 d1) as [ds1 e] eqn:Hup. injection H as <- ->.
    assert (schema_version d < v) as Hv by (eapply H2; [by left|done]).
    assert ((v, f) ∈ steps now) as Hin by (rewrite Hsteps; apply elem_of_app; right; by left).
    pose proof (steps_version _ _ _ _ _ Hin Hf Hv) as Hv1.
    pose proof (steps_unwedged _ _ _ _ _ Hin Hf Hu) as Hu1.
    apply elem_of_cons in Hd' as [->|Hd'].
    { split; [done|]. split; [by left|]. exists (d1 :: ds1). split; [|done]. rewrite Hsteps, upgrade_skip by done.
      cbn [upgrade]. rewrite (proj2 (Z.ltb_lt _ _) Hv), Hf.
      rewrite (upgrade_current _ current), Hup; [done|]. intros w g Hw. symmetry. eapply H2. by right. }
    assert (v <= CURRENT_SCHEMA_VERSION) as Hmax.
    { clear -Hin. unfold steps in Hin.
      repeat (apply elem_of_cons in Hin as [[= -> _]|Hin]); [unfold CURRENT_SCHEMA_VERSION; lia..|].
      by apply not_elem_of_nil in Hin. }
    rewrite (last_cons_default ds1 d1 d).
    enough (unwedged d' /\ (schema_version d' = schema_version d1 \/ schema_version d' <= CURRENT_SCHEMA_VERSION) /\
      exists ds', upgrade (schema_version d') (steps now) d' = (ds', None) /\ List.last ds' d' = List.last ds1 d1)
      as (? & [Hd1|?] & ?) by (split; [done|]; split; [right; lia|done]).
    eapply (IH current (l1 ++ [(v, f)])); [done| | |done|done|done].
    + intros w g [Hw|[= -> ->]%list_elem_of_singleton]%elem_of_app; rewrite Hv1; [|lia].
      apply Z.lt_le_incl. by eapply Hlow.
    + intros w g Hw. rewrite Hv1. pose proof (Hhigh w g Hw). split; lia.
  - eapply (IH current (l1 ++ [(v, f)])); [done| | |done|done|done].
    + intros w g [Hw|[= -> ->]%list_elem_of_singleton]%elem_of_app; [by eapply H1|].
      apply Z.le_ngt. intros Hv. apply (H2 v f) in Hv; [lia|by left].
    + intros w g Hw. eapply H2. by right.
Qed.

(** C12.  Migrating is safe against crashes and, once restarted, ends where it would have
    ended: every catalog that is on the disk at any time during a migration that
    succeeds can itself be migrated, with the same final result. *)
Theorem migrate_crash_resume now d s' v :
  migrate now (connect d) = (Ok v, s') ->
  forall d', d' ∈ on_disk s' ->
  exists s'', migrate now (connect d') = (Ok v, s'') /\ image s'' = image s'.
Proof.
  intros H d' Hd'. assert (unwedged d) as Hu.
  { destruct (decide (List.filter is_leftover (tables d).*1 = [])) as [Hl%leftovers_unwedged|Hl]; [done|].
    unfold migrate in H. rewrite (eff_bind_Err _ _ _ WedgedMigrationError (connect d)) in H; [done|].
    apply refuse_wedged. by rewrite <- leftovers_unwedged. }
  assert (forall d0, settled (connect d0)) as Hset by (intros; constructor; [done..|by eexists]).
  destruct (Z.le_gt_cases CURRENT_SCHEMA_VERSION (schema_version d)) as [Hv|Hv].
  { unfold migrate in H. rewrite (eff_bind_Ok _ _ _ _ _ (refuse_unwedged (connect d) Hu)) in H.
    rewrite (eff_bind_Ok get_schema_version _ _ (schema_version d) (connect d)) in H by done.
    rewrite (proj2 (Z.leb_le _ _) Hv) in H. injection H as <- <-.
    apply list_elem_of_singleton in Hd' as ->. exists (connect d). split; [|done].
    unfold migrate. rewrite (eff_bind_Ok _ _ _ _ _ (refuse_unwedged (connect d) Hu)).
    rewrite (eff_bind_Ok get_schema_version _ _ (schema_version d) (connect d)) by done.
    by rewrite (proj2 (Z.leb_le _ _) Hv). }
  pose proof (migrate_spec now (connect d) (Hset d) Hu Hv) as Hm.
  destruct (upgrade _ _ _) as [ds [e|]] eqn:Hup; rewrite H in Hm; [by destruct Hm|].
  destruct Hm as ([= ->] & Hdisk & Himg & _). change (image (connect d)) with d in *.
  change (on_disk (connect d)) with [d] in Hdisk.
  destruct (upgrade_resume now (steps now) (schema_version d) [] d ds eq_refl) with (d' := d')
    as (Hu' & Hmax & ds' & Hup' & Hlast); [by intros ? ? ?%not_elem_of_nil|done|done|done| |].
  { rewrite Hdisk in Hd'. apply elem_of_app in Hd' as [Hd'|Hd']; [|apply list_elem_of_singleton in Hd' as ->; by left].
    right. apply list_elem_of_In. apply in_rev. by apply list_elem_of_In. }
  destruct (Z.le_gt_cases CURRENT_SCHEMA_VERSION (schema_version d')) as [Hv'|Hv'].
  - assert (ds' = []) as ->.
    { assert (upgrade (schema_version d') (steps now ++ []) d' = ([], None)) as Hs.
      { rewrite upgrade_skip; [done|]. intros w g Hw. unfold steps in Hw.
        repeat (apply elem_of_cons in Hw as [[= -> _]|Hw]); [unfold CURRENT_SCHEMA_VERSION in Hv'; lia..|].
        by apply not_elem_of_nil in Hw. }
      rewrite app_nil_r, Hup' in Hs. by injection Hs. }
    exists (connect d'). unfold migrate. rewrite (eff_bind_Ok _ _ _ _ _ (refuse_unwedged (connect d') Hu')).
    rewrite (eff_bind_Ok get_schema_version _ _ (schema_version d') (connect d')) by done.
    rewrite (proj2 (Z.leb_le _ _) Hv'). rewrite Himg, <- Hlast.
    split; [|done].
    enough (schema_version d' = CURRENT_SCHEMA_VERSION) as -> by done. destruct Hmax; unfold CURRENT_SCHEMA_VERSION in *; lia.
  - pose proof (migrate_spec now (connect d') (Hset d') Hu' Hv') as Hm'. change (image (connect d')) with d' in Hm'.
    rewrite Hup' in Hm'. destruct (migrate now (connect d')) as [r s''].
    destruct Hm' as (-> & _ & Himg' & _). exists s''. by rewrite Himg', Himg.
Qed.
