(* ===== verification/MigrationProps.v ===== *)
(** * What migrating does to the rows and references of a catalog

    Rows keep their values under the names of their columns, in every table, whether it
    is extended or made anew.  References do not fare as well: the step to version 5
    leaves the other tables' foreign keys pointing at the table it drops, and a
    catalog of version 2 with repositories is refused. *)

From S2P Require Import Prelude PyString Json Effects Ddl DdlProps Schema SchemaProps.
Open Scope string_scope.
Open Scope list_scope.
Open Scope Z_scope.

(** ** Rows *)

(** Every row is still there, in its place, with each column's value. *)
Definition carried (t t' : table) : Prop :=
  Forall2 (fun row row' => forall c v, value t row c = Some v -> value t' row' c = Some v) (rows t) (rows t').
Definition kept (n : string) (d d' : database) : Prop := forall t, find_table n d = Some t ->
  exists t', find_table n d' = Some t' /\ carried t t'.

Lemma carried_same t t' : columns t = columns t' -> rows t = rows t' -> carried t t'.
Proof.
  intros Hc Hr. unfold carried. rewrite Hr. apply Forall_Forall2_diag, Forall_forall. intros row _ c v.
  by rewrite (value_columns t t').
Qed.
Lemma carried_trans t1 t2 t3 : carried t1 t2 -> carried t2 t3 -> carried t1 t3.
Proof.
  unfold carried. intros H1. generalize (rows t3).
  induction H1 as [|x y l l' Hxy _ IH]; intros l3 H2; inv H2; constructor; [|by apply IH].
  intros c v Hv. auto.
Qed.
Lemma table_kept_refl n d : kept n d d.
Proof. intros t H. exists t. split; [done|]. by apply carried_same. Qed.
Lemma table_kept_trans n d1 d2 d3 : kept n d1 d2 -> kept n d2 d3 -> kept n d1 d3.
Proof.
  intros H1 H2 t Ht. destruct (H1 t Ht) as (t2 & H & ?). destruct (H2 t2 H) as (t3 & ? & ?).
  exists t3. split; [done|]. by eapply carried_trans.
Qed.
Lemma kept_content n d d' : content n d' = content n d -> kept n d d'.
Proof.
  unfold content. intros H t Ht. rewrite Ht in H. destruct (find_table n d') as [t'|]; [|done].
  injection H as Hc Hr. exists t'. split; [done|]. by apply carried_same.
Qed.
Lemma kept_create b n t d d' x : create_table b n t d = Ok d' -> kept x d d'.
Proof.
  intros H t' Ht. rewrite (find_create _ _ _ _ _ x H), Ht. exists t'. split; [done|]. by apply carried_same.
Qed.
Lemma kept_add_column n c d d' x : typed d -> add_column n c d = Ok d' -> kept x d d'.
Proof.
  intros Hd H t' Ht. pose proof H as (t & r & Hn & _ & Hx & Hr)%(find_add_column _ _ _ _ x). rewrite Hx.
  case_decide; [subst|by exists t'; split; [|apply carried_same]].
  rewrite Hn in Ht. injection Ht as ->. eexists. split; [done|]. unfold carried. cbn [rows].
  destruct (added_value c) as [w|].
  - subst r. apply Forall2_fmap_r, Forall_Forall2_diag, Forall_forall. intros row _ c' v.
    apply value_grown; by apply prefix_app_r.
  - destruct Hr as [-> ->]. constructor.
Qed.

(** ** Steps keep rows *)

Definition volume_columns : list string := column_names SQL_CREATE_VOLUMES.2.
(** The tables that are made anew have the columns of their time: those of today, for
    the volumes of version 2 without the last. *)
Record historic (d : database) : Prop := {
  historic_volumes : forall t, find_table "volumes" d = Some t ->
    column_names t = volume_columns \/ column_names t ++ ["verified_at"] = volume_columns;
  historic_events : forall t, find_table "volume_events" d = Some t ->
    Forall (fun c => c ∈ event_columns) (column_names t);
}.
Definition keeps_rows (f : database -> res database) : Prop := forall d d',
  typed d -> historic d -> f d = Ok d' ->
  typed d' /\ historic d' /\ forall n, n <> "schema_version" -> kept n d d'.

Lemma keeps_in_turn l on : Forall (fun f => keeps_rows (f on)) l -> keeps_rows (in_turn l on).
Proof.
  induction 1 as [|f l Hf _ IH]; intros d d' Ht Hh; cbn [in_turn].
  - intros [= <-]. split_and!; [done..|]. intros. apply table_kept_refl.
  - intros H. apply bind_Ok_inv in H as (d1 & H1 & H).
    destruct (Hf _ _ Ht Hh H1) as (Ht1 & Hh1 & Hk1). destruct (IH _ _ Ht1 Hh1 H) as (? & ? & Hk).
    split_and!; [done..|]. intros n Hn. eapply table_kept_trans; [by apply Hk1|by apply Hk].
Qed.
Lemma historic_content d d' : historic d ->
  content "volumes" d' = content "volumes" d -> content "volume_events" d' = content "volume_events" d ->
  historic d'.
Proof.
  unfold content. intros [Hv He] Hcv Hce. constructor; intros t Ht; [rewrite Ht in Hcv|rewrite Ht in Hce].
  - destruct (find_table _ d) as [t'|]; [|done]. injection Hcv as Hc _. unfold column_names. rewrite Hc. by apply Hv.
  - destruct (find_table "volume_events" d) as [t'|]; [|done]. injection Hce as Hc _. unfold column_names.
    rewrite Hc. by apply He.
Qed.
(** A statement on another table. *)
Lemma keeps_other l f :
  touches l f -> "volumes" ∉ l -> "volume_events" ∉ l ->
  (forall d d', typed d -> f d = Ok d' -> typed d' /\ forall n, n ∈ l -> n <> "schema_version" -> kept n d d') ->
  keeps_rows f.
Proof.
  intros Hf Hv He Hk d d' Ht Hh H. destruct (Hk d d' Ht H) as [Ht' Hk']. split_and!; [done| |].
  - eapply historic_content; [done|by apply Hf..].
  - intros n Hn. destruct (decide (n ∈ l)) as [Hin|Hin]; [by apply Hk'|]. by apply kept_content, Hf.
Qed.
Lemma keeps_drop_index n : keeps_rows (drop_index n).
Proof.
  apply (keeps_other []); [auto with touches|set_solver..|].
  intros d d' Ht H. split; [by eapply typed_drop_index|]. by intros x ?%not_elem_of_nil.
Qed.
Lemma keeps_create_index i : keeps_rows (create_index i).
Proof.
  apply (keeps_other []); [auto with touches|set_solver..|].
  intros d d' Ht H. split; [by eapply typed_create_index|]. by intros x ?%not_elem_of_nil.
Qed.
Lemma keeps_recorded now v on : keeps_rows (recorded now v on).
Proof.
  apply (keeps_other ["schema_version"]); [auto with touches|set_solver..|].
  intros d d' Ht H. split; [by eapply typed_insert_named|]. by intros x ->%list_elem_of_singleton.
Qed.
Lemma keeps_created t on : t.1 <> "volumes" -> typed_table t.2 ->
  (t.1 = "volume_events" -> Forall (fun c => c ∈ event_columns) (column_names t.2)) -> keeps_rows (created t on).
Proof.
  intros Hv Htt He d d' Ht [Hh1 Hh2] H. split_and!.
  - by eapply typed_create.
  - constructor; intros t' Ht'; rewrite (find_create _ _ _ _ _ _ H) in Ht'.
    + destruct (find_table "volumes" d); [injection Ht' as ->; by apply Hh1|]. by rewrite decide_False in Ht'.
    + destruct (find_table "volume_events" d); [injection Ht' as ->; by apply Hh2|].
      case_decide; [|done]. injection Ht' as <-. by apply He.
  - intros n _. by eapply kept_create.
Qed.
Lemma keeps_added_unless cs n c on : n <> "volumes" -> n <> "volume_events" -> keeps_rows (added_unless cs n c on).
Proof.
  intros Hv He. unfold added_unless. destruct (negb _).
  - apply (keeps_other [n]); [apply touches_add_column; by left|set_solver..|].
    intros d d' Ht H. split; [by eapply typed_add_column|]. intros. by eapply kept_add_column.
  - intros d d' Ht Hh [= <-]. split_and!; [done..|]. intros. apply table_kept_refl.
Qed.
Lemma keeps_added n c on : n <> "volumes" -> n <> "volume_events" -> keeps_rows (added n c on).
Proof. intros Hv He d d'. by apply (keeps_added_unless (cols n d)). Qed.
Lemma keeps_added_or_created t c on : t.1 <> "volumes" -> t.1 <> "volume_events" -> typed_table t.2 ->
  keeps_rows (added_or_created t c on).
Proof.
  intros Hv He Ht d d'. unfold added_or_created. destruct (negb _); [by apply keeps_created|by apply keeps_added].
Qed.
(** The column of version 3. *)
Lemma keeps_verified_at on : keeps_rows (added "volumes" (col "verified_at") on).
Proof.
  intros d d' Ht Hh. unfold added, added_unless. destruct (negb _) eqn:E.
  2:{ intros [= <-]. split_and!; [done..|]. intros. apply table_kept_refl. }
  intros H. split_and!; [by eapply typed_add_column| |intros; by eapply kept_add_column].
  destruct Hh as [Hv He]. constructor; intros t Ht1.
  - pose proof H as (t0 & r & H0 & Hc & Hx & _)%(find_add_column _ _ _ _ "volumes").
    rewrite decide_True in Hx by done. rewrite Hx in Ht1. injection Ht1 as <-. left.
    destruct (Hv t0 H0) as [Hn|Hn]; [|by unfold column_names; cbn [columns]; rewrite fmap_app].
    exfalso. apply Hc. rewrite Hn. apply (bool_decide_unpack _). by vm_compute.
  - apply He. pose proof (touches_add_column ["volumes"] "volumes" (col "verified_at")) as Htouch.
    pose proof H as (t0 & r & H0 & Hc & Hx & _)%(find_add_column _ _ _ _ "volume_events").
    rewrite decide_False in Hx by done. congruence.
Qed.

(** *** The tables made anew *)

Lemma list_find_column (c : string) (l : list column) (row : list val) :
  (match list_find (fun x => col_name x = c) l with Some (i, _) => row !! i | None => None end : option val) =
  match list_find (fun x => x = c) (col_name <$> l) with Some (i, _) => row !! i | None => None end.
Proof. rewrite list_find_fmap. unfold compose. by destruct (list_find _ l) as [[i x]|]. Qed.
Lemma value_names t t' row c : column_names t = column_names t' -> value t row c = value t' row c.
Proof. intros H. unfold value. rewrite !list_find_column. unfold column_names in H. by rewrite H. Qed.
Lemma touched_content l f d d' n : touches l f -> f d = Ok d' -> n ∉ l -> content n d' = content n d.
Proof. intros Hf H. by apply Hf. Qed.
Lemma content_find n d t : content n d = Some (columns t, rows t) ->
  exists t', find_table n d = Some t' /\ columns t' = columns t /\ rows t' = rows t.
Proof. unfold content. destruct (find_table n d) as [t'|]; [|done]. intros [= ? ?]. by exists t'. Qed.
Lemma typed_in_turn l on d d' : (forall f d d', f ∈ l -> typed d -> f on d = Ok d' -> typed d') ->
  typed d -> in_turn l on d = Ok d' -> typed d'.
Proof.
  revert d. induction l as [|f l IH]; intros d Hl Ht; cbn [in_turn]; [by intros [= <-]|].
  intros H. apply bind_Ok_inv in H as (d1 & H1 & H). eapply IH, H.
  - intros g d2 d3 Hg. apply Hl. by right.
  - eapply Hl, H1; [by left|done].
Qed.

Lemma step_5_tables now d d' t : find_table "volumes" d = Some t -> in_turn (step_5 now) false d = Ok d' ->
  length (columns t) = length (columns SQL_CREATE_VOLUMES.2) /\
  content "volumes" d' = Some (columns SQL_CREATE_VOLUMES.2, rows t) /\
  forall n, n ∉ ["volumes"; "volumes_old"; "schema_version"] -> content n d' = content n d.
Proof.
  intros Ht H. split_and!.
  3:{ intros n Hn. eapply (touched_content ["volumes"; "volumes_old"; "schema_version"]), Hn; [|exact H].
      apply touches_in_turn. unfold step_5. repeat (apply Forall_cons; split; [auto with touches|]). apply Forall_nil_2. }
  all: apply (in_turn_app (take 4 (step_5 now)) (drop 4 (step_5 now))) in H as (d4 & H4 & H);
    cbn [take step_5 in_turn] in H4;
    apply bind_Ok_inv in H4 as (d1 & H1 & H4); apply bind_Ok_inv in H4 as (d2 & H2 & H4);
    apply bind_Ok_inv in H4 as (d3 & H3 & H4); apply bind_Ok_inv in H4 as (d5 & H5 & [= ->]);
    pose proof (find_rename _ _ _ _ "volumes_old" H1) as E1; pose proof (find_rename _ _ _ _ "volumes" H1) as E2;
    rewrite decide_True, Ht in E1 by done; cbn [fmap option_fmap option_map] in E1;
    rewrite decide_False, decide_True in E2 by done;
    pose proof (find_create _ _ _ _ _ "volumes_old" H2) as E3; pose proof (find_create _ _ _ _ _ "volumes" H2) as E4;
    rewrite E1 in E3; change (SQL_CREATE_VOLUMES.1) with "volumes" in E4; rewrite E2, decide_True in E4 by done;
    pose proof H3 as (t2 & s & F1 & F2 & F3 & E5)%(find_insert_all _ _ _ _ _ "volumes");
    rewrite E4 in F1; injection F1 as <-; rewrite E3 in F2; injection F2 as <-.
  - exact F3.
  - rewrite (touched_content ["schema_version"] (in_turn (drop 4 (step_5 now)) false) d4 d' "volumes");
      [|apply touches_in_turn; cbn [drop step_5]; repeat (apply Forall_cons; split; [auto with touches|]); apply Forall_nil_2
       |exact H|set_solver].
    unfold content. rewrite (find_drop _ _ _ "volumes" H5), decide_False, E5, decide_True by done. done.
Qed.
Lemma keeps_step_5 now : keeps_rows (in_turn (step_5 now) false).
Proof.
  intros d d' Ht Hh H. destruct (find_table "volumes" d) as [t|] eqn:Hv.
  2:{ exfalso. cbn [in_turn step_5] in H. apply bind_Ok_inv in H as (d1 & H1 & _). unfold rename_table in H1.
      apply bind_Ok_inv in H1 as (? & H1%get_table_Ok & _). congruence. }
  destruct (step_5_tables now d d' t Hv H) as (Hl & Hc & Hn).
  assert (column_names t = volume_columns) as Hnames.
  { destruct (historic_volumes _ Hh t Hv) as [|E]; [done|]. apply (f_equal length) in E.
    unfold volume_columns, column_names in E. rewrite length_app, !length_fmap, Hl in E. cbn in E. done. }
  split_and!.
  - eapply typed_in_turn, H; [|done]. intros f d1 d2 Hin Ht1. unfold step_5 in Hin.
    repeat (apply elem_of_cons in Hin as [->|Hin]); [..|by apply not_elem_of_nil in Hin].
    + apply typed_rename; done.
    + apply typed_create; [done|constructor].
    + apply typed_insert_all; done.
    + apply typed_drop; done.
    + apply typed_create_index; done.
    + apply typed_insert_named; done.
  - constructor; intros t' Ht'.
    + left. change volume_columns with (col_name <$> columns SQL_CREATE_VOLUMES.2). unfold column_names.
      unfold content in Hc. rewrite Ht' in Hc. by injection Hc as -> _.
    + assert (content "volume_events" d' = content "volume_events" d) as E by (apply Hn; set_solver).
      unfold content in E. rewrite Ht' in E. destruct (find_table "volume_events" d) as [t0|] eqn:E0; [|done].
      injection E as E _. unfold column_names. rewrite E. by apply (historic_events _ Hh).
  - intros n Hsv. destruct (decide (n = "volumes")) as [->|Hne].
    + intros t0 Ht0. rewrite Hv in Ht0. injection Ht0 as <-. unfold content in Hc.
      destruct (find_table "volumes" d') as [t'|]; [|done]. injection Hc as Hcc Hr. exists t'. split; [done|].
      unfold carried. rewrite Hr. apply Forall_Forall2_diag, Forall_forall. intros row _ c v.
      rewrite (value_names t t'); [done|]. rewrite Hnames. unfold column_names. by rewrite Hcc.
    + destruct (decide (n = "volumes_old")) as [->|Hno]; [|apply kept_content, Hn; set_solver].
      intros t0 Ht0. exfalso. cbn [in_turn step_5] in H. apply bind_Ok_inv in H as (d1 & H1 & _).
      unfold rename_table in H1. stmt_inv H1. congruence.
Qed.

Lemma dict_get_tabulate {V} (f : string -> V) names c : c ∈ names ->
  dict_get c ((fun x => (x, f x)) <$> names) = Some (f c).
Proof.
  induction 1 as [|x l Hin IH]; csimpl; cbn [dict_get]; [by rewrite decide_True|].
  case_decide; [by subst|done].
Qed.
Lemma value_in t row c v : value t row c = Some v -> c ∈ column_names t.
Proof.
  unfold value. destruct (list_find _ _) as [[i x]|] eqn:E; [|done].
  apply list_find_Some in E as (Hi & <- & _). intros _. apply list_elem_of_fmap_2. by apply list_elem_of_lookup_2 in Hi.
Qed.

Lemma step_6_tables now d d' t : find_table "volume_events" d = Some t -> in_turn (step_6 now) false d = Ok d' ->
  (exists rs, content "volume_events" d' = Some (columns SQL_CREATE_VOLUME_EVENTS.2, rs) /\
     rs = (fun row => complete_row now SQL_CREATE_VOLUME_EVENTS.2 (select_columns event_columns t row)) <$> rows t) /\
  forall n, n ∉ ["volume_events"; "volume_events_old"; "schema_version"] -> content n d' = content n d.
Proof.
  intros Ht H. split.
  2:{ intros n Hn. eapply (touched_content ["volume_events"; "volume_events_old"; "schema_version"]), Hn; [|exact H].
      apply touches_in_turn. unfold step_6. repeat (apply Forall_cons; split; [auto with touches|]). apply Forall_nil_2. }
  eexists. split; [|reflexivity].
  apply (in_turn_app (take 4 (step_6 now)) (drop 4 (step_6 now))) in H as (d4 & H4 & H).
  cbn [take step_6 in_turn] in H4.
  apply bind_Ok_inv in H4 as (d1 & H1 & H4). apply bind_Ok_inv in H4 as (d2 & H2 & H4).
  apply bind_Ok_inv in H4 as (d3 & H3 & H4). apply bind_Ok_inv in H4 as (d5 & H5 & [= ->]).
  pose proof (find_rename _ _ _ _ "volume_events_old" H1) as E1.
  pose proof (find_rename _ _ _ _ "volume_events" H1) as E2.
  rewrite decide_True, Ht in E1 by done. cbn [fmap option_fmap option_map] in E1.
  rewrite decide_False, decide_True in E2 by done.
  pose proof (find_create _ _ _ _ _ "volume_events_old" H2) as E3.
  pose proof (find_create _ _ _ _ _ "volume_events" H2) as E4.
  rewrite E1 in E3. change (SQL_CREATE_VOLUME_EVENTS.1) with "volume_events" in E4. rewrite E2, decide_True in E4 by done.
  pose proof (find_insert_select _ _ _ _ _ _ _ "volume_events" H3 _ E4) as (s & F2 & F3 & E5).
  rewrite E3 in F2. injection F2 as <-.
  rewrite (touched_content ["schema_version"] (in_turn (drop 4 (step_6 now)) false) d4 d' "volume_events");
    [|apply touches_in_turn; cbn [drop step_6]; repeat (apply Forall_cons; split; [auto with touches|]); apply Forall_nil_2
     |exact H|set_solver].
  unfold content. rewrite (find_drop _ _ _ "volume_events" H5), decide_False, E5, decide_True by done. done.
Qed.
Lemma keeps_step_6 now : keeps_rows (in_turn (step_6 now) false).
Proof.
  intros d d' Ht Hh H. destruct (find_table "volume_events" d) as [t|] eqn:Hv.
  2:{ exfalso. cbn [in_turn step_6] in H. apply bind_Ok_inv in H as (d1 & H1 & _). unfold rename_table in H1.
      apply bind_Ok_inv in H1 as (? & H1%get_table_Ok & _). congruence. }
  destruct (step_6_tables now d d' t Hv H) as ((rs & Hc & Hrs) & Hn). split_and!.
  - eapply typed_in_turn, H; [|done]. intros f d1 d2 Hin Ht1. unfold step_6 in Hin.
    repeat (apply elem_of_cons in Hin as [->|Hin]); [..|by apply not_elem_of_nil in Hin].
    + apply typed_rename; done.
    + apply typed_create; [done|constructor].
    + apply typed_insert_select; done.
    + apply typed_drop; done.
    + apply typed_create_index; done.
    + apply typed_create_index; done.
    + apply typed_create_index; done.
    + apply typed_insert_named; done.
  - constructor; intros t' Ht'.
    + assert (content "volumes" d' = content "volumes" d) as E by (apply Hn; set_solver).
      unfold content in E. rewrite Ht' in E. destruct (find_table "volumes" d) as [t0|] eqn:E0; [|done].
      injection E as E _. unfold column_names. rewrite E. by apply (historic_volumes _ Hh).
    + unfold content in Hc. rewrite Ht' in Hc. injection Hc as Hc _. unfold column_names. rewrite Hc.
      apply (bool_decide_unpack _). by vm_compute.
  - intros n Hsv. destruct (decide (n = "volume_events")) as [->|Hne].
    + intros t0 Ht0. rewrite Hv in Ht0. injection Ht0 as <-. unfold content in Hc.
      destruct (find_table "volume_events" d') as [t'|]; [|done]. injection Hc as Hcc Hr. exists t'. split; [done|].
      unfold carried. rewrite Hr, Hrs. apply Forall2_fmap_r, Forall_Forall2_diag, Forall_forall.
      intros row _ c v Hval. pose proof (value_in _ _ _ _ Hval) as Hin.
      pose proof (historic_events _ Hh t Hv) as He. rewrite Forall_forall in He. apply He in Hin.
      destruct (value_complete_row now SQL_CREATE_VOLUME_EVENTS.2 (select_columns event_columns t row) c Hin)
        as (x & _ & _ & Hx).
      rewrite (value_columns t' SQL_CREATE_VOLUME_EVENTS.2), Hx by done. unfold select_columns.
      rewrite (dict_get_tabulate (fun c => match value t row c with Some v => v | None => Null end)) by done.
      by rewrite Hval.
    + destruct (decide (n = "volume_events_old")) as [->|Hno]; [|apply kept_content, Hn; set_solver].
      intros t0 Ht0. exfalso. cbn [in_turn step_6] in H. apply bind_Ok_inv in H as (d1 & H1 & _).
      unfold rename_table in H1. stmt_inv H1. congruence.
Qed.

(** *** Every step, and the whole migration *)

Lemma keeps_step_4_columns on : keeps_rows ((fun on d => let cs := cols "volume_copies" d in
      in_turn [added_unless cs "volume_copies" (col "iso_sha256");
               added_unless cs "volume_copies" (col "last_verified_at");
               added_unless cs "volume_copies" (required_default "media_serial" (text ""))] on d) on).
Proof.
  intros d d'. apply (keeps_in_turn [added_unless (cols "volume_copies" d) "volume_copies" (col "iso_sha256");
    added_unless (cols "volume_copies" d) "volume_copies" (col "last_verified_at");
    added_unless (cols "volume_copies" d) "volume_copies" (required_default "media_serial" (text ""))]).
  repeat (apply Forall_cons; split; [by apply keeps_added_unless|]). apply Forall_nil_2.
Qed.
Lemma typed_empty c u k r : typed_table (empty_table c u k r).
Proof. constructor. Qed.
Lemma steps_keep_rows now v f : (v, f) ∈ steps now -> keeps_rows f.
Proof.
  apply (steps_cases now keeps_rows); [| |apply keeps_step_5|apply keeps_step_6|..]; apply keeps_in_turn;
    cbn [step_3 step_4 step_7 step_8 step_9 step_10];
    repeat (apply Forall_cons; split;
      [first [ apply keeps_recorded | apply keeps_drop_index | apply keeps_create_index | apply keeps_verified_at
             | apply keeps_step_4_columns | solve [by apply keeps_added]
             | solve [apply keeps_added_or_created; [done|done|apply typed_empty]]
             | solve [apply keeps_created; [done|apply typed_empty|intros _; apply (bool_decide_unpack _); by vm_compute]]
             | solve [apply keeps_created; [done|apply typed_empty|discriminate]] ]|]); apply Forall_nil_2.
Qed.
Lemma upgrade_keeps_rows now current l d ds e :
  (forall v f, (v, f) ∈ l -> (v, f) ∈ steps now) -> typed d -> historic d -> upgrade current l d = (ds, e) ->
  typed (List.last ds d) /\ forall n, n <> "schema_version" -> kept n d (List.last ds d).
Proof.
  revert d ds. induction l as [|[v f] l IH]; intros d ds Hl Ht Hh H; cbn [upgrade] in H.
  { injection H as <- <-. split; [done|]. intros. apply table_kept_refl. }
  assert (forall v f, (v, f) ∈ l -> (v, f) ∈ steps now) as Hl' by (intros; apply Hl; by right).
  destruct (current <? v); [|by eapply IH].
  destruct (f d) as [d1|] eqn:Hf.
  2:{ injection H as <- <-. split; [done|]. intros. apply table_kept_refl. }
  destruct (upgrade current l d1) as [ds1 e1] eqn:Hup. injection H as <- <-.
  destruct (steps_keep_rows now v f (Hl v f ltac:(by left)) d d1 Ht Hh Hf) as (Ht1 & Hh1 & Hk).
  destruct (IH d1 ds1 Hl' Ht1 Hh1 Hup) as [Ht2 Hk2]. rewrite last_cons_default. split; [done|].
  intros n Hn. eapply table_kept_trans; [by apply Hk|by apply Hk2].
Qed.

(** C13.  Migrating keeps every row: in every table of the old catalog but the one of
    versions, each row is still in its place with the value of each of its columns, and
    the catalog stays typed, whether or not the migration succeeds. *)
Theorem migrate_keeps_rows now d :
  typed d -> historic d ->
  typed (image (migrate now (connect d)).2) /\
  forall n t, n <> "schema_version" -> find_table n d = Some t ->
  exists t', find_table n (image (migrate now (connect d)).2) = Some t' /\ carried t t'.
Proof.
  intros Ht Hh. enough (typed (image (migrate now (connect d)).2) /\
    forall n, n <> "schema_version" -> kept n d (image (migrate now (connect d)).2)) as [? Hk]
    by (split; [done|]; intros n t Hn; by apply Hk).
  destruct (migrate_cases now d) as [E|(ds & e & Hup & E)]; rewrite E.
  - split; [done|]. intros. apply table_kept_refl.
  - by eapply (upgrade_keeps_rows now _ (steps now)).
Qed.

(** ** References *)

Definition refers (n o : string) (d : database) : Prop :=
  exists t, find_table n d = Some t /\ Exists (fun r => parent r = o) (references t).
Definition keeps_ref (n o : string) (f : database -> res database) : Prop :=
  forall d d', refers n o d -> f d = Ok d' -> refers n o d'.

Create HintDb references.
Section references.
Variables n o : string.

Lemma ref_ret : keeps_ref n o (fun d => Ok d).
Proof. by intros d d' H [= <-]. Qed.
Lemma ref_in_turn l on : Forall (fun f => keeps_ref n o (f on)) l -> keeps_ref n o (in_turn l on).
Proof.
  induction 1 as [|f l Hf _ IH]; intros d d' Hr; cbn [in_turn]; [by intros [= <-]|].
  intros H. apply bind_Ok_inv in H as (d1 & H1 & H). eapply IH, H. by eapply Hf.
Qed.
Lemma ref_create b m t : keeps_ref n o (create_table b m t).
Proof. intros d d' (t' & Ht & Hr) H. exists t'. split; [|done]. by rewrite (find_create _ _ _ _ _ n H), Ht. Qed.
Lemma ref_create_index i : keeps_ref n o (create_index i).
Proof. intros d d' (t' & Ht & Hr) H. exists t'. split; [|done]. by rewrite (find_create_index _ _ _ n H). Qed.
Lemma ref_drop_index m : keeps_ref n o (drop_index m).
Proof. intros d d' (t' & Ht & Hr) H. exists t'. split; [|done]. by rewrite (find_drop_index _ _ _ n H). Qed.
Lemma ref_drop m : n <> m -> keeps_ref n o (drop_table m).
Proof. intros Hn d d' (t' & Ht & Hr) H. exists t'. split; [|done]. by rewrite (find_drop _ _ _ n H), decide_False. Qed.
Lemma ref_rename a b : n <> a -> o <> a -> keeps_ref n o (rename_table a b).
Proof.
  intros Hn Ho d d' (t' & Ht & Hr) H. pose proof (find_rename _ _ _ _ n H) as E.
  destruct (decide (n = b)) as [->|Hb].
  - exfalso. unfold rename_table in H. stmt_inv H. congruence.
  - rewrite decide_False, Ht in E by done. eexists. split; [exact E|]. cbn [references retarget].
    apply Exists_fmap. eapply Exists_impl; [exact Hr|]. intros r Hp. cbn.
    rewrite Hp. by apply String.eqb_neq in Ho as ->.
Qed.
Lemma ref_add_column m c : keeps_ref n o (add_column m c).
Proof.
  intros d d' (t' & Ht & Hr) H. pose proof H as (t & r & Hm & _ & Hx & _)%(find_add_column _ _ _ _ n).
  case_decide; [subst; rewrite Hm in Ht; injection Ht as ->; by eexists|]. exists t'. by rewrite Hx.
Qed.
Lemma ref_insert_named on now m named : keeps_ref n o (insert_named on now m named).
Proof.
  intros d d' (t' & Ht & Hr) H. pose proof H as (t & Hm & Hx)%(find_insert_named _ _ _ _ _ _ n).
  case_decide; [subst; rewrite Hm in Ht; injection Ht as ->; by eexists|]. exists t'. by rewrite Hx.
Qed.
Lemma ref_foldM {A} (ins : database -> A -> res database) l :
  (forall x, keeps_ref n o (fun d => ins d x)) -> keeps_ref n o (fun d => foldM ins d l).
Proof.
  intros Hins. induction l as [|x l IH]; intros d d' Hr; cbn [foldM]; [by intros [= <-]|].
  intros H. apply bind_Ok_inv in H as (d1 & H1 & H). eapply IH, H. by eapply Hins.
Qed.
Lemma ref_insert_select on now m names src : keeps_ref n o (insert_select on now m names src).
Proof.
  intros d d' Hr H. unfold insert_select in H. stmt_inv H. eapply ref_foldM, H; [|done].
  intros row. apply ref_insert_named.
Qed.
Lemma ref_insert_all on m src : keeps_ref n o (insert_select_all on m src).
Proof.
  intros d d' Hr H. unfold insert_select_all in H. stmt_inv H. eapply ref_foldM, H; [|done].
  intros row d1 d2 (t' & Ht & Hrt) H1. pose proof H1 as (t & Hm & _ & Hx)%(find_insert_row _ _ _ _ _ n).
  case_decide; [subst; rewrite Hm in Ht; injection Ht as ->; by eexists|]. exists t'. by rewrite Hx.
Qed.
Lemma ref_added_unless cs m c on : keeps_ref n o (added_unless cs m c on).
Proof. unfold added_unless. destruct (negb _); [apply ref_add_column|apply ref_ret]. Qed.
Lemma ref_added m c on : keeps_ref n o (added m c on).
Proof. intros d d'. apply ref_added_unless. Qed.
Lemma ref_added_or_created t c on : keeps_ref n o (added_or_created t c on).
Proof. intros d d'. unfold added_or_created. destruct (negb _); [apply ref_create|apply ref_added]. Qed.
Lemma ref_step_4_columns on : keeps_ref n o ((fun on d => let cs := cols "volume_copies" d in
      in_turn [added_unless cs "volume_copies" (col "iso_sha256");
               added_unless cs "volume_copies" (col "last_verified_at");
               added_unless cs "volume_copies" (required_default "media_serial" (text ""))] on d) on).
Proof.
  intros d d'. apply (ref_in_turn [added_unless (cols "volume_copies" d) "volume_copies" (col "iso_sha256");
    added_unless (cols "volume_copies" d) "volume_copies" (col "last_verified_at");
    added_unless (cols "volume_copies" d) "volume_copies" (required_default "media_serial" (text ""))]).
  repeat (apply Forall_cons; split; [apply ref_added_unless|]). apply Forall_nil_2.
Qed.
End references.
#[export] Hint Resolve ref_ret ref_create_index ref_drop_index ref_add_column ref_insert_named ref_insert_select
  ref_insert_all ref_added_unless ref_added ref_added_or_created ref_step_4_columns : references.
#[export] Hint Extern 1 (keeps_ref _ _ (create_table _ _ _)) => (apply ref_create) : references.
#[export] Hint Extern 1 (keeps_ref _ _ (created _ _)) => (apply ref_create) : references.
#[export] Hint Extern 1 (keeps_ref _ _ (recorded _ _ _)) => (apply ref_insert_named) : references.
#[export] Hint Extern 1 (keeps_ref _ _ (drop_table _)) => (apply ref_drop; congruence) : references.
#[export] Hint Extern 1 (keeps_ref _ _ (rename_table _ _)) => (apply ref_rename; congruence) : references.
Ltac ref_all := apply ref_in_turn; cbn [take drop step_3 step_4 step_5 step_6 step_7 step_8 step_9 step_10];
  repeat (apply Forall_cons; split; [auto with references|]); apply Forall_nil_2.

(** The step to version 5 turns references to the volumes into references to the table
    that it drops. *)
Lemma step_5_dangles now n d d' : n <> "volumes" -> n <> "volumes_old" ->
  refers n "volumes" d -> in_turn (step_5 now) false d = Ok d' -> refers n "volumes_old" d'.
Proof.
  intros Hv Ho (t & Ht & Hr) H. apply (in_turn_app (take 1 (step_5 now)) (drop 1 (step_5 now))) in H as (d1 & H1 & H).
  cbn [take step_5 in_turn] in H1. apply bind_Ok_inv in H1 as (d2 & H1 & [= ->]).
  assert (refers n "volumes_old" d1) as Hr1.
  { pose proof (find_rename _ _ _ _ n H1) as E. rewrite !decide_False, Ht in E by done.
    eexists. split; [exact E|]. cbn [references retarget]. apply Exists_fmap.
    eapply Exists_impl; [exact Hr|]. intros r Hp. cbn. by rewrite Hp. }
  revert H. revert Hr1. apply ref_in_turn. cbn [drop step_5].
  repeat (apply Forall_cons; split; [auto with references|]). apply Forall_nil_2.
Qed.
Lemma upgrade_refs n o current l : Forall (fun x => keeps_ref n o x.2) l -> forall d ds,
  refers n o d -> upgrade current l d = (ds, None) -> refers n o (List.last ds d).
Proof.
  induction 1 as [|[v f] l Hf _ IH]; intros d ds Hr H; cbn [upgrade] in H; [by injection H as <-|].
  destruct (current <? v); [|by apply IH].
  destruct (f d) as [d1|] eqn:E; [|done]. destruct (upgrade current l d1) as [ds1 e1] eqn:Hup.
  injection H as <- ->. rewrite last_cons_default. apply IH; [|done]. by eapply Hf.
Qed.
Lemma upgrade_cons_None current v f l d ds : current < v -> upgrade current ((v, f) :: l) d = (ds, None) ->
  exists d1 ds1, f d = Ok d1 /\ upgrade current l d1 = (ds1, None) /\ List.last ds d = List.last ds1 d1.
Proof.
  intros Hv%Z.ltb_lt. cbn [upgrade]. rewrite Hv. destruct (f d) as [d1|]; [|done].
  destruct (upgrade current l d1) as [ds1 e1] eqn:Hup. intros [= <- ->]. exists d1, ds1.
  by rewrite last_cons_default.
Qed.
Lemma upgrade_app_None current l1 l2 : forall d ds, upgrade current (l1 ++ l2) d = (ds, None) ->
  exists ds1 ds2, upgrade current l1 d = (ds1, None) /\ upgrade current l2 (List.last ds1 d) = (ds2, None) /\
    List.last ds d = List.last ds2 (List.last ds1 d).
Proof.
  induction l1 as [|[v f] l1 IH]; intros d ds; cbn [app]; [by exists [], ds|].
  destruct (Z.ltb_spec current v) as [Hv|Hv].
  - intros (d1 & ds' & Hf & Hup & Hl)%upgrade_cons_None; [|done].
    apply IH in Hup as (ds1 & ds2 & H1 & H2 & H3). exists (d1 :: ds1), ds2. cbn [upgrade].
    rewrite (proj2 (Z.ltb_lt _ _) Hv), Hf, H1, last_cons_default, Hl, H3. done.
  - cbn [upgrade]. rewrite (proj2 (Z.ltb_ge _ _) Hv). apply IH.
Qed.
Lemma insert_dangling n row d o : refers n o d -> find_table o d = None ->
  insert_row true n row d = Err SqliteOperationalError.
Proof.
  intros (t & Ht & Hr) Ho. unfold insert_row. unfold get_table. rewrite Ht. cbn [of_option]. rewrite bind_Ok.
  destruct (negb (bool_decide _)); [done|]. cbn [raise_if]. rewrite bind_Ok. cbn [andb].
  replace (forallb (fun r => has_table (parent r) d) (references t)) with false; [done|].
  symmetry. apply not_true_iff_false. rewrite forallb_forall. intros H.
  apply Exists_exists in Hr as (r & Hin & Hp). apply list_elem_of_In, H, has_table_true in Hin as [t' Ht'].
  rewrite Hp in Ht'. congruence.
Qed.
Lemma upgrade_unwedged now current l : forall d ds e,
  (forall v f, (v, f) ∈ l -> (v, f) ∈ steps now) -> unwedged d -> upgrade current l d = (ds, e) ->
  unwedged (List.last ds d).
Proof.
  induction l as [|[v f] l IH]; intros d ds e Hl Hu H; cbn [upgrade] in H; [by injection H as <- _|].
  assert (forall v f, (v, f) ∈ l -> (v, f) ∈ steps now) as Hl' by (intros w g Hw; eapply Hl; by right).
  destruct (current <? v); [|by eapply IH].
  destruct (f d) as [d1|] eqn:Hf; [|by injection H as <- _]. destruct (upgrade current l d1) as [ds1 e1] eqn:Hup.
  injection H as <- <-. rewrite last_cons_default. eapply IH; [done| |done].
  eapply steps_unwedged, Hu; [|exact Hf]. apply Hl. by left.
Qed.
(** What a migration that returns started from. *)
Lemma migrate_returns now d v s' : migrate now (connect d) = (Ok v, s') -> schema_version d < CURRENT_SCHEMA_VERSION ->
  unwedged d /\ exists ds, upgrade (schema_version d) (steps now) d = (ds, None) /\ image s' = List.last ds d.
Proof.
  intros H Hv. destruct (decide (List.filter is_leftover (tables d).*1 = [])) as [Hu%leftovers_unwedged|Hl].
  2:{ unfold migrate in H. rewrite (eff_bind_Err _ _ _ WedgedMigrationError (connect d)) in H; [done|].
      apply refuse_wedged. by rewrite <- leftovers_unwedged. }
  split; [done|]. pose proof (migrate_spec now (connect d) (connect_settled d) Hu Hv) as Hm.
  change (image (connect d)) with d in Hm. destruct (upgrade _ _ _) as [ds [e|]]; rewrite H in Hm.
  - by destruct Hm.
  - exists ds. split; [done|]. by destruct Hm as (_ & _ & ? & _).
Qed.

(** C14.  In a catalog of version 4 or older that has been migrated, with foreign keys
    enforced as the program does, an INSERT of any row fails in every table that refers to
    the volumes, the packs on volumes, the discs and the volumes of sessions among them,
    since its foreign key now refers to [volumes_old], which is gone.  The exceptions are the
    two tables that the migration makes anew, the volumes and their events. *)
Theorem migrated_references_dangle now d v s' n :
  migrate now (connect d) = (Ok v, s') -> schema_version d < 5 ->
  n ∉ ["volumes"; "volumes_old"; "volume_events"; "volume_events_old"] -> refers n "volumes" d ->
  forall row, insert_row true n row (image s') = Err SqliteOperationalError.
Proof.
  intros H Hv Hn Hr row. rewrite !not_elem_of_cons in Hn. destruct Hn as (Hn1 & Hn2 & Hn3 & Hn4 & _).
  destruct (migrate_returns now d v s' H ltac:(unfold CURRENT_SCHEMA_VERSION; lia)) as (Hu & ds & Hup & ->).
  apply (insert_dangling _ _ _ "volumes_old").
  2:{ eapply (upgrade_unwedged now) in Hup; [by apply Hup|done|done]. }
  apply (upgrade_app_None _ (take 2 (steps now)) (drop 2 (steps now))) in Hup as (ds1 & ds2 & Hup1 & Hup2 & ->).
  apply (upgrade_cons_None _ _ _ (drop 3 (steps now))) in Hup2 as (d5 & ds5 & H5 & Hup5 & ->); [|done].
  eapply (upgrade_refs n "volumes_old" _ (drop 3 (steps now))); [|eapply step_5_dangles, H5; [done..|]|exact Hup5].
  - repeat (apply Forall_cons; split; [cbn [snd]; ref_all|]). apply Forall_nil_2.
  - eapply (upgrade_refs n "volumes" _ (take 2 (steps now))); [|done|exact Hup1].
    repeat (apply Forall_cons; split; [cbn [snd]; ref_all|]). apply Forall_nil_2.
Qed.

(** A catalog of version 2 that holds a repository cannot be migrated: the column of
    version 3 has CURRENT_TIMESTAMP as its default, which SQLite refuses to add to a table
    with rows.  The catalog is left as it was. *)
Theorem version_2_refused now d t :
  unwedged d -> schema_version d < 3 -> find_table "repositories" d = Some t -> rows t <> [] ->
  "created_at" ∉ column_names t ->
  exists s', migrate now (connect d) = (Err SqliteOperationalError, s') /\ image s' = d /\ on_disk s' = [d].
Proof.
  intros Hu Hv Ht Hrows Hc.
  pose proof (migrate_spec now (connect d) (connect_settled d) Hu ltac:(cbn; unfold CURRENT_SCHEMA_VERSION; lia)) as Hm.
  change (image (connect d)) with d in Hm.
  assert (in_turn (step_3 now) true d = Err SqliteOperationalError) as H3.
  { cbn [in_turn step_3].
    assert (forall d1, (exists t1, find_table "repositories" d1 = Some t1 /\ column_names t1 = column_names t /\ rows t1 = rows t) ->
      added "repositories" (required_default "created_at" Now) true d1 = Err SqliteOperationalError) as Hrep.
    { intros d1 (t1 & Ht1 & Hc1 & Hr1). unfold added, added_unless, cols. rewrite Ht1. cbn [col_name required_default].
      unfold has. rewrite Hc1, (bool_decide_eq_false_2 _ Hc). cbn [negb]. unfold add_column, get_table. rewrite Ht1.
      cbn [of_option]. rewrite bind_Ok. cbn [col_name]. rewrite Hc1, (bool_decide_eq_false_2 _ Hc). cbn [raise_if].
      rewrite bind_Ok. cbn [added_value not_null col_default]. rewrite Hr1. by rewrite (bool_decide_eq_false_2 _ Hrows). }
    destruct (added "volumes" _ _ d) as [d1|e] eqn:E.
    - rewrite bind_Ok, Hrep; [done|].
      assert (content "repositories" d1 = content "repositories" d) as Ec.
      { eapply (touched_content ["volumes"]); [apply touches_added; by left|exact E|set_solver]. }
      unfold content in Ec. rewrite Ht in Ec. destruct (find_table "repositories" d1) as [t1|]; [|done].
      injection Ec as Ec Er. exists t1. unfold column_names. by rewrite Ec.
    - cbn. f_equal. unfold added, added_unless in E. destruct (negb _); [|done]. by eapply add_column_error. }
  unfold steps in Hm. cbn [upgrade] in Hm. rewrite (proj2 (Z.ltb_lt _ _) Hv), H3 in Hm.
  destruct (migrate now (connect d)) as [r s']. destruct Hm as (-> & Hd & Hi & _). exists s'. by split_and!.
Qed.

(** ** Two old catalogs *)

Definition drop_columns (names : list string) (t : string * table) : string * table :=
  (t.1, mkTable (List.filter (fun c => negb (has (col_name c) names)) (columns t.2)) (unique t.2) (check_in t.2)
          (references t.2) (rows t.2)).
Definition with_rows (r : list (list val)) (t : string * table) : string * table := (t.1, set_rows t.2 r).
(** As a build of version 4 made it, with a repository, a volume and a pack. *)
Definition catalog_4 : database := mkDatabase
  [with_rows [[IntV 4; TextV "2025-01-01"]] SQL_CREATE_SCHEMA_VERSION;
   with_rows [[IntV 1; TextV "LCSAS_BD25_0001"; TextV "u1"; TextV "BD25"; IntV 25000000000; IntV 7; TextV "Home_Shelf";
               TextV "VERIFIED"; TextV "2025-01-02"; Null; TextV "2025-01-03"]] SQL_CREATE_VOLUMES;
   with_rows [[TextV "r1"; TextV "family"; TextV "/mnt/mirror/family"; TextV ""; TextV "2025-01-01"]]
     (drop_columns ["status"] SQL_CREATE_REPOSITORIES);
   with_rows [[IntV 1; TextV "ab"; IntV 7; TextV "r1"; IntV 0; TextV "2025-01-01"]] SQL_CREATE_PACKS;
   SQL_CREATE_VOLUME_PACKS; SQL_CREATE_SNAPSHOTS; SQL_CREATE_LOCATIONS;
   drop_columns ["iso_size_bytes"] SQL_CREATE_VOLUME_COPIES; SQL_CREATE_BURN_SESSIONS;
   drop_columns ["iso_size_bytes"] SQL_CREATE_SESSION_VOLUMES;
   with_rows [[IntV 1; IntV 1; TextV "VERIFY_PASS"; TextV "2025-01-03"; Null; TextV ""]] SQL_CREATE_VOLUME_EVENTS]
  [mkIndex "idx_volumes_status" "volumes" ["status"]].
(** As a build of version 2 made it. *)
Definition catalog_2 : database := mkDatabase
  [with_rows [[IntV 2; TextV "2024-01-01"]] SQL_CREATE_SCHEMA_VERSION;
   drop_columns ["verified_at"] SQL_CREATE_VOLUMES;
   with_rows [[TextV "r1"; TextV "family"; TextV "/mnt/mirror/family"; TextV ""]]
     (drop_columns ["status"; "created_at"] SQL_CREATE_REPOSITORIES)] [].

Definition migrated_4 : session := Eval vm_compute in (migrate "2026-01-01" (connect catalog_4)).2.
Lemma migrated_4_returns : migrate "2026-01-01" (connect catalog_4) = (Ok 10, migrated_4).
Proof. vm_compute. reflexivity. Qed.

(** Before the migration the pack can be put on the volume; afterwards it cannot. *)
Lemma migrated_references_dangle_witness :
  is_ok (insert_row true "volume_packs" [IntV 1; IntV 1] catalog_4) = true /\
  insert_row true "volume_packs" [IntV 1; IntV 1] (image migrated_4) = Err SqliteOperationalError.
Proof.
  split; [by vm_compute|].
  apply (migrated_references_dangle "2026-01-01" catalog_4 10 migrated_4 "volume_packs").
  - exact migrated_4_returns.
  - by vm_compute.
  - apply (bool_decide_unpack _). by vm_compute.
  - eexists. split; [by vm_compute|]. apply Exists_cons. left. by vm_compute.
Defined.
Lemma version_2_refused_witness :
  exists s', migrate "2026-01-01" (connect catalog_2) = (Err SqliteOperationalError, s') /\
    image s' = catalog_2 /\ on_disk s' = [catalog_2].
Proof.
  eapply (version_2_refused "2026-01-01" catalog_2).
  - apply leftovers_unwedged. by vm_compute.
  - by vm_compute.
  - by vm_compute.
  - by vm_compute.
  - apply (bool_decide_unpack _). by vm_compute.
Defined.
Lemma catalog_4_typed : typed catalog_4.
Proof.
  constructor; [apply (bool_decide_unpack _); by vm_compute|].
  intros n t H. apply dict_get_in in H. revert H. cbn [tables catalog_4].
  assert (Forall (fun x => typed_table x.2) (tables catalog_4)) as Hall by (apply (bool_decide_unpack _); by vm_compute).
  rewrite Forall_forall in Hall. intros H. exact (Hall _ H).
Qed.
Lemma catalog_4_historic : historic catalog_4.
Proof.
  constructor; intros t H; vm_compute in H; injection H as <-; [left; by vm_compute|].
  apply (bool_decide_unpack _). by vm_compute.
Qed.
Lemma migrate_keeps_rows_witness : exists t',
  find_table "volumes" (image migrated_4) = Some t' /\ value t' (List.hd [] (rows t')) "label" = Some (TextV "LCSAS_BD25_0001").
Proof.
  destruct (migrate_keeps_rows "2026-01-01" catalog_4 catalog_4_typed catalog_4_historic) as [_ H].
  destruct (H "volumes" (with_rows [[IntV 1; TextV "LCSAS_BD25_0001"; TextV "u1"; TextV "BD25"; IntV 25000000000; IntV 7;
    TextV "Home_Shelf"; TextV "VERIFIED"; TextV "2025-01-02"; Null; TextV "2025-01-03"]] SQL_CREATE_VOLUMES).2)
    as (t' & Ht' & Hc); [done|by vm_compute|].
  exists t'. split; [exact Ht'|]. inversion Hc as [|x y l l' Hxy Hl Hx Hy]; subst. by apply (Hxy "label").
Defined.
(** A crash after the step to version 6, say: migrating again ends in the same catalog. *)
Lemma migrate_crash_resume_witness : exists d s'',
  d ∈ on_disk migrated_4 /\ schema_version d = 6 /\ migrate "2026-01-01" (connect d) = (Ok 10, s'') /\
  image s'' = image migrated_4.
Proof.
  destruct (on_disk migrated_4 !! 4%nat) as [d|] eqn:E; [|by vm_compute in E].
  pose proof (list_elem_of_lookup_2 _ _ _ E) as Hin.
  destruct (migrate_crash_resume "2026-01-01" catalog_4 migrated_4 10 migrated_4_returns d Hin) as (s'' & H & Hi).
  exists d, s''. split_and!; [exact Hin| |exact H|exact Hi]. vm_compute in E. injection E as <-. by vm_compute.
Defined.

(** A new catalog has the current schema. *)
Example new_catalog : exists s, ensure_schema "2026-01-01" (connect new_database) = (Ok 10, s) /\
  schema_version (image s) = 10 /\ open_tx s = false /\
  (tables (image s)).*1 = ["schema_version"; "volumes"; "repositories"; "packs"; "volume_packs"; "snapshots";
    "locations"; "volume_copies"; "burn_sessions"; "session_volumes"; "volume_events"; "key_escrow"].
Proof. eexists. split; [by vm_compute|]. by vm_compute. Qed.
