(* ===== verification/Posix.v ===== *)
(** * Paths and the file system

    [pathlib] paths of POSIX flavour and the calls of [os] and [pathlib] that a
    restore makes.  Paths here are absolute: lists of names from the root.  Files are
    reached through inodes, so that hard links share their content.  Permissions,
    times and extended attributes of files are not part of the state.

    The file system is an ideal one in what it refuses: names and paths have no greatest
    length (no ENAMETOOLONG, also for a name with ".lcsas-partial" behind it), every
    directory may be searched and written (no EACCES), the disk does not fill up, and texts
    hold no NUL byte (no [ValueError] from [os]).  Where a loop of links is resolved,
    [resolve] raises [RuntimeError], as Python up to 3.12 does; from 3.13 on it is an
    [OSError]. *)

From Stdlib Require Import Ascii.
From S2P Require Import Prelude PyString PyText Json Effects.
Open Scope string_scope.
Open Scope list_scope.
Open Scope Z_scope.

(** ** Paths *)

Abbreviation path := (list string) (only parsing).

(** The components of a path text: [Path] drops empty ones and ".". *)
Definition components (s : string) : list string :=
  List.filter (fun c => negb (String.eqb c "") && negb (String.eqb c ".")) (split_on "/"%char s).
Definition is_absolute (s : string) : bool := String.prefix "/" s.
(** [Path(s).name] *)
Definition path_name (s : string) : string := List.last (components s) EmptyString.

(** ** State *)

Inductive entry :=
  | Dir
  | File (inode : positive)
  | Link (target : string).
Record fs := FS { entries_ : gmap path entry; inodes : gmap positive bytes }.

#[export] Instance entry_eq_dec : EqDecision entry.
Proof. solve_decision. Defined.

Definition lookup_entry (f : fs) (p : path) : option entry :=
  match p with [] => Some Dir | _ => entries_ f !! p end.
Definition set_entry (f : fs) (p : path) (e : entry) : fs := FS (<[p := e]> (entries_ f)) (inodes f).
Definition remove_entry (f : fs) (p : path) : fs := FS (delete p (entries_ f)) (inodes f).

(** A component is looked up in a directory. *)
Definition in_directory (f : fs) (p : path) : res unit :=
  match lookup_entry f p with
  | Some Dir => Ok tt
  | None => Err FileNotFoundError
  | Some _ => Err OSError
  end.
(** Links are followed, up to a number of them, from the component after [base]; when
    [strict], every component but the last must be there. *)
Fixpoint realpath (links : nat) (strict : bool) (loop : exn) (f : fs) : path -> list string -> res path :=
  fix walk (base : path) (rest : list string) : res path :=
    match rest with
    | [] => Ok base
    | c :: rest =>
        _ ← (if strict then in_directory f base else Ok tt);
        if String.eqb c ".." then walk (removelast base) rest
        else
          match lookup_entry f (base ++ [c]) with
          | Some (Link t) =>
              match links with
              | O => Err loop
              | S links => realpath links strict loop f (if is_absolute t then [] else base) (components t ++ rest)
              end
          | _ => walk (base ++ [c]) rest
          end
    end.
Definition MAX_LINKS : nat := 40.
(** [path.resolve()]: components behind a missing one are kept, and a loop of links, which
    is taken to be more than the kernel follows, raises [RuntimeError]. *)
Definition resolve (f : fs) (p : path) : res path := realpath MAX_LINKS false RuntimeError f [] p.
(** What a system call makes of a path, with its last link followed. *)
Definition follow (f : fs) (p : path) : res path := realpath MAX_LINKS true OSError f [] p.

(** The entry a path names, without following a link there: its directory must
    exist.  A last component [..] names a directory. *)
Definition locate (f : fs) (p : path) : res path :=
  match last p with
  | None => Ok []
  | Some c =>
      if String.eqb c ".." then q ← follow f p; Ok q
      else
        parent ← follow f (removelast p);
        _ ← in_directory f parent;
        Ok (parent ++ [c])
  end.

(** [path.exists()], [path.is_dir()], [path.is_symlink()]: false when the path cannot
    be followed. *)
Definition stat (f : fs) (p : path) : option entry :=
  match follow f p with Ok q => lookup_entry f q | Err _ => None end.
Definition lstat (f : fs) (p : path) : option entry :=
  match locate f p with Ok q => lookup_entry f q | Err _ => None end.
Definition exists_ (f : fs) (p : path) : bool := bool_decide (is_Some (stat f p)).
Definition is_dir (f : fs) (p : path) : bool := bool_decide (stat f p = Some Dir).
Definition is_symlink (f : fs) (p : path) : bool :=
  match lstat f p with Some (Link _) => true | _ => false end.

(** ** Calls *)

(** [os.mkdir], and [path.mkdir(parents=True, exist_ok=True)]. *)
Definition os_mkdir (f : fs) (p : path) : res fs :=
  q ← locate f p;
  match lookup_entry f q with
  | Some _ => Err OSError
  | None => Ok (set_entry f q Dir)
  end.
Fixpoint mkdir_parents (fuel : nat) (f : fs) (p : path) : res fs :=
  match os_mkdir f p with
  | Ok f' => Ok f'
  | Err FileNotFoundError =>
      match fuel with
      | O => Err FileNotFoundError
      | S fuel =>
          f ← mkdir_parents fuel f (removelast p);
          match os_mkdir f p with
          | Ok f' => Ok f'
          | Err e => if is_dir f p then Ok f else Err e
          end
      end
  | Err e => if is_dir f p then Ok f else Err e
  end.
Definition mkdir (f : fs) (p : path) : res fs := mkdir_parents (length p) f p.

(** [open(path, "wb")]: an empty file, a new one or the old one truncated. *)
Definition open_write (f : fs) (p : path) : res (fs * positive) :=
  q ← follow f p;
  match lookup_entry f q with
  | Some Dir => Err OSError
  | Some (File i) => Ok (FS (entries_ f) (<[i := []]> (inodes f)), i)
  | Some (Link _) => Err OSError
  | None =>
      let i := fresh (dom (inodes f)) in
      Ok (FS (<[q := File i]> (entries_ f)) (<[i := []]> (inodes f)), i)
  end.
Definition append_file (f : fs) (i : positive) (data : bytes) : fs :=
  FS (entries_ f) (alter (fun old => old ++ data) i (inodes f)).
(** [os.replace] of a file. *)
Definition replace (f : fs) (src dst : path) : res fs :=
  s ← locate f src; d ← locate f dst;
  match lookup_entry f s, lookup_entry f d with
  | None, _ => Err FileNotFoundError
  | Some Dir, _ | _, Some Dir => Err OSError
  | Some (File i), Some (File j) =>
      Ok (if decide (i = j) then f else set_entry (remove_entry f s) d (File i))
  | Some e, _ => Ok (set_entry (remove_entry f s) d e)
  end.
(** [path.unlink()]; a missing file is an error unless [missing_ok]. *)
Definition unlink (missing_ok : bool) (f : fs) (p : path) : res fs :=
  match locate f p with
  | Err FileNotFoundError => if missing_ok then Ok f else Err FileNotFoundError
  | Err e => Err e
  | Ok q =>
      match lookup_entry f q with
      | None => if missing_ok then Ok f else Err FileNotFoundError
      | Some Dir => Err OSError
      | Some _ => Ok (remove_entry f q)
      end
  end.
(** [os.link]: a second name for the file. *)
Definition os_link (f : fs) (src dst : path) : res fs :=
  s ← locate f src; d ← locate f dst;
  match lookup_entry f s, lookup_entry f d with
  | None, _ => Err FileNotFoundError
  | Some Dir, _ => Err OSError
  | Some _, Some _ => Err OSError
  | Some e, None => Ok (set_entry f d e)
  end.
Definition symlink_to (f : fs) (p : path) (target : string) : res fs :=
  q ← locate f p;
  _ ← raise_if (bool_decide (target = "")) FileNotFoundError;
  match lookup_entry f q with
  | Some _ => Err OSError
  | None => Ok (set_entry f q (Link target))
  end.
(** [shutil.rmtree]: everything below the directory, then the directory.  A path that
    ends in [..] cannot be removed any more once the contents are. *)
Definition rmtree (f : fs) (p : path) : res unit * fs :=
  match locate f p with
  | Err e => (Err e, f)
  | Ok q =>
      match lookup_entry f q with
      | Some Dir =>
          let f' := FS (filter (fun x => negb (bool_decide (q `prefix_of` x.1))) (entries_ f)) (inodes f) in
          if bool_decide (last p = Some "..") then (Err FileNotFoundError, set_entry f' q Dir) else (Ok tt, f')
      | _ => (Err OSError, f)
      end
  end.

(** ** File system calls on real directories

    A directory is real when no component of its path is a link: there the calls of a
    restore do what their names say.  What a file system shows at a path, whatever inodes
    hold it. *)

(** ** What is seen at a path *)

Inductive view := VDir | VFile (data : bytes) | VLink (target : string).
Definition look (f : fs) (p : path) : option view :=
  match lookup_entry f p with
  | Some Dir => Some VDir
  | Some (File i) => Some (VFile (default [] (inodes f !! i)))
  | Some (Link t) => Some (VLink t)
  | None => None
  end.
(** Every file has its content. *)
Definition fs_ok (f : fs) : Prop := forall p i, entries_ f !! p = Some (File i) -> is_Some (inodes f !! i).

Lemma look_dir f p : look f p = Some VDir <-> lookup_entry f p = Some Dir.
Proof. unfold look. by destruct (lookup_entry f p) as [[]|]. Qed.
Lemma look_none f p : look f p = None <-> lookup_entry f p = None.
Proof. unfold look. by destruct (lookup_entry f p) as [[]|]. Qed.

Lemma lookup_entry_nonempty f p : p <> [] -> lookup_entry f p = entries_ f !! p.
Proof. by destruct p. Qed.
Lemma snoc_nonempty {A} (l : list A) x : l ++ [x] <> [].
Proof. by destruct l. Qed.
Lemma lookup_entry_snoc f d c : lookup_entry f (d ++ [c]) = entries_ f !! (d ++ [c]).
Proof. apply lookup_entry_nonempty, snoc_nonempty. Qed.

(** ** Real directories *)

Lemma prefix_of_snoc {A} (q l : list A) x : q `prefix_of` l ++ [x] <-> q = l ++ [x] \/ q `prefix_of` l.
Proof.
  split.
  - intros [k Hk]. destruct k as [|y k _] using rev_ind; [left; by rewrite app_nil_r in Hk|].
    right. rewrite app_assoc in Hk. apply app_inj_tail in Hk as [-> _]. by apply prefix_app_r.
  - intros [->|Hq]; [done|by apply prefix_app_r].
Qed.

Definition real_dir (f : fs) (d : path) : Prop :=
  Forall (fun c => c <> "..") d /\ forall q, q `prefix_of` d -> look f q = Some VDir.

Lemma real_dir_snoc f d c :
  real_dir f (d ++ [c]) <-> real_dir f d /\ c <> ".." /\ look f (d ++ [c]) = Some VDir.
Proof.
  unfold real_dir. rewrite Forall_app, Forall_singleton. split.
  - intros [[Hd Hc] H]. split_and!; [done| |done|by apply H].
    intros q Hq. apply H. by apply prefix_app_r.
  - intros ([Hd Hp] & Hc & Hl). split; [done|]. intros q Hq.
    apply prefix_of_snoc in Hq as [->|Hq]; [done|by apply Hp].
Qed.

Lemma eqb_dots c : c <> ".." -> String.eqb c ".." = false.
Proof. apply String.eqb_neq. Qed.
Lemma in_directory_real f d : look f d = Some VDir -> in_directory f d = Ok tt.
Proof. intros H%look_dir. unfold in_directory. by rewrite H. Qed.

(** Following a path along directories, up to a last component that is no link. *)
Lemma realpath_real links strict loop f base rest :
  Forall (fun c => c <> "..") rest ->
  (forall q, q `prefix_of` rest -> q <> rest -> look f (base ++ q) = Some VDir) ->
  (forall t, look f (base ++ rest) <> Some (VLink t)) ->
  realpath links strict loop f base rest = Ok (base ++ rest).
Proof.
  revert base. induction rest as [|c rest IH]; intros base Hc Hd Hl; destruct links as [|links];
    cbn [realpath]; try by rewrite app_nil_r.
  all: inversion Hc as [|?? Hc1 Hc2]; subst.
  all: assert (look f base = Some VDir) as Hb by
    (rewrite <- (app_nil_r base); apply Hd; [apply prefix_nil|done]).
  all: assert ((if strict then in_directory f base else Ok tt) = Ok tt) as ->
    by (destruct strict; [by apply in_directory_real|done]).
  all: rewrite bind_Ok, (eqb_dots c Hc1).
  all: replace (base ++ c :: rest) with ((base ++ [c]) ++ rest) in * by by rewrite <- app_assoc.
  all: assert (forall t, lookup_entry f (base ++ [c]) <> Some (Link t)) as Hnl.
  1, 3: intros t Ht; destruct (decide (rest = [])) as [->|Hne];
    [apply (Hl t); rewrite app_nil_r; unfold look; by rewrite Ht
    |assert (look f (base ++ [c]) = Some VDir) as Hx by (apply Hd; [by exists rest|congruence]);
     unfold look in Hx; by rewrite Ht in Hx].
  all: assert (forall q, q `prefix_of` rest -> q <> rest -> look f ((base ++ [c]) ++ q) = Some VDir) as Hd'
    by (intros q Hq Hne; rewrite <- app_assoc; apply (Hd (c :: q)); [by apply prefix_cons|congruence]).
  all: specialize (IH (base ++ [c]) Hc2 Hd' Hl).
  all: destruct (lookup_entry f (base ++ [c])) as [[]|]; try apply IH; by destruct (Hnl target).
Qed.

Lemma follow_real f d : real_dir f d -> follow f d = Ok d.
Proof.
  intros [Hc Hd]. unfold follow. rewrite realpath_real; [done|done| |].
  - intros q Hq _. by apply Hd.
  - intros t. cbn. by rewrite Hd.
Qed.
Lemma resolve_real f d : real_dir f d -> resolve f d = Ok d.
Proof.
  intros [Hc Hd]. unfold resolve. rewrite realpath_real; [done|done| |].
  - intros q Hq _. by apply Hd.
  - intros t. cbn. by rewrite Hd.
Qed.
Lemma follow_child f d c :
  real_dir f d -> c <> ".." -> (forall t, look f (d ++ [c]) <> Some (VLink t)) ->
  follow f (d ++ [c]) = Ok (d ++ [c]).
Proof.
  intros [Hc Hd] Hne Hl. unfold follow. rewrite realpath_real; [done| | |done].
  - apply Forall_app. by split; [|constructor].
  - intros q [Heq|Hq]%prefix_of_snoc Hn; [by subst|by apply Hd].
Qed.

Lemma last_snoc_path (d : path) c : last (d ++ [c]) = Some c.
Proof. apply last_snoc. Qed.

Section child.
Context (f : fs) (d : path) (c : string) (Hd : real_dir f d) (Hc : c <> "..").

Lemma locate_child : locate f (d ++ [c]) = Ok (d ++ [c]).
Proof using Hd Hc.
  unfold locate. rewrite last_snoc, (eqb_dots c Hc), List.removelast_last, (follow_real f d Hd), bind_Ok.
  rewrite in_directory_real; [done|]. by apply Hd.
Qed.
Lemma os_mkdir_child : look f (d ++ [c]) = None -> os_mkdir f (d ++ [c]) = Ok (set_entry f (d ++ [c]) Dir).
Proof using Hd Hc. intros H%look_none. unfold os_mkdir. by rewrite locate_child, bind_Ok, H. Qed.
Lemma mkdir_child : look f (d ++ [c]) = None -> mkdir f (d ++ [c]) = Ok (set_entry f (d ++ [c]) Dir).
Proof using Hd Hc.
  intros H. unfold mkdir. destruct (length (d ++ [c])); cbn [mkdir_parents]; by rewrite os_mkdir_child.
Qed.
Lemma open_write_new :
  look f (d ++ [c]) = None ->
  let i := fresh (dom (inodes f)) in
  open_write f (d ++ [c]) = Ok (FS (<[d ++ [c] := File i]> (entries_ f)) (<[i := []]> (inodes f)), i).
Proof using Hd Hc.
  intros H i. unfold open_write. rewrite follow_child, bind_Ok; [|done|done|by rewrite H].
  by rewrite (proj1 (look_none f _) H).
Qed.
Lemma unlink_child b : look f (d ++ [c]) <> Some VDir -> look f (d ++ [c]) <> None ->
  unlink b f (d ++ [c]) = Ok (remove_entry f (d ++ [c])).
Proof using Hd Hc.
  intros H1 H2. unfold unlink. rewrite locate_child. unfold look in *.
  by destruct (lookup_entry f (d ++ [c])) as [[]|].
Qed.
Lemma replace_child c' i :
  c' <> ".." -> lookup_entry f (d ++ [c']) = Some (File i) -> look f (d ++ [c]) = None ->
  replace f (d ++ [c']) (d ++ [c]) = Ok (set_entry (remove_entry f (d ++ [c'])) (d ++ [c]) (File i)).
Proof using Hd Hc.
  intros Hc' Hs Ht%look_none. unfold replace.
  assert (locate f (d ++ [c']) = Ok (d ++ [c'])) as ->.
  { unfold locate. rewrite last_snoc, (eqb_dots c' Hc'), List.removelast_last, (follow_real f d Hd), bind_Ok.
    rewrite in_directory_real; [done|]. by apply Hd. }
  by rewrite bind_Ok, locate_child, bind_Ok, Hs, Ht.
Qed.
End child.

Lemma symlink_child f d c t :
  real_dir f d -> c <> ".." -> t <> "" -> look f (d ++ [c]) = None ->
  symlink_to f (d ++ [c]) t = Ok (set_entry f (d ++ [c]) (Link t)).
Proof.
  intros Hd Hc Ht Hl%look_none. unfold symlink_to. rewrite locate_child, bind_Ok by done.
  rewrite bool_decide_false by done. cbn [raise_if]. by rewrite bind_Ok, Hl.
Qed.
Lemma absent_child f d c :
  real_dir f d -> c <> ".." -> look f (d ++ [c]) = None ->
  is_symlink f (d ++ [c]) = false /\ exists_ f (d ++ [c]) = false.
Proof.
  intros Hd Hc Hl. split.
  - unfold is_symlink, lstat. rewrite locate_child by done. by rewrite (proj1 (look_none _ _) Hl).
  - unfold exists_, stat. rewrite follow_child by (done || by rewrite Hl).
    rewrite (proj1 (look_none _ _) Hl). apply bool_decide_false. by intros [? ?].
Qed.

(** Making a directory that is there. *)
Lemma mkdir_real f d : real_dir f d -> mkdir f d = Ok f.
Proof.
  intros Hd. assert (is_dir f d = true) as Hi.
  { unfold is_dir, stat. rewrite (follow_real f d Hd). apply bool_decide_true, look_dir, Hd. done. }
  assert (os_mkdir f d = Err OSError) as Ho.
  { unfold os_mkdir. assert (locate f d = Ok d) as ->.
    { destruct d as [|c d _] using rev_ind; [done|].
      apply real_dir_snoc in Hd as (Hd & Hc & _). by apply locate_child. }
    rewrite bind_Ok. by rewrite (proj1 (look_dir f d) (proj2 Hd d (reflexivity d))). }
  unfold mkdir. destruct (length d); cbn [mkdir_parents]; by rewrite Ho, Hi.
Qed.

(** ** What the calls change *)

Lemma look_set_entry f p e q :
  p <> [] ->
  look (set_entry f p e) q =
  if decide (q = p) then match e with
                         | Dir => Some VDir
                         | File i => Some (VFile (default [] (inodes f !! i)))
                         | Link t => Some (VLink t)
                         end
  else look f q.
Proof.
  intros Hp. unfold look. case_decide as Hq.
  - subst. rewrite lookup_entry_nonempty by done. cbn. rewrite lookup_insert_eq. by destruct e.
  - destruct q as [|c q]; [done|]. cbn. by rewrite lookup_insert_ne by congruence.
Qed.
Lemma look_remove_entry f p q : p <> [] -> look (remove_entry f p) q = if decide (q = p) then None else look f q.
Proof.
  intros Hp. unfold look. case_decide as Hq.
  - subst. rewrite lookup_entry_nonempty by done. cbn. by rewrite lookup_delete_eq.
  - destruct q as [|c q]; [done|]. cbn. by rewrite lookup_delete_ne by congruence.
Qed.

Lemma fs_ok_set_entry f p e :
  fs_ok f -> (forall i, e = File i -> is_Some (inodes f !! i)) -> fs_ok (set_entry f p e).
Proof.
  intros H He q i Hq. cbn in *. destruct (decide (q = p)) as [->|Hne].
  - rewrite lookup_insert_eq in Hq. injection Hq as ->. by apply He.
  - rewrite lookup_insert_ne in Hq by done. by eapply H.
Qed.
Lemma fs_ok_remove_entry f p : fs_ok f -> fs_ok (remove_entry f p).
Proof. intros H q i Hq. cbn in Hq. apply lookup_delete_Some in Hq as [_ Hq]. by eapply H. Qed.

(** What is seen when only one entry and one inode, new to the file system, differ. *)
Lemma look_new_inode f p i data q :
  (forall q j, entries_ f !! q = Some (File j) -> j <> i) -> p <> [] ->
  look (FS (<[p := File i]> (entries_ f)) (<[i := data]> (inodes f))) q =
  if decide (q = p) then Some (VFile data) else look f q.
Proof.
  intros Hi Hp. unfold look. case_decide as Hq.
  - subst. rewrite lookup_entry_nonempty by done. cbn. by rewrite !lookup_insert_eq.
  - destruct q as [|c q]; [done|]. cbn. rewrite lookup_insert_ne by congruence.
    destruct (entries_ f !! (c :: q)) as [[|j|t]|] eqn:E; [done| |done|done].
    by rewrite lookup_insert_ne by (intros ->; by apply (Hi _ _ E)).
Qed.
Lemma fs_ok_new_inode f p i data :
  fs_ok f -> fs_ok (FS (<[p := File i]> (entries_ f)) (<[i := data]> (inodes f))).
Proof.
  intros H q j Hq. cbn in *. destruct (decide (j = i)) as [->|Hne].
  - by rewrite lookup_insert_eq.
  - rewrite lookup_insert_ne by done. apply lookup_insert_Some in Hq as [[_ [= ->]]|[_ Hq]]; [done|].
    by eapply H.
Qed.

Lemma real_dir_look f f' d :
  (forall q, q `prefix_of` d -> look f' q = look f q) -> real_dir f d -> real_dir f' d.
Proof. intros H [Hc Hd]. split; [done|]. intros q Hq. rewrite H by done. by apply Hd. Qed.
Lemma prefix_snoc_ne (q d : path) c : q `prefix_of` d -> q <> d ++ [c].
Proof. intros Hq ->. by apply (prefix_snoc_not d c). Qed.
