(* ===== verification/Sqlite.v ===== *)
(** * The database connection

    What the catalog modules use of [sqlite3]: a connection with its committed
    and its current (uncommitted) database, implicit transactions, savepoints,
    and statements over tables.  A table is the list of its rows in rowid
    order; a statement either changes the whole set of rows it names or, when
    a constraint fails, raises [IntegrityError] and changes nothing.  The
    database itself is a type variable here, the tables are in [Catalog]. *)

From S2P Require Import Prelude.

(** ** Connections and the operations on them *)

Record Conn (DB : Type) := mkConn {
  committed : DB;          (* what another connection, or a crash, would see *)
  current : DB;            (* what this connection sees *)
  in_transaction : bool;
}.
Arguments mkConn {DB}. Arguments committed {DB}. Arguments current {DB}.
Arguments in_transaction {DB}.

(** An operation on a connection: a result or an exception, and the connection
    it leaves behind in either case. *)
Definition db (DB A : Type) : Type := Conn DB -> res A * Conn DB.

#[export] Instance db_ret {DB} : MRet (db DB) := fun A a c => (Ok a, c).
#[export] Instance db_bind {DB} : MBind (db DB) := fun A B f m c =>
  match m c with
  | (Ok a, c') => f a c'
  | (Err e, c') => (Err e, c')
  end.

Definition raise {DB A} (e : exn) : db DB A := fun c => (Err e, c).
(** A [SELECT]. *)
Definition query {DB A} (f : DB -> A) : db DB A := fun c => (Ok (f (current c)), c).
(** An [INSERT], [UPDATE] or [DELETE]: opens a transaction if none is open. *)
Definition execute {DB A} (f : DB -> res (A * DB)) : db DB A := fun c =>
  match f (current c) with
  | Ok (a, d) => (Ok a, mkConn (committed c) d true)
  | Err e => (Err e, mkConn (committed c) (current c) true)
  end.
Definition commit {DB} : db DB unit := fun c =>
  (Ok tt, mkConn (current c) (current c) false).
Definition rollback {DB} : db DB unit := fun c =>
  (Ok tt, mkConn (committed c) (committed c) false).
(** [if b: conn.commit()] *)
Definition commit_if {DB} (b : bool) : db DB unit := if b then commit else mret tt.

(** [try: m except Exception: h; raise] *)
Definition on_error {DB A} (m : db DB A) (h : db DB unit) : db DB A := fun c =>
  match m c with
  | (Ok a, c') => (Ok a, c')
  | (Err e, c') => (Err e, (h c').2)
  end.

(** [SAVEPOINT name]: remembers the current database, and whether a transaction
    was already open. *)
Definition savepoint {DB} : db DB (DB * bool) := fun c =>
  (Ok (current c, in_transaction c), mkConn (committed c) (current c) true).
(** [ROLLBACK TO name]: the transaction stays open. *)
Definition rollback_to {DB} (sp : DB * bool) : db DB unit := fun c =>
  (Ok tt, mkConn (committed c) sp.1 true).
(** [RELEASE name]: of the outermost savepoint, this commits. *)
Definition release {DB} (sp : DB * bool) : db DB unit := fun c =>
  if sp.2 then (Ok tt, c) else commit c.

(** Lifts a pure computation that may raise. *)
Definition pure_res {DB A} (r : res A) : db DB A := fun c => (r, c).

Lemma db_bind_Ok {DB A B} (m : db DB A) (f : A -> db DB B) c a c' :
  m c = (Ok a, c') -> (m ≫= f) c = f a c'.
Proof. intros H. unfold mbind, db_bind. by rewrite H. Qed.
Lemma db_bind_Err {DB A B} (m : db DB A) (f : A -> db DB B) c e c' :
  m c = (Err e, c') -> (m ≫= f) c = (Err e, c').
Proof. intros H. unfold mbind, db_bind. by rewrite H. Qed.

(** ** Rows *)

(** [WHERE], on the rows of one table. *)
Definition where_ {A} (p : A -> bool) (l : list A) : list A := List.filter p l.
(** [EXISTS (SELECT 1 FROM l WHERE p)] *)
Definition exists_row {A} (p : A -> bool) (l : list A) : bool := existsb p l.
(** [UPDATE l SET f WHERE p], and its row count. *)
Definition update_where {A} (p : A -> bool) (f : A -> A) (l : list A) : list A :=
  (fun r => if p r then f r else r) <$> l.
Definition count_where {A} (p : A -> bool) (l : list A) : Z := len (where_ p l).
Definition delete_where {A} (p : A -> bool) (l : list A) : list A :=
  where_ (fun r => negb (p r)) l.
(** [x IN (l)] *)
Definition sql_in {A} `{EqDecision A} (x : A) (l : list A) : bool := bool_decide (x ∈ l).
Definition sql_eq {A} `{EqDecision A} (x y : A) : bool := bool_decide (x = y).
(** [ORDER BY], by a boolean comparison of the rows. *)
Definition order_by {A} (le : A -> A -> bool) (l : list A) : list A :=
  merge_sort (fun x y => Is_true (le x y)) l.
(** The lexicographic comparison of two sort keys. *)
Definition lex {A} (lt1 : A -> A -> comparison) (le2 : A -> A -> bool) (x y : A) : bool :=
  match lt1 x y with Lt => true | Gt => false | Eq => le2 x y end.
Definition by_key {A} (key : A -> string) (x y : A) : bool := String.leb (key x) (key y).
(** [fetchone] *)
Definition fetchone {A} (l : list A) : option A := head l.
(** [SELECT DISTINCT] *)
Definition distinct {A} `{EqDecision A} (l : list A) : list A := remove_dups l.

Section rows.
Context {A : Type}.
Implicit Types (p : A -> bool) (l : list A) (x : A).

Lemma elem_of_where p l x : x ∈ where_ p l <-> p x = true /\ x ∈ l.
Proof.
  unfold where_. rewrite !list_elem_of_In, filter_In. tauto.
Qed.
Lemma exists_row_true p l : exists_row p l = true <-> exists x, x ∈ l /\ p x = true.
Proof.
  unfold exists_row. rewrite existsb_exists. by setoid_rewrite list_elem_of_In.
Qed.
Lemma exists_row_false p l : exists_row p l = false <-> forall x, x ∈ l -> p x = false.
Proof.
  rewrite <- not_true_iff_false, exists_row_true. split.
  - intros H x Hx. apply not_true_iff_false. eauto.
  - intros H (x & Hx & Hp). by rewrite H in Hp.
Qed.
Lemma elem_of_delete_where p l x : x ∈ delete_where p l <-> p x = false /\ x ∈ l.
Proof. unfold delete_where. by rewrite elem_of_where, negb_true_iff. Qed.
Lemma elem_of_update_where p f l x :
  x ∈ update_where p f l <-> exists y, y ∈ l /\ x = if p y then f y else y.
Proof. unfold update_where. rewrite list_elem_of_fmap. naive_solver. Qed.
Lemma update_where_key {K} (key : A -> K) p f l :
  (forall x, x ∈ l -> p x = true -> key (f x) = key x) -> key <$> update_where p f l = key <$> l.
Proof.
  intros H. unfold update_where. rewrite <- list_fmap_compose.
  apply list_fmap_ext. intros i x Hx. apply list_elem_of_lookup_2 in Hx. cbn.
  destruct (p x) eqn:Hp; auto.
Qed.
Lemma elem_of_order_by le l x : x ∈ order_by le l <-> x ∈ l.
Proof. unfold order_by. by rewrite merge_sort_Permutation. Qed.
Lemma order_by_perm le l : order_by le l ≡ₚ l.
Proof. apply merge_sort_Permutation. Qed.
Lemma count_where_zero p l : count_where p l = 0 <-> forall x, x ∈ l -> p x = false.
Proof.
  unfold count_where. split.
  - intros H x Hx. apply not_true_iff_false. intros Hp.
    assert (x ∈ where_ p l) as Hin by (by apply elem_of_where).
    destruct (where_ p l); [by inv Hin|cbn in H; lia].
  - intros H. destruct (where_ p l) as [|x l'] eqn:E; [done|].
    assert (x ∈ where_ p l) as Hin by (rewrite E; left).
    apply elem_of_where in Hin as [Hp Hx]. by rewrite H in Hp.
Qed.
Lemma count_where_nonneg p l : 0 <= count_where p l.
Proof. unfold count_where. lia. Qed.
Lemma where_NoDup_key {K} (key : A -> K) p l : NoDup (key <$> l) -> NoDup (key <$> where_ p l).
Proof.
  induction l as [|x l IH]; csimpl; [done|]. intros [Hx Hl]%NoDup_cons.
  destruct (p x); csimpl; [|auto]. constructor; [|auto].
  intros (y & Hy & [_ Hin]%elem_of_where)%list_elem_of_fmap. apply Hx.
  rewrite Hy. by apply list_elem_of_fmap_2.
Qed.
(** A table's key determines its row. *)
Lemma key_unique {K} (key : A -> K) l x y :
  NoDup (key <$> l) -> x ∈ l -> y ∈ l -> key x = key y -> x = y.
Proof.
  intros Hnd [i Hi]%list_elem_of_lookup [j Hj]%list_elem_of_lookup Hk.
  assert (i = j) as ->; [|congruence].
  eapply (NoDup_lookup _ _ _ (key x) Hnd); rewrite list_lookup_fmap.
  - by rewrite Hi.
  - by rewrite Hj, Hk.
Qed.
End rows.

Lemma sql_eq_true {A} `{EqDecision A} (x y : A) : sql_eq x y = true <-> x = y.
Proof. apply bool_decide_eq_true. Qed.
Lemma sql_eq_false {A} `{EqDecision A} (x y : A) : sql_eq x y = false <-> x <> y.
Proof. apply bool_decide_eq_false. Qed.
Lemma sql_in_true {A} `{EqDecision A} (x : A) l : sql_in x l = true <-> x ∈ l.
Proof. apply bool_decide_eq_true. Qed.
Lemma sql_in_false {A} `{EqDecision A} (x : A) l : sql_in x l = false <-> x ∉ l.
Proof. apply bool_decide_eq_false. Qed.

Lemma sql_eq_elim {A} `{EqDecision A} (x y : A) : sql_eq x y = true -> x = y.
Proof. apply sql_eq_true. Qed.

(** [fetchone] of the only row that matches. *)
Lemma where_unique {A} (p : A -> bool) (l : list A) x :
  x ∈ l -> p x = true -> (forall y, y ∈ l -> p y = true -> y = x) ->
  fetchone (where_ p l) = Some x.
Proof.
  intros Hx Hp Hu. unfold fetchone. destruct (where_ p l) as [|y l'] eqn:E.
  - assert (x ∈ where_ p l) as Hin by (by apply elem_of_where). rewrite E in Hin. by inv Hin.
  - assert (y ∈ where_ p l) as [Hy1 Hy2]%elem_of_where by (rewrite E; left).
    cbn. f_equal. by apply Hu.
Qed.

Create Rewrite HintDb sql.
#[export] Hint Rewrite @elem_of_where @exists_row_true @exists_row_false @elem_of_delete_where
  @elem_of_order_by @sql_eq_true @sql_eq_false @sql_in_true @sql_in_false
  andb_true_iff orb_true_iff negb_true_iff negb_false_iff : sql.

(** Turns boolean [WHERE] clauses into the propositions they decide. *)
Ltac sql := autorewrite with sql in *.

(** ** Operations that keep an invariant of the database *)

(** [keeps I m]: from a connection whose committed and current databases satisfy
    [I], [m] leaves one of which the same holds, whether it returns or raises. *)
Definition keeps {DB A} (I : DB -> Prop) (m : db DB A) : Prop := forall c,
  I (committed c) -> I (current c) -> I (committed (m c).2) /\ I (current (m c).2).

Section keeps.
Context {DB : Type} (I : DB -> Prop).

Lemma keeps_ret {A} (a : A) : keeps I (mret a).
Proof. by split. Qed.
Lemma keeps_raise {A} e : keeps I (raise (A:=A) e).
Proof. by split. Qed.
Lemma keeps_query {A} (f : DB -> A) : keeps I (query f).
Proof. by split. Qed.
Lemma keeps_pure {A} (r : res A) : keeps I (pure_res r).
Proof. by split. Qed.
Lemma keeps_commit : keeps I commit.
Proof. by split. Qed.
Lemma keeps_commit_if b : keeps I (commit_if b).
Proof. destruct b; by split. Qed.
Lemma keeps_rollback : keeps I rollback.
Proof. by split. Qed.
Lemma keeps_bind {A B} (m : db DB A) (f : A -> db DB B) :
  keeps I m -> (forall a, keeps I (f a)) -> keeps I (m ≫= f).
Proof.
  intros Hm Hf c Hc1 Hc2. specialize (Hm c Hc1 Hc2). unfold mbind, db_bind.
  destruct (m c) as [[a|e] c']; cbn in *; [|done]. destruct Hm. by apply Hf.
Qed.
Lemma keeps_execute {A} (f : DB -> res (A * DB)) :
  (forall d a d', I d -> f d = Ok (a, d') -> I d') -> keeps I (execute f).
Proof.
  intros Hf c Hc1 Hc2. unfold execute. destruct (f (current c)) as [[a d]|e] eqn:E; cbn; eauto.
Qed.
Lemma keeps_on_error {A} (m : db DB A) h : keeps I m -> keeps I h -> keeps I (on_error m h).
Proof.
  intros Hm Hh c Hc1 Hc2. specialize (Hm c Hc1 Hc2). unfold on_error.
  destruct (m c) as [[a|e] c']; cbn in *; [done|]. destruct Hm. by apply Hh.
Qed.
(** The database a savepoint remembers satisfies the invariant too. *)
Lemma keeps_savepoint {A} (f : DB * bool -> db DB A) :
  (forall sp, I sp.1 -> keeps I (f sp)) -> keeps I (savepoint ≫= f).
Proof. intros Hf c Hc1 Hc2. unfold mbind, db_bind, savepoint. by apply Hf. Qed.
Lemma keeps_rollback_to sp : I sp.1 -> keeps I (rollback_to sp).
Proof. by split. Qed.
Lemma keeps_release sp : keeps I (release sp).
Proof. intros c ? ?. unfold release. by destruct sp.2. Qed.
End keeps.

Create HintDb keeps.
#[export] Hint Resolve keeps_ret keeps_raise keeps_query keeps_pure keeps_commit keeps_commit_if
  keeps_rollback keeps_rollback_to keeps_release : keeps.
(** Follows the structure of an operation. *)
Ltac keeps := repeat first
  [ progress (auto with keeps)
  | apply keeps_savepoint; intros ? ?
  | apply keeps_bind; [|intro]
  | apply keeps_on_error
  | match goal with
    | |- keeps _ (let _ := _ in _) => cbv zeta
    | |- keeps _ (if ?b then _ else _) => destruct b
    | |- keeps _ (match ?x with _ => _ end) => destruct x
    | |- keeps _ (execute _) => apply keeps_execute; intros ? ? ? ? ?
    end ].

(** ** Batches

    A list bound to SQL variables goes in batches below SQLite's limit:
    [for i in range(0, len(l), n): batch = l[i : i + n]]. *)
Fixpoint batches_fuel {A} (fuel n : nat) (l : list A) : list (list A) :=
  match fuel, l with
  | S fuel, _ :: _ => take n l :: batches_fuel fuel n (drop n l)
  | _, _ => []
  end.
Definition batches {A} (n : nat) (l : list A) : list (list A) := batches_fuel (length l) n l.

Lemma batches_fuel_concat {A} fuel n (l : list A) :
  (0 < n)%nat -> (length l <= fuel)%nat -> concat (batches_fuel fuel n l) = l.
Proof.
  intros Hn. revert l. induction fuel as [|fuel IH]; intros [|x l] Hl; cbn in Hl; [done|lia|done|].
  cbn [batches_fuel concat]. rewrite IH; [apply take_drop|].
  rewrite length_drop. cbn. destruct n; lia.
Qed.
Lemma batches_concat {A} n (l : list A) : (0 < n)%nat -> concat (batches n l) = l.
Proof. intros. by apply batches_fuel_concat. Qed.
Lemma elem_of_batches {A} n (l b : list A) x : (0 < n)%nat -> b ∈ batches n l -> x ∈ b -> x ∈ l.
Proof.
  intros Hn Hb Hx. rewrite <- (batches_concat n l Hn).
  apply list_elem_of_In, in_concat. exists b. split; by apply list_elem_of_In.
Qed.
Lemma batches_cover {A} n (l : list A) x : (0 < n)%nat -> x ∈ l -> exists b, b ∈ batches n l /\ x ∈ b.
Proof.
  intros Hn Hx. rewrite <- (batches_concat n l Hn) in Hx.
  apply list_elem_of_In, in_concat in Hx as (b & Hb & Hx). exists b.
  split; by apply list_elem_of_In.
Qed.

(** ** Sort keys are total preorders *)

Record cmp_ok {A} (c : A -> A -> comparison) : Prop := {
  cmp_opp : forall x y, c y x = CompOpp (c x y);
  cmp_eq : forall x y z, c x y = Eq -> c x z = c y z;
  cmp_lt : forall x y z, c x y = Lt -> c y z = Lt -> c x z = Lt;
}.

Lemma cmp_ok_Z {A} (key : A -> Z) : cmp_ok (fun x y => Z.compare (key x) (key y)).
Proof.
  constructor; intros x y; [by rewrite Z.compare_antisym| |].
  - intros z H%Z.compare_eq. by rewrite H.
  - intros z. rewrite !Z.compare_lt_iff. lia.
Qed.

Lemma ascii_compare_lt_trans a b c :
  Ascii.compare a b = Lt -> Ascii.compare b c = Lt -> Ascii.compare a c = Lt.
Proof. unfold Ascii.compare. rewrite !N.compare_lt_iff. lia. Qed.
Lemma ascii_compare_refl a : Ascii.compare a a = Eq.
Proof. apply N.compare_refl. Qed.

Lemma string_compare_lt_trans s t u :
  String.compare s t = Lt -> String.compare t u = Lt -> String.compare s u = Lt.
Proof.
  revert t u. induction s as [|a s IH]; intros [|b t] [|c u]; cbn; try done.
  destruct (Ascii.compare a b) eqn:E1, (Ascii.compare b c) eqn:E2; try done.
  - apply Ascii.compare_eq_iff in E1, E2. subst. rewrite ascii_compare_refl. apply IH.
  - apply Ascii.compare_eq_iff in E1. subst. by rewrite E2.
  - apply Ascii.compare_eq_iff in E2. subst. by rewrite E1.
  - by rewrite (ascii_compare_lt_trans a b c).
Qed.
Lemma cmp_ok_string {A} (key : A -> string) : cmp_ok (fun x y => String.compare (key x) (key y)).
Proof.
  constructor; intros x y; [by rewrite String.compare_antisym| |].
  - intros z H%String.compare_eq_iff. by rewrite H.
  - intros z. apply string_compare_lt_trans.
Qed.
Lemma cmp_ok_if {A} (b : bool) (c : A -> A -> comparison) :
  cmp_ok c -> cmp_ok (fun x y => if b then Eq else c x y).
Proof. by destruct b. Qed.

(** Total and transitive boolean comparisons. *)
Record le_ok {A} (le : A -> A -> bool) : Prop := {
  le_total : forall x y, le x y = true \/ le y x = true;
  le_trans : forall x y z, le x y = true -> le y z = true -> le x z = true;
}.
Lemma le_ok_by_key {A} (key : A -> string) : le_ok (by_key key).
Proof.
  unfold by_key. constructor; intros x y; [apply String.leb_total|].
  intros z. unfold String.leb. destruct (cmp_ok_string key) as [Hopp Heq Hlt].
  destruct (String.compare (key x) (key y)) eqn:E1; [|destruct (String.compare (key y) (key z)) eqn:E2|done].
  - by rewrite (Heq x y z E1).
  - pose proof E2 as E3%String.compare_eq_iff. by rewrite <- E3, E1.
  - by rewrite (Hlt x y z).
  - done.
Qed.
Lemma le_ok_lex {A} (c : A -> A -> comparison) (le : A -> A -> bool) :
  cmp_ok c -> le_ok le -> le_ok (lex c le).
Proof.
  intros [Hopp Heq Hlt] [Htot Htr]. unfold lex. constructor.
  - intros x y. rewrite (Hopp x y). destruct (c x y); cbn; auto.
  - intros x y z. destruct (c x y) eqn:E1; [| |done].
    + rewrite (Heq x y z E1). destruct (c y z); [|done..]. eauto.
    + intros _. destruct (c y z) eqn:E2; [| |done].
      * intros _. pose proof (Heq y z x E2) as H. rewrite (Hopp x y), (Hopp x z), E1 in H.
        by destruct (c x z).
      * by rewrite (Hlt x y z).
Qed.

(** The result of [ORDER BY] is sorted. *)
Lemma order_by_sorted {A} (le : A -> A -> bool) l :
  le_ok le -> StronglySorted (fun x y => le x y = true) (order_by le l).
Proof.
  intros [Htot Htr]. unfold order_by.
  assert (Sorted (fun x y => Is_true (le x y)) (merge_sort (fun x y => Is_true (le x y)) l)) as Hs.
  { apply Sorted_merge_sort. intros x y. destruct (Htot x y) as [->| ->]; [by left|by right]. }
  apply Sorted.Sorted_StronglySorted in Hs.
  - induction Hs; constructor; [done|]. eapply Forall_impl; [done|]. intros ?. apply Is_true_true.
  - intros x y z H1%Is_true_true H2%Is_true_true. apply Is_true_true. eauto.
Qed.
