(* ===== verification/Repository.v ===== *)
(** * Reading a repository: restore/restic_fallback.py

    Keys, index and snapshots of a restic repository, with the pure-Python zstd
    decoder; blobs are read in [Blobs].  SHA-256, scrypt, JSON and base64 are
    parameters.  A directory is the list of its entries.  Messages are not
    modelled. *)

From S2P Require Import Prelude PyString PyText Aes Restic Zstd Json Sqlite.
Open Scope string_scope.
Open Scope list_scope.
Open Scope Z_scope.

Record MasterKey := MkMasterKey { mk_encrypt : bytes; mk_mac_k : bytes; mk_mac_r : bytes }.
Record BlobLocation := MkBlobLocation {
  bl_pack_id : json; bl_offset : json; bl_length : json; bl_blob_type : json;
  bl_uncompressed_length : json
}.
Record SnapshotMeta := MkSnapshotMeta {
  snapshot_id : string; sm_time : json; tree : json; sm_paths : json; sm_hostname : json; sm_tags : json
}.

(** A directory of the repository, if there is one: names, and for regular files what
    reading them gives. *)
Definition listing : Type := option (list (string * option (res bytes))).
Record repo := Repo { keys_dir : listing; index_dir : listing; snapshots_dir : listing }.
(** [sorted(d.iterdir())] *)
Definition sorted_entries (l : list (string * option (res bytes))) : list (string * option (res bytes)) :=
  order_by (by_key fst) l.

(** [type(n) is int] and the limits on scrypt parameters. *)
Definition _scrypt_maxmem (n r p : json) : res (Z * Z * Z * Z) :=
  match n, r, p with
  | JInt n, JInt r, JInt p => maxmem ← scrypt_limits n r p; Ok (n, r, p, maxmem)
  | _, _, _ => Err IntegrityError
  end.

(** What [NoKeyUnlockedError] carries when no key file gives up the key. *)
Inductive unlock := Unlocked (mk : MasterKey) | Locked (rejected corrupt : list string).

Definition _ZSTD_MAGIC : bytes := [0x28; 0xB5; 0x2F; 0xFD].

Section repository.
Variable scrypt : bytes -> bytes -> Z -> Z -> Z -> Z -> res bytes.
Variable json_loads : bytes -> res json.
Variable b64decode_text : string -> res bytes.
Variable weight_fuel : nat.

Definition b64decode (v : json) : res bytes := s ← as_str v; b64decode_text s.

(** ** Keys *)

(** What is read from a key file before the MAC check. *)
Definition parse_key_file (content : res bytes) : res (bytes * (Z * Z * Z * Z) * bytes) :=
  text ← content;
  key_doc ← json_loads text;
  s ← getitem key_doc "salt"; salt ← b64decode s;
  n ← get_or key_doc "N" (JInt 32768);
  r ← get_or key_doc "r" (JInt 8);
  p ← get_or key_doc "p" (JInt 1);
  limits ← _scrypt_maxmem n r p;
  d ← getitem key_doc "data"; encrypted_master ← b64decode d;
  Ok (salt, limits, encrypted_master).
Definition parse_master (master_json : bytes) : res MasterKey :=
  master ← json_loads master_json;
  e ← getitem master "encrypt"; encrypt ← b64decode e;
  m ← getitem master "mac"; k ← getitem m "k"; mac_k ← b64decode k;
  m ← getitem master "mac"; r ← getitem m "r"; mac_r ← b64decode r;
  Ok (MkMasterKey encrypt mac_k mac_r).

Definition _load_master_key (content : res bytes) (password : bytes) : res MasterKey :=
  '(salt, (n, r, p, maxmem), encrypted_master) ←
    reraise_as [OSError; ValueError; TypeError; KeyError; AttributeError] KeyFileCorruptError
      (reraise_as [IntegrityError] KeyFileCorruptError (parse_key_file content));
  derived ← scrypt password salt n r p maxmem;
  master_json ← _decrypt_authenticated (slice_to derived 32) (slice derived 32 48) (slice derived 48 64)
                  encrypted_master;
  reraise_as [ValueError; TypeError; KeyError; AttributeError] KeyFileCorruptError (parse_master master_json).

(** The loop over the key files. *)
Fixpoint try_each (key_files : list (string * option (res bytes))) (password : bytes)
    (rejected corrupt : list string) : res unlock :=
  match key_files with
  | [] => Ok (Locked rejected corrupt)
  | (_, None) :: rest => try_each rest password rejected corrupt
  | (kf, Some content) :: rest =>
      match _load_master_key content password with
      | Ok mk => Ok (Unlocked mk)
      | Err e =>
          if is_a e KeyFileCorruptError then try_each rest password rejected (corrupt ++ [kf])
          else if is_a e IntegrityError then try_each rest password (rejected ++ [kf]) corrupt
          else Err e
      end
  end.
Definition _try_keys (keys : listing) (password : bytes) : res unlock :=
  key_files ← of_option FileNotFoundError keys;
  _ ← raise_if (bool_decide (key_files = [])) IntegrityError;
  try_each (sorted_entries key_files) password [] [].
Definition _load_key (r : repo) (password : bytes) : res MasterKey :=
  u ← _try_keys (keys_dir r) password;
  match u with Unlocked mk => Ok mk | Locked _ _ => Err NoKeyUnlockedError end.
Definition verify_key (r : repo) (password : bytes) : res bool :=
  match _load_key r password with
  | Ok _ => Ok true
  | Err e => if is_a e IntegrityError then Ok false else Err e
  end.

(** ** Repository files *)

Definition _decrypt (mk : MasterKey) (encrypted : bytes) : res bytes :=
  _decrypt_authenticated (mk_encrypt mk) (mk_mac_k mk) (mk_mac_r mk) encrypted.

Definition _decrypt_file (mk : MasterKey) (content : res bytes) : res bytes :=
  encrypted ← content;
  data ← _decrypt mk encrypted;
  if (5 <? len data) && bool_decide (slice data 1 5 = _ZSTD_MAGIC) then
    decompress weight_fuel (slice_from data 1) 0
  else if (1 <? len data) && bool_decide (slice data 0 1 ∈ [[0]; [1]; [2]]) then Ok (slice_from data 1)
  else Ok data.

(** A loop over the regular files of a directory, by name, that decrypts and parses each
    and goes on with its name and document. *)
Definition read_documents {A} (mk : MasterKey) (files : list (string * option (res bytes)))
    (body : string * json -> res A) : res (list A) :=
  mapM_res (fun f : string * res bytes =>
      plaintext ← _decrypt_file mk f.2; doc ← json_loads plaintext; body (f.1, doc))
    (omap (fun f => (fun c => (f.1, c)) <$> f.2) (sorted_entries files)).

(** ** Index *)

Definition superseded_by (doc : json) : res (list json) :=
  sups ← get_or doc "supersedes" (JList []); l ← iterate sups; mapM_res hash_key l.
Definition index_blob (pack_id : json) (index : list (json * BlobLocation)) (blob : json) :
    res (list (json * BlobLocation)) :=
  blob_id ← getitem blob "id";
  offset ← getitem blob "offset";
  length_ ← getitem blob "length";
  type ← getitem blob "type";
  ulen ← get_or blob "uncompressed_length" JNull;
  key ← hash_key blob_id;
  Ok (dict_put key (MkBlobLocation pack_id offset length_ type ulen) index).
Definition index_pack (index : list (json * BlobLocation)) (entry : json) : res (list (json * BlobLocation)) :=
  pack_id ← getitem entry "id";
  blobs ← get_or entry "blobs" (JList []); l ← iterate blobs;
  foldM (index_blob pack_id) index l.
Definition index_document (supersedes : list json) (index : list (json * BlobLocation)) (doc : string * json) :
    res (list (json * BlobLocation)) :=
  if bool_decide (JString doc.1 ∈ supersedes) then Ok index
  else
    packs ← get_or doc.2 "packs" (JList []); l ← iterate packs;
    foldM index_pack index l.
(** The first pass reads every file and collects what is superseded, the second
    builds the index. *)
Definition _load_index (mk : MasterKey) (r : repo) : res (list (json * BlobLocation)) :=
  files ← of_option FileNotFoundError (index_dir r);
  docs ← read_documents mk files (fun doc => supersedes ← superseded_by doc.2; Ok (doc, supersedes));
  foldM (index_document (mjoin docs.*2)) [] docs.*1.

(** ** Snapshots *)

Definition snapshot_of (doc : string * json) : res SnapshotMeta :=
  time ← get_or doc.2 "time" (JString "");
  t ← getitem doc.2 "tree";
  paths ← get_or doc.2 "paths" (JList []);
  hostname ← get_or doc.2 "hostname" (JString "");
  tags ← get_or doc.2 "tags" (JList []);
  Ok (MkSnapshotMeta doc.1 time t paths hostname tags).
End repository.

(** [l.sort(key=...)] on texts, which keeps the order of equal keys. *)
Fixpoint insert_by {A} (key : A -> string) (x : A) (l : list A) : list A :=
  match l with
  | [] => [x]
  | y :: l => if String.leb (key x) (key y) then x :: y :: l else y :: insert_by key x l
  end.
Definition stable_sort {A} (key : A -> string) (l : list A) : list A := foldr (insert_by key) [] l.
Definition time_text (s : SnapshotMeta) : string :=
  match sm_time s with JString t => t | _ => EmptyString end.
(** Times are texts; a document that has another value there among several cannot be
    sorted. *)
Definition sort_by_time (l : list SnapshotMeta) : res (list SnapshotMeta) :=
  _ ← raise_if (bool_decide (1 < length l)%nat &&
                existsb (fun s => match sm_time s with JString _ => false | _ => true end) l) TypeError;
  Ok (stable_sort time_text l).

Definition _load_snapshots (json_loads : bytes -> res json) (weight_fuel : nat) (mk : MasterKey) (r : repo) :
    res (list SnapshotMeta) :=
  files ← of_option FileNotFoundError (snapshots_dir r);
  snapshots ← read_documents json_loads weight_fuel mk files snapshot_of;
  sort_by_time snapshots.

Definition _latest_snapshot (snapshots : list SnapshotMeta) : res SnapshotMeta :=
  of_option ValueError (last snapshots).

Definition _find_snapshot (snapshots : list SnapshotMeta) (id : string) : res SnapshotMeta :=
  match List.find (fun s => String.eqb (snapshot_id s) id) snapshots with
  | Some snap => Ok snap
  | None =>
      match List.filter (fun s => startswith (snapshot_id s) id) snapshots with
      | [snap] => Ok snap
      | _ => Err ValueError
      end
  end.

(** [_ensure_loaded]: what the restorer keeps once it is loaded. *)
Record loaded := Loaded {
  master_key : MasterKey; blob_index : list (json * BlobLocation); snapshots : list SnapshotMeta
}.
Definition _ensure_loaded (scrypt : bytes -> bytes -> Z -> Z -> Z -> Z -> res bytes)
    (json_loads : bytes -> res json) (b64decode_text : string -> res bytes) (weight_fuel : nat)
    (r : repo) (password : bytes) : res loaded :=
  mk ← _load_key scrypt json_loads b64decode_text r password;
  index ← _load_index json_loads weight_fuel mk r;
  snaps ← _load_snapshots json_loads weight_fuel mk r;
  Ok (Loaded mk index snaps).
