(* ===== verification/Blobs.v ===== *)
(** * Reading blobs: restore/restic_fallback.py

    Finding a pack file on the mounted discs, with the prompt for another disc, and
    reading a blob out of it; the count of files before a restore.  The files under
    the search paths can change at every prompt.  The prompts themselves, with the
    catalog they look labels up in, are not modelled.  Of the two definitions of
    [_decompress_zstd] it is the one over the vendored decoder, for systems without the
    [zstandard] package, that is modelled: [zstandard] itself, and what the branch that
    imports it does about limits, are not. *)

From S2P Require Import Prelude PyString PyText Aes Restic Zstd Json Effects Repository.
Open Scope string_scope.
Open Scope list_scope.
Open Scope Z_scope.

(** The files that can be opened, under their paths, with what reading them gives; and
    the lines that will be entered at the prompts, each with the files mounted then. *)
Definition mounts : Type := string -> option (res bytes).
Record world := World { mounted : mounts; stdin : list (string * mounts) }.

(** [root / name] *)
Definition join_path (root name : string) : string :=
  if String.prefix "/" name then name
  else if bool_decide (name = "") then root
  else root +:+ "/" +:+ name.

Definition _DISC_SWAP_MAX_RETRIES : nat := 50.

(** [f.seek(offset)] and [f.read(length)].  Past the end there is nothing to read. *)
Definition read_at (content : bytes) (offset length_ : json) : res bytes :=
  o ← as_int offset;
  _ ← raise_if ((o <? - 2 ^ 63) || (2 ^ 63 <=? o)) ValueError;
  _ ← raise_if (o <? 0) OSError;
  match length_ with
  | JNull => Ok (slice_from content o)
  | _ =>
      n ← as_int length_;
      _ ← raise_if ((n <? - 2 ^ 63) || (2 ^ 63 <=? n)) OverflowError;
      _ ← raise_if (n <? -1) ValueError;
      Ok (if n =? -1 then slice_from content o else slice content o (o + n))
  end.

Section blobs.
Variable sha256_hex : bytes -> string.
Variable json_loads : bytes -> res json.
Variable weight_fuel : nat.
(** The fields of the restorer: the key, the index, where packs are searched for, and
    whether it may prompt. *)
Variable mk : MasterKey.
Variable index : list (json * BlobLocation).
Variable pack_search_paths : list string.
Variable interactive : bool.

Definition candidates (pack_id root : string) : list string :=
  let prefix := str_prefix_of 2 pack_id in
  [join_path (join_path root prefix) pack_id; join_path root pack_id;
   join_path (join_path (join_path root "data") prefix) pack_id; join_path (join_path root "data") pack_id].
Definition is_file (m : mounts) (p : string) : bool := bool_decide (is_Some (m p)).
Definition _scan_pack_search_paths (m : mounts) (pack_id : string) : option string :=
  List.find (is_file m) (flat_map (candidates pack_id) pack_search_paths).

(** The loop over the prompts. *)
Fixpoint prompt_loop (retries : nat) (pack_id : string) : eff world string := fun w =>
  match retries with
  | O => (Err FileNotFoundError, w)
  | S retries =>
      match stdin w with
      | [] => (Err FileNotFoundError, w)
      | (line, m) :: rest =>
          let w := World m rest in
          if bool_decide (line = "") || bool_decide (str_lower (strip line) = "q") then
            (Err FileNotFoundError, w)
          else
            match _scan_pack_search_paths m pack_id with
            | Some hit => (Ok hit, w)
            | None => prompt_loop retries pack_id w
            end
      end
  end.
Definition _find_pack_path (pack_id : string) : eff world string := fun w =>
  match _scan_pack_search_paths (mounted w) pack_id with
  | Some hit => (Ok hit, w)
  | None => if interactive then prompt_loop _DISC_SWAP_MAX_RETRIES pack_id w else (Err FileNotFoundError, w)
  end.

Definition open_read (p : string) : eff world bytes := fun w =>
  (match mounted w p with Some content => content | None => Err FileNotFoundError end, w).

(** [decompress(data, max_output_size)] for a limit that comes out of a document. *)
Definition decompress_limited (data : bytes) (limit : json) : res bytes :=
  result ← decompress weight_fuel data 0;
  over ← (if truthy limit then exceeds (len result) limit else Ok false);
  _ ← raise_if over ZstdError;
  Ok result.

(** What is made of the decrypted bytes of a blob. *)
Definition expand_blob (blob_id : json) (loc : BlobLocation) (plaintext : bytes) : res bytes :=
  if negb (bool_decide (bl_uncompressed_length loc = JNull)) then
    decompress_limited plaintext (bl_uncompressed_length loc)
  else if bool_decide (slice_to plaintext 4 = _ZSTD_MAGIC) &&
          negb (bool_decide (JString (sha256_hex plaintext) = blob_id)) then
    decompress weight_fuel plaintext (len plaintext * 20)
  else Ok plaintext.

Definition _read_blob (blob_id : json) : eff world bytes :=
  key ← lift (hash_key blob_id);
  loc ← lift (of_option KeyError (dict_get key index));
  pack_id ← lift (as_str (bl_pack_id loc));
  pack_path ← _find_pack_path pack_id;
  content ← open_read pack_path;
  encrypted ← lift (read_at content (bl_offset loc) (bl_length loc));
  plaintext ← lift (_decrypt mk encrypted);
  plaintext ← lift (reraise_as [ZstdError] IntegrityError (expand_blob blob_id loc plaintext));
  _ ← lift (raise_if (negb (bool_decide (JString (sha256_hex plaintext) = blob_id))) IntegrityError);
  mret plaintext.

(** ** The count of files *)

(** What a node adds to the count and to the stack. *)
Definition count_node (acc : Z * list json) (node : json) : res (Z * list json) :=
  ntype ← get_or node "type" (JString "file");
  if bool_decide (ntype = JString "file") then Ok (acc.1 + 1, acc.2)
  else if bool_decide (ntype = JString "dir") then
    subtree ← has_key "subtree" node;
    if (subtree : bool) then s ← getitem node "subtree"; Ok (acc.1, s :: acc.2) else Ok acc
  else Ok acc.

(** One turn of the loop: an answer, or the state for the next turn. *)
Definition count_step (st : Z * list json * list json) : eff world (Z + (Z * list json * list json)) :=
  let '(total, stack, visited) := st in
  match stack with
  | [] => mret (inl total)
  | tid :: stack =>
      key ← lift (hash_key tid);
      if bool_decide (key ∈ visited) then mret (inr (total, stack, visited))
      else
        let visited := key :: visited in
        doc ← handle (data ← _read_blob tid; doc ← lift (json_loads data); mret (Some doc) : eff world (option json))
                (fun e => if caught [IntegrityError; KeyError; OSError; JSONDecodeError] e
                          then Some (mret (None : option json)) else None);
        match doc with
        | None => mret (inl total)
        | Some doc =>
            nodes ← lift (get_or doc "nodes" (JList [])); l ← lift (iterate nodes);
            '(total, stack) ← lift (foldM count_node (total, stack) l);
            mret (inr (total, stack, visited))
        end
  end.
(** The loop, up to a number of turns. *)
Fixpoint count_loop (fuel : nat) (st : Z * list json * list json) (w : world) : option (res Z * world) :=
  match fuel with
  | O => None
  | S fuel =>
      match count_step st w with
      | (Ok (inl total), w) => Some (Ok total, w)
      | (Ok (inr st), w) => count_loop fuel st w
      | (Err e, w) => Some (Err e, w)
      end
  end.
Definition _count_files (fuel : nat) (tree_id : json) : world -> option (res Z * world) :=
  count_loop fuel (0, [tree_id], []).
End blobs.
