(* ===== verification/RepositoryProps.v ===== *)
(** * What the repository reader promises

    Key files: a damaged one never hides a good one, and the password test is decided
    by the regular key files.  The index: the last entry of a blob among the files that
    no other supersedes.  Snapshots: the latest, and the one an id or a prefix names. *)

From S2P Require Import Prelude PyString Aes AesCtr Restic Zstd Json Sqlite Repository.
Open Scope string_scope.
Open Scope list_scope.
Open Scope Z_scope.

(** ** Parsing a document *)

Definition doc_error (e : exn) : bool := caught [ValueError; TypeError; KeyError; AttributeError] e.

(** What parsing raises, for a class [E] of exceptions that contains the above. *)
Section parsing.
Variable E : exn -> Prop.
Hypothesis HE : forall e, doc_error e = true -> E e.

Lemma getitem_errors doc k : ensures (fun _ => True) E (getitem doc k).
Proof using HE. destruct doc; cbn; auto. destruct (member k members); cbn; auto. Qed.
Lemma get_or_errors doc k d : ensures (fun _ => True) E (get_or doc k d).
Proof using HE. destruct doc; cbn; auto. Qed.
End parsing.

(** What the library functions raise, and that scrypt derives 64 bytes within the
    limits it is given. *)
Class Library (scrypt : bytes -> bytes -> Z -> Z -> Z -> Z -> res bytes) (json_loads : bytes -> res json)
    (b64decode_text : string -> res bytes) : Prop := {
  json_errors : forall b e, json_loads b = Err e -> is_a e ValueError = true;
  b64_errors : forall s e, b64decode_text s = Err e -> e = ValueError;
  b64_bytes : forall s b, b64decode_text s = Ok b -> bytes_ok b;
  scrypt_total : forall password salt n r p maxmem,
    scrypt_limits n r p = Ok maxmem ->
    exists derived, scrypt password salt n r p maxmem = Ok derived /\ length derived = 64%nat /\
      bytes_ok derived;
}.

(** ** Key files *)

(** A file can be read, or the read fails with an [OSError]. *)
Definition readable (content : res bytes) : Prop :=
  match content with Ok _ => True | Err e => is_a e OSError = true end.

Section keys.
Context scrypt json_loads b64decode_text `{LIB : !Library scrypt json_loads b64decode_text}.

Abbreviation load_master_key := (_load_master_key scrypt json_loads b64decode_text).

Lemma json_loads_errors E b :
  (forall e, doc_error e = true -> E e) -> ensures (fun _ => True) E (json_loads b).
Proof using LIB.
  intros HE. destruct (json_loads b) eqn:H; cbn; [done|]. apply HE.
  unfold doc_error, caught. cbn. by rewrite (json_errors _ _ H).
Qed.
Lemma b64decode_errors E v :
  (forall e, doc_error e = true -> E e) -> ensures bytes_ok E (b64decode b64decode_text v).
Proof using LIB.
  intros HE. destruct v; cbn; auto. destruct (b64decode_text s) eqn:H; cbn; [by eapply b64_bytes|].
  apply HE. by rewrite (b64_errors _ _ H).
Qed.
Lemma scrypt_maxmem_ok (E : exn -> Prop) n r p :
  E IntegrityError ->
  ensures (fun x => scrypt_limits x.1.1.1 x.1.1.2 x.1.2 = Ok x.2) E (_scrypt_maxmem n r p).
Proof.
  intros HE. unfold _scrypt_maxmem. destruct n, r, p; try done.
  unfold scrypt_limits at 2. destruct (_ || _) eqn:H; cbn; [done|]. unfold scrypt_limits. by rewrite H.
Qed.

(** The next call of a parser, of which only the errors matter. *)
Local Ltac parse_step :=
  first
    [eapply (ensures_bind _ (fun _ => True));
     [first [by apply getitem_errors|by apply get_or_errors|by apply json_loads_errors]|intros ? _ _]
    |eapply ensures_bind; [by apply b64decode_errors|intros ? _ ?]].

Definition key_file_error (e : exn) : Prop :=
  caught [OSError; ValueError; TypeError; KeyError; AttributeError] e = true \/ e = IntegrityError.

Lemma parse_key_file_ok content :
  readable content ->
  ensures (fun x => scrypt_limits x.1.2.1.1.1 x.1.2.1.1.2 x.1.2.1.2 = Ok x.1.2.2 /\ bytes_ok x.2)
    key_file_error
    (parse_key_file json_loads b64decode_text content).
Proof using LIB.
  intros Hc. unfold parse_key_file.
  assert (forall e, doc_error e = true -> key_file_error e) as HE.
  { intros e He. left. unfold doc_error, caught in *. cbn in *. rewrite He. apply orb_true_r. }
  eapply (ensures_bind _ (fun _ => True)); [|intros text _ _].
  { destruct content as [b|e]; cbn in *; [done|]. left. unfold caught. cbn. by rewrite Hc. }
  do 6 parse_step.
  eapply ensures_bind; [by apply scrypt_maxmem_ok; right|]. intros limits _ Hl.
  do 2 parse_step. by split.
Qed.

Lemma parse_master_errors master_json :
  ensures (fun _ => True) (fun e => doc_error e = true) (parse_master json_loads b64decode_text master_json).
Proof using LIB. unfold parse_master. do 9 parse_step. exact I. Qed.

Lemma decrypt_errors ke kk kr data :
  key_ok ke -> key_ok kk -> bytes_ok data ->
  ensures (fun _ => True) (fun e => is_a e IntegrityError = true) (_decrypt_authenticated ke kk kr data).
Proof.
  intros He Hk Hd.
  by destruct (decrypt_cases ke kk kr He Hk data Hd) as [->|(? & ? & _ & _ & _ & _ & ->)].
Qed.
(** A part of what scrypt derives is an AES key. *)
Lemma derived_key_ok derived a b :
  length derived = 64%nat -> bytes_ok derived -> 0 <= a -> b <= 64 -> b - a = 16 \/ b - a = 32 ->
  key_ok (slice derived a b).
Proof.
  intros Hl Hb Ha Hle Hlen. split.
  - rewrite length_slice by lia. lia.
  - rewrite slice_nonneg by lia. by apply Forall_take, Forall_drop.
Qed.

Lemma reraise_as_ensures {A} (P : A -> Prop) (E : exn -> Prop) classes to r :
  ensures P (fun e => E e \/ caught classes e = true) r -> E to -> ensures P E (reraise_as classes to r).
Proof.
  intros H Hto. destruct r as [a|e]; cbn in *; [done|]. destruct (caught classes e) eqn:C; cbn; [done|].
  by destruct H.
Qed.

(** A key file gives the master key up, or [IntegrityError] or one of its subclasses is
    raised. *)
Lemma load_master_key_errors content password e :
  readable content -> load_master_key content password = Err e -> is_a e IntegrityError = true.
Proof using LIB.
  intros Hc. enough (ensures (fun _ => True) (fun e => is_a e IntegrityError = true)
                       (load_master_key content password)) as H by (intros Hl; by rewrite Hl in H).
  unfold _load_master_key. eapply ensures_bind.
  { apply reraise_as_ensures; [|done]. apply reraise_as_ensures.
    - eapply ensures_weaken; [by apply parse_key_file_ok|intros x Hx; exact Hx|].
      intros e' [He'| ->]; [by left; right|by right].
    - by left. }
  intros [[salt [[[n r] p] maxmem]] enc] _ [Hl Henc]. cbn in Hl, Henc.
  destruct (scrypt_total password salt n r p maxmem Hl) as (derived & -> & Hlen & Hb). rewrite bind_Ok.
  eapply (ensures_bind _ (fun _ => True)).
  - assert (slice_to derived 32 = slice derived 0 32) as -> by by rewrite slice_to_nonneg, slice_nonneg by lia.
    apply decrypt_errors; [| |done]; apply derived_key_ok; lia || done.
  - intros m _ _. apply reraise_as_ensures; [|done].
    eapply ensures_weaken; [apply parse_master_errors|done|]. intros e' He'. by right.
Qed.

(** A key file tried with a password: [None] when it does not give the key up. *)
Definition key_of (password : bytes) (content : res bytes) : option MasterKey :=
  match load_master_key content password with Ok mk => Some mk | Err _ => None end.
(** The regular files of a directory, in the order of their names. *)
Definition regular (files : list (string * option (res bytes))) : list (string * res bytes) :=
  omap (fun f => (fun c => (f.1, c)) <$> f.2) (sorted_entries files).
Definition is_corrupt (password : bytes) (content : res bytes) : bool :=
  match load_master_key content password with Err e => is_a e KeyFileCorruptError | Ok _ => false end.

Lemma try_each_spec password l rejected corrupt :
  Forall (fun f => forall c, f.2 = Some c -> readable c) l ->
  let files := omap (fun f : string * option (res bytes) => (fun c => (f.1, c)) <$> f.2) l in
  try_each scrypt json_loads b64decode_text l password rejected corrupt =
  Ok match head (omap (fun f => key_of password f.2) files) with
     | Some mk => Unlocked mk
     | None =>
         Locked (rejected ++ (fst <$> List.filter (fun f => negb (is_corrupt password f.2)) files))
           (corrupt ++ (fst <$> List.filter (fun f => is_corrupt password f.2) files))
     end.
Proof using LIB.
  intros Hl. revert rejected corrupt. induction Hl as [|[name [c|]] l Hc Hl IH]; intros rejected corrupt; cbn zeta in *.
  - cbn. by rewrite !app_nil_r.
  - cbn [try_each]. cbn. unfold key_of at 1.
    destruct (load_master_key c password) as [mk|e] eqn:E; cbn; [done|].
    pose proof (load_master_key_errors c password e (Hc c eq_refl) E) as He. rewrite He.
    assert (is_corrupt password c = is_a e KeyFileCorruptError) as -> by (unfold is_corrupt; by rewrite E).
    destruct (is_a e KeyFileCorruptError); rewrite IH; destruct (head _); cbn; [done| |done|];
      by rewrite <- app_assoc.
  - cbn [try_each]. rewrite IH. done.
Qed.
Lemma try_keys_spec password files :
  Forall (fun f : string * _ => forall c, f.2 = Some c -> readable c) files -> files <> [] ->
  _try_keys scrypt json_loads b64decode_text (Some files) password =
  Ok match head (omap (fun f => key_of password f.2) (regular files)) with
     | Some mk => Unlocked mk
     | None =>
         Locked (fst <$> List.filter (fun f => negb (is_corrupt password f.2)) (regular files))
           (fst <$> List.filter (fun f => is_corrupt password f.2) (regular files))
     end.
Proof using LIB.
  intros Hr Hne. unfold _try_keys. cbn [of_option]. rewrite bind_Ok, bool_decide_false by done. cbn [raise_if].
  rewrite bind_Ok. rewrite try_each_spec; [done|]. unfold sorted_entries. by rewrite order_by_perm.
Qed.

(** The regular files are those of the directory. *)
Lemma elem_of_regular files name c : (name, c) ∈ regular files <-> (name, Some c) ∈ files.
Proof.
  unfold regular, sorted_entries. rewrite list_elem_of_omap. split.
  - intros ([n [c'|]] & Hin & Heq); cbn in Heq; [|done]. injection Heq as -> ->.
    by apply elem_of_order_by in Hin.
  - intros Hin. exists (name, Some c). split; [|done]. by apply elem_of_order_by.
Qed.

Lemma filter_split {A} (p : A -> bool) l : List.filter (fun x => negb (p x)) l ++ List.filter p l ≡ₚ l.
Proof.
  induction l as [|x l IH]; [done|]. cbn. destruct (p x); cbn; [|by rewrite IH].
  by rewrite <- Permutation_middle, IH.
Qed.

Lemma head_omap {A B} (f : A -> option B) l : is_Some (head (omap f l)) <-> exists x, x ∈ l /\ is_Some (f x).
Proof.
  induction l as [|x l IH]; csimpl.
  - split; [by intros [? [=]]|]. intros (x & Hx & _). by apply not_elem_of_nil in Hx.
  - destruct (f x) as [y|] eqn:E; csimpl.
    + split; [|eauto]. intros _. exists x. split; [by left|]. rewrite E. eauto.
    + rewrite IH. split; [intros (z & Hz & Hf); exists z; split; [by right|done]|].
      intros (z & Hz & Hf). exists z. apply elem_of_cons in Hz as [-> |Hz]; [|done].
      rewrite E in Hf. by destruct Hf.
Qed.
End keys.

(** ** Unlocking a repository *)

(** Unlocking a repository gives the key of the first file, in the order of the
    names, that the password opens: whatever is wrong with the files before it (bit rot,
    a read error, no JSON, hostile scrypt parameters, another password) they are passed
    over, so a damaged key file never hides a good one.  When no file opens, the error
    lists every other one, as rejected by the password or as unreadable. *)
Theorem damaged_key_files_passed_over scrypt json_loads b64decode_text
    `{LIB : !Library scrypt json_loads b64decode_text} r password files :
  keys_dir r = Some files -> files <> [] ->
  Forall (fun f : string * _ => forall c, f.2 = Some c -> readable c) files ->
  let tried := regular files in
  let key := key_of scrypt json_loads b64decode_text password in
  _load_key scrypt json_loads b64decode_text r password =
    of_option NoKeyUnlockedError (head (omap (fun f => key f.2) tried)) /\
  (is_ok (_load_key scrypt json_loads b64decode_text r password) = true <->
     exists name c, (name, Some c) ∈ files /\ is_Some (key c)) /\
  (forall rejected corrupt,
     _try_keys scrypt json_loads b64decode_text (Some files) password = Ok (Locked rejected corrupt) ->
     rejected ++ corrupt ≡ₚ (fst <$> tried)).
Proof.
  intros Hk Hne Hr tried key. pose proof (try_keys_spec _ _ _ password files Hr Hne) as Ht.
  fold tried in Ht.
  assert (_load_key scrypt json_loads b64decode_text r password =
    of_option NoKeyUnlockedError (head (omap (fun f => key f.2) tried))) as Hl.
  { unfold _load_key. rewrite Hk, Ht, bind_Ok. unfold key. by destruct (head _). }
  split; [done|]. split.
  - rewrite Hl. transitivity (is_Some (head (omap (fun f => key f.2) tried))).
    { destruct (head _); cbn; split; eauto; [done|by intros [? [=]]]. }
    rewrite head_omap. split.
    + intros ([name c] & Hin & Hs). exists name, c. split; [by apply elem_of_regular|done].
    + intros (name & c & Hin & Hs). exists (name, c). split; [by apply elem_of_regular|done].
  - intros rejected corrupt. rewrite Ht. destruct (head _); [done|]. intros [= <- <-].
    rewrite <- fmap_app. apply fmap_Permutation, filter_split.
Qed.

(** ** The index *)

(** What a document of the index lists: blobs and where they are. *)
Definition blob_entry (pack_id blob : json) : res (json * BlobLocation) :=
  blob_id ← getitem blob "id"; offset ← getitem blob "offset"; length_ ← getitem blob "length";
  type ← getitem blob "type"; ulen ← get_or blob "uncompressed_length" JNull;
  key ← hash_key blob_id; Ok (key, MkBlobLocation pack_id offset length_ type ulen).
Definition pack_entries (entry : json) : res (list (json * BlobLocation)) :=
  pack_id ← getitem entry "id"; blobs ← get_or entry "blobs" (JList []); l ← iterate blobs;
  mapM_res (blob_entry pack_id) l.
Definition document_entries (doc : string * json) : res (list (json * BlobLocation)) :=
  packs ← get_or doc.2 "packs" (JList []); l ← iterate packs;
  @concat _ <$> mapM_res pack_entries l.

Definition put_all (index : list (json * BlobLocation)) (es : list (json * BlobLocation)) :=
  foldl (fun index e => dict_put e.1 e.2 index) index es.

(** A loop that adds what each element lists. *)
Lemma foldM_put_all {A} (f : list (json * BlobLocation) -> A -> res (list (json * BlobLocation)))
    (g : A -> res (list (json * BlobLocation))) l index :
  (forall index x, f index x = put_all index <$> g x) ->
  foldM f index l = put_all index <$> (@concat _ <$> mapM_res g l).
Proof.
  intros H. revert index. induction l as [|x l IH]; intros index; [done|]. cbn [foldM mapM_res].
  rewrite H. destruct (g x) as [es|e]; cbn; [|done]. rewrite IH. destruct (mapM_res g l); cbn; [|done].
  unfold put_all. by rewrite foldl_app.
Qed.
Lemma mapM_res_singletons {A B} (g : A -> res B) l :
  @concat _ <$> mapM_res (fun x => (fun y => [y]) <$> g x) l = mapM_res g l.
Proof.
  induction l as [|x l IH]; [done|]. cbn. rewrite <- IH. destruct (g x); cbn; [|done].
  by destruct (mapM_res _ l).
Qed.

Lemma index_pack_spec index entry : index_pack index entry = put_all index <$> pack_entries entry.
Proof.
  unfold index_pack, pack_entries. destruct (getitem entry "id") as [pack_id|]; cbn; [|done].
  destruct (get_or _ _ _) as [blobs|]; cbn; [|done]. destruct (iterate blobs) as [l|]; cbn; [|done].
  rewrite (foldM_put_all _ (fun blob => (fun e => [e]) <$> blob_entry pack_id blob)).
  - by rewrite mapM_res_singletons.
  - intros index' blob. unfold index_blob, blob_entry.
    destruct (getitem blob "id"); cbn; [|done]. destruct (getitem blob "offset"); cbn; [|done].
    destruct (getitem blob "length"); cbn; [|done]. destruct (getitem blob "type"); cbn; [|done].
    destruct (get_or blob _ _); cbn; [|done]. by destruct (hash_key _).
Qed.
Lemma index_document_spec supersedes index doc :
  index_document supersedes index doc =
  put_all index <$> (if bool_decide (JString doc.1 ∈ supersedes) then Ok [] else document_entries doc).
Proof.
  unfold index_document, document_entries. destruct (bool_decide _); [done|].
  destruct (get_or _ _ _) as [packs|]; cbn; [|done]. destruct (iterate packs) as [l|]; cbn; [|done].
  apply foldM_put_all, index_pack_spec.
Qed.

Lemma put_all_get k es index :
  dict_get k (put_all index es) =
  match last (List.filter (fun e => bool_decide (e.1 = k)) es) with Some e => Some e.2 | None => dict_get k index end.
Proof.
  induction es as [|e es IH] using rev_ind; [done|]. unfold put_all in *. rewrite foldl_app. cbn.
  rewrite dict_get_put, List.filter_app. cbn. case_decide as Hk.
  - rewrite bool_decide_true by done. by rewrite last_snoc.
  - rewrite bool_decide_false by done. by rewrite app_nil_r.
Qed.

Lemma mapM_res_skip {A B} (p : A -> bool) (g : A -> res (list B)) l :
  @concat _ <$> mapM_res (fun x => if p x then Ok [] else g x) l =
  @concat _ <$> mapM_res g (List.filter (fun x => negb (p x)) l).
Proof.
  induction l as [|x l IH]; [done|]. cbn. destruct (p x); cbn.
  - rewrite <- IH. by destruct (mapM_res _ l).
  - destruct (g x); cbn; [|done].
    destruct (mapM_res _ l), (mapM_res _ (List.filter _ l)); cbn in *; congruence.
Qed.

(** The index that is loaded from the documents of the index directory has, for every
    blob, the location in its last entry in the files that no file of the directory
    supersedes, the files taken in the order of their names, and no location for a blob
    that these do not list; a file that is superseded adds nothing, and no entry is looked
    at before every file was decrypted and parsed. *)
Theorem index_is_last_entry json_loads weight_fuel mk r index :
  _load_index json_loads weight_fuel mk r = Ok index ->
  exists files docs entries,
    index_dir r = Some files /\
    read_documents json_loads weight_fuel mk files
      (fun doc => supersedes ← superseded_by doc.2; Ok (doc, supersedes)) = Ok docs /\
    mapM_res document_entries
      (List.filter (fun d => negb (bool_decide (JString d.1 ∈ mjoin docs.*2))) docs.*1) = Ok entries /\
    forall blob_id,
      dict_get blob_id index =
      snd <$> last (List.filter (fun e => bool_decide (e.1 = blob_id)) (concat entries)).
Proof.
  unfold _load_index. intros H. destruct (index_dir r) as [files|]; [|done]. cbn [of_option] in H.
  rewrite bind_Ok in H. apply bind_Ok_inv in H as (docs & Hd & H). exists files, docs.
  rewrite (foldM_put_all _ _ docs.*1 [] (index_document_spec (mjoin docs.*2))), mapM_res_skip in H.
  destruct (mapM_res document_entries _) as [entries|]; cbn in H; [|done]. exists entries.
  repeat (split; [done|]). intros blob_id. injection H as <-. rewrite put_all_get.
  by destruct (last _).
Qed.

(** ** Snapshots *)

(** The order of snapshots: by time, and by name among those of one time. *)
Definition before : SnapshotMeta -> SnapshotMeta -> bool :=
  lex (fun x y => String.compare (time_text x) (time_text y)) (by_key snapshot_id).
Lemma before_ok : le_ok before.
Proof. apply le_ok_lex; [apply cmp_ok_string|apply le_ok_by_key]. Qed.

Lemma insert_by_perm {A} (key : A -> string) x l : insert_by key x l ≡ₚ x :: l.
Proof.
  induction l as [|y l IH]; cbn; [done|]. destruct (String.leb _ _); [done|].
  rewrite IH. apply Permutation_swap.
Qed.
Lemma stable_sort_perm {A} (key : A -> string) l : stable_sort key l ≡ₚ l.
Proof. induction l as [|x l IH]; cbn; [done|]. by rewrite insert_by_perm, IH. Qed.

Lemma insert_by_sorted x l :
  Forall (fun y => by_key snapshot_id x y = true) l -> StronglySorted (fun s s' => before s s' = true) l ->
  StronglySorted (fun s s' => before s s' = true) (insert_by time_text x l).
Proof.
  intros Hx Hs. induction Hs as [|y l Hl IH Hy]; cbn; [by repeat constructor|].
  inversion Hx as [|?? Hxy Hxl]; subst. destruct before_ok as [_ Htr].
  destruct (String.leb (time_text x) (time_text y)) eqn:E.
  - assert (before x y = true) as Hb.
    { unfold before, lex, String.leb in *. by destruct (String.compare _ _). }
    constructor; [by constructor|]. constructor; [done|].
    eapply Forall_impl; [exact Hy|]. intros z Hz. by eapply Htr.
  - constructor; [by apply IH|].
    rewrite insert_by_perm. constructor; [|done]. unfold before, lex, String.leb in *.
    rewrite String.compare_antisym. by destruct (String.compare _ _).
Qed.
Lemma stable_sort_sorted l :
  StronglySorted (fun s s' => by_key snapshot_id s s' = true) l ->
  StronglySorted (fun s s' => before s s' = true) (stable_sort time_text l).
Proof.
  induction 1 as [|x l Hl IH Hx]; [constructor|].
  change (stable_sort time_text (x :: l)) with (insert_by time_text x (stable_sort time_text l)).
  apply insert_by_sorted; [|done]. by rewrite stable_sort_perm.
Qed.

Lemma regular_sorted files : StronglySorted (fun x y => by_key fst x y = true) (regular files).
Proof.
  unfold regular. assert (StronglySorted (fun x y => by_key fst x y = true) (sorted_entries files)) as H
    by apply order_by_sorted, le_ok_by_key.
  induction H as [|[n [c|]] l Hl IH Hx]; csimpl; [constructor| |done]. constructor; [done|].
  apply Forall_forall. intros [n' c'] ([n'' [c''|]] & Hin & Heq)%list_elem_of_omap; cbn in Heq; [|done].
  injection Heq as -> ->. rewrite Forall_forall in Hx. by apply (Hx _ Hin).
Qed.
(** A loop that keeps the names of what it goes over. *)
Lemma mapM_res_names {A B} (key : A -> string) (key' : B -> string) (g : A -> res B) l l' :
  (forall x y, g x = Ok y -> key' y = key x) -> mapM_res g l = Ok l' -> key' <$> l' = key <$> l.
Proof.
  intros Hg. revert l'. induction l as [|x l IH]; intros l' H; cbn in H; [by injection H as <-|].
  inv_bind H. injection H as <-. csimpl. f_equal; [by apply Hg|by apply IH].
Qed.
Lemma sorted_names {A B} (key : A -> string) (key' : B -> string) l l' :
  key' <$> l' = key <$> l -> StronglySorted (fun x y => by_key key x y = true) l ->
  StronglySorted (fun x y => by_key key' x y = true) l'.
Proof.
  intros He Hs. revert l' He. induction Hs as [|x l Hl IH Hx]; intros [|y l'] He; try done; [constructor|].
  csimpl in He. injection He as Hk He. constructor; [by apply IH|].
  assert (Forall (fun k => String.leb (key x) k = true) (key' <$> l')) as Hf
    by by rewrite He; apply Forall_fmap.
  apply Forall_fmap in Hf. eapply Forall_impl; [exact Hf|]. intros z Hz. unfold by_key. by rewrite Hk.
Qed.

(** The snapshots that are loaded are those of the regular files of the directory, each
    under its file's name, in the order of their times and of their names where times are
    equal, and the one a restore takes by default comes after every other in that order;
    without a file there is none and the restore is refused. *)
Theorem latest_snapshot_is_last json_loads weight_fuel mk r snaps :
  _load_snapshots json_loads weight_fuel mk r = Ok snaps ->
  (exists files, snapshots_dir r = Some files /\ (snapshot_id <$> snaps) ≡ₚ (fst <$> regular files)) /\
  StronglySorted (fun s s' => before s s' = true) snaps /\
  match _latest_snapshot snaps with
  | Ok s => s ∈ snaps /\ forall s', s' ∈ snaps -> s' = s \/ before s' s = true
  | Err e => e = ValueError /\ snaps = []
  end.
Proof.
  unfold _load_snapshots. intros H. destruct (snapshots_dir r) as [files|]; [|done]. cbn [of_option] in H.
  rewrite bind_Ok in H. inv_bind H. unfold sort_by_time in H. inv_bind H. injection H as <-.
  assert (snapshot_id <$> x = fst <$> regular files) as Hn.
  { refine (mapM_res_names fst snapshot_id _ _ _ _ E).
    intros [n c] y Hy. unfold snapshot_of in Hy. inv_bind Hy. by injection Hy as <-. }
  assert (StronglySorted (fun s s' => before s s' = true) (stable_sort time_text x)) as Hs
    by by eapply stable_sort_sorted, (sorted_names fst snapshot_id), regular_sorted.
  split; [|split; [done|]].
  - exists files. split; [done|]. by rewrite <- Hn, stable_sort_perm.
  - unfold _latest_snapshot. clear -Hs. revert Hs. generalize (stable_sort time_text x) as l.
    intros l Hs. destruct l as [|s l _] using rev_ind; [done|]. rewrite last_snoc. cbn. split.
    + apply elem_of_app. right. by left.
    + intros s' [Hin|Heq%list_elem_of_singleton]%elem_of_app; [right|by left].
      eapply (StronglySorted_app_1_elem_of (fun s s0 => before s s0 = true)); [exact Hs|done|by left].
Qed.

Lemma NoDup_fmap_same {A B} (f : A -> B) l x y :
  NoDup (f <$> l) -> x ∈ l -> y ∈ l -> f x = f y -> x = y.
Proof.
  intros Hnd [i Hi]%list_elem_of_lookup [j Hj]%list_elem_of_lookup Heq.
  assert (i = j) as -> by (eapply NoDup_lookup; [exact Hnd|rewrite list_lookup_fmap..];
    [by rewrite Hi|by rewrite Hj; cbn; rewrite Heq]). congruence.
Qed.
Lemma string_prefix_refl s : String.prefix s s = true.
Proof. induction s as [|c s IH]; cbn; [done|]. by destruct (Ascii.ascii_dec c c). Qed.

(** An id finds the snapshot of that name, a prefix the only snapshot whose name starts
    with it; one that fits no snapshot, or several without being the name of one, is
    refused. *)
Theorem find_snapshot_spec snaps id :
  NoDup (snapshot_id <$> snaps) ->
  (forall s, _find_snapshot snaps id = Ok s <->
     s ∈ snaps /\
     (snapshot_id s = id \/
      startswith (snapshot_id s) id = true /\
      forall s', s' ∈ snaps -> startswith (snapshot_id s') id = true -> s' = s)) /\
  (forall e, _find_snapshot snaps id = Err e -> e = ValueError).
Proof.
  intros Hnd. unfold _find_snapshot. split.
  - intros s. destruct (List.find _ snaps) as [s0|] eqn:E0.
    + apply List.find_some in E0 as [Hin0%list_elem_of_In Heq0%String.eqb_eq]. split.
      * intros [= <-]. auto.
      * intros [Hin [Heq|[Hp Hu]]].
        -- f_equal. apply (NoDup_fmap_same snapshot_id snaps); congruence || done.
        -- f_equal. apply Hu; [done|]. rewrite Heq0. apply string_prefix_refl.
    + pose proof (List.find_none _ _ E0) as Hno.
      assert (forall s', s' ∈ List.filter (fun s => startswith (snapshot_id s) id) snaps <->
                s' ∈ snaps /\ startswith (snapshot_id s') id = true) as Hf.
      { intros s'. by rewrite !list_elem_of_In, List.filter_In. }
      split.
      * destruct (List.filter _ snaps) as [|s0 [|s1 l]] eqn:E; [done| |done]. intros [= <-].
        destruct (proj1 (Hf s0) ltac:(by left)) as [Hin Hp]. split; [done|]. right. split; [done|].
        intros s' Hin' Hp'. apply list_elem_of_singleton. apply Hf. done.
      * intros [Hin [Heq|[Hp Hu]]].
        { apply list_elem_of_In in Hin. specialize (Hno s Hin). cbn in Hno. by rewrite Heq, String.eqb_refl in Hno. }
        assert (NoDup (List.filter (fun s => startswith (snapshot_id s) id) snaps)) as Hnf.
        { apply NoDup_ListNoDup, List.NoDup_filter, NoDup_ListNoDup. by eapply NoDup_fmap_1. }
        assert (s ∈ List.filter (fun s => startswith (snapshot_id s) id) snaps) as Hs by by apply Hf.
        destruct (List.filter _ snaps) as [|s0 [|s1 l]] eqn:E.
        -- by apply not_elem_of_nil in Hs.
        -- by apply list_elem_of_singleton in Hs as ->.
        -- exfalso. inversion Hnf as [|?? Hn _]; subst. apply Hn.
           assert (s0 = s) as -> by (apply Hu; apply Hf; by left).
           assert (s1 = s) as -> by (apply Hu; apply Hf; right; by left). by left.
  - intros e. destruct (List.find _ snaps); [done|].
    destruct (List.filter _ snaps) as [|? [|? ?]]; [by intros [= <-]|done|by intros [= <-]].
Qed.
