(* ===== verification/BlobProps.v ===== *)
(** * What reading a blob promises

    The content that is returned has the hash it was asked for; a blob that was stored is
    found and given back; the search for a pack ends after fifty prompts; the count of
    files ends on every repository. *)

From S2P Require Import Prelude PyString Aes AesCtr Restic Zstd Json Effects Repository Blobs.
Open Scope string_scope.
Open Scope list_scope.
Open Scope Z_scope.

Section blobs.
Context (sha256_hex : bytes -> string) (json_loads : bytes -> res json) (weight_fuel : nat).
Context (mk : MasterKey) (index : list (json * BlobLocation)) (paths : list string) (interactive : bool).

Abbreviation read_blob := (_read_blob sha256_hex weight_fuel mk index paths interactive).
Abbreviation count_step := (Blobs.count_step sha256_hex json_loads weight_fuel mk index paths interactive).
Abbreviation count_loop := (Blobs.count_loop sha256_hex json_loads weight_fuel mk index paths interactive).

(** What a successful read says. *)
Lemma read_blob_Ok id w data w' :
  read_blob id w = (Ok data, w') ->
  id = JString (sha256_hex data) /\ exists key loc, hash_key id = Ok key /\ dict_get key index = Some loc.
Proof.
  unfold _read_blob. intros H.
  apply eff_bind_Ok_inv in H as (key & w1 & [Hkey ->]%lift_inv & H).
  apply eff_bind_Ok_inv in H as (loc & w2 & [Hloc ->]%lift_inv & H).
  apply eff_bind_Ok_inv in H as (pack & w3 & _ & H).
  apply eff_bind_Ok_inv in H as (p & w4 & _ & H).
  apply eff_bind_Ok_inv in H as (content & w5 & _ & H).
  apply eff_bind_Ok_inv in H as (enc & w6 & _ & H).
  apply eff_bind_Ok_inv in H as (plain & w7 & _ & H).
  apply eff_bind_Ok_inv in H as (out & w8 & _ & H).
  apply eff_bind_Ok_inv in H as (u & w9 & [Hr _]%lift_inv & H). injection H as <- _.
  apply raise_if_Ok in Hr. apply negb_false_iff, bool_decide_eq_true in Hr. split; [done|].
  exists key, loc. split; [done|]. destruct (dict_get key index); [by injection Hloc as ->|done].
Qed.

(** ** The count ends *)

Definition unvisited (visited : list json) : nat :=
  length (filter (fun k => k ∉ visited) (fst <$> index)).

Lemma dict_get_elem {V} k (v : V) (d : list (json * V)) : dict_get k d = Some v -> k ∈ (fst <$> d).
Proof. intros H%dict_get_in. apply list_elem_of_fmap. by exists (k, v). Qed.
Lemma unvisited_visit k visited :
  k ∈ (fst <$> index) -> k ∉ visited -> (unvisited (k :: visited) < unvisited visited)%nat.
Proof.
  unfold unvisited. generalize (fst <$> index) as l. intros l. induction l as [|x l IH]; intros Hin Hno.
  { by apply not_elem_of_nil in Hin. }
  assert (length (filter (fun x => x ∉ k :: visited) l) <= length (filter (fun x => x ∉ visited) l))%nat as Hle.
  { clear. induction l as [|x l IH]; [done|]. rewrite !filter_cons. repeat case_decide; cbn; try lia.
    rewrite not_elem_of_cons in *. naive_solver. }
  rewrite !filter_cons. destruct (decide (x = k)) as [->|Hne].
  - rewrite decide_False by (rewrite not_elem_of_cons; naive_solver). rewrite decide_True by done. cbn. lia.
  - assert (k ∈ l) as Hl by (apply elem_of_cons in Hin; naive_solver). specialize (IH Hl Hno). repeat case_decide; cbn; try lia.
    rewrite not_elem_of_cons in *. naive_solver.
Qed.

(** What a turn leaves to do. *)
Lemma count_step_smaller total tid stack visited w total' stack' visited' w' :
  count_step (total, tid :: stack, visited) w = (Ok (inr (total', stack', visited')), w') ->
  (unvisited visited' < unvisited visited)%nat \/ (visited' = visited /\ stack' = stack).
Proof.
  unfold Blobs.count_step. intros H. apply eff_bind_Ok_inv in H as (key & w1 & [Hkey ->]%lift_inv & H).
  case_bool_decide as Hin; [injection H as <- <- <- <-; by right|]. left.
  apply eff_bind_Ok_inv in H as ([doc|] & w2 & Hd & H); [|done].
  apply eff_bind_Ok_inv in H as (nodes & w3 & _ & H).
  apply eff_bind_Ok_inv in H as (l & w4 & _ & H).
  apply eff_bind_Ok_inv in H as ([t s] & w5 & _ & H). injection H as <- <- <- <-.
  apply unvisited_visit; [|done].
  apply handle_Ok_inv in Hd as [Hd|(e & w6 & k & _ & Hk & Hd)]; [|by destruct (caught _ e); simplify_eq].
  apply eff_bind_Ok_inv in Hd as (data & w7 & Hr & _). apply read_blob_Ok in Hr as (_ & key' & loc & Hk & Hl).
  rewrite Hkey in Hk. injection Hk as <-. by eapply dict_get_elem.
Qed.

Lemma count_loop_ends st w : exists n r, forall fuel, (n <= fuel)%nat -> count_loop fuel st w = Some r.
Proof.
  destruct st as [[total stack] visited]. remember (unvisited visited) as m eqn:Hm.
  revert total stack visited w Hm. induction (lt_wf m) as [m _ IHm]. intros total stack.
  revert total. induction stack as [|tid stack IHs]; intros total visited w ->.
  { exists 1%nat, (Ok total, w). intros [|fuel] Hf; [lia|done]. }
  destruct (count_step (total, tid :: stack, visited) w) as [[[t|[[t' s'] v']]|e] w'] eqn:E.
  - exists 1%nat, (Ok t, w'). intros [|fuel] Hf; [lia|]. cbn [Blobs.count_loop]. by rewrite E.
  - assert (exists n r, forall fuel, (n <= fuel)%nat -> count_loop fuel (t', s', v') w' = Some r) as (n & r & H).
    { destruct (count_step_smaller _ _ _ _ _ _ _ _ _ E) as [Hlt|[-> ->]]; [by eapply IHm|by apply IHs]. }
    exists (S n), r. intros [|fuel] Hf; [lia|]. cbn [Blobs.count_loop]. rewrite E. apply H. lia.
  - exists 1%nat, (Err e, w'). intros [|fuel] Hf; [lia|]. cbn [Blobs.count_loop]. by rewrite E.
Qed.
End blobs.

Section claims.
Context (sha256_hex : bytes -> string) (json_loads : bytes -> res json) (weight_fuel : nat).
Context (mk : MasterKey) (index : list (json * BlobLocation)) (paths : list string) (interactive : bool).
Abbreviation read_blob := (_read_blob sha256_hex weight_fuel mk index paths interactive).

(** The count of files before a restore ends on every repository, however its trees refer
    to each other, with cycles and shared or missing subtrees. *)
Theorem count_files_ends tree_id w :
  exists n r, forall fuel, (n <= fuel)%nat ->
    _count_files sha256_hex json_loads weight_fuel mk index paths interactive fuel tree_id w = Some r.
Proof. apply count_loop_ends. Qed.

(** How a blob of content [data] is stored: raw, or as a zstd frame that the index gives the
    size of. *)
Definition stored_as (loc : BlobLocation) (payload data : bytes) : Prop :=
  bl_uncompressed_length loc = JNull /\ payload = data \/
  exists n, bl_uncompressed_length loc = JInt n /\ len data <= n /\ decompress weight_fuel payload 0 = Ok data.

Lemma expand_stored loc payload data :
  stored_as loc payload data -> expand_blob sha256_hex weight_fuel (JString (sha256_hex data)) loc payload = Ok data.
Proof.
  unfold expand_blob. intros [[Hu Hp]|(n & -> & Hn & Hd)].
  - subst payload. rewrite Hu, bool_decide_true by done. cbn [negb].
    rewrite (bool_decide_true (JString _ = _)) by done. cbn. by rewrite andb_false_r.
  - rewrite bool_decide_false by done. cbn [negb]. unfold decompress_limited. rewrite Hd, bind_Ok.
    destruct (truthy (JInt n)); [|done]. unfold exceeds, number, less_than. rewrite bind_Ok. cbn.
    rewrite !Z.mul_1_r. by rewrite (proj2 (Z.ltb_ge _ _) Hn).
Qed.

Lemma read_at_slice content o n :
  0 <= o < 2 ^ 63 -> 0 <= n < 2 ^ 63 -> read_at content (JInt o) (JInt n) = Ok (slice content o (o + n)).
Proof.
  intros Ho Hn. unfold read_at. cbn [as_int]. rewrite !bind_Ok.
  rewrite (proj2 (Z.ltb_ge o (- 2 ^ 63))), (proj2 (Z.leb_gt (2 ^ 63) o)) by lia.
  rewrite (proj2 (Z.ltb_ge o 0)) by lia. cbn [orb raise_if]. rewrite !bind_Ok.
  rewrite (proj2 (Z.ltb_ge n (- 2 ^ 63))), (proj2 (Z.leb_gt (2 ^ 63) n)) by lia.
  rewrite (proj2 (Z.ltb_ge n (-1))) by lia. cbn [orb raise_if]. rewrite !bind_Ok.
  by rewrite (proj2 (Z.eqb_neq n (-1))) by lia.
Qed.

(** C9.  Reading a blob gives what was stored or fails: content that is returned has the
    SHA-256 it was asked for by, whatever the index, the packs and the discs hold; and a
    blob that the index places at its sealed bytes in a pack that is mounted, raw or
    compressed, is read back without a prompt, content that itself starts with the zstd
    magic number included. *)
Theorem read_blob_correct :
  (forall id w data w', read_blob id w = (Ok data, w') -> id = JString (sha256_hex data)) /\
  (forall pack o n type ulen w path before sealed after iv payload data,
     let loc := MkBlobLocation (JString pack) (JInt o) (JInt n) type ulen in
     key_ok (mk_encrypt mk) -> key_ok (mk_mac_k mk) ->
     dict_get (JString (sha256_hex data)) index = Some loc ->
     _scan_pack_search_paths paths (mounted w) pack = Some path ->
     mounted w path = Some (Ok (before ++ sealed ++ after)) ->
     o = len before -> n = len sealed -> o < 2 ^ 63 -> n < 2 ^ 63 ->
     state_ok iv -> payload <> [] -> bytes_ok payload ->
     seal (mk_encrypt mk) (mk_mac_k mk) (mk_mac_r mk) iv payload = Ok sealed ->
     stored_as loc payload data ->
     read_blob (JString (sha256_hex data)) w = (Ok data, w)).
Proof.
  split; [intros id w data w' H; by apply read_blob_Ok in H as [H _]|].
  intros pack o n type ulen w path before sealed after iv payload data loc Hke Hkk Hi Hp Hm -> ->
    Ho Hn Hiv Hne Hb Hs Hst.
  unfold _read_blob. change (lift (hash_key (JString (sha256_hex data)))) with
    (lift (S := world) (Ok (JString (sha256_hex data)))).
  rewrite (eff_bind_Ok _ _ w (JString (sha256_hex data)) w) by done. rewrite Hi.
  rewrite (eff_bind_Ok _ _ w loc w) by done. rewrite (eff_bind_Ok _ _ w pack w) by done.
  rewrite (eff_bind_Ok _ _ w path w) by (unfold _find_pack_path; by rewrite Hp).
  rewrite (eff_bind_Ok _ _ w (before ++ sealed ++ after) w) by (unfold open_read; by rewrite Hm).
  rewrite (eff_bind_Ok _ _ w sealed w).
  2:{ cbn [bl_offset bl_length loc]. rewrite read_at_slice by lia. by rewrite (slice_app before sealed after). }
  rewrite (eff_bind_Ok _ _ w payload w).
  2:{ unfold _decrypt. by rewrite (decrypt_seal _ _ _ Hke Hkk iv payload sealed Hiv Hne Hb Hs). }
  rewrite (eff_bind_Ok _ _ w data w) by by rewrite expand_stored.
  by rewrite bool_decide_true.
Qed.

Lemma scan_Some m pack p :
  _scan_pack_search_paths paths m pack = Some p ->
  is_file m p = true /\ exists root, root ∈ paths /\ p ∈ candidates pack root.
Proof.
  intros [Hin Hf]%List.find_some. split; [done|].
  apply List.in_flat_map in Hin as (root & Hr & Hc). exists root. by rewrite !list_elem_of_In.
Qed.
Lemma prompt_loop_spec n pack w :
  let r := prompt_loop paths n pack w in
  match r.1 with
  | Ok path => is_file (mounted r.2) path = true /\ exists root, root ∈ paths /\ path ∈ candidates pack root
  | Err e => e = FileNotFoundError
  end /\ exists asked, stdin w = asked ++ stdin r.2 /\ (length asked <= n)%nat.
Proof.
  revert w. induction n as [|n IH]; intros w; cbn [prompt_loop].
  { split; [done|]. by exists []. }
  destruct (stdin w) as [|[line m] rest] eqn:Hw; cbn.
  { rewrite Hw. split; [done|]. exists []. split; [done|cbn; lia]. }
  destruct (_ || _); [split; [done|]; exists [(line, m)]; split; [done|cbn; lia]|].
  destruct (_scan_pack_search_paths paths m pack) as [p|] eqn:E.
  { split; [by apply scan_Some|]. exists [(line, m)]. split; [done|cbn; lia]. }
  destruct (IH (World m rest)) as [Hr (asked & Ha & Hn)]. split; [done|].
  exists ((line, m) :: asked). split; [exact (f_equal (cons _) Ha)|cbn; lia].
Qed.

(** The search for a pack gives a file that is mounted when it returns, under one of the
    four layouts of a search path, and asks for another disc fifty times at most; it never
    prompts for a pack that is mounted, nor when it is not to be interactive. *)
Theorem find_pack_path_spec pack w :
  let result := _find_pack_path paths interactive pack w in
  match result.1 with
  | Ok path => is_file (mounted result.2) path = true /\ exists root, root ∈ paths /\ path ∈ candidates pack root
  | Err e => e = FileNotFoundError /\
      (_scan_pack_search_paths paths (mounted result.2) pack = None \/ interactive = true)
  end /\
  (exists asked, stdin w = asked ++ stdin result.2 /\ (length asked <= _DISC_SWAP_MAX_RETRIES)%nat /\
     (interactive = false \/ _scan_pack_search_paths paths (mounted w) pack <> None -> asked = [])).
Proof.
  intros result. unfold result, _find_pack_path. clear result.
  destruct (_scan_pack_search_paths paths (mounted w) pack) as [p|] eqn:E.
  { split; [by apply scan_Some|]. exists []. split_and!; [done|cbn; lia|done]. }
  destruct interactive; [|split; [split; [done|by left]|exists []; split_and!; [done|cbn; lia|done]]].
  destruct (prompt_loop_spec _DISC_SWAP_MAX_RETRIES pack w) as [Hr (asked & Ha & Hn)]. split.
  - destruct (prompt_loop paths _DISC_SWAP_MAX_RETRIES pack w).1; [done|]. split; [done|by right].
  - exists asked. split; [done|]. split; [done|]. by intros [?|?].
Qed.

(** ** Why a blob cannot be read *)

(** An index whose locations have the shapes restic writes, and discs whose files can be read
    or fail with an [OSError]. *)
Definition location_ok (loc : BlobLocation) : Prop :=
  exists pack o n, bl_pack_id loc = JString pack /\ bl_offset loc = JInt o /\ bl_length loc = JInt n /\
    0 <= o < 2 ^ 63 /\ 0 <= n < 2 ^ 63 /\
    (bl_uncompressed_length loc = JNull \/ exists z, bl_uncompressed_length loc = JInt z).
Definition mounts_ok (m : mounts) : Prop :=
  forall p content, m p = Some content ->
  match content with Ok b => bytes_ok b | Err e => is_a e OSError = true end.
Definition world_ok (w : world) : Prop := mounts_ok (mounted w) /\ Forall (fun x => mounts_ok x.2) (stdin w).

Lemma prompt_loop_world n pack w : world_ok w -> world_ok (prompt_loop paths n pack w).2.
Proof.
  revert w. induction n as [|n IH]; intros w Hw; cbn [prompt_loop]; [done|].
  destruct (stdin w) as [|[line m] rest] eqn:E; [done|].
  assert (world_ok (World m rest)) as Hw'.
  { destruct Hw as [_ Hs]. rewrite E in Hs. by inversion Hs. }
  destruct (_ || _); [done|]. destruct (_scan_pack_search_paths paths m pack); [done|by apply IH].
Qed.
Lemma find_pack_path_world pack w : world_ok w -> world_ok (_find_pack_path paths interactive pack w).2.
Proof.
  intros Hw. unfold _find_pack_path. destruct (_scan_pack_search_paths _ _ _); [done|].
  destruct interactive; [by apply prompt_loop_world|done].
Qed.
Lemma find_pack_path_errors pack w e :
  (_find_pack_path paths interactive pack w).1 = Err e -> e = FileNotFoundError.
Proof.
  unfold _find_pack_path. destruct (_scan_pack_search_paths _ _ _); [done|]. destruct interactive; [|by intros [= <-]].
  destruct (prompt_loop_spec _DISC_SWAP_MAX_RETRIES pack w) as [H _]. intros He. by rewrite He in H.
Qed.

Lemma decompress_errors payload limit e :
  decompress weight_fuel payload limit = Err e -> e = ZstdError \/ decompress weight_fuel payload 0 = Err e.
Proof.
  unfold decompress. destruct (_decompress_frame _ _) as [out|e']; cbn; [|auto].
  destruct (_ && _); cbn; [|done]. intros [= <-]. by left.
Qed.
(** A blob that is handed to the decoder. *)
Definition compressed (blob_id : json) (loc : BlobLocation) (payload : bytes) : Prop :=
  bl_uncompressed_length loc <> JNull \/
  slice_to payload 4 = _ZSTD_MAGIC /\ JString (sha256_hex payload) <> blob_id.
(** Expanding fails with [IntegrityError], or as the decoder does. *)
Lemma expand_errors blob_id loc payload e :
  location_ok loc ->
  reraise_as [ZstdError] IntegrityError (expand_blob sha256_hex weight_fuel blob_id loc payload) = Err e ->
  e = IntegrityError \/
  e <> ZstdError /\ compressed blob_id loc payload /\ decompress weight_fuel payload 0 = Err e.
Proof.
  intros (_ & _ & _ & _ & _ & _ & _ & _ & Hu) H.
  destruct (expand_blob sha256_hex weight_fuel blob_id loc payload) as [|e0] eqn:E; [done|]. cbn in H.
  destruct (decide (e0 = ZstdError)) as [->|Hne]; [cbn in H; injection H as <-; by left|right].
  assert (e = e0) as -> by (destruct e0; vm_compute in H; congruence). split; [done|].
  unfold expand_blob in E. case_bool_decide as Hn; cbn [negb] in E.
  - case_bool_decide as Hm; [|done]. case_bool_decide as Hh; cbn [negb andb] in E; [done|].
    split; [by right|]. by destruct (decompress_errors _ _ _ E).
  - split; [by left|]. unfold decompress_limited in E.
    destruct (decompress _ _ 0) as [out|e'] eqn:Ed; cbn in E; [|congruence].
    destruct Hu as [Hu|[z Hu]]; rewrite Hu in E; cbn in E; [done|]. destruct (negb (z =? 0)); cbn in E; [|done].
    destruct (less_than _ _); cbn in E; [by injection E as <-|done].
Qed.

(** The bytes that are decrypted for a blob, from a pack that is mounted under one of the
    layouts of a search path. *)
Record payload_of (w : world) (id : string) (loc : BlobLocation) (payload : bytes) : Prop := {
  po_index : dict_get (JString id) index = Some loc;
  po_pack : exists pack root path content encrypted,
    bl_pack_id loc = JString pack /\ root ∈ paths /\ path ∈ candidates pack root /\
    mounted w path = Some (Ok content) /\
    read_at content (bl_offset loc) (bl_length loc) = Ok encrypted /\ _decrypt mk encrypted = Ok payload
}.
Lemma find_pack_path_found pack w path w' :
  _find_pack_path paths interactive pack w = (Ok path, w') -> exists root, root ∈ paths /\ path ∈ candidates pack root.
Proof.
  unfold _find_pack_path. destruct (_scan_pack_search_paths paths (mounted w) pack) as [p|] eqn:E.
  { intros [= <- <-]. by apply scan_Some in E as [_ ?]. }
  destruct interactive; [|done]. intros H. destruct (prompt_loop_spec _DISC_SWAP_MAX_RETRIES pack w) as [Hr _].
  rewrite H in Hr. by destruct Hr.
Qed.

Lemma read_blob_errors id w e w' :
  key_ok (mk_encrypt mk) -> key_ok (mk_mac_k mk) -> world_ok w ->
  (forall loc, dict_get (JString id) index = Some loc -> location_ok loc) ->
  read_blob (JString id) w = (Err e, w') ->
  match dict_get (JString id) index with
  | None => e = KeyError
  | Some loc =>
      e = IntegrityError \/ is_a e OSError = true \/
      exists payload, payload_of w' id loc payload /\ compressed (JString id) loc payload /\
        e <> ZstdError /\ decompress weight_fuel payload 0 = Err e
  end.
Proof.
  intros Hke Hkk Hw Hidx. unfold _read_blob.
  change (lift (hash_key (JString id))) with (lift (S := world) (Ok (JString id))).
  rewrite (eff_bind_Ok _ _ w (JString id) w) by done.
  destruct (dict_get (JString id) index) as [loc|] eqn:Eloc; [|by intros [= <- _]].
  rewrite (eff_bind_Ok _ _ w loc w) by done.
  pose proof (Hidx _ eq_refl) as Hloc. pose proof Hloc as (pack & o & n & Hp & Ho & Hn & Hor & Hnr & _).
  rewrite Hp, Ho, Hn. rewrite (eff_bind_Ok _ _ w pack w) by done.
  pose proof (find_pack_path_world pack w Hw) as Hw1. pose proof (find_pack_path_errors pack w) as Hfe.
  destruct (_find_pack_path paths interactive pack w) as [[path|e1] w1] eqn:Ef.
  2:{ rewrite (eff_bind_Err _ _ _ _ _ Ef). intros [= <- _]. right. left. by rewrite (Hfe _ eq_refl). }
  rewrite (eff_bind_Ok _ _ _ _ _ Ef). cbn in Hw1. destruct Hw1 as [Hm _].
  unfold open_read at 1. destruct (mounted w1 path) as [[content|e1]|] eqn:Em.
  2:{ intros H. unfold mbind, eff_bind in H. rewrite Em in H. injection H as <- _. right. left.
      exact (Hm _ _ Em). }
  2:{ intros H. unfold mbind, eff_bind in H. rewrite Em in H. injection H as <- _. right. by left. }
  rewrite (eff_bind_Ok _ _ w1 content w1) by by rewrite Em.
  rewrite read_at_slice by done. rewrite (eff_bind_Ok _ _ w1 (slice content o (o + n)) w1) by done.
  assert (bytes_ok (slice content o (o + n))) as Hb.
  { rewrite slice_nonneg by lia. by apply Forall_take, Forall_drop, (Hm _ _ Em). }
  destruct (_decrypt mk (slice content o (o + n))) as [pt|e1] eqn:Ed.
  2:{ unfold _decrypt in Ed. destruct (decrypt_cases _ _ (mk_mac_r mk) Hke Hkk _ Hb) as [Hc|(iv & pt & _ & _ & _ & _ & Hc)];
      rewrite Hc in Ed; [|done]. injection Ed as <-. intros [= <- _]. by left. }
  rewrite (eff_bind_Ok _ _ w1 pt w1) by done.
  destruct (reraise_as _ _ _) as [out|e1] eqn:Ex.
  2:{ intros [= <- <-]. destruct (expand_errors _ _ _ _ Hloc Ex) as [->|(? & ? & ?)]; [by left|right; right].
      exists pt. split_and!; [|done..]. split; [done|].
      destruct (find_pack_path_found _ _ _ _ Ef) as (root & Hr & Hc).
      exists pack, root, path, content, (slice content o (o + n)). rewrite Ho, Hn. by rewrite read_at_slice. }
  rewrite (eff_bind_Ok _ _ w1 out w1) by done.
  case_bool_decide; cbn; [done|]. intros [= <- _]. by left.
Qed.

(** Without prompts the discs stay as they are. *)
Lemma read_blob_world id w : interactive = false -> (read_blob id w).2 = w.
Proof.
  intros ->. assert (forall A B (m : eff world A) (k : A -> eff world B),
    (forall w, (m w).2 = w) -> (forall a w, (k a w).2 = w) -> forall w, ((m ≫= k) w).2 = w) as Hbind.
  { intros A B m k Hm Hk v. unfold mbind, eff_bind. specialize (Hm v). destruct (m v) as [[a|e] v']; cbn in Hm; subst; [apply Hk|done]. }
  revert w. unfold _read_blob. repeat (apply Hbind; [intros w|intros ?]); try done.
  unfold _find_pack_path. by destruct (_scan_pack_search_paths _ _ _).
Qed.

(** C10.  One bad blob ends no more than its file: with an index of the usual shape and any
    discs, a blob that is not in the index fails with [KeyError]; one that is fails with
    [IntegrityError] or an [OSError], be its disc not found, its pack unreadable or
    truncated, its bytes tampered with or of another content, all of which a tolerant
    restore records and goes on after; the only exception to this is a blob that was
    decrypted and that is compressed, on whose very bytes the pure-Python decoder raises
    something other than its own error. *)
Theorem blob_failures_contained id w e w' :
  key_ok (mk_encrypt mk) -> key_ok (mk_mac_k mk) -> world_ok w ->
  (forall loc, dict_get (JString id) index = Some loc -> location_ok loc) ->
  read_blob (JString id) w = (Err e, w') ->
  match dict_get (JString id) index with
  | None => e = KeyError
  | Some loc =>
      e = IntegrityError \/ is_a e OSError = true \/
      exists payload, payload_of w' id loc payload /\ compressed (JString id) loc payload /\
        e <> ZstdError /\ decompress weight_fuel payload 0 = Err e
  end.
Proof. apply read_blob_errors. Qed.
End claims.
