(* ===== verification/Restore.v ===== *)
(** * Restoring a tree: restore/restic_fallback.py

    The traversal of a snapshot's tree and the files, directories and links it makes,
    over whatever reads blobs.  Of metadata the calls to the system are kept, in order;
    their effect, and what the system answers, are not part of the state.  The target is
    apart from the discs, and the disk is never full. *)

From Stdlib Require Import Ascii.
From S2P Require Import Prelude PyString PyText Json Effects Posix.
Open Scope string_scope.
Open Scope list_scope.
Open Scope Z_scope.

(** One entry of [self._failures]: a node that could not be restored, with the blob and the
    exception, or a symlink that was left out. *)
Inductive failure :=
  | NotRestored (p : path) (blob_id : json) (e : exn)
  | SkippedSymlink (p : path) (target : string).
(** A call that sets metadata. *)
Inductive metadata_call :=
  | Chmod (mode : Z)
  | Utime (atime mtime : Z)
  | Setxattr (name : string) (value : bytes).

Record rstate (W : Type) := RState {
  rs_world : W;
  rs_fs : fs;
  rs_failures : list failure;
  hardlink_map : list (json * json * path);
  done_files : Z; done_bytes : Z;
  last_emit_files : Z; last_emit_bytes : Z;
  calls : list (path * metadata_call)
}.
Arguments RState {W}. Arguments rs_world {W}. Arguments rs_fs {W}. Arguments rs_failures {W}.
Arguments hardlink_map {W}. Arguments done_files {W}. Arguments done_bytes {W}.
Arguments last_emit_files {W}. Arguments last_emit_bytes {W}. Arguments calls {W}.

Definition PROGRESS_FILES_INTERVAL : Z := 50.
Definition PROGRESS_BYTES_INTERVAL : Z := 64 * 1024 * 1024.

(** [path.with_name(path.name + ".lcsas-partial")] *)
Definition partial_name (name : string) : string := name +:+ ".lcsas-partial".
Definition partial_path (p : path) : path :=
  removelast p ++ [partial_name (List.last p EmptyString)].

(** The exceptions that end one node only. *)
Definition node_errors : list exn := [IntegrityError; KeyError; OSError].

Section restore.
Context {W : Type}.
Variable read_blob : json -> eff W bytes.
Variable json_loads : bytes -> res json.
Variable b64decode_text : string -> res bytes.
(** [datetime.fromisoformat], or [strptime] where that fails, and [timestamp], in
    nanoseconds. *)
Variable iso_timestamp : string -> res Z.
Variable strict progress_enabled : bool.

Abbreviation R := (eff (rstate W)).

(** ** Parts of the state *)

Definition on_world {A} (m : eff W A) : R A := fun s =>
  let '(r, w) := m (rs_world s) in
  (r, RState w (rs_fs s) (rs_failures s) (hardlink_map s) (done_files s) (done_bytes s)
        (last_emit_files s) (last_emit_bytes s) (calls s)).
Definition set_fs (f : fs) (s : rstate W) : rstate W :=
  RState (rs_world s) f (rs_failures s) (hardlink_map s) (done_files s) (done_bytes s)
    (last_emit_files s) (last_emit_bytes s) (calls s).
(** A call of the file system, that changes nothing when it fails. *)
Definition fs_call (g : fs -> res fs) : R unit := fun s =>
  match g (rs_fs s) with Ok f => (Ok tt, set_fs f s) | Err e => (Err e, s) end.
Definition fs_open (p : path) : R positive := fun s =>
  match open_write (rs_fs s) p with Ok (f, i) => (Ok i, set_fs f s) | Err e => (Err e, s) end.
Definition fs_rmtree (p : path) : R unit := fun s => let '(r, f) := rmtree (rs_fs s) p in (r, set_fs f s).
Definition add_failure (x : failure) : R unit := modify (fun s =>
  RState (rs_world s) (rs_fs s) (rs_failures s ++ [x]) (hardlink_map s) (done_files s) (done_bytes s)
    (last_emit_files s) (last_emit_bytes s) (calls s)).
Definition _record_failure (p : path) (blob_id : json) (e : exn) : R unit := add_failure (NotRestored p blob_id e).
Definition add_link (k : json * json) (p : path) : R unit := modify (fun s =>
  RState (rs_world s) (rs_fs s) (rs_failures s) (dict_put k p (hardlink_map s)) (done_files s)
    (done_bytes s) (last_emit_files s) (last_emit_bytes s) (calls s)).

(** ** Progress *)

Definition _emit_progress (force : bool) : R unit := modify (fun s =>
  let due := (PROGRESS_FILES_INTERVAL <=? done_files s - last_emit_files s)
             || (PROGRESS_BYTES_INTERVAL <=? done_bytes s - last_emit_bytes s) in
  if negb progress_enabled || negb (force || due) || (force && (done_files s =? 0)) then s
  else
    RState (rs_world s) (rs_fs s) (rs_failures s) (hardlink_map s) (done_files s) (done_bytes s)
      (done_files s) (done_bytes s) (calls s)).
Definition count_file (bytes_written : Z) : R unit := modify (fun s =>
  RState (rs_world s) (rs_fs s) (rs_failures s) (hardlink_map s) (done_files s + 1)
    (done_bytes s + bytes_written) (last_emit_files s) (last_emit_bytes s) (calls s)).

(** ** Metadata *)

(** The text that [_parse_timestamp] gives to [datetime]: no "Z" at the end, and six
    digits after the point. *)
Fixpoint rstrip_Z (s : string) : string :=
  match s with
  | EmptyString => EmptyString
  | String c s =>
      let t := rstrip_Z s in
      if Ascii.eqb c "Z" && bool_decide (t = EmptyString) then EmptyString else String c t
  end.
Definition ljust6 (s : string) : string := s +:+ zeros (6 - String.length s).
Definition timestamp_text (ts : string) : string :=
  let ts := rstrip_Z ts in
  match split_on "."%char ts with
  | [] | [_] => ts +:+ ".000000"
  | date_part :: rest =>
      let frac := str_prefix_of 6 (String.concat "." rest) in
      date_part +:+ "." +:+ ljust6 frac
  end.
Definition _parse_timestamp (ts : json) : res Z :=
  match ts with
  | JString s => iso_timestamp (timestamp_text s)
  | _ => Err AttributeError
  end.

(** The calls [_apply_metadata] makes, in order, up to an exception. *)
Definition mode_calls (symlink : bool) (node : json) : res (list metadata_call) :=
  has ← has_key "mode" node;
  if (has : bool) && negb symlink then
    mode ← getitem node "mode"; m ← as_int mode; Ok [Chmod (Z.land m 0xFFF)]
  else Ok [].
Definition time_calls (node : json) : res (list metadata_call) :=
  mtime ← get_or node "mtime" JNull; atime ← get_or node "atime" JNull;
  if truthy mtime then
    mt ← _parse_timestamp mtime; at_ ← (if truthy atime then _parse_timestamp atime else Ok mt);
    Ok [Utime at_ mt]
  else Ok [].
Definition xattr_calls (xa : json) : res (list metadata_call) :=
  name ← get_or xa "name" (JString ""); v ← get_or xa "value" (JString "");
  value ← (s ← as_str v; b64decode_text s);
  if truthy name then n ← as_str name; Ok [Setxattr n value] else Ok [].

Definition make_calls (p : path) (r : res (list metadata_call)) : R unit := fun s =>
  match r with
  | Ok l =>
      (Ok tt, RState (rs_world s) (rs_fs s) (rs_failures s) (hardlink_map s) (done_files s) (done_bytes s)
                (last_emit_files s) (last_emit_bytes s) (calls s ++ (pair p <$> l)))
  | Err e => (Err e, s)
  end.
(** [except (OSError, ValueError)] around the times: such a node keeps its times. *)
Definition _apply_metadata (node : json) (p : path) : R unit :=
  symlink ← gets (fun s => is_symlink (rs_fs s) p);
  make_calls p (mode_calls symlink node) ≫= fun _ =>
  handle (make_calls p (time_calls node))
    (fun e => if caught [OSError; ValueError] e then Some (mret tt) else None) ≫= fun _ =>
  xattrs ← lift (get_or node "extended_attributes" (JList [])); l ← lift (iterate xattrs);
  for_each (fun xa => make_calls p (xattr_calls xa)) l.

(** ** Files *)

(** The loop over the blobs of a file, which are appended to the open file; a blob that
    cannot be read is recorded and ends the file. *)
Fixpoint write_blobs (p : path) (i : positive) (ids : list json) : R Z :=
  match ids with
  | [] => mret 0
  | blob_id :: ids =>
      chunk ← handle (on_world (read_blob blob_id))
                (fun e => if caught node_errors e && negb strict then
                            Some (_record_failure p blob_id e ≫= fun _ => throw NodeFailed)
                          else None);
      fs_call (fun f => Ok (append_file f i chunk)) ≫= fun _ =>
      n ← write_blobs p i ids;
      mret (len chunk + n)
  end.

Definition _restore_file (node : json) (p : path) : R unit :=
  fs_call (fun f => mkdir f (removelast p)) ≫= fun _ =>
  content_ids ← lift (get_or node "content" (JList []));
  let tmp_path := partial_path p in
  bytes_written ←
    handle
      (i ← fs_open tmp_path;
       ids ← lift (iterate content_ids);
       n ← write_blobs p i ids;
       _apply_metadata node tmp_path ≫= fun _ =>
       fs_call (fun f => replace f tmp_path p) ≫= fun _ =>
       mret n)
      (fun e =>
         if bool_decide (e = NodeFailed) then
           Some (fs_call (fun f => unlink true f tmp_path) ≫= fun _ => throw NodeFailed)
         else if caught node_errors e then
           Some (fs_call (fun f => unlink true f tmp_path) ≫= fun _ =>
                 if strict then throw e
                 else _record_failure p (JString "") e ≫= fun _ => throw NodeFailed)
         else None);
  count_file bytes_written ≫= fun _ => _emit_progress false.

(** The file's key among the hard links, when it has several names. *)
Definition hardlink_key (node : json) : res (option (json * json)) :=
  inode ← get_or node "inode" (JInt 0);
  links ← get_or node "links" (JInt 1);
  dev ← get_or node "device" (JInt 0);
  device ← get_or node "device_id" dev;
  several ← (if truthy inode then above_one links else Ok false);
  if (several : bool) then d ← hash_key device; i ← hash_key inode; Ok (Some (d, i)) else Ok None.

(** A further name of a file that was restored: linked, or restored again where the link
    cannot be made. *)
Definition try_link (k : json * json) (p : path) : R bool :=
  known ← gets (fun s => dict_get k (hardlink_map s));
  match known with
  | None => mret false
  | Some src =>
      handle
        (fs_call (fun f => mkdir f (removelast p)) ≫= fun _ =>
         fs_call (fun f => os_link f src p) ≫= fun _ => mret true)
        (fun e => if is_a e OSError then Some (mret false) else None)
  end.
Definition restore_file_node (node : json) (p : path) : R unit :=
  key ← lift (hardlink_key node);
  match key with
  | None => _restore_file node p
  | Some k =>
      linked ← try_link k p;
      if (linked : bool) then mret tt
      else _restore_file node p ≫= fun _ => add_link k p
  end.

(** ** Links *)

Definition restore_symlink_node (node : json) (target_dir p : path) : R unit :=
  t ← lift (get_or node "linktarget" (JString "")); link_target ← lift (as_str t);
  if is_absolute link_target then mret tt
  else
    f ← gets rs_fs;
    resolved ← lift (resolve f (removelast p ++ components link_target));
    root ← lift (resolve f target_dir);
    if negb (bool_decide (root `prefix_of` resolved)) then add_failure (SkippedSymlink p link_target)
    else
      (if is_symlink f p || exists_ f p then
         if is_dir f p && negb (is_symlink f p) then fs_rmtree p
         else fs_call (fun f => unlink false f p)
       else mret tt) ≫= fun _ =>
      fs_call (fun f => symlink_to f p link_target).

(** ** Trees *)

Definition restore_dir_node (recurse : json -> path -> R unit) (node : json) (p : path) : R unit :=
  fs_call (fun f => mkdir f p) ≫= fun _ =>
  subtree ← lift (has_key "subtree" node);
  (if (subtree : bool) then id ← lift (getitem node "subtree"); recurse id p else mret tt) ≫= fun _ =>
  _apply_metadata node p.

(** One turn of the loop over the nodes. *)
Definition restore_node (recurse : json -> path -> R unit) (target_dir : path) (node : json) : R unit :=
  name_ ← lift (getitem node "name");
  node_type ← lift (get_or node "type" (JString "file"));
  name ← lift (as_str name_);
  let safe_name := path_name name in
  if bool_decide (safe_name = "") || negb (String.eqb safe_name name) then mret tt
  else
    let node_path := target_dir ++ [safe_name] in
    handle
      (if bool_decide (node_type = JString "file") then restore_file_node node node_path
       else if bool_decide (node_type = JString "dir") then restore_dir_node recurse node node_path
       else if bool_decide (node_type = JString "symlink") then restore_symlink_node node target_dir node_path
       else mret tt)
      (fun e =>
         if bool_decide (e = NodeFailed) then Some (mret tt)
         else if caught node_errors e && negb strict then Some (_record_failure node_path (JString "") e)
         else None).

(** [depth] is what the interpreter's recursion limit leaves. *)
Fixpoint _restore_tree (depth : nat) (tree_id : json) (target_dir : path) : R unit :=
  match depth with
  | O => throw RecursionError
  | S depth =>
      tree_doc ← handle
        (tree_data ← on_world (read_blob tree_id); doc ← lift (json_loads tree_data); mret (Some doc) : R (option json))
        (fun e => if caught (node_errors ++ [JSONDecodeError]) e && negb strict then
                    Some (_record_failure target_dir tree_id e ≫= fun _ => mret None)
                  else None);
      match tree_doc with
      | None => mret tt
      | Some doc =>
          nodes ← lift (get_or doc "nodes" (JList [])); l ← lift (iterate nodes);
          for_each (restore_node (_restore_tree depth) target_dir) l
      end
  end.
End restore.
