(* ===== verification/RestoreProps.v ===== *)
(** * A tolerant restore gives back everything that can be read

    For a stored tree of directories and files, what the traversal leaves in the file
    system, what it records as lost and what it counts are those of a reference
    description of the tree: every file whose blobs can be read is there with its content,
    a file with a blob that cannot be read is missing and recorded, and a directory whose
    tree cannot be read is empty and recorded. *)

From S2P Require Import Prelude PyString PyText Aes AesCtr Restic Zstd Json Effects Posix Repository Blobs BlobProps Restore.
Open Scope string_scope.
Open Scope list_scope.
Open Scope Z_scope.

(** ** Stored trees *)

(** A file with the blobs of its content; a directory with its tree's blob and nodes; and a
    directory whose tree cannot be read. *)
#[warnings="-register-all"]
Inductive snode :=
  | SFile (name : string) (ids : list string)
  | SDir (name : string) (id : string) (nodes : list snode)
  | SBroken (name : string) (id : string).
Definition snode_name (n : snode) : string :=
  match n with SFile name _ | SDir name _ _ | SBroken name _ => name end.

Section snode_ind.
Variable P : snode -> Prop.
Hypothesis Hfile : forall name ids, P (SFile name ids).
Hypothesis Hdir : forall name id nodes, Forall P nodes -> P (SDir name id nodes).
Hypothesis Hbroken : forall name id, P (SBroken name id).
Fixpoint snode_induction (n : snode) : P n :=
  match n with
  | SFile name ids => Hfile name ids
  | SDir name id nodes =>
      Hdir name id nodes ((fix go (l : list snode) : Forall P l :=
        match l with [] => Forall_nil_2 P | n :: l => Forall_cons_2 P n l (snode_induction n) (go l) end) nodes)
  | SBroken name id => Hbroken name id
  end.
End snode_ind.

(** How deep the traversal recurses below a node. *)
Fixpoint height (n : snode) : nat :=
  match n with
  | SFile _ _ => 0
  | SBroken _ _ => 1
  | SDir _ _ nodes => S (foldr (fun n h => Nat.max (height n) h) 0%nat nodes)
  end.
Definition heights (l : list snode) : nat := foldr (fun n h => Nat.max (height n) h) 0%nat l.

(** Names of one directory: plain, different, and none that another file is written
    under while it is incomplete. *)
Definition name_ok (name : string) : Prop := path_name name = name /\ name <> "" /\ name <> "..".
Definition names_ok (l : list string) : Prop :=
  Forall name_ok l /\ NoDup l /\ forall a b, a ∈ l -> b ∈ l -> b <> partial_name a.

Section restore_tree.
Context {W : Type} (read_blob : json -> eff W bytes) (json_loads : bytes -> res json).
Context (b64decode_text : string -> res bytes) (iso_timestamp : string -> res Z) (progress_enabled : bool).
(** The reader at a state of the discs: what it gives for each blob, where a failure is one
    of those that a restore goes on after. *)
Context (w : W) (rd : string -> res bytes).
Hypothesis reads : forall id, read_blob (JString id) w = (rd id, w).
Hypothesis read_errors : forall id e, rd id = Err e -> caught node_errors e = true.

Abbreviation R := (eff (rstate W)).
Abbreviation restore_tree :=
  (_restore_tree read_blob json_loads b64decode_text iso_timestamp false progress_enabled).
Abbreviation restore_node' :=
  (restore_node read_blob b64decode_text iso_timestamp false progress_enabled).

(** The document of a tree, and its nodes. *)
Definition tree_doc (id : string) : res json := data ← rd id; json_loads data.
Definition tree_nodes (id : string) : res (list json) :=
  doc ← tree_doc id; nodes ← get_or doc "nodes" (JList []); iterate nodes.

(** Metadata that raises nothing but what is caught. *)
Definition metadata_ok (j : json) : Prop :=
  (forall symlink, exists l, mode_calls symlink j = Ok l) /\
  ensures (fun _ => True) (fun e => caught [OSError; ValueError] e = true) (time_calls iso_timestamp j) /\
  exists xattrs, (v ← get_or j "extended_attributes" (JList []); iterate v) = Ok xattrs /\
    Forall (fun xa => exists l, xattr_calls b64decode_text xa = Ok l) xattrs.

(** The documents of a file with one name, and of a directory. *)
Definition file_json (j : json) (name : string) (ids : list string) : Prop :=
  getitem j "name" = Ok (JString name) /\ get_or j "type" (JString "file") = Ok (JString "file") /\
  hardlink_key j = Ok None /\
  (v ← get_or j "content" (JList []); iterate v) = Ok (JString <$> ids) /\ metadata_ok j.
Definition dir_json (j : json) (name id : string) : Prop :=
  getitem j "name" = Ok (JString name) /\ get_or j "type" (JString "file") = Ok (JString "dir") /\
  has_key "subtree" j = Ok true /\ getitem j "subtree" = Ok (JString id) /\ metadata_ok j.

(** A document describes a node of the tree. *)
Fixpoint node_at (n : snode) (j : json) : Prop :=
  match n with
  | SFile name ids => file_json j name ids
  | SBroken name id =>
      dir_json j name id /\
      exists e, tree_doc id = Err e /\ caught (node_errors ++ [JSONDecodeError]) e = true
  | SDir name id nodes =>
      dir_json j name id /\ names_ok (snode_name <$> nodes) /\
      exists l, tree_nodes id = Ok l /\
        (fix all (nodes : list snode) (l : list json) : Prop :=
           match nodes, l with
           | [], [] => True
           | n :: nodes, j :: l => node_at n j /\ all nodes l
           | _, _ => False
           end) nodes l
  end.
Definition nodes_at (nodes : list snode) (l : list json) : Prop := Forall2 node_at nodes l.

(** ** What a restore of it makes *)

(** The content of a file, or its first blob that cannot be read. *)
Fixpoint contents (ids : list string) : bytes + (string * exn) :=
  match ids with
  | [] => inl []
  | id :: ids =>
      match rd id with
      | Err e => inr (id, e)
      | Ok chunk => match contents ids with inl data => inl (chunk ++ data) | inr x => inr x end
      end
  end.
Definition tree_error (id : string) : exn := match tree_doc id with Err e => e | Ok _ => ValueError end.

(** What is seen under [dir], what is recorded as lost, and how many files and bytes are
    counted. *)
Fixpoint image (dir : path) (n : snode) : gmap path view :=
  match n with
  | SFile name ids =>
      match contents ids with inl data => {[ dir ++ [name] := VFile data ]} | inr _ => ∅ end
  | SBroken name _ => {[ dir ++ [name] := VDir ]}
  | SDir name _ nodes =>
      foldr (fun n m => m ∪ image (dir ++ [name]) n) ∅ nodes ∪ {[ dir ++ [name] := VDir ]}
  end.
Definition image_list (dir : path) (l : list snode) : gmap path view :=
  foldr (fun n m => m ∪ image dir n) ∅ l.
Fixpoint lost (dir : path) (n : snode) : list failure :=
  match n with
  | SFile name ids =>
      match contents ids with
      | inl _ => []
      | inr (id, e) => [NotRestored (dir ++ [name]) (JString id) e]
      end
  | SBroken name id => [NotRestored (dir ++ [name]) (JString id) (tree_error id)]
  | SDir name _ nodes => foldr (fun n l => lost (dir ++ [name]) n ++ l) [] nodes
  end.
Definition lost_list (dir : path) (l : list snode) : list failure := foldr (fun n r => lost dir n ++ r) [] l.
Fixpoint files (n : snode) : Z :=
  match n with
  | SFile _ ids => match contents ids with inl _ => 1 | inr _ => 0 end
  | SBroken _ _ => 0
  | SDir _ _ nodes => foldr (fun n k => files n + k) 0 nodes
  end.
Definition files_list (l : list snode) : Z := foldr (fun n k => files n + k) 0 l.

(** What a restore from a good state may change: the file system by [v], the failures by
    [fl], and the count of files by [n]. *)
Record adds (s s' : rstate W) (v : gmap path view) (fl : list failure) (n : Z) : Prop := {
  adds_world : rs_world s' = rs_world s;
  adds_ok : fs_ok (rs_fs s) -> fs_ok (rs_fs s');
  adds_look p : look (rs_fs s') p = match v !! p with Some x => Some x | None => look (rs_fs s) p end;
  adds_failures : rs_failures s' = rs_failures s ++ fl;
  adds_files : done_files s' = done_files s + n
}.

Definition set_calls (c : list (path * metadata_call)) (s : rstate W) : rstate W :=
  RState (rs_world s) (rs_fs s) (rs_failures s) (hardlink_map s) (done_files s) (done_bytes s)
    (last_emit_files s) (last_emit_bytes s) c.
Definition add_failures (l : list failure) (s : rstate W) : rstate W :=
  RState (rs_world s) (rs_fs s) (rs_failures s ++ l) (hardlink_map s) (done_files s) (done_bytes s)
    (last_emit_files s) (last_emit_bytes s) (calls s).

Lemma adds_refl s : adds s s ∅ [] 0.
Proof. constructor; [done|done|done|by rewrite app_nil_r|lia]. Qed.
Lemma adds_trans s1 s2 s3 v1 v2 fl1 fl2 n1 n2 :
  adds s1 s2 v1 fl1 n1 -> adds s2 s3 v2 fl2 n2 -> adds s1 s3 (v2 ∪ v1) (fl1 ++ fl2) (n1 + n2).
Proof.
  intros [Hw1 Ho1 Hl1 Hf1 Hn1] [Hw2 Ho2 Hl2 Hf2 Hn2]. constructor.
  - congruence.
  - auto.
  - intros p. rewrite Hl2, lookup_union. destruct (v2 !! p) as [x|] eqn:E.
    + by destruct (v1 !! p).
    + rewrite Hl1. by destruct (v1 !! p).
  - by rewrite Hf2, Hf1, app_assoc.
  - lia.
Qed.
Lemma adds_fs s f :
  (fs_ok (rs_fs s) -> fs_ok f) -> (forall p, look f p = look (rs_fs s) p) -> adds s (set_fs f s) ∅ [] 0.
Proof. intros Ho Hl. constructor; [done|done| |by rewrite app_nil_r|cbn; lia]. intros p. apply Hl. Qed.

(** The image of a node is under its name. *)
Lemma image_list_lookup dir l p x :
  image_list dir l !! p = Some x -> exists n, n ∈ l /\ image dir n !! p = Some x.
Proof.
  induction l as [|n l IH]; [done|]. change (image_list dir (n :: l)) with (image_list dir l ∪ image dir n).
  intros [H|[_ H]]%lookup_union_Some_raw.
  - destruct (IH H) as (n' & Hin & Hn). exists n'. split; [by right|done].
  - exists n. split; [by left|done].
Qed.
Lemma image_under dir n p x : image dir n !! p = Some x -> (dir ++ [snode_name n]) `prefix_of` p.
Proof.
  revert dir p x. induction n as [name ids|name id nodes IH|name id] using snode_induction; intros dir p x H; cbn in *.
  - destruct (contents ids); [|done]. by apply lookup_singleton_Some in H as [<- _].
  - apply lookup_union_Some_raw in H as [H|[_ H]].
    + apply image_list_lookup in H as (n & Hin & Hn). rewrite Forall_forall in IH.
      apply IH in Hn; [|done]. etrans; [|exact Hn]. by apply prefix_app_r.
    + by apply lookup_singleton_Some in H as [<- _].
  - by apply lookup_singleton_Some in H as [<- _].
Qed.

(** ** Parts of the traversal *)

Lemma make_calls_Ok p l (s : rstate W) : exists c, make_calls p (Ok l) s = (Ok tt, set_calls c s).
Proof. by exists (calls s ++ (pair p <$> l)). Qed.
Lemma apply_metadata_Ok j p (s : rstate W) :
  metadata_ok j -> exists c, _apply_metadata b64decode_text iso_timestamp j p s = (Ok tt, set_calls c s).
Proof.
  intros (Hm & Ht & xattrs & Hx & Hxs). unfold _apply_metadata.
  rewrite (eff_bind_Ok _ _ s (is_symlink (rs_fs s) p) s) by done.
  destruct (Hm (is_symlink (rs_fs s) p)) as [l ->]. destruct (make_calls_Ok p l s) as [c1 H1].
  rewrite (eff_bind_Ok _ _ _ _ _ H1).
  assert (exists c, handle (make_calls p (time_calls iso_timestamp j))
    (fun e => if caught [OSError; ValueError] e then Some (mret tt) else None) (set_calls c1 s) =
    (Ok tt, set_calls c s)) as [c2 H2].
  { unfold handle. destruct (time_calls iso_timestamp j) as [lt|e]; unfold ensures in Ht.
    - destruct (make_calls_Ok p lt (set_calls c1 s)) as [c ->]. by exists c.
    - cbn [make_calls]. rewrite Ht. by exists c1. }
  rewrite (eff_bind_Ok _ _ _ _ _ H2). clear H1 H2 c1.
  destruct (get_or j "extended_attributes" (JList [])) as [v|]; [|done]. cbn in Hx.
  rewrite (eff_bind_Ok _ _ _ v (set_calls c2 s)) by done. rewrite Hx.
  rewrite (eff_bind_Ok _ _ _ xattrs (set_calls c2 s)) by done. clear Hx.
  revert c2. induction Hxs as [|xa xattrs [lx Hl] _ IH]; intros c; cbn [for_each]; [by exists c|].
  rewrite Hl. destruct (make_calls_Ok p lx (set_calls c s)) as [c' H]. rewrite (eff_bind_Ok _ _ _ _ _ H).
  apply (IH c').
Qed.

(** The blobs of a file are appended to it, up to one that cannot be read. *)
Lemma write_blobs_spec p i ids (s : rstate W) old :
  rs_world s = w -> inodes (rs_fs s) !! i = Some old ->
  exists data,
    let f := FS (entries_ (rs_fs s)) (<[i := old ++ data]> (inodes (rs_fs s))) in
    match contents ids with
    | inl all => data = all /\
        write_blobs read_blob false p i (JString <$> ids) s = (Ok (len all), set_fs f s)
    | inr (id, e) =>
        write_blobs read_blob false p i (JString <$> ids) s =
        (Err NodeFailed, add_failures [NotRestored p (JString id) e] (set_fs f s))
    end.
Proof using reads read_errors.
  revert s old. induction ids as [|id ids IH]; intros s old Hw Hi; csimpl.
  { exists []. split; [done|]. rewrite app_nil_r, insert_id by done. by destruct s as [? []]. }
  assert (on_world (read_blob (JString id)) s = (rd id, s)) as Hr.
  { unfold on_world. rewrite Hw, reads, <- Hw. by destruct s. }
  cbn [write_blobs]. destruct (rd id) as [chunk|e] eqn:E.
  - rewrite (eff_bind_Ok _ _ s chunk s) by (unfold handle; by rewrite Hr).
    set (s1 := set_fs (append_file (rs_fs s) i chunk) s).
    rewrite (eff_bind_Ok _ _ s tt s1) by done.
    destruct (IH s1 (old ++ chunk)) as [data H]; [done|by cbn; rewrite lookup_alter_eq, Hi|].
    exists (chunk ++ data). cbn zeta in H |- *. rewrite <- app_assoc in H.
    assert (<[i := old ++ chunk ++ data]> (alter (fun old => old ++ chunk) i (inodes (rs_fs s))) =
            <[i := old ++ chunk ++ data]> (inodes (rs_fs s))) as Hm.
    { apply map_eq. intros k. destruct (decide (i = k)) as [->|]; [by rewrite !lookup_insert_eq|].
      by rewrite !lookup_insert_ne, lookup_alter_ne. }
    change (inodes (rs_fs s1)) with (alter (fun old => old ++ chunk) i (inodes (rs_fs s))) in H. rewrite Hm in H.
    destruct (contents ids) as [all|[id' e']].
    + destruct H as [-> H]. split; [done|]. rewrite (eff_bind_Ok _ _ _ _ _ H), length_app.
      by replace (len chunk + len all) with (Z.of_nat (length chunk + length all)) by lia.
    + by rewrite (eff_bind_Err _ _ _ _ _ H).
  - exists []. cbn zeta. rewrite app_nil_r, insert_id by done.
    apply eff_bind_Err. unfold handle. rewrite Hr.
    pose proof (read_errors id e E) as He. cbn in He. rewrite He. cbn. by destruct s as [? []].
Qed.

(** ** Names *)

Lemma string_length_app s t : String.length (s +:+ t) = (String.length s + String.length t)%nat.
Proof.
  induction s as [|c s IH]; [done|].
  change (S (String.length (s +:+ t)) = S (String.length s + String.length t))%nat. by rewrite IH.
Qed.
Lemma partial_name_dots name : partial_name name <> "..".
Proof.
  intros H. apply (f_equal String.length) in H. unfold partial_name in H.
  rewrite string_length_app in H. cbn in H. lia.
Qed.
Lemma partial_name_ne name : partial_name name <> name.
Proof.
  intros H. apply (f_equal String.length) in H. unfold partial_name in H.
  rewrite string_length_app in H. cbn in H. lia.
Qed.
Lemma partial_path_snoc (dir : path) name : partial_path (dir ++ [name]) = dir ++ [partial_name name].
Proof. unfold partial_path. by rewrite List.removelast_last, List.last_last. Qed.

(** Where a node will be there is nothing yet, nor where its file is written. *)
Definition clear (f : fs) (dir : path) (name : string) : Prop :=
  (forall rest, look f (dir ++ name :: rest) = None) /\ look f (dir ++ [partial_name name]) = None.

(** ** A file *)

Lemma open_write_adds (s : rstate W) dir name :
  fs_ok (rs_fs s) -> real_dir (rs_fs s) dir -> name <> ".." -> look (rs_fs s) (dir ++ [name]) = None ->
  exists i, let f := FS (<[dir ++ [name] := File i]> (entries_ (rs_fs s))) (<[i := []]> (inodes (rs_fs s))) in
    fs_open (dir ++ [name]) s = (Ok i, set_fs f s) /\ inodes (rs_fs s) !! i = None /\
    forall p j, entries_ (rs_fs s) !! p = Some (File j) -> j <> i.
Proof.
  intros Hok Hd Hn Hl. exists (fresh (dom (inodes (rs_fs s)))). cbn zeta.
  assert (inodes (rs_fs s) !! fresh (dom (inodes (rs_fs s))) = None) as Hf.
  { apply not_elem_of_dom, is_fresh. }
  split; [|split; [done|]].
  - unfold fs_open. by rewrite (open_write_new (rs_fs s) dir name Hd Hn Hl).
  - intros p j Hp ->. destruct (Hok p _ Hp) as [x Hx]. congruence.
Qed.

Lemma set_fs_id (s : rstate W) : set_fs (rs_fs s) s = s.
Proof. by destruct s. Qed.

Abbreviation restore_file := (_restore_file read_blob b64decode_text iso_timestamp false progress_enabled).

(** The file while it is written. *)
Definition writing (f : fs) (tmp : path) (i : positive) (data : bytes) : fs :=
  FS (<[tmp := File i]> (entries_ f)) (<[i := data]> (inodes f)).

(** The inner [try] of [_restore_file]: the file under its partial name, then renamed. *)
Lemma write_file_spec j dir name ids (s : rstate W) :
  metadata_ok j -> rs_world s = w -> fs_ok (rs_fs s) -> real_dir (rs_fs s) dir -> name <> ".." ->
  look (rs_fs s) (dir ++ [name]) = None -> look (rs_fs s) (dir ++ [partial_name name]) = None ->
  let tmp := dir ++ [partial_name name] in
  exists i,
    (forall p k, entries_ (rs_fs s) !! p = Some (File k) -> k <> i) /\
    let run := (i ← fs_open tmp;
       l ← lift (Ok (JString <$> ids));
       n ← write_blobs read_blob false (dir ++ [name]) i l;
       _apply_metadata b64decode_text iso_timestamp j tmp ≫= fun _ =>
       fs_call (fun f => replace f tmp (dir ++ [name])) ≫= fun _ => mret n) s in
    match contents ids with
    | inl all => exists c,
        run = (Ok (len all), set_calls c
          (set_fs (set_entry (remove_entry (writing (rs_fs s) tmp i all) tmp) (dir ++ [name]) (File i)) s))
    | inr (id, e) => exists data,
        run = (Err NodeFailed,
          add_failures [NotRestored (dir ++ [name]) (JString id) e] (set_fs (writing (rs_fs s) tmp i data) s))
    end.
Proof using reads read_errors.
  intros Hm Hw Hok Hd Hn Hl Hlt tmp.
  destruct (open_write_adds s dir (partial_name name) Hok Hd (partial_name_dots name) Hlt) as (i & Ho & Hi & Hfresh).
  exists i. split; [done|]. cbn zeta.
  set (s1 := set_fs (writing (rs_fs s) tmp i []) s).
  destruct (write_blobs_spec (dir ++ [name]) i ids s1 []) as [data H]; [done|by cbn; rewrite lookup_insert_eq|].
  cbn zeta in H. assert (FS (entries_ (rs_fs s1)) (<[i := [] ++ data]> (inodes (rs_fs s1))) =
    writing (rs_fs s) tmp i data) as Hf by (unfold writing; cbn; by rewrite insert_insert_eq).
  rewrite Hf in H. clear Hf.
  rewrite (eff_bind_Ok _ _ s i s1) by exact Ho. rewrite (eff_bind_Ok _ _ s1 (JString <$> ids) s1) by done.
  destruct (contents ids) as [all|[id e]].
  2:{ exists data. by rewrite (eff_bind_Err _ _ _ _ _ H). }
  destruct H as [-> H]. rewrite (eff_bind_Ok _ _ _ _ _ H).
  destruct (apply_metadata_Ok j tmp (set_fs (writing (rs_fs s) tmp i all) s1) Hm) as [c Hc].
  rewrite (eff_bind_Ok _ _ _ _ _ Hc). exists c.
  set (f := writing (rs_fs s) tmp i all).
  assert (replace f tmp (dir ++ [name]) = Ok (set_entry (remove_entry f tmp) (dir ++ [name]) (File i))) as Hr.
  { apply replace_child; [|done|apply partial_name_dots|..].
    - eapply real_dir_look; [|exact Hd]. intros q Hq. unfold f, writing.
      rewrite look_new_inode by (done || apply snoc_nonempty).
      by rewrite decide_False by by apply prefix_snoc_ne.
    - rewrite lookup_entry_snoc. cbn. by rewrite lookup_insert_eq.
    - unfold f, writing. rewrite look_new_inode by (done || apply snoc_nonempty).
      rewrite decide_False; [done|]. intros [_ Heq]%app_inj_tail. by apply (partial_name_ne name). }
  rewrite (eff_bind_Ok _ _ _ tt
    (set_calls c (set_fs (set_entry (remove_entry f tmp) (dir ++ [name]) (File i)) s))); [done|].
  unfold fs_call. change (rs_fs (set_calls c (set_fs f s1))) with f. by rewrite Hr.
Qed.

Lemma finish_file n (s : rstate W) :
  exists s', (count_file n ≫= fun _ => _emit_progress progress_enabled false) s = (Ok tt, s') /\
    rs_world s' = rs_world s /\ rs_fs s' = rs_fs s /\ rs_failures s' = rs_failures s /\
    done_files s' = done_files s + 1.
Proof. eexists. split; [reflexivity|]. cbn. by case_match. Qed.

Lemma restore_file_spec j dir name ids (s : rstate W) :
  file_json j name ids -> rs_world s = w -> fs_ok (rs_fs s) -> real_dir (rs_fs s) dir -> name <> ".." ->
  look (rs_fs s) (dir ++ [name]) = None -> look (rs_fs s) (dir ++ [partial_name name]) = None ->
  exists s',
    restore_file j (dir ++ [name]) s = (match contents ids with inl _ => Ok tt | inr _ => Err NodeFailed end, s') /\
    adds s s' (image dir (SFile name ids)) (lost dir (SFile name ids)) (files (SFile name ids)).
Proof using reads read_errors.
  intros (_ & _ & _ & Hc & Hm) Hw Hok Hd Hn Hl Hlt. unfold _restore_file.
  rewrite (eff_bind_Ok _ _ s tt s).
  2:{ unfold fs_call. rewrite List.removelast_last, (mkdir_real _ dir Hd). by rewrite set_fs_id. }
  destruct (get_or j "content" (JList [])) as [v|]; [|done]. cbn in Hc.
  rewrite (eff_bind_Ok _ _ s v s) by done. rewrite partial_path_snoc, Hc. cbn zeta.
  destruct (write_file_spec j dir name ids s Hm Hw Hok Hd Hn Hl Hlt) as (i & Hfresh & H). cbn zeta in H.
  set (tmp := dir ++ [partial_name name]) in *.
  assert (forall all q, look (writing (rs_fs s) tmp i all) q =
            if decide (q = tmp) then Some (VFile all) else look (rs_fs s) q) as Hlook
    by (intros all q; apply look_new_inode; [done|apply snoc_nonempty]).
  assert (forall all, fs_ok (writing (rs_fs s) tmp i all)) as Hoks by (intros all; by apply fs_ok_new_inode).
  cbn [image lost files]. destruct (contents ids) as [all|[id e]].
  - destruct H as [c H].
    set (s1 := set_calls c _) in H. destruct (finish_file (len all) s1) as (s' & Hf & Hw' & Hfs & Hfl & Hn').
    exists s'. split.
    { rewrite (eff_bind_Ok _ _ s (len all) s1); [done|]. unfold handle. by rewrite H. }
    assert (look (rs_fs s') (dir ++ [name]) = Some (VFile all)) as Hnew.
    { rewrite Hfs. cbn. rewrite look_set_entry by apply snoc_nonempty. rewrite decide_True by done. cbn.
      by rewrite lookup_insert_eq. }
    constructor; [by rewrite Hw'| | |by rewrite Hfl, app_nil_r|done].
    + intros _. rewrite Hfs. apply fs_ok_set_entry; [by apply fs_ok_remove_entry|].
      intros k [= <-]. cbn. by rewrite lookup_insert_eq.
    + intros p. destruct (decide (p = dir ++ [name])) as [->|Hp].
      { by rewrite lookup_singleton_eq. }
      rewrite lookup_singleton_ne, Hfs by congruence. cbn. rewrite look_set_entry by apply snoc_nonempty.
      rewrite decide_False by done. rewrite look_remove_entry by apply snoc_nonempty.
      rewrite Hlook. repeat case_decide; by subst.
  - destruct H as [data H].
    assert (unlink true (writing (rs_fs s) tmp i data) tmp = Ok (remove_entry (writing (rs_fs s) tmp i data) tmp)) as Hu.
    { apply unlink_child; [|apply partial_name_dots|..].
      - eapply real_dir_look; [|exact Hd]. intros q Hq. rewrite Hlook.
        by rewrite decide_False by by apply prefix_snoc_ne.
      - by rewrite Hlook, decide_True.
      - by rewrite Hlook, decide_True. }
    eexists. split.
    { apply eff_bind_Err. unfold handle. rewrite H, bool_decide_true by done.
      erewrite eff_bind_Ok; [reflexivity|]. unfold fs_call.
      change (rs_fs (add_failures _ _)) with (writing (rs_fs s) tmp i data). by rewrite Hu. }
    constructor; [done| | |done|cbn; lia].
    + intros _. by apply fs_ok_remove_entry.
    + intros p. rewrite lookup_empty. cbn. rewrite look_remove_entry by apply snoc_nonempty.
      rewrite Hlook. case_decide; by subst.
Qed.

(** ** A node *)

Lemma restore_node_body recurse dir j name t (s : rstate W) :
  getitem j "name" = Ok (JString name) -> get_or j "type" (JString "file") = Ok t -> name_ok name ->
  restore_node' recurse dir j s =
  handle
    (if bool_decide (t = JString "file") then
       restore_file_node read_blob b64decode_text iso_timestamp false progress_enabled j (dir ++ [name])
     else if bool_decide (t = JString "dir") then
       restore_dir_node b64decode_text iso_timestamp recurse j (dir ++ [name])
     else if bool_decide (t = JString "symlink") then restore_symlink_node j dir (dir ++ [name])
     else mret tt)
    (fun e =>
       if bool_decide (e = NodeFailed) then Some (mret tt)
       else if caught node_errors e && negb false then Some (_record_failure (dir ++ [name]) (JString "") e)
       else None) s.
Proof.
  intros Hn Ht (Hp & Hne & _). unfold restore_node. rewrite Hn, Ht.
  rewrite (eff_bind_Ok _ _ s (JString name) s), (eff_bind_Ok _ _ s t s), (eff_bind_Ok _ _ s name s) by done.
  cbn zeta. by rewrite Hp, bool_decide_false, String.eqb_refl by done.
Qed.

Lemma file_node_spec recurse dir j name ids (s : rstate W) :
  file_json j name ids -> name_ok name -> rs_world s = w -> fs_ok (rs_fs s) -> real_dir (rs_fs s) dir ->
  clear (rs_fs s) dir name ->
  exists s', restore_node' recurse dir j s = (Ok tt, s') /\
    adds s s' (image dir (SFile name ids)) (lost dir (SFile name ids)) (files (SFile name ids)).
Proof using reads read_errors.
  intros Hj Hname Hw Hok Hd [Hc1 Hc2]. pose proof Hj as (Hn & Ht & Hk & _ & _).
  destruct (restore_file_spec j dir name ids s Hj Hw Hok Hd (proj2 (proj2 Hname)) (Hc1 []) Hc2) as (s' & Hr & Ha).
  exists s'. split; [|done]. rewrite (restore_node_body _ _ _ _ _ _ Hn Ht Hname).
  rewrite bool_decide_true by done. unfold restore_file_node. rewrite Hk. unfold handle.
  rewrite (eff_bind_Ok _ _ s None s) by done. rewrite Hr. by destruct (contents ids).
Qed.

(** A directory is made, and what the recursion does in it is added. *)
Lemma dir_node_spec recurse dir j name id (s : rstate W) v fl n :
  dir_json j name id -> name_ok name -> fs_ok (rs_fs s) -> real_dir (rs_fs s) dir ->
  look (rs_fs s) (dir ++ [name]) = None ->
  (forall s1, adds s s1 {[ dir ++ [name] := VDir ]} [] 0 ->
     exists s2, recurse (JString id) (dir ++ [name]) s1 = (Ok tt, s2) /\ adds s1 s2 v fl n) ->
  exists s', restore_node' recurse dir j s = (Ok tt, s') /\ adds s s' (v ∪ {[ dir ++ [name] := VDir ]}) fl n.
Proof.
  intros (Hn & Ht & Hk & Hi & Hm) Hname Hok Hd Hl Hrec.
  set (s1 := set_fs (set_entry (rs_fs s) (dir ++ [name]) Dir) s).
  assert (adds s s1 {[ dir ++ [name] := VDir ]} [] 0) as Ha.
  { constructor; [done| | |by rewrite app_nil_r|cbn; lia].
    - intros _. by apply fs_ok_set_entry.
    - intros p. cbn. rewrite look_set_entry by apply snoc_nonempty. case_decide as Hp.
      + subst. by rewrite lookup_singleton_eq.
      + by rewrite lookup_singleton_ne by congruence. }
  destruct (Hrec s1 Ha) as (s2 & Hr & Ha2). destruct (apply_metadata_Ok j (dir ++ [name]) s2 Hm) as [c Hc].
  exists (set_calls c s2). split.
  - rewrite (restore_node_body _ _ _ _ _ _ Hn Ht Hname). rewrite bool_decide_false, bool_decide_true by done.
    unfold handle, restore_dir_node.
    rewrite (eff_bind_Ok _ _ s tt s1)
      by (unfold fs_call; by rewrite (mkdir_child _ _ _ Hd (proj2 (proj2 Hname)) Hl)).
    rewrite Hk, Hi, (eff_bind_Ok _ _ s1 true s1) by done.
    rewrite (eff_bind_Ok _ _ s1 tt s2); [by rewrite Hc|]. by rewrite (eff_bind_Ok _ _ s1 (JString id) s1).
  - destruct (adds_trans _ _ _ _ _ _ _ _ _ Ha Ha2) as [Hw Ho Hlk Hf Hfi]. constructor; try done.
Qed.

(** ** A tree *)

Lemma image_above dir n q : q `prefix_of` dir -> image dir n !! q = None.
Proof.
  intros Hq. destruct (image dir n !! q) as [x|] eqn:E; [|done]. apply image_under in E.
  exfalso. apply (prefix_snoc_not dir (snode_name n)). by etrans.
Qed.
Lemma image_beside dir n c rest : c <> snode_name n -> image dir n !! (dir ++ c :: rest) = None.
Proof.
  intros Hc. destruct (image dir n !! (dir ++ c :: rest)) as [x|] eqn:E; [|done].
  apply image_under in E. apply prefix_app_inv in E. apply prefix_cons_inv_1 in E. congruence.
Qed.

(** What the nodes before leave of what the nodes after need. *)
Lemma adds_real_dir s s' dir n fl k :
  adds s s' (image dir n) fl k -> real_dir (rs_fs s) dir -> real_dir (rs_fs s') dir.
Proof.
  intros Ha. apply real_dir_look. intros q Hq. by rewrite (adds_look _ _ _ _ _ Ha), image_above.
Qed.
Lemma adds_clear s s' dir n fl k name :
  adds s s' (image dir n) fl k -> name <> snode_name n -> partial_name name <> snode_name n ->
  clear (rs_fs s) dir name -> clear (rs_fs s') dir name.
Proof.
  intros Ha H1 H2 [Hc Hp]. split; [intros rest|]; rewrite (adds_look _ _ _ _ _ Ha), image_beside; auto.
Qed.

Definition node_restored (n : snode) : Prop := forall depth dir j s,
  node_at n j -> (height n <= depth)%nat -> rs_world s = w -> fs_ok (rs_fs s) -> real_dir (rs_fs s) dir ->
  name_ok (snode_name n) -> clear (rs_fs s) dir (snode_name n) ->
  exists s', restore_node' (restore_tree depth) dir j s = (Ok tt, s') /\
    adds s s' (image dir n) (lost dir n) (files n).

Lemma nodes_restored l js depth dir s :
  Forall node_restored l -> nodes_at l js -> (heights l <= depth)%nat ->
  rs_world s = w -> fs_ok (rs_fs s) -> real_dir (rs_fs s) dir ->
  names_ok (snode_name <$> l) -> Forall (fun n => clear (rs_fs s) dir (snode_name n)) l ->
  exists s', for_each (restore_node' (restore_tree depth) dir) js s = (Ok tt, s') /\
    adds s s' (image_list dir l) (lost_list dir l) (files_list l).
Proof.
  intros Hl Hjs. revert s. induction Hjs as [|n j l js Hn Hjs IH]; intros s Hh Hw Hok Hd Hnames Hclear.
  { exists s. split; [done|]. apply adds_refl. }
  inversion Hl as [|?? Hn1 Hl1]; subst. inversion Hclear as [|?? Hc1 Hc2]; subst.
  destruct Hnames as (Hno & Hnd & Hp). csimpl in Hno. csimpl in Hnd. csimpl in Hp.
  inversion Hno as [|?? Ho1 Ho2]; subst. apply NoDup_cons in Hnd as [Hnin Hnd].
  cbn in Hh.
  destruct (Hn1 depth dir j s Hn ltac:(lia) Hw Hok Hd Ho1 Hc1) as (s1 & Hr & Ha).
  assert (forall n', n' ∈ l -> snode_name n' ∈ (snode_name <$> l)) as Hin by (intros; by apply list_elem_of_fmap_2).
  destruct (IH Hl1 s1) as (s2 & Hr2 & Ha2).
  - unfold heights in *. lia.
  - by rewrite (adds_world _ _ _ _ _ Ha).
  - by apply (adds_ok _ _ _ _ _ Ha).
  - by eapply adds_real_dir.
  - split_and!; [done|done|]. intros a b Ha' Hb. apply Hp; by right.
  - apply Forall_forall. intros n' Hn'. rewrite Forall_forall in Hc2.
    eapply adds_clear; [exact Ha|..|by apply Hc2].
    + intros Heq. apply Hnin. rewrite <- Heq. by apply Hin.
    + apply not_eq_sym, Hp; [right; by apply Hin|by left].
  - exists s2. split; [cbn [for_each]; by rewrite (eff_bind_Ok _ _ _ _ _ Hr)|].
    exact (adds_trans _ _ _ _ _ _ _ _ _ Ha Ha2).
Qed.

Lemma all_nodes_at (l : list snode) js :
  (fix all (nodes : list snode) (l : list json) : Prop :=
     match nodes, l with
     | [], [] => True
     | n :: nodes, j :: l => node_at n j /\ all nodes l
     | _, _ => False
     end) l js <-> nodes_at l js.
Proof.
  revert js. induction l as [|n l IH]; intros [|j js]; unfold nodes_at.
  - split; [constructor|done].
  - split; [done|inversion 1].
  - split; [done|inversion 1].
  - rewrite Forall2_cons, IH. done.
Qed.

(** The document of a tree is read by the recursion. *)
Lemma restore_tree_doc depth id dir (s : rstate W) :
  rs_world s = w ->
  restore_tree (S depth) (JString id) dir s =
  match tree_doc id with
  | Ok doc =>
      (nodes ← lift (get_or doc "nodes" (JList [])); l ← lift (iterate nodes);
       for_each (restore_node' (restore_tree depth) dir) l) s
  | Err e =>
      if caught (node_errors ++ [JSONDecodeError]) e then (Ok tt, add_failures [NotRestored dir (JString id) e] s)
      else (Err e, s)
  end.
Proof using reads.
  intros Hw. assert (on_world (read_blob (JString id)) s = (rd id, s)) as Hr.
  { unfold on_world. rewrite Hw, reads, <- Hw. by destruct s. }
  cbn [_restore_tree]. unfold tree_doc.
  assert (forall m : R (option json), m s = match (data ← rd id; json_loads data) with
            Ok doc => (Ok (Some doc), s) | Err e => (Err e, s) end ->
    (handle m (fun e => if caught (node_errors ++ [JSONDecodeError]) e && negb false then
         Some (_record_failure dir (JString id) e ≫= fun _ => mret None) else None) ≫= fun d =>
     match d with
     | None => mret tt
     | Some doc => nodes ← lift (get_or doc "nodes" (JList [])); l ← lift (iterate nodes);
         for_each (restore_node' (restore_tree depth) dir) l
     end) s = match (data ← rd id; json_loads data) with
       | Ok doc => (nodes ← lift (get_or doc "nodes" (JList [])); l ← lift (iterate nodes);
           for_each (restore_node' (restore_tree depth) dir) l) s
       | Err e => if caught (node_errors ++ [JSONDecodeError]) e
           then (Ok tt, add_failures [NotRestored dir (JString id) e] s) else (Err e, s)
       end) as Hm.
  { intros m Hm. destruct (data ← rd id; json_loads data) as [doc|e].
    - by rewrite (eff_bind_Ok _ _ _ _ _ (handle_Ok _ _ _ _ _ Hm)).
    - pose proof (handle_Err m (fun e => if caught (node_errors ++ [JSONDecodeError]) e && negb false then
         Some (_record_failure dir (JString id) e ≫= fun _ => mret None) else None) s e s Hm) as Hh.
      cbv beta in Hh. destruct (caught (node_errors ++ [JSONDecodeError]) e); cbn in Hh;
        [by rewrite (eff_bind_Ok _ _ _ _ _ Hh)|by rewrite (eff_bind_Err _ _ _ _ _ Hh)]. }
  apply Hm. unfold mbind at 1, eff_bind at 1. rewrite Hr. destruct (rd id) as [data|e]; [|done].
  rewrite bind_Ok. unfold mbind, eff_bind, lift. by destruct (json_loads data).
Qed.

Lemma node_restored_all n : node_restored n.
Proof using reads read_errors.
  induction n as [name ids|name id nodes IH|name id] using snode_induction;
    intros depth dir j s Hn Hh Hw Hok Hd Hname Hc; cbn [snode_name] in *.
  - by apply file_node_spec.
  - destruct Hn as (Hj & Hnames & js & Hjs & Hall%all_nodes_at). destruct depth as [|depth]; [cbn in Hh; lia|].
    apply (dir_node_spec _ _ _ _ id); [done..|apply (proj1 Hc [])|].
    intros s1 Ha1. unfold tree_nodes in Hjs. destruct (tree_doc id) as [doc|] eqn:Ed; [|done].
    cbn [mbind res_bind] in Hjs. destruct (get_or doc "nodes" (JList [])) as [v|] eqn:Ev; [|done].
    rewrite bind_Ok in Hjs.
    assert (forall q, q <> dir ++ [name] -> look (rs_fs s1) q = look (rs_fs s) q) as Hq.
    { intros q Hq. rewrite (adds_look _ _ _ _ _ Ha1). by rewrite lookup_singleton_ne. }
    destruct (nodes_restored nodes js depth (dir ++ [name]) s1 IH Hall) as (s2 & Hr & Ha2).
    + unfold heights. cbn in Hh. lia.
    + by rewrite (adds_world _ _ _ _ _ Ha1).
    + by apply (adds_ok _ _ _ _ _ Ha1).
    + apply real_dir_snoc. split_and!; [|apply Hname|].
      * eapply real_dir_look; [|exact Hd]. intros q Hp. by apply Hq, prefix_snoc_ne.
      * by rewrite (adds_look _ _ _ _ _ Ha1), lookup_singleton_eq.
    + done.
    + apply Forall_forall. intros n _. assert (forall c rest, look (rs_fs s1) ((dir ++ [name]) ++ c :: rest) = None) as Hno.
      { intros c rest. rewrite Hq, <- app_assoc by (intros Heq; apply (f_equal length) in Heq;
          rewrite !length_app in Heq; cbn in Heq; lia). apply Hc. }
      split; [intros rest|]; apply Hno.
    + exists s2. rewrite restore_tree_doc, Ed by by rewrite (adds_world _ _ _ _ _ Ha1). split; [|done].
      rewrite Ev, (eff_bind_Ok _ _ s1 v s1) by done. by rewrite Hjs, (eff_bind_Ok _ _ s1 js s1).
  - destruct Hn as (Hj & e & Hd' & He). destruct depth as [|depth]; [cbn in Hh; lia|].
    cbn [image lost files]. rewrite <- (map_empty_union {[dir ++ [name] := VDir]}).
    apply (dir_node_spec _ _ _ _ id); [done..|apply (proj1 Hc [])|].
    intros s1 Ha1. eexists. rewrite restore_tree_doc, Hd', He by by rewrite (adds_world _ _ _ _ _ Ha1).
    split; [reflexivity|]. unfold tree_error. rewrite Hd'.
    constructor; [done|done|done|done|cbn; lia].
Qed.

(** ** Files of a tree *)

Inductive has_file : path -> list snode -> path -> list string -> Prop :=
  | file_here dir nodes name ids : SFile name ids ∈ nodes -> has_file dir nodes (dir ++ [name]) ids
  | file_below dir nodes name id sub p ids :
      SDir name id sub ∈ nodes -> has_file (dir ++ [name]) sub p ids -> has_file dir nodes p ids.

Lemma has_file_under dir nodes p ids : has_file dir nodes p ids -> exists c rest, p = dir ++ c :: rest.
Proof.
  induction 1 as [dir nodes name ids _|dir nodes name id sub p ids _ _ (c & rest & ->)]; [by exists name, []|].
  exists name, (c :: rest). by rewrite <- app_assoc.
Qed.

Lemma image_list_elem dir l n p x :
  NoDup (snode_name <$> l) -> n ∈ l -> image dir n !! p = Some x -> image_list dir l !! p = Some x.
Proof.
  induction l as [|n' l IH]; intros Hnd Hin Hp; [by apply not_elem_of_nil in Hin|].
  csimpl in Hnd. apply NoDup_cons in Hnd as [Hnin Hnd].
  change (image_list dir (n' :: l)) with (image_list dir l ∪ image dir n').
  apply elem_of_cons in Hin as [->|Hin].
  - apply lookup_union_Some_raw. right. split; [|done].
    destruct (image_list dir l !! p) as [y|] eqn:E; [|done]. exfalso.
    apply image_list_lookup in E as (n2 & Hin2 & Hp2).
    apply image_under in Hp as [k1 Hk1]. apply image_under in Hp2 as [k2 Hk2].
    rewrite Hk1, <- !app_assoc in Hk2. apply app_inv_head in Hk2. injection Hk2 as Heq _.
    apply Hnin. rewrite Heq. by apply list_elem_of_fmap_2.
  - apply lookup_union_Some_raw. left. by apply IH.
Qed.

Lemma contents_ok ids chunks : mapM_res rd ids = Ok chunks -> contents ids = inl (concat chunks).
Proof.
  revert chunks. induction ids as [|id ids IH]; intros chunks H; cbn in *; [by injection H as <-|].
  destruct (rd id) as [c|]; [|done]. cbn in H. destruct (mapM_res rd ids) as [cs|]; [|done].
  injection H as <-. by rewrite (IH cs).
Qed.

Lemma has_file_image dir nodes js p ids chunks :
  has_file dir nodes p ids -> nodes_at nodes js -> names_ok (snode_name <$> nodes) ->
  mapM_res rd ids = Ok chunks -> image_list dir nodes !! p = Some (VFile (concat chunks)).
Proof.
  intros Hf. revert js. induction Hf as [dir nodes name ids Hin|dir nodes name id sub p ids Hin Hf IH];
    intros js Hjs (Hno & Hnd & Hp) Hc.
  - apply (image_list_elem _ _ (SFile name ids)); [done..|]. cbn. rewrite (contents_ok _ _ Hc).
    apply lookup_singleton_eq.
  - apply list_elem_of_lookup in Hin as Hin'. destruct Hin' as [i Hi].
    destruct (Forall2_lookup_l _ _ _ _ _ Hjs Hi) as (j & _ & Hj & Hnames & js' & _ & Hall%all_nodes_at).
    apply (image_list_elem _ _ (SDir name id sub)); [done..|]. cbn.
    apply lookup_union_Some_raw. left. by apply (IH js').
Qed.

(** The whole tree, for a reader whose failures are all tolerated. *)
Lemma tree_restored depth id target nodes js (s : rstate W) :
  tree_nodes id = Ok js -> nodes_at nodes js -> names_ok (snode_name <$> nodes) ->
  (heights nodes < depth)%nat ->
  rs_world s = w -> fs_ok (rs_fs s) -> real_dir (rs_fs s) target ->
  (forall c rest, look (rs_fs s) (target ++ c :: rest) = None) ->
  exists s', restore_tree depth (JString id) target s = (Ok tt, s') /\
    (forall p ids chunks, has_file target nodes p ids -> mapM_res rd ids = Ok chunks ->
       look (rs_fs s') p = Some (VFile (concat chunks))) /\
    (forall p, look (rs_fs s') p =
       match image_list target nodes !! p with Some x => Some x | None => look (rs_fs s) p end) /\
    rs_failures s' = rs_failures s ++ lost_list target nodes /\
    done_files s' = done_files s + files_list nodes /\ fs_ok (rs_fs s') /\ rs_world s' = rs_world s.
Proof using reads read_errors.
  intros Hjs Hall Hnames Hh Hw Hok Hd Hno. destruct depth as [|depth]; [lia|].
  destruct (nodes_restored nodes js depth target s) as (s' & Hr & Ha); [|exact Hall|lia|done..| |].
  { apply Forall_forall. intros n _. apply node_restored_all. }
  { apply Forall_forall. intros n _. split; [intros rest|]; apply Hno. }
  exists s'. pose proof Ha as [Hw' Ho' Hl' Hf' Hn']. split_and!; auto.
  - rewrite restore_tree_doc by done. unfold tree_nodes in Hjs.
    destruct (tree_doc id) as [doc|]; [|done]. rewrite bind_Ok in Hjs.
    destruct (get_or doc "nodes" (JList [])) as [v|]; [|done]. rewrite bind_Ok in Hjs.
    by rewrite (eff_bind_Ok _ _ s v s), Hjs, (eff_bind_Ok _ _ s js s).
  - intros p ids chunks Hf Hc. by rewrite Hl', (has_file_image _ _ _ _ _ _ Hf Hall Hnames Hc).
Qed.
End restore_tree.

(** ** The reader of the repository *)

Section stored.
Context (sha256_hex : bytes -> string) (json_loads : bytes -> res json) (weight_fuel : nat).
Context (b64decode_text : string -> res bytes) (iso_timestamp : string -> res Z) (progress_enabled : bool).
Context (mk : MasterKey) (index : list (json * BlobLocation)) (paths : list string).
Abbreviation read_blob := (_read_blob sha256_hex weight_fuel mk index paths false).

(** What the discs give for a blob. *)
Definition blob_at (w : world) (id : string) : res bytes := (read_blob (JString id) w).1.
(** On the compressed blobs of the discs the decoder raises nothing but its own error, as
    [decompress] documents. *)
Definition decoder_ok (w : world) : Prop := forall id loc payload e,
  payload_of mk index paths w id loc payload -> compressed sha256_hex (JString id) loc payload ->
  decompress weight_fuel payload 0 = Err e -> e = ZstdError.
Definition repository_ok (w : world) : Prop :=
  key_ok (mk_encrypt mk) /\ key_ok (mk_mac_k mk) /\ world_ok w /\
  (forall k loc, dict_get k index = Some loc -> location_ok loc) /\ decoder_ok w.

Lemma blob_at_reads w id : read_blob (JString id) w = (blob_at w id, w).
Proof.
  unfold blob_at. pose proof (read_blob_world sha256_hex weight_fuel mk index paths false (JString id) w eq_refl) as H.
  destruct (read_blob (JString id) w). cbn in H. by subst.
Qed.
Lemma blob_at_errors w id e : repository_ok w -> blob_at w id = Err e -> caught node_errors e = true.
Proof.
  intros (Hke & Hkk & Hw & Hi & Hd) He. pose proof (blob_at_reads w id) as Hr. rewrite He in Hr.
  apply read_blob_errors in Hr; [|done..|by intros ? ?; eapply Hi].
  destruct (dict_get (JString id) index); [|by subst].
  destruct Hr as [->|[Ho|(payload & Hp & Hc & Hne & Herr)]]; [done| |].
  - cbn. by rewrite Ho, !orb_true_r.
  - by destruct (Hne (Hd _ _ _ _ Hp Hc Herr)).
Qed.

(** C3.  A tolerant restore, without prompts, of a stored tree of directories and files ends
    and gives back all that can be read, into a directory with nothing in it, from an index
    of the usual shape and discs in any condition, as long as the decoder raises no error but
    its own on the compressed blobs: a file whose blobs can all be read is there with its whole
    content, wherever in the tree it is and whatever else is damaged; a file with a blob
    that cannot be read is not there at all, not even in part; a directory whose tree
    cannot be read or parsed is there and empty; nothing else in the file system is changed.
    What is lost is recorded, in order, once for each such file or directory, with the
    first blob at fault, and every file given back is counted. *)
Theorem tolerant_restore_complete depth id target nodes js (s : rstate world) :
  let rd := blob_at (rs_world s) in
  repository_ok (rs_world s) ->
  tree_nodes json_loads rd id = Ok js -> nodes_at json_loads b64decode_text iso_timestamp rd nodes js ->
  names_ok (snode_name <$> nodes) -> (heights nodes < depth)%nat ->
  fs_ok (rs_fs s) -> real_dir (rs_fs s) target ->
  (forall c rest, look (rs_fs s) (target ++ c :: rest) = None) ->
  exists s', _restore_tree read_blob json_loads b64decode_text iso_timestamp false progress_enabled depth
      (JString id) target s = (Ok tt, s') /\
    (forall p ids chunks, has_file target nodes p ids -> mapM_res rd ids = Ok chunks ->
       look (rs_fs s') p = Some (VFile (concat chunks))) /\
    (forall p, look (rs_fs s') p =
       match image_list rd target nodes !! p with Some x => Some x | None => look (rs_fs s) p end) /\
    rs_failures s' = rs_failures s ++ lost_list json_loads rd target nodes /\
    done_files s' = done_files s + files_list rd nodes /\ fs_ok (rs_fs s') /\ rs_world s' = rs_world s.
Proof.
  intros rd Hrep. intros. apply (tree_restored read_blob json_loads b64decode_text iso_timestamp progress_enabled
    (rs_world s) rd) with (js := js); try done.
  - intros ?. apply blob_at_reads.
  - intros ? ?. by apply blob_at_errors.
Qed.
End stored.
