(* ===== verification/Restorer.v ===== *)
(** * The last-resort restore: restore/restic_fallback.py

    [PurePythonRestorer.restore], composed of the reader of the repository, the reader of
    blobs and the traversal of the tree. *)

From S2P Require Import Prelude PyString PyText Json Effects Posix Repository Blobs Restore.
Open Scope string_scope.
Open Scope list_scope.
Open Scope Z_scope.

(** [str(path)] *)
Definition path_text (p : path) : string := "/" +:+ String.concat "/" p.
Definition encode (s : string) : bytes := code <$> String.list_ascii_of_string s.
Definition newline : string := String (Ascii.ascii_of_nat 10) EmptyString.
Definition tab : string := String (Ascii.ascii_of_nat 9) EmptyString.

(** "—" in UTF-8. *)
Definition em_dash : string :=
  String (Ascii.ascii_of_nat 226) (String (Ascii.ascii_of_nat 128) (String (Ascii.ascii_of_nat 148) "")).
Definition manifest_header : list string :=
  ["LCSAS tier-3 restore (the Python reader) " +:+ em_dash +:+ " files that could NOT be restored.";
   "Every OTHER file in this directory restored successfully.";
   "Re-running tier 3 from a newer meta disc, or mounting another";
   "undamaged disc with the same label, is the remedy.";
   "";
   "path" +:+ tab +:+ "reason" +:+ tab +:+ "blob_id"].

Section restorer.
Variable sha256_hex : bytes -> string.
Variable json_loads : bytes -> res json.
Variable b64decode_text : string -> res bytes.
Variable iso_timestamp : string -> res Z.
Variable weight_fuel : nat.
(** The class and text of the exception behind a failure, and [str] of a value. *)
Variable reason_text : failure -> string.
Variable str_of : json -> string.
(** The fields of the restorer. *)
Variable pack_search_paths : list string.
Variable interactive strict progress_enabled : bool.
(** What the recursion limit leaves, and turns of the loop that counts. *)
Variable depth count_fuel : nat.

Definition failure_line (x : failure) : string :=
  match x with
  | NotRestored p blob_id _ => path_text p +:+ tab +:+ reason_text x +:+ tab +:+ str_of blob_id
  | SkippedSymlink p target => path_text p +:+ tab +:+ "skipped-symlink: " +:+ target +:+ tab
  end.
Definition manifest_text (l : list failure) : string :=
  String.concat newline (manifest_header ++ (failure_line <$> l)) +:+ newline.
Definition _write_failure_manifest (target : path) : eff (rstate world) unit :=
  handle
    (i ← fs_open (target ++ ["RESTORE_FAILURES.txt"]);
     l ← gets rs_failures;
     fs_call (fun f => Ok (append_file f i (encode (manifest_text l)))))
    (fun e => if is_a e OSError then Some (mret tt) else None).

(** Counting the files, when progress is to be shown. *)
Definition count (l : loaded) (tree_id : json) : eff (rstate world) unit :=
  if progress_enabled then
    on_world (fun w =>
      match _count_files sha256_hex json_loads weight_fuel (master_key l) (blob_index l) pack_search_paths
              interactive count_fuel tree_id w with
      | Some (Ok _, w) => (Ok tt, w)
      | Some (Err e, w) => (Err e, w)
      | None => (Err OutOfFuel, w)
      end)
  else mret tt.

(** The start of a restore: no failures, then the counters at zero and no links. *)
Definition reset_failures {W} (s : rstate W) : rstate W :=
  RState (rs_world s) (rs_fs s) [] (hardlink_map s) (done_files s) (done_bytes s) (last_emit_files s)
    (last_emit_bytes s) (calls s).
Definition reset_progress {W} (s : rstate W) : rstate W :=
  RState (rs_world s) (rs_fs s) (rs_failures s) [] 0 0 0 0 (calls s).

Definition restore_loaded (l : loaded) (target : path) (id : option string) : eff (rstate world) SnapshotMeta :=
  modify reset_failures ≫= fun _ =>
  snap ← lift (match id with
               | Some id => _find_snapshot (snapshots l) id
               | None => _latest_snapshot (snapshots l)
               end);
  lift (paths ← iterate (sm_paths snap); mapM_res as_str paths) ≫= fun _ =>
  modify reset_progress ≫= fun _ =>
  count l (tree snap) ≫= fun _ =>
  fs_call (fun f => mkdir f target) ≫= fun _ =>
  _restore_tree (_read_blob sha256_hex weight_fuel (master_key l) (blob_index l) pack_search_paths interactive)
    json_loads b64decode_text iso_timestamp strict progress_enabled depth (tree snap) target ≫= fun _ =>
  _emit_progress progress_enabled true ≫= fun _ =>
  failed ← gets (fun s => negb (bool_decide (rs_failures s = [])));
  (if (failed : bool) then _write_failure_manifest target else mret tt) ≫= fun _ =>
  mret snap.

Definition restore (scrypt : bytes -> bytes -> Z -> Z -> Z -> Z -> res bytes) (r : repo) (password : bytes)
    (target : path) (id : option string) : eff (rstate world) SnapshotMeta :=
  l ← lift (_ensure_loaded scrypt json_loads b64decode_text weight_fuel r password);
  restore_loaded l target id.
End restorer.
