(* ===== verification/Demo.v ===== *)
(** * A small repository

    Two files in a snapshot, with a damaged key file, a superseded index and a pack, for
    the theorems on the reader to be applied to.  The library functions are tables. *)

From Stdlib Require Import Ascii.
From S2P Require Import Prelude PyString PyText Aes Restic Zstd Json Effects Posix Repository Blobs.
From S2P Require Import RepositoryProps BlobProps Restore RestoreProps Restorer.
Open Scope string_scope.
Open Scope list_scope.
Open Scope Z_scope.

Definition obj (members : list (string * json)) : json := JObject members.
Definition str (s : string) : json := JString s.

(** Hashes, by table: every content has its own. *)
Definition demo_sha256 (data : bytes) : string :=
  if decide (data = [11; 12]) then "f1" else if decide (data = [13]) then "f2"
  else if decide (data = [20]) then "t1" else if decide (data = [21]) then "t2"
  else "x" +:+ String.concat "." (str_of_int <$> data).

Definition demo_key : bytes := seqZ 1 32.
Definition demo_mac_k : bytes := seqZ 7 16.
Definition demo_mac_r : bytes := seqZ 9 16.
Definition demo_mk : MasterKey := MkMasterKey demo_key demo_mac_k demo_mac_r.
Definition demo_iv : bytes := seqZ 0 16.
Definition derived : bytes := replicate 64 5.
Definition sealed_with (ke kk kr plaintext : bytes) : bytes :=
  match seal ke kk kr demo_iv plaintext with Ok d => d | Err _ => [] end.
Definition sealed : bytes -> bytes := sealed_with demo_key demo_mac_k demo_mac_r.

(** Data that is sealed, computed once. *)
Definition sealed_master : bytes :=
  Eval vm_compute in sealed_with (take 32 derived) (take 16 derived) (take 16 derived) [2].
Definition pack_f1 : bytes := Eval vm_compute in sealed [11; 12].
Definition pack_f2 : bytes := Eval vm_compute in sealed [13].
Definition pack_t1 : bytes := Eval vm_compute in sealed [20].
Definition pack_t2 : bytes := Eval vm_compute in sealed [21].
Definition file_index_1 : bytes := Eval vm_compute in sealed [3].
Definition file_index_2 : bytes := Eval vm_compute in sealed [4].
Definition file_snapshot_1 : bytes := Eval vm_compute in sealed [30].
Definition file_snapshot_2 : bytes := Eval vm_compute in sealed [31].
Definition demo_pack : bytes := pack_f1 ++ pack_f2 ++ pack_t1 ++ pack_t2.

Definition blob (id type : string) (offset length : Z) : json :=
  obj [("id", str id); ("type", str type); ("offset", JInt offset); ("length", JInt length)].
Definition file_node (name : string) (ids : list string) : json :=
  obj [("name", str name); ("type", str "file"); ("content", JList (str <$> ids))].
Definition dir_node (name id : string) : json :=
  obj [("name", str name); ("type", str "dir"); ("subtree", str id)].
Definition link_node (name target : string) : json :=
  obj [("name", str name); ("type", str "symlink"); ("linktarget", str target)].
Definition tree_of (nodes : list json) : json := obj [("nodes", JList nodes)].
Definition snapshot_doc (time : string) : json :=
  obj [("time", str time); ("tree", str "t1"); ("paths", JList [str "/home"])].

Definition demo_json (data : bytes) : res json :=
  match data with
  | [1] => Ok (obj [("salt", str ""); ("data", str "m")])
  | [2] => Ok (obj [("encrypt", str "e"); ("mac", obj [("k", str "k"); ("r", str "r")])])
  | [3] => Ok (obj [("packs", JList [obj [("id", str "old"); ("blobs", JList [blob "f1" "data" 0 7])]])])
  | [4] => Ok (obj [("supersedes", JList [str "i1"]);
                    ("packs", JList [obj [("id", str "pp"); ("blobs", JList
                       [blob "f1" "data" 0 34; blob "f2" "data" 34 33; blob "t1" "tree" 67 33;
                        blob "t2" "tree" 100 33; blob "bad" "data" 0 34])]])])
  | [20] => Ok (tree_of [file_node "a" ["f1"; "f2"]; dir_node "d" "t2"; file_node "z" ["f1"; "bad"]])
  | [21] => Ok (tree_of [file_node "b" ["f2"]; dir_node "gone" "t9"])
  | [30] => Ok (snapshot_doc "2026-01-01T00:00:00Z")
  | [31] => Ok (snapshot_doc "2025-01-01T00:00:00Z")
  | _ => Err ValueError
  end.
Definition demo_b64 (s : string) : res bytes :=
  if decide (s = "") then Ok []
  else if decide (s = "m") then Ok sealed_master
  else if decide (s = "e") then Ok demo_key
  else if decide (s = "k") then Ok demo_mac_k
  else if decide (s = "r") then Ok demo_mac_r
  else Err ValueError.
Definition demo_scrypt (password salt : bytes) (n r p maxmem : Z) : res bytes :=
  Ok (if decide (password = [112]) then derived else replicate 64 6).

Definition demo_repo : repo :=
  Repo (Some [("k3", Some (Ok [1])); ("k1", Some (Err OSError)); ("k2", Some (Ok [99])); ("lost+found", None)])
    (Some [("i2", Some (Ok file_index_2)); ("i1", Some (Ok file_index_1))])
    (Some [("aa11", Some (Ok file_snapshot_1)); ("aa22", Some (Ok file_snapshot_2))]).
Definition demo_files := match keys_dir demo_repo with Some l => l | None => [] end.
Definition demo_mounts : mounts := fun p =>
  if decide (p = "/mnt/data/pp/pp") then Some (Ok demo_pack) else None.
Definition demo_world : world := World demo_mounts [].

Definition demo_load := _ensure_loaded demo_scrypt demo_json demo_b64 1000 demo_repo [112].
Definition demo_loaded : loaded := match demo_load with Ok l => l | Err _ => Loaded demo_mk [] [] end.
Example demo_loads :
  demo_load = Ok demo_loaded /\ master_key demo_loaded = demo_mk /\
  snapshot_id <$> snapshots demo_loaded = ["aa22"; "aa11"].
Proof. vm_compute. auto. Qed.

(** ** Loading it *)

#[export] Instance demo_library : Library demo_scrypt demo_json demo_b64.
Proof.
  constructor.
  - intros b e H. unfold demo_json in H. repeat case_match; by simplify_eq.
  - intros s e H. unfold demo_b64 in H. repeat case_match; by simplify_eq.
  - intros s b H. unfold demo_b64 in H.
    repeat case_match; simplify_eq; apply (bool_decide_unpack _); vm_compute; exact I.
  - intros password salt n r p maxmem _. eexists. split; [reflexivity|].
    destruct (decide (password = [112])); (split; [done|]); apply (bool_decide_unpack _); vm_compute; exact I.
Qed.
Lemma demo_readable : Forall (fun f : string * _ => forall c, f.2 = Some c -> readable c) demo_files.
Proof. repeat constructor; intros c [= <-]; done. Qed.

Lemma damaged_key_files_passed_over_witness :
  _load_key demo_scrypt demo_json demo_b64 demo_repo [112] = Ok demo_mk /\
  is_ok (_load_key demo_scrypt demo_json demo_b64 demo_repo [113]) = false.
Proof.
  destruct (damaged_key_files_passed_over demo_scrypt demo_json demo_b64 demo_repo [112] demo_files
    eq_refl ltac:(discriminate) demo_readable) as [H _].
  split; [rewrite H; vm_compute; reflexivity|vm_compute; reflexivity].
Defined.

Lemma index_is_last_entry_witness :
  exists entries, map fst (concat entries) = map JString ["f1"; "f2"; "t1"; "t2"; "bad"] /\
    forall blob_id, dict_get blob_id (blob_index demo_loaded) =
      snd <$> last (List.filter (fun e => bool_decide (e.1 = blob_id)) (concat entries)).
Proof.
  assert (_load_index demo_json 1000 demo_mk demo_repo = Ok (blob_index demo_loaded)) as H
    by (vm_compute; reflexivity).
  destruct (index_is_last_entry demo_json 1000 demo_mk demo_repo (blob_index demo_loaded) H)
    as (files & docs & entries & Hf & Hd & He & Hi).
  exists entries. split; [|exact Hi]. injection Hf as <-.
  vm_compute in Hd. injection Hd as <-. vm_compute in He. injection He as <-. reflexivity.
Defined.

Lemma latest_snapshot_is_last_witness :
  match _latest_snapshot (snapshots demo_loaded) with
  | Ok s => snapshot_id s = "aa11" /\ forall s', s' ∈ snapshots demo_loaded -> s' = s \/ before s' s = true
  | Err _ => False
  end.
Proof.
  assert (_load_snapshots demo_json 1000 demo_mk demo_repo = Ok (snapshots demo_loaded)) as H
    by (vm_compute; reflexivity).
  destruct (latest_snapshot_is_last demo_json 1000 demo_mk demo_repo (snapshots demo_loaded) H) as (_ & _ & Hl).
  assert (exists s, _latest_snapshot (snapshots demo_loaded) = Ok s /\ snapshot_id s = "aa11") as (s & Hs & Hn)
    by (eexists; vm_compute; split; reflexivity).
  rewrite Hs in Hl |- *. split; [exact Hn|]. apply Hl.
Defined.

Lemma find_snapshot_spec_witness :
  exists s, _find_snapshot (snapshots demo_loaded) "aa2" = Ok s /\ snapshot_id s = "aa22" /\
    startswith (snapshot_id s) "aa2" = true.
Proof.
  assert (exists s, _find_snapshot (snapshots demo_loaded) "aa2" = Ok s /\ snapshot_id s = "aa22") as (s & Hs & Hn)
    by (eexists; vm_compute; split; reflexivity).
  exists s. split; [exact Hs|]. split; [exact Hn|].
  assert (NoDup (snapshot_id <$> snapshots demo_loaded)) as Hnd.
  { apply (bool_decide_unpack _). vm_compute. exact I. }
  destruct (find_snapshot_spec (snapshots demo_loaded) "aa2" Hnd) as [Hf _].
  apply Hf in Hs as [_ [Hx|[Hx _]]]; [|exact Hx]. rewrite Hn in Hx. discriminate Hx.
Defined.

(** ** Reading a blob of it *)

Abbreviation demo_read := (_read_blob demo_sha256 1000 demo_mk (blob_index demo_loaded) ["/mnt"] true).

Lemma demo_key_ok_all : key_ok demo_key /\ key_ok demo_mac_k /\ state_ok demo_iv.
Proof.
  split; [|split]; (split; [|apply (bool_decide_unpack _); vm_compute; exact I]).
  - by right.
  - by left.
  - reflexivity.
Qed.

Lemma read_blob_correct_witness : demo_read (JString "f2") demo_world = (Ok [13], demo_world).
Proof.
  destruct demo_key_ok_all as (He & Hk & Hi).
  destruct (read_blob_correct demo_sha256 1000 demo_mk (blob_index demo_loaded) ["/mnt"] true) as [_ H].
  apply (H "pp" 34 33 (JString "data") JNull demo_world "/mnt/data/pp/pp" pack_f1 pack_f2
    (pack_t1 ++ pack_t2) demo_iv [13] [13]); try exact He; try exact Hk; try exact Hi;
    try (vm_compute; reflexivity); try discriminate; try lia.
  - repeat constructor; vm_compute; done.
  - left. split; reflexivity.
Defined.

Lemma demo_world_ok : world_ok demo_world.
Proof.
  split; [|constructor]. intros p content H. cbn in H. unfold demo_mounts in H.
  destruct (decide _); [|done]. injection H as <-. apply (bool_decide_unpack _). vm_compute. exact I.
Qed.
Definition demo_index : list (json * BlobLocation) := Eval vm_compute in blob_index demo_loaded.
Lemma demo_locations_ok : Forall (fun x => location_ok x.2) (blob_index demo_loaded).
Proof.
  assert (blob_index demo_loaded = demo_index) as -> by (vm_compute; reflexivity).
  unfold demo_index. repeat (apply Forall_cons_2; [|]); [..|apply Forall_nil_2].
  all: unfold location_ok; cbn; do 3 eexists; do 3 (split; [reflexivity|]).
  all: split; [lia|split; [lia|by left]].
Qed.
Lemma demo_location k loc : dict_get k (blob_index demo_loaded) = Some loc -> location_ok loc.
Proof. intros H%dict_get_in. exact (proj1 (Forall_forall _ _) demo_locations_ok (k, loc) H). Qed.
Lemma blob_failures_contained_witness :
  demo_read (JString "bad") demo_world = (Err IntegrityError, demo_world) /\
  demo_read (JString "t9") demo_world = (Err KeyError, demo_world) /\ KeyError = KeyError.
Proof.
  assert (demo_read (JString "bad") demo_world = (Err IntegrityError, demo_world)) as H by (vm_compute; reflexivity).
  assert (demo_read (JString "t9") demo_world = (Err KeyError, demo_world)) as H' by (vm_compute; reflexivity).
  split; [exact H|]. split; [exact H'|].
  destruct demo_key_ok_all as (He & Hk & _).
  pose proof (blob_failures_contained demo_sha256 1000 demo_mk (blob_index demo_loaded) ["/mnt"] true
    "t9" demo_world KeyError demo_world He Hk demo_world_ok (demo_location (JString "t9")) H') as Hc.
  assert (dict_get (JString "t9") (blob_index demo_loaded) = None) as Hn by (vm_compute; reflexivity).
  rewrite Hn in Hc. exact Hc.
Defined.

(** ** Restoring it *)

(** A reader by table, for the traversal alone. *)
Definition demo_rd (id : string) : res bytes :=
  if decide (id = "f1") then Ok [11; 12] else if decide (id = "f2") then Ok [13]
  else if decide (id = "t1") then Ok [20] else if decide (id = "t2") then Ok [21]
  else Err KeyError.
Definition demo_reader (id : json) : eff unit bytes :=
  lift (match id with JString id => demo_rd id | _ => Err TypeError end).
Definition no_time (s : string) : res Z := Err ValueError.
Definition demo_fs : fs := FS {[ ["home"] := Dir ]} ∅.
Definition start {W} (w : W) (f : fs) : rstate W := RState w f [] [] 0 0 0 0 [].
Definition demo_tree : list snode :=
  [SFile "a" ["f1"; "f2"]; SDir "d" "t2" [SFile "b" ["f2"]; SBroken "gone" "t9"]; SFile "z" ["f1"; "bad"]].

(** The whole restore, of the latest snapshot: what is seen in the end, and the failures. *)
Definition demo_restore :=
  restore demo_sha256 demo_json demo_b64 no_time 1000 (fun _ => "KeyError") (fun _ => "") ["/mnt"]
    false false true 10 100 demo_scrypt demo_repo [112] ["home"] None (start demo_world demo_fs).
Example demo_restored :
  (snapshot_id <$> demo_restore.1) = Ok "aa11" /\
  let f := rs_fs demo_restore.2 in
  look f ["home"; "a"] = Some (VFile [11; 12; 13]) /\ look f ["home"; "d"; "b"] = Some (VFile [13]) /\
  look f ["home"; "d"; "gone"] = Some VDir /\ look f ["home"; "z"] = None /\
  rs_failures demo_restore.2 =
    [NotRestored ["home"; "d"; "gone"] (JString "t9") KeyError;
     NotRestored ["home"; "z"] (JString "bad") IntegrityError] /\
  done_files demo_restore.2 = 2 /\ is_Some (look f ["home"; "RESTORE_FAILURES.txt"]).
Proof. vm_compute. eauto 10. Qed.

Lemma demo_names_ok l :
  forallb (fun a => String.eqb (path_name a) a && negb (String.eqb a "") && negb (String.eqb a "..") &&
    forallb (fun b => negb (String.eqb b (partial_name a))) l) l = true -> NoDup l -> names_ok l.
Proof.
  rewrite List.forallb_forall. intros H Hnd. split_and!; [|done|].
  - apply Forall_forall. intros a Ha%list_elem_of_In. specialize (H a Ha).
    apply andb_prop in H as [H _]. apply andb_prop in H as [H Hd]. apply andb_prop in H as [Hp He].
    apply negb_true_iff, String.eqb_neq in He, Hd. apply String.eqb_eq in Hp. by split_and!.
  - intros a b Ha%list_elem_of_In Hb%list_elem_of_In. specialize (H a Ha). apply andb_prop in H as [_ H].
    rewrite List.forallb_forall in H. specialize (H b Hb). by apply negb_true_iff, String.eqb_neq in H.
Qed.
Lemma demo_metadata_ok j :
  mode_calls true j = Ok [] -> mode_calls false j = Ok [] -> time_calls no_time j = Ok [] ->
  (v ← get_or j "extended_attributes" (JList []); iterate v) = Ok [] -> metadata_ok demo_b64 no_time j.
Proof.
  intros H1 H2 H3 H4. split; [intros [|]; by exists []|]. split; [by rewrite H3|]. exists []. by split.
Qed.

(** The same reader without prompts, and what it decrypts: no blob is compressed. *)
Abbreviation demo_quiet := (_read_blob demo_sha256 1000 demo_mk (blob_index demo_loaded) ["/mnt"] false).
Lemma demo_payload id loc payload :
  payload_of demo_mk (blob_index demo_loaded) ["/mnt"] demo_world id loc payload ->
  ~ compressed demo_sha256 (JString id) loc payload.
Proof.
  intros [Hi (pack & root & path & content & enc & Hp & Hr & Hc & Hm & He & Hd)] Hz.
  apply dict_get_in in Hi. assert (blob_index demo_loaded = demo_index) as Hx by (vm_compute; reflexivity).
  rewrite Hx in Hi. unfold demo_index in Hi.
  cbn [mounted demo_world] in Hm. unfold demo_mounts in Hm. destruct (decide _) as [_|]; [|discriminate Hm].
  injection Hm as <-.
  repeat (apply elem_of_cons in Hi as [Hi|Hi]); [..|by apply not_elem_of_nil in Hi].
  all: injection Hi as _ ->; clear Hp Hr Hc; cbn [bl_offset bl_length] in He.
  all: vm_compute in He; injection He as <-; vm_compute in Hd; injection Hd as <-.
  all: destruct Hz as [Hz|[Hz _]]; [by apply Hz|vm_compute in Hz; discriminate Hz].
Qed.
Lemma demo_repository_ok : repository_ok demo_sha256 1000 demo_mk (blob_index demo_loaded) ["/mnt"] demo_world.
Proof.
  destruct demo_key_ok_all as (He & Hk & _). split_and!; [exact He|exact Hk|exact demo_world_ok|exact demo_location|].
  intros id loc payload e Hp Hc _. by destruct (demo_payload id loc payload Hp Hc).
Qed.

Lemma tolerant_restore_complete_witness :
  exists s', _restore_tree demo_quiet demo_json demo_b64 no_time false true 10 (JString "t1") ["home"]
      (start demo_world demo_fs) = (Ok tt, s') /\
    look (rs_fs s') ["home"; "a"] = Some (VFile [11; 12; 13]) /\
    look (rs_fs s') ["home"; "d"; "b"] = Some (VFile [13]) /\
    rs_failures s' = [NotRestored ["home"; "d"; "gone"] (JString "t9") KeyError;
                      NotRestored ["home"; "z"] (JString "bad") IntegrityError].
Proof.
  destruct (tolerant_restore_complete demo_sha256 demo_json 1000 demo_b64 no_time true demo_mk
    (blob_index demo_loaded) ["/mnt"] 10 "t1" ["home"] demo_tree [file_node "a" ["f1"; "f2"]; dir_node "d" "t2"; file_node "z" ["f1"; "bad"]]
    (start demo_world demo_fs)) as (s' & Hr & Hf & Hl & Hlost & _).
  - exact demo_repository_ok.
  - vm_compute. reflexivity.
  - assert (names_ok ["b"; "gone"]) as Hn.
    { apply demo_names_ok; [vm_compute; reflexivity|]. apply (bool_decide_unpack _). vm_compute. exact I. }
    repeat (apply Forall2_cons; split); [| | |by apply Forall2_nil].
    + split_and!; try (vm_compute; reflexivity). by apply demo_metadata_ok.
    + split; [split_and!; try (vm_compute; reflexivity); by apply demo_metadata_ok|]. split; [exact Hn|].
      eexists. split; [vm_compute; reflexivity|]. split; [|split; [|exact I]].
      * split_and!; try (vm_compute; reflexivity). by apply demo_metadata_ok.
      * split; [split_and!; try (vm_compute; reflexivity); by apply demo_metadata_ok|].
        exists KeyError. vm_compute. auto.
    + split_and!; try (vm_compute; reflexivity). by apply demo_metadata_ok.
  - apply demo_names_ok; [vm_compute; reflexivity|]. apply (bool_decide_unpack _). vm_compute. exact I.
  - vm_compute. lia.
  - intros p i H. cbn in H. unfold demo_fs in H. cbn in H. apply lookup_singleton_Some in H as [_ H]. discriminate H.
  - split; [repeat constructor; discriminate|]. intros q [k Hk].
    destruct q as [|c [|c' q]]; [reflexivity| |discriminate Hk]. injection Hk as <- _. vm_compute. reflexivity.
  - intros c rest. unfold look. cbn. rewrite lookup_singleton_ne by discriminate. reflexivity.
  - exists s'. split; [exact Hr|]. split.
    { apply (Hf _ ["f1"; "f2"] [[11; 12]; [13]]); [|vm_compute; reflexivity].
      apply (file_here ["home"] demo_tree "a"). by left. }
    split; [|rewrite Hlost; vm_compute; reflexivity].
    apply (Hf _ ["f2"] [[13]]); [|vm_compute; reflexivity].
    apply (file_below ["home"] demo_tree "d" "t2" [SFile "b" ["f2"]; SBroken "gone" "t9"]).
    + right. left.
    + apply (file_here ["home"; "d"]). left.
Defined.
