(* ===== verification/RestoreLinks.v ===== *)
(** * Symlinks and names in a restore

    What becomes of a symlink node, for every target; and two trees that reach outside the
    directory they are restored into. *)

From S2P Require Import Prelude PyString PyText Json Effects Posix Restore RestoreProps Demo.
Open Scope string_scope.
Open Scope list_scope.
Open Scope Z_scope.

Lemma resolve_errors f p e : resolve f p = Err e -> e = RuntimeError.
Proof.
  unfold resolve. generalize MAX_LINKS as links. intros links. generalize ([] : path) as base. revert p.
  induction links as [|links IH]; intros p base; revert base; induction p as [|c p IHp]; intros base; cbn [realpath];
    try done; rewrite bind_Ok.
  all: destruct (String.eqb c ".."); [apply IHp|].
  all: destruct (lookup_entry f (base ++ [c])) as [[]|]; try apply IHp.
  - by intros [= <-].
  - apply IH.
Qed.

(** C37.  A symlink node at a free place is made exactly when its target is relative and
    resolves, at that moment, into the directory of the link itself; a relative target
    that resolves elsewhere is left out and recorded, be it in another directory of the
    same restore; an absolute target is left out without a record, and a loop of links
    ends the restore. *)
Theorem symlink_policy {W} (read_blob : json -> eff W bytes) b64decode_text iso_timestamp strict progress
    recurse dir j name t (s : rstate W) :
  getitem j "name" = Ok (JString name) -> get_or j "type" (JString "file") = Ok (JString "symlink") ->
  get_or j "linktarget" (JString "") = Ok (JString t) ->
  name_ok name -> t <> "" -> real_dir (rs_fs s) dir -> look (rs_fs s) (dir ++ [name]) = None ->
  restore_node read_blob b64decode_text iso_timestamp strict progress recurse dir j s =
  if is_absolute t then (Ok tt, s)
  else match resolve (rs_fs s) (dir ++ components t) with
       | Err _ => (Err RuntimeError, s)
       | Ok q =>
           (Ok tt, if bool_decide (dir `prefix_of` q) then set_fs (set_entry (rs_fs s) (dir ++ [name]) (Link t)) s
                   else add_failures [SkippedSymlink (dir ++ [name]) t] s)
       end.
Proof.
  intros Hn Hty Ht (Hp & Hne & Hdots) Htne Hd Hl. unfold restore_node. rewrite Hn, Hty.
  rewrite (eff_bind_Ok _ _ s (JString name) s), (eff_bind_Ok _ _ s (JString "symlink") s),
    (eff_bind_Ok _ _ s name s) by done.
  cbn zeta. rewrite Hp, bool_decide_false, String.eqb_refl by done. cbn [negb orb].
  rewrite !(bool_decide_false (JString "symlink" = _)), bool_decide_true by done.
  unfold restore_symlink_node. rewrite Ht, List.removelast_last.
  set (h := fun e : exn => _). unfold handle. rewrite (eff_bind_Ok _ _ s (JString t) s), (eff_bind_Ok _ _ s t s) by done.
  destruct (is_absolute t); [done|]. rewrite (eff_bind_Ok _ _ s (rs_fs s) s), (resolve_real _ _ Hd) by done.
  destruct (resolve (rs_fs s) (dir ++ components t)) as [q|e] eqn:Er.
  2:{ apply resolve_errors in Er as ->. rewrite (eff_bind_Err _ _ s RuntimeError s) by done. done. }
  rewrite (eff_bind_Ok _ _ s q s), (eff_bind_Ok _ _ s dir s) by done.
  destruct (bool_decide (dir `prefix_of` q)); cbn [negb]; [|done].
  destruct (absent_child _ _ _ Hd Hdots Hl) as [-> ->]. cbn [orb].
  rewrite (eff_bind_Ok _ _ s tt s) by done. unfold fs_call. by rewrite symlink_child.
Qed.

(** ** Two trees *)

(** A reader of trees by table, where the document [n] is the tree [n]. *)
Definition trees_json (trees : list json) (data : bytes) : res json :=
  match data with [n] => of_option ValueError (trees !! Z.to_nat n) | _ => Err ValueError end.
Definition trees_reader (trees : list json) (id : json) : eff unit bytes :=
  lift (match id with
        | JString id => match py_int id with
                        | Ok n => if n <? len trees then Ok [n] else Ok [100; n]
                        | Err e => Err KeyError
                        end
        | _ => Err TypeError
        end).
Definition restore_trees (trees : list json) : res unit * rstate unit :=
  _restore_tree (trees_reader trees) (trees_json trees) demo_b64 no_time false false 10 (JString "0") ["home"]
    (start tt demo_fs).

(** A symlink that is accepted can point outside the target once the restore is done:
    its target is resolved when the link is made, and a later link on its way changes
    where it leads.  The restore ends without a failure. *)
Theorem accepted_link_escapes :
  let trees := [tree_of [link_node "l" "x/y/../.."; dir_node "x" "1"]; tree_of [link_node "y" "."]] in
  let '(r, s) := restore_trees trees in
  r = Ok tt /\ rs_failures s = [] /\ look (rs_fs s) ["home"; "l"] = Some (VLink "x/y/../..") /\
  resolve (rs_fs s) ["home"; "l"] = Ok [].
Proof. vm_compute. auto. Qed.

(** A directory node named ".." passes the check of names, and what is in it is restored
    beside the target instead of inside. *)
Theorem dotdot_name_escapes :
  let trees := [tree_of [dir_node ".." "1"]; tree_of [file_node "passwd" ["7"]]] in
  let '(r, s) := restore_trees trees in
  r = Ok tt /\ rs_failures s = [] /\ look (rs_fs s) ["passwd"] = Some (VFile [100; 7]).
Proof. vm_compute. auto. Qed.

(** A link between two directories of the same restore is left out. *)
Example sibling_link_left_out :
  let trees := [tree_of [dir_node "a" "1"; dir_node "b" "2"];
                tree_of [file_node "f" ["7"]]; tree_of [link_node "f" "../a/f"]] in
  let '(r, s) := restore_trees trees in
  r = Ok tt /\ rs_failures s = [SkippedSymlink ["home"; "b"; "f"] "../a/f"] /\
  look (rs_fs s) ["home"; "b"; "f"] = None.
Proof. vm_compute. auto. Qed.

Lemma demo_home_real : real_dir demo_fs ["home"].
Proof.
  split; [repeat constructor; discriminate|]. intros q [k Hk].
  destruct q as [|c [|c' q]]; [reflexivity| |discriminate Hk]. injection Hk as <- _. vm_compute. reflexivity.
Qed.
Lemma symlink_policy_witness :
  restore_node demo_reader demo_b64 no_time false true (fun _ _ => mret tt) ["home"] (link_node "l" "../etc")
    (start tt demo_fs) = (Ok tt, add_failures [SkippedSymlink ["home"; "l"] "../etc"] (start tt demo_fs)).
Proof.
  rewrite (symlink_policy demo_reader demo_b64 no_time false true (fun _ _ => mret tt) ["home"]
    (link_node "l" "../etc") "l" "../etc" (start tt demo_fs) eq_refl eq_refl eq_refl).
  - vm_compute. reflexivity.
  - repeat split; try (vm_compute; reflexivity); discriminate.
  - discriminate.
  - exact demo_home_real.
  - vm_compute. reflexivity.
Defined.
