(* ===== verification/RestoreInside.v ===== *)
(** * A restore without links stays inside its target

    Whatever the trees hold, whatever cannot be read and wherever the restore stops: when no
    tree has a symlink or a node named "..", nothing is changed outside the target.  The
    trees of RestoreLinks show that both conditions are needed. *)

From S2P Require Import Prelude PyString PyText Json Effects Posix Restore RestoreProps Demo.
Open Scope string_scope.
Open Scope list_scope.
Open Scope Z_scope.

(** ** File systems with a target that has no links *)

Section inside.
Variable target : path.

Definition under (p : path) : Prop := target `prefix_of` p /\ Forall (fun c => c <> "..") p.

Record inside (f : fs) : Prop := {
  inside_ok : fs_ok f;
  inside_real : real_dir f target;
  inside_nolink p t : target `prefix_of` p -> look f p <> Some (VLink t);
  (** no file of the target has a name outside of it *)
  inside_inodes p q i : entries_ f !! p = Some (File i) -> entries_ f !! q = Some (File i) ->
    target `prefix_of` p -> target `prefix_of` q
}.
Definition same_outside (f f' : fs) : Prop := forall q, ~ target `prefix_of` q -> look f' q = look f q.
(** A change that keeps the target apart. *)
Definition kept (f f' : fs) : Prop := inside f' /\ same_outside f f'.

Lemma kept_refl f : inside f -> kept f f.
Proof. by split. Qed.
Lemma kept_trans f1 f2 f3 : kept f1 f2 -> (inside f2 -> kept f2 f3) -> kept f1 f3.
Proof.
  intros [H1 S1] H2. destruct (H2 H1) as [H3 S3]. split; [done|]. intros q Hq. by rewrite S3, S1.
Qed.

Lemma prefix_or (q p d : path) : q `prefix_of` p -> d `prefix_of` p -> q `prefix_of` d \/ d `prefix_of` q.
Proof. intros Hq Hd. by apply (prefix_weak_total _ _ p). Qed.

(** A path without links leads to itself. *)
Lemma realpath_nolink links f base rest q :
  Forall (fun c => c <> "..") rest ->
  (forall r t, r `prefix_of` rest -> look f (base ++ r) <> Some (VLink t)) ->
  realpath links true OSError f base rest = Ok q -> q = base ++ rest.
Proof.
  revert base. induction rest as [|c rest IH]; intros base Hc Hl; destruct links as [|links]; cbn [realpath];
    try (rewrite app_nil_r; by intros [= <-]).
  all: inversion Hc as [|?? Hc1 Hc2]; subst; destruct (in_directory f base) as [[]|]; [|done];
    rewrite bind_Ok, (eqb_dots c Hc1).
  all: replace (base ++ c :: rest) with ((base ++ [c]) ++ rest) in * by by rewrite <- app_assoc.
  all: assert (forall t, lookup_entry f (base ++ [c]) <> Some (Link t)) as Hnl
    by (intros t Ht; apply (Hl [c] t); [apply prefix_cons, prefix_nil|unfold look; by rewrite Ht]).
  all: assert (forall r t, r `prefix_of` rest -> look f ((base ++ [c]) ++ r) <> Some (VLink t)) as Hl'
    by (intros r t Hr; rewrite <- app_assoc; apply Hl; by apply prefix_cons).
  all: specialize (IH (base ++ [c]) Hc2 Hl').
  all: destruct (lookup_entry f (base ++ [c])) as [[| |t]|]; try exact IH; by destruct (Hnl t).
Qed.

Section fs.
Context (f : fs) (Hf : inside f).

Lemma follow_under p q : under p -> follow f p = Ok q -> q = p.
Proof using Hf.
  intros [Hp Hc] H. apply realpath_nolink in H; [done|done|]. cbn. intros r t Hr Hl.
  destruct (prefix_or _ _ _ Hr Hp) as [Ht|Ht].
  - by rewrite (proj2 (inside_real f Hf) r Ht) in Hl.
  - by apply (inside_nolink f Hf r t Ht).
Qed.
Lemma under_removelast p : under p -> p <> target -> under (removelast p).
Proof.
  intros [Hp Hc] Hne. destruct p as [|c p _] using rev_ind.
  { apply prefix_nil_inv in Hp. by subst. }
  rewrite List.removelast_last. apply prefix_of_snoc in Hp as [Hp|Hp]; [by subst|].
  apply Forall_app in Hc as [Hc _]. by split.
Qed.
Lemma target_parent : target <> [] -> exists d c, target = d ++ [c] /\ real_dir f d /\ c <> "..".
Proof using Hf.
  intros Hne. pose proof (inside_real f Hf) as Hr. destruct target as [|c d _] using rev_ind; [done|].
  apply real_dir_snoc in Hr as (Hd & Hc & _). by exists d, c.
Qed.
Lemma locate_under p q : under p -> locate f p = Ok q -> q = p.
Proof using Hf.
  intros Hu H. destruct (decide (p = target)) as [->|Hne].
  { destruct (decide (target = [])) as [Ht|Ht]; [rewrite Ht in *; by injection H as <-|].
    destruct (target_parent Ht) as (d & c & Heq & Hd & Hc). rewrite Heq in *.
    rewrite locate_child in H by done. by injection H as <-. }
  pose proof (under_removelast p Hu Hne) as Hu'. unfold locate in H.
  destruct p as [|c p _] using rev_ind; [by injection H as <-|].
  rewrite last_snoc in H. destruct Hu as [_ Hc]. apply Forall_app in Hc as [_ Hc]. inversion Hc; subst.
  rewrite eqb_dots in H by done. rewrite List.removelast_last in H, Hu'.
  destruct (follow f p) as [q'|] eqn:E; [|done]. apply follow_under in E as ->; [|done].
  rewrite bind_Ok in H. destruct (in_directory f p); [|done]. by injection H as <-.
Qed.

(** One entry below the target that is no directory is set or removed. *)
Lemma inside_set_entry p e :
  target `prefix_of` p -> look f p <> Some VDir ->
  match e with
  | Dir => True
  | File i => is_Some (inodes f !! i) /\ forall q, entries_ f !! q = Some (File i) -> target `prefix_of` q
  | Link _ => False
  end ->
  kept f (set_entry f p e).
Proof using Hf.
  intros Hp Hd He. assert (p <> []) as Hne by (intros ->; by apply Hd).
  split; [|intros q Hq; rewrite look_set_entry, decide_False by (done || by intros ->); done].
  constructor.
  - apply fs_ok_set_entry; [apply Hf|]. intros i ->. apply He.
  - destruct (inside_real f Hf) as [Hc Hr]. split; [done|]. intros q Hq.
    rewrite look_set_entry, decide_False by (done || intros ->; by apply Hd, Hr). by apply Hr.
  - intros q t Hq. rewrite look_set_entry by done. case_decide; [by destruct e|by apply Hf].
  - intros q r i Hq Hr Hqt. cbn in Hq, Hr.
    apply lookup_insert_Some in Hr as [[<- _]|[_ Hr]]; [done|].
    apply lookup_insert_Some in Hq as [[_ ->]|[_ Hq]]; [by apply He|by eapply (inside_inodes f Hf q r i)].
Qed.
Lemma inside_remove_entry p :
  target `prefix_of` p -> look f p <> Some VDir -> kept f (remove_entry f p).
Proof using Hf.
  intros Hp Hd. assert (p <> []) as Hne by (intros ->; by apply Hd).
  split; [|intros q Hq; rewrite look_remove_entry, decide_False by (done || by intros ->); done].
  constructor.
  - apply fs_ok_remove_entry, Hf.
  - destruct (inside_real f Hf) as [Hc Hr]. split; [done|]. intros q Hq.
    rewrite look_remove_entry, decide_False by (done || intros ->; by apply Hd, Hr). by apply Hr.
  - intros q t Hq. rewrite look_remove_entry by done. case_decide; [done|by apply Hf].
  - intros q r i Hq Hr. cbn in Hq, Hr. apply lookup_delete_Some in Hq as [_ Hq], Hr as [_ Hr].
    by apply (inside_inodes f Hf q r i).
Qed.
(** The content of an inode that only the target names. *)
Lemma inside_set_inode i data :
  (forall q, entries_ f !! q = Some (File i) -> target `prefix_of` q) ->
  kept f (FS (entries_ f) (<[i := data]> (inodes f))).
Proof using Hf.
  intros Hi. assert (forall q, look (FS (entries_ f) (<[i := data]> (inodes f))) q =
    match lookup_entry f q with Some (File j) => if decide (j = i) then Some (VFile data) else look f q | _ => look f q end) as Hlk.
  { intros q. unfold look. change (lookup_entry (FS _ _) q) with (lookup_entry f q).
    destruct (lookup_entry f q) as [[|j|t]|]; try done. cbn. case_decide as Hj.
    - subst. by rewrite lookup_insert_eq.
    - by rewrite lookup_insert_ne. }
  assert (forall q v, look f q = Some v -> (forall d, v <> VFile d) ->
            look (FS (entries_ f) (<[i := data]> (inodes f))) q = Some v) as Hkeep.
  { intros q v Hq Hv. rewrite Hlk. destruct (lookup_entry f q) as [[|j|t]|] eqn:E; try exact Hq.
    case_decide; [|exact Hq]. unfold look in Hq. rewrite E in Hq. injection Hq as <-. by destruct (Hv _ eq_refl). }
  split.
  - constructor.
    + intros q j Hq. cbn. destruct (decide (i = j)) as [->|]; [by rewrite lookup_insert_eq|].
      rewrite lookup_insert_ne by done. by eapply (inside_ok f Hf).
    + destruct (inside_real f Hf) as [Hc Hr]. split; [done|]. intros q Hq. by apply Hkeep; [apply Hr|].
    + intros q t Hq Hl. apply (inside_nolink f Hf q t Hq). rewrite Hlk in Hl.
      destruct (lookup_entry f q) as [[|j|t']|] eqn:E; try done. by case_decide.
    + apply (inside_inodes f Hf).
  - intros q Hq. rewrite Hlk. destruct (lookup_entry f q) as [[|j|t]|] eqn:E; try done.
    case_decide; [|done]. subst. exfalso. apply Hq.
    destruct q as [|c q]; [done|]. by apply Hi.
Qed.
End fs.

(** ** Calls on paths of the target *)

(** An inode that has a content and that only the target names. *)
Definition owned (f : fs) (i : positive) : Prop :=
  is_Some (inodes f !! i) /\ forall q, entries_ f !! q = Some (File i) -> target `prefix_of` q.

Lemma owned_under f p i : inside f -> under p -> lookup_entry f p = Some (File i) -> owned f i.
Proof.
  intros Hf [Hp _] Hl. destruct p as [|c p]; [done|]. cbn in Hl. split.
  - by eapply (inside_ok f Hf).
  - intros q Hq. by apply (inside_inodes f Hf (c :: p) q i).
Qed.
Lemma lookup_look f p e : lookup_entry f p = Some e -> e <> Dir -> look f p <> Some VDir.
Proof. intros H Hne Hd%look_dir. congruence. Qed.

Section calls.
Context (f : fs) (Hf : inside f).

Lemma os_mkdir_under p f' : under p -> os_mkdir f p = Ok f' -> kept f f'.
Proof using Hf.
  intros Hp H. unfold os_mkdir in H. destruct (locate f p) as [q|] eqn:E; [|done].
  apply locate_under in E as ->; [|done..]. rewrite bind_Ok in H.
  destruct (lookup_entry f p) eqn:El; [done|]. injection H as <-.
  apply inside_set_entry; [done|apply Hp| |done]. rewrite (proj2 (look_none f p) El). done.
Qed.
Lemma os_mkdir_target e : os_mkdir f target = Err e -> e = OSError.
Proof using Hf.
  unfold os_mkdir. pose proof (inside_real f Hf) as Hr.
  assert (locate f target = Ok target) as ->.
  { destruct (decide (target = [])) as [->|Ht]; [done|].
    destruct (target_parent f Hf Ht) as (d & c & Heq & Hd & Hc). rewrite Heq. by apply locate_child. }
  rewrite bind_Ok. rewrite (proj1 (look_dir f target) (proj2 Hr target (reflexivity _))). by intros [= <-].
Qed.
End calls.

Lemma mkdir_parents_under fuel f p f' : inside f -> under p -> mkdir_parents fuel f p = Ok f' -> kept f f'.
Proof.
  revert f p f'. induction fuel as [|fuel IH]; intros f p f' Hf Hp H; cbn [mkdir_parents] in H;
    destruct (os_mkdir f p) as [f1|e] eqn:E.
  1, 3: injection H as <-; by eapply os_mkdir_under.
  all: assert (e <> FileNotFoundError -> (if is_dir f p then Ok f else Err e) = Ok f' -> kept f f') as Hex
    by (intros _ Hx; destruct (is_dir f p); [injection Hx as <-; by apply kept_refl|done]).
  all: destruct e; try (apply Hex; [done|exact H]).
  { done. }
  assert (p <> target) as Hne by (intros ->; by apply os_mkdir_target in E).
  destruct (mkdir_parents fuel f (removelast p)) as [f1|] eqn:E1; [|done]. rewrite bind_Ok in H.
  apply IH in E1; [|done|by apply under_removelast]. apply (kept_trans _ f1); [done|]. intros Hf1.
  destruct (os_mkdir f1 p) as [f2|e2] eqn:E2; [injection H as <-; by eapply os_mkdir_under|].
  destruct (is_dir f1 p); [injection H as <-; by apply kept_refl|done].
Qed.
Lemma mkdir_under f p f' : inside f -> under p -> mkdir f p = Ok f' -> kept f f'.
Proof. apply mkdir_parents_under. Qed.

Lemma open_write_under f p f' i :
  inside f -> under p -> open_write f p = Ok (f', i) -> kept f f' /\ owned f' i.
Proof.
  intros Hf Hp H. unfold open_write in H. destruct (follow f p) as [q|] eqn:E; [|done].
  apply follow_under in E as ->; [|done..]. rewrite bind_Ok in H.
  destruct (lookup_entry f p) as [[|j|t]|] eqn:El; try done.
  - injection H as <- <-. destruct (owned_under f p j Hf Hp El) as [Hs Ho]. split.
    + by apply inside_set_inode.
    + split; [cbn; by rewrite lookup_insert_eq|done].
  - injection H as <- <-. set (j := fresh _).
    assert (forall q, entries_ f !! q = Some (File j) -> False) as Hfr.
    { intros q Hq. destruct (inside_ok f Hf q j Hq) as [x Hx].
      apply (is_fresh (dom (inodes f))). apply elem_of_dom. eauto. }
    assert (kept f (FS (entries_ f) (<[j := []]> (inodes f)))) as Hk.
    { apply inside_set_inode; [done|]. intros q Hq. by destruct (Hfr q). }
    split.
    + apply (kept_trans _ _ _ Hk). intros Hf1.
      apply (inside_set_entry _ Hf1 p (File j)); [apply Hp| |].
      * unfold look. change (lookup_entry (FS _ _) p) with (lookup_entry f p). by rewrite El.
      * split; [cbn; by rewrite lookup_insert_eq|]. intros q Hq. by destruct (Hfr q).
    + split; [cbn; by rewrite lookup_insert_eq|]. intros q Hq. cbn in Hq.
      apply lookup_insert_Some in Hq as [[<- _]|[_ Hq]]; [apply Hp|by destruct (Hfr q)].
Qed.
Lemma append_owned f i chunk : inside f -> owned f i -> kept f (append_file f i chunk) /\ owned (append_file f i chunk) i.
Proof.
  intros Hf [[old Hs] Ho].
  assert (append_file f i chunk = FS (entries_ f) (<[i := old ++ chunk]> (inodes f))) as ->.
  { unfold append_file. f_equal. apply map_eq. intros k. destruct (decide (i = k)) as [->|Hne].
    - by rewrite lookup_alter_eq, lookup_insert_eq, Hs.
    - by rewrite lookup_alter_ne, lookup_insert_ne. }
  split; [by apply inside_set_inode|]. split; [cbn; by rewrite lookup_insert_eq|done].
Qed.
Lemma unlink_under b f p f' : inside f -> under p -> unlink b f p = Ok f' -> kept f f'.
Proof.
  intros Hf Hp H. unfold unlink in H. destruct (locate f p) as [q|e] eqn:E.
  - apply locate_under in E as ->; [|done..].
    destruct (lookup_entry f p) as [[|i|t]|] eqn:El; try done.
    + injection H as <-. apply inside_remove_entry; [done|apply Hp|by eapply lookup_look].
    + injection H as <-. apply inside_remove_entry; [done|apply Hp|by eapply lookup_look].
    + destruct b; [injection H as <-; by apply kept_refl|done].
  - destruct e; try done. destruct b; [injection H as <-; by apply kept_refl|done].
Qed.
Lemma no_link_under f p t : inside f -> under p -> lookup_entry f p <> Some (Link t).
Proof.
  intros Hf [Hp _] Hl. apply (inside_nolink f Hf p t Hp). unfold look. by rewrite Hl.
Qed.
Lemma os_link_under f src p f' : inside f -> under src -> under p -> os_link f src p = Ok f' -> kept f f'.
Proof.
  intros Hf Hs Hp H. unfold os_link in H. destruct (locate f src) as [q|] eqn:E; [|done].
  apply locate_under in E as ->; [|done..]. rewrite bind_Ok in H.
  destruct (locate f p) as [q|] eqn:E; [|done]. apply locate_under in E as ->; [|done..]. rewrite bind_Ok in H.
  destruct (lookup_entry f src) as [[|i|t]|] eqn:El; try done.
  - destruct (lookup_entry f p) eqn:Ep; [done|]. injection H as <-.
    apply inside_set_entry; [done|apply Hp|by rewrite (proj2 (look_none f p) Ep)|].
    apply (owned_under f src i Hf Hs El).
  - by destruct (no_link_under f src t Hf Hs).
Qed.
Lemma replace_under f src p f' : inside f -> under src -> under p -> replace f src p = Ok f' -> kept f f'.
Proof.
  intros Hf Hs Hp H. unfold replace in H. destruct (locate f src) as [q|] eqn:E; [|done].
  apply locate_under in E as ->; [|done..]. rewrite bind_Ok in H.
  destruct (locate f p) as [q|] eqn:E; [|done]. apply locate_under in E as ->; [|done..]. rewrite bind_Ok in H.
  destruct (lookup_entry f src) as [[|i|t]|] eqn:El; [done| |by destruct (no_link_under f src t Hf Hs)|done].
  assert (look f p <> Some VDir -> kept f (set_entry (remove_entry f src) p (File i))) as Hset.
  { intros Hpd. apply (kept_trans _ (remove_entry f src)).
    { apply inside_remove_entry; [done|apply Hs|by eapply lookup_look]. }
    intros Hf1. apply inside_set_entry; [done|apply Hp| |].
    - rewrite look_remove_entry by (intros ->; by cbn in El). by case_decide.
    - destruct (owned_under f src i Hf Hs El) as [Hi Ho]. split; [done|]. intros q Hq. cbn in Hq.
      apply lookup_delete_Some in Hq as [_ Hq]. by apply Ho. }
  destruct (lookup_entry f p) as [[|j|t]|] eqn:Ep; [done| | |].
  - destruct (decide (i = j)); injection H as <-; [by apply kept_refl|]. apply Hset. by eapply lookup_look.
  - by destruct (no_link_under f p t Hf Hp).
  - injection H as <-. apply Hset. by rewrite (proj2 (look_none f p) Ep).
Qed.
End inside.

(** ** The traversal *)

Section traversal.
Context {W : Type} (read_blob : json -> eff W bytes) (json_loads : bytes -> res json).
Context (b64decode_text : string -> res bytes) (iso_timestamp : string -> res Z) (strict progress : bool).
Variable target : path.

(** A document that is no tree with a node named ".." or a symlink. *)
Definition tame (doc : json) : Prop :=
  forall l j, (v ← get_or doc "nodes" (JList []); iterate v) = Ok l -> j ∈ l ->
  getitem j "name" <> Ok (JString "..") /\ get_or j "type" (JString "file") <> Ok (JString "symlink").
(** The trees that a restore of [root] can come to, on whatever discs: what is read for
    [root], and for the subtrees of the nodes of such a tree. *)
Variable root : json.
Inductive held : json -> json -> Prop :=
  | held_root w data w' doc : read_blob root w = (Ok data, w') -> json_loads data = Ok doc -> held root doc
  | held_subtree id tree l j sub w data w' doc :
      held id tree -> (v ← get_or tree "nodes" (JList []); iterate v) = Ok l -> j ∈ l ->
      getitem j "subtree" = Ok sub ->
      read_blob sub w = (Ok data, w') -> json_loads data = Ok doc -> held sub doc.
Hypothesis trees_tame : forall id doc, held id doc -> tame doc.

Abbreviation under := (under target).
Definition good (s : rstate W) : Prop :=
  inside target (rs_fs s) /\ Forall (fun e => under e.2) (hardlink_map s).
Definition stays (s s' : rstate W) : Prop := good s -> good s' /\ same_outside target (rs_fs s) (rs_fs s').

#[local] Instance stays_preorder : PreOrder stays.
Proof.
  split.
  - intros s Hs. split; [done|by intros q _].
  - intros s1 s2 s3 H1 H2 Hs. destruct (H1 Hs) as [G1 S1], (H2 G1) as [G2 S2]. split; [done|].
    intros q Hq. by rewrite S2, S1.
Qed.

(** Changes of the other parts of the state. *)
Lemma stays_other s s' : rs_fs s' = rs_fs s -> hardlink_map s' = hardlink_map s -> stays s s'.
Proof. intros Hf Hh [Hi Hl]. unfold good. rewrite Hf, Hh. split; [done|by intros q _]. Qed.
Lemma stays_fs s f : kept target (rs_fs s) f -> stays s (set_fs f s).
Proof. intros [Hf Hs] [_ Hl]. done. Qed.

Lemma on_world_stays {A} (m : eff W A) : preserves stays (on_world m).
Proof. intros s. unfold on_world. destruct (m (rs_world s)). by apply stays_other. Qed.
Lemma fs_call_stays g :
  (forall f f', inside target f -> g f = Ok f' -> kept target f f') -> preserves stays (fs_call g).
Proof.
  intros H s. unfold fs_call. destruct (g (rs_fs s)) as [f|e] eqn:E; cbn; [|reflexivity].
  intros Hg. by apply stays_fs; [apply H; [apply Hg|]|].
Qed.
Lemma modify_stays g :
  (forall s, rs_fs (g s) = rs_fs s) -> (forall s, hardlink_map (g s) = hardlink_map s) ->
  preserves stays (modify g).
Proof. intros Hf Hh s. apply stays_other; [apply Hf|apply Hh]. Qed.
Lemma record_failure_stays p id e : preserves stays (_record_failure p id e).
Proof. by apply modify_stays. Qed.
Lemma add_link_stays k p : under p -> preserves stays (add_link k p).
Proof.
  intros Hp s [Hi Hl]. split; [|by intros q _]. split; [done|]. cbn.
  revert Hl. generalize (hardlink_map s) as l. intros l Hl.
  induction Hl as [|[k' p'] l Hx Hl IH]; cbn; [by apply Forall_cons; split|].
  case_decide; by apply Forall_cons.
Qed.
Lemma make_calls_stays p r : preserves stays (make_calls p r).
Proof. intros s. destruct r; [by apply stays_other|reflexivity]. Qed.
Lemma apply_metadata_stays j p : preserves stays (_apply_metadata b64decode_text iso_timestamp j p).
Proof.
  unfold _apply_metadata. apply preserves_bind; [apply _|apply preserves_gets, _|]. intros b.
  apply preserves_bind; [apply _|apply make_calls_stays|]. intros _.
  apply preserves_bind; [apply _| |].
  { apply preserves_handle; [apply _|apply make_calls_stays|]. intros e k. destruct (caught _ e); [|done].
    intros [= <-]. apply preserves_ret, _. }
  intros _. apply preserves_bind; [apply _|apply preserves_lift, _|]. intros v.
  apply preserves_bind; [apply _|apply preserves_lift, _|]. intros l.
  apply preserves_for_each; [apply _|]. intros xa. apply make_calls_stays.
Qed.

(** The loop over blobs writes to an inode of the target only. *)
Lemma write_blobs_stays p i ids s :
  good s -> owned target (rs_fs s) i ->
  let s' := (write_blobs read_blob strict p i ids s).2 in
  good s' /\ same_outside target (rs_fs s) (rs_fs s').
Proof.
  revert s. induction ids as [|id ids IH]; intros s Hs Hi; [split; [done|by intros q _]|].
  cbn [write_blobs]. set (h := handle _ _).
  assert (preserves stays h) as Hh.
  { apply preserves_handle; [apply _|apply on_world_stays|]. intros e k. destruct (_ && _); [|done].
    intros [= <-]. apply preserves_bind; [apply _|apply record_failure_stays|]. intros _. apply preserves_lift, _. }
  assert (rs_fs (h s).2 = rs_fs s) as Hfs.
  { unfold h, handle, on_world. destruct (read_blob id (rs_world s)) as [[c|e] w']; [done|].
    by destruct (caught node_errors e && negb strict). }
  destruct (Hh s Hs) as [Hg1 _].
  destruct (h s) as [[chunk|e] s1] eqn:Eh; cbn in Hfs, Hg1;
    [rewrite (eff_bind_Ok _ _ _ _ _ Eh)
    |rewrite (eff_bind_Err _ _ _ _ _ Eh); cbn; rewrite Hfs; split; [done|by intros q _]].
  destruct (append_owned target (rs_fs s1) i chunk (proj1 Hg1)) as [Hk Ho]; [by rewrite Hfs|].
  set (s2 := set_fs (append_file (rs_fs s1) i chunk) s1).
  assert (good s2) as Hg2 by (split; [apply Hk|apply Hg1]).
  rewrite (eff_bind_Ok _ _ s1 tt s2) by done.
  destruct (IH s2 Hg2 Ho) as [Hg3 Hs3].
  assert (same_outside target (rs_fs s) (rs_fs s2)) as Hs2 by (intros q Hq; rewrite <- Hfs; by apply (proj2 Hk)).
  destruct (write_blobs read_blob strict p i ids s2) as [[n|e] s3] eqn:E3;
    [rewrite (eff_bind_Ok _ _ _ _ _ E3)|rewrite (eff_bind_Err _ _ _ _ _ E3)];
    (split; [done|]); intros q Hq; cbn; by rewrite <- Hs2, <- Hs3.
Qed.

(** Building blocks of the traversal keep the target apart. *)
Local Ltac stay :=
  repeat first
    [ apply record_failure_stays | apply apply_metadata_stays | apply on_world_stays
    | match goal with |- preserves _ (_ ≫= _) => apply preserves_bind; [apply _| |intros ?] end
    | apply preserves_ret; apply _ | apply preserves_lift; apply _ | apply preserves_gets; apply _ ].

Lemma preserves_lift_bind {A B} (R : rstate W -> rstate W -> Prop) (HR : PreOrder R) (r : res A) (k : A -> eff (rstate W) B) :
  (forall a, r = Ok a -> preserves R (k a)) -> preserves R (lift r ≫= k).
Proof. intros H s. destruct r as [a|e]; [by apply H|by cbn]. Qed.
Lemma under_child dir c : under dir -> c <> ".." -> under (dir ++ [c]).
Proof.
  intros [Hp Hd] Hc. split; [by apply prefix_app_r|]. apply Forall_app. by split; [|constructor].
Qed.
Lemma partial_under dir c : under dir -> under (partial_path (dir ++ [c])).
Proof.
  intros H. unfold partial_path. rewrite List.removelast_last, List.last_last. apply under_child; [done|].
  apply partial_name_dots.
Qed.

(** The inner [try] of [_restore_file]. *)
Lemma write_file_stays j tmp p content :
  under tmp -> under p ->
  preserves stays
    (i ← fs_open tmp;
     ids ← lift (iterate content);
     n ← write_blobs read_blob strict p i ids;
     _apply_metadata b64decode_text iso_timestamp j tmp ≫= fun _ =>
     fs_call (fun f => replace f tmp p) ≫= fun _ => (mret n : eff (rstate W) Z)).
Proof.
  intros Ht Hp s Hs. destruct (open_write (rs_fs s) tmp) as [[f i']|e] eqn:Ew.
  2:{ rewrite (eff_bind_Err _ _ s e s) by (unfold fs_open; by rewrite Ew). split; [done|by intros q _]. }
  set (s1 := set_fs f s). rewrite (eff_bind_Ok _ _ s i' s1) by (unfold fs_open; by rewrite Ew).
  destruct (open_write_under target _ _ _ _ (proj1 Hs) Ht Ew) as [Hk Ho].
  assert (good s1) as Hg1 by (split; [apply Hk|apply Hs]).
  assert (same_outside target (rs_fs s) (rs_fs s1)) as Hs1 by apply Hk.
  destruct (iterate content) as [ids|e]; [|by split].
  rewrite (eff_bind_Ok _ _ s1 ids s1) by done.
  destruct (write_blobs_stays p i' ids s1 Hg1 Ho) as [Hg2 Hs2].
  destruct (write_blobs read_blob strict p i' ids s1) as [[n|e] s2] eqn:E2; cbn in Hg2, Hs2.
  2:{ rewrite (eff_bind_Err _ _ _ _ _ E2). split; [done|]. intros q Hq. by rewrite <- Hs1, <- Hs2. }
  rewrite (eff_bind_Ok _ _ _ _ _ E2).
  assert (preserves stays (_apply_metadata b64decode_text iso_timestamp j tmp ≫= fun _ =>
    fs_call (fun f => replace f tmp p) ≫= fun _ => (mret n : eff (rstate W) Z))) as Hrest.
  { stay. apply fs_call_stays. intros f0 f' Hf. by apply replace_under. }
  destruct (Hrest s2 Hg2) as [Hg3 Hs3]. split; [done|]. intros q Hq. by rewrite Hs3, Hs2, Hs1.
Qed.

Lemma restore_file_stays j dir c :
  under dir -> c <> ".." ->
  preserves stays (_restore_file read_blob b64decode_text iso_timestamp strict progress j (dir ++ [c])).
Proof.
  intros Hd Hc. pose proof (under_child dir c Hd Hc) as Hp. pose proof (partial_under dir c Hd) as Ht.
  unfold _restore_file. rewrite List.removelast_last. set (tmp := partial_path (dir ++ [c])) in *.
  assert (preserves stays (fs_call (fun f => unlink true f tmp) : eff (rstate W) unit)) as Hu
    by (apply fs_call_stays; intros f f' Hf; by apply unlink_under).
  stay.
  - apply fs_call_stays. intros f f' Hf. by apply mkdir_under.
  - apply preserves_handle; [apply _|by apply write_file_stays|]. intros e k Hk. case_bool_decide.
    { injection Hk as <-. by stay. }
    destruct (caught node_errors e); [|done]. injection Hk as <-. stay; [done|]. destruct strict; stay.
  - by apply modify_stays.
  - apply modify_stays; intros s; cbn; by case_match.
Qed.

Lemma try_link_stays k dir c : under dir -> c <> ".." -> preserves stays (try_link k (dir ++ [c]) : eff (rstate W) bool).
Proof.
  intros Hd Hc s Hs. unfold try_link. rewrite (eff_bind_Ok _ _ s (dict_get k (hardlink_map s)) s) by done.
  destruct (dict_get k (hardlink_map s)) as [src|] eqn:Ek; [|split; [done|by intros q _]].
  assert (under src) as Hsrc.
  { apply dict_get_in in Ek. destruct Hs as [_ Hl]. rewrite Forall_forall in Hl. by apply (Hl _ Ek). }
  pose proof (under_child dir c Hd Hc) as Hp. rewrite List.removelast_last.
  revert s Hs Ek. enough (preserves stays (handle
    (fs_call (fun f => mkdir f dir) ≫= fun _ => fs_call (fun f => os_link f src (dir ++ [c])) ≫= fun _ => mret true)
    (fun e => if is_a e OSError then Some (mret false) else None) : eff (rstate W) bool)) as H by (intros s Hs _; by apply H).
  apply preserves_handle; [apply _| |].
  - stay.
    + apply fs_call_stays. intros f f' Hf. by apply mkdir_under.
    + apply fs_call_stays. intros f f' Hf. by apply os_link_under.
  - intros e h. destruct (is_a e OSError); [|done]. intros [= <-]. stay.
Qed.

Lemma restore_file_node_stays j dir c :
  under dir -> c <> ".." ->
  preserves stays (restore_file_node read_blob b64decode_text iso_timestamp strict progress j (dir ++ [c])).
Proof.
  intros Hd Hc. unfold restore_file_node. stay. destruct a as [k|]; [|by apply restore_file_stays].
  stay; [by apply try_link_stays|]. destruct a; stay; [by apply restore_file_stays|].
  by apply add_link_stays, under_child.
Qed.

Lemma restore_node_stays recurse dir j :
  under dir -> getitem j "name" <> Ok (JString "..") ->
  get_or j "type" (JString "file") <> Ok (JString "symlink") ->
  (forall id dir, getitem j "subtree" = Ok id -> under dir -> preserves stays (recurse id dir)) ->
  preserves stays (restore_node read_blob b64decode_text iso_timestamp strict progress recurse dir j).
Proof.
  intros Hd Hn Ht Hrec. unfold restore_node.
  destruct (getitem j "name") as [n|]; [|intros s Hs; split; [done|by intros q _]].
  destruct (get_or j "type" (JString "file")) as [t|]; [|intros s Hs; split; [done|by intros q _]].
  destruct n as [| | | |name| |]; try (intros s Hs; split; [done|by intros q _]).
  intros s. rewrite (eff_bind_Ok _ _ s (JString name) s), (eff_bind_Ok _ _ s t s), (eff_bind_Ok _ _ s name s) by done.
  revert s. cbn zeta.
  destruct (_ || _) eqn:E; [intros s Hs; split; [done|by intros q _]|].
  apply orb_false_iff in E as [_ E]. apply negb_false_iff, String.eqb_eq in E. rewrite E.
  assert (name <> "..") as Hc by congruence.
  match goal with |- forall s, stays s (?m s).2 => change (preserves stays m) end.
  apply preserves_handle; [apply _| |].
  - case_bool_decide; [by apply restore_file_node_stays|].
    case_bool_decide.
    { unfold restore_dir_node. pose proof (under_child dir name Hd Hc) as Hp. stay.
      - apply fs_call_stays. intros f f' Hf. by apply mkdir_under.
      - match goal with |- context [if ?b then _ else _] => destruct b end; [|stay].
        apply preserves_lift_bind; [apply _|]. intros id Hid. by apply Hrec. }
    rewrite bool_decide_false by congruence. stay.
  - intros e h. case_bool_decide; [intros [= <-]; stay|]. destruct (_ && _); [|done]. intros [= <-]. stay.
Qed.

Lemma for_each_stays m (l : list json) :
  (forall j, j ∈ l -> preserves stays (m j)) -> preserves stays (for_each m l).
Proof.
  induction l as [|j l IH]; intros H; cbn [for_each]; [apply preserves_ret, _|].
  apply preserves_bind; [apply _|apply H; by left|]. intros _. apply IH. intros j' Hj. apply H. by right.
Qed.

(** An id with all that can be read for it. *)
Definition reached (id : json) : Prop :=
  forall w data w' doc, read_blob id w = (Ok data, w') -> json_loads data = Ok doc -> held id doc.
Lemma restore_tree_stays depth id dir :
  reached id -> under dir ->
  preserves stays (_restore_tree read_blob json_loads b64decode_text iso_timestamp strict progress depth id dir).
Proof using trees_tame.
  revert id dir. induction depth as [|depth IH]; intros id dir Hid Hd; [apply preserves_lift, _|].
  cbn [_restore_tree]. set (read := handle _ _).
  assert (preserves stays read) as Hread.
  { apply preserves_handle; [apply _|stay|]. intros e h. destruct (_ && _); [|done]. intros [= <-]. stay. }
  intros s Hs. destruct (Hread s Hs) as [Hg1 Hs1].
  assert (forall d s1, read s = (Ok (Some d), s1) -> held id d) as Hheld.
  { intros d s1 H. apply handle_Ok_inv in H as [H|(e & s2 & k & _ & Hk & H)].
    - apply eff_bind_Ok_inv in H as (data & s2 & Hrd & H).
      apply eff_bind_Ok_inv in H as (doc & s3 & [Hj _]%lift_inv & H). injection H as <- _.
      unfold on_world in Hrd. destruct (read_blob id (rs_world s)) as [r w'] eqn:Ew. injection Hrd as -> _.
      by eapply Hid.
    - destruct (_ && _); [|done]. injection Hk as <-. apply eff_bind_Ok_inv in H as (u & s3 & _ & H). by injection H. }
  destruct (read s) as [[[doc|]|e] s1] eqn:Er;
    [rewrite (eff_bind_Ok _ _ _ _ _ Er)|rewrite (eff_bind_Ok _ _ _ _ _ Er); by split
    |rewrite (eff_bind_Err _ _ _ _ _ Er); by split].
  assert (preserves stays (nodes ← lift (get_or doc "nodes" (JList [])); l ← lift (iterate nodes);
    for_each (restore_node read_blob b64decode_text iso_timestamp strict progress
      (_restore_tree read_blob json_loads b64decode_text iso_timestamp strict progress depth) dir) l : eff (rstate W) unit)) as Hl.
  { destruct (get_or doc "nodes" (JList [])) as [v|] eqn:Ev; [|intros s0 Hs0; split; [done|by intros q _]].
    intros s0. rewrite (eff_bind_Ok _ _ s0 v s0) by done.
    destruct (iterate v) as [l|] eqn:Ei; [|intros Hs0; split; [done|by intros q _]].
    rewrite (eff_bind_Ok _ _ s0 l s0) by done. revert s0. apply for_each_stays. intros j Hj.
    assert ((v ← get_or doc "nodes" (JList []); iterate v) = Ok l) as Hl by by rewrite Ev, bind_Ok.
    pose proof (Hheld doc s1 eq_refl) as Hdoc. destruct (trees_tame id doc Hdoc l j Hl Hj) as [Hn Ht].
    apply restore_node_stays; [done..|]. intros sub dir' Hsub Hd'. apply IH; [|done].
    intros w data w' doc' Hrd Hjs. by eapply held_subtree. }
  destruct (Hl s1 Hg1) as [Hg2 Hs2]. split; [done|]. intros q Hq. rewrite Hs2 by done. by apply Hs1.
Qed.

End traversal.

(** ** The demonstration repository *)

Lemma demo_tame data doc : demo_json data = Ok doc -> tame doc.
Proof.
  intros H. unfold demo_json in H. repeat case_match; simplify_eq.
  all: intros l j Hl Hj; vm_compute in Hl; injection Hl as <-.
  all: repeat (apply elem_of_cons in Hj as [->|Hj]; [split; vm_compute; discriminate|]).
  all: by apply not_elem_of_nil in Hj.
Qed.
Lemma demo_inside : inside ["home"] demo_fs.
Proof.
  assert (forall p e, entries_ demo_fs !! p = Some e -> e = Dir) as Hd.
  { intros p e H. unfold demo_fs in H. cbn in H. by apply lookup_singleton_Some in H as [_ <-]. }
  constructor.
  - intros p i H. by apply Hd in H.
  - split; [by repeat constructor|]. intros q [k Hk].
    destruct q as [|c [|c' q]]; [done| |done]. injection Hk as <- _. by vm_compute.
  - intros p t _ H. unfold look in H. destruct (lookup_entry demo_fs p) as [e|] eqn:E; [|done].
    destruct p; [by injection E as <-|]. apply Hd in E. by subst.
  - intros p q i H. by apply Hd in H.
Qed.
