(* ===== verification/Catalog.v ===== *)
(** * The catalog: tables and constraints

    The data model of [db/models.py] and the tables of [db/schema.py]: one
    record per row type, the catalog as the record of its tables (rows in
    rowid order, AUTOINCREMENT counters beside them), and the statements that
    change it with the constraints SQLite enforces: UNIQUE, CHECK, PRIMARY KEY
    and, with [foreign_keys=ON], FOREIGN KEY with or without ON DELETE
    CASCADE. *)

From S2P Require Import Prelude Sqlite.
Open Scope string_scope.
Open Scope list_scope.
Open Scope Z_scope.

(** ** Constants ([constants.py]) *)

Definition STATUS_STAGING : string := "STAGING".
Definition STATUS_BURNING : string := "BURNING".
Definition STATUS_BURNED : string := "BURNED".
Definition STATUS_VERIFIED : string := "VERIFIED".
Definition STATUS_CONSOLIDATING : string := "CONSOLIDATING".
Definition STATUS_DEPRECATED : string := "DEPRECATED".
Definition STATUS_DESTROYED : string := "DESTROYED".
Definition DISPLAY_STATUS_LOST : string := "LOST".
Definition AUTO_DEPRECATED_NOTE_PREFIX : string := "auto-deprecated:".

(** The CHECK constraints of the schema. *)
Definition VOLUME_STATUSES : list string :=
  ["STAGING"; "BURNING"; "BURNED"; "VERIFIED"; "CONSOLIDATING"; "DEPRECATED"; "DESTROYED"].
Definition COPY_STATUSES : list string := ["ACTIVE"; "DEPRECATED"; "DESTROYED"].
Definition SESSION_STATUSES : list string := ["STAGED"; "PARTIAL"; "COMPLETE"; "CLEANED"].
Definition EVENT_TYPES : list string :=
  ["VERIFY_PASS"; "VERIFY_FAIL"; "VERIFY_FAIL_REBURN"; "ECC_REPAIR"; "LOCATION_MOVE";
   "CONDITION_CHECK"; "NOTE"; "BURN_RECEIPT_IMPORTED"].

(** ** Rows ([db/models.py]) *)

Record Volume := mkVolume {
  volume_id : Z; label : string; uuid : string; media_type : string;
  capacity_bytes : Z; used_bytes : Z; location : string; status : string;
  created_at : string; closed_at : option string; verified_at : option string;
}.
Record Pack := mkPack {
  pack_id : Z; sha256 : string; size_bytes : Z; repo_id : string;
  is_pruned : bool; pack_created_at : string;
}.
Record Repository := mkRepository {
  r_repo_id : string; r_name : string; mirror_path : string; encryption_key_id : string;
  r_created_at : string; r_status : string;
}.
Record Snapshot := mkSnapshot {
  snapshot_id : string; s_repo_id : string; hostname : string; timestamp : string;
  paths : string; tags : string; s_description : string;
}.
Record VolumePack := mkVolumePack { vp_volume_id : Z; vp_pack_id : Z }.
Record Location := mkLocation {
  name : string; loc_created_at : string; description : string;
}.
Record VolumeCopy := mkVolumeCopy {
  copy_id : Z; vc_volume_id : Z; vc_location : string; vc_status : string;
  burn_date : string; notes : string; iso_sha256 : option string;
  last_verified_at : option string; media_serial : string; iso_size_bytes : option Z;
}.
Record BurnSession := mkBurnSession {
  session_id : string; bs_created_at : string; bs_media_type : string;
  bs_status : string; staging_dir : string;
}.
Record SessionVolume := mkSessionVolume {
  sv_session_id : string; sv_volume_id : Z; iso_path : string;
  sv_iso_sha256 : option string; sv_iso_size_bytes : option Z;
}.
Record VolumeEvent := mkVolumeEvent {
  event_id : Z; ev_volume_id : Z; event_type : string; event_date : string;
  ev_location : option string; detail : string;
}.

Record KeyEscrow := mkKeyEscrow {
  ke_repo_id : string; threshold : Z; shares : Z; slip39_id : Z; split_at : string;
}.

#[export] Instance volume_eq_dec : EqDecision Volume. Proof. solve_decision. Defined.
#[export] Instance pack_eq_dec : EqDecision Pack. Proof. solve_decision. Defined.
#[export] Instance repository_eq_dec : EqDecision Repository. Proof. solve_decision. Defined.
#[export] Instance snapshot_eq_dec : EqDecision Snapshot. Proof. solve_decision. Defined.
#[export] Instance volume_pack_eq_dec : EqDecision VolumePack. Proof. solve_decision. Defined.
#[export] Instance location_eq_dec : EqDecision Location. Proof. solve_decision. Defined.
#[export] Instance copy_eq_dec : EqDecision VolumeCopy. Proof. solve_decision. Defined.
#[export] Instance session_eq_dec : EqDecision BurnSession. Proof. solve_decision. Defined.
#[export] Instance session_volume_eq_dec : EqDecision SessionVolume.
Proof. solve_decision. Defined.
#[export] Instance key_escrow_eq_dec : EqDecision KeyEscrow. Proof. solve_decision. Defined.
#[export] Instance event_eq_dec : EqDecision VolumeEvent. Proof. solve_decision. Defined.

(** ** The tables *)

Record Catalog := mkCatalog {
  volumes : list Volume;
  packs : list Pack;
  repositories : list Repository;
  volume_packs : list VolumePack;
  snapshots : list Snapshot;
  locations : list Location;
  volume_copies : list VolumeCopy;
  burn_sessions : list BurnSession;
  session_volumes : list SessionVolume;
  volume_events : list VolumeEvent;
  seq_volumes : Z; seq_packs : Z; seq_copies : Z; seq_events : Z;
  key_escrow : option (list KeyEscrow);   (* [None]: a catalog before version 9, without the table *)
}.

Definition set_volumes (d : Catalog) (x : list Volume) : Catalog :=
  mkCatalog x (packs d) (repositories d) (volume_packs d) (snapshots d)
    (locations d) (volume_copies d) (burn_sessions d) (session_volumes d) (volume_events d)
    (seq_volumes d) (seq_packs d) (seq_copies d) (seq_events d) (key_escrow d).
Definition set_packs (d : Catalog) (x : list Pack) : Catalog :=
  mkCatalog (volumes d) x (repositories d) (volume_packs d) (snapshots d)
    (locations d) (volume_copies d) (burn_sessions d) (session_volumes d) (volume_events d)
    (seq_volumes d) (seq_packs d) (seq_copies d) (seq_events d) (key_escrow d).
Definition set_repositories (d : Catalog) (x : list Repository) : Catalog :=
  mkCatalog (volumes d) (packs d) x (volume_packs d) (snapshots d)
    (locations d) (volume_copies d) (burn_sessions d) (session_volumes d) (volume_events d)
    (seq_volumes d) (seq_packs d) (seq_copies d) (seq_events d) (key_escrow d).
Definition set_volume_packs (d : Catalog) (x : list VolumePack) : Catalog :=
  mkCatalog (volumes d) (packs d) (repositories d) x (snapshots d)
    (locations d) (volume_copies d) (burn_sessions d) (session_volumes d) (volume_events d)
    (seq_volumes d) (seq_packs d) (seq_copies d) (seq_events d) (key_escrow d).
Definition set_snapshots (d : Catalog) (x : list Snapshot) : Catalog :=
  mkCatalog (volumes d) (packs d) (repositories d) (volume_packs d) x
    (locations d) (volume_copies d) (burn_sessions d) (session_volumes d) (volume_events d)
    (seq_volumes d) (seq_packs d) (seq_copies d) (seq_events d) (key_escrow d).
Definition set_escrow (d : Catalog) (x : option (list KeyEscrow)) : Catalog :=
  mkCatalog (volumes d) (packs d) (repositories d) (volume_packs d) (snapshots d)
    (locations d) (volume_copies d) (burn_sessions d) (session_volumes d) (volume_events d)
    (seq_volumes d) (seq_packs d) (seq_copies d) (seq_events d) x.
Definition set_locations (d : Catalog) (x : list Location) : Catalog :=
  mkCatalog (volumes d) (packs d) (repositories d) (volume_packs d) (snapshots d)
    x (volume_copies d) (burn_sessions d) (session_volumes d) (volume_events d)
    (seq_volumes d) (seq_packs d) (seq_copies d) (seq_events d) (key_escrow d).
Definition set_copies (d : Catalog) (x : list VolumeCopy) : Catalog :=
  mkCatalog (volumes d) (packs d) (repositories d) (volume_packs d) (snapshots d)
    (locations d) x (burn_sessions d) (session_volumes d) (volume_events d)
    (seq_volumes d) (seq_packs d) (seq_copies d) (seq_events d) (key_escrow d).
Definition set_sessions (d : Catalog) (x : list BurnSession) : Catalog :=
  mkCatalog (volumes d) (packs d) (repositories d) (volume_packs d) (snapshots d)
    (locations d) (volume_copies d) x (session_volumes d) (volume_events d)
    (seq_volumes d) (seq_packs d) (seq_copies d) (seq_events d) (key_escrow d).
Definition set_session_volumes (d : Catalog) (x : list SessionVolume) : Catalog :=
  mkCatalog (volumes d) (packs d) (repositories d) (volume_packs d) (snapshots d)
    (locations d) (volume_copies d) (burn_sessions d) x (volume_events d)
    (seq_volumes d) (seq_packs d) (seq_copies d) (seq_events d) (key_escrow d).
Definition set_events (d : Catalog) (x : list VolumeEvent) : Catalog :=
  mkCatalog (volumes d) (packs d) (repositories d) (volume_packs d) (snapshots d)
    (locations d) (volume_copies d) (burn_sessions d) (session_volumes d) x
    (seq_volumes d) (seq_packs d) (seq_copies d) (seq_events d) (key_escrow d).
Definition set_seqs (d : Catalog) (v p c e : Z) : Catalog :=
  mkCatalog (volumes d) (packs d) (repositories d) (volume_packs d) (snapshots d)
    (locations d) (volume_copies d) (burn_sessions d) (session_volumes d) (volume_events d) v p c e (key_escrow d).

Definition set_status (s : string) (v : Volume) : Volume :=
  mkVolume (volume_id v) (label v) (uuid v) (media_type v) (capacity_bytes v) (used_bytes v)
    (location v) s (created_at v) (closed_at v) (verified_at v).
Definition set_verified_at (t : string) (v : Volume) : Volume :=
  mkVolume (volume_id v) (label v) (uuid v) (media_type v) (capacity_bytes v) (used_bytes v)
    (location v) (status v) (created_at v) (closed_at v) (Some t).
Definition set_closed_at (t : string) (v : Volume) : Volume :=
  mkVolume (volume_id v) (label v) (uuid v) (media_type v) (capacity_bytes v) (used_bytes v)
    (location v) (status v) (created_at v) (Some t) (verified_at v).
Definition set_used_bytes (n : Z) (v : Volume) : Volume :=
  mkVolume (volume_id v) (label v) (uuid v) (media_type v) (capacity_bytes v) n
    (location v) (status v) (created_at v) (closed_at v) (verified_at v).
Definition set_volume_location (l : string) (v : Volume) : Volume :=
  mkVolume (volume_id v) (label v) (uuid v) (media_type v) (capacity_bytes v) (used_bytes v)
    l (status v) (created_at v) (closed_at v) (verified_at v).
Definition set_pruned (b : bool) (p : Pack) : Pack :=
  mkPack (pack_id p) (sha256 p) (size_bytes p) (repo_id p) b (pack_created_at p).
Definition set_copy_status (s : string) (c : VolumeCopy) : VolumeCopy :=
  mkVolumeCopy (copy_id c) (vc_volume_id c) (vc_location c) s (burn_date c) (notes c)
    (iso_sha256 c) (last_verified_at c) (media_serial c) (iso_size_bytes c).
Definition set_copy_verified (t : string) (c : VolumeCopy) : VolumeCopy :=
  mkVolumeCopy (copy_id c) (vc_volume_id c) (vc_location c) (vc_status c) (burn_date c)
    (notes c) (iso_sha256 c) (Some t) (media_serial c) (iso_size_bytes c).
Definition set_copy_location (l n : string) (c : VolumeCopy) : VolumeCopy :=
  mkVolumeCopy (copy_id c) (vc_volume_id c) l (vc_status c) (burn_date c) n
    (iso_sha256 c) (last_verified_at c) (media_serial c) (iso_size_bytes c).
Definition set_event_location (l : option string) (e : VolumeEvent) : VolumeEvent :=
  mkVolumeEvent (event_id e) (ev_volume_id e) (event_type e) (event_date e) l (detail e).
Definition set_repo_row_status (s : string) (r : Repository) : Repository :=
  mkRepository (r_repo_id r) (r_name r) (mirror_path r) (encryption_key_id r) (r_created_at r) s.

(** ** Statements

    Each returns the exception a failed constraint raises. *)

Abbreviation integrity b := (raise_if b SqliteIntegrityError).

Definition has_volume (d : Catalog) (i : Z) : bool :=
  exists_row (fun v => sql_eq (volume_id v) i) (volumes d).
Definition has_pack (d : Catalog) (i : Z) : bool :=
  exists_row (fun p => sql_eq (pack_id p) i) (packs d).
Definition has_repo (d : Catalog) (r : string) : bool :=
  exists_row (fun x => sql_eq (r_repo_id x) r) (repositories d).
Definition has_location (d : Catalog) (l : string) : bool :=
  exists_row (fun x => sql_eq (name x) l) (locations d).
Definition has_session (d : Catalog) (s : string) : bool :=
  exists_row (fun x => sql_eq (session_id x) s) (burn_sessions d).
(** A nullable foreign key. *)
Definition has_location_opt (d : Catalog) (l : option string) : bool :=
  match l with Some l => has_location d l | None => true end.

(** [INSERT INTO volumes]: the new row id, from the AUTOINCREMENT counter. *)
Definition insert_volume (lab uid media : string) (capacity : Z) (loc st now : string)
    (d : Catalog) : res (Z * Catalog) :=
  _ ← integrity (exists_row (fun v => sql_eq (label v) lab || sql_eq (uuid v) uid) (volumes d));
  _ ← integrity (negb (sql_in st VOLUME_STATUSES));
  let i := seq_volumes d + 1 in
  Ok (i, set_seqs
           (set_volumes d (volumes d ++ [mkVolume i lab uid media capacity 0 loc st now None None]))
           i (seq_packs d) (seq_copies d) (seq_events d)).

(** [UPDATE volumes SET f WHERE p], for an [f] that keeps the keys: the row
    count. *)
Definition update_volumes (p : Volume -> bool) (f : Volume -> Volume) (d : Catalog) :
    res (Z * Catalog) :=
  let rows := update_where p f (volumes d) in
  _ ← integrity (exists_row (fun v => negb (sql_in (status v) VOLUME_STATUSES)) rows);
  Ok (count_where p (volumes d), set_volumes d rows).

(** [DELETE FROM volumes WHERE volume_id = i]: refused while a session names
    the volume; its links, discs and events go with it. *)
Definition delete_volume_row (i : Z) (d : Catalog) : res (unit * Catalog) :=
  _ ← integrity (has_volume d i &&
        exists_row (fun s => sql_eq (sv_volume_id s) i) (session_volumes d));
  let d := set_volumes d (delete_where (fun v => sql_eq (volume_id v) i) (volumes d)) in
  let d := set_volume_packs d (delete_where (fun x => sql_eq (vp_volume_id x) i) (volume_packs d)) in
  let d := set_copies d (delete_where (fun x => sql_eq (vc_volume_id x) i) (volume_copies d)) in
  let d := set_events d (delete_where (fun x => sql_eq (ev_volume_id x) i) (volume_events d)) in
  Ok (tt, d).

(** [INSERT OR IGNORE INTO packs]: a row that is ignored uses up an id too. *)
Definition insert_or_ignore_pack (now sha : string) (size : Z) (repo : string) (d : Catalog) :
    res (unit * Catalog) :=
  if exists_row (fun p => sql_eq (sha256 p) sha) (packs d)
  then Ok (tt, set_seqs d (seq_volumes d) (seq_packs d + 1) (seq_copies d) (seq_events d))
  else
    _ ← integrity (negb (has_repo d repo));
    let i := seq_packs d + 1 in
    Ok (tt, set_seqs (set_packs d (packs d ++ [mkPack i sha size repo false now]))
              (seq_volumes d) i (seq_copies d) (seq_events d)).

(** [UPDATE packs SET is_pruned = b WHERE p]. *)
Definition update_pruned (p : Pack -> bool) (b : bool) (d : Catalog) : res (Z * Catalog) :=
  Ok (count_where p (packs d), set_packs d (update_where p (set_pruned b) (packs d))).

(** [INSERT OR IGNORE INTO volume_packs]: OR IGNORE covers the primary key, not
    the foreign keys. *)
Definition insert_or_ignore_link (v p : Z) (d : Catalog) : res (unit * Catalog) :=
  if sql_in (mkVolumePack v p) (volume_packs d) then Ok (tt, d)
  else
    _ ← integrity (negb (has_volume d v && has_pack d p));
    Ok (tt, set_volume_packs d (volume_packs d ++ [mkVolumePack v p])).
Definition delete_links (p : VolumePack -> bool) (d : Catalog) : res (unit * Catalog) :=
  Ok (tt, set_volume_packs d (delete_where p (volume_packs d))).

(** [INSERT INTO volume_events]. *)
Definition insert_event (v : Z) (ty date : string) (loc : option string) (det : string)
    (d : Catalog) : res (Z * Catalog) :=
  _ ← integrity (negb (sql_in ty EVENT_TYPES));
  _ ← integrity (negb (has_volume d v && has_location_opt d loc));
  let i := seq_events d + 1 in
  Ok (i, set_seqs (set_events d (volume_events d ++ [mkVolumeEvent i v ty date loc det]))
           (seq_volumes d) (seq_packs d) (seq_copies d) i).

(** [INSERT INTO volume_copies ... ON CONFLICT(volume_id, location) DO UPDATE]:
    the row of a re-burn keeps its id, though one is used up; an absent hash, size or serial keeps
    the recorded one ([COALESCE], [CASE WHEN]). *)
Definition reburn (new old : VolumeCopy) : VolumeCopy :=
  mkVolumeCopy (copy_id old) (vc_volume_id old) (vc_location old) "ACTIVE" (burn_date new)
    (notes new)
    (match iso_sha256 new with Some h => Some h | None => iso_sha256 old end)
    (last_verified_at new)
    (if sql_eq (media_serial new) "" then media_serial old else media_serial new)
    (match iso_size_bytes new with Some n => Some n | None => iso_size_bytes old end).

Definition upsert_copy (v : Z) (loc date note : string) (sha : option string)
    (size : option Z) (verified : option string) (serial : string) (d : Catalog) :
    res (unit * Catalog) :=
  let i := seq_copies d + 1 in
  let new := mkVolumeCopy i v loc "ACTIVE" date note sha verified serial size in
  let at_key c := sql_eq (vc_volume_id c) v && sql_eq (vc_location c) loc in
  if exists_row at_key (volume_copies d) then
    Ok (tt, set_seqs (set_copies d (update_where at_key (reburn new) (volume_copies d)))
              (seq_volumes d) (seq_packs d) i (seq_events d))
  else
    _ ← integrity (negb (has_volume d v && has_location d loc));
    Ok (tt, set_seqs (set_copies d (volume_copies d ++ [new]))
              (seq_volumes d) (seq_packs d) i (seq_events d)).

(** [UPDATE volume_copies SET f WHERE p], for an [f] that keeps volume and
    location. *)
Definition update_copies (p : VolumeCopy -> bool) (f : VolumeCopy -> VolumeCopy) (d : Catalog) :
    res (Z * Catalog) :=
  let rows := update_where p f (volume_copies d) in
  _ ← integrity (exists_row (fun c => negb (sql_in (vc_status c) COPY_STATUSES)) rows);
  Ok (count_where p (volume_copies d), set_copies d rows).

(** [UPDATE volume_copies SET location = l, notes = n WHERE p]: the new location
    must exist, and must not have a disc of the same volume yet. *)
Definition move_copies (p : VolumeCopy -> bool) (l : string) (n : VolumeCopy -> string)
    (d : Catalog) : res (Z * Catalog) :=
  let rows := update_where p (fun c => set_copy_location l (n c) c) (volume_copies d) in
  _ ← integrity (negb (bool_decide
        (NoDup ((fun c => (vc_volume_id c, vc_location c)) <$> rows))));
  _ ← integrity (exists_row p (volume_copies d) && negb (has_location d l));
  Ok (count_where p (volume_copies d), set_copies d rows).

Definition insert_location (now l desc : string) (d : Catalog) : res (unit * Catalog) :=
  _ ← integrity (has_location d l);
  Ok (tt, set_locations d (locations d ++ [mkLocation l now desc])).
Definition insert_or_ignore_location (now l desc : string) (d : Catalog) : res (unit * Catalog) :=
  if has_location d l then Ok (tt, d)
  else Ok (tt, set_locations d (locations d ++ [mkLocation l now desc])).
(** [DELETE FROM locations WHERE name = l]: refused while a disc or an event
    names it. *)
Definition delete_location_row (l : string) (d : Catalog) : res (unit * Catalog) :=
  _ ← integrity (has_location d l &&
        (exists_row (fun c => sql_eq (vc_location c) l) (volume_copies d) ||
         exists_row (fun e => sql_eq (ev_location e) (Some l)) (volume_events d)));
  Ok (tt, set_locations d (delete_where (fun x => sql_eq (name x) l) (locations d))).

Definition insert_session (s media dir now : string) (d : Catalog) : res (unit * Catalog) :=
  _ ← integrity (has_session d s);
  Ok (tt, set_sessions d (burn_sessions d ++ [mkBurnSession s now media "STAGED" dir])).
Definition update_session_rows (s st : string) (d : Catalog) : res (unit * Catalog) :=
  _ ← integrity (has_session d s && negb (sql_in st SESSION_STATUSES));
  Ok (tt, set_sessions d (update_where (fun b => sql_eq (session_id b) s)
            (fun b => mkBurnSession (session_id b) (bs_created_at b) (bs_media_type b) st
                        (staging_dir b)) (burn_sessions d))).
Definition insert_session_volume (s : string) (v : Z) (path : string) (sha : option string)
    (size : option Z) (d : Catalog) : res (unit * Catalog) :=
  _ ← integrity (exists_row (fun x => sql_eq (sv_session_id x) s && sql_eq (sv_volume_id x) v)
                  (session_volumes d));
  _ ← integrity (negb (has_session d s && has_volume d v));
  Ok (tt, set_session_volumes d (session_volumes d ++ [mkSessionVolume s v path sha size])).
Definition update_session_volumes (p : SessionVolume -> bool) (f : SessionVolume -> SessionVolume)
    (d : Catalog) : res (unit * Catalog) :=
  Ok (tt, set_session_volumes d (update_where p f (session_volumes d))).
Definition delete_session_volumes (p : SessionVolume -> bool) (d : Catalog) :
    res (unit * Catalog) :=
  Ok (tt, set_session_volumes d (delete_where p (session_volumes d))).
Definition delete_session_row (s : string) (d : Catalog) : res (unit * Catalog) :=
  _ ← integrity (has_session d s &&
        exists_row (fun x => sql_eq (sv_session_id x) s) (session_volumes d));
  Ok (tt, set_sessions d (delete_where (fun b => sql_eq (session_id b) s) (burn_sessions d))).

Definition insert_repository (r nm path key now : string) (d : Catalog) : res (unit * Catalog) :=
  _ ← integrity (has_repo d r);
  Ok (tt, set_repositories d (repositories d ++ [mkRepository r nm path key now "active"])).
Definition update_repository_status (r st : string) (d : Catalog) : res (unit * Catalog) :=
  Ok (tt, set_repositories d (update_where (fun x => sql_eq (r_repo_id x) r)
            (set_repo_row_status st) (repositories d))).
(** [DELETE FROM repositories]: refused while a pack or a snapshot names it. *)
Definition delete_repository_row (r : string) (d : Catalog) : res (unit * Catalog) :=
  _ ← integrity (has_repo d r &&
        (exists_row (fun p => sql_eq (repo_id p) r) (packs d) ||
         exists_row (fun s => sql_eq (s_repo_id s) r) (snapshots d)));
  Ok (tt, set_repositories d (delete_where (fun x => sql_eq (r_repo_id x) r) (repositories d))).

(** [INSERT OR REPLACE INTO snapshots]: OR REPLACE covers the primary key, not the
    foreign key. *)
Definition replace_snapshot (x : Snapshot) (d : Catalog) : res (unit * Catalog) :=
  _ ← integrity (negb (has_repo d (s_repo_id x)));
  Ok (tt, set_snapshots d (delete_where (fun y => sql_eq (snapshot_id y) (snapshot_id x)) (snapshots d) ++ [x])).
(** [DELETE FROM snapshots WHERE p]: the row count. *)
Definition delete_snapshots (p : Snapshot -> bool) (d : Catalog) : res (Z * Catalog) :=
  Ok (count_where p (snapshots d), set_snapshots d (delete_where p (snapshots d))).

(** [INSERT INTO key_escrow ... ON CONFLICT(repo_id) DO UPDATE ... WHERE newer]: what an
    older record of the repository becomes.  Without the table no statement can be
    prepared. *)
Definition upsert_split (newer : KeyEscrow -> KeyEscrow -> bool) (x : KeyEscrow) (d : Catalog) :
    res (unit * Catalog) :=
  match key_escrow d with
  | None => Err SqliteOperationalError
  | Some l =>
      let same y := sql_eq (ke_repo_id y) (ke_repo_id x) in
      Ok (tt, set_escrow d (Some (
        if exists_row same l then update_where (fun y => same y && newer x y) (fun _ => x) l
        else l ++ [x])))
  end.
Definition delete_split (r : string) (d : Catalog) : res (unit * Catalog) :=
  match key_escrow d with
  | None => Err SqliteOperationalError
  | Some l => Ok (tt, set_escrow d (Some (delete_where (fun y => sql_eq (ke_repo_id y) r) l)))
  end.

(** ** Well-formed catalogs: every constraint of the schema holds *)

Abbreviation volume_ids d := (volume_id <$> volumes d).
Abbreviation pack_ids d := (pack_id <$> packs d).
Abbreviation location_names d := (name <$> locations d).

Record catalog_wf (d : Catalog) : Prop := {
  wf_volume_id : NoDup (volume_ids d);
  wf_volume_label : NoDup (label <$> volumes d);
  wf_volume_uuid : NoDup (uuid <$> volumes d);
  wf_volume_row : Forall (fun v => volume_id v <= seq_volumes d /\ status v ∈ VOLUME_STATUSES)
                    (volumes d);
  wf_pack_id : NoDup (pack_ids d);
  wf_pack_sha : NoDup (sha256 <$> packs d);
  wf_pack_row : Forall (fun p => pack_id p <= seq_packs d /\
                  repo_id p ∈ r_repo_id <$> repositories d) (packs d);
  wf_repo_id : NoDup (r_repo_id <$> repositories d);
  wf_snapshot_row : Forall (fun s => s_repo_id s ∈ r_repo_id <$> repositories d) (snapshots d);
  wf_snapshot_id : NoDup (snapshot_id <$> snapshots d);
  wf_link : NoDup (volume_packs d);
  wf_link_row : Forall (fun x => vp_volume_id x ∈ volume_ids d /\ vp_pack_id x ∈ pack_ids d)
                  (volume_packs d);
  wf_location_name : NoDup (location_names d);
  wf_copy_id : NoDup (copy_id <$> volume_copies d);
  wf_copy_key : NoDup ((fun c => (vc_volume_id c, vc_location c)) <$> volume_copies d);
  wf_copy_row : Forall (fun c => copy_id c <= seq_copies d /\ vc_volume_id c ∈ volume_ids d /\
                  vc_location c ∈ location_names d /\ vc_status c ∈ COPY_STATUSES)
                  (volume_copies d);
  wf_session_id : NoDup (session_id <$> burn_sessions d);
  wf_session_row : Forall (fun b => bs_status b ∈ SESSION_STATUSES) (burn_sessions d);
  wf_session_volume : NoDup ((fun x => (sv_session_id x, sv_volume_id x)) <$> session_volumes d);
  wf_session_volume_row : Forall (fun x => sv_session_id x ∈ session_id <$> burn_sessions d /\
                            sv_volume_id x ∈ volume_ids d) (session_volumes d);
  wf_event_id : NoDup (event_id <$> volume_events d);
  wf_event_row : Forall (fun e => event_id e <= seq_events d /\ ev_volume_id e ∈ volume_ids d /\
                   event_type e ∈ EVENT_TYPES /\
                   match ev_location e with Some l => l ∈ location_names d | None => True end)
                   (volume_events d);
  wf_escrow_id : match key_escrow d with Some l => NoDup (ke_repo_id <$> l) | None => True end;
}.

Definition empty_catalog : Catalog := mkCatalog [] [] [] [] [] [] [] [] [] [] 0 0 0 0 (Some []).
Lemma empty_catalog_wf : catalog_wf empty_catalog.
Proof. constructor; cbn; constructor. Qed.

Lemma has_volume_true d i : has_volume d i = true <-> i ∈ volume_ids d.
Proof.
  unfold has_volume. sql. rewrite list_elem_of_fmap. setoid_rewrite sql_eq_true. naive_solver.
Qed.
Lemma has_pack_true d i : has_pack d i = true <-> i ∈ pack_ids d.
Proof.
  unfold has_pack. sql. rewrite list_elem_of_fmap. setoid_rewrite sql_eq_true. naive_solver.
Qed.
Lemma has_repo_true d r : has_repo d r = true <-> r ∈ r_repo_id <$> repositories d.
Proof.
  unfold has_repo. sql. rewrite list_elem_of_fmap. setoid_rewrite sql_eq_true. naive_solver.
Qed.
Lemma has_location_true d l : has_location d l = true <-> l ∈ location_names d.
Proof.
  unfold has_location. sql. rewrite list_elem_of_fmap. setoid_rewrite sql_eq_true. naive_solver.
Qed.
Lemma has_session_true d s : has_session d s = true <-> s ∈ session_id <$> burn_sessions d.
Proof.
  unfold has_session. sql. rewrite list_elem_of_fmap. setoid_rewrite sql_eq_true. naive_solver.
Qed.

Lemma wf_raise_seqs d v p c e : catalog_wf d ->
  seq_volumes d <= v -> seq_packs d <= p -> seq_copies d <= c -> seq_events d <= e ->
  catalog_wf (set_seqs d v p c e).
Proof.
  intros [] ? ? ? ?. constructor; cbn; try done.
  all: eapply Forall_impl; [done|]; cbn; intros x (?&?); split; [lia|done].
Qed.

(** ** Every statement preserves well-formedness *)

Definition preserves {A} (f : Catalog -> res (A * Catalog)) : Prop :=
  forall d a d', catalog_wf d -> f d = Ok (a, d') -> catalog_wf d'.

Lemma NoDup_fmap_snoc {A K} (key : A -> K) l x :
  NoDup (key <$> l) -> key x ∉ key <$> l -> NoDup (key <$> (l ++ [x])).
Proof.
  intros Hl Hx. rewrite fmap_app. csimpl. apply NoDup_app. split_and!; [done| |apply NoDup_singleton].
  intros y Hy ->%list_elem_of_singleton. done.
Qed.
Lemma Forall_snoc' {A} (P Q : A -> Prop) l x :
  Forall P l -> (forall y, P y -> Q y) -> Q x -> Forall Q (l ++ [x]).
Proof. intros Hl HPQ Hx. apply Forall_app. split; [by eapply Forall_impl|by constructor]. Qed.
Lemma fresh_id {A} (id : A -> Z) (seq : Z) (P : A -> Prop) l :
  Forall (fun x => id x <= seq /\ P x) l -> seq + 1 ∉ id <$> l.
Proof.
  rewrite Forall_forall. intros H (x & Hx & Hin)%list_elem_of_fmap. apply H in Hin. lia.
Qed.
Lemma NoDup_delete_where {A K} (key : A -> K) p l :
  NoDup (key <$> l) -> NoDup (key <$> delete_where p l).
Proof. apply where_NoDup_key. Qed.
Lemma Forall_delete_where {A} (P Q : A -> Prop) p l :
  Forall P l -> (forall x, P x -> p x = false -> Q x) -> Forall Q (delete_where p l).
Proof.
  rewrite !Forall_forall. intros H HPQ x [Hp Hx]%elem_of_delete_where. auto.
Qed.
Lemma Forall_update_where {A} (P : A -> Prop) p f l :
  Forall P l -> (forall x, P x -> p x = true -> P (f x)) -> Forall P (update_where p f l).
Proof.
  rewrite !Forall_forall. intros H HPf x (y & Hy & ->)%elem_of_update_where.
  destruct (p y) eqn:E; auto.
Qed.
Lemma elem_of_fmap_delete {A K} `{EqDecision K} (key : A -> K) l k k' :
  k ∈ key <$> l -> k <> k' -> k ∈ key <$> delete_where (fun x => sql_eq (key x) k') l.
Proof.
  intros (x & -> & Hx)%list_elem_of_fmap Hne. apply list_elem_of_fmap_2, elem_of_delete_where.
  split; [by apply sql_eq_false|done].
Qed.

(** Consumes the constraint checks in front of a statement's result. *)
Ltac stmt H :=
  repeat first
    [ match type of H with
      | (if ?b then _ else _) = Ok _ => let E := fresh "E" in destruct b eqn:E
      | Err _ = Ok _ => discriminate H
      end
    | let u := fresh in let E := fresh "E" in
      apply bind_Ok_inv in H as (u & E & H); apply raise_if_Ok in E ];
  try (injection H as ? ?; subst).
Section preserve.
Variable d : Catalog.
Hypothesis W : catalog_wf d.

Lemma wf_set_volumes vs :
  volume_ids d = volume_id <$> vs -> label <$> volumes d = label <$> vs ->
  uuid <$> volumes d = uuid <$> vs -> Forall (fun v => status v ∈ VOLUME_STATUSES) vs ->
  catalog_wf (set_volumes d vs).
Proof using W.
  intros Hi Hl Hu Hs. destruct W. constructor; cbn in *; rewrite <- ?Hi, <- ?Hl, <- ?Hu; try done.
  apply Forall_forall. intros v Hv. rewrite Forall_forall in Hs. split; [|auto].
  assert (volume_id v ∈ volume_ids d) as (v' & -> & Hv')%list_elem_of_fmap
    by (rewrite Hi; by apply list_elem_of_fmap_2).
  rewrite Forall_forall in wf_volume_row0. by apply wf_volume_row0.
Qed.

Lemma wf_set_packs ps :
  pack_ids d = pack_id <$> ps -> sha256 <$> packs d = sha256 <$> ps ->
  Forall (fun p => repo_id p ∈ r_repo_id <$> repositories d) ps ->
  catalog_wf (set_packs d ps).
Proof using W.
  intros Hi Hs Hr. destruct W. constructor; cbn in *; rewrite <- ?Hi, <- ?Hs; try done.
  apply Forall_forall. intros p Hp. rewrite Forall_forall in Hr. split; [|auto].
  assert (pack_id p ∈ pack_ids d) as (p' & -> & Hp')%list_elem_of_fmap
    by (rewrite Hi; by apply list_elem_of_fmap_2).
  rewrite Forall_forall in wf_pack_row0. by apply wf_pack_row0.
Qed.

Lemma wf_set_copies cs :
  NoDup (copy_id <$> cs) -> NoDup ((fun c => (vc_volume_id c, vc_location c)) <$> cs) ->
  Forall (fun c => copy_id c <= seq_copies d /\ vc_volume_id c ∈ volume_ids d /\
                vc_location c ∈ location_names d /\ vc_status c ∈ COPY_STATUSES) cs ->
  catalog_wf (set_copies d cs).
Proof using W. intros. destruct W. by constructor. Qed.

Lemma wf_insert_volume lab uid media cap loc st now a d' :
  insert_volume lab uid media cap loc st now d = Ok (a, d') -> catalog_wf d'.
Proof using W.
  unfold insert_volume. intros H. stmt H. sql. destruct W.
  pose proof (fresh_id _ _ _ _ wf_volume_row0) as Hfresh.
  assert (forall v, v ∈ volumes d -> label v <> lab /\ uuid v <> uid) as Hk.
  { intros v Hv. apply E in Hv. apply orb_false_iff in Hv as [? ?]. by sql. }
  constructor; cbn; try done.
  - by apply NoDup_fmap_snoc.
  - apply NoDup_fmap_snoc; [done|]. cbn. intros (v & Heq & Hv)%list_elem_of_fmap.
    apply Hk in Hv as []. congruence.
  - apply NoDup_fmap_snoc; [done|]. cbn. intros (v & Heq & Hv)%list_elem_of_fmap.
    apply Hk in Hv as []. congruence.
  - eapply Forall_snoc'; [done|..]; cbn; [|split; [lia|done]]. intros v []. split; [lia|done].
  - eapply Forall_impl; [done|]. intros x. rewrite fmap_app, elem_of_app. tauto.
  - eapply Forall_impl; [done|]. intros x. rewrite fmap_app, elem_of_app. tauto.
  - eapply Forall_impl; [done|]. intros x. rewrite fmap_app, elem_of_app. tauto.
  - eapply Forall_impl; [done|]. intros x. rewrite fmap_app, elem_of_app. tauto.
Qed.

Lemma wf_update_volumes p f a d' :
  (forall v, volume_id (f v) = volume_id v /\ label (f v) = label v /\ uuid (f v) = uuid v) ->
  update_volumes p f d = Ok (a, d') -> catalog_wf d'.
Proof using W.
  unfold update_volumes. intros Hf H. stmt H. sql.
  apply wf_set_volumes; [symmetry; apply update_where_key; intros; apply Hf..|].
  apply Forall_forall. intros v Hv. apply E in Hv. by sql.
Qed.

Lemma wf_delete_volume_row i a d' : delete_volume_row i d = Ok (a, d') -> catalog_wf d'.
Proof using W.
  unfold delete_volume_row. intros H. stmt H. pose proof W as W'. destruct W'.
  assert (forall k, k ∈ volume_ids d -> k <> i ->
    k ∈ volume_id <$> delete_where (fun v => sql_eq (volume_id v) i) (volumes d)) as Hkeep.
  { intros. by apply elem_of_fmap_delete. }
  constructor; cbn; try done; try (by apply NoDup_delete_where).
  - eapply Forall_delete_where; [done|]. auto.
  - pose proof (NoDup_delete_where id (fun x => sql_eq (vp_volume_id x) i) (volume_packs d)) as Hn.
    rewrite !list_fmap_id in Hn. auto.
  - eapply Forall_delete_where; [done|]. intros x [? ?] Hx%sql_eq_false. split; auto.
  - eapply Forall_delete_where; [done|]. intros x (?&?&?&?) Hx%sql_eq_false. split_and!; auto.
  - apply Forall_forall. intros x Hx. rewrite Forall_forall in wf_session_volume_row0.
    pose proof (wf_session_volume_row0 x Hx) as [? Hv]. split; [done|]. apply Hkeep; [done|].
    intros <-. apply andb_false_iff in E as [E|E].
    + apply has_volume_true in Hv. congruence.
    + sql. specialize (E x Hx). by sql.
  - eapply Forall_delete_where; [done|]. intros x (?&?&?&?) Hx%sql_eq_false. split_and!; auto.
Qed.

Lemma wf_insert_or_ignore_pack now sha size repo a d' :
  insert_or_ignore_pack now sha size repo d = Ok (a, d') -> catalog_wf d'.
Proof using W.
  unfold insert_or_ignore_pack. intros H. stmt H; [apply wf_raise_seqs; [done|lia..]|].
  apply negb_false_iff, has_repo_true in E0. sql. destruct W.
  pose proof (fresh_id _ _ _ _ wf_pack_row0) as Hfresh. constructor; cbn; try done.
  - by apply NoDup_fmap_snoc.
  - apply NoDup_fmap_snoc; [done|]. cbn. intros (p & Heq & Hp)%list_elem_of_fmap.
    apply E in Hp. sql. congruence.
  - eapply Forall_snoc'; [done|..]; cbn; [|split; [lia|done]]. intros p []. split; [lia|done].
  - eapply Forall_impl; [done|]. intros x [? ?]. split; [done|]. rewrite fmap_app, elem_of_app. tauto.
Qed.

Lemma wf_update_pruned p b a d' : update_pruned p b d = Ok (a, d') -> catalog_wf d'.
Proof using W.
  unfold update_pruned. intros H. stmt H.
  apply wf_set_packs; [symmetry; by apply update_where_key..|].
  apply Forall_update_where; [|done]. eapply Forall_impl; [apply W|]. by intros ? [].
Qed.

Lemma wf_insert_or_ignore_link v p a d' :
  insert_or_ignore_link v p d = Ok (a, d') -> catalog_wf d'.
Proof using W.
  unfold insert_or_ignore_link. intros H. stmt H; [done|]. sql.
  destruct E0 as [Hv%has_volume_true Hp%has_pack_true]. destruct W. constructor; cbn; try done.
  - pose proof (NoDup_fmap_snoc id (volume_packs d) (mkVolumePack v p)) as Hn.
    rewrite !list_fmap_id in Hn. auto.
  - eapply Forall_snoc'; [done|done|by split].
Qed.

Lemma wf_delete_links p a d' : delete_links p d = Ok (a, d') -> catalog_wf d'.
Proof using W.
  unfold delete_links. intros H. stmt H. destruct W. constructor; cbn; try done.
  - pose proof (NoDup_delete_where id p (volume_packs d)) as Hn. rewrite !list_fmap_id in Hn. auto.
  - by eapply Forall_delete_where.
Qed.

Lemma wf_insert_event v ty date loc det a d' :
  insert_event v ty date loc det d = Ok (a, d') -> catalog_wf d'.
Proof using W.
  unfold insert_event. intros H. stmt H. sql. destruct E0 as [Hv%has_volume_true Hl].
  destruct W. pose proof (fresh_id _ _ _ _ wf_event_row0) as Hfresh. constructor; cbn; try done.
  - by apply NoDup_fmap_snoc.
  - eapply Forall_snoc'; [done|..]; cbn.
    + intros e (?&?&?&?). split_and!; [lia|done..].
    + split_and!; [lia|done..|]. destruct loc; [|done]. by apply has_location_true.
Qed.

Lemma wf_upsert_copy v loc date note sha size ver ser a d' :
  upsert_copy v loc date note sha size ver ser d = Ok (a, d') -> catalog_wf d'.
Proof using W.
  unfold upsert_copy. intros H. stmt H.
  - apply wf_raise_seqs; cbn; [|lia..]. apply wf_set_copies.
    + rewrite update_where_key by done. apply W.
    + rewrite update_where_key by done. apply W.
    + apply Forall_update_where; [apply W|]. intros c (?&?&?&?) _. cbn. split_and!; [done..|].
      left.
  - sql. destruct E0 as [Hv%has_volume_true Hl%has_location_true].
    destruct W. pose proof (fresh_id _ _ _ _ wf_copy_row0) as Hfresh. constructor; cbn; try done.
    + by apply NoDup_fmap_snoc.
    + apply NoDup_fmap_snoc; [done|]. cbn. intros (c & [= -> ->] & Hc)%list_elem_of_fmap.
      apply E in Hc. apply andb_false_iff in Hc as []; by sql.
    + eapply Forall_snoc'; [done|..]; cbn.
      * intros c (?&?&?&?). split_and!; [lia|done..].
      * split_and!; [lia|done..|left].
Qed.

Lemma wf_update_copies p f a d' :
  (forall c, copy_id (f c) = copy_id c /\ vc_volume_id (f c) = vc_volume_id c /\
     vc_location (f c) = vc_location c) ->
  update_copies p f d = Ok (a, d') -> catalog_wf d'.
Proof using W.
  unfold update_copies. intros Hf H. stmt H. apply wf_set_copies.
  - rewrite update_where_key by (intros; apply Hf). apply W.
  - rewrite update_where_key; [apply W|]. intros c _ _. destruct (Hf c) as (_ & -> & ->). done.
  - apply Forall_forall. intros c Hc. pose proof Hc as (c' & Hc' & ->)%elem_of_update_where.
    pose proof (wf_copy_row _ W) as Hr. rewrite Forall_forall in Hr.
    destruct (Hr c' Hc') as (?&?&?&?). sql. apply E in Hc. sql.
    destruct (p c'); [|done]. destruct (Hf c') as (-> & -> & ->). done.
Qed.

Lemma wf_move_copies p l n a d' : move_copies p l n d = Ok (a, d') -> catalog_wf d'.
Proof using W.
  unfold move_copies. intros H. stmt H. apply negb_false_iff, bool_decide_eq_true in E.
  apply wf_set_copies; [|done|].
  - rewrite update_where_key by done. apply W.
  - pose proof (wf_copy_row _ W) as Hr. rewrite Forall_forall in Hr.
    apply Forall_forall. intros c (c' & Hc' & ->)%elem_of_update_where.
    destruct (Hr c' Hc') as (?&?&?&?). destruct (p c') eqn:Hp; [|done]. cbn.
    split_and!; [done..| |done]. apply andb_false_iff in E0 as [E0|E0].
    + sql. apply E0 in Hc'. congruence.
    + apply negb_false_iff in E0. by apply has_location_true.
Qed.

Lemma wf_add_location x :
  name x ∉ location_names d -> catalog_wf (set_locations d (locations d ++ [x])).
Proof using W.
  intros Hx. destruct W. constructor; cbn; try done.
  - by apply NoDup_fmap_snoc.
  - eapply Forall_impl; [done|]. intros c. rewrite fmap_app, elem_of_app. tauto.
  - eapply Forall_impl; [done|]. intros e. rewrite fmap_app. destruct (ev_location e); [|tauto].
    rewrite elem_of_app. tauto.
Qed.
Lemma wf_insert_location now l desc a d' :
  insert_location now l desc d = Ok (a, d') -> catalog_wf d'.
Proof using W.
  unfold insert_location. intros H. stmt H. apply wf_add_location. cbn.
  rewrite <- has_location_true. congruence.
Qed.
Lemma wf_insert_or_ignore_location now l desc a d' :
  insert_or_ignore_location now l desc d = Ok (a, d') -> catalog_wf d'.
Proof using W.
  unfold insert_or_ignore_location. intros H. stmt H; [done|]. apply wf_add_location. cbn.
  rewrite <- has_location_true. congruence.
Qed.
Lemma wf_delete_location_row l a d' : delete_location_row l d = Ok (a, d') -> catalog_wf d'.
Proof using W.
  unfold delete_location_row. intros H. stmt H.
  assert (forall k, k ∈ location_names d -> k <> l ->
    k ∈ name <$> delete_where (fun x => sql_eq (name x) l) (locations d)) as Hkeep.
  { intros. by apply elem_of_fmap_delete. }
  assert (l ∈ location_names d -> (forall c, c ∈ volume_copies d -> vc_location c <> l) /\
            (forall e, e ∈ volume_events d -> ev_location e <> Some l)) as Hfree.
  { intros Hl%has_location_true. rewrite Hl in E. apply orb_false_iff in E as [E1 E2]. sql.
    split; intros x Hx ?; [specialize (E1 x Hx)|specialize (E2 x Hx)]; by sql. }
  destruct W. constructor; cbn; try done.
  - by apply NoDup_delete_where.
  - apply Forall_forall. intros c Hc. rewrite Forall_forall in wf_copy_row0.
    destruct (wf_copy_row0 c Hc) as (?&?&Hl&?). split_and!; [done..| |done].
    apply Hkeep; [done|]. intros Heq. rewrite Heq in Hl. by apply Hfree in Heq as [].
  - apply Forall_forall. intros e He. rewrite Forall_forall in wf_event_row0.
    destruct (wf_event_row0 e He) as (?&?&?&Hl). split_and!; [done..|].
    destruct (ev_location e) as [k|] eqn:Ek; [|done]. apply Hkeep; [done|]. intros ->.
    destruct (Hfree Hl) as [_ Hf]. by apply (Hf e).
Qed.

Lemma wf_insert_session s media dir now a d' :
  insert_session s media dir now d = Ok (a, d') -> catalog_wf d'.
Proof using W.
  unfold insert_session. intros H. stmt H. destruct W. constructor; cbn; try done.
  - apply NoDup_fmap_snoc; [done|]. cbn. rewrite <- has_session_true. congruence.
  - eapply Forall_snoc'; [done|done|]. left.
  - eapply Forall_impl; [done|]. intros x. rewrite fmap_app, elem_of_app. tauto.
Qed.
Lemma wf_update_session_rows s st a d' :
  update_session_rows s st d = Ok (a, d') -> catalog_wf d'.
Proof using W.
  unfold update_session_rows. intros H. stmt H. pose proof W as W'. destruct W'.
  constructor; cbn; try done; rewrite ?update_where_key by done; try done.
  apply Forall_forall. intros b (b' & Hb & ->)%elem_of_update_where.
  rewrite Forall_forall in wf_session_row0. destruct (sql_eq (session_id b') s) eqn:Hs; [|auto].
  cbn. apply andb_false_iff in E as [E|E]; [|by sql].
  exfalso. sql. subst s. apply not_true_iff_false in E. apply E, has_session_true.
  by apply list_elem_of_fmap_2.
Qed.
Lemma wf_insert_session_volume s v path sha size a d' :
  insert_session_volume s v path sha size d = Ok (a, d') -> catalog_wf d'.
Proof using W.
  unfold insert_session_volume. intros H. stmt H. sql.
  destruct E0 as [Hs%has_session_true Hv%has_volume_true]. destruct W. constructor; cbn; try done.
  - apply NoDup_fmap_snoc; [done|]. cbn. intros (x & [= -> ->] & Hx)%list_elem_of_fmap.
    apply E in Hx. apply andb_false_iff in Hx as []; by sql.
  - eapply Forall_snoc'; [done|done|by split].
Qed.
Lemma wf_update_session_volumes p f a d' :
  (forall x, sv_session_id (f x) = sv_session_id x /\ sv_volume_id (f x) = sv_volume_id x) ->
  update_session_volumes p f d = Ok (a, d') -> catalog_wf d'.
Proof using W.
  unfold update_session_volumes. intros Hf H. stmt H. destruct W. constructor; cbn; try done.
  - rewrite update_where_key; [done|]. intros x _ _. by destruct (Hf x) as [-> ->].
  - apply Forall_update_where; [done|]. intros x ? _. by destruct (Hf x) as [-> ->].
Qed.
Lemma wf_delete_session_volumes p a d' :
  delete_session_volumes p d = Ok (a, d') -> catalog_wf d'.
Proof using W.
  unfold delete_session_volumes. intros H. stmt H. destruct W. constructor; cbn; try done.
  - by apply NoDup_delete_where.
  - by eapply Forall_delete_where.
Qed.
Lemma wf_delete_session_row s a d' : delete_session_row s d = Ok (a, d') -> catalog_wf d'.
Proof using W.
  unfold delete_session_row. intros H. stmt H. pose proof W as W'. destruct W'.
  constructor; cbn; try done.
  - by apply NoDup_delete_where.
  - by eapply Forall_delete_where.
  - apply Forall_forall. intros x Hx. rewrite Forall_forall in wf_session_volume_row0.
    destruct (wf_session_volume_row0 x Hx) as [Hs ?]. split; [|done].
    apply elem_of_fmap_delete; [done|]. intros <-. apply andb_false_iff in E as [E|E].
    + apply has_session_true in Hs. congruence.
    + sql. specialize (E x Hx). by sql.
Qed.

Lemma wf_insert_repository r nm path key now a d' :
  insert_repository r nm path key now d = Ok (a, d') -> catalog_wf d'.
Proof using W.
  unfold insert_repository. intros H. stmt H. destruct W. constructor; cbn; try done.
  - eapply Forall_impl; [done|]. intros x. rewrite fmap_app, elem_of_app. tauto.
  - apply NoDup_fmap_snoc; [done|]. cbn. rewrite <- has_repo_true. congruence.
  - eapply Forall_impl; [done|]. intros x. rewrite fmap_app, elem_of_app. tauto.
Qed.
Lemma wf_update_repository_status r st a d' :
  update_repository_status r st d = Ok (a, d') -> catalog_wf d'.
Proof using W.
  unfold update_repository_status. intros H. stmt H. destruct W.
  constructor; cbn; rewrite ?update_where_key by done; done.
Qed.
Lemma wf_delete_repository_row r a d' : delete_repository_row r d = Ok (a, d') -> catalog_wf d'.
Proof using W.
  unfold delete_repository_row. intros H. stmt H.
  assert (r ∈ r_repo_id <$> repositories d -> (forall p, p ∈ packs d -> repo_id p <> r) /\
            (forall s, s ∈ snapshots d -> s_repo_id s <> r)) as Hfree.
  { intros Hl%has_repo_true. rewrite Hl in E. apply orb_false_iff in E as [E1 E2]. sql.
    split; intros x Hx ?; [specialize (E1 x Hx)|specialize (E2 x Hx)]; by sql. }
  destruct W. constructor; cbn; try done.
  - apply Forall_forall. intros p Hp. rewrite Forall_forall in wf_pack_row0.
    destruct (wf_pack_row0 p Hp) as [? Hr]. split; [done|]. apply elem_of_fmap_delete; [done|].
    intros Heq. rewrite Heq in Hr. destruct (Hfree Hr) as [Hf _]. by apply (Hf p).
  - by apply NoDup_delete_where.
  - apply Forall_forall. intros p Hp. rewrite Forall_forall in wf_snapshot_row0.
    pose proof (wf_snapshot_row0 p Hp) as Hr. apply elem_of_fmap_delete; [done|].
    intros Heq. rewrite Heq in Hr. destruct (Hfree Hr) as [_ Hf]. by apply (Hf p).
Qed.

Lemma wf_replace_snapshot x a d' : replace_snapshot x d = Ok (a, d') -> catalog_wf d'.
Proof using W.
  unfold replace_snapshot. intros H. stmt H. apply negb_false_iff, has_repo_true in E.
  destruct W. constructor; cbn; try done.
  - apply Forall_app. split; [by eapply Forall_delete_where|by apply Forall_singleton].
  - apply NoDup_fmap_snoc; [by apply NoDup_delete_where|].
    intros (y & Heq & [Hy _]%elem_of_delete_where)%list_elem_of_fmap. by sql.
Qed.
Lemma wf_delete_snapshots p a d' : delete_snapshots p d = Ok (a, d') -> catalog_wf d'.
Proof using W.
  unfold delete_snapshots. intros H. stmt H. destruct W. constructor; cbn; try done.
  - by eapply Forall_delete_where.
  - by apply NoDup_delete_where.
Qed.
Lemma wf_upsert_split newer x a d' : upsert_split newer x d = Ok (a, d') -> catalog_wf d'.
Proof using W.
  unfold upsert_split. destruct (key_escrow d) as [l|] eqn:El; [|done]. intros H. stmt H.
  destruct W. rewrite El in wf_escrow_id0. constructor; cbn; try done. case_match eqn:E.
  - rewrite update_where_key; [done|]. intros y _ [Hy _]%andb_true_iff. by sql.
  - apply NoDup_fmap_snoc; [done|]. intros (y & Heq & Hy)%list_elem_of_fmap.
    rewrite exists_row_false in E. apply E in Hy. by sql.
Qed.
Lemma wf_delete_split r a d' : delete_split r d = Ok (a, d') -> catalog_wf d'.
Proof using W.
  unfold delete_split. destruct (key_escrow d) as [l|] eqn:El; [|done]. intros H. stmt H.
  destruct W. rewrite El in wf_escrow_id0. constructor; cbn; try done. by apply NoDup_delete_where.
Qed.
End preserve.
