(* ===== verification/VolumeEvents.v ===== *)
(** * Volume events

    [db/volume_events.py]: the append-only audit trail. *)

From S2P Require Import Prelude Sqlite Catalog.
Open Scope string_scope.
Open Scope list_scope.
Open Scope Z_scope.

Abbreviation dbc A := (db Catalog A).

Definition VALID_EVENT_TYPES : list string :=
  ["VERIFY_PASS"; "VERIFY_FAIL"; "VERIFY_FAIL_REBURN"; "ECC_REPAIR"; "LOCATION_MOVE";
   "CONDITION_CHECK"; "NOTE"; "BURN_RECEIPT_IMPORTED"].

Definition get_event (i : Z) : dbc VolumeEvent :=
  row ← query (fun d => fetchone (where_ (fun e => sql_eq (event_id e) i) (volume_events d)));
  match row with Some e => mret e | None => raise ValueError end.

(** [now] is the clock, read when no date is given. *)
Definition add_event (volume : Z) (ty : string) (loc : option string) (det : string)
    (date : option string) (now : string) (commit : bool) : dbc VolumeEvent :=
  if negb (sql_in ty VALID_EVENT_TYPES) then raise ValueError
  else
    i ← execute (insert_event volume ty (default now date) loc det);
    _ ← commit_if commit;
    get_event i.

(** [ORDER BY event_date DESC] *)
Definition newest_first (x y : VolumeEvent) : bool :=
  String.leb (event_date y) (event_date x).
(** The optional [event_type] filter: an empty string is no filter. *)
Definition event_filter (volume : Z) (ty : option string) (e : VolumeEvent) : bool :=
  sql_eq (ev_volume_id e) volume &&
  match ty with
  | Some t => if sql_eq t EmptyString then true else sql_eq (event_type e) t
  | None => true
  end.
Definition get_events_for_volume (volume : Z) (ty : option string) (d : Catalog) :
    list VolumeEvent :=
  order_by newest_first (where_ (event_filter volume ty) (volume_events d)).
Definition get_latest_event (volume : Z) (ty : option string) (d : Catalog) :
    option VolumeEvent :=
  fetchone (order_by newest_first (where_ (event_filter volume ty) (volume_events d))).
Definition get_events_by_type (ty : string) (limit : Z) (d : Catalog) : list VolumeEvent :=
  slice_to (order_by newest_first
    (where_ (fun e => sql_eq (event_type e) ty) (volume_events d))) limit.

(** ** Lemmas *)

Lemma insert_event_Ok v ty date loc det d :
  v ∈ volume_ids d -> ty ∈ EVENT_TYPES ->
  match loc with Some l => l ∈ location_names d | None => True end ->
  insert_event v ty date loc det d
  = Ok (seq_events d + 1,
        set_seqs (set_events d (volume_events d ++
          [mkVolumeEvent (seq_events d + 1) v ty date loc det]))
          (seq_volumes d) (seq_packs d) (seq_copies d) (seq_events d + 1)).
Proof.
  intros Hv Hty Hl. unfold insert_event.
  rewrite (proj2 (sql_in_true ty _) Hty), (proj2 (has_volume_true d v) Hv).
  destruct loc as [l|]; [|done]. cbn [has_location_opt].
  by rewrite (proj2 (has_location_true d l) Hl).
Qed.

(** The row just inserted is the one its id finds. *)
Lemma fetch_event_new evs e :
  (forall x, x ∈ evs -> event_id x <> event_id e) ->
  fetchone (where_ (fun x => sql_eq (event_id x) (event_id e)) (evs ++ [e])) = Some e.
Proof.
  intros H. unfold where_. rewrite List.filter_app.
  replace (List.filter (fun x => sql_eq (event_id x) (event_id e)) evs) with (@nil VolumeEvent).
  - cbn. by rewrite (proj2 (sql_eq_true _ _) eq_refl).
  - symmetry. apply (nil_length_inv), Nat2Z.inj. change (Z.of_nat 0) with 0.
    apply count_where_zero. intros x Hx. apply sql_eq_false. auto.
Qed.

(** [add_event], on a well-formed catalog: appends exactly one row. *)
Lemma add_event_Ok v ty loc det date now cm c :
  catalog_wf (current c) -> v ∈ volume_ids (current c) -> ty ∈ EVENT_TYPES ->
  match loc with Some l => l ∈ location_names (current c) | None => True end ->
  let e := mkVolumeEvent (seq_events (current c) + 1) v ty (default now date) loc det in
  let d' := set_seqs (set_events (current c) (volume_events (current c) ++ [e]))
              (seq_volumes (current c)) (seq_packs (current c)) (seq_copies (current c))
              (seq_events (current c) + 1) in
  add_event v ty loc det date now cm c
  = (Ok e, if cm then mkConn d' d' false else mkConn (committed c) d' true).
Proof.
  intros W Hv Hty Hl e d'. unfold add_event.
  rewrite (proj2 (sql_in_true ty VALID_EVENT_TYPES) Hty). cbn [negb].
  unfold mbind, db_bind, execute. rewrite (insert_event_Ok _ _ _ _ _ _ Hv Hty Hl). fold e d'.
  assert (fetchone (where_ (fun x => sql_eq (event_id x) (event_id e)) (volume_events d')) = Some e)
    as Hf.
  { apply fetch_event_new. intros x Hx. pose proof (wf_event_row _ W) as Hr.
    rewrite Forall_forall in Hr. apply Hr in Hx as [? _]. cbn. lia. }
  destruct cm; cbn; unfold get_event, mbind, db_bind, query; cbn [current];
    change (seq_events (current c) + 1) with (event_id e); by rewrite Hf.
Qed.

Lemma keeps_add_event v ty loc det date now cm : keeps catalog_wf (add_event v ty loc det date now cm).
Proof.
  unfold add_event, get_event. keeps. by eapply wf_insert_event.
Qed.
#[export] Hint Resolve keeps_add_event : keeps.
