(* ===== verification/Queries.v ===== *)
(** * Cross-table queries

    [db/queries.py], query by query: which packs are archived, which volumes
    are live replicas, what a restore must fetch, what is lost.  A query is a
    function of the catalog; a Python dictionary is an association list in
    insertion order, a set the list of its elements. *)

From S2P Require Import Prelude Sqlite Catalog.
Open Scope string_scope.
Open Scope list_scope.
Open Scope Z_scope.

Definition _SQLITE_BATCH : nat := 900.
Definition DURABLE_VOLUME_STATUSES : list string := ["BURNED"; "VERIFIED"; "CONSOLIDATING"].
Definition OUT_OF_SERVICE : list string := ["DEPRECATED"; "DESTROYED"].

Definition is_durable (v : Volume) : bool := sql_in (status v) DURABLE_VOLUME_STATUSES.
Definition in_service (v : Volume) : bool := negb (sql_in (status v) OUT_OF_SERVICE).
Definition never_burned (v : Volume) : bool := sql_in (status v) ["STAGING"; "BURNING"].

(** [EXISTS (SELECT 1 FROM volume_packs vp JOIN volumes v ON v.volume_id =
    vp.volume_id WHERE vp.pack_id = i AND q)] *)
Definition on_volume (d : Catalog) (i : Z) (q : Volume -> bool) : bool :=
  exists_row (fun vp => sql_eq (vp_pack_id vp) i &&
    exists_row (fun v => sql_eq (volume_id v) (vp_volume_id vp) && q v) (volumes d))
    (volume_packs d).
Definition _HAS_DURABLE_LINK (d : Catalog) (p : Pack) : bool := on_volume d (pack_id p) is_durable.

(** Disc records of a volume. *)
Definition has_copies (d : Catalog) (v : Volume) : bool :=
  exists_row (fun c => sql_eq (vc_volume_id c) (volume_id v)) (volume_copies d).
Definition has_active_copy (d : Catalog) (v : Volume) : bool :=
  exists_row (fun c => sql_eq (vc_volume_id c) (volume_id v) && sql_eq (vc_status c) "ACTIVE")
    (volume_copies d).
Definition active_copy_count (d : Catalog) (v : Volume) : Z :=
  count_where (fun c => sql_eq (vc_volume_id c) (volume_id v) && sql_eq (vc_status c) "ACTIVE")
    (volume_copies d).
(** At least one ACTIVE disc, or no disc record at all (a legacy volume). *)
Definition live_by_discs (d : Catalog) (v : Volume) : bool :=
  has_active_copy d v || negb (has_copies d v).

(** ** Lost volumes *)

Definition starts_with_note_prefix (e : VolumeEvent) : bool :=
  sql_eq (String.substring 0 (String.length AUTO_DEPRECATED_NOTE_PREFIX) (detail e))
    AUTO_DEPRECATED_NOTE_PREFIX.

Definition _LOST_VOLUME_SQL (d : Catalog) (v : Volume) : bool :=
  has_copies d v && negb (has_active_copy d v) &&
  (is_durable v ||
   (sql_eq (status v) "DEPRECATED" &&
    exists_row (fun e => sql_eq (ev_volume_id e) (volume_id v) &&
                         sql_eq (event_type e) "NOTE" && starts_with_note_prefix e)
      (volume_events d))).

Definition get_lost_volume_ids (d : Catalog) : list Z :=
  volume_id <$> where_ (_LOST_VOLUME_SQL d) (volumes d).

Definition volume_display_status (v : Volume) (lost_ids : list Z) : string :=
  if sql_in (volume_id v) lost_ids then DISPLAY_STATUS_LOST else status v.

(** ** Archived and unarchived packs *)

(** [ORDER BY p.created_at] and the other orders of the queries. *)
Definition by_created : Pack -> Pack -> bool := by_key pack_created_at.
Definition by_sha : Pack -> Pack -> bool := by_key sha256.
Definition by_repo_sha : Pack -> Pack -> bool :=
  lex (fun x y => String.compare (repo_id x) (repo_id y)) by_sha.
Definition by_label : Volume -> Volume -> bool := by_key label.

(** The optional [repo_id] filter: an empty string is no filter. *)
Definition in_repo (repo : option string) (p : Pack) : bool :=
  match repo with
  | Some r => if sql_eq r EmptyString then true else sql_eq (repo_id p) r
  | None => true
  end.
Definition unarchived (d : Catalog) (p : Pack) : bool :=
  negb (is_pruned p) && negb (_HAS_DURABLE_LINK d p).

Definition get_unarchived_packs (d : Catalog) (repo : option string) : list Pack :=
  order_by by_created (where_ (fun p => unarchived d p && in_repo repo p) (packs d)).
Definition get_total_unarchived_bytes (d : Catalog) (repo : option string) : Z :=
  sumZ (size_bytes <$> where_ (fun p => unarchived d p && in_repo repo p) (packs d)).

(** [packs p JOIN volume_packs vp ... JOIN volumes v ...] *)
Definition pack_volume_rows (d : Catalog) : list (Pack * Volume) :=
  p ← packs d;
  vp ← where_ (fun vp => sql_eq (vp_pack_id vp) (pack_id p)) (volume_packs d);
  (fun v => (p, v)) <$> where_ (fun v => sql_eq (volume_id v) (vp_volume_id vp)) (volumes d).
(** [packs p JOIN volume_packs vp ON p.pack_id = vp.pack_id] *)
Definition pack_link_rows (d : Catalog) : list (Pack * VolumePack) :=
  p ← packs d;
  (fun vp => (p, vp)) <$> where_ (fun vp => sql_eq (vp_pack_id vp) (pack_id p)) (volume_packs d).

Definition get_packs_for_volume (d : Catalog) (i : Z) : list Pack :=
  order_by by_sha (fst <$> where_ (fun r => sql_eq (vp_volume_id r.2) i) (pack_link_rows d)).
Definition get_volumes_for_pack (d : Catalog) (i : Z) : list Volume :=
  order_by by_label
    (v ← volumes d;
     (fun _ => v) <$> where_ (fun vp => sql_eq (vp_volume_id vp) (volume_id v) &&
                                       sql_eq (vp_pack_id vp) i) (volume_packs d)).

(** ** Pick lists *)

(** [d.setdefault(k, []).append(x)] *)
Fixpoint dict_append {K A} `{EqDecision K} (k : K) (x : A) (m : list (K * list A)) :
    list (K * list A) :=
  match m with
  | [] => [(k, [x])]
  | (k', xs) :: m => if decide (k = k') then (k', xs ++ [x]) :: m
                     else (k', xs) :: dict_append k x m
  end.

Definition rank (b : bool) : Z := if b then 0 else 1.
(** Durable volumes first, then the preferred location (if any), then the
    label. *)
Definition pick_order (preferred : string) (x y : Pack * Volume) : bool :=
  lex (fun x y => Z.compare (rank (is_durable x.2)) (rank (is_durable y.2)))
    (lex (fun x y => if sql_eq preferred EmptyString then Eq
                     else Z.compare (rank (sql_eq (location x.2) preferred))
                            (rank (sql_eq (location y.2) preferred)))
       (fun x y => by_label x.2 y.2)) x y.
Definition pick_rows (d : Catalog) (preferred : string) (batch : list string) :
    list (Pack * Volume) :=
  order_by (pick_order preferred)
    (where_ (fun r => sql_in (sha256 r.1) batch && in_service r.2) (pack_volume_rows d)).

Abbreviation pick_list := (list (string * list Pack)).
Definition pick_step (st : list string * pick_list) (row : Pack * Volume) :
    list string * pick_list :=
  let '(seen, result) := st in
  if sql_in (sha256 row.1) seen then st
  else (sha256 row.1 :: seen, dict_append (label row.2) row.1 result).

Definition get_pick_list (d : Catalog) (shas : list string) (preferred : string) : pick_list :=
  (foldl (fun st batch => foldl pick_step st (pick_rows d preferred batch)) ([], [])
     (batches _SQLITE_BATCH shas)).2.

(** The variant with alternates: VERIFIED before BURNED as well. *)
Definition verified_rank (v : Volume) : Z :=
  if sql_eq (status v) "VERIFIED" then 0 else if sql_eq (status v) "BURNED" then 1 else 2.
Definition alternates_order (preferred : string) (x y : Pack * Volume) : bool :=
  lex (fun x y => Z.compare (rank (is_durable x.2)) (rank (is_durable y.2)))
    (lex (fun x y => if sql_eq preferred EmptyString then Eq
                     else Z.compare (rank (sql_eq (location x.2) preferred))
                            (rank (sql_eq (location y.2) preferred)))
       (lex (fun x y => Z.compare (verified_rank x.2) (verified_rank y.2))
          (fun x y => by_label x.2 y.2))) x y.

Record PickEntry := mkPickEntry {
  pe_pack : Pack; primary_label : string; primary_volume_id : Z; alternates : list string;
}.
Fixpoint alternates_step (result : list (string * PickEntry)) (row : Pack * Volume) :
    list (string * PickEntry) :=
  match result with
  | [] => [(sha256 row.1, mkPickEntry row.1 (label row.2) (volume_id row.2) [])]
  | (k, e) :: rest =>
      if sql_eq k (sha256 row.1) then
        (k, mkPickEntry (pe_pack e) (primary_label e) (primary_volume_id e)
              (alternates e ++ [label row.2])) :: rest
      else (k, e) :: alternates_step rest row
  end.
Definition get_pick_list_with_alternates (d : Catalog) (shas : list string) (preferred : string) :
    list (string * PickEntry) :=
  foldl (fun result batch =>
      foldl alternates_step result
        (order_by (alternates_order preferred)
           (where_ (fun r => sql_in (sha256 r.1) batch && in_service r.2) (pack_volume_rows d))))
    [] (batches _SQLITE_BATCH shas).

Definition get_unconfirmed_volume_labels (d : Catalog) (labels : list string) : list string :=
  batch ← batches _SQLITE_BATCH labels;
  label <$> where_ (fun v => sql_in (label v) batch && never_burned v && negb (has_copies d v))
              (volumes d).

(** One batch of [get_missing_packs]: hashes the catalog does not know, then
    those with no volume in service. *)
Definition missing_step (d : Catalog) (missing batch : list string) : list string :=
  let archived := sha256 <$> where_ (fun p => sql_in (sha256 p) batch) (packs d) in
  let missing := missing ++ where_ (fun h => negb (sql_in h archived)) batch in
  let no_active := sha256 <$> where_ (fun p => sql_in (sha256 p) batch &&
                                negb (on_volume d (pack_id p) in_service)) (packs d) in
  foldl (fun m h => if sql_in h m then m else m ++ [h]) missing no_active.
Definition get_missing_packs (d : Catalog) (shas : list string) : list string :=
  foldl (missing_step d) [] (batches _SQLITE_BATCH shas).

Definition get_deprecated_only_packs (d : Catalog) (shas : list string) :
    list (string * list string) :=
  foldl (fun result batch =>
      foldl (fun result r => dict_append (label r.2) (sha256 r.1) result) result
        (order_by (fun x y => by_label x.2 y.2)
           (where_ (fun r => sql_in (sha256 r.1) batch && negb (in_service r.2) &&
                             negb (on_volume d (pack_id r.1) in_service))
              (pack_volume_rows d))))
    [] (batches _SQLITE_BATCH shas).

(** ** Consolidation *)

(** [d[k] = x] *)
Fixpoint dict_set {K A} `{EqDecision K} (k : K) (x : A) (m : list (K * A)) : list (K * A) :=
  match m with
  | [] => [(k, x)]
  | (k', y) :: m => if decide (k = k') then (k', x) :: m else (k', y) :: dict_set k x m
  end.

Definition packs_on (d : Catalog) (pruned : bool) (batch : list Z) : list Pack :=
  order_by by_sha (distinct (fst <$> where_ (fun r => sql_in (vp_volume_id r.2) batch &&
                                              Bool.eqb (is_pruned r.1) pruned) (pack_link_rows d))).
Definition packs_on_volumes (d : Catalog) (pruned : bool) (volume_ids : list Z) : list Pack :=
  order_by by_sha (snd <$> foldl (fun m batch =>
      foldl (fun m p => dict_set (pack_id p) p m) m (packs_on d pruned batch))
    [] (batches _SQLITE_BATCH volume_ids)).
Definition get_packs_only_on_volumes (d : Catalog) : list Z -> list Pack :=
  packs_on_volumes d false.
Definition get_pruned_packs_on_volumes (d : Catalog) : list Z -> list Pack :=
  packs_on_volumes d true.

(** ** Redundancy *)

(** The discs a volume stands for: its ACTIVE disc records, or one when it has
    no disc record at all; none when it is out of service (the LEFT JOIN finds
    no row). *)
Definition replica_count (d : Catalog) (v : Volume) : Z :=
  if negb (has_copies d v) then 1 else active_copy_count d v.
Definition copy_count (d : Catalog) (p : Pack) : Z :=
  sumZ ((fun vp => match where_ (fun v => sql_eq (volume_id v) (vp_volume_id vp) && in_service v)
                           (volumes d) with
                   | v :: _ => replica_count d v | [] => 0 end)
        <$> where_ (fun vp => sql_eq (vp_pack_id vp) (pack_id p)) (volume_packs d)).
Definition get_redundancy_report (d : Catalog) (min_copies : Z) : list Pack :=
  order_by (lex (fun x y => Z.compare (copy_count d x) (copy_count d y)) by_sha)
    (where_ (fun p => negb (is_pruned p) && (copy_count d p <? min_copies)) (packs d)).

Definition get_live_volumes_for_packs (d : Catalog) (pack_ids : list Z) :
    list (Z * list Volume) :=
  foldl (fun result batch =>
      foldl (fun result r => dict_append (vp_pack_id r.1) r.2 result) result
        (order_by (fun x y => by_label x.2 y.2)
           (vp ← where_ (fun vp => sql_in (vp_pack_id vp) batch) (volume_packs d);
            (fun v => (vp, v)) <$>
              where_ (fun v => sql_eq (volume_id v) (vp_volume_id vp) && in_service v &&
                               live_by_discs d v) (volumes d))))
    [] (batches _SQLITE_BATCH pack_ids).

(** A volume other than [i] that is a live replica: BURNED or VERIFIED, with an
    ACTIVE disc or no disc record. *)
Definition other_live_replica (d : Catalog) (i : Z) (v : Volume) : bool :=
  negb (sql_eq (volume_id v) i) && sql_in (status v) ["BURNED"; "VERIFIED"] && live_by_discs d v.
Definition get_at_risk_packs_for_volume (d : Catalog) (i : Z) : list Pack :=
  order_by by_repo_sha (fst <$> where_ (fun r => sql_eq (vp_volume_id r.2) i &&
      negb (is_pruned r.1) && negb (on_volume d (pack_id r.1) (other_live_replica d i)))
    (pack_link_rows d)).

(** ** Stale claims; [cutoff] is [datetime('now', '-N hours')] *)

Definition get_packs_stranded_on_unburned_volumes (d : Catalog) (cutoff : string) : list Pack :=
  order_by by_created (where_ (fun p => negb (is_pruned p) &&
      exists_row (fun vp => sql_eq (vp_pack_id vp) (pack_id p)) (volume_packs d) &&
      negb (on_volume d (pack_id p)
              (fun v => negb (never_burned v) || String.ltb cutoff (created_at v))))
    (packs d)).
Definition get_ghost_volumes (d : Catalog) (cutoff : string) : list Volume :=
  order_by by_label (where_ (fun v => never_burned v && negb (has_copies d v) &&
                               String.leb (created_at v) cutoff) (volumes d)).
Definition get_durable_volumes_without_active_copies (d : Catalog) : list Volume :=
  order_by by_label (where_ (fun v => is_durable v && negb (has_active_copy d v)) (volumes d)).

(** The packs a lost volume leaves on no durable volume: (in the mirror, gone). *)
Definition get_lost_volume_packs (d : Catalog) (i : Z) : list Pack * list Pack :=
  let ps := order_by by_repo_sha (fst <$> where_ (fun r => sql_eq (vp_volume_id r.2) i &&
                                     negb (_HAS_DURABLE_LINK d r.1)) (pack_link_rows d)) in
  (where_ (fun p => negb (is_pruned p)) ps, where_ is_pruned ps).

(** ** Summaries *)

Record ArchiveSummary := mkArchiveSummary {
  as_total : Z; as_pruned : Z; as_archived : Z; as_staged : Z; as_unarchived : Z;
}.
Definition get_archive_status_summary (d : Catalog) : ArchiveSummary :=
  let count p := count_where p (packs d) in
  mkArchiveSummary
    (len (packs d))
    (count is_pruned)
    (count (fun p => negb (is_pruned p) && on_volume d (pack_id p) is_durable))
    (count (fun p => negb (is_pruned p) && on_volume d (pack_id p) never_burned &&
                     negb (on_volume d (pack_id p) is_durable)))
    (count (fun p => negb (is_pruned p) && negb (on_volume d (pack_id p) in_service))).

(** [SELECT DISTINCT vp.pack_id ... WHERE vc.location = l AND vc.status = 'ACTIVE'] *)
Definition get_packs_at_location (d : Catalog) (l : string) : list Z :=
  distinct (vp_pack_id <$> where_ (fun vp =>
      exists_row (fun c => sql_eq (vc_volume_id c) (vp_volume_id vp) && sql_eq (vc_location c) l &&
                           sql_eq (vc_status c) "ACTIVE") (volume_copies d))
    (volume_packs d)).
Definition get_unarchived_or_missing_at_location (d : Catalog) (l : string) : list Pack :=
  order_by by_created (where_ (fun p => negb (is_pruned p) &&
      negb (sql_in (pack_id p) (get_packs_at_location d l))) (packs d)).
Definition get_packs_missing_at_location (d : Catalog) (l : string) : list Pack :=
  order_by by_created (where_ (fun p => negb (is_pruned p) &&
      sql_in (pack_id p) (vp_pack_id <$> volume_packs d) &&
      negb (sql_in (pack_id p) (get_packs_at_location d l))) (packs d)).

Definition get_volume_pack_stats_by_repo (d : Catalog) (i : Z) : list (string * Z * Z) :=
  let ps := fst <$> where_ (fun r => sql_eq (vp_volume_id r.2) i) (pack_link_rows d) in
  (fun r => (r, count_where (fun p => sql_eq (repo_id p) r) ps,
             sumZ (size_bytes <$> where_ (fun p => sql_eq (repo_id p) r) ps)))
    <$> order_by String.leb (distinct (repo_id <$> ps)).

Record LocationSummary := mkLocationSummary {
  ls_location : string; ls_volumes : Z; ls_packs : Z; ls_missing : Z;
}.
(** Rows of [volume_copies JOIN volume_packs JOIN volumes], in service. *)
Definition location_rows (d : Catalog) : list (VolumeCopy * VolumePack) :=
  c ← where_ (fun c => sql_eq (vc_status c) "ACTIVE" &&
         exists_row (fun v => sql_eq (volume_id v) (vc_volume_id c) && in_service v) (volumes d))
       (volume_copies d);
  (fun vp => (c, vp)) <$> where_ (fun vp => sql_eq (vp_volume_id vp) (vc_volume_id c)) (volume_packs d).
Definition get_location_summary (d : Catalog) : list LocationSummary :=
  let total_archived := len (distinct (vp_pack_id <$> volume_packs d)) in
  (fun l => let rows := where_ (fun r => sql_eq (vc_location r.1) l) (location_rows d) in
            let n := len (distinct ((fun r => vp_pack_id r.2) <$> rows)) in
            mkLocationSummary l (len (distinct ((fun r => vc_volume_id r.1) <$> rows))) n
              (total_archived - n))
    <$> order_by String.leb (distinct ((fun r => vc_location r.1) <$> location_rows d)).

(** ** Dictionaries of rows

    A dictionary filled with rows of a table under one of its keys: the last
    row under a key is the only one. *)

Section keyed_dict.
Context {A K : Type} `{EqDecision K} (key : A -> K) (T : list A).
Hypothesis HT : NoDup (key <$> T).

Record keyed (m : list (K * A)) : Prop := {
  kd_keys : NoDup m.*1;
  kd_rows : forall e, e ∈ m -> e.1 = key e.2 /\ e.2 ∈ T;
}.

Lemma elem_of_dict_set m p e :
  keyed m -> p ∈ T -> e ∈ dict_set (key p) p m <-> e ∈ m \/ e = (key p, p).
Proof.
  intros [_ Hrows] Hp. induction m as [|[k q] m IH]; cbn [dict_set].
  { by rewrite list_elem_of_singleton, elem_of_nil; naive_solver. }
  assert (k = key q /\ q ∈ T) as [-> Hq] by (apply (Hrows (k, q)); left).
  case_decide as Hk.
  - apply (key_unique key T _ _ HT) in Hk as ->; [|done..].
    rewrite !elem_of_cons. naive_solver.
  - rewrite !elem_of_cons, IH by (intros; apply Hrows; by right). naive_solver.
Qed.
Lemma keyed_dict_set m p : keyed m -> p ∈ T -> keyed (dict_set (key p) p m).
Proof.
  intros Hm Hp. split.
  - pose proof (kd_keys m Hm) as Hk. pose proof (kd_rows m Hm) as Hr. clear Hm.
    induction m as [|[k q] m IH]; cbn [dict_set]; csimpl in *; [constructor; [set_solver|constructor]|].
    case_decide as Hd; csimpl; [by subst|]. apply NoDup_cons in Hk as [Hk1 Hk2].
    constructor; [|by apply IH; [|intros; apply Hr; right]].
    intros (e & -> & He)%list_elem_of_fmap.
    apply elem_of_dict_set in He as [He| ->]; [|by apply Hd|split; [done|intros; apply Hr; by right]|done].
    apply Hk1. by apply list_elem_of_fmap_2.
  - intros e He. apply elem_of_dict_set in He as [He| ->]; [by apply (kd_rows m)|done..].
Qed.
Lemma dict_of_rows l : forall m, (forall p, p ∈ l -> p ∈ T) -> keyed m ->
  let m' := foldl (fun m p => dict_set (key p) p m) m l in
  keyed m' /\ forall e, e ∈ m' <-> e ∈ m \/ exists p, p ∈ l /\ e = (key p, p).
Proof.
  induction l as [|p l IH]; intros m Hl Hm; cbn [foldl]; cbv zeta.
  { split; [done|]. set_solver. }
  assert (p ∈ T) as Hp by (apply Hl; left).
  destruct (IH (dict_set (key p) p m)) as [Hm' He].
  - intros q Hq. apply Hl. by right.
  - by apply keyed_dict_set.
  - split; [done|]. intros e. rewrite He, elem_of_dict_set by done.
    setoid_rewrite elem_of_cons. naive_solver.
Qed.
Lemma keyed_values m : keyed m -> NoDup m.*2 /\ forall p, p ∈ m.*2 <-> (key p, p) ∈ m.
Proof.
  intros [Hk Hr]. split.
  - assert (m.*1 = key <$> m.*2) as Hm.
    { rewrite <- list_fmap_compose. apply list_fmap_ext. intros i e He.
      by apply Hr, (list_elem_of_lookup_2 _ _ _ He). }
    rewrite Hm in Hk. by eapply NoDup_fmap_1.
  - intros p. rewrite list_elem_of_fmap. split.
    + intros ([k q] & -> & He). destruct (Hr _ He) as [Hkq _]. cbn in Hkq. by subst.
    + intros He. by exists (key p, p).
Qed.
End keyed_dict.
