(* ===== verification/Volumes.v ===== *)
(** * Volumes and their life cycle

    [db/volumes.py] (with [db/volume_packs.py]): creation, the status
    transitions and the guard on deprecation, deletion. *)

From S2P Require Import Prelude Sqlite Catalog VolumeEvents Queries.
Open Scope string_scope.
Open Scope list_scope.
Open Scope Z_scope.

Definition VALID_TRANSITIONS : list (string * list string) :=
  [ (STATUS_STAGING, [STATUS_BURNING; STATUS_DEPRECATED; STATUS_DESTROYED]);
    (STATUS_BURNING, [STATUS_BURNED; STATUS_VERIFIED; STATUS_STAGING; STATUS_DESTROYED]);
    (STATUS_BURNED, [STATUS_BURNING; STATUS_VERIFIED; STATUS_STAGING; STATUS_DESTROYED]);
    (STATUS_VERIFIED, [STATUS_DEPRECATED; STATUS_DESTROYED; STATUS_CONSOLIDATING]);
    (STATUS_CONSOLIDATING, [STATUS_DEPRECATED; STATUS_VERIFIED]);
    (STATUS_DEPRECATED, [STATUS_DESTROYED]);
    (STATUS_DESTROYED, []) ].

(** [VALID_TRANSITIONS.get(current, set())] *)
Definition allowed_from (current : string) : list string :=
  match List.find (fun e => sql_eq e.1 current) VALID_TRANSITIONS with
  | Some (_, l) => l | None => [] end.

Definition find_volume (d : Catalog) (i : Z) : option Volume :=
  fetchone (where_ (fun v => sql_eq (volume_id v) i) (volumes d)).
Definition get_volume_by_id (i : Z) : dbc Volume :=
  row ← query (fun d => find_volume d i);
  match row with Some v => mret v | None => raise ValueError end.
Definition get_volume_by_label (l : string) (d : Catalog) : option Volume :=
  fetchone (where_ (fun v => sql_eq (label v) l) (volumes d)).
Definition get_volume_by_uuid (u : string) (d : Catalog) : option Volume :=
  fetchone (where_ (fun v => sql_eq (uuid v) u) (volumes d)).

Definition create_volume (lab uid media : string) (capacity : Z) (loc st now : string)
    (commit : bool) : dbc Volume :=
  i ← execute (insert_volume lab uid media capacity loc st now);
  _ ← commit_if commit;
  get_volume_by_id i.

Definition check_deprecation_safe (d : Catalog) (i : Z) : list string :=
  sha256 <$> get_at_risk_packs_for_volume d i.

(** [UPDATE volumes SET ... WHERE volume_id = i] *)
Definition update_volume (i : Z) (f : Volume -> Volume) : dbc Z :=
  execute (update_volumes (fun v => sql_eq (volume_id v) i) f).

(** The note [update_status] leaves. *)
Definition status_note (old new : string) : string :=
  ("Status changed: " ++ old ++ " → " ++ new)%string.
Definition note_status (i : Z) (old new now : string) : dbc VolumeEvent :=
  add_event i "NOTE" None (status_note old new) None now false.

(** The guard on deprecation, between SAVEPOINT and RELEASE.  An exception after
    the RELEASE has no savepoint left to roll back to (the handler's own failure
    is suppressed), so the handler covers this part only. *)
Definition guarded_deprecation (i : Z) (st : string) : dbc unit :=
  sp ← savepoint;
  on_error
    (at_risk ← query (fun d => check_deprecation_safe d i);
     match at_risk with
     | _ :: _ => _ ← rollback_to sp; raise ValueError
     | [] => _ ← update_volume i (set_status st); release sp
     end)
    (rollback_to sp).

Definition update_status (i : Z) (st now : string) (commit force : bool) : dbc unit :=
  volume ← get_volume_by_id i;
  let current := status volume in
  if negb force && negb (sql_in st (allowed_from current)) then raise ValueError
  else
    _ ← (if negb force && sql_eq st "DEPRECATED" then guarded_deprecation i st
         else if sql_eq st "VERIFIED"
         then _ ← update_volume i (fun v => set_verified_at now (set_status st v)); mret tt
         else _ ← update_volume i (set_status st); mret tt);
    _ ← note_status i current st now;
    commit_if commit.

Definition mark_closed (i : Z) (now : string) (commit : bool) : dbc unit :=
  _ ← update_volume i (set_closed_at now);
  commit_if commit.
Definition update_used_bytes (i used : Z) (commit : bool) : dbc unit :=
  _ ← update_volume i (set_used_bytes used);
  commit_if commit.

Definition list_volumes (status_filter : option string) (d : Catalog) : list Volume :=
  let p v := match status_filter with
             | Some s => if sql_eq s EmptyString then true else sql_eq (status v) s
             | None => true end in
  order_by (by_key created_at) (where_ p (volumes d)).

Definition delete_volume (i : Z) : dbc unit :=
  _ ← execute (delete_session_volumes (fun x => sql_eq (sv_volume_id x) i));
  _ ← execute (delete_links (fun x => sql_eq (vp_volume_id x) i));
  _ ← execute (delete_volume_row i);
  commit.

(** ** Links ([db/volume_packs.py]) *)

Definition link_pack_to_volume (v p : Z) : dbc unit :=
  _ ← execute (insert_or_ignore_link v p); commit.
(** [executemany]: one statement per row; a failing row leaves the earlier ones
    in the open transaction. *)
Fixpoint executemany {A} (f : A -> Catalog -> res (unit * Catalog)) (l : list A) : dbc unit :=
  match l with
  | [] => mret tt
  | x :: l => _ ← execute (f x); executemany f l
  end.
Definition bulk_link_packs (v : Z) (pack_ids : list Z) (commit : bool) : dbc unit :=
  _ ← executemany (insert_or_ignore_link v) pack_ids;
  commit_if commit.
Definition unlink_pack_from_volume (v p : Z) : dbc unit :=
  _ ← execute (delete_links (fun x => sql_eq (vp_volume_id x) v && sql_eq (vp_pack_id x) p));
  commit.
Definition get_pack_ids_for_volume (v : Z) (d : Catalog) : list Z :=
  vp_pack_id <$> where_ (fun x => sql_eq (vp_volume_id x) v) (volume_packs d).
Definition get_volume_ids_for_pack (p : Z) (d : Catalog) : list Z :=
  vp_volume_id <$> where_ (fun x => sql_eq (vp_pack_id x) p) (volume_packs d).

(** ** Well-formedness is kept *)

Lemma keeps_update_volume i f :
  (forall v, volume_id (f v) = volume_id v /\ label (f v) = label v /\ uuid (f v) = uuid v) ->
  keeps catalog_wf (update_volume i f).
Proof. intros Hf. unfold update_volume. keeps. by eapply wf_update_volumes. Qed.
#[export] Hint Extern 1 (keeps _ (update_volume _ _)) =>
  apply keeps_update_volume; intros; repeat split : keeps.

Lemma keeps_get_volume_by_id i : keeps catalog_wf (get_volume_by_id i).
Proof. unfold get_volume_by_id. keeps. Qed.
#[export] Hint Resolve keeps_get_volume_by_id : keeps.
Lemma keeps_create_volume lab uid media cap loc st now cm :
  keeps catalog_wf (create_volume lab uid media cap loc st now cm).
Proof. unfold create_volume. keeps. by eapply wf_insert_volume. Qed.
Lemma keeps_update_status i st now cm force : keeps catalog_wf (update_status i st now cm force).
Proof. unfold update_status, guarded_deprecation, note_status. keeps. Qed.
Lemma keeps_mark_closed i now cm : keeps catalog_wf (mark_closed i now cm).
Proof. unfold mark_closed. keeps. Qed.
Lemma keeps_update_used_bytes i used cm : keeps catalog_wf (update_used_bytes i used cm).
Proof. unfold update_used_bytes. keeps. Qed.
Lemma keeps_delete_volume i : keeps catalog_wf (delete_volume i).
Proof.
  unfold delete_volume. keeps;
    [by eapply wf_delete_session_volumes|by eapply wf_delete_links|by eapply wf_delete_volume_row].
Qed.
Lemma keeps_executemany {A} (f : A -> Catalog -> res (unit * Catalog)) l :
  (forall x, preserves (f x)) -> keeps catalog_wf (executemany f l).
Proof. intros Hf. induction l; cbn [executemany]; keeps. by eapply Hf. Qed.
Lemma keeps_link v p : keeps catalog_wf (link_pack_to_volume v p).
Proof. unfold link_pack_to_volume. keeps. by eapply wf_insert_or_ignore_link. Qed.
Lemma keeps_bulk_link v ps cm : keeps catalog_wf (bulk_link_packs v ps cm).
Proof.
  unfold bulk_link_packs. keeps. apply keeps_executemany.
  intros x d a d' W H. by eapply wf_insert_or_ignore_link.
Qed.
Lemma keeps_unlink v p : keeps catalog_wf (unlink_pack_from_volume v p).
Proof. unfold unlink_pack_from_volume. keeps. by eapply wf_delete_links. Qed.

(** ** What [update_status] does *)

Lemma find_volume_Some d i v :
  catalog_wf d -> find_volume d i = Some v <-> v ∈ volumes d /\ volume_id v = i.
Proof.
  intros W. unfold find_volume, fetchone. split.
  - intros H. destruct (where_ _ _) as [|v' l] eqn:E; [done|]. injection H as ->.
    assert (v ∈ where_ (fun v => sql_eq (volume_id v) i) (volumes d)) as Hin by (rewrite E; left).
    sql. tauto.
  - intros [Hv <-]. destruct (where_ _ _) as [|v' l] eqn:E.
    + assert (v ∈ where_ (fun v' => sql_eq (volume_id v') (volume_id v)) (volumes d)) as Hin
        by (by sql). rewrite E in Hin. by inv Hin.
    + assert (v' ∈ where_ (fun v' => sql_eq (volume_id v') (volume_id v)) (volumes d)) as Hin
        by (rewrite E; left). sql. destruct Hin as [Hid Hin]. cbn. f_equal.
      by eapply (key_unique volume_id); [apply W|..].
Qed.
Lemma find_volume_None d i : find_volume d i = None <-> i ∉ volume_ids d.
Proof.
  unfold find_volume, fetchone. split.
  - intros H (v & -> & Hv)%list_elem_of_fmap. destruct (where_ _ _) eqn:E; [|done].
    assert (v ∈ where_ (fun v' => sql_eq (volume_id v') (volume_id v)) (volumes d)) as Hin
      by (by sql). rewrite E in Hin. by inv Hin.
  - intros H. destruct (where_ _ _) as [|v l] eqn:E; [done|]. exfalso. apply H.
    assert (v ∈ where_ (fun v' => sql_eq (volume_id v') i) (volumes d)) as Hin by (rewrite E; left).
    sql. destruct Hin as [<- ?]. by apply list_elem_of_fmap_2.
Qed.

(** The row [update_status] writes, and the catalog it leaves: that row and one
    NOTE event. *)
Definition with_status (st now : string) (v : Volume) : Volume :=
  if sql_eq st "VERIFIED" then set_verified_at now (set_status st v) else set_status st v.
Definition set_volume_status (d : Catalog) (i : Z) (st now : string) : Catalog :=
  set_volumes d (update_where (fun v => sql_eq (volume_id v) i) (with_status st now) (volumes d)).
Definition append_note (d : Catalog) (i : Z) (det now : string) : Catalog :=
  set_seqs (set_events d (volume_events d ++
      [mkVolumeEvent (seq_events d + 1) i "NOTE" now None det]))
    (seq_volumes d) (seq_packs d) (seq_copies d) (seq_events d + 1).

Lemma set_volume_status_wf d i st now :
  catalog_wf d -> st ∈ VOLUME_STATUSES -> catalog_wf (set_volume_status d i st now).
Proof.
  intros W Hst. unfold set_volume_status.
  assert (forall v, volume_id (with_status st now v) = volume_id v /\
    label (with_status st now v) = label v /\ uuid (with_status st now v) = uuid v /\
    status (with_status st now v) = st) as Hf.
  { intros v. unfold with_status. by destruct (sql_eq st "VERIFIED"). }
  apply wf_set_volumes; [done|symmetry; apply update_where_key; intros; apply Hf..|].
  apply Forall_update_where; [eapply Forall_impl; [apply W|]; by intros ? []|].
  intros v _ _. by destruct (Hf v) as (_&_&_&->).
Qed.

Lemma update_volume_Ok c i f :
  catalog_wf (current c) ->
  (forall v, v ∈ volumes (current c) -> volume_id v = i -> status (f v) ∈ VOLUME_STATUSES) ->
  exists n, update_volume i f c
    = (Ok n, mkConn (committed c)
         (set_volumes (current c) (update_where (fun v => sql_eq (volume_id v) i) f
            (volumes (current c)))) true).
Proof.
  intros W Hf. unfold update_volume, execute, update_volumes.
  rewrite (proj2 (exists_row_false _ _)); [cbn; eauto|].
  intros v (v' & Hv' & ->)%elem_of_update_where. apply negb_false_iff, sql_in_true.
  destruct (sql_eq (volume_id v') i) eqn:E; [sql; auto|].
  pose proof (wf_volume_row _ W) as Hr. rewrite Forall_forall in Hr. by apply Hr in Hv' as [].
Qed.

Lemma update_volume_Err c i f v :
  v ∈ volumes (current c) -> volume_id v = i -> status (f v) ∉ VOLUME_STATUSES ->
  update_volume i f c
  = (Err SqliteIntegrityError, mkConn (committed c) (current c) true).
Proof.
  intros Hv Hi Hf. unfold update_volume, execute, update_volumes.
  rewrite (proj2 (exists_row_true _ _)); [done|]. exists (f v). split.
  - apply elem_of_update_where. exists v. split; [done|]. by rewrite (proj2 (sql_eq_true _ _) Hi).
  - by apply negb_true_iff, sql_in_false.
Qed.

Lemma allowed_from_status s st : st ∈ allowed_from s -> st ∈ VOLUME_STATUSES.
Proof.
  unfold allowed_from. destruct (List.find _ _) as [[k l]|] eqn:E; [|by inv 1].
  apply List.find_some in E as [Hin _]. intros Hst.
  assert (forallb (fun e : string * list string => forallb (fun x => sql_in x VOLUME_STATUSES) e.2)
            VALID_TRANSITIONS = true) as Hall by reflexivity.
  rewrite forallb_forall in Hall. specialize (Hall _ Hin). cbn in Hall.
  rewrite forallb_forall in Hall. apply sql_in_true, Hall. by apply list_elem_of_In.
Qed.

Lemma get_volume_by_id_Ok c i v :
  find_volume (current c) i = Some v -> get_volume_by_id i c = (Ok v, c).
Proof. intros H. unfold get_volume_by_id, mbind, db_bind, query. by rewrite H. Qed.

Lemma guarded_deprecation_Ok c i st :
  catalog_wf (current c) -> check_deprecation_safe (current c) i = [] -> st ∈ VOLUME_STATUSES ->
  guarded_deprecation i st c
  = (Ok tt, let d := set_volumes (current c) (update_where (fun v => sql_eq (volume_id v) i)
                        (set_status st) (volumes (current c))) in
            if in_transaction c then mkConn (committed c) d true else mkConn d d false).
Proof.
  intros W Hs Hst. unfold guarded_deprecation, savepoint, on_error, query.
  unfold mbind, db_bind. cbn. rewrite Hs.
  destruct (update_volume_Ok (mkConn (committed c) (current c) true) i (set_status st) W)
    as [n ->]; [done|]. cbn. unfold release. cbn. by destruct (in_transaction c).
Qed.

Lemma guarded_deprecation_Err c i st :
  check_deprecation_safe (current c) i <> [] ->
  guarded_deprecation i st c = (Err ValueError, mkConn (committed c) (current c) true).
Proof.
  intros Hs. unfold guarded_deprecation, savepoint, on_error, query.
  unfold mbind, db_bind. cbn. by destruct (check_deprecation_safe (current c) i).
Qed.

(** The outcome once the transition itself has been decided: the row and the
    note, committed on request (or by the outermost RELEASE, see below). *)
Lemma note_status_Ok c i old st now v :
  catalog_wf (current c) -> v ∈ volumes (current c) -> volume_id v = i ->
  exists e, note_status i old st now c
    = (Ok e, mkConn (committed c) (append_note (current c) i (status_note old st) now) true).
Proof.
  intros W Hv <-. unfold note_status. rewrite add_event_Ok;
    [eauto|done|by apply list_elem_of_fmap_2|by apply sql_in_true|done].
Qed.

Lemma with_status_other st now v : st <> "VERIFIED" -> with_status st now v = set_status st v.
Proof. intros H. unfold with_status. by rewrite (proj2 (sql_eq_false _ _) H). Qed.
Lemma with_status_status st now v : status (with_status st now v) = st.
Proof. unfold with_status. by destruct (sql_eq st "VERIFIED"). Qed.
Lemma with_status_id st now v : volume_id (with_status st now v) = volume_id v.
Proof. unfold with_status. by destruct (sql_eq st "VERIFIED"). Qed.

(** The write of [update_status], whichever branch performs it. *)
Lemma update_branch_Ok c i st now force :
  catalog_wf (current c) -> st ∈ VOLUME_STATUSES ->
  (force = false -> st = "DEPRECATED" -> check_deprecation_safe (current c) i = []) ->
  exists b d0, (if negb force && sql_eq st "DEPRECATED" then guarded_deprecation i st
     else if sql_eq st "VERIFIED"
     then _ ← update_volume i (fun v => set_verified_at now (set_status st v)); mret tt
     else _ ← update_volume i (set_status st); mret tt) c
    = (Ok tt, mkConn d0 (set_volume_status (current c) i st now) b) /\
    (d0 = committed c \/
     (force = false /\ st = "DEPRECATED" /\ in_transaction c = false /\
      d0 = set_volume_status (current c) i st now)).
Proof.
  intros W Hst Hsafe. unfold set_volume_status.
  destruct force; cbn [negb andb].
  - destruct (sql_eq st "VERIFIED") eqn:E; unfold mbind, db_bind.
    + destruct (update_volume_Ok c i (fun v => set_verified_at now (set_status st v)) W) as [n ->];
        [done|]. eexists _, _. split; [|by left]. unfold with_status. by rewrite E.
    + destruct (update_volume_Ok c i (set_status st) W) as [n ->]; [done|].
      eexists _, _. split; [|by left]. unfold with_status. by rewrite E.
  - destruct (sql_eq st "DEPRECATED") eqn:D.
    + apply sql_eq_true in D as ->. rewrite guarded_deprecation_Ok by auto. cbv zeta.
      destruct (in_transaction c) eqn:T.
      * eexists _, _. split; [done|by left].
      * eexists _, _. split; [done|]. right. auto.
    + destruct (sql_eq st "VERIFIED") eqn:E; unfold mbind, db_bind.
      * destruct (update_volume_Ok c i (fun v => set_verified_at now (set_status st v)) W) as [n ->];
          [done|]. eexists _, _. split; [|by left]. unfold with_status. by rewrite E.
      * destruct (update_volume_Ok c i (set_status st) W) as [n ->]; [done|].
        eexists _, _. split; [|by left]. unfold with_status. by rewrite E.
Qed.

(** The catalog after an accepted [update_status]. *)
Definition status_changed (d : Catalog) (i : Z) (old st now : string) : Catalog :=
  append_note (set_volume_status d i st now) i (status_note old st) now.

Definition accepted (d : Catalog) (i : Z) (old st : string) (force : bool) : Prop :=
  st ∈ VOLUME_STATUSES /\
  (force = false -> st ∈ allowed_from old /\
     (st = "DEPRECATED" -> check_deprecation_safe d i = [])).

Lemma update_status_Ok c i st now cm force v :
  catalog_wf (current c) -> find_volume (current c) i = Some v ->
  accepted (current c) i (status v) st force ->
  let d' := status_changed (current c) i (status v) st now in
  exists b d0, update_status i st now cm force c
    = (Ok tt, if cm then mkConn d' d' false else mkConn d0 d' b) /\
    (d0 = committed c \/
     (force = false /\ st = "DEPRECATED" /\ in_transaction c = false /\
      d0 = set_volume_status (current c) i st now)).
Proof.
  intros W Hv [Hst Hacc] d'. unfold update_status.
  rewrite (db_bind_Ok _ _ _ _ _ (get_volume_by_id_Ok _ _ _ Hv)).
  assert (negb force && negb (sql_in st (allowed_from (status v))) = false) as ->.
  { destruct force; [done|]. cbn. apply negb_false_iff, sql_in_true. by apply Hacc. }
  destruct (update_branch_Ok c i st now force W Hst) as (b & d0 & Hb & Hd0);
    [intros; by apply Hacc|].
  rewrite (db_bind_Ok _ _ _ _ _ Hb).
  apply (find_volume_Some _ _ _ W) in Hv as [Hv <-].
  destruct (note_status_Ok (mkConn d0 (set_volume_status (current c) (volume_id v) st now) b)
              (volume_id v) (status v) st now (with_status st now v)) as [e He].
  - by apply set_volume_status_wf.
  - apply elem_of_update_where. exists v. split; [done|]. by rewrite (proj2 (sql_eq_true _ _) eq_refl).
  - apply with_status_id.
  - rewrite (db_bind_Ok _ _ _ _ _ He). exists true, d0. split; [|done]. by destruct cm.
Qed.

Lemma update_status_refused c i st now cm v :
  find_volume (current c) i = Some v -> st ∉ allowed_from (status v) ->
  update_status i st now cm false c = (Err ValueError, c).
Proof.
  intros Hv Hst. unfold update_status.
  rewrite (db_bind_Ok _ _ _ _ _ (get_volume_by_id_Ok _ _ _ Hv)). cbn [negb andb].
  by rewrite (proj2 (sql_in_false _ _) Hst).
Qed.
Lemma update_status_unknown c i st now cm force :
  find_volume (current c) i = None -> update_status i st now cm force c = (Err ValueError, c).
Proof.
  intros Hv. unfold update_status, get_volume_by_id, mbind, db_bind, query. by rewrite Hv.
Qed.
Lemma update_status_unsafe c i now cm v :
  find_volume (current c) i = Some v -> check_deprecation_safe (current c) i <> [] ->
  "DEPRECATED" ∈ allowed_from (status v) ->
  update_status i "DEPRECATED" now cm false c
  = (Err ValueError, mkConn (committed c) (current c) true).
Proof.
  intros Hv Hs Hst. unfold update_status.
  rewrite (db_bind_Ok _ _ _ _ _ (get_volume_by_id_Ok _ _ _ Hv)). cbn [negb andb].
  rewrite (proj2 (sql_in_true _ _) Hst). cbn [negb].
  rewrite (proj2 (sql_eq_true _ _) eq_refl).
  unfold mbind, db_bind. by rewrite guarded_deprecation_Err.
Qed.
Lemma update_status_bad_status c i st now cm v :
  catalog_wf (current c) -> find_volume (current c) i = Some v -> st ∉ VOLUME_STATUSES ->
  update_status i st now cm true c
  = (Err SqliteIntegrityError, mkConn (committed c) (current c) true).
Proof.
  intros W Hv Hst. unfold update_status.
  rewrite (db_bind_Ok _ _ _ _ _ (get_volume_by_id_Ok _ _ _ Hv)). cbn [negb andb].
  apply (find_volume_Some _ _ _ W) in Hv as [Hv Hi].
  unfold mbind, db_bind. destruct (sql_eq st "VERIFIED") eqn:E.
  - apply sql_eq_true in E as ->. destruct Hst. by apply sql_in_true.
  - by rewrite (update_volume_Err c i (set_status st) v Hv Hi).
Qed.

Lemma on_volume_true d i q :
  on_volume d i q = true <-> exists vp v, vp ∈ volume_packs d /\ vp_pack_id vp = i /\
    v ∈ volumes d /\ volume_id v = vp_volume_id vp /\ q v = true.
Proof.
  unfold on_volume. rewrite exists_row_true. setoid_rewrite andb_true_iff.
  setoid_rewrite exists_row_true. setoid_rewrite andb_true_iff. setoid_rewrite sql_eq_true.
  naive_solver.
Qed.

Lemma elem_of_pack_link_rows d p vp :
  (p, vp) ∈ pack_link_rows d <->
  p ∈ packs d /\ vp ∈ volume_packs d /\ vp_pack_id vp = pack_id p.
Proof.
  unfold pack_link_rows. rewrite list_elem_of_bind.
  setoid_rewrite list_elem_of_fmap. setoid_rewrite elem_of_where. setoid_rewrite sql_eq_true.
  naive_solver.
Qed.

(** A volume that passes the guard: every pack of it that is not pruned has
    another live replica. *)
Lemma deprecation_safe_spec d i :
  check_deprecation_safe d i = [] ->
  forall p, p ∈ packs d -> is_pruned p = false -> mkVolumePack i (pack_id p) ∈ volume_packs d ->
    on_volume d (pack_id p) (other_live_replica d i) = true.
Proof.
  unfold check_deprecation_safe. intros H p Hp Hpr Hl.
  apply fmap_nil_inv in H. apply not_false_iff_true. intros Ho.
  assert (p ∈ get_at_risk_packs_for_volume d i) as Hin; [|rewrite H in Hin; by inv Hin].
  unfold get_at_risk_packs_for_volume. apply elem_of_order_by, list_elem_of_fmap.
  exists (p, mkVolumePack i (pack_id p)). split; [done|]. apply elem_of_where. cbn.
  rewrite Ho, Hpr, (proj2 (sql_eq_true _ _) eq_refl). split; [done|].
  by apply elem_of_pack_link_rows.
Qed.

(** Rows of other volumes keep their status, and no link or disc changes. *)
Lemma set_volume_status_other d i st now v :
  v ∈ volumes d -> volume_id v <> i -> v ∈ volumes (set_volume_status d i st now).
Proof.
  intros Hv Hi. apply elem_of_update_where. exists v. split; [done|].
  by rewrite (proj2 (sql_eq_false _ _) Hi).
Qed.
Lemma find_status_changed d i old st now v j :
  catalog_wf d -> st ∈ VOLUME_STATUSES -> find_volume d i = Some v ->
  find_volume (status_changed d i old st now) j
  = if decide (j = i) then Some (with_status st now v) else find_volume d j.
Proof.
  intros W Hst Hv. pose proof (set_volume_status_wf d i st now W Hst) as W'.
  change (find_volume (status_changed d i old st now) j)
    with (find_volume (set_volume_status d i st now) j).
  apply (find_volume_Some _ _ _ W) in Hv as [Hv Hi]. case_decide as Hj.
  - subst j. apply (find_volume_Some _ _ _ W'). split; [|by rewrite with_status_id].
    apply elem_of_update_where. exists v. split; [done|]. by rewrite (proj2 (sql_eq_true _ _) Hi).
  - destruct (find_volume d j) as [v'|] eqn:E.
    + apply (find_volume_Some _ _ _ W) in E as [? <-]. apply (find_volume_Some _ _ _ W').
      split; [|done]. by apply set_volume_status_other.
    + apply find_volume_None. apply find_volume_None in E. intros (v' & -> & Hv')%list_elem_of_fmap.
      apply elem_of_update_where in Hv' as (v'' & Hv'' & ->). apply E.
      destruct (sql_eq _ _); [rewrite with_status_id|]; by apply list_elem_of_fmap_2.
Qed.

Lemma update_status_accepted c i st now cm force :
  catalog_wf (current c) -> (update_status i st now cm force c).1 = Ok tt ->
  exists v, find_volume (current c) i = Some v /\ accepted (current c) i (status v) st force.
Proof.
  intros W H. destruct (find_volume (current c) i) as [v|] eqn:Hv.
  2: { by rewrite update_status_unknown in H. }
  exists v. split; [done|]. destruct force.
  - split; [|done]. destruct (decide (st ∈ VOLUME_STATUSES)); [done|].
    by erewrite update_status_bad_status in H.
  - destruct (decide (st ∈ allowed_from (status v))) as [Ha|Ha].
    2: { by erewrite update_status_refused in H. }
    split; [by eapply allowed_from_status|]. intros _. split; [done|]. intros ->.
    destruct (decide (check_deprecation_safe (current c) i = [])) as [|Hs]; [done|].
    by erewrite update_status_unsafe in H.
Qed.

Lemma update_status_current c i st now cm force :
  catalog_wf (current c) -> (update_status i st now cm force c).1 = Ok tt ->
  exists v, find_volume (current c) i = Some v /\ accepted (current c) i (status v) st force /\
    current (update_status i st now cm force c).2 = status_changed (current c) i (status v) st now.
Proof.
  intros W H. destruct (update_status_accepted _ _ _ _ _ _ W H) as (v & Hv & Hacc).
  exists v. split_and!; [done|done|].
  destruct (update_status_Ok c i st now cm force v W Hv Hacc) as (b & d0 & -> & _). by destruct cm.
Qed.

(** A live replica of a pack on a volume other than [i]. *)
Definition replica_elsewhere (d : Catalog) (i p : Z) (v : Volume) : Prop :=
  v ∈ volumes d /\ volume_id v <> i /\ mkVolumePack (volume_id v) p ∈ volume_packs d /\
  (status v = "BURNED" \/ status v = "VERIFIED") /\ live_by_discs d v = true.

Lemma deprecation_leaves_replica d i old now p :
  check_deprecation_safe d i = [] ->
  let d' := status_changed d i old "DEPRECATED" now in
  p ∈ packs d' -> is_pruned p = false -> mkVolumePack i (pack_id p) ∈ volume_packs d' ->
  exists v, replica_elsewhere d' i (pack_id p) v.
Proof.
  intros Hsafe. cbv zeta. set (d' := status_changed _ _ _ _ _).
  change (packs d') with (packs d). change (volume_packs d') with (volume_packs d).
  intros Hp Hpr Hl. pose proof (deprecation_safe_spec _ _ Hsafe p Hp Hpr Hl) as Ho.
  apply on_volume_true in Ho as ([vv pp] & v & Hvp & Hpp & Hv & Hid & Hother).
  cbn in Hpp, Hid. subst vv pp. unfold other_live_replica in Hother.
  apply andb_true_iff in Hother as [Hother Hlive]. apply andb_true_iff in Hother as [Hne Hst].
  apply negb_true_iff, sql_eq_false in Hne. apply sql_in_true in Hst.
  exists v. assert (v ∈ volumes d') as Hv' by (by apply set_volume_status_other).
  split_and!; [done|done|done|set_solver|done].
Qed.

(** Outside a transaction the RELEASE of the guard's savepoint commits. *)
Lemma deprecate_run c i now v :
  catalog_wf (current c) -> in_transaction c = false -> committed c = current c ->
  find_volume (current c) i = Some v -> accepted (current c) i (status v) "DEPRECATED" false ->
  update_status i "DEPRECATED" now false false c
  = (Ok tt, mkConn (set_volume_status (current c) i "DEPRECATED" now)
              (status_changed (current c) i (status v) "DEPRECATED" now) true).
Proof.
  intros W Ht Hc Hv Hacc. unfold update_status. rewrite (db_bind_Ok _ _ _ _ _ (get_volume_by_id_Ok _ _ _ Hv)).
  destruct Hacc as [Hst Hacc]. destruct Hacc as [Ha Hs]; [done|].
  rewrite (proj2 (sql_in_true _ _) Ha). cbn [negb andb].
  rewrite (proj2 (sql_eq_true "DEPRECATED" _) eq_refl).
  rewrite (db_bind_Ok _ _ _ _ _ (guarded_deprecation_Ok c i _ W (Hs eq_refl) Hst)).
  rewrite Ht. cbv zeta. pose proof Hv as Hv'. apply (find_volume_Some _ _ _ W) in Hv' as [Hin Hi].
  change (set_volumes _ _) with (set_volume_status (current c) i "DEPRECATED" now).
  destruct (note_status_Ok (mkConn (set_volume_status (current c) i "DEPRECATED" now)
              (set_volume_status (current c) i "DEPRECATED" now) false)
              i (status v) "DEPRECATED" now (with_status "DEPRECATED" now v)) as [e He].
  - by apply set_volume_status_wf.
  - apply elem_of_update_where. exists v. split; [done|]. by rewrite (proj2 (sql_eq_true _ _) Hi).
  - by rewrite with_status_id.
  - by rewrite (db_bind_Ok _ _ _ _ _ He).
Qed.

(** ** Properties *)

(** C11.  [update_status] on every branch.  On an unknown volume it raises
    [ValueError] and changes nothing.  Otherwise it succeeds exactly when the
    status is a legal one and, unless forced, the transition is in
    [VALID_TRANSITIONS] and a deprecation leaves every pack replicated; then
    the row has the new status (and the time of verification), a NOTE event
    is appended, nothing else changes, and [commit] makes it durable.  In
    every other case it raises and leaves both the committed and the current
    catalog as they were. *)
Theorem update_status_spec c i st now cm force :
  catalog_wf (current c) ->
  match find_volume (current c) i with
  | None => update_status i st now cm force c = (Err ValueError, c)
  | Some v =>
      let '(r, c') := update_status i st now cm force c in
      (accepted (current c) i (status v) st force ->
         r = Ok tt /\ current c' = status_changed (current c) i (status v) st now /\
         (cm = true -> committed c' = current c')) /\
      (~ accepted (current c) i (status v) st force ->
         (r = Err ValueError \/ (force = true /\ r = Err SqliteIntegrityError)) /\
         current c' = current c /\ committed c' = committed c)
  end.
Proof.
  intros W. destruct (find_volume (current c) i) as [v|] eqn:Hv.
  2: { by apply update_status_unknown. }
  destruct (update_status i st now cm force c) as [r c'] eqn:E. split.
  - intros Hacc. destruct (update_status_Ok c i st now cm force v W Hv Hacc) as (b & d0 & Hu & _).
    rewrite Hu in E. injection E as <- <-. by destruct cm.
  - intros Hn. destruct force.
    + assert (st ∉ VOLUME_STATUSES) as Hst by (intros ?; by apply Hn).
      rewrite (update_status_bad_status _ _ _ _ _ _ W Hv Hst) in E.
      injection E as <- <-. auto.
    + destruct (decide (st ∈ allowed_from (status v))) as [Ha|Ha].
      2: { rewrite (update_status_refused _ _ _ _ _ _ Hv Ha) in E. injection E as <- <-. auto. }
      assert (st = "DEPRECATED" /\ check_deprecation_safe (current c) i <> []) as [-> Hs].
      { destruct (decide (st = "DEPRECATED")) as [->|Hd].
        - split; [done|]. intros Hs. apply Hn. split; [by eapply allowed_from_status|done].
        - exfalso. apply Hn. split; [by eapply allowed_from_status|done]. }
      rewrite (update_status_unsafe _ _ _ _ _ Hv Hs Ha) in E. injection E as <- <-. auto.
Qed.

(** Without [force], every change of a volume's status is a transition of
    [VALID_TRANSITIONS], no other volume changes, and a DESTROYED volume never
    leaves that status. *)
Theorem update_status_transitions c i st now cm :
  catalog_wf (current c) -> (update_status i st now cm false c).1 = Ok tt ->
  exists v, find_volume (current c) i = Some v /\ st ∈ allowed_from (status v) /\
    status v <> STATUS_DESTROYED /\
    (exists v', find_volume (current (update_status i st now cm false c).2) i = Some v' /\
       status v' = st) /\
    forall j, j <> i ->
      find_volume (current (update_status i st now cm false c).2) j = find_volume (current c) j.
Proof.
  intros W H. destruct (update_status_accepted _ _ _ _ _ _ W H) as (v & Hv & Hacc).
  destruct (update_status_Ok c i st now cm false v W Hv Hacc) as (b & d0 & -> & _).
  destruct Hacc as [Hst Hacc]. destruct Hacc as [Ha _]; [done|]. exists v.
  assert (forall x, current (if cm then mkConn x x false else mkConn d0 x b) = x) as Hcur
    by (by destruct cm).
  cbn [snd]. rewrite Hcur. split_and!; [done|done| | |].
  - intros Hd. rewrite Hd in Ha. vm_compute in Ha. by inv Ha.
  - exists (with_status st now v). split; [|apply with_status_status].
    rewrite (find_status_changed _ _ _ _ _ v) by done. by rewrite decide_True.
  - intros j Hj. rewrite (find_status_changed _ _ _ _ _ v) by done. by rewrite decide_False.
Qed.

(** C29.  Deprecating never loses the last replica: when an unforced
    [update_status] to DEPRECATED succeeds, then in the resulting catalog every
    pack on the volume that is not pruned is also linked to another volume
    that is BURNED or VERIFIED and has an ACTIVE disc (or no disc record at
    all), so it still counts as archived. *)
Theorem deprecation_keeps_replica c i now cm p :
  catalog_wf (current c) -> (update_status i "DEPRECATED" now cm false c).1 = Ok tt ->
  let d' := current (update_status i "DEPRECATED" now cm false c).2 in
  p ∈ packs d' -> is_pruned p = false -> mkVolumePack i (pack_id p) ∈ volume_packs d' ->
  exists v, v ∈ volumes d' /\ volume_id v <> i /\ mkVolumePack (volume_id v) (pack_id p) ∈ volume_packs d' /\
    (status v = "BURNED" \/ status v = "VERIFIED") /\ live_by_discs d' v = true /\
    unarchived d' p = false.
Proof.
  intros W H. destruct (update_status_current _ _ _ _ _ _ W H) as (v0 & Hv0 & [_ Hacc] & ->).
  destruct Hacc as [_ Hsafe]; [done|]. cbv zeta. intros Hp Hpr Hl.
  destruct (deprecation_leaves_replica _ i (status v0) now p (Hsafe eq_refl) Hp Hpr Hl)
    as (v & Hv & Hne & Hlk & Hst & Hlive).
  exists v. split_and!; [done..|]. unfold unarchived. rewrite Hpr. cbn [negb andb].
  apply negb_false_iff. apply (on_volume_true _ (pack_id p) is_durable).
  exists (mkVolumePack (volume_id v) (pack_id p)), v. split_and!; [done..|].
  apply sql_in_true. set_solver.
Qed.

(** [commit=False] does not hold for a deprecation outside a transaction:
    releasing the outermost savepoint commits, so the new status is already
    durable when [update_status] returns, while its NOTE event is not. *)
Theorem deprecation_commits_early c i now v :
  catalog_wf (current c) -> in_transaction c = false -> committed c = current c ->
  find_volume (current c) i = Some v -> accepted (current c) i (status v) "DEPRECATED" false ->
  let '(r, c') := update_status i "DEPRECATED" now false false c in
  r = Ok tt /\
  (exists v', find_volume (committed c') i = Some v' /\ status v' = "DEPRECATED") /\
  volume_events (committed c') = volume_events (committed c) /\
  volume_events (current c') = volume_events (committed c) ++
    [mkVolumeEvent (seq_events (current c) + 1) i "NOTE" now None
       (status_note (status v) "DEPRECATED")].
Proof.
  intros W Ht Hc Hv Hacc.
  rewrite (deprecate_run c i now v W Ht Hc Hv Hacc).
  cbn [committed current]. split_and!; [done| |by rewrite Hc|by rewrite Hc].
  exists (with_status "DEPRECATED" now v). split; [|apply with_status_status].
  pose proof (find_status_changed (current c) i (status v) "DEPRECATED" now v i W) as Hf.
  rewrite decide_True in Hf by done. apply Hf; [|done]. apply Hacc.
Qed.

(** A small catalog for the witnesses: two volumes that hold the same packs, one
    that is only staged, one whose only disc is gone. *)
Definition demo_volume (i : Z) (lab st loc : string) : Volume :=
  mkVolume i lab ("uuid-" ++ lab)%string "BD25" 25000000000 0 loc st "2026-01-01" None None.
Definition demo_copy (i v : Z) (loc st : string) : VolumeCopy :=
  mkVolumeCopy i v loc st "2026-01-02" "" (Some "cafe") None "S1" (Some 999).
Definition demo_catalog : Catalog :=
  mkCatalog
    [demo_volume 1 "V1" "VERIFIED" "Home"; demo_volume 2 "V2" "BURNED" "Safe";
     demo_volume 3 "V3" "STAGING" "Home"; demo_volume 4 "V4" "DEPRECATED" "Home"]
    [mkPack 1 "aa" 10 "r1" false "2026-01-01"; mkPack 2 "bb" 20 "r1" false "2026-01-01";
     mkPack 3 "cc" 30 "r1" false "2026-01-02"; mkPack 4 "dd" 40 "r1" true "2026-01-02"]
    [mkRepository "r1" "photos" "/mirror" "" "2026-01-01" "active"]
    [mkVolumePack 1 1; mkVolumePack 1 2; mkVolumePack 2 1; mkVolumePack 2 2; mkVolumePack 3 3;
     mkVolumePack 4 4]
    [] [mkLocation "Home" "2026-01-01" ""; mkLocation "Safe" "2026-01-01" ""]
    [demo_copy 1 1 "Home" "ACTIVE"; demo_copy 2 2 "Safe" "ACTIVE"; demo_copy 3 4 "Home" "DESTROYED"]
    [] [] [] 4 4 3 0 (Some []).
Definition demo_conn : Conn Catalog := mkConn demo_catalog demo_catalog false.

Lemma demo_catalog_wf : catalog_wf demo_catalog.
Proof. constructor; try constructor; apply (bool_decide_unpack _); vm_compute; exact I. Qed.
Lemma demo_accepted : accepted demo_catalog 1 "VERIFIED" "DEPRECATED" false.
Proof. split; [by apply sql_in_true|]. intros _. split; [by apply sql_in_true|reflexivity]. Qed.

Lemma update_status_spec_witness :
  match find_volume (current demo_conn) 1 with
  | None => update_status 1 "DEPRECATED" "now" true false demo_conn = (Err ValueError, demo_conn)
  | Some v =>
      let '(r, c') := update_status 1 "DEPRECATED" "now" true false demo_conn in
      (accepted (current demo_conn) 1 (status v) "DEPRECATED" false ->
         r = Ok tt /\ current c' = status_changed (current demo_conn) 1 (status v) "DEPRECATED" "now" /\
         (true = true -> committed c' = current c')) /\
      (~ accepted (current demo_conn) 1 (status v) "DEPRECATED" false ->
         (r = Err ValueError \/ (false = true /\ r = Err SqliteIntegrityError)) /\
         current c' = current demo_conn /\ committed c' = committed demo_conn)
  end.
Proof. apply (update_status_spec demo_conn 1 "DEPRECATED" "now" true false demo_catalog_wf). Defined.

Lemma update_status_transitions_witness :
  exists v, find_volume (current demo_conn) 2 = Some v /\ "VERIFIED" ∈ allowed_from (status v) /\
    status v <> STATUS_DESTROYED /\
    (exists v', find_volume (current (update_status 2 "VERIFIED" "now" true false demo_conn).2) 2
                = Some v' /\ status v' = "VERIFIED") /\
    forall j, j <> 2 ->
      find_volume (current (update_status 2 "VERIFIED" "now" true false demo_conn).2) j
      = find_volume (current demo_conn) j.
Proof.
  apply (update_status_transitions demo_conn 2 "VERIFIED" "now" true demo_catalog_wf).
  vm_compute. reflexivity.
Defined.

Lemma deprecation_keeps_replica_witness :
  let d' := current (update_status 1 "DEPRECATED" "now" true false demo_conn).2 in
  exists v, v ∈ volumes d' /\ volume_id v <> 1 /\ mkVolumePack (volume_id v) 2 ∈ volume_packs d' /\
    (status v = "BURNED" \/ status v = "VERIFIED") /\ live_by_discs d' v = true /\
    unarchived d' (mkPack 2 "bb" 20 "r1" false "2026-01-01") = false.
Proof.
  apply (deprecation_keeps_replica demo_conn 1 "now" true
           (mkPack 2 "bb" 20 "r1" false "2026-01-01") demo_catalog_wf).
  - vm_compute. reflexivity.
  - apply (bool_decide_unpack _). vm_compute. exact I.
  - reflexivity.
  - apply (bool_decide_unpack _). vm_compute. exact I.
Defined.

Lemma deprecation_commits_early_witness :
  let '(r, c') := update_status 1 "DEPRECATED" "now" false false demo_conn in
  r = Ok tt /\
  (exists v', find_volume (committed c') 1 = Some v' /\ status v' = "DEPRECATED") /\
  volume_events (committed c') = volume_events (committed demo_conn) /\
  volume_events (current c') = volume_events (committed demo_conn) ++
    [mkVolumeEvent (seq_events (current demo_conn) + 1) 1 "NOTE" "now" None
       (status_note "VERIFIED" "DEPRECATED")].
Proof.
  apply (deprecation_commits_early demo_conn 1 "now" (demo_volume 1 "V1" "VERIFIED" "Home")
           demo_catalog_wf eq_refl eq_refl eq_refl demo_accepted).
Defined.
