(* ===== verification/Labels.v ===== *)
(** * Volume labels and names: utils/labels.py

    [sanitize_name], [generate_volume_label] (the year of the clock is an
    argument) and [next_seq_num]; that the label made for the next volume is new,
    and that it is not when the configured prefix contains an underscore, which
    config/settings.py allows. *)

From Stdlib Require Import Ascii.
From S2P Require Import Prelude PyString PyText Sqlite Catalog VolumeEvents Queries Volumes.
Open Scope string_scope.
Open Scope list_scope.
Open Scope Z_scope.

Definition _MAX_NAME_LENGTH : Z := 128.
(** [_UNSAFE_PATTERN.search(value)] *)
Definition _UNSAFE_PATTERN (s : string) : bool :=
  negb (all_chars (fun c => negb (Ascii.eqb c "/" || Ascii.eqb c "\" || Ascii.eqb c zero)) s)
  || contains ".." s.

Definition sanitize_name (value : string) : res string :=
  let value := strip value in
  _ ← raise_if (String.eqb value EmptyString) ValueError;
  _ ← raise_if (_MAX_NAME_LENGTH <? str_len value) ValueError;
  _ ← raise_if (_UNSAFE_PATTERN value) ValueError;
  Ok value.

Definition _ISO9660_LABEL_MAX_LEN : Z := 32.

(** The label before its length is checked. *)
Definition label_text (prefix media_type year : string) (seq_num : Z) : string :=
  let media_short := str_replace "BDXL" "BX" (str_replace "MDISC" "MD" media_type) in
  let width := Z.max 4 (str_len (str_of_int seq_num)) in
  (prefix +:+ "_" +:+ media_short +:+ "_" +:+ year +:+ "_" +:+ format_0d width seq_num)%string.
Definition generate_volume_label (prefix media_type year : string) (seq_num : Z) : res string :=
  let label := label_text prefix media_type year seq_num in
  _ ← raise_if (_ISO9660_LABEL_MAX_LEN <? str_len label) ValueError;
  Ok label.

(** The body of the loop of [next_seq_num]. *)
Definition seq_step (prefix : string) (max_seq : Z) (label : string) : Z :=
  let parts := split_on "_" label in
  if (4 <=? len parts) && bool_decide (head parts = Some prefix) then
    match py_int (List.last parts EmptyString) with
    | Ok seq => Z.max max_seq seq
    | Err _ => max_seq
    end
  else max_seq.
Definition next_seq_num (existing_labels : list string) (prefix : string) : Z :=
  foldl (seq_step prefix) 0 existing_labels + 1.

(** ** Lemmas *)

Lemma seq_step_ge prefix m l : m <= seq_step prefix m l.
Proof.
  unfold seq_step. destruct (_ && _); [|lia]. destruct (py_int _); lia.
Qed.
Lemma seq_fold_ge prefix ls m : m <= foldl (seq_step prefix) m ls.
Proof.
  revert m. induction ls as [|l ls IH]; intros m; cbn [foldl]; [lia|].
  pose proof (IH (seq_step prefix m l)). pose proof (seq_step_ge prefix m l). lia.
Qed.
(** The number of every label counts. *)
Lemma seq_fold_elem prefix ls m l n :
  l ∈ ls -> (forall m, n <= seq_step prefix m l) -> n <= foldl (seq_step prefix) m ls.
Proof.
  intros Hl Hn. revert m. induction Hl as [l ls|l l' ls _ IH]; intros m; cbn [foldl]; [|auto].
  pose proof (seq_fold_ge prefix ls (seq_step prefix m l)). specialize (Hn m). lia.
Qed.
Lemma next_seq_num_pos ls prefix : 1 <= next_seq_num ls prefix.
Proof. unfold next_seq_num. pose proof (seq_fold_ge prefix ls 0). lia. Qed.

(** The parts of a generated label. *)
Lemma label_text_parts prefix media year n :
  lacks "_" prefix = true -> 0 <= n ->
  exists ps, split_on "_" (label_text prefix media year n) =
    prefix :: ps ++ [format_0d (Z.max 4 (str_len (str_of_int n))) n] /\ 2 <= len ps.
Proof.
  intros Hp Hn. unfold label_text. set (m := str_replace _ _ _). set (w := Z.max _ _).
  destruct (format_0d_digits w n Hn) as (k & _ & Hd).
  change (prefix +:+ "_" +:+ m +:+ "_" +:+ year +:+ "_" +:+ format_0d w n)%string
    with (prefix +:+ String "_" (m +:+ String "_" (year +:+ String "_" (format_0d w n))))%string.
  rewrite split_on_cons by done. rewrite !split_on_app.
  rewrite (split_on_lacks _ (format_0d w n)) by by apply lacks_digits.
  exists (split_on "_" m ++ split_on "_" year). split; [by rewrite <- app_assoc|].
  pose proof (split_on_not_nil "_" m). pose proof (split_on_not_nil "_" year).
  rewrite length_app. destruct (split_on "_" m), (split_on "_" year); cbn [length]; try done; lia.
Qed.
Lemma seq_step_label prefix media year n m :
  lacks "_" prefix = true -> 0 <= n -> str_len (label_text prefix media year n) <= 4300 ->
  n <= seq_step prefix m (label_text prefix media year n).
Proof.
  intros Hp Hn Hlen. destruct (label_text_parts prefix media year n Hp Hn) as (ps & E & Hps).
  unfold seq_step. rewrite E. rewrite bool_decide_true by done.
  destruct (Z.leb_spec 4 (len (prefix :: ps ++ [format_0d (Z.max 4 (str_len (str_of_int n))) n]))) as [_|Hc].
  - rewrite app_comm_cons, last_last. rewrite py_int_format; [apply Z.le_max_r|done|].
    unfold label_text in Hlen. rewrite !length_string_app in Hlen.
    unfold str_len in *. lia.
  - cbn [length] in Hc. rewrite length_app in Hc. cbn [length] in Hc. lia.
Qed.

(** The label of a later number is not among the labels the number was taken
    from. *)
Lemma next_label_fresh ls prefix media year i l :
  lacks "_" prefix = true -> 0 <= i ->
  generate_volume_label prefix media year (next_seq_num ls prefix + i) = Ok l -> l ∉ ls.
Proof.
  intros Hp Hi Hl Hin. set (n := next_seq_num ls prefix + i) in *.
  pose proof (next_seq_num_pos ls prefix). unfold generate_volume_label in Hl.
  apply bind_Ok_inv in Hl as (u & Hlen%raise_if_Ok & [= <-]).
  apply Z.ltb_ge in Hlen. unfold _ISO9660_LABEL_MAX_LEN in Hlen.
  assert (n <= foldl (seq_step prefix) 0 ls); [|unfold next_seq_num in n; lia].
  eapply seq_fold_elem; [exact Hin|]. intros m. apply seq_step_label; [done|lia|lia].
Qed.

(** A prefix with an underscore is never the first part of a label. *)
Lemma seq_step_underscore prefix m l : lacks "_" prefix = false -> seq_step prefix m l = m.
Proof.
  intros Hp. unfold seq_step. destruct (split_on_first_lacks "_" l) as (p & ps & -> & Hl).
  rewrite (bool_decide_false (head (p :: ps) = Some prefix)); [by rewrite andb_false_r|].
  cbn. intros [= ->]. congruence.
Qed.
Lemma next_seq_num_underscore ls prefix : lacks "_" prefix = false -> next_seq_num ls prefix = 1.
Proof.
  intros Hp. unfold next_seq_num. assert (foldl (seq_step prefix) 0 ls = 0) as ->; [|done].
  generalize 0. induction ls as [|l ls IH]; intros m; cbn [foldl]; [done|].
  by rewrite seq_step_underscore, IH.
Qed.

(** ** Creating the next volume *)

Definition volume_labels (d : Catalog) : list string := label <$> list_volumes None d.
Lemma elem_of_volume_labels d l : l ∈ volume_labels d <-> exists v, v ∈ volumes d /\ label v = l.
Proof.
  unfold volume_labels, list_volumes. rewrite list_elem_of_fmap.
  setoid_rewrite elem_of_order_by. setoid_rewrite elem_of_where. naive_solver.
Qed.

Lemma create_volume_Ok lab uid media cap loc st now cm c :
  catalog_wf (current c) -> lab ∉ label <$> volumes (current c) ->
  uid ∉ uuid <$> volumes (current c) -> sql_in st VOLUME_STATUSES = true ->
  let v := mkVolume (seq_volumes (current c) + 1) lab uid media cap 0 loc st now None None in
  let '(r, c') := create_volume lab uid media cap loc st now cm c in
  r = Ok v /\ volumes (current c') = volumes (current c) ++ [v].
Proof.
  intros W Hl Hu Hst v. unfold create_volume, mbind, db_bind, execute, insert_volume.
  assert (exists_row (fun v => sql_eq (label v) lab || sql_eq (uuid v) uid) (volumes (current c)) = false)
    as Hno.
  { apply exists_row_false. intros x Hx. apply orb_false_iff. sql. split; intros <-.
    - by apply Hl, list_elem_of_fmap_2.
    - by apply Hu, list_elem_of_fmap_2. }
  assert (insert_volume lab uid media cap loc st now (current c) = Ok (volume_id v,
    set_seqs (set_volumes (current c) (volumes (current c) ++ [v])) (volume_id v)
      (seq_packs (current c)) (seq_copies (current c)) (seq_events (current c)))) as Hi.
  { unfold insert_volume. by rewrite Hno, Hst. }
  pose proof (wf_insert_volume _ W _ _ _ _ _ _ _ _ _ Hi) as W'.
  unfold insert_volume in Hi. rewrite Hi.
  set (d' := set_seqs _ _ _ _ _) in *. cbn [mret].
  assert (find_volume d' (volume_id v) = Some v) as Hf.
  { apply find_volume_Some; [done|]. split; [|done]. cbn. apply elem_of_app. right. left. }
  destruct cm; cbn -[get_volume_by_id]; by rewrite (get_volume_by_id_Ok _ _ v).
Qed.

(** A label that exists is refused. *)
Lemma create_volume_taken lab uid media cap loc st now cm c :
  lab ∈ label <$> volumes (current c) ->
  create_volume lab uid media cap loc st now cm c =
    (Err SqliteIntegrityError, mkConn (committed c) (current c) true).
Proof.
  intros (v & -> & Hv)%list_elem_of_fmap.
  unfold create_volume, mbind, db_bind, execute, insert_volume.
  rewrite (proj2 (exists_row_true _ _)); [done|]. exists v. split; [done|].
  apply orb_true_iff. left. by sql.
Qed.

(** The volumes of a burn are labelled with the numbers from [next_seq_num]
    on, taken from the labels in the catalog.  When the prefix has no underscore,
    each such label is new, and [create_volume] with it and a new UUID succeeds and
    appends exactly one volume of that label. *)
Theorem next_label_created c prefix media year i l uid cap loc st now cm :
  catalog_wf (current c) -> lacks "_" prefix = true -> 0 <= i ->
  generate_volume_label prefix media year
    (next_seq_num (volume_labels (current c)) prefix + i) = Ok l ->
  uid ∉ uuid <$> volumes (current c) -> sql_in st VOLUME_STATUSES = true ->
  let '(r, c') := create_volume l uid media cap loc st now cm c in
  exists v, r = Ok v /\ label v = l /\ status v = st /\
    volumes (current c') = volumes (current c) ++ [v].
Proof.
  intros W Hp Hi Hl Hu Hst. apply next_label_fresh in Hl; [|done..].
  pose proof (create_volume_Ok l uid media cap loc st now cm c W) as H.
  destruct (create_volume _ _ _ _ _ _ _ _ c) as [r c']. destruct H as [-> Hv]; [|done..|by eauto].
  intros (v & -> & Hin)%list_elem_of_fmap. apply Hl, elem_of_volume_labels. eauto.
Qed.

(** config/settings.py accepts a [label_prefix] with an underscore, and
    [next_seq_num] compares the prefix with the part of a label before the first
    underscore.  With such a prefix the number is always 1: once the first volume
    of a year and medium exists, its label is generated again and [create_volume]
    raises IntegrityError, whatever else the catalog holds. *)
Theorem prefix_underscore_collides c prefix media year l uid cap loc st now cm :
  lacks "_" prefix = false ->
  generate_volume_label prefix media year 1 = Ok l -> l ∈ volume_labels (current c) ->
  next_seq_num (volume_labels (current c)) prefix = 1 /\
  create_volume l uid media cap loc st now cm c =
    (Err SqliteIntegrityError, mkConn (committed c) (current c) true).
Proof.
  intros Hp Hl (v & Hv & <-)%elem_of_volume_labels. split.
  - by apply next_seq_num_underscore.
  - apply create_volume_taken, list_elem_of_fmap. eauto.
Qed.

(** A validated name can be used as one path component: it is not empty, at most
    128 characters, without separators, [..] or NUL. *)
Lemma sanitize_name_Ok value s :
  sanitize_name value = Ok s <->
  s = strip value /\ s <> EmptyString /\ str_len s <= 128 /\ _UNSAFE_PATTERN s = false.
Proof.
  unfold sanitize_name, _MAX_NAME_LENGTH. cbv zeta. split.
  - intros (u & H1 & (u' & H2 & (u'' & H3 & [= <-])%bind_Ok_inv)%bind_Ok_inv)%bind_Ok_inv.
    apply raise_if_Ok in H1, H2, H3. apply String.eqb_neq in H1. split; [done|].
    split; [done|]. split; [lia|done].
  - intros (-> & H1 & H2 & H3). apply String.eqb_neq in H1. rewrite H1, H3.
    destruct (Z.ltb_spec 128 (str_len (strip value))); [lia|done].
Qed.

(** ** Concrete labels *)

Example label_bd25 : generate_volume_label "LCSAS" "BD25" "2026" 1 = Ok "LCSAS_BD25_2026_0001".
Proof. reflexivity. Qed.
Example label_mdisc : generate_volume_label "LCSAS" "MDISC100" "2026" 12345
  = Ok "LCSAS_MD100_2026_12345".
Proof. reflexivity. Qed.
Example label_too_long : generate_volume_label "A_VERY_LONG_ARCHIVE_NAME" "BD25" "2026" 1
  = Err ValueError.
Proof. reflexivity. Qed.
Example next_of_labels :
  next_seq_num ["LCSAS_BD25_2026_0007"; "OTHER_BD25_2026_0042"; "LCSAS_META"] "LCSAS" = 8.
Proof. reflexivity. Qed.
Example sanitize_examples :
  sanitize_name "  Home Shelf " = Ok "Home Shelf" /\ sanitize_name "../x" = Err ValueError.
Proof. split; reflexivity. Qed.

Definition labelled_conn (l : string) : Conn Catalog :=
  let d := mkCatalog [demo_volume 1 l "VERIFIED" "Home"] [] [] [] [] [] [] [] [] [] 1 0 0 0 (Some []) in
  mkConn d d false.

Lemma next_label_created_witness :
  let '(r, c') := create_volume "LCSAS_BD25_2026_0009" "new" "BD25" 100 "Home" "STAGING" "now" true
                    (labelled_conn "LCSAS_BD25_2026_0007") in
  exists v, r = Ok v /\ label v = "LCSAS_BD25_2026_0009" /\ status v = "STAGING" /\
    volumes (current c') = volumes (current (labelled_conn "LCSAS_BD25_2026_0007")) ++ [v].
Proof.
  apply (next_label_created (labelled_conn "LCSAS_BD25_2026_0007") "LCSAS" "BD25" "2026" 1);
    [|reflexivity|lia|reflexivity| |reflexivity].
  - constructor; try constructor; apply (bool_decide_unpack _); vm_compute; exact I.
  - apply (bool_decide_unpack _); vm_compute; exact I.
Defined.

Lemma prefix_underscore_collides_witness :
  next_seq_num (volume_labels (current (labelled_conn "MY_ARCHIVE_BD25_2026_0001"))) "MY_ARCHIVE" = 1 /\
  create_volume "MY_ARCHIVE_BD25_2026_0001" "new" "BD25" 100 "Home" "STAGING" "now" true
      (labelled_conn "MY_ARCHIVE_BD25_2026_0001") =
    (Err SqliteIntegrityError,
     mkConn (committed (labelled_conn "MY_ARCHIVE_BD25_2026_0001"))
       (current (labelled_conn "MY_ARCHIVE_BD25_2026_0001")) true).
Proof.
  apply (prefix_underscore_collides _ "MY_ARCHIVE" "BD25" "2026"); [reflexivity..|].
  apply (bool_decide_unpack _); vm_compute; exact I.
Defined.
