(* ===== verification/VolumeCopies.v ===== *)
(** * Discs of a volume

    [db/volume_copies.py]: one record per burned disc and its location, the
    demotion of a volume whose last disc in service is gone. *)

From S2P Require Import Prelude Sqlite Catalog VolumeEvents Queries Volumes.
Open Scope string_scope.
Open Scope list_scope.
Open Scope Z_scope.

Definition at_place (v : Z) (loc : string) (c : VolumeCopy) : bool :=
  sql_eq (vc_volume_id c) v && sql_eq (vc_location c) loc.
Definition active_at (v : Z) (loc : string) (c : VolumeCopy) : bool :=
  at_place v loc c && sql_eq (vc_status c) "ACTIVE".

Definition add_volume_copy (v : Z) (loc : string) (date : option string) (note : string)
    (sha : option string) (size : option Z) (verified : option string) (serial now : string)
    (commit : bool) : dbc VolumeCopy :=
  _ ← execute (upsert_copy v loc (default now date) note sha size verified serial);
  _ ← commit_if commit;
  row ← query (fun d => fetchone (where_ (active_at v loc) (volume_copies d)));
  match row with Some c => mret c | None => raise RuntimeError end.

Definition get_volume_copy (i : Z) : dbc VolumeCopy :=
  row ← query (fun d => fetchone (where_ (fun c => sql_eq (copy_id c) i) (volume_copies d)));
  match row with Some c => mret c | None => raise ValueError end.

Definition get_copies_for_volume (v : Z) (active_only : bool) (d : Catalog) : list VolumeCopy :=
  where_ (fun c => sql_eq (vc_volume_id c) v &&
                   (if active_only then sql_eq (vc_status c) "ACTIVE" else true)) (volume_copies d).
Definition get_copies_at_location (loc : string) (active_only : bool) (d : Catalog) :
    list VolumeCopy :=
  where_ (fun c => sql_eq (vc_location c) loc &&
                   (if active_only then sql_eq (vc_status c) "ACTIVE" else true)) (volume_copies d).

(** The truth value of a string or of None. *)
Definition truthy (s : option string) : bool :=
  match s with Some s => negb (sql_eq s EmptyString) | None => false end.
Definition get_iso_sha256_for_label (lab : string) (d : Catalog) : option string :=
  match get_volume_by_label lab d with
  | None => None
  | Some vol =>
      match List.find (fun c => truthy (iso_sha256 c))
              (get_copies_for_volume (volume_id vol) false d) with
      | Some c => iso_sha256 c
      | None =>
          let rows := sv ← where_ (fun sv => sql_eq (sv_volume_id sv) (volume_id vol) &&
                             bool_decide (is_Some (sv_iso_sha256 sv))) (session_volumes d);
                      (fun bs => (bs, sv)) <$>
                        where_ (fun bs => sql_eq (session_id bs) (sv_session_id sv)) (burn_sessions d) in
          match fetchone (order_by (fun x y => String.leb (bs_created_at y.1) (bs_created_at x.1)) rows) with
          | Some (_, sv) => if truthy (sv_iso_sha256 sv) then sv_iso_sha256 sv else None
          | None => None
          end
      end
  end.

(** The note appended by a move; [char(10)] ends it.  The event's detail is the
    JSON text of the two locations, made by [json_dumps]. *)
Definition move_note (from now : string) (c : VolumeCopy) : string :=
  (notes c ++ "Moved from " ++ from ++ " on " ++ now ++ String (Ascii.ascii_of_nat 10) "")%string.

Section move.
Variable json_dumps : string -> string -> string.

Definition move_volume_copy (v : Z) (from to now : string) : dbc unit :=
  rowcount ← (fun c =>
      match execute (move_copies (active_at v from) to (move_note from now)) c with
      | (Err e, c') => (Err (if decide (e = SqliteIntegrityError) then ValueError else e), c')
      | r => r
      end);
  if rowcount =? 0 then raise ValueError
  else
    _ ← execute (insert_event v "LOCATION_MOVE" now (Some to) (json_dumps from to));
    commit.
End move.

Definition touch_last_verified (v : Z) (loc now : string) (commit : bool) : dbc bool :=
  rowcount ← execute (update_copies (active_at v loc) (set_copy_verified now));
  _ ← commit_if commit;
  mret (0 <? rowcount).

(** Discs not verified since [cutoff]: never-verified ones first. *)
Definition stale_order (x y : Volume * VolumeCopy) : bool :=
  lex (fun x y => Z.compare (match last_verified_at x.2 with Some _ => 1 | None => 0 end)
                            (match last_verified_at y.2 with Some _ => 1 | None => 0 end))
    (lex (fun x y => match last_verified_at x.2, last_verified_at y.2 with
                     | Some s, Some t => String.compare s t | _, _ => Eq end)
       (lex (fun x y => String.compare (label x.1) (label y.1))
          (fun x y => String.leb (vc_location x.2) (vc_location y.2)))) x y.
Definition find_stale_copies (cutoff : string) (d : Catalog) :
    list (string * string * option string) :=
  (fun r => (label r.1, vc_location r.2, last_verified_at r.2)) <$>
    order_by stale_order
      (c ← where_ (fun c => sql_eq (vc_status c) "ACTIVE" &&
              match last_verified_at c with Some t => String.ltb t cutoff | None => true end)
             (volume_copies d);
       (fun v => (v, c)) <$> where_ (fun v => sql_eq (volume_id v) (vc_volume_id c) && in_service v)
                              (volumes d)).

(** ** Discs that go out of service *)

Definition demotion_note (action loc : string) : string :=
  (AUTO_DEPRECATED_NOTE_PREFIX ++ " last in-service disc " ++ action ++ " at " ++ loc)%string.

Definition _demote_volume_if_last_copy_lost (v : Z) (loc action now : string) : dbc bool :=
  total ← query (fun d => count_where (fun c => sql_eq (vc_volume_id c) v) (volume_copies d));
  active ← query (fun d => count_where (fun c => sql_eq (vc_volume_id c) v &&
                                          sql_eq (vc_status c) "ACTIVE") (volume_copies d));
  if (total =? 0) || (0 <? active) then mret false
  else
    rowcount ← execute (update_volumes (fun x => sql_eq (volume_id x) v && in_service x)
                          (set_status "DEPRECATED"));
    if rowcount =? 0 then mret false
    else
      _ ← add_event v "NOTE" (Some loc) (demotion_note action loc) None now false;
      mret true.

Definition _record_disc_fate (v : Z) (loc fate now : string) : dbc VolumeEvent :=
  add_event v "NOTE" (Some loc) ("disc at " ++ loc ++ " recorded as " ++ fate)%string None now
    false.

Definition deprecate_copy (v : Z) (loc now : string) : dbc bool :=
  rowcount ← execute (update_copies (active_at v loc) (set_copy_status "DEPRECATED"));
  if rowcount =? 0 then raise ValueError
  else
    _ ← _record_disc_fate v loc "deprecated (out of service)" now;
    demoted ← _demote_volume_if_last_copy_lost v loc "deprecated" now;
    _ ← commit;
    mret demoted.

Definition destroy_copy (v : Z) (loc : string) (lost : bool) (now : string) : dbc bool :=
  rowcount ← execute (update_copies (at_place v loc) (set_copy_status "DESTROYED"));
  if rowcount =? 0 then raise ValueError
  else
    let action := if lost then "lost" else "destroyed" in
    _ ← _record_disc_fate v loc (if lost then "lost (whereabouts unknown)" else "destroyed") now;
    demoted ← _demote_volume_if_last_copy_lost v loc action now;
    _ ← commit;
    mret demoted.

(** ** Well-formedness is kept *)

Lemma keeps_update_copies p f :
  (forall c, copy_id (f c) = copy_id c /\ vc_volume_id (f c) = vc_volume_id c /\
     vc_location (f c) = vc_location c) ->
  keeps catalog_wf (execute (update_copies p f)).
Proof. intros Hf. keeps. by eapply wf_update_copies. Qed.
Lemma keeps_update_volumes p f :
  (forall v, volume_id (f v) = volume_id v /\ label (f v) = label v /\ uuid (f v) = uuid v) ->
  keeps catalog_wf (execute (update_volumes p f)).
Proof. intros Hf. keeps. by eapply wf_update_volumes. Qed.
#[export] Hint Extern 1 (keeps _ (execute (update_copies _ _))) =>
  apply keeps_update_copies; intros; repeat split : keeps.
#[export] Hint Extern 1 (keeps _ (execute (update_volumes _ _))) =>
  apply keeps_update_volumes; intros; repeat split : keeps.

Lemma keeps_demote v loc action now :
  keeps catalog_wf (_demote_volume_if_last_copy_lost v loc action now).
Proof. unfold _demote_volume_if_last_copy_lost. keeps. Qed.
#[export] Hint Resolve keeps_demote : keeps.
Lemma keeps_deprecate_copy v loc now : keeps catalog_wf (deprecate_copy v loc now).
Proof. unfold deprecate_copy, _record_disc_fate. keeps. Qed.
Lemma keeps_destroy_copy v loc lost now : keeps catalog_wf (destroy_copy v loc lost now).
Proof. unfold destroy_copy, _record_disc_fate. keeps. Qed.
Lemma keeps_touch v loc now cm : keeps catalog_wf (touch_last_verified v loc now cm).
Proof. unfold touch_last_verified. keeps. Qed.
Lemma keeps_add_volume_copy v loc date note sha size ver ser now cm :
  keeps catalog_wf (add_volume_copy v loc date note sha size ver ser now cm).
Proof. unfold add_volume_copy. keeps. by eapply wf_upsert_copy. Qed.
Lemma keeps_move json v from to now : keeps catalog_wf (move_volume_copy json v from to now).
Proof.
  unfold move_volume_copy. keeps; [|by eapply wf_insert_event].
  intros c W1 W2. unfold execute.
  destruct (move_copies _ _ _ _) as [[n d]|e] eqn:E; cbn; [|done].
  split; [done|]. by eapply wf_move_copies.
Qed.

(** ** What taking a disc out of service does *)

(** One NOTE event at a place. *)
Definition append_place_note (d : Catalog) (v : Z) (loc det now : string) : Catalog :=
  set_seqs (set_events d (volume_events d ++
      [mkVolumeEvent (seq_events d + 1) v "NOTE" now (Some loc) det]))
    (seq_volumes d) (seq_packs d) (seq_copies d) (seq_events d + 1).

(** Disc records exist, and none is ACTIVE. *)
Definition all_discs_gone (d : Catalog) (v : Z) : bool :=
  exists_row (fun c => sql_eq (vc_volume_id c) v) (volume_copies d) &&
  negb (exists_row (fun c => sql_eq (vc_volume_id c) v && sql_eq (vc_status c) "ACTIVE")
          (volume_copies d)).
Definition demote_row (v : Z) (x : Volume) : bool := sql_eq (volume_id x) v && in_service x.
Definition demoted_catalog (d : Catalog) (v : Z) (loc action now : string) : Catalog :=
  append_place_note
    (set_volumes d (update_where (demote_row v) (set_status "DEPRECATED") (volumes d)))
    v loc (demotion_note action loc) now.

Lemma count_where_exists {A} (p : A -> bool) l : (0 <? count_where p l) = exists_row p l.
Proof.
  destruct (exists_row p l) eqn:E.
  - apply Z.ltb_lt. assert (count_where p l <> 0) as Hne.
    { intros H0. apply exists_row_true in E as (x & Hx & Hp).
      pose proof (proj1 (count_where_zero p l) H0 x Hx). congruence. }
    pose proof (count_where_nonneg p l). lia.
  - apply Z.ltb_ge. enough (count_where p l = 0) by lia. apply count_where_zero.
    by apply exists_row_false.
Qed.
Lemma count_where_zero_exists {A} (p : A -> bool) l : (count_where p l =? 0) = negb (exists_row p l).
Proof.
  rewrite <- count_where_exists. pose proof (count_where_nonneg p l).
  destruct (Z.eqb_spec (count_where p l) 0), (Z.ltb_spec 0 (count_where p l)); cbn; lia || done.
Qed.

Lemma place_note_Ok c v loc det now :
  catalog_wf (current c) -> v ∈ volume_ids (current c) -> loc ∈ location_names (current c) ->
  exists e, add_event v "NOTE" (Some loc) det None now false c
    = (Ok e, mkConn (committed c) (append_place_note (current c) v loc det now) true).
Proof.
  intros W Hv Hl. rewrite add_event_Ok; [eauto|done|done|by apply sql_in_true|done].
Qed.

Lemma demoted_rows_wf d v :
  catalog_wf d ->
  catalog_wf (set_volumes d (update_where (demote_row v) (set_status "DEPRECATED") (volumes d))).
Proof.
  intros W. apply wf_set_volumes; [done|symmetry; by apply update_where_key..|].
  apply Forall_update_where; [eapply Forall_impl; [apply W|]; by intros ? []|].
  intros x _ _. by apply sql_in_true.
Qed.

(** The demotion, as one function of the catalog. *)
Lemma demote_spec c v loc action now :
  catalog_wf (current c) -> v ∈ volume_ids (current c) -> loc ∈ location_names (current c) ->
  let b := all_discs_gone (current c) v && exists_row (demote_row v) (volumes (current c)) in
  exists t, _demote_volume_if_last_copy_lost v loc action now c
    = (Ok b, mkConn (committed c)
               (if b then demoted_catalog (current c) v loc action now else current c) t).
Proof.
  intros W Hv Hl b. unfold _demote_volume_if_last_copy_lost.
  rewrite !(db_bind_Ok _ _ c _ c) by done.
  rewrite count_where_zero_exists, count_where_exists.
  destruct c as [d0 d t]. cbn [current committed in_transaction] in *.
  subst b. unfold all_discs_gone.
  destruct (exists_row _ (volume_copies d)) eqn:E1; cbn [negb orb andb]; [|by exists t].
  destruct (exists_row (fun c => _ && _) (volume_copies d)) eqn:E2; cbn [negb orb andb]; [by exists t|].
  change (fun x => sql_eq (volume_id x) v && in_service x) with (demote_row v).
  assert (execute (update_volumes (demote_row v) (set_status "DEPRECATED")) (mkConn d0 d t)
    = (Ok (count_where (demote_row v) (volumes d)),
       mkConn d0 (set_volumes d (update_where (demote_row v) (set_status "DEPRECATED") (volumes d)))
         true)) as He.
  { unfold execute, update_volumes. cbn [current committed].
    rewrite (proj2 (exists_row_false _ _)); [done|]. intros x Hx.
    apply negb_false_iff, sql_in_true. pose proof (wf_volume_row _ (demoted_rows_wf d v W)) as Hr.
    rewrite Forall_forall in Hr. by apply Hr in Hx as []. }
  rewrite (db_bind_Ok _ _ _ _ _ He), count_where_zero_exists.
  destruct (exists_row (demote_row v) (volumes d)) eqn:E3; cbn [negb].
  - destruct (place_note_Ok (mkConn d0 (set_volumes d (update_where (demote_row v)
        (set_status "DEPRECATED") (volumes d))) true) v loc (demotion_note action loc) now)
      as [e He'].
    + by apply demoted_rows_wf.
    + cbn. by rewrite update_where_key.
    + done.
    + rewrite (db_bind_Ok _ _ _ _ _ He'). by exists true.
  - exists true. f_equal. f_equal. destruct d. unfold set_volumes. cbn in *. f_equal.
    unfold update_where. rewrite <- (list_fmap_id volumes) at 2. apply list_fmap_ext.
    intros i x Hx. apply list_elem_of_lookup_2 in Hx. by rewrite (proj1 (exists_row_false _ _) E3 x Hx).
Qed.

(** The three fates [lcsas copy] records for a disc. *)
Inductive disc_fate := Deprecated | Destroyed | Lost.
Definition retire (f : disc_fate) (v : Z) (loc now : string) : dbc bool :=
  match f with
  | Deprecated => deprecate_copy v loc now
  | Destroyed => destroy_copy v loc false now
  | Lost => destroy_copy v loc true now
  end.
Definition fate_rows (f : disc_fate) (v : Z) (loc : string) : VolumeCopy -> bool :=
  match f with Deprecated => active_at v loc | _ => at_place v loc end.
Definition fate_status (f : disc_fate) : string :=
  match f with Deprecated => "DEPRECATED" | _ => "DESTROYED" end.
Definition fate_action (f : disc_fate) : string :=
  match f with Deprecated => "deprecated" | Destroyed => "destroyed" | Lost => "lost" end.
Definition fate_text (f : disc_fate) : string :=
  match f with Deprecated => "deprecated (out of service)" | Destroyed => "destroyed"
  | Lost => "lost (whereabouts unknown)" end.

Definition fate_catalog (d : Catalog) (f : disc_fate) (v : Z) (loc now : string) : Catalog :=
  append_place_note
    (set_copies d (update_where (fate_rows f v loc) (set_copy_status (fate_status f))
                     (volume_copies d)))
    v loc ("disc at " ++ loc ++ " recorded as " ++ fate_text f)%string now.

Lemma at_place_true v loc c :
  at_place v loc c = true <-> vc_volume_id c = v /\ vc_location c = loc.
Proof. unfold at_place. by rewrite andb_true_iff, !sql_eq_true. Qed.
Lemma fate_rows_place f v loc c : fate_rows f v loc c = true -> at_place v loc c = true.
Proof. destruct f; cbn; [|done..]. unfold active_at. by rewrite andb_true_iff; intros []. Qed.

Lemma fate_copies_wf d f v loc :
  catalog_wf d ->
  catalog_wf (set_copies d (update_where (fate_rows f v loc) (set_copy_status (fate_status f))
                              (volume_copies d))).
Proof.
  intros W. apply wf_set_copies; [done|rewrite update_where_key by done; apply W..|].
  apply Forall_update_where; [apply W|]. intros c (?&?&?&?) _. cbn. split_and!; [done..|].
  apply sql_in_true. by destruct f.
Qed.
Lemma fate_catalog_wf d f v loc now :
  catalog_wf d -> v ∈ volume_ids d -> loc ∈ location_names d ->
  catalog_wf (fate_catalog d f v loc now).
Proof.
  intros W Hv Hl. pose proof (fate_copies_wf d f v loc W) as W'.
  eapply (wf_insert_event _ W' v "NOTE" now (Some loc)
            ("disc at " ++ loc ++ " recorded as " ++ fate_text f)%string).
  rewrite insert_event_Ok; [reflexivity|done|by apply sql_in_true|done].
Qed.

Lemma copy_place_known d v loc c :
  catalog_wf d -> c ∈ volume_copies d -> at_place v loc c = true ->
  v ∈ volume_ids d /\ loc ∈ location_names d.
Proof.
  intros W Hc [<- <-]%at_place_true. pose proof (wf_copy_row _ W) as Hr.
  rewrite Forall_forall in Hr. by apply Hr in Hc as (_&?&?&_).
Qed.

(** All three operations, as one function of the catalog. *)
Lemma retire_result c f v loc now :
  catalog_wf (current c) ->
  let d := current c in
  retire f v loc now c
  = if exists_row (fate_rows f v loc) (volume_copies d) then
      let d2 := fate_catalog d f v loc now in
      let b := all_discs_gone d2 v && exists_row (demote_row v) (volumes d2) in
      let d' := if b then demoted_catalog d2 v loc (fate_action f) now else d2 in
      (Ok b, mkConn d' d' false)
    else (Err ValueError, mkConn (committed c) d true).
Proof.
  intros W d. destruct c as [d0 dc t]. cbn [current] in *. subst d.
  assert (retire f v loc now
    = (rowcount ← execute (update_copies (fate_rows f v loc) (set_copy_status (fate_status f)));
       if rowcount =? 0 then raise ValueError
       else
         _ ← _record_disc_fate v loc (fate_text f) now;
         demoted ← _demote_volume_if_last_copy_lost v loc (fate_action f) now;
         _ ← commit; mret demoted)) as -> by (by destruct f).
  assert (execute (update_copies (fate_rows f v loc) (set_copy_status (fate_status f)))
            (mkConn d0 dc t)
    = (Ok (count_where (fate_rows f v loc) (volume_copies dc)),
       mkConn d0 (set_copies dc (update_where (fate_rows f v loc) (set_copy_status (fate_status f))
                     (volume_copies dc))) true)) as He.
  { unfold execute, update_copies. cbn [current committed].
    rewrite (proj2 (exists_row_false _ _)); [done|]. intros x Hx.
    apply negb_false_iff, sql_in_true. pose proof (wf_copy_row _ (fate_copies_wf dc f v loc W)) as Hr.
    rewrite Forall_forall in Hr. by apply Hr in Hx as (_&_&_&?). }
  rewrite (db_bind_Ok _ _ _ _ _ He), count_where_zero_exists.
  destruct (exists_row (fate_rows f v loc) (volume_copies dc)) eqn:E; cbn [negb].
  - pose proof E as (x & Hx & Hp%fate_rows_place)%exists_row_true.
    destruct (copy_place_known dc v loc x W Hx Hp) as [Hv Hl].
    destruct (place_note_Ok (mkConn d0 (set_copies dc (update_where (fate_rows f v loc)
        (set_copy_status (fate_status f)) (volume_copies dc))) true) v loc
        ("disc at " ++ loc ++ " recorded as " ++ fate_text f)%string now) as [e He'];
      [by apply fate_copies_wf|done|done|].
    unfold _record_disc_fate. rewrite (db_bind_Ok _ _ _ _ _ He').
    change (append_place_note _ _ _ _ _) with (fate_catalog dc f v loc now).
    destruct (demote_spec (mkConn d0 (fate_catalog dc f v loc now) true) v loc (fate_action f) now)
      as [t' Hd]; [by apply fate_catalog_wf|done|done|].
    rewrite (db_bind_Ok _ _ _ _ _ Hd). reflexivity.
  - cbn. unfold raise. f_equal. f_equal. destruct dc. unfold set_copies. cbn in *. f_equal.
    unfold update_where. rewrite <- (list_fmap_id volume_copies) at 2. apply list_fmap_ext.
    intros i x Hx. apply list_elem_of_lookup_2 in Hx. by rewrite (proj1 (exists_row_false _ _) E x Hx).
Qed.

Lemma all_discs_gone_row d x :
  all_discs_gone d (volume_id x) = has_copies d x && negb (has_active_copy d x).
Proof. reflexivity. Qed.

Lemma retired_copies d f v loc now x :
  x ∈ volume_copies (fate_catalog d f v loc now) ->
  fate_rows f v loc x = true -> vc_status x = fate_status f.
Proof.
  intros (y & Hy & ->)%elem_of_update_where. destruct (fate_rows f v loc y) eqn:E; [done|congruence].
Qed.

(** The volume rows after a retirement. *)
Lemma retired_volume d d2 v loc action now x :
  volume_copies d2 = volume_copies d -> 
  all_discs_gone d2 v = true ->
  x ∈ volumes (demoted_catalog d2 v loc action now) -> volume_id x = v -> in_service x = false.
Proof.
  intros _ _ (y & Hy & ->)%elem_of_update_where Hi.
  destruct (demote_row v y) eqn:E; [by destruct y|]. unfold demote_row in E.
  rewrite (proj2 (sql_eq_true _ _) Hi) in E. done.
Qed.

(** ** Properties *)

(** Recording what became of a disc ([deprecate_copy], [destroy_copy], the
    latter also for a lost disc).  When no such disc is recorded the operation
    raises [ValueError] and changes nothing.  Otherwise everything is
    committed, the disc has its new status, every other disc is untouched,
    and a volume left without an ACTIVE disc is out of service: it keeps
    DEPRECATED or DESTROYED if it had it (a DESTROYED volume is never
    resurrected), and otherwise the result is True, it is DEPRECATED and it is
    listed as lost.  If a disc is left, no volume row changes. *)
Theorem retire_spec c f v loc now :
  catalog_wf (current c) ->
  let d := current c in
  let '(r, c') := retire f v loc now c in
  let d' := current c' in
  match r with
  | Err e => e = ValueError /\ exists_row (fate_rows f v loc) (volume_copies d) = false /\
             d' = d /\ committed c' = committed c
  | Ok b =>
      exists_row (fate_rows f v loc) (volume_copies d) = true /\ committed c' = d' /\
      volume_copies d' = update_where (fate_rows f v loc) (set_copy_status (fate_status f))
                           (volume_copies d) /\
      (forall x, x ∈ volumes d' -> volume_id x = v -> has_active_copy d' x = false ->
         in_service x = false) /\
      (b = true -> v ∈ get_lost_volume_ids d' /\
         exists x, x ∈ volumes d /\ volume_id x = v /\ in_service x = true /\
           volumes d' = update_where (demote_row v) (set_status "DEPRECATED") (volumes d)) /\
      (b = false -> volumes d' = volumes d)
  end.
Proof.
  intros W d. rewrite (retire_result c f v loc now W). cbv zeta. fold d in W |- *.
  destruct (exists_row (fate_rows f v loc) (volume_copies d)) eqn:E; [|by split_and!].
  set (d2 := fate_catalog d f v loc now).
  destruct (all_discs_gone d2 v) eqn:Hgone; cbn [andb current committed].
  2: { split_and!; [done..| |done|done]. intros x Hx <- Ha. rewrite all_discs_gone_row in Hgone.
       rewrite Ha, andb_true_r in Hgone. exfalso. apply exists_row_true in E as (y & Hy & Hp).
       unfold has_copies in Hgone. pose proof (proj1 (exists_row_false _ _) Hgone
         (set_copy_status (fate_status f) y)) as Hn.
       assert (set_copy_status (fate_status f) y ∈ volume_copies d2) as Hin.
       { apply elem_of_update_where. exists y. by rewrite Hp. }
       specialize (Hn Hin). apply fate_rows_place, at_place_true in Hp as [Hp _].
       apply sql_eq_false in Hn. by apply Hn. }
  destruct (exists_row (demote_row v) (volumes d2)) eqn:Hrow; cbn [andb current committed].
  - split_and!; [done|done|done| | |done].
    + intros x Hx Hi _. by eapply (retired_volume d2 d2).
    + intros _. apply exists_row_true in Hrow as (x & Hx & Hd). split.
      * unfold get_lost_volume_ids. apply list_elem_of_fmap.
        exists (set_status "DEPRECATED" x). pose proof Hd as Hd'. unfold demote_row in Hd'.
        apply andb_true_iff in Hd' as [Hi%sql_eq_elim Hs]. split; [by symmetry|].
        apply elem_of_where. split.
        -- unfold _LOST_VOLUME_SQL. rewrite <- all_discs_gone_row.
           change (all_discs_gone _ _) with (all_discs_gone d2 (volume_id x)). rewrite Hi, Hgone.
           cbn [andb status set_status]. apply orb_true_iff. right.
           rewrite (proj2 (sql_eq_true "DEPRECATED" _) eq_refl). cbn [andb].
           apply exists_row_true. eexists. split; [apply elem_of_app; right; left|].
           cbn [volume_id set_status ev_volume_id event_type].
           by rewrite (proj2 (sql_eq_true v (volume_id x)) (eq_sym Hi)).
        -- apply elem_of_update_where. exists x. by rewrite Hd.
      * exists x. unfold demote_row in Hd. apply andb_true_iff in Hd as [Hi%sql_eq_elim Hs]. done.
  - split_and!; [done|done|done| |done|done]. intros x Hx Hi _.
    pose proof (proj1 (exists_row_false _ _) Hrow x Hx) as Hn. unfold demote_row in Hn.
    by rewrite (proj2 (sql_eq_true _ _) Hi) in Hn.
Qed.

(** Places are keys of the disc records. *)
Lemma place_unique d v loc x y :
  catalog_wf d -> x ∈ volume_copies d -> y ∈ volume_copies d ->
  at_place v loc x = true -> at_place v loc y = true -> x = y.
Proof.
  intros W Hx Hy [H1 H2]%at_place_true [H3 H4]%at_place_true.
  eapply (key_unique (fun c => (vc_volume_id c, vc_location c))); [apply W|done|done|congruence].
Qed.

(** Recording a burned disc.  At a known volume and place
    [add_volume_copy] returns the record of the new disc: ACTIVE, with the given
    date, note and verification time, so nothing of the replaced disc's
    verification survives; but a hash, size or serial the caller does not give
    keeps the value an earlier burn recorded there.  Exactly one record is left
    at the place, the others are untouched, and a new volume or place that does
    not exist raises [IntegrityError] and changes nothing. *)
Theorem add_volume_copy_spec c v loc date note sha size ver ser now cm :
  catalog_wf (current c) ->
  let d := current c in
  let old := fetchone (where_ (at_place v loc) (volume_copies d)) in
  let '(r, c') := add_volume_copy v loc date note sha size ver ser now cm c in
  if bool_decide (is_Some old) || (has_volume d v && has_location d loc) then
    exists x, r = Ok x /\ x ∈ volume_copies (current c') /\ at_place v loc x = true /\
      vc_status x = "ACTIVE" /\ burn_date x = default now date /\ notes x = note /\
      last_verified_at x = ver /\
      iso_sha256 x = match sha with Some h => Some h | None => o ← old; iso_sha256 o end /\
      iso_size_bytes x = match size with Some n => Some n | None => o ← old; iso_size_bytes o end /\
      media_serial x = (if sql_eq ser "" then default "" (media_serial <$> old) else ser) /\
      (forall y, y ∈ volume_copies (current c') -> at_place v loc y = true -> y = x) /\
      (forall y, at_place v loc y = false ->
         y ∈ volume_copies (current c') <-> y ∈ volume_copies d)
  else r = Err SqliteIntegrityError /\ current c' = d /\ committed c' = committed c.
Proof.
  intros W d old.
  set (new := mkVolumeCopy (seq_copies d + 1) v loc "ACTIVE" (default now date) note sha ver ser size).
  (* the row written, and the table it is written to *)
  assert (forall d' x, upsert_copy v loc (default now date) note sha size ver ser d = Ok (tt, d') ->
    x ∈ volume_copies d' -> active_at v loc x = true ->
    (forall y, y ∈ volume_copies d' -> at_place v loc y = true -> y = x) ->
    exists c', add_volume_copy v loc date note sha size ver ser now cm c = (Ok x, c') /\
      current c' = d') as Hrun.
  { intros d' x Hu Hx Ha Huniq. unfold add_volume_copy, execute, query, mbind, db_bind.
    fold d. rewrite Hu.
    assert (fetchone (where_ (active_at v loc) (volume_copies d')) = Some x) as Hf.
    { apply where_unique; [done..|]. intros y Hy Hay. apply Huniq; [done|].
      unfold active_at in Hay. by apply andb_true_iff in Hay as []. }
    destruct cm; cbn [commit_if mret db_ret current commit]; rewrite Hf; eauto. }
  destruct (fetchone (where_ (at_place v loc) (volume_copies d))) as [o|] eqn:Eo; subst old.
  - rewrite bool_decide_eq_true_2 by eauto. cbn [orb].
    assert (at_place v loc o = true /\ o ∈ volume_copies d) as [Ho Hod].
    { destruct (where_ _ _) as [|y l] eqn:E; [done|]. injection Eo as ->.
      apply elem_of_where. rewrite E. left. }
    assert (upsert_copy v loc (default now date) note sha size ver ser d
      = Ok (tt, set_seqs (set_copies d (update_where (at_place v loc) (reburn new) (volume_copies d)))
                  (seq_volumes d) (seq_packs d) (seq_copies d + 1) (seq_events d))) as Hu.
    { unfold upsert_copy. fold new. change (fun c => _ && _) with (at_place v loc).
      by rewrite (proj2 (exists_row_true _ _)) by eauto. }
    destruct (Hrun _ (reburn new o) Hu) as (c' & -> & Hc').
    + apply elem_of_update_where. exists o. by rewrite Ho.
    + unfold active_at. apply at_place_true in Ho. unfold at_place. cbn.
      destruct Ho as [-> ->]. by rewrite !(proj2 (sql_eq_true _ _) eq_refl).
    + intros y (z & Hz & ->)%elem_of_update_where Hy. destruct (at_place v loc z) eqn:Ez; [|congruence].
      f_equal. by eapply place_unique.
    + exists (reburn new o). rewrite Hc'. cbn [volume_copies set_copies set_seqs].
      split_and!; [done| | |done|done|done|done|done|done|done| |].
      * apply elem_of_update_where. exists o. by rewrite Ho.
      * by apply at_place_true in Ho as [? ?]; apply at_place_true.
      * intros y (z & Hz & ->)%elem_of_update_where Hy.
        destruct (at_place v loc z) eqn:Ez; [|congruence]. f_equal. by eapply place_unique.
      * intros y Hy. rewrite elem_of_update_where. split.
        -- intros (z & Hz & ->). destruct (at_place v loc z) eqn:Ez; [|done].
           exfalso. apply not_true_iff_false in Hy. by apply Hy, at_place_true; apply at_place_true in Ez.
        -- intros Hyd. exists y. by rewrite Hy.
  - rewrite bool_decide_eq_false_2 by (by intros []). cbn [orb].
    assert (forall y, y ∈ volume_copies d -> at_place v loc y = false) as Hno.
    { intros y Hy. apply not_true_iff_false. intros Hp.
      assert (y ∈ where_ (at_place v loc) (volume_copies d)) as Hin by (by apply elem_of_where).
      by destruct (where_ _ _); [inv Hin|]. }
    assert (upsert_copy v loc (default now date) note sha size ver ser d
      = (_ ← integrity (negb (has_volume d v && has_location d loc));
         Ok (tt, set_seqs (set_copies d (volume_copies d ++ [new]))
              (seq_volumes d) (seq_packs d) (seq_copies d + 1) (seq_events d)))) as Hu.
    { unfold upsert_copy. fold new. change (fun c => _ && _) with (at_place v loc).
      by rewrite (proj2 (exists_row_false _ _) Hno). }
    destruct (has_volume d v && has_location d loc) eqn:Hk; cbn [negb raise_if] in Hu.
    + rewrite bind_Ok in Hu. destruct (Hrun _ new Hu) as (c' & -> & Hc').
      * cbn. set_solver.
      * unfold active_at, at_place. cbn. by rewrite !(proj2 (sql_eq_true _ _) eq_refl).
      * intros y [Hy|Hy%list_elem_of_singleton]%elem_of_app Hp; [|done].
        by rewrite Hno in Hp.
      * exists new. rewrite Hc'. cbn [volume_copies set_copies set_seqs].
        split_and!; [done|set_solver|by apply at_place_true|done|done|done|done| | | | |].
        -- by destruct sha.
        -- by destruct size.
        -- cbn. by destruct (sql_eq ser "") eqn:Es; [apply sql_eq_elim in Es|].
        -- intros y [Hy|Hy%list_elem_of_singleton]%elem_of_app Hp; [|done]. by rewrite Hno in Hp.
        -- intros y Hy. rewrite elem_of_app, list_elem_of_singleton. split; [|by left].
           intros [?| ->]; [done|]. apply not_true_iff_false in Hy. destruct Hy. by apply at_place_true.
    + unfold add_volume_copy, execute, query, mbind, db_bind. fold d. by rewrite Hu.
Qed.

Lemma retire_spec_witness :
  let d := current demo_conn in
  let '(r, c') := retire Lost 1 "Home" "now" demo_conn in
  let d' := current c' in
  match r with
  | Err e => e = ValueError /\ exists_row (fate_rows Lost 1 "Home") (volume_copies d) = false /\
             d' = d /\ committed c' = committed demo_conn
  | Ok b =>
      exists_row (fate_rows Lost 1 "Home") (volume_copies d) = true /\ committed c' = d' /\
      volume_copies d' = update_where (fate_rows Lost 1 "Home") (set_copy_status (fate_status Lost))
                           (volume_copies d) /\
      (forall x, x ∈ volumes d' -> volume_id x = 1 -> has_active_copy d' x = false ->
         in_service x = false) /\
      (b = true -> 1 ∈ get_lost_volume_ids d' /\
         exists x, x ∈ volumes d /\ volume_id x = 1 /\ in_service x = true /\
           volumes d' = update_where (demote_row 1) (set_status "DEPRECATED") (volumes d)) /\
      (b = false -> volumes d' = volumes d)
  end.
Proof. apply (retire_spec demo_conn Lost 1 "Home" "now" demo_catalog_wf). Defined.

Lemma add_volume_copy_spec_witness :
  let d := current demo_conn in
  let old := fetchone (where_ (at_place 1 "Home") (volume_copies d)) in
  let '(r, c') := add_volume_copy 1 "Home" None "reburn" None (Some 5) None "" "now" true demo_conn in
  if bool_decide (is_Some old) || (has_volume d 1 && has_location d "Home") then
    exists x, r = Ok x /\ x ∈ volume_copies (current c') /\ at_place 1 "Home" x = true /\
      vc_status x = "ACTIVE" /\ burn_date x = default "now" None /\ notes x = "reburn" /\
      last_verified_at x = None /\
      iso_sha256 x = (o ← old; iso_sha256 o) /\
      iso_size_bytes x = Some 5 /\
      media_serial x = (if sql_eq "" "" then default "" (media_serial <$> old) else "") /\
      (forall y, y ∈ volume_copies (current c') -> at_place 1 "Home" y = true -> y = x) /\
      (forall y, at_place 1 "Home" y = false ->
         y ∈ volume_copies (current c') <-> y ∈ volume_copies d)
  else r = Err SqliteIntegrityError /\ current c' = d /\ committed c' = committed demo_conn.
Proof.
  apply (add_volume_copy_spec demo_conn 1 "Home" None "reburn" None (Some 5) None "" "now" true
           demo_catalog_wf).
Defined.

(** The model evaluated: losing the only disc of volume 1 demotes it. *)
Example demo_lost :
  let '(r, c') := retire Lost 1 "Home" "now" demo_conn in
  r = Ok true /\ get_lost_volume_ids (current c') = [1] /\
  status <$> find_volume (current c') 1 = Some "DEPRECATED" /\
  (detail <$> volume_events (current c')) =
    ["disc at Home recorded as lost (whereabouts unknown)";
     "auto-deprecated: last in-service disc lost at Home"].
Proof. vm_compute. auto. Qed.
