(* ===== verification/Packs.v ===== *)
(** * Packs and repositories

    [db/packs.py], [db/repos.py] and the delta analysis of [packs/delta.py]:
    registering what a mirror scan found, pruning, repository status. *)

From S2P Require Import Prelude Sqlite Catalog VolumeEvents Queries Volumes.
Open Scope string_scope.
Open Scope list_scope.
Open Scope Z_scope.

Definition get_pack_by_id (i : Z) : dbc Pack :=
  row ← query (fun d => fetchone (where_ (fun p => sql_eq (pack_id p) i) (packs d)));
  match row with Some p => mret p | None => raise ValueError end.
Definition get_pack_by_sha256 (sha : string) (d : Catalog) : option Pack :=
  fetchone (where_ (fun p => sql_eq (sha256 p) sha) (packs d)).

Definition register_pack (sha : string) (size : Z) (repo now : string) : dbc Pack :=
  _ ← execute (insert_or_ignore_pack now sha size repo);
  _ ← commit;
  result ← query (get_pack_by_sha256 sha);
  match result with Some p => mret p | None => raise RuntimeError end.

Definition mark_pruned (i : Z) : dbc unit :=
  _ ← execute (update_pruned (fun p => sql_eq (pack_id p) i) true); commit.
Definition unmark_pruned (i : Z) : dbc unit :=
  _ ← execute (update_pruned (fun p => sql_eq (pack_id p) i) false); commit.

(** One batch: [UPDATE packs SET is_pruned = 1 WHERE pack_id IN (...) AND
    is_pruned = 0], adding its row count. *)
Definition prune_batch (updated : Z) (batch : list Z) : dbc Z :=
  n ← execute (update_pruned (fun p => sql_in (pack_id p) batch && negb (is_pruned p)) true);
  mret (updated + n).
Fixpoint prune_batches (updated : Z) (bs : list (list Z)) : dbc Z :=
  match bs with
  | [] => mret updated
  | b :: bs => updated ← prune_batch updated b; prune_batches updated bs
  end.
Definition bulk_mark_pruned (pack_ids : list Z) : dbc Z :=
  match pack_ids with
  | [] => mret 0
  | _ => updated ← prune_batches 0 (batches _SQLITE_BATCH pack_ids);
         _ ← commit;
         mret updated
  end.

(** [pack_map[sha]] *)
Definition map_get (m : list (string * Pack)) (k : string) : res Pack :=
  match List.find (fun e => sql_eq e.1 k) m with Some (_, p) => Ok p | None => Err KeyError end.

Definition bulk_register (now : string) (ps : list (string * Z * string)) : dbc (list Pack) :=
  match ps with
  | [] => mret []
  | _ =>
      _ ← executemany (fun '(sha, size, repo) => insert_or_ignore_pack now sha size repo) ps;
      _ ← commit;
      let sha_list := (fun '(sha, _, _) => sha) <$> ps in
      pack_map ← query (fun d =>
        foldl (fun m batch => foldl (fun m p => dict_set (sha256 p) p m) m
                 (where_ (fun p => sql_in (sha256 p) batch) (packs d)))
          [] (batches _SQLITE_BATCH sha_list));
      pure_res (mapM_res (map_get pack_map) sha_list)
  end.

Definition list_packs (repo : option string) (include_pruned : bool) (d : Catalog) : list Pack :=
  order_by by_created (where_ (fun p =>
      match repo with Some r => sql_eq (repo_id p) r | None => true end &&
      (include_pruned || negb (is_pruned p))) (packs d)).

(** ** Repositories ([db/repos.py]) *)

Definition REPO_STATUS_ACTIVE : string := "active".
Definition REPO_STATUS_RETIRED : string := "retired".
Definition REPO_STATUSES : list string := [REPO_STATUS_ACTIVE; REPO_STATUS_RETIRED].

Definition get_repo (r : string) : dbc Repository :=
  row ← query (fun d => fetchone (where_ (fun x => sql_eq (r_repo_id x) r) (repositories d)));
  match row with Some x => mret x | None => raise ValueError end.
Definition register_repo (r nm path key now : string) : dbc Repository :=
  _ ← execute (insert_repository r nm path key now);
  _ ← commit;
  get_repo r.
Definition get_repo_by_name (nm : string) (d : Catalog) : res (option Repository) :=
  match order_by (by_key r_repo_id) (where_ (fun x => sql_eq (r_name x) nm) (repositories d)) with
  | [] => Ok None
  | [x] => Ok (Some x)
  | _ => Err ValueError
  end.
Definition list_repos (d : Catalog) : list Repository := order_by (by_key r_name) (repositories d).
Definition set_repo_status (r st : string) : dbc Repository :=
  if negb (sql_in st REPO_STATUSES) then raise ValueError
  else
    _ ← get_repo r;
    _ ← execute (update_repository_status r st);
    _ ← commit;
    get_repo r.
Definition delete_repo (r : string) : dbc unit :=
  n ← query (fun d => count_where (fun p => sql_eq (repo_id p) r) (packs d));
  if 0 <? n then raise ValueError
  else _ ← execute (delete_repository_row r); commit.

(** ** Delta analysis ([packs/delta.py])

    [scan] is the scanner's dictionary: pack hash to size on the mirror. *)

Section delta.
Variable scan : list (string * Z).
Variable repo : option string.

(** The hashes the catalog already knows, found batch by batch. *)
Definition known_hashes (d : Catalog) (shas : list string) : list string :=
  batch ← batches _SQLITE_BATCH shas;
  sha256 <$> where_ (fun p => sql_in (sha256 p) batch) (packs d).

Definition register_new_packs (now : string) : dbc (list Pack) :=
  match scan, repo with
  | [], _ => mret []
  | _, None => raise ValueError
  | _, Some r =>
      let all_tuples := (fun '(sha, size) => (sha, size, r)) <$> scan in
      existing ← query (fun d => known_hashes d (fst <$> scan));
      let new_tuples := where_ (fun '(sha, _, _) => negb (sql_in sha existing)) all_tuples in
      match new_tuples with [] => mret [] | _ => bulk_register now new_tuples end
  end.

Definition get_unarchived (d : Catalog) : list Pack := get_unarchived_packs d repo.
Definition needs_burn (usable_capacity : Z) (d : Catalog) : bool :=
  usable_capacity <=? get_total_unarchived_bytes d repo.

Definition detect_pruned (d : Catalog) : list Pack :=
  match scan with
  | [] => []
  | _ => where_ (fun p => negb (sql_in (sha256 p) (fst <$> scan))) (list_packs repo false d)
  end.
End delta.

(** ** Well-formedness is kept *)

Lemma keeps_register_pack sha size repo now : keeps catalog_wf (register_pack sha size repo now).
Proof. unfold register_pack. keeps. by eapply wf_insert_or_ignore_pack. Qed.
Lemma keeps_mark_pruned i : keeps catalog_wf (mark_pruned i).
Proof. unfold mark_pruned. keeps. by eapply wf_update_pruned. Qed.
Lemma keeps_unmark_pruned i : keeps catalog_wf (unmark_pruned i).
Proof. unfold unmark_pruned. keeps. by eapply wf_update_pruned. Qed.
Lemma keeps_prune_batches u bs : keeps catalog_wf (prune_batches u bs).
Proof.
  revert u. induction bs as [|b bs IH]; intros u; cbn [prune_batches]; unfold prune_batch; keeps.
  by eapply wf_update_pruned.
Qed.
#[export] Hint Resolve keeps_prune_batches : keeps.
Lemma keeps_bulk_mark_pruned l : keeps catalog_wf (bulk_mark_pruned l).
Proof. unfold bulk_mark_pruned. keeps. Qed.
Lemma keeps_bulk_register now ps : keeps catalog_wf (bulk_register now ps).
Proof.
  assert (keeps catalog_wf (executemany (fun '(sha, size, repo) =>
    insert_or_ignore_pack now sha size repo) ps)) as Hm.
  { apply keeps_executemany. intros [[sha size] r] d a d' W H.
    by eapply wf_insert_or_ignore_pack. }
  unfold bulk_register. destruct ps; [keeps|]. apply keeps_bind; [exact Hm|intro]. keeps.
Qed.
Lemma keeps_register_new_packs scan repo now : keeps catalog_wf (register_new_packs scan repo now).
Proof.
  unfold register_new_packs. destruct scan as [|e scan']; [keeps|]. destruct repo; [|keeps].
  cbv zeta. apply keeps_bind; [keeps|intro].
  match goal with |- keeps _ (match ?l with _ => _ end) => destruct l end; [keeps|].
  apply keeps_bulk_register.
Qed.
Lemma keeps_get_repo r : keeps catalog_wf (get_repo r).
Proof. unfold get_repo. keeps. Qed.
#[export] Hint Resolve keeps_get_repo : keeps.
Lemma keeps_register_repo r nm path key now : keeps catalog_wf (register_repo r nm path key now).
Proof. unfold register_repo. keeps. by eapply wf_insert_repository. Qed.
Lemma keeps_set_repo_status r st : keeps catalog_wf (set_repo_status r st).
Proof. unfold set_repo_status. keeps. by eapply wf_update_repository_status. Qed.
Lemma keeps_delete_repo r : keeps catalog_wf (delete_repo r).
Proof. unfold delete_repo. keeps. by eapply wf_delete_repository_row. Qed.
