(* ===== verification/Locations.v ===== *)
(** * Locations and burn sessions

    [db/locations.py] and [db/sessions.py]. *)

From S2P Require Import Prelude Sqlite Catalog VolumeEvents Queries Volumes.
Open Scope string_scope.
Open Scope list_scope.
Open Scope Z_scope.

Definition get_location (l : string) : dbc Location :=
  row ← query (fun d => fetchone (where_ (fun x => sql_eq (name x) l) (locations d)));
  match row with Some x => mret x | None => raise ValueError end.
Definition create_location (l desc now : string) : dbc Location :=
  _ ← execute (insert_location now l desc);
  _ ← commit;
  get_location l.
Definition ensure_location (l desc now : string) (commit : bool) : dbc Location :=
  _ ← execute (insert_or_ignore_location now l desc);
  _ ← commit_if commit;
  get_location l.

(** [UnknownLocationError] is a [ValueError]; its suggestions are text for the
    user and are not modelled. *)
Definition resolve_location (l : string) (create : bool) (desc now : string) : dbc Location :=
  row ← query (fun d => fetchone (where_ (fun x => sql_eq (name x) l) (locations d)));
  match row with
  | Some x => mret x
  | None => if create then ensure_location l desc now true else raise ValueError
  end.
Definition list_locations (d : Catalog) : list Location := order_by (by_key name) (locations d).

(** Disc records and events that name a location. *)
Definition location_references (l : string) (d : Catalog) : Z * Z :=
  (count_where (fun c => sql_eq (vc_location c) l) (volume_copies d),
   count_where (fun e => sql_eq (ev_location e) (Some l)) (volume_events d)).

Definition delete_location (l : string) : dbc unit :=
  _ ← get_location l;
  refs ← query (location_references l);
  if negb (refs.1 =? 0) || negb (refs.2 =? 0) then raise ValueError
  else _ ← execute (delete_location_row l); commit.

(** The transaction of a rename: the new row, the references of three tables,
    the old row.  Foreign keys are checked at its commit; none is broken then. *)
Definition rename_rows (old new : string) (loc : Location) (d : Catalog) : Z * Catalog :=
  let d := set_locations d (locations d ++ [mkLocation new (loc_created_at loc) (description loc)]) in
  let copy c := sql_eq (vc_location c) old in
  let event e := sql_eq (ev_location e) (Some old) in
  let vol v := sql_eq (location v) old in
  let moved := count_where copy (volume_copies d) + count_where event (volume_events d) +
               count_where vol (volumes d) in
  let d := set_copies d (update_where copy (fun c => set_copy_location new (notes c) c)
                           (volume_copies d)) in
  let d := set_events d (update_where event (set_event_location (Some new)) (volume_events d)) in
  let d := set_volumes d (update_where vol (set_volume_location new) (volumes d)) in
  (moved, set_locations d (delete_where (fun x => sql_eq (name x) old) (locations d))).

Definition rename_location (old new now : string) : dbc Z :=
  loc ← get_location old;
  query (fun d => has_location d new) ≫= fun taken : bool =>
  if taken then raise ValueError
  else
    _ ← (commit : dbc unit);
    moved ← (execute (fun d => Ok (rename_rows old new loc d)) : dbc Z);
    _ ← (commit : dbc unit);
    mret moved.

(** ** Burn sessions *)

Definition get_session (s : string) : dbc BurnSession :=
  row ← query (fun d => fetchone (where_ (fun b => sql_eq (session_id b) s) (burn_sessions d)));
  match row with Some b => mret b | None => raise ValueError end.
(** [generated] stands for [generate_session_id()], called when no id is given. *)
Definition create_session (media dir : string) (sid : option string) (generated now : string)
    (commit : bool) : dbc BurnSession :=
  let s := default generated sid in
  _ ← execute (insert_session s media dir now);
  _ ← commit_if commit;
  get_session s.
Definition latest_first (x y : BurnSession) : bool :=
  String.leb (bs_created_at y) (bs_created_at x).
Definition get_latest_session : dbc BurnSession :=
  row ← query (fun d => fetchone (order_by latest_first (burn_sessions d)));
  match row with Some b => mret b | None => raise ValueError end.
Definition resolve_session_id (ref : string) : dbc string :=
  if sql_eq ref "latest" then b ← get_latest_session; mret (session_id b)
  else _ ← get_session ref; mret ref.
Definition update_session_status (s st : string) : dbc unit :=
  _ ← execute (update_session_rows s st); commit.
Definition list_sessions (status_filter : option string) (d : Catalog) : list BurnSession :=
  order_by (by_key bs_created_at) (where_ (fun b =>
    match status_filter with
    | Some f => if sql_eq f EmptyString then true else sql_eq (bs_status b) f
    | None => true end) (burn_sessions d)).
Definition add_session_volume (s : string) (v : Z) (path : string) (sha : option string)
    (size : option Z) (commit : bool) : dbc SessionVolume :=
  _ ← execute (insert_session_volume s v path sha size);
  _ ← commit_if commit;
  mret (mkSessionVolume s v path sha size).
Definition get_session_volumes (s : string) (d : Catalog) : list SessionVolume :=
  order_by (fun x y => sv_volume_id x <=? sv_volume_id y)
    (where_ (fun x => sql_eq (sv_session_id x) s) (session_volumes d)).
Definition session_volume_at (s : string) (v : Z) (x : SessionVolume) : bool :=
  sql_eq (sv_session_id x) s && sql_eq (sv_volume_id x) v.
Definition update_session_volume_iso (s : string) (v : Z) (path sha : string) (size : option Z) :
    dbc unit :=
  _ ← execute (update_session_volumes (session_volume_at s v)
        (fun x => mkSessionVolume (sv_session_id x) (sv_volume_id x) path (Some sha) size));
  commit.
Definition update_iso_sha256 (s : string) (v : Z) (sha : string) : dbc unit :=
  _ ← execute (update_session_volumes (session_volume_at s v)
        (fun x => mkSessionVolume (sv_session_id x) (sv_volume_id x) (iso_path x) (Some sha)
                    (sv_iso_size_bytes x)));
  commit.
(** [with conn:] commits at the end, and rolls back on an exception. *)
Definition delete_session (s : string) : dbc unit :=
  on_error
    (_ ← execute (delete_session_volumes (fun x => sql_eq (sv_session_id x) s));
     _ ← execute (delete_session_row s);
     commit)
    rollback.

(** ** Well-formedness is kept *)

Lemma keeps_get_location l : keeps catalog_wf (get_location l).
Proof. unfold get_location. keeps. Qed.
#[export] Hint Resolve keeps_get_location : keeps.
Lemma keeps_create_location l desc now : keeps catalog_wf (create_location l desc now).
Proof. unfold create_location. keeps. by eapply wf_insert_location. Qed.
Lemma keeps_ensure_location l desc now cm : keeps catalog_wf (ensure_location l desc now cm).
Proof. unfold ensure_location. keeps. by eapply wf_insert_or_ignore_location. Qed.
#[export] Hint Resolve keeps_ensure_location : keeps.
Lemma keeps_resolve_location l cr desc now : keeps catalog_wf (resolve_location l cr desc now).
Proof. unfold resolve_location. keeps. Qed.
Lemma keeps_delete_location l : keeps catalog_wf (delete_location l).
Proof. unfold delete_location. keeps. by eapply wf_delete_location_row. Qed.
Lemma keeps_create_session media dir sid gen now cm :
  keeps catalog_wf (create_session media dir sid gen now cm).
Proof. unfold create_session, get_session. keeps. by eapply wf_insert_session. Qed.
Lemma keeps_update_session_status s st : keeps catalog_wf (update_session_status s st).
Proof. unfold update_session_status. keeps. by eapply wf_update_session_rows. Qed.
Lemma keeps_add_session_volume s v path sha size cm :
  keeps catalog_wf (add_session_volume s v path sha size cm).
Proof. unfold add_session_volume. keeps. by eapply wf_insert_session_volume. Qed.
Lemma keeps_update_session_volume_iso s v path sha size :
  keeps catalog_wf (update_session_volume_iso s v path sha size).
Proof. unfold update_session_volume_iso. keeps. eapply wf_update_session_volumes; [done| |eassumption]; by split. Qed.
Lemma keeps_update_iso_sha256 s v sha : keeps catalog_wf (update_iso_sha256 s v sha).
Proof. unfold update_iso_sha256. keeps. eapply wf_update_session_volumes; [done| |eassumption]; by split. Qed.
Lemma keeps_delete_session s : keeps catalog_wf (delete_session s).
Proof.
  unfold delete_session. keeps; [by eapply wf_delete_session_volumes|by eapply wf_delete_session_row].
Qed.

(** A rename keeps every constraint: the old name's references all move to the
    new one. *)
Lemma wf_rename_rows old new loc d n d' :
  catalog_wf d -> new ∉ location_names d -> rename_rows old new loc d = (n, d') -> catalog_wf d'.
Proof.
  intros W Hnew [= _ <-].
  assert (forall l, l ∈ location_names d -> (if sql_eq l old then new else l) ∈
    name <$> delete_where (fun x => sql_eq (name x) old)
      (locations d ++ [mkLocation new (loc_created_at loc) (description loc)])) as Hmove.
  { intros l (x & -> & Hx)%list_elem_of_fmap. apply list_elem_of_fmap.
    destruct (sql_eq (name x) old) eqn:E.
    - exists (mkLocation new (loc_created_at loc) (description loc)). split; [done|].
      apply elem_of_delete_where. split; [|set_solver]. apply sql_eq_false. cbn. sql. subst old.
      intros ->. by apply Hnew, list_elem_of_fmap_2.
    - exists x. split; [done|]. apply elem_of_delete_where. set_solver. }
  pose proof W as W'. destruct W'. constructor; cbn; try done.
  all: rewrite ?update_where_key by done; try done.
  - apply Forall_update_where; done.
  - apply NoDup_delete_where. by apply NoDup_fmap_snoc.
  - (* the moved discs keep distinct places *)
    unfold update_where. rewrite <- list_fmap_compose.
    rewrite (list_fmap_ext _ ((fun k : Z * string => (k.1, if sql_eq k.2 old then new else k.2)) ∘
                              (fun c => (vc_volume_id c, vc_location c)))).
    2: { intros i c _. cbn. by destruct (sql_eq (vc_location c) old). }
    rewrite list_fmap_compose. apply NoDup_fmap_2_strong; [|done].
    intros [v1 l1] [v2 l2] H1 H2 [= -> Hl].
    assert (l1 <> new /\ l2 <> new) as [? ?].
    { rewrite Forall_forall in wf_copy_row.
      apply list_elem_of_fmap in H1 as (c1 & Hc1 & H1).
      apply list_elem_of_fmap in H2 as (c2 & Hc2 & H2). simplify_eq.
      apply wf_copy_row in H1 as (_&_&H1&_). apply wf_copy_row in H2 as (_&_&H2&_). set_solver. }
    destruct (sql_eq l1 old) eqn:E1, (sql_eq l2 old) eqn:E2; sql; congruence.
  - apply Forall_forall. intros c (c' & Hc' & ->)%elem_of_update_where.
    rewrite Forall_forall in wf_copy_row. destruct (wf_copy_row c' Hc') as (?&?&Hl&?).
    apply Hmove in Hl. destruct (sql_eq (vc_location c') old) eqn:E; cbn; done.
  - apply Forall_forall. intros e (e' & He' & ->)%elem_of_update_where.
    rewrite Forall_forall in wf_event_row. destruct (wf_event_row e' He') as (?&?&?&Hl).
    destruct (ev_location e') as [l|] eqn:El.
    + apply Hmove in Hl. destruct (sql_eq l old) eqn:E.
      * apply sql_eq_true in E as ->. rewrite (proj2 (sql_eq_true (Some old) _) eq_refl).
        cbn. done.
      * rewrite (proj2 (sql_eq_false (Some l) (Some old))) by (apply sql_eq_false in E; congruence).
        by rewrite El.
    + rewrite (proj2 (sql_eq_false None (Some old))) by done. by rewrite El.
Qed.

Lemma keeps_rename_location old new now : keeps catalog_wf (rename_location old new now).
Proof.
  intros c W1 W2. unfold rename_location, get_location, mbind, db_bind, query, execute, commit.
  destruct (fetchone _) as [loc|]; [|by split]. cbn -[rename_rows].
  destruct (has_location (current c) new) eqn:E; [by split|]. cbn -[rename_rows].
  destruct (rename_rows old new loc (current c)) as [n d'] eqn:Er. cbn -[rename_rows].
  assert (catalog_wf d'); [|by split]. eapply wf_rename_rows; [exact W2| |exact Er].
  rewrite <- has_location_true. congruence.
Qed.
