(* ===== verification/ArchiveProps.v ===== *)
(** * What the queries promise

    Theorems about [Queries] on a well-formed catalog: the archive summary is a
    partition, a pick list and the missing packs cover a restore exactly, the
    volume picked for a pack is the best one, lost packs and staged packs
    agree with the stage pool. *)

From S2P Require Import Prelude Sqlite Catalog VolumeEvents Queries Volumes.
Open Scope string_scope.
Open Scope list_scope.
Open Scope Z_scope.

(** ** The archive summary *)

Lemma on_volume_or d i q q' :
  on_volume d i (fun v => q v || q' v) = on_volume d i q || on_volume d i q'.
Proof.
  apply eq_true_iff_eq. rewrite orb_true_iff, !on_volume_true.
  setoid_rewrite orb_true_iff. naive_solver.
Qed.
Lemma on_volume_ext d i q q' :
  (forall v, v ∈ volumes d -> q v = q' v) -> on_volume d i q = on_volume d i q'.
Proof.
  intros H. apply eq_true_iff_eq. rewrite !on_volume_true. split.
  - intros (vp & v & ? & ? & Hv & ? & ?). exists vp, v. rewrite <- H; auto.
  - intros (vp & v & ? & ? & Hv & ? & ?). exists vp, v. rewrite H; auto.
Qed.
(** In service means durable or never burned: the statuses are exhaustive. *)
Lemma in_service_split d i :
  catalog_wf d -> on_volume d i in_service = on_volume d i is_durable || on_volume d i never_burned.
Proof.
  intros W. rewrite <- on_volume_or. apply on_volume_ext. intros v Hv.
  pose proof (wf_volume_row _ W) as Hr. rewrite Forall_forall in Hr. apply Hr in Hv as [_ Hs].
  unfold in_service, is_durable, never_burned. unfold VOLUME_STATUSES in Hs.
  set_unfold in Hs. by destruct Hs as [->|[->|[->|[->|[->|[->|[->|[]]]]]]]].
Qed.

Lemma count_where_cons {A} (p : A -> bool) x l :
  count_where p (x :: l) = (if p x then 1 else 0) + count_where p l.
Proof. unfold count_where, where_. cbn. destruct (p x); cbn; lia. Qed.

Lemma summary_count d (l : list Pack) :
  catalog_wf d ->
  len l = count_where is_pruned l
    + count_where (fun p => negb (is_pruned p) && on_volume d (pack_id p) is_durable) l
    + count_where (fun p => negb (is_pruned p) && on_volume d (pack_id p) never_burned &&
                            negb (on_volume d (pack_id p) is_durable)) l
    + count_where (fun p => negb (is_pruned p) && negb (on_volume d (pack_id p) in_service)) l.
Proof.
  intros W. induction l as [|p l IH]; [done|]. rewrite !count_where_cons.
  cbn [length]. rewrite Nat2Z.inj_succ. rewrite IH, (in_service_split d (pack_id p) W).
  destruct (is_pruned p), (on_volume d (pack_id p) is_durable),
    (on_volume d (pack_id p) never_burned); cbn [negb andb orb]; lia.
Qed.

Lemma unarchived_count d (l : list Pack) :
  catalog_wf d ->
  len (where_ (fun p => unarchived d p && in_repo None p) l)
  = count_where (fun p => negb (is_pruned p) && on_volume d (pack_id p) never_burned &&
                          negb (on_volume d (pack_id p) is_durable)) l
    + count_where (fun p => negb (is_pruned p) && negb (on_volume d (pack_id p) in_service)) l.
Proof.
  intros W. change (len (where_ ?p l)) with (count_where p l).
  induction l as [|p l IH]; [done|]. rewrite !count_where_cons, IH.
  rewrite (in_service_split d (pack_id p) W). unfold unarchived, in_repo, _HAS_DURABLE_LINK.
  destruct (is_pruned p), (on_volume d (pack_id p) is_durable),
    (on_volume d (pack_id p) never_burned); cbn [negb andb orb]; lia.
Qed.

(** ** Pick lists *)

Lemma elem_of_pack_volume_rows d p v :
  (p, v) ∈ pack_volume_rows d <->
  p ∈ packs d /\ v ∈ volumes d /\ mkVolumePack (volume_id v) (pack_id p) ∈ volume_packs d.
Proof.
  unfold pack_volume_rows. rewrite list_elem_of_bind. split.
  - intros (p' & Hin & Hp). apply list_elem_of_bind in Hin as (vp & Hin & [Hvp1 Hvp2]%elem_of_where).
    apply list_elem_of_fmap in Hin as (v' & [= -> ->] & [Hv1 Hv2]%elem_of_where).
    apply (proj1 (sql_eq_true _ _)) in Hvp1, Hv1. split_and!; [done..|].
    destruct vp; cbn in *. congruence.
  - intros (Hp & Hv & Hl). exists p. split; [|done]. apply list_elem_of_bind.
    exists (mkVolumePack (volume_id v) (pack_id p)). split.
    + apply list_elem_of_fmap. exists v. split; [done|]. apply elem_of_where.
      split; [by apply sql_eq_true|done].
    + apply elem_of_where. split; [by apply sql_eq_true|done].
Qed.

(** The pairs of a dictionary of lists. *)
Definition pairs {K A} (m : list (K * list A)) : list (K * A) :=
  e ← m; (fun x => (e.1, x)) <$> e.2.

Lemma pairs_cons {K A} (e : K * list A) m :
  pairs (e :: m) = ((fun x => (e.1, x)) <$> e.2) ++ pairs m.
Proof. done. Qed.
Lemma pairs_dict_append {K A} `{EqDecision K} (k : K) (x : A) m :
  pairs (dict_append k x m) ≡ₚ (k, x) :: pairs m.
Proof.
  induction m as [|[k' xs] m IH]; cbn [dict_append]; [done|]. case_decide as E.
  - subst. rewrite !pairs_cons. cbn [fst snd]. rewrite fmap_app, <- app_assoc. csimpl.
    by rewrite <- Permutation_middle.
  - rewrite !pairs_cons, IH. by rewrite Permutation_middle.
Qed.

Lemma foldl_concat {A S} (f : S -> A -> S) (ls : list (list A)) s :
  foldl (foldl f) s ls = foldl f s (concat ls).
Proof. revert s. induction ls as [|l ls IH]; intros s; cbn; [done|]. by rewrite IH, foldl_app. Qed.

Lemma concat_split {A} (ls : list (list A)) pre x post :
  concat ls = pre ++ x :: post ->
  exists ls1 l ls2 pre' post', ls = ls1 ++ l :: ls2 /\ l = pre' ++ x :: post' /\
    pre = concat ls1 ++ pre'.
Proof.
  revert pre. induction ls as [|l ls IH]; intros pre; cbn; [by destruct pre|].
  intros H. destruct (decide (length pre < length l)%nat) as [Hl|Hl].
  - exists [], l, ls, pre, (drop (S (length pre)) l). split_and!; [done| |done].
    assert (take (length pre) (l ++ concat ls) = pre) as Ht by (by rewrite H, take_app_length).
    assert ((l ++ concat ls) !! length pre = Some x) as Hx.
    { rewrite H, lookup_app_r by lia. by rewrite Nat.sub_diag. }
    rewrite take_app_le in Ht by lia. rewrite lookup_app_l in Hx by lia.
    pose proof (take_drop_middle l _ _ Hx) as Hm. rewrite Ht in Hm. by symmetry.
  - destruct (IH (drop (length l) pre)) as (ls1 & l' & ls2 & pre' & post' & -> & -> & Hpre).
    { assert (drop (length l) (l ++ concat ls) = drop (length l) (pre ++ x :: post)) as Hd
        by (by rewrite H).
      rewrite drop_app_length, drop_app_le in Hd by lia. done. }
    exists (l :: ls1), (pre' ++ x :: post'), ls2, pre', post'. split_and!; [done|done|].
    cbn. rewrite <- app_assoc, <- Hpre. rewrite <- (take_drop (length l) pre) at 1. f_equal.
    assert (take (length l) (l ++ concat (ls1 ++ (pre' ++ x :: post') :: ls2))
            = take (length l) (pre ++ x :: post)) as Ht by (by rewrite H).
    rewrite take_app_length, take_app_le in Ht by lia. done.
Qed.

(** Rows whose hash did not occur before. *)
Definition first_row (rs : list (Pack * Volume)) (p : Pack) (v : Volume) : Prop :=
  exists pre post, rs = pre ++ (p, v) :: post /\ forall r, r ∈ pre -> sha256 r.1 <> sha256 p.

Record pick_inv (rs : list (Pack * Volume)) (st : list string * pick_list) : Prop := {
  pi_seen : forall h, h ∈ st.1 <-> exists r, r ∈ rs /\ sha256 r.1 = h;
  pi_nodup : NoDup ((fun q : string * Pack => sha256 q.2) <$> pairs st.2);
  pi_pairs : forall l p, (l, p) ∈ pairs st.2 <-> exists v, label v = l /\ first_row rs p v;
}.

Lemma first_row_snoc rs r p v :
  first_row (rs ++ [r]) p v <->
  first_row rs p v \/ (r = (p, v) /\ forall r', r' ∈ rs -> sha256 r'.1 <> sha256 p).
Proof.
  split.
  - intros (pre & post & Heq & Hpre). destruct post as [|y post' _] using rev_ind.
    + apply app_inj_tail in Heq as [-> ->]. by right.
    + left. rewrite app_comm_cons, app_assoc in Heq.
      apply app_inj_tail in Heq as [-> _]. by exists pre, post'.
  - intros [(pre & post & -> & Hpre)|[-> Hno]].
    + exists pre, (post ++ [r]). by rewrite <- app_assoc.
    + by exists rs, [].
Qed.

Lemma pick_step_inv rs st r : pick_inv rs st -> pick_inv (rs ++ [r]) (pick_step st r).
Proof.
  destruct st as [seen m]. intros [Hseen Hnd Hpairs]. cbn [fst snd] in *.
  unfold pick_step. destruct (sql_in (sha256 r.1) seen) eqn:E.
  - apply sql_in_true in E. constructor; cbn [fst snd]; [|done|].
    + intros h. rewrite Hseen. setoid_rewrite elem_of_app. split; [naive_solver|].
      intros (r' & [Hr'| ->%list_elem_of_singleton] & Hs); [eauto|].
      apply Hseen in E as (r0 & ? & ?). set_solver.
    + intros l p. rewrite Hpairs. setoid_rewrite first_row_snoc.
      split; [naive_solver|]. intros (v & Hl & [? | [-> Hno]]); [eauto|].
      apply Hseen in E as (r0 & Hr0 & Hs). by destruct (Hno _ Hr0).
  - apply sql_in_false in E.
    assert (forall q, q ∈ rs -> sha256 q.1 <> sha256 r.1) as Hnew.
    { intros q Hq Hs. apply E, Hseen. eauto. }
    constructor; cbn [fst snd].
    + intros h. rewrite elem_of_cons, Hseen. setoid_rewrite elem_of_app. set_solver.
    + rewrite pairs_dict_append. csimpl. constructor; [|done].
      intros ([l p] & Hs & (v & _ & pre & post & -> & _)%Hpairs)%list_elem_of_fmap. cbn in Hs.
      apply (Hnew (p, v)); [set_solver|done].
    + intros l p. rewrite pairs_dict_append, elem_of_cons, Hpairs.
      setoid_rewrite first_row_snoc. destruct r as [p0 v0]. cbn in *. split.
      * intros [[= -> ->]|(v & ? & ?)]; [|eauto]. exists v0. split; [done|]. right. done.
      * intros (v & Hl & [? | [[= -> ->] _]]); [eauto|]. left. by rewrite Hl.
Qed.

Definition all_pick_rows (d : Catalog) (preferred : string) (shas : list string) :
    list (Pack * Volume) :=
  concat (pick_rows d preferred <$> batches _SQLITE_BATCH shas).

Lemma pick_fold_inv rs st rs' : pick_inv rs' st -> pick_inv (rs' ++ rs) (foldl pick_step st rs).
Proof.
  revert st rs'. induction rs as [|r rs IH]; intros st rs' H; cbn; [by rewrite app_nil_r|].
  rewrite cons_middle, app_assoc. by apply IH, pick_step_inv.
Qed.
Lemma pick_list_inv d shas preferred :
  exists seen, pick_inv (all_pick_rows d preferred shas) (seen, get_pick_list d shas preferred).
Proof.
  unfold get_pick_list, all_pick_rows. rewrite <- (app_nil_l (concat _)).
  generalize (batches _SQLITE_BATCH shas). intros bs.
  assert (foldl (fun st b => foldl pick_step st (pick_rows d preferred b)) ([], []) bs
    = foldl pick_step ([], []) (concat (pick_rows d preferred <$> bs))) as ->.
  { rewrite <- foldl_concat. generalize (@nil string, @nil (string * list Pack)).
    induction bs as [|b bs IH]; intros st; cbn; [done|]. apply IH. }
  assert (pick_inv [] ([], [])) as H0.
  { constructor; cbn; [|constructor|].
    - intros h. split; [by inv 1|]. intros (r & Hr & _). by inv Hr.
    - intros l p. split; [by inv 1|]. intros (v & _ & pre & post & H & _). by destruct pre. }
  pose proof (pick_fold_inv (concat (pick_rows d preferred <$> bs)) _ _ H0) as H.
  destruct (foldl pick_step _ _) as [seen m]. eauto.
Qed.

Lemma batch_pos : (0 < _SQLITE_BATCH)%nat.
Proof. unfold _SQLITE_BATCH. lia. Qed.
Lemma elem_of_pick_rows d preferred batch p v :
  (p, v) ∈ pick_rows d preferred batch <->
  sha256 p ∈ batch /\ in_service v = true /\ (p, v) ∈ pack_volume_rows d.
Proof.
  unfold pick_rows. rewrite elem_of_order_by, elem_of_where, andb_true_iff, sql_in_true.
  cbn [fst snd]. tauto.
Qed.
Lemma elem_of_concat {A} (ls : list (list A)) x : x ∈ concat ls <-> exists l, l ∈ ls /\ x ∈ l.
Proof. rewrite list_elem_of_In, in_concat. setoid_rewrite list_elem_of_In. done. Qed.
Lemma elem_of_all_pick_rows d preferred shas p v :
  (p, v) ∈ all_pick_rows d preferred shas <->
  sha256 p ∈ shas /\ in_service v = true /\ (p, v) ∈ pack_volume_rows d.
Proof.
  unfold all_pick_rows. rewrite elem_of_concat. setoid_rewrite list_elem_of_fmap. split.
  - intros (l & (b & -> & Hb) & (? & ? & ?)%elem_of_pick_rows). split_and!; [|done..].
    by eapply elem_of_batches; [apply batch_pos|..].
  - intros (Hs & ? & ?). destruct (batches_cover _ _ _ batch_pos Hs) as (b & Hb & Hs').
    exists (pick_rows d preferred b). split; [eauto|]. by apply elem_of_pick_rows.
Qed.

Lemma pick_order_ok preferred : le_ok (pick_order preferred).
Proof.
  unfold pick_order. apply (le_ok_lex (fun x y : Pack * Volume => _)).
  - apply (cmp_ok_Z (fun x : Pack * Volume => rank (is_durable x.2))).
  - apply (le_ok_lex (fun x y : Pack * Volume => _)).
    + apply cmp_ok_if, (cmp_ok_Z (fun x : Pack * Volume => rank (sql_eq (location x.2) preferred))).
    + apply (le_ok_by_key (fun x : Pack * Volume => label x.2)).
Qed.

(** The first row of a hash is the best of its candidates. *)
Lemma first_row_best d preferred shas p v p' v' :
  first_row (all_pick_rows d preferred shas) p v ->
  sha256 p' = sha256 p -> in_service v' = true -> (p', v') ∈ pack_volume_rows d ->
  pick_order preferred (p, v) (p', v') = true.
Proof.
  intros (pre & post & Heq & Hpre) Hsha Hv' Hin.
  apply concat_split in Heq as (ls1 & l & ls2 & pre' & post' & Hls & Hl & ->).
  assert (l ∈ pick_rows d preferred <$> batches _SQLITE_BATCH shas) as Hlin
    by (rewrite Hls; set_solver).
  apply list_elem_of_fmap in Hlin as (b & -> & Hb).
  assert ((p, v) ∈ pick_rows d preferred b) as (Hs & _ & _)%elem_of_pick_rows
    by (rewrite Hl; set_solver).
  assert ((p', v') ∈ pick_rows d preferred b) as Hin'
    by (apply elem_of_pick_rows; rewrite Hsha; done).
  pose proof (order_by_sorted (pick_order preferred) (where_ (fun r => sql_in (sha256 r.1) b &&
    in_service r.2) (pack_volume_rows d)) (pick_order_ok preferred)) as Hsort.
  change (order_by _ _) with (pick_rows d preferred b) in Hsort. rewrite Hl in Hsort, Hin'.
  apply elem_of_app in Hin' as [Hin'|Hin'].
  { exfalso. apply (Hpre (p', v')); [|done]. apply elem_of_app. by right. }
  apply elem_of_cons in Hin' as [[= -> ->]|Hin'].
  { by destruct (le_total _ (pick_order_ok preferred) (p, v) (p, v)). }
  apply StronglySorted_app in Hsort as (_ & _ & Hsort).
  apply StronglySorted_cons in Hsort as [Hsort _]. rewrite Forall_forall in Hsort. by apply Hsort.
Qed.

(** ** Missing packs *)

Lemma foldl_add_missing (m l : list string) h :
  h ∈ foldl (fun m h => if sql_in h m then m else m ++ [h]) m l <-> h ∈ m \/ h ∈ l.
Proof.
  revert m. induction l as [|x l IH]; intros m; cbn; [set_solver|]. rewrite IH.
  destruct (sql_in x m) eqn:E; [apply sql_in_true in E; set_solver|set_solver].
Qed.
(** A hash no pack in service carries. *)
Definition unavailable (d : Catalog) (h : string) : Prop :=
  forall p, p ∈ packs d -> sha256 p = h -> on_volume d (pack_id p) in_service = false.

Lemma elem_of_missing_step d m batch h :
  catalog_wf d -> h ∈ missing_step d m batch <-> h ∈ m \/ (h ∈ batch /\ unavailable d h).
Proof.
  intros W. unfold missing_step. rewrite foldl_add_missing, elem_of_app, elem_of_where.
  rewrite negb_true_iff, sql_in_false, !list_elem_of_fmap.
  setoid_rewrite elem_of_where. setoid_rewrite andb_true_iff. setoid_rewrite sql_in_true.
  setoid_rewrite negb_true_iff. split.
  - intros [[?|[Hno Hb]]|(p & -> & [Hb Hp] & Hin)]; [by left|right..]; (split; [done|]).
    + intros p Hp Hs. exfalso. apply Hno. exists p. rewrite Hs. auto.
    + intros p' Hp' Hs. assert (p' = p) as ->; [|done].
      eapply (key_unique sha256); [apply W|done..].
  - intros [?|[Hb Hun]]; [by left; left|].
    destruct (decide (h ∈ sha256 <$> packs d)) as [(p & -> & Hp)%list_elem_of_fmap|Hno].
    + right. exists p. split_and!; [done|done|by apply Hun|done].
    + left. right. split; [|done]. intros (p & -> & _ & Hp). by apply Hno, list_elem_of_fmap_2.
Qed.
Lemma elem_of_missing d shas h :
  catalog_wf d -> h ∈ get_missing_packs d shas <-> h ∈ shas /\ unavailable d h.
Proof.
  intros W. unfold get_missing_packs.
  assert (forall bs m, h ∈ foldl (missing_step d) m bs <-> h ∈ m \/ (h ∈ concat bs /\ unavailable d h)) as H.
  { induction bs as [|b bs IH]; intros m; cbn; [set_solver|].
    rewrite IH, elem_of_missing_step by done. rewrite elem_of_app. tauto. }
  rewrite H, batches_concat by apply batch_pos. set_solver.
Qed.

(** *** Pick lists cover a restore *)

Lemma pick_list_lemma d shas preferred :
  catalog_wf d ->
  let m := get_pick_list d shas preferred in
  (forall h, h ∈ shas ->
     h ∈ get_missing_packs d shas <-> ~ exists l p, (l, p) ∈ pairs m /\ sha256 p = h) /\
  NoDup ((fun q : string * Pack => sha256 q.2) <$> pairs m) /\
  (forall l p, (l, p) ∈ pairs m ->
     sha256 p ∈ shas /\ p ∈ packs d /\
     exists v, v ∈ volumes d /\ label v = l /\ in_service v = true /\
       mkVolumePack (volume_id v) (pack_id p) ∈ volume_packs d /\
       forall v', v' ∈ volumes d -> in_service v' = true ->
         mkVolumePack (volume_id v') (pack_id p) ∈ volume_packs d ->
         pick_order preferred (p, v) (p, v') = true).
Proof.
  intros W m. destruct (pick_list_inv d shas preferred) as (seen & [Hseen Hnd Hpairs]).
  cbn [fst snd] in *. fold m in Hnd, Hpairs.
  assert (forall p v, first_row (all_pick_rows d preferred shas) p v ->
    sha256 p ∈ shas /\ in_service v = true /\ (p, v) ∈ pack_volume_rows d) as Hrow.
  { intros p v (pre & post & Heq & _). apply (elem_of_all_pick_rows d preferred).
    rewrite Heq. set_solver. }
  split_and!; [|done|].
  - intros h Hh. rewrite elem_of_missing by done. split.
    + intros [_ Hun] (l & p & (v & _ & Hf)%Hpairs & <-).
      apply Hrow in Hf as (_ & Hserv & (Hp & Hv & Hl)%elem_of_pack_volume_rows).
      pose proof (Hun p Hp eq_refl) as Hno. apply not_true_iff_false in Hno. apply Hno.
      apply on_volume_true. by exists (mkVolumePack (volume_id v) (pack_id p)), v.
    + intros Hno. split; [done|]. intros p Hp <-. apply not_true_iff_false. intros Hon.
      apply on_volume_true in Hon as ([vv pp] & v & Hvp & Hpp & Hv & Hid & Hserv).
      cbn in Hpp, Hid. subst vv pp.
      assert ((p, v) ∈ all_pick_rows d preferred shas) as Hin.
      { apply elem_of_all_pick_rows. split_and!; [done..|]. by apply elem_of_pack_volume_rows. }
      assert (exists p' v', first_row (all_pick_rows d preferred shas) p' v' /\
        sha256 p' = sha256 p) as (p' & v' & Hf & Hs).
      { clear -Hin. induction (all_pick_rows d preferred shas) as [|[p0 v0] rs IH]; [by inv Hin|].
        destruct (decide (sha256 p0 = sha256 p)) as [Hs|Hs].
        - exists p0, v0. split; [|done]. exists [], rs. split; [done|]. intros r Hr. by inv Hr.
        - apply elem_of_cons in Hin as [[= -> ->]|Hin]; [done|].
          destruct (IH Hin) as (p' & v' & (pre & post & -> & Hpre) & Hs'). exists p', v'.
          split; [|done]. exists ((p0, v0) :: pre), post. split; [done|].
          intros r [->|Hr]%elem_of_cons; [cbn; congruence|auto]. }
      apply Hno. exists (label v'), p'. split; [|done]. apply Hpairs. eauto.
  - intros l p (v & Hl & Hf)%Hpairs. pose proof (Hrow _ _ Hf) as (Hs & Hserv & Hin).
    apply elem_of_pack_volume_rows in Hin as (Hp & Hv & Hvp).
    split_and!; [done|done|]. exists v. split_and!; [done..|]. intros v' Hv' Hserv' Hvp'.
    eapply first_row_best; [done|done|done|]. by apply elem_of_pack_volume_rows.
Qed.

(** ** Properties *)

(** The archive summary partitions the packs: every pack is counted in
    exactly one of pruned, archived, staged and unarchived, and the staged and
    unarchived ones together are exactly the pool the next stage burns
    ([get_unarchived_packs]). *)
Theorem archive_summary_partition d :
  catalog_wf d ->
  let s := get_archive_status_summary d in
  as_total s = as_pruned s + as_archived s + as_staged s + as_unarchived s /\
  as_staged s + as_unarchived s = len (get_unarchived_packs d None).
Proof.
  intros W. cbn. split; [by apply summary_count|].
  unfold get_unarchived_packs. rewrite (Permutation_length (order_by_perm _ _)).
  symmetry. by apply unarchived_count.
Qed.
Lemma archive_summary_partition_witness :
  let s := get_archive_status_summary demo_catalog in
  as_total s = as_pruned s + as_archived s + as_staged s + as_unarchived s /\
  as_staged s + as_unarchived s = len (get_unarchived_packs demo_catalog None).
Proof. apply (archive_summary_partition demo_catalog demo_catalog_wf). Defined.

(** A pick list covers a restore exactly and picks well.  For any list of
    required hashes, with repetitions and of any length (the queries run in
    batches): a required hash is either reported missing or assigned, never
    both; no pack is assigned twice; and a pack is assigned only if required,
    to the label of a volume in service that holds it and that no other
    candidate precedes in the order durable first, preferred location next,
    label last. *)
Theorem pick_list_spec d shas preferred :
  catalog_wf d ->
  let m := get_pick_list d shas preferred in
  (forall h, h ∈ shas ->
     h ∈ get_missing_packs d shas <-> ~ exists l p, (l, p) ∈ pairs m /\ sha256 p = h) /\
  NoDup ((fun q : string * Pack => sha256 q.2) <$> pairs m) /\
  (forall l p, (l, p) ∈ pairs m ->
     sha256 p ∈ shas /\ p ∈ packs d /\
     exists v, v ∈ volumes d /\ label v = l /\ in_service v = true /\
       mkVolumePack (volume_id v) (pack_id p) ∈ volume_packs d /\
       forall v', v' ∈ volumes d -> in_service v' = true ->
         mkVolumePack (volume_id v') (pack_id p) ∈ volume_packs d ->
         pick_order preferred (p, v) (p, v') = true).
Proof. apply pick_list_lemma. Qed.
Lemma pick_list_spec_witness :
  let m := get_pick_list demo_catalog ["bb"; "zz"; "dd"; "bb"] "Safe" in
  (forall h, h ∈ ["bb"; "zz"; "dd"; "bb"] ->
     h ∈ get_missing_packs demo_catalog ["bb"; "zz"; "dd"; "bb"]
     <-> ~ exists l p, (l, p) ∈ pairs m /\ sha256 p = h) /\
  NoDup ((fun q : string * Pack => sha256 q.2) <$> pairs m) /\
  (forall l p, (l, p) ∈ pairs m ->
     sha256 p ∈ ["bb"; "zz"; "dd"; "bb"] /\ p ∈ packs demo_catalog /\
     exists v, v ∈ volumes demo_catalog /\ label v = l /\ in_service v = true /\
       mkVolumePack (volume_id v) (pack_id p) ∈ volume_packs demo_catalog /\
       forall v', v' ∈ volumes demo_catalog -> in_service v' = true ->
         mkVolumePack (volume_id v') (pack_id p) ∈ volume_packs demo_catalog ->
         pick_order "Safe" (p, v) (p, v') = true).
Proof. apply (pick_list_spec demo_catalog ["bb"; "zz"; "dd"; "bb"] "Safe" demo_catalog_wf). Defined.

(** The model evaluated: the disc at the preferred location is picked, and two
    hashes have no volume in service. *)
Example demo_pick :
  (fun e : string * list Pack => (e.1, sha256 <$> e.2)) <$> get_pick_list demo_catalog ["bb"; "zz"; "dd"; "bb"] "Safe"
    = [("V2", ["bb"])] /\
  get_missing_packs demo_catalog ["bb"; "zz"; "dd"; "bb"] = ["zz"; "dd"].
Proof. split; vm_compute; reflexivity. Qed.

(** A pack whose only volume was staged and never burned counts as stored
    on one disc in the redundancy report (a volume without disc records counts
    by status, and the status is not asked to be a burned one), although the
    stage pool, which asks for a burned status, still lists it as on no disc. *)
Theorem redundancy_counts_staged d p v :
  catalog_wf d -> p ∈ packs d -> is_pruned p = false ->
  v ∈ volumes d -> never_burned v = true -> has_copies d v = false ->
  mkVolumePack (volume_id v) (pack_id p) ∈ volume_packs d ->
  (forall vp, vp ∈ volume_packs d -> vp_pack_id vp = pack_id p -> vp_volume_id vp = volume_id v) ->
  p ∈ get_unarchived_packs d None /\ p ∉ get_redundancy_report d 1.
Proof.
  intros W Hp Hpr Hv Hnb Hnc Hl Honly. split.
  - apply elem_of_order_by, elem_of_where. split; [|done]. unfold unarchived. rewrite Hpr.
    cbn [negb andb in_repo]. rewrite andb_true_r. apply negb_true_iff, not_true_iff_false.
    intros (vp & v' & Hvp & Hpp & Hv' & Hid & Hd)%on_volume_true.
    assert (v' = v) as ->.
    { eapply (key_unique volume_id); [apply W|done..|]. rewrite Hid. by apply Honly. }
    unfold never_burned in Hnb. unfold is_durable in Hd.
    apply (proj1 (sql_in_true _ _)) in Hnb, Hd. set_unfold in Hnb. set_unfold in Hd.
    destruct Hnb as [Hs|[Hs|[]]]; rewrite Hs in Hd; by destruct Hd as [|[|[|[]]]].
  - unfold get_redundancy_report. rewrite elem_of_order_by, elem_of_where. intros [H _].
    apply andb_true_iff in H as [_ H]. apply Z.ltb_lt in H.
    enough (1 <= copy_count d p) by lia. clear H. unfold copy_count.
    assert (mkVolumePack (volume_id v) (pack_id p) ∈
      where_ (fun vp => sql_eq (vp_pack_id vp) (pack_id p)) (volume_packs d)) as Hin.
    { apply elem_of_where. split; [by apply sql_eq_true|done]. }
    set (f := fun vp => match where_ _ (volumes d) with v :: _ => replica_count d v | [] => 0 end).
    assert (f (mkVolumePack (volume_id v) (pack_id p)) = 1) as H1.
    { unfold f. cbn [vp_volume_id].
      assert (fetchone (where_ (fun v0 => sql_eq (volume_id v0) (volume_id v) && in_service v0)
        (volumes d)) = Some v) as Hf.
      { apply where_unique; [done| |].
        - rewrite (proj2 (sql_eq_true _ _) eq_refl). cbn [andb]. unfold in_service, never_burned in *.
          apply (proj1 (sql_in_true _ _)) in Hnb. set_unfold in Hnb.
          by destruct Hnb as [->|[->|[]]].
        - intros v' Hv' [Hi _]%andb_true_iff. eapply (key_unique volume_id); [apply W|done..|].
          by apply sql_eq_elim. }
      revert Hf. unfold fetchone. destruct (where_ (fun v0 => sql_eq (volume_id v0) (volume_id v) &&
        in_service v0) (volumes d)) as [|v' l]; [done|]. intros [= ->].
      unfold replica_count. by rewrite Hnc. }
    assert (forall x, 0 <= f x) as Hnn.
    { intros x. unfold f. destruct (where_ (fun v0 => sql_eq (volume_id v0) (vp_volume_id x) &&
        in_service v0) (volumes d)) as [|v' l]; [lia|]. unfold replica_count.
      destruct (negb _); [lia|apply count_where_nonneg]. }
    revert Hin. generalize (where_ (fun vp => sql_eq (vp_pack_id vp) (pack_id p)) (volume_packs d)).
    intros l. induction l as [|x l IH]; [by inv 1|]. csimpl. intros [<-|Hin]%elem_of_cons.
    + assert (0 <= sumZ (f <$> l)); [|lia]. clear -Hnn.
      induction l as [|y l IH]; csimpl; [lia|]. specialize (Hnn y). lia.
    + specialize (IH Hin). specialize (Hnn x). lia.
Qed.
Lemma redundancy_counts_staged_witness :
  mkPack 3 "cc" 30 "r1" false "2026-01-02" ∈ get_unarchived_packs demo_catalog None /\
  mkPack 3 "cc" 30 "r1" false "2026-01-02" ∉ get_redundancy_report demo_catalog 1.
Proof.
  apply (redundancy_counts_staged demo_catalog (mkPack 3 "cc" 30 "r1" false "2026-01-02")
           (demo_volume 3 "V3" "STAGING" "Home") demo_catalog_wf).
  - apply (bool_decide_unpack _). vm_compute. exact I.
  - reflexivity.
  - apply (bool_decide_unpack _). vm_compute. exact I.
  - reflexivity.
  - reflexivity.
  - apply (bool_decide_unpack _). vm_compute. exact I.
  - cbn. intros vp Hvp Hpp. set_unfold in Hvp.
    destruct Hvp as [->|[->|[->|[->|[->|[->|[]]]]]]]; cbn in *; done || lia.
Defined.
