(* ===== verification/PackProps.v ===== *)
(** * What a mirror scan does to the catalog

    Theorems about [Packs]: batched pruning is one update, registering a scan adds
    exactly the new packs, and together they bring the active packs of a
    repository in line with its mirror. *)

From S2P Require Import Prelude Sqlite Catalog VolumeEvents Queries Volumes Packs ArchiveProps.
Open Scope string_scope.
Open Scope list_scope.
Open Scope Z_scope.

(** ** Pruning in batches *)

Definition prune_rows (ids : list Z) (l : list Pack) : list Pack :=
  update_where (fun p => sql_in (pack_id p) ids) (set_pruned true) l.
Definition prunable (ids : list Z) (p : Pack) : bool :=
  sql_in (pack_id p) ids && negb (is_pruned p).

Lemma set_pruned_idem p : is_pruned p = true -> set_pruned true p = p.
Proof. destruct p. cbn. by intros ->. Qed.
Lemma prune_rows_prunable ids l :
  update_where (prunable ids) (set_pruned true) l = prune_rows ids l.
Proof.
  apply list_fmap_ext. intros i p _. unfold prunable. destruct (sql_in _ _); [|done].
  destruct (is_pruned p) eqn:E; [|done]. symmetry. by apply set_pruned_idem.
Qed.
Lemma prune_rows_app a b l : prune_rows b (prune_rows a l) = prune_rows (a ++ b) l.
Proof.
  unfold prune_rows, update_where. rewrite <- list_fmap_compose. apply list_fmap_ext.
  intros i p _. unfold sql_in. cbn [compose]. destruct p as [k s z r pr cr]. unfold compose. cbn.
  repeat case_bool_decide; cbn in *; try done; set_solver.
Qed.
Lemma prune_count_app a b l :
  count_where (prunable a) l + count_where (prunable b) (prune_rows a l)
  = count_where (prunable (a ++ b)) l.
Proof.
  induction l as [|p l IH]; [done|]. unfold prune_rows, update_where in *. csimpl.
  rewrite !count_where_cons. rewrite <- IH.
  assert ((if prunable a p then 1 else 0) +
          (if prunable b (if sql_in (pack_id p) a then set_pruned true p else p) then 1 else 0)
          = (if prunable (a ++ b) p then 1 else 0)) as H; [|lia].
  unfold prunable, sql_in. destruct p as [k s z r pr cr]. cbn.
  repeat case_bool_decide; destruct pr; cbn in *; try done; set_solver.
Qed.

Lemma prune_batches_run bs : forall u c,
  prune_batches u bs c
  = (Ok (u + count_where (prunable (concat bs)) (packs (current c))),
     match bs with
     | [] => c
     | _ => mkConn (committed c) (set_packs (current c) (prune_rows (concat bs) (packs (current c)))) true
     end).
Proof.
  induction bs as [|b bs IH]; intros u c; cbn [prune_batches concat].
  { assert (count_where (prunable []) (packs (current c)) = 0) as ->.
    { apply count_where_zero. intros p _. apply andb_false_iff. left. by apply sql_in_false, not_elem_of_nil. }
    by rewrite Z.add_0_r. }
  unfold prune_batch. erewrite db_bind_Ok; [|reflexivity]. rewrite IH.
  cbn [current committed]. fold (prunable b). rewrite prune_rows_prunable.
  change (packs (set_packs ?d ?l)) with l. rewrite prune_rows_app.
  f_equal; [by rewrite <- prune_count_app, Z.add_assoc|].
  destruct bs; [|done]. by rewrite app_nil_r.
Qed.

(** ** Registering a scan *)

Section register.
Variables (repo now : string).

(** The rows that new scan entries become, numbered from [n]. *)
Fixpoint new_rows (n : Z) (entries : list (string * Z)) : list Pack :=
  match entries with
  | [] => []
  | (sha, size) :: entries => mkPack (n + 1) sha size repo false now :: new_rows (n + 1) entries
  end.
(** The catalog with rows appended to [packs]. *)
Definition with_new_packs (d : Catalog) (entries : list (string * Z)) : Catalog :=
  set_seqs (set_packs d (packs d ++ new_rows (seq_packs d) entries))
    (seq_volumes d) (seq_packs d + len entries) (seq_copies d) (seq_events d).

Lemma new_rows_sha n entries : sha256 <$> new_rows n entries = entries.*1.
Proof using. revert n. induction entries as [|[s z] l IH]; intros n; csimpl; [done|]. by rewrite IH. Qed.
Lemma elem_of_new_rows n entries p :
  p ∈ new_rows n entries -> is_pruned p = false /\ repo_id p = repo /\ (sha256 p, size_bytes p) ∈ entries.
Proof using.
  revert n. induction entries as [|[s z] l IH]; intros n; cbn [new_rows]; [by intros H; inv H|].
  intros [->|Hp]%elem_of_cons; [split_and!; [done..|left]|].
  destruct (IH _ Hp) as (? & ? & ?). split_and!; [done..|by right].
Qed.

Lemma insert_new_pack d sha size :
  has_repo d repo = true -> sha ∉ sha256 <$> packs d ->
  insert_or_ignore_pack now sha size repo d = Ok (tt, with_new_packs d [(sha, size)]).
Proof using.
  intros Hr Hs. unfold insert_or_ignore_pack.
  assert (exists_row (fun p => sql_eq (sha256 p) sha) (packs d) = false) as ->.
  { apply exists_row_false. intros p Hp. apply sql_eq_false. intros <-. apply Hs.
    by apply list_elem_of_fmap_2. }
  by rewrite Hr.
Qed.

Lemma with_new_packs_cons d sha size l :
  with_new_packs (with_new_packs d [(sha, size)]) l = with_new_packs d ((sha, size) :: l).
Proof using.
  unfold with_new_packs. cbn [new_rows packs set_packs set_seqs seq_packs seq_volumes seq_copies seq_events].
  rewrite <- app_assoc. cbn [app]. destruct d. unfold set_seqs, set_packs. cbn. f_equal; lia.
Qed.

Lemma register_entries l : forall c,
  has_repo (current c) repo = true -> NoDup l.*1 ->
  (forall s, s ∈ l.*1 -> s ∉ sha256 <$> packs (current c)) -> l <> [] ->
  executemany (fun '(sha, size, r) => insert_or_ignore_pack now sha size r)
    ((fun '(sha, size) => (sha, size, repo)) <$> l) c
  = (Ok tt, mkConn (committed c) (with_new_packs (current c) l) true).
Proof using.
  induction l as [|[s z] l IH]; intros c Hr Hnd Hnew Hne; [done|]. csimpl in *. cbn [executemany].
  apply NoDup_cons in Hnd as [Hs Hnd].
  assert (s ∉ sha256 <$> packs (current c)) as Hs' by (apply Hnew; left).
  erewrite db_bind_Ok.
  2: { unfold execute. by rewrite insert_new_pack. }
  destruct l as [|e l]; [by csimpl|].
  rewrite <- (with_new_packs_cons _ _ _ (e :: l)), IH; [done|done|done| |done]. cbn [current]. intros s' Hin.
  change (packs (with_new_packs (current c) [(s, z)]))
    with (packs (current c) ++ [mkPack (seq_packs (current c) + 1) s z repo false now]).
  rewrite fmap_app. csimpl. intros [H|H]%elem_of_app.
  - apply (Hnew s'); [by right|done].
  - apply list_elem_of_singleton in H. by subst s'.
Qed.
End register.

Section scan.
Variables (scan : list (string * Z)) (repo now : string).

Definition new_entries (d : Catalog) : list (string * Z) :=
  where_ (fun e => negb (sql_in e.1 (sha256 <$> packs d))) scan.

Lemma elem_of_known_hashes d shas h :
  h ∈ known_hashes d shas <-> h ∈ shas /\ h ∈ sha256 <$> packs d.
Proof using.
  unfold known_hashes. rewrite list_elem_of_bind. split.
  - intros (b & (p & -> & [Hin%sql_in_true Hp]%elem_of_where)%list_elem_of_fmap & Hb).
    split; [by eapply elem_of_batches; [apply batch_pos|..]|by apply list_elem_of_fmap_2].
  - intros [Hs (p & -> & Hp)%list_elem_of_fmap].
    destruct (batches_cover _ _ _ batch_pos Hs) as (b & Hb & Hsb). exists b. split; [|done].
    apply list_elem_of_fmap_2, elem_of_where. by split; [apply sql_in_true|].
Qed.

Lemma new_tuples_eq d :
  where_ (fun '(sha, _, _) => negb (sql_in sha (known_hashes d scan.*1)))
    ((fun '(sha, size) => (sha, size, repo)) <$> scan)
  = (fun '(sha, size) => (sha, size, repo)) <$> new_entries d.
Proof using.
  unfold new_entries.
  assert (forall l, l ⊆ scan ->
    where_ (fun '(sha, _, _) => negb (sql_in sha (known_hashes d scan.*1)))
      ((fun '(sha, size) => (sha, size, repo)) <$> l)
    = (fun '(sha, size) => (sha, size, repo)) <$>
        where_ (fun e => negb (sql_in e.1 (sha256 <$> packs d))) l) as H; [|by apply H].
  induction l as [|[s z] l IH]; intros Hsub; [done|]. unfold where_ in *. csimpl.
  rewrite IH by set_solver.
  assert (sql_in s (known_hashes d scan.*1) = sql_in s (sha256 <$> packs d)) as ->.
  { apply bool_decide_ext. rewrite elem_of_known_hashes. split; [by intros []|]. split; [|done].
    apply (list_elem_of_fmap_2 fst _ (s, z)). apply Hsub. left. }
  by destruct (sql_in _ _).
Qed.

Lemma new_entries_ok d :
  NoDup scan.*1 -> NoDup (new_entries d).*1 /\
  forall s, s ∈ (new_entries d).*1 -> s ∉ sha256 <$> packs d.
Proof using.
  intros Hnd. split; [by apply where_NoDup_key|].
  intros s (e & -> & [Hw _]%elem_of_where)%list_elem_of_fmap.
  by apply negb_true_iff, sql_in_false in Hw.
Qed.
End scan.

(** The packs looked up again by hash, batch by batch. *)
Lemma map_get_found (m : list (string * Pack)) k p :
  NoDup m.*1 -> (k, p) ∈ m -> map_get m k = Ok p.
Proof.
  intros Hnd Hin. unfold map_get.
  assert (List.find (fun e => sql_eq e.1 k) m = Some (k, p)) as ->; [|done].
  induction m as [|[k' q] m IH]; [by inv Hin|]. csimpl in *. apply NoDup_cons in Hnd as [Hk Hnd].
  apply elem_of_cons in Hin as [[= <- <-]|Hin].
  - by rewrite (proj2 (sql_eq_true _ _) eq_refl).
  - rewrite (proj2 (sql_eq_false _ _)); [by apply IH|]. intros ->. apply Hk.
    by apply (list_elem_of_fmap_2 fst) in Hin.
Qed.
Definition pack_map (d : Catalog) (shas : list string) : list (string * Pack) :=
  foldl (fun m batch => foldl (fun m p => dict_set (sha256 p) p m) m
           (where_ (fun p => sql_in (sha256 p) batch) (packs d))) [] (batches _SQLITE_BATCH shas).

Lemma pack_map_get d shas p :
  catalog_wf d -> p ∈ packs d -> sha256 p ∈ shas -> map_get (pack_map d shas) (sha256 p) = Ok p.
Proof.
  intros W Hp Hs. unfold pack_map.
  set (rows b := where_ (fun p => sql_in (sha256 p) b) (packs d)).
  assert (forall bs m, foldl (fun m b => foldl (fun m p => dict_set (sha256 p) p m) m (rows b)) m bs
    = foldl (fun m p => dict_set (sha256 p) p m) m (concat (rows <$> bs))) as ->.
  { induction bs as [|b bs IH]; intros m; csimpl; [done|]. by rewrite IH, foldl_app. }
  destruct (dict_of_rows sha256 (packs d) (wf_pack_sha d W)
              (concat (rows <$> batches _SQLITE_BATCH shas)) []) as [[Hnd _] He].
  - intros q (? & (b & -> & _)%list_elem_of_fmap & Hq)%elem_of_concat. unfold rows in Hq. by apply elem_of_where in Hq as [_ Hq].
  - split; [constructor|]. intros e H. by inv H.
  - apply map_get_found; [done|]. apply He. right. exists p. split; [|done]. apply elem_of_concat.
    destruct (batches_cover _ _ _ batch_pos Hs) as (b & Hb & Hsb). exists (rows b).
    split; [by apply list_elem_of_fmap_2|]. apply elem_of_where. by split; [apply sql_in_true|].
Qed.
Lemma mapM_res_keys {A K} (f : K -> res A) (key : A -> K) l :
  (forall x, x ∈ l -> f (key x) = Ok x) -> mapM_res f (key <$> l) = Ok l.
Proof.
  induction l as [|x l IH]; intros H; [done|]. csimpl. cbn [mapM_res].
  rewrite H, bind_Ok by left. by rewrite IH by (intros; apply H; by right).
Qed.
Lemma pack_map_all d ps :
  catalog_wf d -> ps ⊆ packs d ->
  mapM_res (map_get (pack_map d (sha256 <$> ps))) (sha256 <$> ps) = Ok ps.
Proof.
  intros W Hps. apply mapM_res_keys. intros p Hp.
  apply pack_map_get; [done|by apply Hps|by apply list_elem_of_fmap_2].
Qed.

Lemma register_entries_wf repo now l c :
  catalog_wf (committed c) -> catalog_wf (current c) -> has_repo (current c) repo = true ->
  NoDup l.*1 -> (forall s, s ∈ l.*1 -> s ∉ sha256 <$> packs (current c)) -> l <> [] ->
  catalog_wf (with_new_packs repo now (current c) l).
Proof.
  intros Wc W Hr Hnd Hnew Hne.
  assert (keeps catalog_wf (executemany (fun '(sha, size, r) => insert_or_ignore_pack now sha size r)
            ((fun '(sha, size) => (sha, size, repo)) <$> l))) as Hk.
  { apply keeps_executemany. intros [[sha size] r] d a d' Hd H. by eapply wf_insert_or_ignore_pack. }
  specialize (Hk c Wc W). rewrite register_entries in Hk by done. apply Hk.
Qed.

Lemma bulk_register_run repo now l c :
  catalog_wf (committed c) -> catalog_wf (current c) -> has_repo (current c) repo = true ->
  NoDup l.*1 -> (forall s, s ∈ l.*1 -> s ∉ sha256 <$> packs (current c)) -> l <> [] ->
  let d' := with_new_packs repo now (current c) l in
  bulk_register now ((fun '(sha, size) => (sha, size, repo)) <$> l) c
  = (Ok (new_rows repo now (seq_packs (current c)) l), mkConn d' d' false).
Proof.
  intros Wc W Hr Hnd Hnew Hne d'. pose proof (register_entries_wf repo now l c Wc W Hr Hnd Hnew Hne) as W'.
  pose proof (register_entries repo now l c Hr Hnd Hnew Hne) as Hrun.
  set (tuples := (fun '(sha, size) => (sha, size, repo)) <$> l) in *.
  assert ((fun '(sha, _, _) => sha) <$> tuples = sha256 <$> new_rows repo now (seq_packs (current c)) l) as Hsha.
  { rewrite new_rows_sha. subst tuples. rewrite <- list_fmap_compose. apply list_fmap_ext. by intros ? [? ?]. }
  assert (tuples <> []) as Ht by (by subst tuples; destruct l as [|[]]).
  unfold bulk_register. destruct tuples as [|t tuples'] eqn:E; [done|]. rewrite <- E in *. clear Ht.
  rewrite (db_bind_Ok _ _ _ _ _ Hrun). unfold mbind, db_bind, commit, query, pure_res. cbv zeta.
  cbn [current committed]. fold d'. rewrite Hsha.
  change (foldl _ [] _) with (pack_map d' (sha256 <$> new_rows repo now (seq_packs (current c)) l)).
  rewrite pack_map_all; [done|done|]. intros p Hp. apply elem_of_app. by right.
Qed.

Lemma register_new_packs_run scan repo now c :
  catalog_wf (committed c) -> catalog_wf (current c) -> has_repo (current c) repo = true ->
  NoDup scan.*1 ->
  let l := new_entries scan (current c) in
  register_new_packs scan (Some repo) now c
  = (Ok (new_rows repo now (seq_packs (current c)) l),
     match l with [] => c | _ => let d' := with_new_packs repo now (current c) l in mkConn d' d' false end).
Proof.
  intros Wc W Hr Hnd l. destruct (new_entries_ok scan (current c) Hnd) as [Hl Hnew]. revert Hl Hnew. subst l. unfold register_new_packs.
  destruct scan as [|e0 scan0] eqn:E; [done|]. rewrite <- E in *. cbv zeta.
  unfold query, mbind, db_bind. rewrite new_tuples_eq. set (l := new_entries scan (current c)).
  intros Hl Hnew. destruct l as [|e l'] eqn:El; [done|]. rewrite <- El in *.
  assert ((fun '(sha, size) => (sha, size, repo)) <$> l <> []) as Ht by (by rewrite El; destruct e).
  destruct ((fun '(sha, size) => (sha, size, repo)) <$> l) as [|t ts] eqn:Et; [done|]. rewrite <- Et.
  apply bulk_register_run; [done..|]. by rewrite El.
Qed.

Lemma new_rows_entries repo now n l :
  (fun p => (sha256 p, size_bytes p)) <$> new_rows repo now n l = l.
Proof. revert n. induction l as [|[s z] l IH]; intros n; csimpl; [done|]. by rewrite IH. Qed.

Lemma bulk_mark_pruned_run ids c :
  bulk_mark_pruned ids c
  = (Ok (count_where (prunable ids) (packs (current c))),
     match ids with
     | [] => c
     | _ => let d' := set_packs (current c) (prune_rows ids (packs (current c))) in mkConn d' d' false
     end).
Proof.
  destruct (decide (ids = [])) as [->|Hne]; unfold bulk_mark_pruned.
  - unfold mret, db_ret. f_equal. f_equal. symmetry. apply count_where_zero. intros p _.
    apply andb_false_iff. left. by apply sql_in_false, not_elem_of_nil.
  - pose proof (prune_batches_run (batches _SQLITE_BATCH ids) 0 c) as Hrun.
    rewrite batches_concat in Hrun by apply batch_pos. destruct ids as [|i ids]; [done|].
    rewrite (db_bind_Ok _ _ _ _ _ Hrun). done.
Qed.

(** What a prune leaves active. *)
Lemma elem_of_prune_rows ids l p :
  p ∈ prune_rows ids l /\ is_pruned p = false <->
  p ∈ l /\ is_pruned p = false /\ pack_id p ∉ ids.
Proof.
  unfold prune_rows. rewrite elem_of_update_where. split.
  - intros [(q & Hq & ->) Hp]. destruct (sql_in (pack_id q) ids) eqn:E; [done|].
    by apply sql_in_false in E.
  - intros (Hp & Hpr & Hi). split; [|done]. exists p. split; [done|].
    by rewrite (proj2 (sql_in_false _ _) Hi).
Qed.

Lemma elem_of_detect_pruned scan repo d p :
  scan <> [] ->
  p ∈ detect_pruned scan (Some repo) d <->
  p ∈ packs d /\ repo_id p = repo /\ is_pruned p = false /\ sha256 p ∉ scan.*1.
Proof.
  intros Hne. unfold detect_pruned. destruct scan as [|e scan0] eqn:E; [done|]. rewrite <- E in *.
  unfold list_packs. rewrite elem_of_where, elem_of_order_by, elem_of_where.
  rewrite andb_true_iff, !negb_true_iff, sql_in_false, sql_eq_true. cbn [orb]. rewrite negb_true_iff. tauto.
Qed.

(** ** Properties *)

(** Pruning in batches of 900 is one update: for any list of ids,
    [bulk_mark_pruned] sets exactly the packs of those ids, commits (unless
    the list is empty), and counts each pack that was active before once, even
    if its id is repeated across batches. *)
Theorem bulk_mark_pruned_spec ids c :
  let '(r, c') := bulk_mark_pruned ids c in
  r = Ok (count_where (fun p => sql_in (pack_id p) ids && negb (is_pruned p)) (packs (current c))) /\
  current c' = set_packs (current c)
                 (update_where (fun p => sql_in (pack_id p) ids) (set_pruned true) (packs (current c))) /\
  (ids <> [] -> committed c' = current c' /\ in_transaction c' = false).
Proof.
  rewrite bulk_mark_pruned_run. split; [done|]. destruct ids as [|i ids]; [|done]. split; [|done].
  assert (update_where (fun p => sql_in (pack_id p) []) (set_pruned true) (packs (current c))
    = packs (current c)) as ->; [|by destruct (current c)].
  unfold update_where. rewrite <- list_fmap_id. apply list_fmap_ext. intros j p _.
  by rewrite (proj2 (sql_in_false _ _)) by apply not_elem_of_nil.
Qed.

(** Registering a mirror scan adds exactly what is new: the packs whose hash
    the catalog does not know, in the order and with the sizes of the scan,
    active, under the scan's repository; every row that was there is unchanged
    (a known hash keeps its recorded size); the result is those new packs,
    committed; and registering the same scan again does nothing. *)
Theorem register_new_packs_spec scan repo now now' c :
  catalog_wf (committed c) -> catalog_wf (current c) -> has_repo (current c) repo = true ->
  NoDup scan.*1 ->
  let '(r, c') := register_new_packs scan (Some repo) now c in
  exists new, r = Ok new /\ packs (current c') = packs (current c) ++ new /\
    (fun p => (sha256 p, size_bytes p)) <$> new
      = where_ (fun e => negb (sql_in e.1 (sha256 <$> packs (current c)))) scan /\
    Forall (fun p => repo_id p = repo /\ is_pruned p = false) new /\
    (new <> [] -> committed c' = current c') /\
    register_new_packs scan (Some repo) now' c' = (Ok [], c').
Proof.
  intros Wc W Hr Hnd. pose proof (keeps_register_new_packs scan (Some repo) now c Wc W) as [Wc' W'].
  rewrite register_new_packs_run in * by done. set (l := new_entries scan (current c)) in *.
  exists (new_rows repo now (seq_packs (current c)) l). cbn [snd] in Wc', W'.
  set (c' := match l with [] => c | _ => _ end) in *.
  assert (packs (current c') = packs (current c) ++ new_rows repo now (seq_packs (current c)) l) as Hp.
  { subst c'. destruct l; [by rewrite app_nil_r|done]. }
  assert (has_repo (current c') repo = true) as Hr' by (subst c'; by destruct l).
  split_and!; [done|done|apply new_rows_entries| | |].
  - apply Forall_forall. intros p Hin. by apply elem_of_new_rows in Hin as (? & ? & _).
  - subst c'. by destruct l as [|[]].
  - rewrite register_new_packs_run by done.
    assert (new_entries scan (current c') = []) as ->; [|done].
    destruct (new_entries scan (current c')) as [|e l'] eqn:E; [done|]. exfalso.
    assert (e ∈ new_entries scan (current c')) as [Hw Hin]%elem_of_where by (rewrite E; left).
    apply negb_true_iff, sql_in_false in Hw. apply Hw. rewrite Hp, fmap_app, new_rows_sha.
    destruct (decide (e.1 ∈ sha256 <$> packs (current c))) as [|Hno]; [set_solver|].
    apply elem_of_app. right. apply (list_elem_of_fmap_2 fst). apply elem_of_where.
    split; [|done]. by apply negb_true_iff, sql_in_false.
Qed.
Lemma register_new_packs_spec_witness :
  let '(r, c') := register_new_packs [("bb", 21); ("ee", 5)] (Some "r1") "t" demo_conn in
  exists new, r = Ok new /\ packs (current c') = packs (current demo_conn) ++ new /\
    (fun p => (sha256 p, size_bytes p)) <$> new
      = where_ (fun e => negb (sql_in e.1 (sha256 <$> packs (current demo_conn)))) [("bb", 21); ("ee", 5)] /\
    Forall (fun p => repo_id p = "r1" /\ is_pruned p = false) new /\
    (new <> [] -> committed c' = current c') /\
    register_new_packs [("bb", 21); ("ee", 5)] (Some "r1") "u" c' = (Ok [], c').
Proof.
  apply (register_new_packs_spec [("bb", 21); ("ee", 5)] "r1" "t" "u" demo_conn demo_catalog_wf
    demo_catalog_wf eq_refl). apply (bool_decide_unpack _). vm_compute. exact I.
Defined.

(** A mirror synchronisation converges: after a (non-empty) scan has been
    registered and the packs it does not contain have been pruned, the active
    packs of the repository are all on the mirror, every hash of the mirror is
    in the catalog, and packs of other repositories are as they were. *)
Theorem mirror_sync scan repo now c :
  catalog_wf (committed c) -> catalog_wf (current c) -> has_repo (current c) repo = true ->
  NoDup scan.*1 -> scan <> [] ->
  let c1 := (register_new_packs scan (Some repo) now c).2 in
  let c2 := (bulk_mark_pruned (pack_id <$> detect_pruned scan (Some repo) (current c1)) c1).2 in
  (forall p, p ∈ packs (current c2) -> repo_id p = repo -> is_pruned p = false -> sha256 p ∈ scan.*1) /\
  (forall h, h ∈ scan.*1 -> h ∈ sha256 <$> packs (current c2)) /\
  (forall p, repo_id p <> repo -> p ∈ packs (current c) -> p ∈ packs (current c2)).
Proof.
  intros Wc W Hr Hnd Hne c1 c2. pose proof (keeps_register_new_packs scan (Some repo) now c Wc W) as [_ W1].
  fold c1 in W1. set (gone := detect_pruned scan (Some repo) (current c1)) in *.
  assert (packs (current c2) = prune_rows (pack_id <$> gone) (packs (current c1))) as Hc2.
  { subst c2. rewrite bulk_mark_pruned_run. destruct gone; [|done]. cbn [snd fmap list_fmap].
    unfold prune_rows, update_where. rewrite <- list_fmap_id at 1. apply list_fmap_ext. intros j p _.
    by rewrite (proj2 (sql_in_false _ _)) by apply not_elem_of_nil. }
  assert (packs (current c1) = packs (current c) ++
    new_rows repo now (seq_packs (current c)) (new_entries scan (current c))) as Hc1.
  { subst c1. rewrite register_new_packs_run by done.
    destruct (new_entries scan (current c)); [by rewrite app_nil_r|done]. }
  split_and!.
  - intros p Hp Hrep Hpr. rewrite Hc2 in Hp.
    destruct (proj1 (elem_of_prune_rows _ _ _) (conj Hp Hpr)) as (Hp1 & _ & Hi).
    destruct (decide (sha256 p ∈ scan.*1)) as [|Hno]; [done|]. exfalso. apply Hi, list_elem_of_fmap_2.
    by apply elem_of_detect_pruned.
  - intros h Hh. rewrite Hc2. unfold prune_rows. rewrite (update_where_key sha256) by done.
    rewrite Hc1, fmap_app, new_rows_sha. apply elem_of_app.
    destruct (decide (h ∈ sha256 <$> packs (current c))) as [|Hno]; [by left|right].
    apply list_elem_of_fmap in Hh as (e & -> & He). apply (list_elem_of_fmap_2 fst), elem_of_where.
    split; [|done]. by apply negb_true_iff, sql_in_false.
  - intros p Hrep Hp. rewrite Hc2. unfold prune_rows. apply elem_of_update_where. exists p.
    split; [rewrite Hc1; apply elem_of_app; by left|].
    rewrite (proj2 (sql_in_false _ _)); [done|].
    intros (q & Hid & (Hq & Hrq & _)%elem_of_detect_pruned)%list_elem_of_fmap; [|done].
    assert (p = q) as ->; [|done]. eapply (key_unique pack_id); [apply W1| |done|done].
    rewrite Hc1. apply elem_of_app. by left.
Qed.
Lemma mirror_sync_witness :
  let c1 := (register_new_packs [("bb", 20); ("ee", 5)] (Some "r1") "t" demo_conn).2 in
  let c2 := (bulk_mark_pruned (pack_id <$> detect_pruned [("bb", 20); ("ee", 5)] (Some "r1") (current c1)) c1).2 in
  (forall p, p ∈ packs (current c2) -> repo_id p = "r1" -> is_pruned p = false ->
     sha256 p ∈ [("bb", 20); ("ee", 5)].*1) /\
  (forall h, h ∈ [("bb", 20); ("ee", 5)].*1 -> h ∈ sha256 <$> packs (current c2)) /\
  (forall p, repo_id p <> "r1" -> p ∈ packs (current demo_conn) -> p ∈ packs (current c2)).
Proof.
  apply (mirror_sync [("bb", 20); ("ee", 5)] "r1" "t" demo_conn demo_catalog_wf demo_catalog_wf eq_refl).
  - apply (bool_decide_unpack _). vm_compute. exact I.
  - discriminate.
Defined.
