(* ===== verification/BinPack.v ===== *)
(** * Bin packing and media

    [binpack/algorithm.py] and the media table of [config/media.py].  Log
    messages (oversized and multi-extent items) are not modelled. *)

From S2P Require Import Prelude Sqlite.
Open Scope string_scope.
Open Scope list_scope.
Open Scope Z_scope.

(** ** Media types *)

Inductive MediaType := CD700 | BD25 | BD50 | BDXL100 | MDISC25 | MDISC50 | MDISC100 | TEST_TINY.
Definition media_types : list MediaType :=
  [CD700; BD25; BD50; BDXL100; MDISC25; MDISC50; MDISC100; TEST_TINY].
#[export] Instance media_eq_dec : EqDecision MediaType. Proof. solve_decision. Defined.

Definition capacity_bytes (m : MediaType) : Z :=
  match m with
  | CD700 => 737280000 | BD25 | MDISC25 => 25025314816 | BD50 | MDISC50 => 50050629632
  | BDXL100 | MDISC100 => 100103356416 | TEST_TINY => 2097152
  end.
Definition ecc_overhead_pct (m : MediaType) : Z :=
  match m with TEST_TINY => 0 | _ => 15 end.
Definition family (m : MediaType) : string :=
  match m with
  | CD700 => "CD-R" | BD25 => "BD-R" | BD50 => "BD-R DL" | BDXL100 => "BD-R XL"
  | MDISC25 => "M-DISC" | MDISC50 => "M-DISC DL" | MDISC100 => "M-DISC XL" | TEST_TINY => "TEST"
  end.
Definition media_name (m : MediaType) : string :=
  match m with
  | CD700 => "CD700" | BD25 => "BD25" | BD50 => "BD50" | BDXL100 => "BDXL100"
  | MDISC25 => "MDISC25" | MDISC50 => "MDISC50" | MDISC100 => "MDISC100"
  | TEST_TINY => "TEST_TINY"
  end.
Definition is_test (m : MediaType) : bool := String.prefix "TEST" (media_name m).
Definition label_name (m : MediaType) : string := media_name m.

(** Python's [/] on integers: the quotient rounded to 53 bits, halves to even
    (the exponent range of a double is not modelled: it is met beyond 10^308). *)
Definition round_half_even (a b : Z) : Z :=
  let q := a / b in
  match Z.compare (2 * (a mod b)) b with Lt => q | Gt => q + 1 | Eq => q + q mod 2 end.
Definition scale_up (a s : Z) : Z := if 0 <=? s then a * 2 ^ s else a.
(** [truediv_shift a d] is the power of two that brings [a / d] to 53 bits. *)
Definition truediv_shift (a d : Z) : Z :=
  let s := 52 - (Z.log2 a - Z.log2 d) in
  if scale_up d (- s) * 2 ^ 52 <=? scale_up a s then s else s + 1.
(** [int(n / d)], for [d > 0] *)
Definition int_truediv (n d : Z) : Z :=
  let a := Z.abs n in
  if a =? 0 then 0
  else
    let s := truediv_shift a d in
    let m := round_half_even (scale_up a s) (scale_up d (- s)) in
    Z.sgn n * (if 0 <=? s then m / 2 ^ s else m * 2 ^ (- s)).

(** [int(x * pct / 100)] *)
Definition percent_of (x pct : Z) : Z := int_truediv (x * pct) 100.
Definition usable_bytes (m : MediaType) : Z :=
  percent_of (capacity_bytes m) (100 - ecc_overhead_pct m).

(** ** First-fit decreasing *)

Abbreviation item := (string * Z)%type.
(** [key=lambda x: (-x[1], x[0])] *)
Definition item_order : item -> item -> bool :=
  lex (fun x y => Z.compare (- x.2) (- y.2)) (by_key fst).

Definition ffd_step (usable : Z) (st : list item * list item * Z) (x : item) :
    list item * list item * Z :=
  let '(selected, remaining, current_fill) := st in
  if current_fill + x.2 <=? usable then (selected ++ [x], remaining, current_fill + x.2)
  else (selected, remaining ++ [x], current_fill).

Definition first_fit_decreasing (items : list item) (capacity reserved : Z) :
    list item * list item :=
  let usable := capacity - reserved in
  if usable <=? 0 then ([], items)
  else
    let '(selected, remaining, _) := foldl (ffd_step usable) ([], [], 0) (order_by item_order items) in
    (selected, remaining).

Definition estimate_volumes_needed (total_bytes capacity reserved ecc_pct : Z) : res Z :=
  if total_bytes <=? 0 then Ok 0
  else
    let usable := percent_of capacity (100 - ecc_pct) - reserved in
    if usable <=? 0 then Err ValueError
    else
      let count := (total_bytes + usable - 1) / usable in
      Ok (Z.max 1 count).

(** ** Lemmas *)

Lemma round_half_even_bounds a b :
  0 < b -> 0 <= a -> a / b <= round_half_even a b /\ 2 * (round_half_even a b * b) <= 2 * a + b.
Proof.
  intros Hb Ha. unfold round_half_even.
  pose proof (Z.div_mod a b ltac:(lia)) as Hd. pose proof (Z.mod_pos_bound a b Hb) as Hm.
  pose proof (Z.mod_pos_bound (a / b) 2 ltac:(lia)) as H2.
  destruct (Z.compare_spec (2 * (a mod b)) b); split; nia.
Qed.

Lemma truediv_shift_100 n : 0 < n < 2 ^ 53 -> 6 <= truediv_shift n 100.
Proof.
  intros Hn. unfold truediv_shift.
  assert (Z.log2 n < 53) by (apply Z.log2_lt_pow2; lia).
  change (Z.log2 100) with 6. destruct (_ <=? _); lia.
Qed.

(** Below 2^53 the double division loses nothing: the next multiple of 100 is
    further away than half a unit in the last place. *)
Lemma int_truediv_exact n : 0 <= n < 2 ^ 53 -> int_truediv n 100 = n / 100.
Proof.
  intros Hn. unfold int_truediv. rewrite Z.abs_eq by lia.
  destruct (Z.eqb_spec n 0) as [-> |Hn0]; [done|].
  pose proof (truediv_shift_100 n ltac:(lia)) as Hs. set (s := truediv_shift n 100) in *.
  unfold scale_up. rewrite (proj2 (Z.leb_le 0 s)) by lia.
  rewrite (proj2 (Z.leb_gt 0 (- s))) by lia. rewrite Z.sgn_pos, Z.mul_1_l by lia.
  assert (64 <= 2 ^ s) as Hp by (change 64 with (2 ^ 6); apply Z.pow_le_mono_r; lia).
  set (p := 2 ^ s) in *.
  pose proof (round_half_even_bounds (n * p) 100 ltac:(lia) ltac:(nia)) as [Hlo Hhi].
  set (m := round_half_even (n * p) 100) in *.
  pose proof (Z.div_mod n 100 ltac:(lia)) as Hd.
  pose proof (Z.mod_pos_bound n 100 ltac:(lia)) as Hm.
  assert (n / 100 * p <= n * p / 100) by (apply Z.div_le_lower_bound; nia).
  symmetry. apply (Z.div_unique _ _ _ (m - n / 100 * p)); nia.
Qed.

Definition total (l : list item) : Z := sumZ (snd <$> l).
Lemma total_app l l' : total (l ++ l') = total l + total l'.
Proof. unfold total. by rewrite fmap_app, sumZ_app. Qed.

Record ffd_inv (usable : Z) (done_ : list item) (st : list item * list item * Z) : Prop := {
  fi_perm : st.1.1 ++ st.1.2 ≡ₚ done_;
  fi_fill : st.2 = total st.1.1;
  fi_fits : st.2 <= usable;
  fi_rest : forall x, x ∈ st.1.2 -> usable < st.2 + x.2;
  fi_sub : st.1.1 `sublist_of` done_;
}.

Lemma ffd_step_inv usable done_ st x :
  0 <= x.2 -> ffd_inv usable done_ st -> ffd_inv usable (done_ ++ [x]) (ffd_step usable st x).
Proof.
  destruct st as [[sel rest] fill]. intros Hx [Hp Hf Hfit Hr Hs]. cbn [fst snd] in *. unfold ffd_step.
  destruct (Z.leb_spec (fill + x.2) usable).
  - constructor; cbn [fst snd].
    + rewrite <- Hp. rewrite <- !app_assoc. by rewrite (Permutation_app_comm [x]).
    + rewrite total_app, Hf. unfold total at 3. cbn. lia.
    + done.
    + intros y Hy. apply Hr in Hy. lia.
    + by apply sublist_app.
  - constructor; cbn [fst snd]; [|done|done| |].
    + by rewrite <- Hp, app_assoc.
    + intros y [Hy| ->%list_elem_of_singleton]%elem_of_app; [auto|lia].
    + by apply sublist_inserts_r.
Qed.
Lemma ffd_fold_inv usable l done_ st :
  Forall (fun x => 0 <= x.2) l -> ffd_inv usable done_ st ->
  ffd_inv usable (done_ ++ l) (foldl (ffd_step usable) st l).
Proof.
  intros Hl. revert done_ st. induction Hl as [|x l Hx Hl IH]; intros done_ st H; cbn.
  { by rewrite app_nil_r. }
  rewrite cons_middle, app_assoc. by apply IH, ffd_step_inv.
Qed.

Lemma item_order_ok : le_ok item_order.
Proof.
  unfold item_order. apply (le_ok_lex (fun x y : item => _)).
  - apply (cmp_ok_Z (fun x : item => - x.2)).
  - apply (le_ok_by_key (fst (A:=string) (B:=Z))).
Qed.

Lemma estimate_volumes_needed_lemma t capacity reserved ecc :
  let usable := percent_of capacity (100 - ecc) - reserved in
  match estimate_volumes_needed t capacity reserved ecc with
  | Ok n => (t <= 0 /\ n = 0) \/
            (0 < t /\ 0 < usable /\ 1 <= n /\ t <= n * usable /\ (n - 1) * usable < t)
  | Err e => e = ValueError /\ 0 < t /\ usable <= 0
  end.
Proof.
  cbv zeta. unfold estimate_volumes_needed. destruct (Z.leb_spec t 0); [by left|].
  set (u := percent_of capacity (100 - ecc) - reserved).
  destruct (Z.leb_spec u 0); [done|]. right.
  pose proof (Z.div_mod (t + u - 1) u ltac:(lia)) as Hd.
  pose proof (Z.mod_pos_bound (t + u - 1) u ltac:(lia)) as Hm.
  set (q := (t + u - 1) / u) in *. assert (1 <= q) by nia.
  rewrite Z.max_r by done. split_and!; try done; nia.
Qed.

(** ** Properties *)

(** First-fit decreasing never loses, duplicates or overfills: for items
    of non-negative sizes, what is selected and what remains are together
    exactly the items; the selection fits the usable capacity (and is empty
    when there is none); it is taken in the order of decreasing size; and no
    remaining item would still fit beside it. *)
Theorem first_fit_decreasing_spec items capacity reserved :
  Forall (fun x => 0 <= x.2) items ->
  let '(selected, remaining) := first_fit_decreasing items capacity reserved in
  selected ++ remaining ≡ₚ items /\
  total selected <= Z.max 0 (capacity - reserved) /\
  selected `sublist_of` order_by item_order items /\
  (0 < capacity - reserved -> forall x, x ∈ remaining -> capacity - reserved < total selected + x.2).
Proof.
  intros Hpos. unfold first_fit_decreasing. destruct (Z.leb_spec (capacity - reserved) 0).
  { split_and!; [done|cbn; lia|apply sublist_nil_l|lia]. }
  assert (ffd_inv (capacity - reserved) [] ([], [], 0)) as H0.
  { constructor; cbn; [done|done|lia| |done]. intros x Hx. by inv Hx. }
  pose proof (ffd_fold_inv (capacity - reserved) (order_by item_order items) _ _
    ltac:(by rewrite order_by_perm) H0) as [Hp Hf Hfit Hr Hs].
  destruct (foldl _ _ _) as [[sel rest] fill]. cbn [fst snd app] in *. subst fill.
  split_and!; [|lia|done|auto]. by rewrite Hp, order_by_perm.
Qed.
Definition demo_items : list item := [("a", 4); ("b", 7); ("c", 3); ("d", 7); ("e", 2)].
Lemma first_fit_decreasing_spec_witness :
  let '(selected, remaining) := first_fit_decreasing demo_items 20 4 in
  selected ++ remaining ≡ₚ demo_items /\
  total selected <= Z.max 0 (20 - 4) /\
  selected `sublist_of` order_by item_order demo_items /\
  (0 < 20 - 4 -> forall x, x ∈ remaining -> 20 - 4 < total selected + x.2).
Proof.
  apply (first_fit_decreasing_spec demo_items 20 4). unfold demo_items. repeat constructor; cbn; lia.
Defined.
Example demo_ffd :
  first_fit_decreasing demo_items 20 4 = ([("b", 7); ("d", 7); ("e", 2)], [("a", 4); ("c", 3)]).
Proof. vm_compute. reflexivity. Qed.

(** The volume estimate is the exact ceiling: for positive data it is the
    least number of volumes whose usable capacities together hold the data, at
    least one; zero for no data; and [ValueError] when nothing is usable. *)
Theorem estimate_volumes_needed_spec t capacity reserved ecc :
  let usable := percent_of capacity (100 - ecc) - reserved in
  match estimate_volumes_needed t capacity reserved ecc with
  | Ok n => (t <= 0 /\ n = 0) \/
            (0 < t /\ 0 < usable /\ 1 <= n /\ t <= n * usable /\ (n - 1) * usable < t)
  | Err e => e = ValueError /\ 0 < t /\ usable <= 0
  end.
Proof. apply estimate_volumes_needed_lemma. Qed.

(** The media table: every media type is distinguished by its family and
    capacity (no two members collapse into one), and leaves a positive usable
    capacity strictly below its raw one, the test medium excepted. *)
Theorem media_types_distinct :
  NoDup ((fun m => (capacity_bytes m, ecc_overhead_pct m, family m)) <$> media_types) /\
  Forall (fun m => 0 < usable_bytes m /\ capacity_bytes m * 100 < 2 ^ 53 /\
            (is_test m = false -> usable_bytes m < capacity_bytes m)) media_types.
Proof.
  split; [apply (bool_decide_unpack _); vm_compute; exact I|].
  repeat constructor; vm_compute; try done; by intros.
Qed.

(** The capacity arithmetic goes through floating point
    ([int(x * pct / 100)]) but is exact whenever the product is below 2^53 (nine
    thousand terabytes times a percentage): the result is the integer floor. *)
Theorem percent_of_exact x pct :
  0 <= x * pct < 2 ^ 53 -> percent_of x pct = x * pct / 100.
Proof. apply int_truediv_exact. Qed.
Lemma percent_of_exact_witness :
  percent_of (capacity_bytes MDISC100) 85 = capacity_bytes MDISC100 * 85 / 100.
Proof. apply (percent_of_exact (capacity_bytes MDISC100) 85). vm_compute. split; [discriminate|done]. Defined.
(** Beyond that range the rounding shows: ten exbibytes less a byte. *)
Example demo_percent_of_rounds : percent_of (2 ^ 63 - 1) 85 <> (2 ^ 63 - 1) * 85 / 100.
Proof. vm_compute. discriminate. Qed.
