(* ===== verification/Planner.v ===== *)
(** * Restore planning

    [restore/planner.py]: the two pick lists a restore follows, built from the
    catalog queries. *)

From S2P Require Import Prelude Sqlite Catalog VolumeEvents Queries Volumes ArchiveProps.
Open Scope string_scope.
Open Scope list_scope.
Open Scope Z_scope.

Record PackSource := mkPackSource {
  ps_pack : Pack; ps_volume_label : string; ps_volume_id : Z; ps_alternates : list string;
}.
Record PickList := mkPickList {
  pl_volumes : list (string * list Pack); missing_packs : list string;
  total_packs : Z; total_bytes : Z;
  deprecated_disc_labels : list (string * list string);
  unconfirmed_volume_labels : list (string * list string);
}.
Record PickListV2 := mkPickListV2 {
  pl2_volumes : list (string * list PackSource); pl2_missing_packs : list string;
  pl2_total_packs : Z; pl2_total_bytes : Z;
  pl2_deprecated_disc_labels : list (string * list string);
  pl2_unconfirmed_volume_labels : list (string * list string);
}.

(** [{label: [f(x) for x in xs] for label, xs in m.items() if label in ls}] *)
Definition restrict_dict {A} (f : A -> string) (ls : list string) (m : list (string * list A)) :
    list (string * list string) :=
  (fun e : string * list A => (e.1, f <$> e.2)) <$> where_ (fun e => sql_in e.1 ls) m.

Definition generate_pick_list (required : list string) (d : Catalog) : PickList :=
  match required with
  | [] => mkPickList [] [] 0 0 [] []
  | _ =>
      let volumes := get_pick_list d required EmptyString in
      let missing := get_missing_packs d required in
      let deprecated := get_deprecated_only_packs d required in
      let unconfirmed := get_unconfirmed_volume_labels d (fst <$> volumes) in
      mkPickList volumes missing
        (sumZ ((fun packs => len packs) <$> (snd <$> volumes)))
        (sumZ (size_bytes <$> (volumes ≫= snd)))
        deprecated (restrict_dict sha256 unconfirmed volumes)
  end.

(** The body of the loop over the raw entries. *)
Definition v2_step (st : list (string * list PackSource) * Z * Z) (item : string * PickEntry) :
    list (string * list PackSource) * Z * Z :=
  let '(volumes, total_packs, total_bytes) := st in
  let info := item.2 in
  let source := mkPackSource (pe_pack info) (primary_label info) (primary_volume_id info)
                  (alternates info) in
  (dict_append (primary_label info) source volumes, total_packs + 1,
   total_bytes + size_bytes (ps_pack source)).

Definition generate_pick_list_v2 (required : list string) (preferred : string) (d : Catalog) :
    PickListV2 :=
  match required with
  | [] => mkPickListV2 [] [] 0 0 [] []
  | _ =>
      let raw := get_pick_list_with_alternates d required preferred in
      let missing := get_missing_packs d required in
      let deprecated := get_deprecated_only_packs d required in
      let '(volumes, total_packs, total_bytes) := foldl v2_step ([], 0, 0) raw in
      let unconfirmed := get_unconfirmed_volume_labels d (fst <$> volumes) in
      mkPickListV2 volumes missing total_packs total_bytes deprecated
        (restrict_dict (fun s => sha256 (ps_pack s)) unconfirmed volumes)
  end.

(** ** Lemmas *)

(** *** The rows of the query with alternates *)

Definition alternate_rows (d : Catalog) (preferred : string) (batch : list string) :
    list (Pack * Volume) :=
  order_by (alternates_order preferred)
    (where_ (fun r => sql_in (sha256 r.1) batch && in_service r.2) (pack_volume_rows d)).
Definition all_alternate_rows (d : Catalog) (preferred : string) (shas : list string) :
    list (Pack * Volume) :=
  concat (alternate_rows d preferred <$> batches _SQLITE_BATCH shas).
Definition rows_of (rs : list (Pack * Volume)) (h : string) : list (Pack * Volume) :=
  where_ (fun r => sql_eq (sha256 r.1) h) rs.
(** The entry that a hash's rows make: the first row is the primary. *)
Definition entry_of (rows : list (Pack * Volume)) : option PickEntry :=
  match rows with
  | [] => None
  | r :: rest => Some (mkPickEntry r.1 (label r.2) (volume_id r.2) ((fun x => label x.2) <$> rest))
  end.

Lemma elem_of_all_alternate_rows d preferred shas p v :
  (p, v) ∈ all_alternate_rows d preferred shas <->
  sha256 p ∈ shas /\ in_service v = true /\ (p, v) ∈ pack_volume_rows d.
Proof.
  unfold all_alternate_rows, alternate_rows. rewrite elem_of_concat. setoid_rewrite list_elem_of_fmap. split.
  - intros (l & (b & -> & Hb) & [Hw Hin]%elem_of_order_by%elem_of_where).
    apply andb_true_iff in Hw as [Hs%sql_in_true Hserv]. split_and!; [|done..].
    by eapply elem_of_batches; [apply batch_pos|..].
  - intros (Hs & ? & ?). destruct (batches_cover _ _ _ batch_pos Hs) as (b & Hb & Hs').
    eexists. split; [by exists b|]. apply elem_of_order_by, elem_of_where. split; [|done].
    apply andb_true_iff. by rewrite sql_in_true.
Qed.

Record alt_inv (rs : list (Pack * Volume)) (m : list (string * PickEntry)) : Prop := {
  ai_keys : NoDup m.*1;
  ai_entries : forall h e, (h, e) ∈ m <-> entry_of (rows_of rs h) = Some e;
}.

Lemma elem_of_alternates_step m row h e :
  NoDup m.*1 ->
  (h, e) ∈ alternates_step m row <->
  if decide (h = sha256 row.1) then
    (h ∉ m.*1 /\ entry_of [row] = Some e) \/
    (exists e0, (h, e0) ∈ m /\
       e = mkPickEntry (pe_pack e0) (primary_label e0) (primary_volume_id e0)
             (alternates e0 ++ [label row.2]))
  else (h, e) ∈ m.
Proof.
  induction m as [|[k e0] m IH]; csimpl; intros Hnd.
  { rewrite list_elem_of_singleton. case_decide as Hh.
    - subst. split.
      + intros [= ->]. left. split; [set_solver|done].
      + intros [[_ [= <-]]|(e0 & Hin & _)]; [done|by inv Hin].
    - split; [naive_solver|]. intros Hin. by inv Hin. }
  apply NoDup_cons in Hnd as [Hk Hnd]. destruct (sql_eq k (sha256 row.1)) eqn:E.
  - apply sql_eq_elim in E. rewrite !elem_of_cons. subst k. case_decide as Hh.
    + rewrite Hh. split.
      * intros [[= ->]|Hin]; [right; exists e0; by split; [left|]|].
        exfalso. apply Hk. by apply (list_elem_of_fmap_2 fst) in Hin.
      * intros [[Hno _]|(e1 & [[= ->]|Hin]%elem_of_cons & ->)]; [set_solver|by left|].
        exfalso. apply Hk. by apply (list_elem_of_fmap_2 fst) in Hin.
    + rewrite ?elem_of_cons. split; (intros [[= ? _]|Hin]; [done|by right]).
  - apply sql_eq_false in E. rewrite !elem_of_cons, IH by done. case_decide as Hh; [|by rewrite elem_of_cons].
    subst h. setoid_rewrite elem_of_cons. split.
    + intros [[= <- _]|[[Hno Hr]|(e1 & Hin & ->)]]; [done|left|right; exists e1; by split; [right|]].
      split; [|done]. intros [?|?]; [congruence|done].
    + intros [[Hno Hr]|(e1 & [[= <- _]|Hin] & ->)]; [right; left|done|right; right; by exists e1].
      split; [|done]. intros Hin. apply Hno. by right.
Qed.
Lemma alternates_step_keys m row h :
  h ∈ (alternates_step m row).*1 <-> h ∈ m.*1 \/ h = sha256 row.1.
Proof.
  induction m as [|[k e0] m IH]; csimpl; [set_solver|].
  destruct (sql_eq k (sha256 row.1)) eqn:E; csimpl.
  - apply sql_eq_elim in E. set_solver.
  - rewrite !elem_of_cons, IH. naive_solver.
Qed.
Lemma alternates_step_inv rs m row :
  alt_inv rs m -> alt_inv (rs ++ [row]) (alternates_step m row).
Proof.
  intros [Hk He]. split.
  - clear He. induction m as [|[k e0] m IH]; csimpl; [apply NoDup_singleton|].
    csimpl in Hk. apply NoDup_cons in Hk as [Hk Hnd].
    destruct (sql_eq k (sha256 row.1)) eqn:E; csimpl; [by constructor|].
    apply sql_eq_false in E. constructor; [|auto]. rewrite alternates_step_keys. naive_solver.
  - intros h e. rewrite elem_of_alternates_step by done. unfold rows_of, where_.
    rewrite List.filter_app. cbn [List.filter].
    case_decide as Hh; [|rewrite (proj2 (sql_eq_false _ _)), app_nil_r by done; apply He].
    subst h. rewrite (proj2 (sql_eq_true _ _) eq_refl).
    fold (where_ (fun r => sql_eq (sha256 r.1) (sha256 row.1)) rs).
    fold (rows_of rs (sha256 row.1)).
    destruct (rows_of rs (sha256 row.1)) as [|r rest] eqn:Er.
    + cbn [app]. split; [intros [[_ H]|(e0 & H%He & _)]; [done|by rewrite Er in H]|].
      intros H. left. split; [|done]. intros ([k e1] & Hk1 & Hin)%list_elem_of_fmap.
      cbn in Hk1. subst k. apply He in Hin. by rewrite Er in Hin.
    + cbn [app entry_of]. rewrite fmap_app. csimpl. split.
      * intros [[Hno _]|(e0 & H%He & ->)].
        -- exfalso. apply Hno. apply list_elem_of_fmap.
           eexists (_, _). split; [|apply He; rewrite Er; done]. done.
        -- rewrite Er in H. injection H as <-. done.
      * intros [= <-]. right. eexists. split; [apply He; by rewrite Er|done].
Qed.

Lemma alternates_inv d shas preferred :
  alt_inv (all_alternate_rows d preferred shas) (get_pick_list_with_alternates d shas preferred).
Proof.
  unfold get_pick_list_with_alternates, all_alternate_rows.
  assert (forall bs m, foldl (fun m b => foldl alternates_step m (alternate_rows d preferred b)) m bs
    = foldl alternates_step m (concat (alternate_rows d preferred <$> bs))) as Hf.
  { induction bs as [|b bs IH]; intros m; csimpl; [done|]. by rewrite IH, foldl_app. }
  unfold alternate_rows in Hf at 1. rewrite Hf.
  assert (forall l rs m, alt_inv rs m -> alt_inv (rs ++ l) (foldl alternates_step m l)) as Hl.
  { induction l as [|r l IH]; intros rs m H; csimpl; [by rewrite app_nil_r|].
    rewrite cons_middle, app_assoc. by apply IH, alternates_step_inv. }
  apply (Hl _ []). split; [constructor|]. intros h e. by rewrite elem_of_nil.
Qed.

(** *** The packs of either plan *)

Definition restorable (d : Catalog) (required : list string) (p : Pack) : Prop :=
  p ∈ packs d /\ sha256 p ∈ required /\ on_volume d (pack_id p) in_service = true.

Lemma pick_list_packs d required preferred :
  catalog_wf d ->
  let ps := (pairs (get_pick_list d required preferred)).*2 in
  NoDup (sha256 <$> ps) /\ forall p, p ∈ ps <-> restorable d required p.
Proof.
  intros W ps. destruct (pick_list_lemma d required preferred W) as (Hcover & Hnd & Hvol).
  fold ps in Hcover, Hnd, Hvol. split; [subst ps; by rewrite <- list_fmap_compose|].
  intros p. subst ps. rewrite list_elem_of_fmap. split.
  - intros ([l q] & -> & Hin). destruct (Hvol _ _ Hin) as (Hs & Hp & v & Hv & _ & Hserv & Hlk & _).
    split_and!; [done..|]. apply on_volume_true.
    by exists (mkVolumePack (volume_id v) (pack_id q)), v.
  - intros (Hp & Hs & Hon). destruct (decide (sha256 p ∈ get_missing_packs d required)) as [Hm|Hm].
    { apply elem_of_missing in Hm as [_ Hun]; [|done]. by rewrite Hun in Hon. }
    assert (exists l q, (l, q) ∈ pairs (get_pick_list d required preferred) /\ sha256 q = sha256 p)
      as (l & q & Hin & Hq).
    { destruct (decide (Exists (fun x => sha256 x.2 = sha256 p)
                  (pairs (get_pick_list d required preferred)))) as [He|He].
      - apply Exists_exists in He as ([l q] & ? & ?). eauto.
      - exfalso. apply Hm, Hcover; [done|]. intros (l & q & ? & ?). apply He, Exists_exists. by exists (l, q). }
    destruct (Hvol _ _ Hin) as (_ & Hqp & _).
    assert (q = p) as -> by (by eapply (key_unique sha256 _ _ _ (wf_pack_sha _ W))). by exists (l, p).
Qed.

Lemma entry_rows d required preferred h e :
  (h, e) ∈ get_pick_list_with_alternates d required preferred <->
  entry_of (rows_of (all_alternate_rows d preferred required) h) = Some e.
Proof. apply alternates_inv. Qed.
Lemma elem_of_rows_of rs h p v : (p, v) ∈ rows_of rs h <-> (p, v) ∈ rs /\ sha256 p = h.
Proof. unfold rows_of. rewrite elem_of_where, sql_eq_true. cbn. tauto. Qed.

Lemma alternates_packs d required preferred :
  catalog_wf d ->
  let ps := pe_pack <$> (get_pick_list_with_alternates d required preferred).*2 in
  NoDup (sha256 <$> ps) /\ forall p, p ∈ ps <-> restorable d required p.
Proof.
  intros W ps. set (raw := get_pick_list_with_alternates d required preferred) in *.
  assert (forall h e, (h, e) ∈ raw -> sha256 (pe_pack e) = h /\ restorable d required (pe_pack e)) as Hraw.
  { intros h e He. apply entry_rows in He.
    destruct (rows_of _ h) as [|[p v] rest] eqn:Er; [done|]. injection He as <-. cbn.
    assert ((p, v) ∈ rows_of (all_alternate_rows d preferred required) h) as Hin by (rewrite Er; left).
    apply elem_of_rows_of in Hin as [(Hs & Hserv & (Hp & Hv & Hl)%elem_of_pack_volume_rows)%elem_of_all_alternate_rows Hh].
    split; [done|]. split_and!; [done|done|]. apply on_volume_true.
    by exists (mkVolumePack (volume_id v) (pack_id p)), v. }
  split.
  - assert (sha256 <$> ps = raw.*1) as ->; [|apply alternates_inv].
    subst ps. rewrite <- !list_fmap_compose. apply list_fmap_ext. intros i [h e] He. cbn.
    by apply Hraw, (list_elem_of_lookup_2 _ _ _ He).
  - intros p. subst ps. rewrite <- list_fmap_compose, list_elem_of_fmap. split.
    + intros ([h e] & -> & He). by apply (Hraw h).
    + intros (Hp & Hs & Hon). apply on_volume_true in Hon as ([vv pp] & v & Hvp & Hpp & Hv & Hid & Hserv).
      cbn in Hpp, Hid. subst vv pp.
      assert ((p, v) ∈ rows_of (all_alternate_rows d preferred required) (sha256 p)) as Hin.
      { apply elem_of_rows_of. split; [|done]. apply elem_of_all_alternate_rows. split_and!; [done..|].
        by apply elem_of_pack_volume_rows. }
      destruct (rows_of _ (sha256 p)) as [|[q w] rest] eqn:Er; [by inv Hin|].
      assert ((sha256 p, mkPickEntry q (label w) (volume_id w) ((fun x => label x.2) <$> rest)) ∈ raw) as He.
      { apply entry_rows. by rewrite Er. }
      destruct (Hraw _ _ He) as [Hq (Hqp & _)]. cbn in Hq, Hqp.
      assert (q = p) as -> by (by eapply (key_unique sha256 _ _ _ (wf_pack_sha _ W))).
      eexists. split; [|exact He]. done.
Qed.

Lemma v2_fold raw : forall vols n b,
  let '(vols', n', b') := foldl v2_step (vols, n, b) raw in
  n' = n + len raw /\ b' = b + sumZ (size_bytes <$> (pe_pack <$> raw.*2)) /\
  pairs vols' ≡ₚ pairs vols ++
    ((fun item => (primary_label item.2,
        mkPackSource (pe_pack item.2) (primary_label item.2) (primary_volume_id item.2)
          (alternates item.2))) <$> raw).
Proof.
  induction raw as [|[h e] raw IH]; intros vols n b; csimpl.
  { split_and!; [lia|lia|by rewrite app_nil_r]. }
  match goal with |- context [foldl v2_step (?x, ?y, ?z) raw] =>
    specialize (IH x y z); destruct (foldl v2_step (x, y, z) raw) as [[vols' n'] b'] end.
  destruct IH as (-> & -> & ->). split_and!; [lia|lia|].
  rewrite pairs_dict_append. cbn [app]. by rewrite <- Permutation_middle.
Qed.

Definition distinct_count (l : list string) : Z := len (remove_dups l).

Lemma sum_len_pairs {K A} (m : list (K * list A)) :
  sumZ ((fun xs => len xs) <$> m.*2) = len (pairs m).
Proof.
  induction m as [|[k xs] m IH]; [done|]. rewrite pairs_cons, length_app, length_fmap. csimpl.
  rewrite IH. lia.
Qed.
Lemma bind_snd_pairs {K A} (m : list (K * list A)) : m ≫= snd = (pairs m).*2.
Proof.
  induction m as [|[k xs] m IH]; [done|]. rewrite pairs_cons, fmap_app, <- list_fmap_compose. csimpl.
  rewrite IH. f_equal. by rewrite list_fmap_id.
Qed.

(** Two lists of the restorable packs without duplicates are the same packs. *)
Lemma restorable_count d required ps :
  catalog_wf d -> NoDup (sha256 <$> ps) -> (forall p, p ∈ ps <-> restorable d required p) ->
  len ps + distinct_count (get_missing_packs d required) = distinct_count required.
Proof.
  intros W Hnd Hps. unfold distinct_count.
  assert (remove_dups required ≡ₚ (sha256 <$> ps) ++ remove_dups (get_missing_packs d required)) as ->.
  { apply NoDup_Permutation; [apply NoDup_remove_dups| |].
    - apply NoDup_app. split_and!; [done| |apply NoDup_remove_dups].
      intros h (p & -> & Hp)%list_elem_of_fmap [_ Hun]%elem_of_remove_dups%elem_of_missing; [|done].
      apply Hps in Hp as (Hp & _ & Hon). by rewrite Hun in Hon.
    - intros h. rewrite elem_of_app, !elem_of_remove_dups, elem_of_missing, list_elem_of_fmap by done.
      split.
      + intros Hh. destruct (decide (Exists (fun p => sha256 p = h /\ on_volume d (pack_id p) in_service = true)
                                (packs d))) as [He|He].
        * apply Exists_exists in He as (p & Hp & <- & Hon). left. exists p. by rewrite Hps.
        * right. split; [done|]. intros p Hp Hs. apply not_true_iff_false. intros Hon.
          apply He, Exists_exists. eauto.
      + intros [(p & -> & (_ & Hs & _)%Hps)|[Hh _]]; done. }
  rewrite length_app, length_fmap. lia.
Qed.

Lemma generate_pick_list_eq required d :
  required <> [] ->
  let m := get_pick_list d required EmptyString in
  let plan := generate_pick_list required d in
  pl_volumes plan = m /\ missing_packs plan = get_missing_packs d required /\
  total_packs plan = len (pairs m).*2 /\ total_bytes plan = sumZ (size_bytes <$> (pairs m).*2).
Proof.
  intros Hr m plan. subst plan. destruct required as [|h req]; [done|]. unfold generate_pick_list.
  cbn [pl_volumes missing_packs total_packs total_bytes]. fold m. split_and!; [done|done| |].
  - by rewrite sum_len_pairs, length_fmap.
  - by rewrite bind_snd_pairs.
Qed.
Lemma generate_pick_list_v2_eq required preferred d :
  required <> [] ->
  let raw := get_pick_list_with_alternates d required preferred in
  let plan := generate_pick_list_v2 required preferred d in
  pl2_missing_packs plan = get_missing_packs d required /\
  pl2_total_packs plan = len (pe_pack <$> raw.*2) /\
  pl2_total_bytes plan = sumZ (size_bytes <$> (pe_pack <$> raw.*2)) /\
  pairs (pl2_volumes plan) ≡ₚ
    ((fun item => (primary_label item.2,
        mkPackSource (pe_pack item.2) (primary_label item.2) (primary_volume_id item.2)
          (alternates item.2))) <$> raw).
Proof.
  intros Hr raw plan. subst plan. destruct required as [|h req]; [done|].
  unfold generate_pick_list_v2. fold raw. pose proof (v2_fold raw [] 0 0) as Hf.
  destruct (foldl v2_step ([], 0, 0) raw) as [[vols n] b]. destruct Hf as (-> & -> & Hp).
  cbn [pl2_volumes pl2_missing_packs pl2_total_packs pl2_total_bytes].
  split_and!; [done|by rewrite !length_fmap|done|done].
Qed.

(** *** The discs a plan warns about *)

Lemma elem_of_unconfirmed d labels l :
  l ∈ get_unconfirmed_volume_labels d labels <->
  l ∈ labels /\ exists v, v ∈ volumes d /\ label v = l /\ never_burned v = true /\ has_copies d v = false.
Proof.
  unfold get_unconfirmed_volume_labels. rewrite list_elem_of_bind. split.
  - intros (b & (v & -> & [Hw Hv]%elem_of_where)%list_elem_of_fmap & Hb).
    apply andb_true_iff in Hw as [[Hin%sql_in_true Hnb]%andb_true_iff Hc%negb_true_iff].
    split; [by eapply elem_of_batches; [apply batch_pos|..]|]. by exists v.
  - intros (Hl & v & Hv & <- & Hnb & Hc).
    destruct (batches_cover _ _ _ batch_pos Hl) as (b & Hb & Hlb). exists b. split; [|done].
    apply list_elem_of_fmap. exists v. split; [done|]. apply elem_of_where. split; [|done].
    by rewrite (proj2 (sql_in_true _ _) Hlb), Hnb, Hc.
Qed.

Lemma pairs_foldl_append {A K X} `{EqDecision K} (key : A -> K) (val : A -> X) (l : list A) :
  forall m, pairs (foldl (fun m r => dict_append (key r) (val r) m) m l)
    ≡ₚ pairs m ++ ((fun r => (key r, val r)) <$> l).
Proof.
  induction l as [|r l IH]; intros m; csimpl; [by rewrite app_nil_r|].
  rewrite IH, pairs_dict_append. cbn [app]. by rewrite <- Permutation_middle.
Qed.

Definition retired_rows (d : Catalog) (batch : list string) : list (Pack * Volume) :=
  order_by (fun x y => by_label x.2 y.2)
    (where_ (fun r => sql_in (sha256 r.1) batch && negb (in_service r.2) &&
                      negb (on_volume d (pack_id r.1) in_service)) (pack_volume_rows d)).
Lemma elem_of_deprecated_only d required l h :
  (l, h) ∈ pairs (get_deprecated_only_packs d required) <->
  h ∈ required /\ exists p v, p ∈ packs d /\ sha256 p = h /\ v ∈ volumes d /\ label v = l /\
    mkVolumePack (volume_id v) (pack_id p) ∈ volume_packs d /\ in_service v = false /\
    on_volume d (pack_id p) in_service = false.
Proof.
  unfold get_deprecated_only_packs.
  assert (forall bs m, foldl (fun result batch => foldl (fun result r =>
      dict_append (label r.2) (sha256 r.1) result) result (retired_rows d batch)) m bs
    = foldl (fun result r => dict_append (label r.2) (sha256 r.1) result) m
        (concat (retired_rows d <$> bs))) as Hf.
  { induction bs as [|b bs IH]; intros m; csimpl; [done|]. by rewrite IH, foldl_app. }
  unfold retired_rows in Hf at 1. rewrite Hf, pairs_foldl_append. cbn [pairs mbind list_bind app].
  rewrite list_elem_of_fmap. split.
  - intros ([p v] & [= -> ->] & (? & (b & -> & Hb)%list_elem_of_fmap & Hin)%elem_of_concat).
    unfold retired_rows in Hin. apply elem_of_order_by, elem_of_where in Hin as [Hw Hin].
    apply elem_of_pack_volume_rows in Hin as (Hp & Hv & Hl). cbn [fst snd] in *.
    apply andb_true_iff in Hw as [[Hs%sql_in_true Hns%negb_true_iff]%andb_true_iff Hon%negb_true_iff].
    split; [by eapply elem_of_batches; [apply batch_pos|..]|]. by exists p, v.
  - intros (Hh & p & v & Hp & <- & Hv & <- & Hl & Hns & Hon). exists (p, v). split; [done|].
    destruct (batches_cover _ _ _ batch_pos Hh) as (b & Hb & Hhb). apply elem_of_concat.
    exists (retired_rows d b). split; [by apply list_elem_of_fmap_2|].
    apply elem_of_order_by, elem_of_where. split; [|by apply elem_of_pack_volume_rows].
    cbn [fst snd]. by rewrite (proj2 (sql_in_true _ _) Hhb), Hns, Hon.
Qed.

(** *** The alternates of a pack *)

Lemma NoDup_pack_volume_rows d : catalog_wf d -> NoDup (pack_volume_rows d).
Proof.
  intros W. unfold pack_volume_rows.
  apply NoDup_bind; [| |by eapply NoDup_fmap_1; apply W].
  - intros p q [p' v] _ _ Hp Hq.
    apply list_elem_of_bind in Hp as (? & (? & [= <- <-] & _)%list_elem_of_fmap & _).
    apply list_elem_of_bind in Hq as (? & (? & [= <- <-] & _)%list_elem_of_fmap & _). done.
  - intros p Hp. apply NoDup_bind.
    + intros vp vp' [p' v] Hvp Hvp' Hx Hy.
      apply list_elem_of_fmap in Hx as (? & [= <- <-] & [Hi _]%elem_of_where).
      apply list_elem_of_fmap in Hy as (? & [= <-] & [Hi' _]%elem_of_where). subst.
      apply elem_of_where in Hvp as [Hk _], Hvp' as [Hk' _].
      apply sql_eq_elim in Hi, Hi', Hk, Hk'. destruct vp, vp'. cbn in *. congruence.
    + intros vp _. apply NoDup_fmap_2; [by intros ?? [=]|]. by eapply NoDup_fmap_1, where_NoDup_key, W.
    + apply NoDup_ListNoDup, List.NoDup_filter, NoDup_ListNoDup. apply W.
Qed.

(** Batches of a list without duplicates share no element, so rows taken batch by
    batch are not repeated. *)
Lemma NoDup_concat_batches {A K} (key : A -> K) (f : list K -> list A) (bs : list (list K)) :
  NoDup (concat bs) -> (forall b, b ∈ bs -> NoDup (f b)) -> (forall b x, x ∈ f b -> key x ∈ b) ->
  NoDup (concat (f <$> bs)).
Proof.
  intros Hnd Hf Hk. induction bs as [|b bs IH]; csimpl in *; [constructor|].
  apply NoDup_app in Hnd as (Hb & Hdis & Hbs). apply NoDup_app. split_and!.
  - apply Hf. left.
  - intros x Hx (? & (b' & -> & Hb')%list_elem_of_fmap & Hx')%elem_of_concat.
    apply (Hdis (key x)); [by apply Hk|]. apply elem_of_concat. exists b'. split; [done|]. by apply Hk.
  - apply IH; [done|]. intros b' Hb'. apply Hf. by right.
Qed.
Lemma NoDup_all_alternate_rows d preferred required :
  catalog_wf d -> NoDup required -> NoDup (all_alternate_rows d preferred required).
Proof.
  intros W Hnd. unfold all_alternate_rows. apply (NoDup_concat_batches (fun r => sha256 r.1)).
  - by rewrite batches_concat by apply batch_pos.
  - intros b _. unfold alternate_rows. rewrite order_by_perm.
    apply NoDup_ListNoDup, List.NoDup_filter, NoDup_ListNoDup, NoDup_pack_volume_rows, W.
  - intros b x [[Hs%sql_in_true _]%andb_true_iff _]%elem_of_order_by%elem_of_where. done.
Qed.

(** All rows of a hash are of one pack, so its discs have different labels. *)
Lemma rows_of_labels d preferred required h :
  catalog_wf d -> NoDup required ->
  NoDup ((fun r => label r.2) <$> rows_of (all_alternate_rows d preferred required) h).
Proof.
  intros W Hnd. apply NoDup_fmap_2_strong.
  - intros [p v] [q w] Hp Hq Hl. cbn in Hl.
    apply elem_of_rows_of in Hp as [(_ & _ & (Hp & Hv & _)%elem_of_pack_volume_rows)%elem_of_all_alternate_rows Hs].
    apply elem_of_rows_of in Hq as [(_ & _ & (Hq & Hw & _)%elem_of_pack_volume_rows)%elem_of_all_alternate_rows Hs'].
    f_equal; [eapply (key_unique sha256); [apply W|done|done|congruence]|].
    by eapply (key_unique label); [apply W|..].
  - apply NoDup_ListNoDup, List.NoDup_filter, NoDup_ListNoDup. by apply NoDup_all_alternate_rows.
Qed.

(** ** Properties *)

(** Both plans account for a restore exactly, and agree: the packs planned
    and the distinct missing hashes add up to the distinct hashes required (no
    pack is planned twice, none is dropped), and the plan with alternates has
    the same packs, bytes and missing hashes as the plain one, whatever the
    preferred location. *)
Theorem plans_account required preferred d :
  catalog_wf d ->
  let plan := generate_pick_list required d in
  let plan2 := generate_pick_list_v2 required preferred d in
  total_packs plan + distinct_count (missing_packs plan) = distinct_count required /\
  pl2_total_packs plan2 = total_packs plan /\ pl2_total_bytes plan2 = total_bytes plan /\
  pl2_missing_packs plan2 = missing_packs plan /\
  pl2_deprecated_disc_labels plan2 = deprecated_disc_labels plan.
Proof.
  intros W. destruct (decide (required = [])) as [->|Hr]; [done|]. cbv zeta.
  destruct (generate_pick_list_eq required d Hr) as (_ & Hm1 & -> & ->).
  destruct (generate_pick_list_v2_eq required preferred d Hr) as (Hm2 & -> & -> & _).
  destruct (pick_list_packs d required EmptyString W) as [Hnd1 Hp1].
  destruct (alternates_packs d required preferred W) as [Hnd2 Hp2].
  assert (pe_pack <$> (get_pick_list_with_alternates d required preferred).*2
    ≡ₚ (pairs (get_pick_list d required EmptyString)).*2) as Heq.
  { apply NoDup_Permutation; [by eapply NoDup_fmap_1|by eapply NoDup_fmap_1|].
    intros p. by rewrite Hp1, Hp2. }
  split_and!.
  - rewrite Hm1. by apply restorable_count.
  - by rewrite Heq.
  - by rewrite Heq.
  - congruence.
  - destruct required as [|h req]; [done|]. unfold generate_pick_list_v2, generate_pick_list.
    by destruct (foldl v2_step _ _) as [[vols n] b].
Qed.
Lemma plans_account_witness :
  let plan := generate_pick_list ["bb"; "zz"; "dd"; "bb"] demo_catalog in
  let plan2 := generate_pick_list_v2 ["bb"; "zz"; "dd"; "bb"] "Safe" demo_catalog in
  total_packs plan + distinct_count (missing_packs plan) = distinct_count ["bb"; "zz"; "dd"; "bb"] /\
  pl2_total_packs plan2 = total_packs plan /\ pl2_total_bytes plan2 = total_bytes plan /\
  pl2_missing_packs plan2 = missing_packs plan /\
  pl2_deprecated_disc_labels plan2 = deprecated_disc_labels plan.
Proof. apply (plans_account ["bb"; "zz"; "dd"; "bb"] "Safe" demo_catalog demo_catalog_wf). Defined.
Example demo_plan :
  (fun e : string * list Pack => (e.1, sha256 <$> e.2)) <$> pl_volumes (generate_pick_list ["bb"; "dd"; "cc"] demo_catalog)
    = [("V1", ["bb"]); ("V3", ["cc"])] /\
  missing_packs (generate_pick_list ["bb"; "dd"; "cc"] demo_catalog) = ["dd"] /\
  deprecated_disc_labels (generate_pick_list ["bb"; "dd"; "cc"] demo_catalog) = [("V4", ["dd"])] /\
  unconfirmed_volume_labels (generate_pick_list ["bb"; "dd"; "cc"] demo_catalog) = [("V3", ["cc"])].
Proof. split_and!; vm_compute; reflexivity. Qed.

(** Each pack of the resilient plan lists every disc that can serve it:
    its volume holds the pack and is in service, and for a list of distinct
    hashes the primary label and the alternates are, without repetition,
    exactly the labels of the volumes in service that hold it. *)
Theorem alternates_complete required preferred d l s :
  catalog_wf d -> NoDup required ->
  (l, s) ∈ pairs (pl2_volumes (generate_pick_list_v2 required preferred d)) ->
  l = ps_volume_label s /\ ps_pack s ∈ packs d /\ sha256 (ps_pack s) ∈ required /\
  (exists v, v ∈ volumes d /\ volume_id v = ps_volume_id s /\ label v = l) /\
  NoDup (l :: ps_alternates s) /\
  forall x, x ∈ l :: ps_alternates s <->
    exists v, v ∈ volumes d /\ label v = x /\ in_service v = true /\
      mkVolumePack (volume_id v) (pack_id (ps_pack s)) ∈ volume_packs d.
Proof.
  intros W Hnd. destruct (decide (required = [])) as [->|Hr]; [by intros Hin; inv Hin|].
  destruct (generate_pick_list_v2_eq required preferred d Hr) as (_ & _ & _ & ->).
  intros ([h e] & [= -> ->] & He)%list_elem_of_fmap. cbn [ps_volume_label ps_pack ps_alternates ps_volume_id].
  apply entry_rows in He. pose proof (rows_of_labels d preferred required h W Hnd) as Hlab.
  assert (forall q w, (q, w) ∈ rows_of (all_alternate_rows d preferred required) h <->
    sha256 q = h /\ h ∈ required /\ in_service w = true /\ q ∈ packs d /\ w ∈ volumes d /\
    mkVolumePack (volume_id w) (pack_id q) ∈ volume_packs d) as Hrows.
  { intros q w. rewrite elem_of_rows_of, elem_of_all_alternate_rows, elem_of_pack_volume_rows.
    split; [intros [(? & ? & ?) <-]|intros (<- & ? & ? & ?)]; auto. }
  destruct (rows_of _ h) as [|[p v] rest]; [done|]. injection He as <-. cbn in Hlab |- *.
  destruct (proj1 (Hrows p v)) as (Hs & Hh & Hserv & Hp & Hv & Hl); [left|].
  split_and!; [done|done|by rewrite Hs|by exists v|done|]. intros x.
  change (label v :: ((fun x => label x.2) <$> rest)) with ((fun r : Pack * Volume => label r.2) <$> (p, v) :: rest).
  rewrite list_elem_of_fmap. split.
  - intros ([q w] & -> & (Hq & _ & Hws & Hqp & Hw & Hlk)%Hrows). exists w. split_and!; [done..|].
    assert (p = q) as ->; [|done]. by eapply (key_unique sha256); [apply W|..|congruence].
  - intros (w & Hw & <- & Hws & Hlk). exists (p, w). split; [done|]. by apply Hrows.
Qed.
Lemma alternates_complete_witness :
  let s := mkPackSource (mkPack 2 "bb" 20 "r1" false "2026-01-01") "V1" 1 ["V2"] in
  "V1" = ps_volume_label s /\ ps_pack s ∈ packs demo_catalog /\ sha256 (ps_pack s) ∈ ["bb"; "dd"] /\
  (exists v, v ∈ volumes demo_catalog /\ volume_id v = ps_volume_id s /\ label v = "V1") /\
  NoDup ("V1" :: ps_alternates s) /\
  forall x, x ∈ "V1" :: ps_alternates s <->
    exists v, v ∈ volumes demo_catalog /\ label v = x /\ in_service v = true /\
      mkVolumePack (volume_id v) (pack_id (ps_pack s)) ∈ volume_packs demo_catalog.
Proof.
  apply (alternates_complete ["bb"; "dd"] "" demo_catalog "V1"
    (mkPackSource (mkPack 2 "bb" 20 "r1" false "2026-01-01") "V1" 1 ["V2"]) demo_catalog_wf).
  - apply (bool_decide_unpack _). vm_compute. exact I.
  - vm_compute. left.
Defined.

(** The warnings of a plan are exact.  A retired disc is listed for a hash
    just when no volume in service has the pack and that volume, DEPRECATED or
    DESTROYED, does; such a hash is always among the missing ones.  A planned
    label is marked unconfirmed just when its volume is still STAGING or BURNING
    without any disc record, and then with all of its planned packs. *)
Theorem plan_warnings required d l :
  catalog_wf d -> required <> [] ->
  let plan := generate_pick_list required d in
  (forall h, (l, h) ∈ pairs (deprecated_disc_labels plan) <->
     h ∈ required /\ exists p v, p ∈ packs d /\ sha256 p = h /\ v ∈ volumes d /\ label v = l /\
       mkVolumePack (volume_id v) (pack_id p) ∈ volume_packs d /\ in_service v = false /\
       on_volume d (pack_id p) in_service = false) /\
  (forall h, (l, h) ∈ pairs (deprecated_disc_labels plan) -> h ∈ missing_packs plan) /\
  (forall hs, (l, hs) ∈ unconfirmed_volume_labels plan <->
     (exists ps, (l, ps) ∈ pl_volumes plan /\ hs = sha256 <$> ps) /\
     exists v, v ∈ volumes d /\ label v = l /\ never_burned v = true /\ has_copies d v = false).
Proof.
  intros W Hr plan. subst plan. destruct required as [|h0 req]; [done|]. unfold generate_pick_list.
  cbn [pl_volumes missing_packs deprecated_disc_labels unconfirmed_volume_labels].
  set (required := h0 :: req). set (m := get_pick_list d required EmptyString). split_and!.
  - intros h. apply elem_of_deprecated_only.
  - intros h (Hh & p & _ & Hp & Hs & _ & _ & _ & _ & Hon)%elem_of_deprecated_only.
    apply elem_of_missing; [done|]. split; [done|]. intros q Hq Hqs.
    assert (q = p) as ->; [|done]. by eapply (key_unique sha256); [apply W|..|congruence].
  - intros hs. unfold restrict_dict. rewrite list_elem_of_fmap. split.
    + intros ([k ps] & [= -> ->] & [[_ Hv]%sql_in_true%elem_of_unconfirmed Hin]%elem_of_where). eauto.
    + intros [(ps & Hin & ->) Hv]. exists (l, ps). split; [done|]. apply elem_of_where. split; [|done].
      apply sql_in_true, elem_of_unconfirmed. split; [|done]. by apply (list_elem_of_fmap_2 fst) in Hin.
Qed.
Lemma plan_warnings_witness :
  let plan := generate_pick_list ["bb"; "dd"; "cc"] demo_catalog in
  (forall h, ("V4", h) ∈ pairs (deprecated_disc_labels plan) <->
     h ∈ ["bb"; "dd"; "cc"] /\
     exists p v, p ∈ packs demo_catalog /\ sha256 p = h /\ v ∈ volumes demo_catalog /\ label v = "V4" /\
       mkVolumePack (volume_id v) (pack_id p) ∈ volume_packs demo_catalog /\ in_service v = false /\
       on_volume demo_catalog (pack_id p) in_service = false) /\
  (forall h, ("V4", h) ∈ pairs (deprecated_disc_labels plan) -> h ∈ missing_packs plan) /\
  (forall hs, ("V4", hs) ∈ unconfirmed_volume_labels plan <->
     (exists ps, ("V4", ps) ∈ pl_volumes plan /\ hs = sha256 <$> ps) /\
     exists v, v ∈ volumes demo_catalog /\ label v = "V4" /\ never_burned v = true /\
       has_copies demo_catalog v = false).
Proof. apply (plan_warnings ["bb"; "dd"; "cc"] demo_catalog "V4" demo_catalog_wf). discriminate. Defined.
