(* ===== verification/Merger.v ===== *)
(** * Consolidation

    [consolidate/merger.py]: planning the merge of source volumes, and the status
    changes around the burn (mark, deprecate, abort). *)

From S2P Require Import Prelude Sqlite Catalog VolumeEvents Queries Volumes ArchiveProps BinPack.
Open Scope string_scope.
Open Scope list_scope.
Open Scope Z_scope.

Record ConsolidationPlan := mkPlan {
  source_volume_ids : list Z; source_labels : list string; active_packs : list Pack;
  total_active_bytes : Z; target_media_type : MediaType; volumes_needed : Z;
  pruned_left_behind : list Pack;
}.

(** The labels of the sources, each looked up in turn. *)
Fixpoint labels_of (ids : list Z) : dbc (list string) :=
  match ids with
  | [] => mret []
  | i :: ids => vol ← get_volume_by_id i; ls ← labels_of ids; mret (label vol :: ls)
  end.

Definition plan_consolidation (metadata_reserve_bytes : Z) (ids : list Z) (target : MediaType) :
    dbc ConsolidationPlan :=
  ls ← labels_of ids;
  active ← query (fun d => get_packs_only_on_volumes d ids);
  let total_bytes := sumZ (size_bytes <$> active) in
  left_behind ← query (fun d => get_pruned_packs_on_volumes d ids);
  needed ← (pure_res (estimate_volumes_needed total_bytes (capacity_bytes target)
               metadata_reserve_bytes (ecc_overhead_pct target)) : dbc Z);
  mret (mkPlan ids ls active total_bytes target needed left_behind).

(** [for vid in ids: update_status(conn, vid, st, commit=False)] *)
Fixpoint update_each (st now : string) (ids : list Z) : dbc unit :=
  match ids with
  | [] => mret tt
  | i :: ids => _ ← update_status i st now false false; update_each st now ids
  end.
Definition deprecate_sources (ids : list Z) (now : string) : dbc unit :=
  _ ← update_each "DEPRECATED" now ids; commit.
Definition mark_sources_consolidating (ids : list Z) (now : string) : dbc unit :=
  _ ← update_each "CONSOLIDATING" now ids; commit.
Definition abort_consolidation (ids : list Z) (now : string) : dbc unit :=
  _ ← update_each "VERIFIED" now ids; commit.

(** ** Lemmas *)

Lemma keeps_update_each st now ids : keeps catalog_wf (update_each st now ids).
Proof.
  induction ids as [|i ids IH]; cbn [update_each]; [keeps|].
  apply keeps_bind; [apply keeps_update_status|intros; apply IH].
Qed.
Lemma keeps_deprecate_sources ids now : keeps catalog_wf (deprecate_sources ids now).
Proof. apply keeps_bind; [apply keeps_update_each|keeps]. Qed.
Lemma keeps_mark_sources ids now : keeps catalog_wf (mark_sources_consolidating ids now).
Proof. apply keeps_bind; [apply keeps_update_each|keeps]. Qed.
Lemma keeps_abort_consolidation ids now : keeps catalog_wf (abort_consolidation ids now).
Proof. apply keeps_bind; [apply keeps_update_each|keeps]. Qed.

(** Induction over the sources an [update_each] that succeeds has processed. *)
Lemma update_each_ind (P : list Z -> Catalog -> Prop) st now :
  (forall done_ d i v, P done_ d -> catalog_wf d -> find_volume d i = Some v ->
     accepted d i (status v) st false -> P (done_ ++ [i]) (status_changed d i (status v) st now)) ->
  forall ids done_ c, catalog_wf (committed c) -> catalog_wf (current c) -> P done_ (current c) ->
  (update_each st now ids c).1 = Ok tt ->
  P (done_ ++ ids) (current (update_each st now ids c).2).
Proof.
  intros Hstep ids. induction ids as [|i ids IH]; intros done_ c Wc W HP H; cbn [update_each] in *.
  { by rewrite app_nil_r. }
  pose proof (update_status_current c i st now false false W) as Hu.
  pose proof (keeps_update_status i st now false false c Wc W) as [Wc' W'].
  unfold mbind, db_bind in *.
  destruct (update_status i st now false false c) as [[[]|e] c1]; [|done].
  destruct Hu as (v & Hv & Hacc & Hcur); [done|]. cbn [snd] in *.
  rewrite cons_middle, app_assoc. apply IH; [done|done| |done].
  rewrite Hcur. by apply Hstep.
Qed.

Lemma then_commit (m : dbc unit) (c : Conn Catalog) :
  let '(r, c') := (_ ← m; (commit : dbc unit)) c in
  r = (m c).1 /\ current c' = current (m c).2 /\
  (r = Ok tt -> committed c' = current c' /\ in_transaction c' = false).
Proof.
  unfold mbind, db_bind. destruct (m c) as [[[]|e] c']; cbn; split_and!; try done; by intros.
Qed.

(** *** The packs of the sources *)

Lemma elem_of_pack_link_row d p vp :
  (p, vp) ∈ pack_link_rows d <-> p ∈ packs d /\ vp ∈ volume_packs d /\ vp_pack_id vp = pack_id p.
Proof.
  unfold pack_link_rows. rewrite list_elem_of_bind. split.
  - intros (q & (vp' & [= -> ->] & [Hk%sql_eq_elim Hvp]%elem_of_where)%list_elem_of_fmap & Hq). auto.
  - intros (Hp & Hvp & Hk). exists p. split; [|done]. apply list_elem_of_fmap. exists vp.
    split; [done|]. apply elem_of_where. by split; [apply sql_eq_true|].
Qed.

(** Non-pruned (or pruned) packs linked to one of the volumes. *)
Definition linked_to_any (d : Catalog) (ids : list Z) (p : Pack) : Prop :=
  exists i, i ∈ ids /\ mkVolumePack i (pack_id p) ∈ volume_packs d.

Lemma elem_of_packs_on d pruned batch p :
  p ∈ packs_on d pruned batch <-> p ∈ packs d /\ is_pruned p = pruned /\ linked_to_any d batch p.
Proof.
  unfold packs_on, distinct. rewrite elem_of_order_by, elem_of_remove_dups, list_elem_of_fmap. split.
  - intros ([q vp] & -> & [Hw Hr]%elem_of_where). cbn [fst snd] in *.
    apply andb_true_iff in Hw as [Hin Hpr].
    apply sql_in_true in Hin. apply eqb_prop in Hpr. apply elem_of_pack_link_row in Hr as (Hq & Hvp & Hk).
    split_and!; [done|done|]. exists (vp_volume_id vp). destruct vp. cbn in *. by subst.
  - intros (Hp & Hpr & i & Hi & Hl). exists (p, mkVolumePack i (pack_id p)). split; [done|].
    apply elem_of_where. cbn [fst snd vp_volume_id]. split; [|by apply elem_of_pack_link_row].
    rewrite (proj2 (sql_in_true _ _) Hi), Hpr. by destruct pruned.
Qed.

Lemma packs_on_volumes_spec d pruned ids :
  catalog_wf d ->
  NoDup (packs_on_volumes d pruned ids) /\
  forall p, p ∈ packs_on_volumes d pruned ids <->
    p ∈ packs d /\ is_pruned p = pruned /\ linked_to_any d ids p.
Proof.
  intros W. unfold packs_on_volumes.
  assert (forall bs : list (list Z),
    foldl (fun m batch => foldl (fun m p => dict_set (pack_id p) p m) m (packs_on d pruned batch)) [] bs
    = foldl (fun m p => dict_set (pack_id p) p m) [] (concat (packs_on d pruned <$> bs))) as Hf.
  { intros bs. generalize ([] : list (Z * Pack)). induction bs as [|b bs IH]; intros m; csimpl; [done|].
    by rewrite IH, foldl_app. }
  rewrite Hf. set (l := concat _).
  assert (forall p, p ∈ l <-> p ∈ packs d /\ is_pruned p = pruned /\ linked_to_any d ids p) as Hl.
  { intros p. unfold l. rewrite elem_of_concat. split.
    - intros (? & (b & -> & Hb)%list_elem_of_fmap & (Hp & Hpr & i & Hi & Hk)%elem_of_packs_on).
      split_and!; [done|done|]. exists i. split; [|done]. eapply elem_of_batches; eauto using batch_pos.
    - intros (Hp & Hpr & i & Hi & Hk).
      destruct (batches_cover _SQLITE_BATCH ids i batch_pos Hi) as (b & Hb & Hib).
      exists (packs_on d pruned b). split; [by apply list_elem_of_fmap_2|].
      apply elem_of_packs_on. split_and!; [done..|]. by exists i. }
  destruct (dict_of_rows pack_id (packs d) (wf_pack_id d W) l []) as [Hm He].
  - intros p Hp. by apply Hl.
  - split; [constructor|]. intros e Hemp. by inv Hemp.
  - destruct (keyed_values _ _ _ Hm) as [Hnd Hv]. split.
    + by rewrite order_by_perm.
    + intros p. rewrite elem_of_order_by, Hv, He, elem_of_nil, <- Hl. naive_solver.
Qed.

(** *** Planning *)

Lemma labels_of_run ids c :
  labels_of ids c = (match mapM (find_volume (current c)) ids with
                     | Some vs => Ok (label <$> vs) | None => Err ValueError end, c).
Proof.
  induction ids as [|i ids IH]; cbn [labels_of]; [done|].
  unfold mbind, db_bind, get_volume_by_id, query. unfold mbind, db_bind. cbn [mapM].
  destruct (find_volume (current c) i) as [v|]; cbn; [|done].
  rewrite IH. cbn. by destruct (mapM _ ids).
Qed.

Lemma mapM_find_None d ids : mapM (find_volume d) ids = None <-> exists i, i ∈ ids /\ i ∉ volume_ids d.
Proof.
  induction ids as [|i ids IH]; cbn [mapM]; [by split; [|set_solver]|].
  destruct (find_volume d i) as [v|] eqn:E; cbn.
  - assert (i ∈ volume_ids d) as Hi.
    { destruct (decide (i ∈ volume_ids d)) as [|Hn]; [done|].
      apply find_volume_None in Hn. by rewrite Hn in E. }
    destruct (mapM _ ids); cbn.
    + split; [done|]. intros (j & [->|Hj]%elem_of_cons & Hn); [done|].
      by assert (Some l = None) by (apply IH; eauto).
    + split; [intros _|done]. destruct IH as [IH _]. destruct IH as (j & ? & ?); [done|].
      exists j. by rewrite elem_of_cons; auto.
  - apply find_volume_None in E. split; [|done]. intros _. exists i. by split; [left|].
Qed.

(** ** Properties *)

(** A consolidation plan loses nothing: when every source exists and the
    target has usable capacity, the plan lists each non-pruned pack of the
    sources exactly once and sets aside exactly the pruned ones, its byte total
    is theirs, and its volume count is enough for them on the target medium
    (and one less would not be).  It raises [ValueError] exactly when a source
    is unknown or there are bytes to move and nothing is usable, and it never
    changes the catalog. *)
Theorem plan_consolidation_spec reserve ids target c :
  catalog_wf (current c) ->
  let d := current c in
  let usable := percent_of (capacity_bytes target) (100 - ecc_overhead_pct target) - reserve in
  (plan_consolidation reserve ids target c).2 = c /\
  match (plan_consolidation reserve ids target c).1 with
  | Ok plan =>
      ids ⊆ volume_ids d /\
      NoDup (active_packs plan) /\
      (forall p, p ∈ active_packs plan <-> p ∈ packs d /\ is_pruned p = false /\ linked_to_any d ids p) /\
      (forall p, p ∈ pruned_left_behind plan <->
                 p ∈ packs d /\ is_pruned p = true /\ linked_to_any d ids p) /\
      total_active_bytes plan = sumZ (size_bytes <$> active_packs plan) /\
      (0 < total_active_bytes plan ->
         total_active_bytes plan <= volumes_needed plan * usable /\
         (volumes_needed plan - 1) * usable < total_active_bytes plan)
  | Err e => e = ValueError /\
      ((exists i, i ∈ ids /\ i ∉ volume_ids d) \/
       (usable <= 0 /\ 0 < sumZ (size_bytes <$> get_packs_only_on_volumes d ids)))
  end.
Proof.
  intros W d usable. unfold plan_consolidation.
  unfold mbind at 1 5, db_bind at 1 5. rewrite labels_of_run. fold d.
  destruct (mapM (find_volume d) ids) as [vs|] eqn:Hids.
  2: { split; [done|]. cbn. split; [done|]. left. by apply mapM_find_None. }
  unfold mbind, db_bind, query, pure_res. fold d. cbv zeta.
  pose proof (estimate_volumes_needed_lemma (sumZ (size_bytes <$> get_packs_only_on_volumes d ids))
    (capacity_bytes target) reserve (ecc_overhead_pct target)) as He.
  destruct (estimate_volumes_needed _ _ _ _) as [n|e]; cbn; split; try done.
  2: { destruct He as (-> & ? & ?). split; [done|]. right. split; [done|lia]. }
  destruct (packs_on_volumes_spec d false ids W) as [Hnd Ha].
  destruct (packs_on_volumes_spec d true ids W) as [_ Hp].
  split_and!; [|done|exact Ha|exact Hp|done|].
  - intros i Hi. destruct (decide (i ∈ volume_ids d)) as [|Hn]; [done|].
    assert (mapM (find_volume d) ids = None) as Hno by (apply mapM_find_None; eauto). by rewrite Hno in Hids.
  - intros Hpos. destruct He as [[? _]|(_ & _ & _ & ? & ?)]; [|done]. exfalso.
    unfold get_packs_only_on_volumes in *. lia.
Qed.
Lemma plan_consolidation_spec_witness :
  let d := current demo_conn in
  let usable := percent_of (capacity_bytes BD25) (100 - ecc_overhead_pct BD25) - 1000 in
  (plan_consolidation 1000 [1; 4] BD25 demo_conn).2 = demo_conn /\
  match (plan_consolidation 1000 [1; 4] BD25 demo_conn).1 with
  | Ok plan =>
      [1; 4] ⊆ volume_ids d /\
      NoDup (active_packs plan) /\
      (forall p, p ∈ active_packs plan <-> p ∈ packs d /\ is_pruned p = false /\ linked_to_any d [1; 4] p) /\
      (forall p, p ∈ pruned_left_behind plan <->
                 p ∈ packs d /\ is_pruned p = true /\ linked_to_any d [1; 4] p) /\
      total_active_bytes plan = sumZ (size_bytes <$> active_packs plan) /\
      (0 < total_active_bytes plan ->
         total_active_bytes plan <= volumes_needed plan * usable /\
         (volumes_needed plan - 1) * usable < total_active_bytes plan)
  | Err e => e = ValueError /\
      ((exists i, i ∈ [1; 4] /\ i ∉ volume_ids d) \/
       (usable <= 0 /\ 0 < sumZ (size_bytes <$> get_packs_only_on_volumes d [1; 4])))
  end.
Proof. apply (plan_consolidation_spec 1000 [1; 4] BD25 demo_conn demo_catalog_wf). Defined.

(** Every source processed so far is DEPRECATED, and each of its non-pruned
    packs still has a live replica. *)
Definition replicated (d : Catalog) (p : Pack) : Prop :=
  exists v, v ∈ volumes d /\ mkVolumePack (volume_id v) (pack_id p) ∈ volume_packs d /\
    (status v = "BURNED" \/ status v = "VERIFIED") /\ live_by_discs d v = true.
Record deprecated_so_far (ids : list Z) (d : Catalog) : Prop := {
  ds_status : forall i, i ∈ ids -> exists v, find_volume d i = Some v /\ status v = "DEPRECATED";
  ds_packs : forall p, p ∈ packs d -> is_pruned p = false -> linked_to_any d ids p -> replicated d p;
}.

Lemma deprecate_step now done_ d i v :
  deprecated_so_far done_ d -> catalog_wf d -> find_volume d i = Some v ->
  accepted d i (status v) "DEPRECATED" false ->
  deprecated_so_far (done_ ++ [i]) (status_changed d i (status v) "DEPRECATED" now).
Proof.
  intros [Hst Hpk] W Hv [Hleg Hacc]. destruct Hacc as [_ Hsafe]; [done|]. specialize (Hsafe eq_refl).
  set (d' := status_changed d i (status v) "DEPRECATED" now).
  assert (forall p, p ∈ packs d -> is_pruned p = false -> mkVolumePack i (pack_id p) ∈ volume_packs d ->
    replicated d' p) as Hi.
  { intros p Hp Hpr Hl.
    destruct (deprecation_leaves_replica d i (status v) now p Hsafe Hp Hpr Hl)
      as (w & Hw & _ & Hlk & Hs & Hlive).
    by exists w. }
  split.
  - intros j [Hj| ->%list_elem_of_singleton]%elem_of_app; unfold d'.
    + rewrite (find_status_changed _ _ _ _ _ v) by done. case_decide; [|by apply Hst].
      exists (with_status "DEPRECATED" now v). by rewrite with_status_status.
    + rewrite (find_status_changed _ _ _ _ _ v), decide_True by done.
      exists (with_status "DEPRECATED" now v). by rewrite with_status_status.
  - intros p Hp Hpr (j & [Hj| ->%list_elem_of_singleton]%elem_of_app & Hl); [|by apply Hi].
    destruct (Hpk p Hp Hpr) as (w & Hw & Hlk & Hs & Hlive); [by exists j|].
    destruct (decide (volume_id w = i)) as [Hwi|Hwi]; [apply Hi; [done..|by rewrite <- Hwi]|].
    exists w. split_and!; [by apply set_volume_status_other|done..].
Qed.

(** C30.  Deprecating the sources of a consolidation never loses a pack: when
    [deprecate_sources] succeeds, all sources are DEPRECATED, the result is
    committed, and every non-pruned pack of any of them is on a BURNED or
    VERIFIED volume, with a live disc, that is not one of the sources. *)
Theorem deprecate_sources_safe ids now c :
  catalog_wf (committed c) -> catalog_wf (current c) ->
  (deprecate_sources ids now c).1 = Ok tt ->
  let c' := (deprecate_sources ids now c).2 in
  committed c' = current c' /\
  (forall i, i ∈ ids -> exists v, find_volume (current c') i = Some v /\ status v = "DEPRECATED") /\
  forall p, p ∈ packs (current c') -> is_pruned p = false -> linked_to_any (current c') ids p ->
    exists v, v ∈ volumes (current c') /\ volume_id v ∉ ids /\
      mkVolumePack (volume_id v) (pack_id p) ∈ volume_packs (current c') /\
      (status v = "BURNED" \/ status v = "VERIFIED") /\ live_by_discs (current c') v = true.
Proof.
  intros Wc W H c'. pose proof (keeps_deprecate_sources ids now c Wc W) as [_ W'].
  pose proof (then_commit (update_each "DEPRECATED" now ids) c) as Ht.
  fold (deprecate_sources ids now) in Ht. subst c'.
  destruct (deprecate_sources ids now c) as [r c']. cbn [fst snd] in *. destruct Ht as (Hr & Hcur & Hcm).
  assert (deprecated_so_far ids (current c')) as [Hst Hpk].
  { rewrite Hcur. apply (update_each_ind deprecated_so_far "DEPRECATED" now (deprecate_step now) ids []);
      [done|done| |congruence].
    split; [set_solver|]. intros p _ _ (i & Hi & _). by inv Hi. }
  split_and!; [by apply Hcm|done|]. intros p Hp Hpr Hl.
  destruct (Hpk p Hp Hpr Hl) as (v & Hv & Hlk & Hs & Hlive). exists v. split_and!; try done.
  intros Hi. destruct (Hst _ Hi) as (v' & [Hv' Hid]%find_volume_Some & Hd); [|done].
  assert (v = v') as -> by (by eapply (key_unique volume_id _ _ _ (wf_volume_id _ W'))).
  destruct Hs as [Hs|Hs]; rewrite Hs in Hd; discriminate.
Qed.
Lemma deprecate_sources_safe_witness :
  let c' := (deprecate_sources [1] "now" demo_conn).2 in
  committed c' = current c' /\
  (forall i, i ∈ [1] -> exists v, find_volume (current c') i = Some v /\ status v = "DEPRECATED") /\
  forall p, p ∈ packs (current c') -> is_pruned p = false -> linked_to_any (current c') [1] p ->
    exists v, v ∈ volumes (current c') /\ volume_id v ∉ [1] /\
      mkVolumePack (volume_id v) (pack_id p) ∈ volume_packs (current c') /\
      (status v = "BURNED" \/ status v = "VERIFIED") /\ live_by_discs (current c') v = true.
Proof.
  apply (deprecate_sources_safe [1] "now" demo_conn demo_catalog_wf demo_catalog_wf).
  vm_compute. reflexivity.
Defined.

(** [deprecate_sources] is not atomic although every [update_status] in it
    asks for [commit=False]: started outside a transaction, when the second
    source is refused the call raises [ValueError] with the first one's
    deprecation already committed. *)
Theorem deprecate_sources_not_atomic c i j now v w :
  catalog_wf (current c) -> in_transaction c = false -> committed c = current c ->
  find_volume (current c) i = Some v -> accepted (current c) i (status v) "DEPRECATED" false ->
  find_volume (current c) j = Some w -> j <> i -> "DEPRECATED" ∉ allowed_from (status w) ->
  let '(r, c') := deprecate_sources [i; j] now c in
  r = Err ValueError /\
  exists v', find_volume (committed c') i = Some v' /\ status v' = "DEPRECATED".
Proof.
  intros W Ht Hc Hv Hacc Hw Hji Hna. unfold deprecate_sources. cbn [update_each].
  pose proof (deprecate_run c i now v W Ht Hc Hv Hacc) as Hrun.
  pose proof (find_status_changed (current c) i (status v) "DEPRECATED" now v) as Hf.
  set (c1 := mkConn (set_volume_status (current c) i "DEPRECATED" now)
               (status_changed (current c) i (status v) "DEPRECATED" now) true) in *.
  assert (update_status j "DEPRECATED" now false false c1 = (Err ValueError, c1)) as Hj.
  { apply (update_status_refused c1 j _ _ _ w); [|done]. cbn [current c1].
    rewrite Hf; [by rewrite decide_False|done|apply Hacc|done]. }
  rewrite (db_bind_Err _ _ c (ValueError) c1).
  2: { rewrite (db_bind_Ok _ _ _ _ _ Hrun). apply (db_bind_Err _ _ _ _ _ Hj). }
  split; [done|]. exists (with_status "DEPRECATED" now v). split; [|apply with_status_status].
  specialize (Hf i W (proj1 Hacc) Hv). by rewrite decide_True in Hf.
Qed.
Lemma deprecate_sources_not_atomic_witness :
  let '(r, c') := deprecate_sources [1; 2] "now" demo_conn in
  r = Err ValueError /\
  exists v', find_volume (committed c') 1 = Some v' /\ status v' = "DEPRECATED".
Proof.
  apply (deprecate_sources_not_atomic demo_conn 1 2 "now" (demo_volume 1 "V1" "VERIFIED" "Home")
    (demo_volume 2 "V2" "BURNED" "Safe") demo_catalog_wf eq_refl eq_refl eq_refl demo_accepted eq_refl).
  - discriminate.
  - apply (bool_decide_unpack _). vm_compute. exact I.
Defined.

(** The volumes [update_each] has processed have the new status, the others are
    as they were. *)
Record each_updated (d0 : Catalog) (st now : string) (ids : list Z) (d : Catalog) : Prop := {
  eu_nodup : NoDup ids;
  eu_from : forall i, i ∈ ids -> exists v, find_volume d0 i = Some v /\ st ∈ allowed_from (status v);
  eu_find : forall j, find_volume d j =
    if decide (j ∈ ids) then with_status st now <$> find_volume d0 j else find_volume d0 j;
}.

Lemma each_updated_step d0 st now done_ d i v :
  st ∉ allowed_from st ->
  each_updated d0 st now done_ d -> catalog_wf d -> find_volume d i = Some v ->
  accepted d i (status v) st false ->
  each_updated d0 st now (done_ ++ [i]) (status_changed d i (status v) st now).
Proof.
  intros Hirr [Hnd Hfrom Hf] W Hv [Hst Hacc]. destruct Hacc as [Ha _]; [done|].
  assert (i ∉ done_) as Hi.
  { intros Hi. pose proof (Hf i) as Hfi. rewrite decide_True, Hv in Hfi by done.
    destruct (find_volume d0 i) as [v0|]; [|done]. injection Hfi as ->.
    by rewrite with_status_status in Ha. }
  pose proof (Hf i) as Hfi. rewrite decide_False, Hv in Hfi by done. split.
  - apply NoDup_app. split_and!; [done| |apply NoDup_singleton]. set_solver.
  - intros j [Hj| ->%list_elem_of_singleton]%elem_of_app; [by apply Hfrom|]. by exists v.
  - intros j. rewrite (find_status_changed _ _ _ _ _ v), Hf by done.
    destruct (decide (j = i)) as [->|Hji].
    + rewrite decide_True by set_solver. by rewrite <- Hfi.
    + apply decide_ext. set_solver.
Qed.

Lemma update_each_updated ids st now c :
  st ∉ allowed_from st -> catalog_wf (committed c) -> catalog_wf (current c) ->
  (update_each st now ids c).1 = Ok tt ->
  each_updated (current c) st now ids (current (update_each st now ids c).2).
Proof.
  intros Hirr Wc W H. apply (update_each_ind (each_updated (current c) st now) st now
    (fun done_ d i v => each_updated_step (current c) st now done_ d i v Hirr) ids [] c Wc W); [|done].
  split; [constructor|set_solver|]. intros j. by rewrite decide_False by set_solver.
Qed.

Lemma update_each_total ids st now c :
  st <> "DEPRECATED" -> st ∈ VOLUME_STATUSES -> catalog_wf (committed c) -> catalog_wf (current c) ->
  NoDup ids ->
  (forall i, i ∈ ids -> exists v, find_volume (current c) i = Some v /\ st ∈ allowed_from (status v)) ->
  (update_each st now ids c).1 = Ok tt.
Proof.
  intros Hnd Hst. revert c. induction ids as [|i ids IH]; intros c Wc W Hdup Hall; cbn [update_each];
    [done|]. apply NoDup_cons in Hdup as [Hi Hdup].
  destruct (Hall i) as (v & Hv & Ha); [left|].
  destruct (update_status_Ok c i st now false false v W Hv) as (b & d0 & Hrun & _); [by split|].
  rewrite (db_bind_Ok _ _ _ _ _ Hrun).
  pose proof (keeps_update_status i st now false false c Wc W) as [Wc' W']. rewrite Hrun in Wc', W'.
  apply IH; [done..|]. intros j Hj. destruct (Hall j) as (w & Hw & Haw); [by right|]. exists w.
  split; [|done]. cbn [current]. rewrite (find_status_changed _ _ _ _ _ v) by done.
  rewrite decide_False by (by intros ->). done.
Qed.

Lemma consolidating_from s : "CONSOLIDATING" ∈ allowed_from s -> s = "VERIFIED".
Proof.
  unfold allowed_from. destruct (List.find _ VALID_TRANSITIONS) as [[k l]|] eqn:E; [|by intros H; inv H].
  apply List.find_some in E as [Hin Hk]. apply sql_eq_elim in Hk. cbn [fst] in Hk. subst k. intros Hl.
  apply list_elem_of_In in Hin. unfold VALID_TRANSITIONS in Hin.
  repeat (apply elem_of_cons in Hin as [[= -> ->]|Hin]; [vm_compute in Hl; set_solver|]). by inv Hin.
Qed.
Lemma abort_marked v now now' :
  status v = "VERIFIED" ->
  with_status "VERIFIED" now' (with_status "CONSOLIDATING" now v) = set_verified_at now' v.
Proof. destruct v. cbn. by intros ->. Qed.

(** Aborting undoes the mark: whenever [mark_sources_consolidating]
    succeeds, all sources were VERIFIED and [abort_consolidation] afterwards
    succeeds too, is committed, and gives back every volume as it was before
    the mark, except that the sources carry the time of the abort as their time
    of verification although nothing was verified. *)
Theorem mark_abort_restores ids now now' c :
  catalog_wf (committed c) -> catalog_wf (current c) ->
  (mark_sources_consolidating ids now c).1 = Ok tt ->
  let '(r, c') := abort_consolidation ids now' (mark_sources_consolidating ids now c).2 in
  r = Ok tt /\ committed c' = current c' /\
  (forall i, i ∈ ids -> exists v, find_volume (current c) i = Some v /\ status v = "VERIFIED") /\
  forall j, find_volume (current c') j =
    if decide (j ∈ ids) then set_verified_at now' <$> find_volume (current c) j
    else find_volume (current c) j.
Proof.
  intros Wc W H. pose proof (keeps_mark_sources ids now c Wc W) as [Wc1 W1].
  pose proof (then_commit (update_each "CONSOLIDATING" now ids) c) as Ht.
  fold (mark_sources_consolidating ids now) in Ht.
  destruct (mark_sources_consolidating ids now c) as [r1 c1]. cbn [fst snd] in *.
  destruct Ht as (Hr1 & Hcur1 & _). subst r1.
  destruct (update_each_updated ids "CONSOLIDATING" now c) as [Hnd Hfrom Hf];
    [apply (bool_decide_unpack _); vm_compute; exact I|done..|].
  rewrite <- Hcur1 in Hf.
  assert (forall i, i ∈ ids -> exists v, find_volume (current c) i = Some v /\ status v = "VERIFIED") as Hver.
  { intros i Hi. destruct (Hfrom i Hi) as (v & Hv & Ha). exists v. by split; [|apply consolidating_from]. }
  assert ((update_each "VERIFIED" now' ids c1).1 = Ok tt) as Hab.
  { apply update_each_total; [done| |done..|].
    - apply (bool_decide_unpack _). vm_compute. exact I.
    - intros i Hi. destruct (Hver i Hi) as (v & Hv & _).
      exists (with_status "CONSOLIDATING" now v). rewrite Hf, decide_True, Hv by done. split; [done|].
      rewrite with_status_status. apply (bool_decide_unpack _). vm_compute. exact I. }
  destruct (update_each_updated ids "VERIFIED" now' c1) as [_ _ Hf'];
    [apply (bool_decide_unpack _); vm_compute; exact I|done..|].
  pose proof (then_commit (update_each "VERIFIED" now' ids) c1) as Ht.
  fold (abort_consolidation ids now') in Ht.
  destruct (abort_consolidation ids now' c1) as [r2 c2]. destruct Ht as (Hr2 & Hcur2 & Hcm2).
  split_and!; [congruence|apply Hcm2; congruence|done|].
  intros j. rewrite Hcur2, Hf', Hf. case_decide as Hj; [|done].
  destruct (Hver j Hj) as (v & -> & Hv). cbn. f_equal. by apply abort_marked.
Qed.
Lemma mark_abort_restores_witness :
  let '(r, c') := abort_consolidation [1] "t2" (mark_sources_consolidating [1] "t1" demo_conn).2 in
  r = Ok tt /\ committed c' = current c' /\
  (forall i, i ∈ [1] -> exists v, find_volume (current demo_conn) i = Some v /\ status v = "VERIFIED") /\
  forall j, find_volume (current c') j =
    if decide (j ∈ [1]) then set_verified_at "t2" <$> find_volume (current demo_conn) j
    else find_volume (current demo_conn) j.
Proof.
  apply (mark_abort_restores [1] "t1" "t2" demo_conn demo_catalog_wf demo_catalog_wf).
  vm_compute. reflexivity.
Defined.
