(* ===== verification/Escrow.v ===== *)
(** * Snapshots and recorded password splits

    [db/snapshots.py] and [db/key_escrow.py].  The drift check is modelled with its
    messages as data: which disagreement it reports, of which repository. *)

From Stdlib Require Import Ascii.
From S2P Require Import Prelude PyString PyText Json Sqlite Catalog VolumeEvents Queries Volumes.
Open Scope string_scope.
Open Scope list_scope.
Open Scope Z_scope.

(** ** Snapshots *)

Definition upsert_snapshot (sid repo host time ps tgs desc : string) (commit : bool) : dbc Snapshot :=
  let x := mkSnapshot sid repo host time ps tgs desc in
  _ ← execute (replace_snapshot x);
  _ ← commit_if commit;
  mret x.
Definition bulk_upsert_snapshots (l : list Snapshot) (commit : bool) : dbc Z :=
  if bool_decide (l = []) then mret 0
  else
    _ ← executemany replace_snapshot l;
    _ ← commit_if commit;
    mret (len l).
Definition list_snapshots (repo : option string) (d : Catalog) : list Snapshot :=
  order_by (by_key timestamp)
    (match repo with
     | Some r => where_ (fun s => sql_eq (s_repo_id s) r) (snapshots d)
     | None => snapshots d
     end).
Definition get_snapshot (sid : string) (d : Catalog) : option Snapshot :=
  fetchone (where_ (fun s => sql_eq (snapshot_id s) sid) (snapshots d)).
Definition delete_snapshots_for_repo (repo : string) : dbc Z :=
  n ← (execute (delete_snapshots (fun s => sql_eq (s_repo_id s) repo)) : dbc Z);
  _ ← (commit : dbc unit);
  mret n.
Definition delete_blank_snapshots : dbc Z :=
  n ← (execute (delete_snapshots (fun s => sql_eq (snapshot_id s) "")) : dbc Z);
  _ ← (commit : dbc unit);
  mret n.

(** ** Recorded splits *)

Definition can_record_splits (d : Catalog) : bool := bool_decide (is_Some (key_escrow d)).
Definition get_split (repo : string) (d : Catalog) : option KeyEscrow :=
  match key_escrow d with
  | None => None
  | Some l => fetchone (where_ (fun x => sql_eq (ke_repo_id x) repo) l)
  end.
Definition record_split (repo : string) (k n i : Z) (at_ : option string) (now : string) (commit : bool) :
    dbc KeyEscrow :=
  let x := mkKeyEscrow repo k n i (default now at_) in
  _ ← execute (upsert_split (fun _ _ => true) x);
  _ ← commit_if commit;
  got ← query (get_split repo);
  match got with Some x => mret x | None => raise AssertionError end.
Definition clear_split (repo : string) (commit : bool) : dbc unit :=
  exists_ ← query can_record_splits;
  if negb exists_ then mret tt
  else
    _ ← execute (delete_split repo);
    commit_if commit.

Definition _repo_name (repo : string) (d : Catalog) : option string :=
  r_name <$> fetchone (where_ (fun x => sql_eq (r_repo_id x) repo) (repositories d)).
(** Under the id, or else, as older builds recorded it, under the name. *)
Definition get_split_for_repo (repo : string) (d : Catalog) : option KeyEscrow :=
  match get_split repo d with
  | Some x => Some x
  | None =>
      match _repo_name repo d with
      | None => None
      | Some n => if sql_eq n repo then None else get_split n d
      end
  end.

(** ** Names of the configuration *)

(** [os.path.normpath] *)
Definition norm_step (absolute : bool) (comps : list string) (c : string) : list string :=
  if String.eqb c "" || String.eqb c "." then comps
  else if negb (String.eqb c "..") || (negb absolute && bool_decide (comps = [])) ||
          (negb (bool_decide (comps = [])) && String.eqb (List.last comps "") "..")
  then comps ++ [c]
  else removelast comps.
Definition normpath (p : string) : string :=
  let slashes := if String.prefix "///" p then "/" else if String.prefix "//" p then "//"
                 else if String.prefix "/" p then "/" else "" in
  let comps := foldl (norm_step (negb (String.eqb slashes ""))) [] (split_on "/"%char p) in
  let r := String.append slashes (String.concat "/" comps) in
  if String.eqb r "" then "." else r.

(** [mirrors] maps each key of the configuration to the text of its mirror path. *)
Definition config_key (mirrors : list (string * string)) (r : Repository) : option string :=
  let by_path := foldl (fun d m => dict_put (normpath m.2) m.1 d) [] mirrors in
  let by_lower := foldl (fun d m => dict_put (str_lower m.1) m.1 d) [] mirrors in
  match dict_get (normpath (mirror_path r)) by_path with
  | Some key => Some key
  | None =>
      match dict_get (r_name r) mirrors with
      | Some _ => Some (r_name r)
      | None => dict_get (str_lower (r_name r)) by_lower
      end
  end.
Definition config_names_by_repo_id (mirrors : list (string * string)) (d : Catalog) : list (string * string) :=
  foldl (fun out r => match config_key mirrors r with
                      | Some key => dict_put (r_repo_id r) key out
                      | None => out
                      end) [] (repositories d).

Definition recorded_splits (config_names : list (string * string)) (d : Catalog) : list (string * (Z * Z)) :=
  foldl (fun out x => match get_split_for_repo x.1 d with
                      | Some r => dict_put x.2 (threshold r, shares r) out
                      | None => out
                      end) [] config_names.
Definition recorded_splits_by_name (mirrors : list (string * string)) (d : Catalog) : list (string * (Z * Z)) :=
  let names := config_names_by_repo_id mirrors d in
  let matched := snd <$> names in
  foldl (fun out m =>
    if bool_decide (is_Some (dict_get m.1 out)) || bool_decide (m.1 ∈ matched) then out
    else match get_split m.1 d with
         | Some r => dict_put m.1 (threshold r, shares r) out
         | None => out
         end) (recorded_splits names d) mirrors.

(** ** Drift *)

(** What a message of [detect_escrow_drift] says: the repository as [--repo] takes it,
    and both sides of the disagreement. *)
Inductive drift :=
  | NeverSplit (name key : string) (k n : Z)
  | OtherSplit (name key : string) (k n : Z) (record : KeyEscrow)
  | SupersededPassword (name key : string) (record : KeyEscrow).

Definition drift_of (name key : string) (split : bool) (k n : Z) (record : option KeyEscrow) : option drift :=
  if split then
    match record with
    | None => Some (NeverSplit name key k n)
    | Some r => if negb (bool_decide ((threshold r, shares r) = (k, n))) then Some (OtherSplit name key k n r) else None
    end
  else match record with
       | Some r => Some (SupersededPassword name key r)
       | None => None
       end.

Section drift.
(** The split the configuration asks for of a key: [split_for], or else the defaults. *)
Variable split_for : string -> bool * Z * Z.
Variable config_names : list (string * string).

Definition repo_display (repo : string) (d : Catalog) : string :=
  match _repo_name repo d with
  | Some n => if String.eqb n "" then repo else n
  | None => repo
  end.
Definition repo_key (repo : string) (d : Catalog) : string :=
  match dict_get repo config_names with Some k => k | None => repo_display repo d end.
Definition repo_drift (d : Catalog) (repo : string) : option drift :=
  let '(split, k, n) := split_for (repo_key repo d) in
  drift_of (repo_display repo d) (repo_key repo d) split k n (get_split_for_repo repo d).
Fixpoint first_drift (d : Catalog) (l : list string) : option drift :=
  match l with
  | [] => None
  | r :: l => match repo_drift d r with Some x => Some x | None => first_drift d l end
  end.
Definition sorted_set (l : list string) : list string :=
  order_by (by_key id) (remove_dups l).
Definition detect_escrow_drift (repo_ids : list string) (d : Catalog) : option drift :=
  first_drift d (sorted_set repo_ids).
End drift.
Definition config_defaults (split : bool) (k n : Z) : string -> bool * Z * Z := fun _ => (split, k, n).

(** ** Well-formedness is kept *)

Lemma keeps_upsert_snapshot sid repo host time ps tgs desc cm :
  keeps catalog_wf (upsert_snapshot sid repo host time ps tgs desc cm).
Proof. unfold upsert_snapshot. keeps. by eapply wf_replace_snapshot. Qed.
Lemma keeps_bulk_upsert_snapshots l cm : keeps catalog_wf (bulk_upsert_snapshots l cm).
Proof.
  unfold bulk_upsert_snapshots. keeps. apply keeps_executemany. intros x d a d' W H.
  by eapply wf_replace_snapshot.
Qed.
Lemma keeps_delete_snapshots_for_repo r : keeps catalog_wf (delete_snapshots_for_repo r).
Proof. unfold delete_snapshots_for_repo. keeps. by eapply wf_delete_snapshots. Qed.
Lemma keeps_delete_blank_snapshots : keeps catalog_wf delete_blank_snapshots.
Proof. unfold delete_blank_snapshots. keeps. by eapply wf_delete_snapshots. Qed.
Lemma keeps_record_split r k n i t now cm : keeps catalog_wf (record_split r k n i t now cm).
Proof. unfold record_split. keeps. by eapply wf_upsert_split. Qed.
Lemma keeps_clear_split r cm : keeps catalog_wf (clear_split r cm).
Proof. unfold clear_split. keeps. by eapply wf_delete_split. Qed.

(** ** Recording a split *)

Lemma fetchone_where_None {A} (p : A -> bool) l : fetchone (where_ p l) = None <-> forall x, x ∈ l -> p x = false.
Proof.
  rewrite <- count_where_zero. unfold fetchone, count_where. destruct (where_ p l); cbn; [done|split; [done|lia]].
Qed.
Lemma fetchone_where_Some {A} (p : A -> bool) l x : fetchone (where_ p l) = Some x -> p x = true /\ x ∈ l.
Proof.
  unfold fetchone. intros H. apply elem_of_where. destruct (where_ p l); [done|]. injection H as ->. by left.
Qed.
Lemma fetchone_app {A} (p : A -> bool) l l' :
  fetchone (where_ p (l ++ l')) = match fetchone (where_ p l) with Some x => Some x | None => fetchone (where_ p l') end.
Proof. unfold where_, fetchone. rewrite List.filter_app. by destruct (List.filter p l). Qed.
Lemma fetchone_update {A} (p q : A -> bool) (f : A -> A) l :
  (forall x, x ∈ l -> q x = true -> p (f x) = p x) ->
  fetchone (where_ p (update_where q f l)) = (fun x => if q x then f x else x) <$> fetchone (where_ p l).
Proof.
  intros H. unfold where_, fetchone, update_where. induction l as [|x l IH]; [done|]. csimpl.
  assert (p (if q x then f x else x) = p x) as -> by (destruct (q x) eqn:E; [apply H; [left|done]|done]).
  destruct (p x); [done|]. apply IH. intros y Hy. apply H. by right.
Qed.

Lemma get_split_upsert x d u d' r : upsert_split (fun _ _ => true) x d = Ok (u, d') ->
  get_split r d' = if decide (r = ke_repo_id x) then Some x else get_split r d.
Proof.
  unfold upsert_split, get_split. destruct (key_escrow d) as [l|] eqn:El; [|done]. intros [= _ <-]. cbn.
  destruct (exists_row _ l) eqn:E.
  - assert (forall b, (b && true) = b) as Hb by (by intros []).
    rewrite fetchone_update by (intros y _ Hy; rewrite Hb in Hy; apply sql_eq_elim in Hy; by rewrite Hy).
    destruct (fetchone _) as [y|] eqn:Ey; cbn.
    + apply fetchone_where_Some in Ey as [Hy%sql_eq_elim _]. rewrite Hb, Hy. unfold sql_eq.
      case_bool_decide as Hr; [by rewrite decide_True|by rewrite decide_False].
    + case_decide as Hr; [|done]. exfalso. apply exists_row_true in E as (y & Hy & Hk).
      rewrite fetchone_where_None in Ey. apply Ey in Hy. subst r. congruence.
  - rewrite fetchone_app. rewrite exists_row_false in E. unfold where_ at 2. cbn [List.filter]. unfold sql_eq at 2.
    case_bool_decide as Hr.
    + subst r. rewrite decide_True by done. by rewrite (proj2 (fetchone_where_None _ l) E).
    + rewrite decide_False by congruence. by destruct (fetchone _).
Qed.

(** Recording a split on a catalog that has the table returns the record, replaces the
    one the repository had, leaves every other repository's, and is committed when asked;
    whoever looks the repository up finds the new split.  A catalog without the table
    refuses and is left as it was. *)
Theorem record_split_spec repo k n i at_ now cm c :
  catalog_wf (current c) ->
  let (r, c') := record_split repo k n i at_ now cm c in
  if can_record_splits (current c)
  then r = Ok (mkKeyEscrow repo k n i (default now at_)) /\
    get_split_for_repo repo (current c') = Some (mkKeyEscrow repo k n i (default now at_)) /\
    (forall other, other <> repo -> get_split other (current c') = get_split other (current c)) /\
    (cm = true -> committed c' = current c') /\ catalog_wf (current c')
  else r = Err SqliteOperationalError /\ current c' = current c /\ committed c' = committed c.
Proof.
  intros W. unfold record_split, can_record_splits. set (x := mkKeyEscrow repo k n i (default now at_)).
  destruct (key_escrow (current c)) as [l|] eqn:El.
  - rewrite bool_decide_eq_true_2 by done.
    destruct (upsert_split (λ _ _, true) x (current c)) as [[[] d]|e] eqn:E.
    2:{ unfold upsert_split in E. by rewrite El in E. }
    assert (execute (upsert_split (λ _ _, true) x) c = (Ok tt, mkConn (committed c) d true)) as H1
      by (unfold execute; by rewrite E).
    rewrite (db_bind_Ok _ _ _ _ _ H1).
    assert (get_split repo d = Some x) as Hx by (rewrite (get_split_upsert _ _ _ _ _ E); by rewrite decide_True).
    assert (catalog_wf d) as Wd by (by eapply wf_upsert_split).
    destruct cm; unfold mbind, db_bind, commit_if, commit, query; cbn; rewrite Hx; cbn;
      (split_and!; [done|unfold get_split_for_repo; by rewrite Hx| |done|done]);
      intros other Ho; by rewrite (get_split_upsert _ _ _ _ _ E), decide_False.
  - rewrite bool_decide_eq_false_2 by (by intros []).
    unfold mbind, db_bind, execute, upsert_split. rewrite El. done.
Qed.

Lemma record_split_spec_witness : catalog_wf (current demo_conn) /\
  (record_split "r1" 2 3 77 None "2026-01-01" true demo_conn).1 = Ok (mkKeyEscrow "r1" 2 3 77 "2026-01-01").
Proof.
  split; [apply demo_catalog_wf|].
  pose proof (record_split_spec "r1" 2 3 77 None "2026-01-01" true demo_conn demo_catalog_wf) as H.
  destruct (record_split _ _ _ _ _ _ _ _) as [r c]. apply H.
Defined.

(** ** Drift *)

Definition agrees (split : bool) (k n : Z) (record : option KeyEscrow) : Prop :=
  match record with
  | Some r => split = true /\ threshold r = k /\ shares r = n
  | None => split = false
  end.
Lemma drift_of_None name key split k n record : drift_of name key split k n record = None <-> agrees split k n record.
Proof.
  unfold drift_of, agrees. destruct split, record as [r|]; [|naive_solver..].
  case_bool_decide as H; cbn; [injection H as -> ->; naive_solver|].
  split; [done|]. intros (_ & <- & <-). done.
Qed.

Section drift_props.
Variables (split_for : string -> bool * Z * Z) (config_names : list (string * string)).

Lemma first_drift_None d l : first_drift split_for config_names d l = None <->
  Forall (fun r => repo_drift split_for config_names d r = None) l.
Proof.
  induction l as [|r l IH]; cbn [first_drift]; [done|]. rewrite Forall_cons.
  destruct (repo_drift _ _ d r); [naive_solver|]. rewrite IH. tauto.
Qed.
Lemma first_drift_Some d l x : first_drift split_for config_names d l = Some x ->
  exists l1 r l2, l = l1 ++ r :: l2 /\ repo_drift split_for config_names d r = Some x /\
    Forall (fun r => repo_drift split_for config_names d r = None) l1.
Proof.
  induction l as [|r l IH]; cbn [first_drift]; [done|].
  destruct (repo_drift _ _ d r) eqn:E; [intros [= ->]; by exists [], r, l|].
  intros (l1 & r' & l2 & -> & ? & ?)%IH. exists (r :: l1), r', l2. by split_and!; [..|constructor].
Qed.
End drift_props.

Lemma elem_of_sorted_set x l : x ∈ sorted_set l <-> x ∈ l.
Proof. unfold sorted_set. by rewrite elem_of_order_by, elem_of_remove_dups. Qed.

(** C38.  The drift check passes exactly when every repository's recorded split is the one
    the configuration asks for, K and N included, and no repository is split without a
    record or recorded without being split; otherwise it reports a repository that
    disagrees, before which, in the order of ids, none does. *)
Theorem detect_escrow_drift_spec split_for config_names repo_ids d :
  match detect_escrow_drift split_for config_names repo_ids d with
  | None => forall r, r ∈ repo_ids ->
      let '(split, k, n) := split_for (repo_key config_names r d) in agrees split k n (get_split_for_repo r d)
  | Some x => exists r, r ∈ repo_ids /\
      let '(split, k, n) := split_for (repo_key config_names r d) in
      drift_of (repo_display r d) (repo_key config_names r d) split k n (get_split_for_repo r d) = Some x /\
      forall r', r' ∈ repo_ids -> String.ltb r' r = true ->
      let '(split', k', n') := split_for (repo_key config_names r' d) in agrees split' k' n' (get_split_for_repo r' d)
  end.
Proof.
  assert (forall r, repo_drift split_for config_names d r = None ->
    let '(split, k, n) := split_for (repo_key config_names r d) in agrees split k n (get_split_for_repo r d)) as Hnone.
  { intros r. unfold repo_drift. destruct (split_for _) as [[split k] n]. by rewrite drift_of_None. }
  unfold detect_escrow_drift. destruct (first_drift _ _ _ _) as [x|] eqn:E.
  - apply first_drift_Some in E as (l1 & r & l2 & Hl & Hr & Hl1). exists r.
    assert (r ∈ repo_ids) as Hin by (apply elem_of_sorted_set; rewrite Hl; apply elem_of_app; right; by left).
    split; [done|]. unfold repo_drift in Hr. destruct (split_for _) as [[split k] n]. split; [done|].
    intros r' Hr' Hlt. apply Hnone. apply elem_of_sorted_set in Hr'. rewrite Hl in Hr'.
    rewrite Forall_forall in Hl1. apply elem_of_app in Hr' as [Hr'|Hr']; [by apply Hl1|]. exfalso.
    assert (StronglySorted (fun x y => by_key id x y = true) (l1 ++ r :: l2)) as Hs
      by (rewrite <- Hl; apply order_by_sorted, le_ok_by_key).
    apply StronglySorted_app_1_r in Hs. apply elem_of_cons in Hr' as [->|Hr'].
    + unfold String.ltb in Hlt. pose proof (String.compare_antisym r r) as Ha.
      by destruct (String.compare r r).
    + inversion Hs as [|? ? _ Hall]; subst. rewrite Forall_forall in Hall. apply Hall in Hr'.
      unfold by_key, id, String.leb in Hr'. unfold String.ltb in Hlt.
      rewrite String.compare_antisym in Hr'. by destruct (String.compare r' r).
  - rewrite first_drift_None, Forall_forall in E. intros r Hr. apply Hnone, E. by apply elem_of_sorted_set.
Qed.
