(* ===== verification/Rebuild.v ===== *)
(** * Rebuilding the catalog from the discs

    [db/rebuild.py]: the catalogs that the discs carry are merged, the freshest first, into
    one.  A disc's catalog is what its version of the schema had: tables that it lacks are
    [None], and columns that it lacks are listed, whatever the rows then hold there.  Rows
    come in the order of the source's table.  Freshness is a float that is only compared,
    here an integer; reading a time stamp is an argument. *)

From S2P Require Import Prelude Json Effects Sqlite Catalog VolumeEvents Queries Volumes.
Open Scope string_scope.
Open Scope list_scope.
Open Scope Z_scope.

(** ** A disc's catalog *)

Record Source := mkSource {
  src_repositories : option (list Repository);
  src_locations : option (list Location);
  src_packs : option (list Pack);
  src_volumes : option (list Volume);
  src_snapshots : option (list Snapshot);
  src_volume_packs : option (list VolumePack);
  src_volume_copies : option (list VolumeCopy);
  src_volume_events : option (list VolumeEvent);
  src_burn_sessions : option (list BurnSession);
  src_session_volumes : option (list SessionVolume);
  src_key_escrow : option (list KeyEscrow);
  lacking : list (string * string);   (* table and column *)
}.
Definition lacks (s : Source) (t c : string) : bool := sql_in (t, c) (lacking s).

(** Preparing a statement over [src.t] fails on a missing table or column. *)
Definition from_table {A} (s : Source) (t : string) (columns : list string) (o : option (list A)) : res (list A) :=
  match o with
  | None => Err SqliteOperationalError
  | Some l => if existsb (lacks s t) columns then Err SqliteOperationalError else Ok l
  end.

(** ** [INSERT OR IGNORE INTO t SELECT] *)

(** What a statement does with one row: whether a constraint that OR IGNORE covers is
    broken, whether its references exist, the row appended, and what passing over a row
    leaves (an id is used up where the table counts them). *)
Record insertion (R : Type) := mkInsertion {
  ignored : R -> Catalog -> bool;
  refers : R -> Catalog -> bool;
  append : R -> Catalog -> Catalog;
  passed_over : Catalog -> Catalog;
}.
Arguments mkInsertion {R}. Arguments ignored {R}. Arguments refers {R}.
Arguments append {R}. Arguments passed_over {R}.

(** The number of rows appended; a missing reference undoes the whole statement. *)
Definition insert_one {R} (t : insertion R) (acc : Z * Catalog) (r : R) : res (Z * Catalog) :=
  let '(n, d) := acc in
  if ignored t r d then Ok (n, passed_over t d)
  else
    _ ← integrity (negb (refers t r d));
    Ok (n + 1, append t r d).
Definition insert_all {R} (t : insertion R) (rows : list R) (d : Catalog) : res (Z * Catalog) :=
  foldM (insert_one t) (0, d) rows.

Definition has_snapshot (d : Catalog) (i : string) : bool :=
  exists_row (fun x => sql_eq (snapshot_id x) i) (snapshots d).

Definition into_repositories : insertion Repository := mkInsertion
  (fun r d => has_repo d (r_repo_id r)) (fun _ _ => true)
  (fun r d => set_repositories d (repositories d ++ [r])) id.
Definition into_locations : insertion Location := mkInsertion
  (fun l d => has_location d (name l)) (fun _ _ => true)
  (fun l d => set_locations d (locations d ++ [l])) id.
Definition into_packs : insertion Pack := mkInsertion
  (fun p d => exists_row (fun q => sql_eq (sha256 q) (sha256 p)) (packs d))
  (fun p d => has_repo d (repo_id p))
  (fun p d => let i := seq_packs d + 1 in
     set_seqs (set_packs d (packs d ++ [mkPack i (sha256 p) (size_bytes p) (repo_id p) (is_pruned p) (pack_created_at p)]))
       (seq_volumes d) i (seq_copies d) (seq_events d))
  (fun d => set_seqs d (seq_volumes d) (seq_packs d + 1) (seq_copies d) (seq_events d)).
Definition into_volumes : insertion Volume := mkInsertion
  (fun v d => exists_row (fun w => sql_eq (label w) (label v) || sql_eq (uuid w) (uuid v)) (volumes d) ||
              negb (sql_in (status v) VOLUME_STATUSES))
  (fun _ _ => true)
  (fun v d => let i := seq_volumes d + 1 in
     set_seqs (set_volumes d (volumes d ++
         [mkVolume i (label v) (uuid v) (media_type v) (capacity_bytes v) (used_bytes v) (location v) (status v)
            (created_at v) (closed_at v) (verified_at v)]))
       i (seq_packs d) (seq_copies d) (seq_events d))
  (fun d => set_seqs d (seq_volumes d + 1) (seq_packs d) (seq_copies d) (seq_events d)).
Definition into_snapshots : insertion Snapshot := mkInsertion
  (fun x d => has_snapshot d (snapshot_id x)) (fun x d => has_repo d (s_repo_id x))
  (fun x d => set_snapshots d (snapshots d ++ [x])) id.
Definition into_volume_packs : insertion VolumePack := mkInsertion
  (fun x d => sql_in x (volume_packs d)) (fun x d => has_volume d (vp_volume_id x) && has_pack d (vp_pack_id x))
  (fun x d => set_volume_packs d (volume_packs d ++ [x])) id.
Definition into_volume_copies : insertion VolumeCopy := mkInsertion
  (fun c d => exists_row (fun y => sql_eq (vc_volume_id y) (vc_volume_id c) && sql_eq (vc_location y) (vc_location c))
                (volume_copies d) || negb (sql_in (vc_status c) COPY_STATUSES))
  (fun c d => has_volume d (vc_volume_id c) && has_location d (vc_location c))
  (fun c d => let i := seq_copies d + 1 in
     set_seqs (set_copies d (volume_copies d ++
         [mkVolumeCopy i (vc_volume_id c) (vc_location c) (vc_status c) (burn_date c) (notes c) (iso_sha256 c)
            (last_verified_at c) (media_serial c) (iso_size_bytes c)]))
       (seq_volumes d) (seq_packs d) i (seq_events d))
  (fun d => set_seqs d (seq_volumes d) (seq_packs d) (seq_copies d + 1) (seq_events d)).
Definition into_burn_sessions : insertion BurnSession := mkInsertion
  (fun b d => has_session d (session_id b) || negb (sql_in (bs_status b) SESSION_STATUSES)) (fun _ _ => true)
  (fun b d => set_sessions d (burn_sessions d ++ [b])) id.
Definition into_session_volumes : insertion SessionVolume := mkInsertion
  (fun x d => exists_row (fun y => sql_eq (sv_session_id y) (sv_session_id x) && sql_eq (sv_volume_id y) (sv_volume_id x))
                (session_volumes d))
  (fun x d => has_session d (sv_session_id x) && has_volume d (sv_volume_id x))
  (fun x d => set_session_volumes d (session_volumes d ++ [x])) id.
(** Without OR IGNORE: a failed CHECK undoes the statement as a missing reference does. *)
Definition into_volume_events : insertion VolumeEvent := mkInsertion
  (fun _ _ => false)
  (fun e d => sql_in (event_type e) EVENT_TYPES && has_volume d (ev_volume_id e) && has_location_opt d (ev_location e))
  (fun e d => let i := seq_events d + 1 in
     set_seqs (set_events d (volume_events d ++
         [mkVolumeEvent i (ev_volume_id e) (event_type e) (event_date e) (ev_location e) (detail e)]))
       (seq_volumes d) (seq_packs d) (seq_copies d) i)
  id.

(** The upsert counts the rows it inserts or changes. *)
Definition newer_split (x y : KeyEscrow) : bool := String.ltb (split_at y) (split_at x).
Definition upsert_one (acc : Z * Catalog) (x : KeyEscrow) : res (Z * Catalog) :=
  let '(n, d) := acc in
  let older y := sql_eq (ke_repo_id y) (ke_repo_id x) && negb (newer_split x y) in
  '(_, d') ← upsert_split newer_split x d;
  Ok (if exists_row older (default [] (key_escrow d)) then n else n + 1, d').
Definition upsert_splits (rows : list KeyEscrow) (d : Catalog) : res (Z * Catalog) :=
  foldM upsert_one (0, d) rows.

(** ** The rows selected, with the ids of the target *)

Definition same_uuid (svs : list Volume) (i : Z) (d : Catalog) : list Z :=
  sv ← where_ (fun v => sql_eq (volume_id v) i) svs;
  v ← where_ (fun v => sql_eq (uuid v) (uuid sv)) (volumes d);
  [volume_id v].
Definition same_sha (sps : list Pack) (i : Z) (d : Catalog) : list Z :=
  sp ← where_ (fun p => sql_eq (pack_id p) i) sps;
  p ← where_ (fun p => sql_eq (sha256 p) (sha256 sp)) (packs d);
  [pack_id p].
Definition repository_rows (s : Source) (l : list Repository) : list Repository :=
  if lacks s "repositories" "status" then set_repo_row_status "active" <$> l else l.
Definition link_rows (svs : list Volume) (sps : list Pack) (l : list VolumePack) (d : Catalog) : list VolumePack :=
  x ← l;
  v ← same_uuid svs (vp_volume_id x) d;
  p ← same_sha sps (vp_pack_id x) d;
  [mkVolumePack v p].
Definition copy_rows (s : Source) (svs : list Volume) (l : list VolumeCopy) (d : Catalog) : list VolumeCopy :=
  c ← l;
  v ← same_uuid svs (vc_volume_id c) d;
  [mkVolumeCopy (copy_id c) v (vc_location c) (vc_status c) (burn_date c) (notes c) (iso_sha256 c) (last_verified_at c)
     (media_serial c) (if lacks s "volume_copies" "iso_size_bytes" then None else iso_size_bytes c)].
Definition event_rows (svs : list Volume) (l : list VolumeEvent) (d : Catalog) : list VolumeEvent :=
  e ← l;
  v ← same_uuid svs (ev_volume_id e) d;
  if exists_row (fun te => sql_eq (ev_volume_id te) v && sql_eq (event_type te) (event_type e) &&
                           sql_eq (event_date te) (event_date e) && sql_eq (detail te) (detail e)) (volume_events d)
  then [] else [mkVolumeEvent (event_id e) v (event_type e) (event_date e) (ev_location e) (detail e)].
Definition session_volume_rows (s : Source) (svs : list Volume) (l : list SessionVolume) (d : Catalog) :
    list SessionVolume :=
  x ← l;
  v ← same_uuid svs (sv_volume_id x) d;
  [mkSessionVolume (sv_session_id x) v (iso_path x) (sv_iso_sha256 x)
     (if lacks s "session_volumes" "iso_size_bytes" then None else sv_iso_size_bytes x)].
Definition pruned_conflicts (l : list Pack) (d : Catalog) : Z :=
  sumZ ((fun sp => count_where (fun p => sql_eq (sha256 p) (sha256 sp) &&
      negb (Bool.eqb (is_pruned p) (is_pruned sp))) (packs d)) <$> l).
Definition status_conflicts (l : list Volume) (d : Catalog) : list (Volume * string) :=
  v ← volumes d;
  sv ← where_ (fun sv => sql_eq (uuid sv) (uuid v)) l;
  [(v, status sv)].

(** ** Merging one disc *)

(** A float, or in [rebuild_catalog] minus infinity for a disc without a catalog. *)
Abbreviation freshness := Z (only parsing).

Inductive warning :=
  | OlderMoreAlive (lab src_status tgt_status : string)
  | PrunedDisagreements (n : Z).

(** The connection with its attached database, [status_freshness] and [warnings], which the
    merges of one run share. *)
Record merging := mkMerging {
  target : Conn Catalog;
  attached : bool;
  status_freshness : gmap string freshness;
  warned : list warning;
}.
Definition set_target (c : Conn Catalog) (s : merging) : merging :=
  mkMerging c (attached s) (status_freshness s) (warned s).
Definition set_attached (b : bool) (s : merging) : merging :=
  mkMerging (target s) b (status_freshness s) (warned s).
Definition own_status (f : freshness) (u : string) (s : merging) : merging :=
  mkMerging (target s) (attached s) (<[u := f]> (status_freshness s)) (warned s).
Definition warn (w : warning) (s : merging) : merging :=
  mkMerging (target s) (attached s) (status_freshness s) (warned s ++ [w]).
Definition on_target {A} (m : dbc A) : eff merging A := fun s =>
  let '(r, c) := m (target s) in (r, set_target c s).

(** [ATTACH]: the name must be free and the file a database ([None]: it is not one). *)
Definition attach (src : option Source) : eff merging Source :=
  used ← gets attached;
  if (used : bool) then throw SqliteOperationalError
  else match src with
       | None => throw SqliteDatabaseError
       | Some s => _ ← modify (set_attached true); mret s
       end.
(** [DETACH]: the database is locked while the transaction that read it is open. *)
Definition detach : eff merging unit :=
  open ← gets (fun s => in_transaction (target s));
  if (open : bool) then throw SqliteOperationalError else modify (set_attached false).
(** [try: m finally: h] *)
Definition finally {S A} (m : eff S A) (h : eff S unit) : eff S A := fun s =>
  let '(r, s1) := m s in
  match h s1 with
  | (Ok _, s2) => (r, s2)
  | (Err e, s2) => (Err e, s2)
  end.

Definition _STATUS_RANK : list (string * Z) :=
  [("VERIFIED", 6); ("BURNED", 5); ("CONSOLIDATING", 4); ("BURNING", 3); ("STAGING", 2); ("DEPRECATED", 1);
   ("DESTROYED", 0)].
Definition status_rank (st : string) : Z := default 0 (dict_get st _STATUS_RANK).

Definition merge_rows {R} (t : insertion R) (rows : Catalog -> list R) : eff merging Z :=
  on_target (execute (fun d => insert_all t (rows d) d)).

(** A volume that target and source both have. *)
Definition settle_status (f : freshness) (conflict : Volume * string) : eff merging unit :=
  let '(v, src_status) := conflict in
  last ← gets (fun s => status_freshness s !! uuid v);
  if match last with None => true | Some t => t <? f end then
    _ ← (if negb (sql_eq src_status (status v))
         then on_target (_ ← execute (update_volumes (fun w => sql_eq (volume_id w) (volume_id v)) (set_status src_status));
                         mret tt)
         else mret tt);
    modify (own_status f (uuid v))
  else if status_rank (status v) <? status_rank src_status
  then modify (warn (OlderMoreAlive (label v) src_status (status v)))
  else mret tt.

Definition merge_volumes (f : freshness) (l : list Volume) : eff merging Z :=
  conflicts ← on_target (query (status_conflicts l));
  n ← merge_rows into_volumes (fun _ => l);
  let known := (fun c => uuid c.1) <$> conflicts in
  _ ← for_each (fun v => modify (own_status f (uuid v))) (where_ (fun v => negb (sql_in (uuid v) known)) l);
  _ ← for_each (settle_status f) conflicts;
  mret n.

(** A table that the earliest catalogs lack. *)
Definition if_present {A} (o : option (list A)) (m : list A -> eff merging Z) : eff merging Z :=
  match o with Some l => m l | None => mret 0 end.

Record merge_counts := mkCounts {
  n_repositories : Z; n_locations : Z; n_is_pruned_conflicts : Z; n_packs : Z; n_volumes : Z; n_snapshots : Z;
  n_volume_packs : Z; n_volume_copies : Z; n_volume_events : Z; n_burn_sessions : Z; n_session_volumes : Z;
  n_key_escrow : Z;
}.

(** Tables 8 and 9: events, sessions, recorded splits. *)
Definition merge_provenance (s : Source) (svs : list Volume) : eff merging (Z * Z * Z * Z) :=
  n9 ← if_present (src_volume_events s) (fun l =>
         evs ← lift (from_table s "volume_events" ["volume_id"; "event_type"; "event_date"; "location"; "detail"] (Some l));
         merge_rows into_volume_events (event_rows svs evs));
  n10 ← if_present (src_burn_sessions s) (fun l =>
          bs ← lift (from_table s "burn_sessions" ["session_id"; "created_at"; "media_type"; "status"; "staging_dir"] (Some l));
          merge_rows into_burn_sessions (fun _ => bs));
  n11 ← if_present (src_session_volumes s) (fun l =>
          xs ← lift (from_table s "session_volumes" ["session_id"; "volume_id"; "iso_path"; "iso_sha256"] (Some l));
          merge_rows into_session_volumes (session_volume_rows s svs xs));
  n12 ← if_present (src_key_escrow s) (fun l =>
          xs ← lift (from_table s "key_escrow" ["repo_id"; "threshold"; "shares"; "slip39_id"; "split_at"] (Some l));
          on_target (execute (upsert_splits xs)));
  mret (n9, n10, n11, n12).

Definition merge_tables (f : freshness) (s : Source) : eff merging merge_counts :=
  repos ← lift (from_table s "repositories" ["repo_id"; "name"; "mirror_path"; "encryption_key_id"; "created_at"]
                  (src_repositories s));
  n1 ← merge_rows into_repositories (fun _ => repository_rows s repos);
  locs ← lift (from_table s "locations" ["name"; "description"; "created_at"] (src_locations s));
  n2 ← merge_rows into_locations (fun _ => locs);
  sps ← lift (from_table s "packs" ["sha256"; "is_pruned"; "pack_id"; "size_bytes"; "repo_id"; "created_at"] (src_packs s));
  n3 ← on_target (query (pruned_conflicts sps));
  n4 ← merge_rows into_packs (fun _ => sps);
  svs ← lift (from_table s "volumes" ["volume_id"; "uuid"; "status"; "label"; "media_type"; "capacity_bytes"; "used_bytes";
                 "location"; "created_at"; "closed_at"; "verified_at"] (src_volumes s));
  n5 ← merge_volumes f svs;
  snaps ← lift (from_table s "snapshots" ["snapshot_id"; "repo_id"; "hostname"; "timestamp"; "paths"; "tags"; "description"]
                  (src_snapshots s));
  n6 ← merge_rows into_snapshots (fun _ => snaps);
  links ← lift (from_table s "volume_packs" ["volume_id"; "pack_id"] (src_volume_packs s));
  n7 ← merge_rows into_volume_packs (link_rows svs sps links);
  copies ← lift (from_table s "volume_copies" ["volume_id"; "location"; "status"; "burn_date"; "notes"; "iso_sha256";
                   "last_verified_at"; "media_serial"] (src_volume_copies s));
  n8 ← merge_rows into_volume_copies (copy_rows s svs copies);
  prov ← merge_provenance s svs;
  _ ← on_target commit;
  mret (mkCounts n1 n2 n3 n4 n5 n6 n7 n8 prov.1.1.1 prov.1.1.2 prov.1.2 prov.2).

Definition _merge_one_disc (f : freshness) (src : option Source) : eff merging merge_counts :=
  s ← attach src;
  finally (merge_tables f s) detach.

(** ** The rebuild *)

(** A disc directory: its path, and of its [catalog.db], if it is a file, the
    modification time and the content. *)
Record Disc := mkDisc { disc_path : string; catalog_db : option (freshness * option Source) }.

Record RebuildResult := mkRebuildResult {
  discs_processed : Z; discs_skipped : Z;
  repositories_merged : Z; volumes_merged : Z; packs_merged : Z; snapshots_merged : Z; locations_merged : Z;
  events_merged : Z; sessions_merged : Z; session_volumes_merged : Z; splits_merged : Z;
  errors : list string;               (* the paths of the discs, without the messages *)
  warnings : list warning;
}.
Definition rebuild_ok (r : RebuildResult) : bool := bool_decide (errors r = []).
Definition empty_result : RebuildResult := mkRebuildResult 0 0 0 0 0 0 0 0 0 0 0 [] [].
Definition skip_disc (path : string) (r : RebuildResult) : RebuildResult :=
  mkRebuildResult (discs_processed r) (discs_skipped r + 1) (repositories_merged r) (volumes_merged r) (packs_merged r)
    (snapshots_merged r) (locations_merged r) (events_merged r) (sessions_merged r) (session_volumes_merged r)
    (splits_merged r) (errors r ++ [path]) (warnings r).
Definition add_counts (c : merge_counts) (r : RebuildResult) : RebuildResult :=
  mkRebuildResult (discs_processed r + 1) (discs_skipped r) (repositories_merged r + n_repositories c)
    (volumes_merged r + n_volumes c) (packs_merged r + n_packs c) (snapshots_merged r + n_snapshots c)
    (locations_merged r + n_locations c) (events_merged r + n_volume_events c) (sessions_merged r + n_burn_sessions c)
    (session_volumes_merged r + n_session_volumes c) (splits_merged r + n_key_escrow c) (errors r) (warnings r).
Definition with_warnings (w : list warning) (r : RebuildResult) : RebuildResult :=
  mkRebuildResult (discs_processed r) (discs_skipped r) (repositories_merged r) (volumes_merged r) (packs_merged r)
    (snapshots_merged r) (locations_merged r) (events_merged r) (sessions_merged r) (session_volumes_merged r)
    (splits_merged r) (errors r) w.

Section rebuild.
(** [datetime.fromisoformat] of a DATETIME text, naive ones in UTC, as a [timestamp()]. *)
Variable _parse_timestamp : string -> option freshness.

(** [MAX(created_at)] *)
Definition max_created_at (l : list Volume) : option string :=
  foldl (fun m v => match m with
                    | Some t => if String.ltb t (created_at v) then Some (created_at v) else m
                    | None => Some (created_at v)
                    end) None l.
Definition _source_freshness (mtime : freshness) (src : option Source) : freshness :=
  match (match src with Some s => from_table s "volumes" ["created_at"] (src_volumes s) | None => Err SqliteDatabaseError end) with
  | Err _ => mtime
  | Ok l => match max_created_at l ≫= _parse_timestamp with
            | Some t => if mtime <? t then t else mtime
            | None => mtime
            end
  end.
Definition disc_freshness (x : Disc) : option freshness :=
  (fun '(mtime, src) => _source_freshness mtime src) <$> catalog_db x.

(** The newest first, a disc without a catalog last, then by path. *)
Definition newest_disc_first (x y : Disc) : bool :=
  match disc_freshness x, disc_freshness y with
  | Some f, Some g => if f =? g then String.leb (disc_path x) (disc_path y) else g <? f
  | Some _, None => true
  | None, Some _ => false
  | None, None => String.leb (disc_path x) (disc_path y)
  end.

Definition baseline (d : Catalog) : gmap string freshness :=
  match max_created_at (volumes d) ≫= _parse_timestamp with
  | Some t => foldl (fun m v => <[uuid v := t]> m) ∅ (volumes d)
  | None => ∅
  end.

(** One turn of the loop; the last component is [is_pruned_conflicts]. *)
Definition merge_disc (st : merging * RebuildResult * Z) (x : Disc) : merging * RebuildResult * Z :=
  let '(s, r, n) := st in
  match catalog_db x with
  | None => (s, skip_disc (disc_path x) r, n)
  | Some (mtime, src) =>
      match _merge_one_disc (_source_freshness mtime src) src s with
      | (Ok c, s') => (s', add_counts c r, n + n_is_pruned_conflicts c)
      | (Err _, s') => (s', skip_disc (disc_path x) r, n)
      end
  end.
Definition rebuild_catalog (discs : list Disc) (output : Catalog) : RebuildResult * Catalog :=
  let start := mkMerging (mkConn output output false) false (baseline output) [] in
  let '(s, r, n) := foldl merge_disc (start, empty_result, 0) (order_by newest_disc_first discs) in
  let w := if negb (n =? 0) then warned s ++ [PrunedDisagreements n] else warned s in
  (with_warnings w r, committed (target s)).
End rebuild.
