(* ===== verification/RebuildProps.v ===== *)
(** * Rebuilding the catalog: what a merge keeps

    Whatever the discs hold, a merge keeps the constraints of the schema and every row that
    is there; the laws of the statements, and of the statuses and splits they change. *)

From S2P Require Import Prelude Json Effects Sqlite Catalog VolumeEvents Queries Volumes Escrow Rebuild.
Open Scope string_scope.
Open Scope list_scope.
Open Scope Z_scope.

(** ** Catalogs that grow *)

(** Every row is kept where it is, but for the status of a volume and a split that gives
    way to a newer one. *)
Record grows (d d' : Catalog) : Prop := {
  gr_volumes : (set_status "" <$> volumes d) `prefix_of` (set_status "" <$> volumes d');
  gr_packs : packs d `prefix_of` packs d';
  gr_repositories : repositories d `prefix_of` repositories d';
  gr_links : volume_packs d `prefix_of` volume_packs d';
  gr_snapshots : snapshots d `prefix_of` snapshots d';
  gr_locations : locations d `prefix_of` locations d';
  gr_copies : volume_copies d `prefix_of` volume_copies d';
  gr_sessions : burn_sessions d `prefix_of` burn_sessions d';
  gr_session_volumes : session_volumes d `prefix_of` session_volumes d';
  gr_events : volume_events d `prefix_of` volume_events d';
  gr_splits : forall l x, key_escrow d = Some l -> x ∈ l ->
    exists l' y, key_escrow d' = Some l' /\ y ∈ l' /\ ke_repo_id y = ke_repo_id x /\
      String.leb (split_at x) (split_at y) = true;
  gr_escrow : is_Some (key_escrow d) -> is_Some (key_escrow d');
}.

Lemma leb_refl s : String.leb s s = true.
Proof. by destruct (String.leb_total s s). Qed.
Lemma leb_trans s t u : String.leb s t = true -> String.leb t u = true -> String.leb s u = true.
Proof. apply (le_trans _ (le_ok_by_key id)). Qed.
Lemma ltb_false s t : String.ltb s t = false <-> String.leb t s = true.
Proof. unfold String.ltb, String.leb. rewrite String.compare_antisym. by destruct (String.compare t s). Qed.
Lemma ltb_true s t : String.ltb s t = true -> String.leb s t = true.
Proof. unfold String.ltb, String.leb. by destruct (String.compare s t). Qed.
#[export] Instance grows_preorder : PreOrder grows.
Proof.
  split.
  - intros d. constructor; try done. intros l x Hl Hx. exists l, x. by rewrite leb_refl.
  - intros d1 d2 d3 [] []. constructor; try (by etrans); [|tauto]. intros l x Hl Hx.
    destruct (gr_splits0 l x Hl Hx) as (l2 & y & Hl2 & Hy & Hr & Hle).
    destruct (gr_splits1 l2 y Hl2 Hy) as (l3 & z & Hl3 & Hz & Hr' & Hle').
    exists l3, z. split_and!; [done..|congruence|]. by eapply leb_trans.
Qed.

Lemma grows_repo d d' r : grows d d' -> has_repo d r = true -> has_repo d' r = true.
Proof.
  rewrite !has_repo_true. intros [] H. destruct gr_repositories0 as [k ->]. rewrite fmap_app. apply elem_of_app. by left.
Qed.
Lemma grows_location d d' l : grows d d' -> has_location d l = true -> has_location d' l = true.
Proof.
  rewrite !has_location_true. intros [] H. destruct gr_locations0 as [k ->]. rewrite fmap_app. apply elem_of_app. by left.
Qed.
Lemma grows_session d d' x : grows d d' -> has_session d x = true -> has_session d' x = true.
Proof.
  rewrite !has_session_true. intros [] H. destruct gr_sessions0 as [k ->]. rewrite fmap_app. apply elem_of_app. by left.
Qed.
(** A volume is still there, up to its status. *)
Lemma grows_volume d d' v : grows d d' -> v ∈ volumes d ->
  exists v', v' ∈ volumes d' /\ v' = set_status (status v') v.
Proof.
  intros [[k Hk] _ _ _ _ _ _ _ _ _ _ _] Hv.
  assert (set_status "" v ∈ set_status "" <$> volumes d') as (v' & Heq & Hv')%list_elem_of_fmap.
  { rewrite Hk. apply elem_of_app. left. by apply list_elem_of_fmap_2. }
  exists v'. split; [done|]. destruct v, v'. injection Heq. intros. by subst.
Qed.

(** ** The laws of a statement *)

Class Lawful {R} (t : insertion R) : Prop := {
  append_wf r d : catalog_wf d -> ignored t r d = false -> refers t r d = true -> catalog_wf (append t r d);
  append_grows r d : grows d (append t r d);
  passed_wf d : catalog_wf d -> catalog_wf (passed_over t d);
  passed_grows d : grows d (passed_over t d);
}.

Ltac grown := constructor; cbn; rewrite ?fmap_app; try done; try (by apply prefix_app_r);
  intros l x Hl Hx; exists l, x; by rewrite leb_refl.

#[export] Instance lawful_repositories : Lawful into_repositories.
Proof.
  constructor; [|intros; grown|done|done]. intros r d W H _. cbn in *. destruct W. constructor; cbn; try done.
  - eapply Forall_impl; [done|]. intros x. rewrite fmap_app, elem_of_app. tauto.
  - apply NoDup_fmap_snoc; [done|]. rewrite <- has_repo_true. congruence.
  - eapply Forall_impl; [done|]. intros x. rewrite fmap_app, elem_of_app. tauto.
Qed.
#[export] Instance lawful_locations : Lawful into_locations.
Proof.
  constructor; [|intros; grown|done|done]. intros l d W H _. cbn in *. apply wf_add_location; [done|].
  rewrite <- has_location_true. congruence.
Qed.
#[export] Instance lawful_packs : Lawful into_packs.
Proof.
  constructor; [|intros; grown| |intros; grown].
  - intros p d W Hi Hr%has_repo_true. cbn in *. sql. destruct W.
    pose proof (fresh_id _ _ _ _ wf_pack_row) as Hfresh. constructor; cbn; try done.
    + by apply NoDup_fmap_snoc.
    + apply NoDup_fmap_snoc; [done|]. intros (q & Heq & Hq)%list_elem_of_fmap. apply Hi in Hq. cbn in Heq. by sql.
    + eapply Forall_snoc'; [done|..]; cbn; [|split; [lia|done]]. intros q []. split; [lia|done].
    + eapply Forall_impl; [done|]. intros x [? ?]. split; [done|]. rewrite fmap_app, elem_of_app. tauto.
  - intros d W. apply wf_raise_seqs; [done|lia..].
Qed.
#[export] Instance lawful_volumes : Lawful into_volumes.
Proof.
  constructor; [|intros; grown| |intros; grown].
  - intros v d W Hi _. cbn in *. apply orb_false_iff in Hi as [Hi Hs]. sql. destruct W.
    pose proof (fresh_id _ _ _ _ wf_volume_row) as Hfresh.
    assert (forall w, w ∈ volumes d -> label w <> label v /\ uuid w <> uuid v) as Hk.
    { intros w Hw. apply Hi in Hw. apply orb_false_iff in Hw as [? ?]. by sql. }
    constructor; cbn; try done.
    + by apply NoDup_fmap_snoc.
    + apply NoDup_fmap_snoc; [done|]. intros (w & Heq & Hw)%list_elem_of_fmap. by apply Hk in Hw as [[] _].
    + apply NoDup_fmap_snoc; [done|]. intros (w & Heq & Hw)%list_elem_of_fmap. by apply Hk in Hw as [_ []].
    + eapply Forall_snoc'; [done|..]; cbn; [|split; [lia|done]]. intros w []. split; [lia|done].
    + eapply Forall_impl; [done|]. intros x. rewrite fmap_app, elem_of_app. tauto.
    + eapply Forall_impl; [done|]. intros x. rewrite fmap_app, elem_of_app. tauto.
    + eapply Forall_impl; [done|]. intros x. rewrite fmap_app, elem_of_app. tauto.
    + eapply Forall_impl; [done|]. intros x. rewrite fmap_app, elem_of_app. tauto.
  - intros d W. apply wf_raise_seqs; [done|lia..].
Qed.
#[export] Instance lawful_snapshots : Lawful into_snapshots.
Proof.
  constructor; [|intros; grown|done|done]. intros x d W Hi Hr%has_repo_true. cbn in *. destruct W.
  constructor; cbn; try done.
  - apply Forall_app. by split; [|apply Forall_singleton].
  - apply NoDup_fmap_snoc; [done|]. unfold has_snapshot in Hi. rewrite exists_row_false in Hi.
    intros (y & Heq & Hy)%list_elem_of_fmap. apply Hi in Hy. by sql.
Qed.
#[export] Instance lawful_links : Lawful into_volume_packs.
Proof.
  constructor; [|intros; grown|done|done]. intros [v p] d W Hi Hr. cbn in *.
  apply (wf_insert_or_ignore_link d W v p tt). unfold insert_or_ignore_link. by rewrite Hi, Hr.
Qed.
#[export] Instance lawful_copies : Lawful into_volume_copies.
Proof.
  constructor; [|intros; grown| |intros; grown].
  - intros c d W Hi Hr. cbn in *. apply orb_false_iff in Hi as [Hi Hs]. sql.
    destruct Hr as [Hv%has_volume_true Hl%has_location_true]. destruct W.
    pose proof (fresh_id _ _ _ _ wf_copy_row) as Hfresh. constructor; cbn; try done.
    + by apply NoDup_fmap_snoc.
    + apply NoDup_fmap_snoc; [done|]. cbn. intros (y & [= Hyv Hyl] & Hy)%list_elem_of_fmap.
      apply Hi in Hy. apply andb_false_iff in Hy as []; by sql.
    + eapply Forall_snoc'; [done|..]; cbn; [|split_and!; [lia|done..]].
      intros y (?&?&?&?). split_and!; [lia|done..].
  - intros d W. apply wf_raise_seqs; [done|lia..].
Qed.
#[export] Instance lawful_sessions : Lawful into_burn_sessions.
Proof.
  constructor; [|intros; grown|done|done]. intros b d W Hi _. cbn in *. apply orb_false_iff in Hi as [Hi Hs].
  sql. destruct W. constructor; cbn; try done.
  - apply NoDup_fmap_snoc; [done|]. rewrite <- has_session_true. congruence.
  - by eapply Forall_snoc'.
  - eapply Forall_impl; [done|]. intros x. rewrite fmap_app, elem_of_app. tauto.
Qed.
#[export] Instance lawful_session_volumes : Lawful into_session_volumes.
Proof.
  constructor; [|intros; grown|done|done]. intros [s v path sha size] d W Hi Hr. cbn in *.
  apply (wf_insert_session_volume d W s v path sha size tt). unfold insert_session_volume. by rewrite Hi, Hr.
Qed.
#[export] Instance lawful_events : Lawful into_volume_events.
Proof.
  constructor; [|intros; grown|done|done]. intros e d W _ Hr. cbn in *. sql. destruct Hr as [[Ht Hv] Hl].
  eapply (wf_insert_event d W (ev_volume_id e) (event_type e) (event_date e) (ev_location e) (detail e)).
  unfold insert_event. rewrite (proj2 (sql_in_true _ _) Ht), Hv, Hl. done.
Qed.

Lemma insert_all_ind {R} (t : insertion R) (P : Catalog -> Prop) rows d n d' :
  P d ->
  (forall r d, r ∈ rows -> P d -> ignored t r d = true -> P (passed_over t d)) ->
  (forall r d, r ∈ rows -> P d -> ignored t r d = false -> refers t r d = true -> P (append t r d)) ->
  insert_all t rows d = Ok (n, d') -> P d'.
Proof.
  unfold insert_all. generalize 0. revert d. induction rows as [|r rows IH]; intros d m Hd Hp Ha; cbn [foldM].
  - by intros [= _ <-].
  - intros H. apply bind_Ok_inv in H as ([m' d1] & H1 & H). revert H. apply IH.
    + unfold insert_one in H1. destruct (ignored t r d) eqn:E.
      * injection H1 as _ <-. eapply Hp; [by left|done|done].
      * apply bind_Ok_inv in H1 as (u & Hr & H1). apply raise_if_Ok, negb_false_iff in Hr.
        injection H1 as _ <-. apply Ha; [by left|done..].
    + intros r' d0 Hr'. apply Hp. by right.
    + intros r' d0 Hr'. apply Ha. by right.
Qed.
Lemma insert_all_wf {R} (t : insertion R) `{!Lawful t} rows d n d' :
  catalog_wf d -> insert_all t rows d = Ok (n, d') -> catalog_wf d' /\ grows d d'.
Proof.
  intros W H. eapply (insert_all_ind t (fun d' => catalog_wf d' /\ grows d d')); [done| | |exact H].
  - intros r d1 _ [W1 G1] _. split; [by apply passed_wf|]. etrans; [done|apply passed_grows].
  - intros r d1 _ [W1 G1] Hi Hr. split; [by apply append_wf|]. etrans; [done|apply append_grows].
Qed.

(** ** Splits *)

Lemma upsert_newer_grows x d u d' : upsert_split newer_split x d = Ok (u, d') -> grows d d'.
Proof.
  unfold upsert_split. destruct (key_escrow d) as [l|] eqn:El; [|done]. intros [= _ <-].
  constructor; cbn; try done. intros l0 y Hl Hy. assert (l0 = l) as -> by congruence.
  destruct (exists_row _ l) eqn:E.
  - set (f z := if sql_eq (ke_repo_id z) (ke_repo_id x) && newer_split x z then x else z).
    exists (update_where (fun z => sql_eq (ke_repo_id z) (ke_repo_id x) && newer_split x z) (fun _ => x) l), (f y).
    split_and!; [done|apply elem_of_update_where; by exists y|..]; unfold f;
      destruct (sql_eq _ _ && newer_split x y) eqn:Hn; try done; [| |apply leb_refl].
    + apply andb_true_iff in Hn as [Hn _]. sql. done.
    + apply andb_true_iff in Hn as [_ Hn]. by apply ltb_true.
  - exists (l ++ [x]), y. rewrite leb_refl. split_and!; [done| |done..]. apply elem_of_app. by left.
Qed.
Lemma upsert_one_Ok n x d acc : upsert_one (n, d) x = Ok acc ->
  exists u, upsert_split newer_split x d = Ok (u, acc.2).
Proof.
  unfold upsert_one. intros H. apply bind_Ok_inv in H as ([u d1] & H1 & [= <-]). eauto.
Qed.
Lemma upsert_splits_wf rows d n d' :
  catalog_wf d -> upsert_splits rows d = Ok (n, d') -> catalog_wf d' /\ grows d d'.
Proof.
  unfold upsert_splits. generalize 0. revert d. induction rows as [|x rows IH]; intros d m W; cbn [foldM].
  - by intros [= _ <-].
  - intros H. apply bind_Ok_inv in H as ([m' d1] & H1 & H). apply upsert_one_Ok in H1 as [u Hu].
    destruct (IH d1 m' (wf_upsert_split d W _ _ _ _ Hu) H) as [W2 G2]. split; [done|].
    etrans; [by eapply upsert_newer_grows|done].
Qed.

(** ** Any merge is safe *)

Lemma update_status_grows p st d n d' :
  update_volumes p (set_status st) d = Ok (n, d') -> grows d d'.
Proof.
  unfold update_volumes. intros H. apply bind_Ok_inv in H as (u & _ & [= _ <-]).
  constructor; cbn; try done.
  - by rewrite update_where_key.
  - intros l x Hl Hx. exists l, x. by rewrite leb_refl.
Qed.

(** From [d0] on, what is committed only grows, and an open transaction on top of it. *)
Definition safe_from (d0 : Catalog) (c : Conn Catalog) : Prop :=
  catalog_wf (committed c) /\ catalog_wf (current c) /\ grows d0 (committed c) /\ grows (committed c) (current c).
Definition safe (s s' : merging) : Prop := forall d0, safe_from d0 (target s) -> safe_from d0 (target s').
#[export] Instance safe_preorder : PreOrder safe.
Proof. split; [by intros s d0|]. intros s1 s2 s3 H1 H2 d0 H. by apply H2, H1. Qed.

Lemma safe_bind {A B} (m : eff merging A) (f : A -> eff merging B) :
  Effects.preserves safe m -> (forall a, Effects.preserves safe (f a)) -> Effects.preserves safe (m ≫= f).
Proof. apply preserves_bind, _. Qed.
Lemma safe_same {A} (r : res A) : Effects.preserves safe (lift r).
Proof. apply preserves_lift, _. Qed.
Lemma safe_ret {A} (a : A) : Effects.preserves safe (mret a).
Proof. apply preserves_ret, _. Qed.
Lemma safe_gets {A} (f : merging -> A) : Effects.preserves safe (gets f).
Proof. apply preserves_gets, _. Qed.
Lemma safe_for_each {A} (m : A -> eff merging unit) l :
  (forall x, Effects.preserves safe (m x)) -> Effects.preserves safe (for_each m l).
Proof. apply preserves_for_each, _. Qed.
#[export] Hint Resolve safe_bind safe_same safe_ret safe_gets safe_for_each : effects.

Definition growing {A} (f : Catalog -> res (A * Catalog)) : Prop := forall d a d',
  catalog_wf d -> f d = Ok (a, d') -> catalog_wf d' /\ grows d d'.
Lemma safe_execute {A} (f : Catalog -> res (A * Catalog)) : growing f -> Effects.preserves safe (on_target (execute f)).
Proof.
  intros Hf s d0 (W1 & W2 & G1 & G2). unfold on_target, execute.
  destruct (f (current (target s))) as [[a d]|e] eqn:E; cbn; [|done].
  destruct (Hf _ _ _ W2 E) as [W3 G3]. split_and!; [done..|]. by etrans.
Qed.
Lemma safe_query {A} (f : Catalog -> A) : Effects.preserves safe (on_target (query f)).
Proof. by intros s d0 H. Qed.
Lemma safe_commit : Effects.preserves safe (on_target commit).
Proof. intros s d0 (W1 & W2 & G1 & G2). split_and!; cbn; [done..|by etrans|done]. Qed.
Lemma safe_rows {R} (t : insertion R) `{!Lawful t} rows : Effects.preserves safe (merge_rows t rows).
Proof. apply safe_execute. intros d n d'. by apply insert_all_wf. Qed.
Lemma safe_modify f : (forall s, target (f s) = target s) -> Effects.preserves safe (modify f).
Proof. intros Hf s d0 H. cbn. by rewrite Hf. Qed.
#[export] Hint Resolve safe_query safe_commit : effects.
#[export] Hint Extern 1 (Effects.preserves safe (merge_rows _ _)) => (apply safe_rows; apply _) : effects.
#[export] Hint Extern 1 (Effects.preserves safe (modify _)) => (apply safe_modify; intros; reflexivity) : effects.
#[export] Hint Extern 1 (Effects.preserves safe (throw _)) => (apply safe_same) : effects.

Lemma safe_settle f c : Effects.preserves safe (settle_status f c).
Proof.
  destruct c as [v st]. unfold settle_status. apply safe_bind; [auto with effects|]. intros last.
  destruct (match last with None => true | Some t => t <? f end); [|destruct (_ <? _); auto with effects].
  apply safe_bind; [|intro; auto with effects]. destruct (negb _); [|auto with effects].
  intros s d0 H. pose proof (safe_execute (update_volumes (fun w => sql_eq (volume_id w) (volume_id v)) (set_status st))) as He.
  assert (growing (update_volumes (fun w => sql_eq (volume_id w) (volume_id v)) (set_status st))) as Hg.
  { intros d n d' W Hu. split; [|by eapply update_status_grows]. eapply wf_update_volumes; [exact W| |exact Hu]. done. }
  specialize (He Hg s d0 H). revert He. unfold on_target, mbind, db_bind.
  by destruct (execute _ (target s)) as [[a|e] c'].
Qed.
Lemma safe_volumes f l : Effects.preserves safe (merge_volumes f l).
Proof.
  unfold merge_volumes. repeat (apply safe_bind; [auto using safe_settle with effects|intro]).
  auto with effects.
Qed.
Lemma safe_if_present {A} (o : option (list A)) m : (forall l, Effects.preserves safe (m l)) -> Effects.preserves safe (if_present o m).
Proof. destruct o; cbn; auto with effects. Qed.
Lemma safe_splits rows : Effects.preserves safe (on_target (execute (upsert_splits rows))).
Proof. apply safe_execute. intros d n d'. apply upsert_splits_wf. Qed.
#[export] Hint Resolve safe_volumes safe_if_present safe_splits : effects.

Lemma safe_provenance s svs : Effects.preserves safe (merge_provenance s svs).
Proof.
  unfold merge_provenance. repeat (apply safe_bind; [auto with effects|intro]). auto with effects.
Qed.
#[export] Hint Resolve safe_provenance : effects.
Lemma safe_tables f s : Effects.preserves safe (merge_tables f s).
Proof.
  unfold merge_tables. repeat (apply safe_bind; [auto with effects|intro]). auto with effects.
Qed.
Lemma safe_merge f src : Effects.preserves safe (_merge_one_disc f src).
Proof.
  apply safe_bind.
  - unfold attach. apply safe_bind; [auto with effects|]. intros []; [auto with effects|].
    destruct src; [|auto with effects]. apply safe_bind; [auto with effects|intro; auto with effects].
  - intros x s d0 H. unfold finally. pose proof (safe_tables f x s d0 H) as Ht. destruct (merge_tables f x s) as [r s1].
    unfold detach, mbind, eff_bind, gets. destruct (in_transaction (target s1)); cbn in *; done.
Qed.

(** ** The loop over the discs *)

Section rebuild.
Variable _parse_timestamp : string -> option Z.

Definition accounted (n : Z) (r : RebuildResult) : Prop :=
  discs_processed r + discs_skipped r = n /\ len (errors r) = discs_skipped r.
Lemma merge_discs_safe d0 l : forall st n,
  safe_from d0 (target st.1.1) -> accounted n st.1.2 ->
  safe_from d0 (target (foldl (merge_disc _parse_timestamp) st l).1.1) /\
  accounted (n + len l) (foldl (merge_disc _parse_timestamp) st l).1.2.
Proof.
  induction l as [|x l IH]; intros [[s r] k] n Hs Hr; cbn [foldl fst snd] in *.
  - by rewrite Z.add_0_r.
  - replace (n + len (x :: l)) with (n + 1 + len l) by (cbn [length]; lia). unfold accounted in *.
    apply IH; unfold merge_disc; destruct (catalog_db x) as [[m src]|]; cbn [fst snd]; try done.
    + pose proof (safe_merge (_source_freshness _parse_timestamp m src) src s d0 Hs) as H.
      by destruct (_merge_one_disc _ _ _) as [[c|e] s'].
    + destruct (_merge_one_disc _ _ _) as [[c|e] s']; cbn; [lia|]. rewrite length_app. cbn. lia.
    + cbn. rewrite length_app. cbn. lia.
Qed.

(** The order of the discs. *)
Lemma le_ok_newest : le_ok (newest_disc_first _parse_timestamp).
Proof.
  constructor.
  - intros x y. unfold newest_disc_first. destruct (disc_freshness _ x) as [f|], (disc_freshness _ y) as [g|]; auto.
    2: apply String.leb_total. rewrite (Z.eqb_sym g f). destruct (Z.eqb_spec f g); [apply String.leb_total|].
    rewrite !Z.ltb_lt. lia.
  - intros x y z. unfold newest_disc_first.
    destruct (disc_freshness _ x) as [f|], (disc_freshness _ y) as [g|], (disc_freshness _ z) as [h|]; try done.
    + destruct (Z.eqb_spec f g), (Z.eqb_spec g h), (Z.eqb_spec f h); rewrite ?Z.ltb_lt; intros; try lia.
      by eapply leb_trans.
    + apply leb_trans.
Qed.
Lemma newest_antisym x y :
  newest_disc_first _parse_timestamp x y = true -> newest_disc_first _parse_timestamp y x = true ->
  disc_path x = disc_path y.
Proof.
  unfold newest_disc_first. destruct (disc_freshness _ x) as [f|], (disc_freshness _ y) as [g|]; try done.
  - rewrite (Z.eqb_sym g f). destruct (Z.eqb_spec f g); [|rewrite !Z.ltb_lt; lia].
    intros H1 H2. by apply String.leb_antisym.
  - intros H1 H2. by apply String.leb_antisym.
Qed.
Lemma newest_first_unique l l' :
  l ≡ₚ l' -> (forall x y, x ∈ l -> y ∈ l -> disc_path x = disc_path y -> x = y) ->
  order_by (newest_disc_first _parse_timestamp) l = order_by (newest_disc_first _parse_timestamp) l'.
Proof.
  intros Hp Hu. eapply (StronglySorted_unique_strong (fun x y => newest_disc_first _parse_timestamp x y = true)).
  - intros x y Hx%elem_of_order_by Hy%elem_of_order_by H1 H2. rewrite <- Hp in Hy.
    apply Hu; [done..|]. by apply newest_antisym.
  - apply order_by_sorted, le_ok_newest.
  - apply order_by_sorted, le_ok_newest.
  - by rewrite !order_by_perm.
Qed.
End rebuild.

(** C27.  A rebuild from any discs, with catalogs that are missing, broken, of an old
    version or at odds with each other, leaves a catalog that satisfies every constraint of
    the schema and in which every row of the output catalog is still in its place: only the
    status of a volume and a recorded split can change, the split to one not older.  Every
    disc is either merged or skipped, and each that is skipped is reported. *)
Theorem rebuild_safe parse discs output :
  catalog_wf output ->
  let (r, d) := rebuild_catalog parse discs output in
  catalog_wf d /\ grows output d /\
  discs_processed r + discs_skipped r = len discs /\ len (errors r) = discs_skipped r.
Proof.
  intros W. unfold rebuild_catalog.
  set (start := mkMerging (mkConn output output false) false (baseline parse output) []).
  destruct (merge_discs_safe parse output (order_by (newest_disc_first parse) discs) (start, empty_result, 0) 0)
    as [(W1 & _ & G & _) Ha]; [by split_and!|done|].
  destruct (foldl _ _ _) as [[s r] n]. split_and!; [done..| |]; destruct Ha as [H1 H2]; cbn in *; [|done].
  by rewrite order_by_perm in H1.
Qed.

(** C28.  The result of a rebuild does not depend on the order in which the discs are given. *)
Theorem rebuild_order_independent parse discs discs' output :
  discs ≡ₚ discs' -> (forall x y, x ∈ discs -> y ∈ discs -> disc_path x = disc_path y -> x = y) ->
  rebuild_catalog parse discs output = rebuild_catalog parse discs' output.
Proof. intros Hp Hu. unfold rebuild_catalog. by rewrite (newest_first_unique parse discs discs'). Qed.
