(* ===== verification/RebuildOrigin.v ===== *)
(** * Rebuilding the catalog: where its rows come from

    Nothing in the result is made up: every row is one of the output catalog or of one of
    the discs, with all its columns but the ids, which are translated, and the status of a
    volume, which is settled between the catalogs. *)

From S2P Require Import Prelude Json Effects Sqlite Catalog VolumeEvents Queries Volumes Escrow Rebuild RebuildProps.
Open Scope string_scope.
Open Scope list_scope.
Open Scope Z_scope.

(** ** A disc that can be read *)

(** The columns that the code asks for before it reads them. *)
Definition PROBED : list (string * string) :=
  [("repositories", "status"); ("volume_copies", "iso_size_bytes"); ("session_volumes", "iso_size_bytes")].

(** The tables of [s] are those of [k]; only columns that the code asks for may be
    missing. *)
Record carries (s : Source) (k : Catalog) : Prop := {
  ca_repositories : src_repositories s = Some (repositories k);
  ca_locations : src_locations s = Some (locations k);
  ca_packs : src_packs s = Some (packs k);
  ca_volumes : src_volumes s = Some (volumes k);
  ca_snapshots : src_snapshots s = Some (snapshots k);
  ca_links : src_volume_packs s = Some (volume_packs k);
  ca_copies : src_volume_copies s = Some (volume_copies k);
  ca_events : default [] (src_volume_events s) = volume_events k;
  ca_sessions : default [] (src_burn_sessions s) = burn_sessions k;
  ca_session_volumes : default [] (src_session_volumes s) = session_volumes k;
  ca_splits : default [] (src_key_escrow s) = default [] (key_escrow k);
  ca_columns : lacking s ⊆ PROBED;
}.

(** ** The origin of a row *)

Definition volume_numbered (i : Z) (v : Volume) : Volume :=
  mkVolume i (label v) (uuid v) (media_type v) (capacity_bytes v) (used_bytes v) (location v) (status v)
    (created_at v) (closed_at v) (verified_at v).
Definition pack_numbered (i : Z) (p : Pack) : Pack :=
  mkPack i (sha256 p) (size_bytes p) (repo_id p) (is_pruned p) (pack_created_at p).
(** The volume [i] of [d] is the volume [j] of [k], and a pack likewise. *)
Definition volume_stands (d : Catalog) (i : Z) (k : Catalog) (j : Z) : Prop :=
  exists w v, w ∈ volumes d /\ volume_id w = i /\ v ∈ volumes k /\ volume_id v = j /\ uuid w = uuid v.
Definition pack_stands (d : Catalog) (i : Z) (k : Catalog) (j : Z) : Prop :=
  exists q p, q ∈ packs d /\ pack_id q = i /\ p ∈ packs k /\ pack_id p = j /\ sha256 q = sha256 p.

Section origin.
Variables (output : Catalog) (content : Disc -> Catalog) (discs : list Disc).

Definition some_disc (P : Catalog -> Prop) : Prop := exists x, x ∈ discs /\ P (content x).
Definition row_from {R} (table : Catalog -> list R) (r : R) : Prop := r ∈ table output \/ some_disc (fun k => r ∈ table k).
Definition volume_from (w : Volume) : Prop :=
  (exists v, v ∈ volumes output /\ w = set_status (status w) v) \/
  some_disc (fun k => exists v, v ∈ volumes k /\ w = set_status (status w) (volume_numbered (volume_id w) v)).
Definition pack_from (p : Pack) : Prop :=
  p ∈ packs output \/ some_disc (fun k => exists q, q ∈ packs k /\ p = pack_numbered (pack_id p) q).
(** Catalogs of before the column have only repositories that are active. *)
Definition repository_from (r : Repository) : Prop :=
  r ∈ repositories output \/
  some_disc (fun k => exists q, q ∈ repositories k /\ (r = q \/ r = set_repo_row_status "active" q)).
Definition link_from (d : Catalog) (l : VolumePack) : Prop :=
  l ∈ volume_packs output \/
  some_disc (fun k => exists y, y ∈ volume_packs k /\ volume_stands d (vp_volume_id l) k (vp_volume_id y) /\
    pack_stands d (vp_pack_id l) k (vp_pack_id y)).
Definition copy_from (d : Catalog) (c : VolumeCopy) : Prop :=
  c ∈ volume_copies output \/
  some_disc (fun k => exists y, y ∈ volume_copies k /\ volume_stands d (vc_volume_id c) k (vc_volume_id y) /\
    (iso_size_bytes c = iso_size_bytes y \/ iso_size_bytes c = None) /\
    c = mkVolumeCopy (copy_id c) (vc_volume_id c) (vc_location y) (vc_status y) (burn_date y) (notes y) (iso_sha256 y)
          (last_verified_at y) (media_serial y) (iso_size_bytes c)).
Definition event_from (d : Catalog) (e : VolumeEvent) : Prop :=
  e ∈ volume_events output \/
  some_disc (fun k => exists y, y ∈ volume_events k /\ volume_stands d (ev_volume_id e) k (ev_volume_id y) /\
    e = mkVolumeEvent (event_id e) (ev_volume_id e) (event_type y) (event_date y) (ev_location y) (detail y)).
Definition session_volume_from (d : Catalog) (x : SessionVolume) : Prop :=
  x ∈ session_volumes output \/
  some_disc (fun k => exists y, y ∈ session_volumes k /\ volume_stands d (sv_volume_id x) k (sv_volume_id y) /\
    (sv_iso_size_bytes x = sv_iso_size_bytes y \/ sv_iso_size_bytes x = None) /\
    x = mkSessionVolume (sv_session_id y) (sv_volume_id x) (iso_path y) (sv_iso_sha256 y) (sv_iso_size_bytes x)).

(** Every row of [d] has its origin in the output catalog or on a disc. *)
Record comes_from (d : Catalog) : Prop := {
  cf_volumes w : w ∈ volumes d -> volume_from w;
  cf_packs p : p ∈ packs d -> pack_from p;
  cf_repositories r : r ∈ repositories d -> repository_from r;
  cf_locations l : l ∈ locations d -> row_from locations l;
  cf_snapshots x : x ∈ snapshots d -> row_from snapshots x;
  cf_sessions b : b ∈ burn_sessions d -> row_from burn_sessions b;
  cf_links l : l ∈ volume_packs d -> link_from d l;
  cf_copies c : c ∈ volume_copies d -> copy_from d c;
  cf_events e : e ∈ volume_events d -> event_from d e;
  cf_session_volumes x : x ∈ session_volumes d -> session_volume_from d x;
  cf_splits x : x ∈ default [] (key_escrow d) -> row_from (fun d => default [] (key_escrow d)) x;
}.

(** ** Growing keeps it *)

Lemma stands_grows d d' i k j : grows d d' -> volume_stands d i k j -> volume_stands d' i k j.
Proof.
  intros G (w & v & Hw & Hi & Hv & Hj & Hu). destruct (grows_volume d d' w G Hw) as (w' & Hw' & Heq).
  exists w', v. rewrite Heq. split_and!; try done. by rewrite <- Heq.
Qed.
Lemma pack_stands_grows d d' i k j : grows d d' -> pack_stands d i k j -> pack_stands d' i k j.
Proof.
  intros G (q & p & Hq & Hrest). exists q, p. split; [|done]. destruct (gr_packs _ _ G) as [l ->].
  apply elem_of_app. by left.
Qed.
Lemma some_disc_impl (P Q : Catalog -> Prop) : (forall k, P k -> Q k) -> some_disc P -> some_disc Q.
Proof. intros H (x & Hx & HP). exists x. auto. Qed.

Lemma link_from_grows d d' l : grows d d' -> link_from d l -> link_from d' l.
Proof using.
  intros G [|H]; [by left|right]. revert H. apply some_disc_impl. intros k (y & Hy & H1 & H2).
  exists y. split_and!; [done|by eapply stands_grows|by eapply pack_stands_grows].
Qed.
Lemma copy_from_grows d d' c : grows d d' -> copy_from d c -> copy_from d' c.
Proof using.
  intros G [|H]; [by left|right]. revert H. apply some_disc_impl. intros k (y & Hy & H1 & H2).
  exists y. split; [done|split; [by eapply stands_grows|exact H2]].
Qed.
Lemma event_from_grows d d' e : grows d d' -> event_from d e -> event_from d' e.
Proof using.
  intros G [|H]; [by left|right]. revert H. apply some_disc_impl. intros k (y & Hy & H1 & H2).
  exists y. split; [done|split; [by eapply stands_grows|exact H2]].
Qed.
Lemma session_volume_from_grows d d' x : grows d d' -> session_volume_from d x -> session_volume_from d' x.
Proof using.
  intros G [|H]; [by left|right]. revert H. apply some_disc_impl. intros k (y & Hy & H1 & H2).
  exists y. split; [done|split; [by eapply stands_grows|exact H2]].
Qed.

(** A step adds rows with an origin and changes at most the status of volumes. *)
Lemma comes_from_step d d' : comes_from d -> grows d d' ->
  (forall w, w ∈ volumes d' -> (exists v, v ∈ volumes d /\ w = set_status (status w) v) \/ volume_from w) ->
  (forall p, p ∈ packs d' -> p ∈ packs d \/ pack_from p) ->
  (forall r, r ∈ repositories d' -> r ∈ repositories d \/ repository_from r) ->
  (forall l, l ∈ locations d' -> l ∈ locations d \/ row_from locations l) ->
  (forall x, x ∈ snapshots d' -> x ∈ snapshots d \/ row_from snapshots x) ->
  (forall b, b ∈ burn_sessions d' -> b ∈ burn_sessions d \/ row_from burn_sessions b) ->
  (forall l, l ∈ volume_packs d' -> l ∈ volume_packs d \/ link_from d' l) ->
  (forall c, c ∈ volume_copies d' -> c ∈ volume_copies d \/ copy_from d' c) ->
  (forall e, e ∈ volume_events d' -> e ∈ volume_events d \/ event_from d' e) ->
  (forall x, x ∈ session_volumes d' -> x ∈ session_volumes d \/ session_volume_from d' x) ->
  (forall x, x ∈ default [] (key_escrow d') -> x ∈ default [] (key_escrow d) \/
     row_from (fun d => default [] (key_escrow d)) x) ->
  comes_from d'.
Proof using.
  intros [CV CP CR CL CS CB CK CC CE CX CY] G HV HP HR HL HS HB HK HC HE HX HY. constructor.
  - intros w [(v & Hv & Hw)|]%HV; [|done]. destruct (CV v Hv) as [(v0 & Hv0 & E)|H].
    + left. exists v0. split; [done|]. rewrite Hw, E. done.
    + right. revert H. apply some_disc_impl. intros k (v0 & Hv0 & E). exists v0. split; [done|]. rewrite Hw, E. done.
  - intros p []%HP; auto.
  - intros r []%HR; auto.
  - intros l []%HL; auto.
  - intros x []%HS; auto.
  - intros b []%HB; auto.
  - intros l []%HK; eauto using link_from_grows.
  - intros c []%HC; eauto using copy_from_grows.
  - intros e []%HE; eauto using event_from_grows.
  - intros x []%HX; eauto using session_volume_from_grows.
  - intros x []%HY; auto.
Qed.

Ltac kept := first
  [ let w := fresh in let Hw := fresh in intros w Hw; left; exists w; split; [exact Hw|by destruct w]
  | intros ? ?; by left ].
Ltac appended H := let y := fresh in intros y [?| ->%list_elem_of_singleton]%elem_of_app; [by left|right; exact H].

(** Which rows a statement may be given: [row_ok d r] at the catalog [d]. *)
Class Traced {R} (t : insertion R) (row_ok : Catalog -> R -> Prop) : Prop := {
  traced_append r d : row_ok d r -> comes_from d -> comes_from (append t r d);
  traced_passed d : comes_from d -> comes_from (passed_over t d);
  traced_grows r d d' : grows d d' -> row_ok d r -> row_ok d' r;
}.
#[export] Instance traced_repositories : Traced into_repositories (fun _ => repository_from).
Proof using.
  constructor; [|intros ? C; exact C|done]. intros r d H C. eapply comes_from_step; [exact C|apply append_grows|..]; cbn; try kept.
  appended H.
Qed.
#[export] Instance traced_locations : Traced into_locations (fun _ => row_from locations).
Proof using.
  constructor; [|intros ? C; exact C|done]. intros r d H C. eapply comes_from_step; [exact C|apply append_grows|..]; cbn; try kept.
  appended H.
Qed.
#[export] Instance traced_snapshots : Traced into_snapshots (fun _ => row_from snapshots).
Proof using.
  constructor; [|intros ? C; exact C|done]. intros r d H C. eapply comes_from_step; [exact C|apply append_grows|..]; cbn; try kept.
  appended H.
Qed.
#[export] Instance traced_sessions : Traced into_burn_sessions (fun _ => row_from burn_sessions).
Proof using.
  constructor; [|intros ? C; exact C|done]. intros r d H C. eapply comes_from_step; [exact C|apply append_grows|..]; cbn; try kept.
  appended H.
Qed.
#[export] Instance traced_packs : Traced into_packs (fun _ p => some_disc (fun k => p ∈ packs k)).
Proof using.
  constructor; [| |done].
  - intros p d H C. eapply comes_from_step; [exact C|apply append_grows|..]; cbn; try kept.
    assert (pack_from (pack_numbered (seq_packs d + 1) p)) as Hp.
    { right. revert H. apply some_disc_impl. intros k Hk. by exists p. }
    appended Hp.
  - intros d C. eapply comes_from_step; [exact C|apply passed_grows|..]; cbn; kept.
Qed.
#[export] Instance traced_volumes : Traced into_volumes (fun _ v => some_disc (fun k => v ∈ volumes k)).
Proof using.
  constructor; [| |done].
  - intros v d H C. eapply comes_from_step; [exact C|apply append_grows|..]; cbn; try kept.
    intros w [Hw| ->%list_elem_of_singleton]%elem_of_app; [left; exists w; split; [done|by destruct w]|].
    right. right. revert H. apply some_disc_impl. intros k Hk. by exists v.
  - intros d C. eapply comes_from_step; [exact C|apply passed_grows|..]; cbn; kept.
Qed.
#[export] Instance traced_links : Traced into_volume_packs link_from.
Proof using.
  constructor; [|intros ? C; exact C|intros; by eapply link_from_grows]. intros l d H C.
  pose proof (link_from_grows _ _ _ (append_grows l d) H) as H'.
  eapply comes_from_step; [exact C|apply append_grows|..]; cbn; try kept. appended H'.
Qed.
#[export] Instance traced_copies : Traced into_volume_copies (fun d c => forall i, copy_from d
  (mkVolumeCopy i (vc_volume_id c) (vc_location c) (vc_status c) (burn_date c) (notes c) (iso_sha256 c)
     (last_verified_at c) (media_serial c) (iso_size_bytes c))).
Proof using.
  constructor; [| |intros; by eapply copy_from_grows].
  - intros c d H C. pose proof (copy_from_grows _ _ _ (append_grows c d) (H (seq_copies d + 1))) as H'.
    eapply comes_from_step; [exact C|apply append_grows|..]; cbn; try kept. appended H'.
  - intros d C. eapply comes_from_step; [exact C|apply passed_grows|..]; cbn; kept.
Qed.
#[export] Instance traced_session_volumes : Traced into_session_volumes session_volume_from.
Proof using.
  constructor; [|intros ? C; exact C|intros; by eapply session_volume_from_grows]. intros x d H C.
  pose proof (session_volume_from_grows _ _ _ (append_grows x d) H) as H'.
  eapply comes_from_step; [exact C|apply append_grows|..]; cbn; try kept. appended H'.
Qed.
#[export] Instance traced_events : Traced into_volume_events (fun d e => forall i, event_from d
  (mkVolumeEvent i (ev_volume_id e) (event_type e) (event_date e) (ev_location e) (detail e))).
Proof using.
  constructor; [|intros ? C; exact C|intros; by eapply event_from_grows]. intros e d H C.
  pose proof (event_from_grows _ _ _ (append_grows e d) (H (seq_events d + 1))) as H'.
  eapply comes_from_step; [exact C|apply append_grows|..]; cbn; try kept. appended H'.
Qed.

Lemma insert_all_traced {R} (t : insertion R) row_ok `{!Lawful t, !Traced t row_ok} rows d n d' :
  (forall r, r ∈ rows -> row_ok d r) -> comes_from d -> insert_all t rows d = Ok (n, d') -> comes_from d'.
Proof using.
  intros Hr C H. eapply (insert_all_ind t (fun d' => grows d d' /\ comes_from d')); [done| | |exact H].
  - intros r d1 _ [G C1] _. split; [etrans; [done|apply passed_grows]|by eapply traced_passed].
  - intros r d1 Hin [G C1] _ _. split; [etrans; [done|apply append_grows]|].
    eapply traced_append; [|done]. eapply traced_grows; [exact G|by apply Hr].
Qed.
Lemma upsert_splits_traced rows d n d' :
  (forall x, x ∈ rows -> row_from (fun d => default [] (key_escrow d)) x) -> comes_from d ->
  upsert_splits rows d = Ok (n, d') -> comes_from d'.
Proof using.
  unfold upsert_splits. generalize 0. revert d. induction rows as [|x rows IH]; intros d m Hr C; cbn [foldM].
  - by intros [= _ <-].
  - intros H. apply bind_Ok_inv in H as ([m' d1] & H1 & H). apply upsert_one_Ok in H1 as [u Hu]. cbn in Hu.
    eapply IH; [|clear H|exact H]; [intros y Hy; apply Hr; by right|].
    pose proof (upsert_newer_grows _ _ _ _ Hu) as G. unfold upsert_split in Hu.
    destruct (key_escrow d) as [l|] eqn:El; [|done]. injection Hu as _ <-.
    eapply comes_from_step; [exact C|exact G|..]; cbn; try kept. rewrite El. cbn. intros y.
    pose proof (Hr x ltac:(by left)) as Hx. destruct (exists_row _ l).
    + intros (z & Hz & ->)%elem_of_update_where. destruct (_ && _); [by right|by left].
    + intros [?| ->%list_elem_of_singleton]%elem_of_app; [by left|by right].
Qed.

(** ** A merge traces its rows *)

Definition held (s s' : merging) : Prop :=
  comes_from (committed (target s)) /\ comes_from (current (target s)) ->
  comes_from (committed (target s')) /\ comes_from (current (target s')).
#[export] Instance held_preorder : PreOrder held.
Proof using. split; [intros s H; exact H|]. intros s1 s2 s3 H1 H2 H. by apply H2, H1. Qed.
Abbreviation holding m := (Effects.preserves held m).

Lemma held_bind {A B} (m : eff merging A) (f : A -> eff merging B) : holding m -> (forall a, holding (f a)) -> holding (m ≫= f).
Proof using. apply preserves_bind, _. Qed.
Lemma held_lift {A B} (r : res A) (f : A -> eff merging B) : (forall a, r = Ok a -> holding (f a)) -> holding (lift r ≫= f).
Proof using. intros Hf s. unfold mbind, eff_bind, lift. destruct r as [a|e]; [by apply Hf|done]. Qed.
Lemma held_execute {A} (f : Catalog -> res (A * Catalog)) :
  (forall d a d', comes_from d -> f d = Ok (a, d') -> comes_from d') -> holding (on_target (execute f)).
Proof using.
  intros Hf s [H1 H2]. unfold on_target, execute. destruct (f (current (target s))) as [[a d]|e] eqn:E; cbn; [|done].
  split; [done|]. by eapply Hf.
Qed.
Lemma held_query {A} (f : Catalog -> A) : holding (on_target (query f)).
Proof using. by intros s H. Qed.
Lemma held_commit : holding (on_target commit).
Proof using. intros s [H1 H2]. by split. Qed.
Lemma held_modify f : (forall s, target (f s) = target s) -> holding (modify f).
Proof using. intros Hf s H. cbn. by rewrite Hf. Qed.
Lemma held_ret {A} (a : A) : holding (mret a).
Proof using. apply preserves_ret, _. Qed.
Lemma held_gets {A} (f : merging -> A) : holding (gets f).
Proof using. apply preserves_gets, _. Qed.
Lemma held_rows {R} (t : insertion R) row_ok `{!Lawful t, !Traced t row_ok} rows :
  (forall d r, r ∈ rows d -> row_ok d r) -> holding (merge_rows t rows).
Proof using. intros Hr. apply held_execute. intros d n d' C H. apply (insert_all_traced t row_ok (rows d) d n d' (Hr d) C H). Qed.

Lemma held_settle f c : holding (settle_status f c).
Proof using.
  destruct c as [v st]. unfold settle_status. apply held_bind; [apply held_gets|]. intros last.
  destruct (match last with None => true | Some t => t <? f end).
  2: { destruct (_ <? _); [by apply held_modify|apply held_ret]. }
  apply held_bind; [|intros ?; by apply held_modify]. destruct (negb _); [|apply held_ret].
  intros s [H1 H2]. unfold on_target, mbind, db_bind, execute.
  destruct (update_volumes _ _ (current (target s))) as [[a d]|e] eqn:E; [|done]. split; [done|]. cbn.
  eapply comes_from_step; [exact H2|by eapply update_status_grows|..]; unfold update_volumes in E;
    apply bind_Ok_inv in E as (? & _ & [= _ <-]); cbn; try kept.
  intros w (y & Hy & ->)%elem_of_update_where. left. exists y. split; [done|]. destruct (sql_eq _ _); by destruct y.
Qed.
Lemma held_for_each {A} (m : A -> eff merging unit) l : (forall x, holding (m x)) -> holding (for_each m l).
Proof using. apply preserves_for_each, _. Qed.

Section disc.
Variables (x : Disc) (s : Source).
Hypotheses (Hx : x ∈ discs) (Hs : carries s (content x)).
Abbreviation k := (content x).

Lemma on_disc (P : Catalog -> Prop) : P k -> some_disc P.
Proof using Hx. intros H. by exists x. Qed.
Lemma traced_volume (svs : list Volume) d i j : svs = volumes k -> i ∈ same_uuid svs j d -> volume_stands d i k j.
Proof using.
  intros -> (sv & (w & ->%list_elem_of_singleton & Hw)%list_elem_of_bind & Hsv)%list_elem_of_bind.
  apply elem_of_where in Hsv as [Hj Hsv], Hw as [Hu Hw]. sql. by exists w, sv.
Qed.
Lemma traced_pack (sps : list Pack) d i j : sps = packs k -> i ∈ same_sha sps j d -> pack_stands d i k j.
Proof using.
  intros -> (sp & (q & ->%list_elem_of_singleton & Hq)%list_elem_of_bind & Hsp)%list_elem_of_bind.
  apply elem_of_where in Hsp as [Hj Hsp], Hq as [Hu Hq]. sql. by exists q, sp.
Qed.
Lemma from_table_rows {A} t cs (l l' : list A) : from_table s t cs (Some l) = Ok l' -> l' = l.
Proof using. unfold from_table. by destruct (existsb _ _); [|intros [= ->]]. Qed.
Lemma if_present_held {A} (o : option (list A)) m : (forall l, o = Some l -> holding (m l)) -> holding (if_present o m).
Proof using. intros H. destruct o; [by apply H|apply held_ret]. Qed.

Lemma held_volumes f svs : svs = volumes k -> holding (merge_volumes f svs).
Proof using Hx.
  intros ->. unfold merge_volumes. apply held_bind; [apply held_query|]. intros cs. cbv zeta.
  apply held_bind. { eapply held_rows; [apply _..|]. intros d r Hr. by apply on_disc. }
  intros n. apply held_bind; [by apply held_for_each; intros; apply held_modify|]. intros ?.
  apply held_bind; [apply held_for_each; intros; apply held_settle|]. intros ?. apply held_ret.
Qed.

Lemma held_provenance svs : svs = volumes k -> holding (merge_provenance s svs).
Proof using Hx Hs.
  intros Hsvs. unfold merge_provenance. apply held_bind.
  { apply if_present_held. intros l Hl. apply held_lift. intros evs ->%from_table_rows. eapply held_rows; [apply _..|].
    intros d e He i. unfold event_rows in He. apply list_elem_of_bind in He as (y & He & Hy).
    apply list_elem_of_bind in He as (v & He & Hv). destruct (exists_row _ _); [by inv He|].
    apply list_elem_of_singleton in He as ->. right. apply on_disc. exists y. split; [|split].
    - rewrite <- (ca_events s k Hs), Hl. done.
    - by eapply traced_volume.
    - done. }
  intros n9. apply held_bind.
  { apply if_present_held. intros l Hl. apply held_lift. intros bs ->%from_table_rows. eapply held_rows; [apply _..|].
    intros d b Hb. right. apply on_disc. rewrite <- (ca_sessions s k Hs), Hl. done. }
  intros n10. apply held_bind.
  { apply if_present_held. intros l Hl. apply held_lift. intros xs ->%from_table_rows. eapply held_rows; [apply _..|].
    intros d y Hy. unfold session_volume_rows in Hy. apply list_elem_of_bind in Hy as (z & Hy & Hz).
    apply list_elem_of_bind in Hy as (v & ->%list_elem_of_singleton & Hv). right. apply on_disc. exists z. split_and!.
    - rewrite <- (ca_session_volumes s k Hs), Hl. done.
    - by eapply traced_volume.
    - cbn. destruct (lacks _ _ _); auto.
    - done. }
  intros n11. apply held_bind; [|intros ?; apply held_ret].
  apply if_present_held. intros l Hl. apply held_lift. intros xs ->%from_table_rows. apply held_execute.
  intros d n d' C H. eapply upsert_splits_traced; [|exact C|exact H]. intros y Hy. right. apply on_disc.
  cbn. rewrite <- (ca_splits s k Hs), Hl. done.
Qed.

Ltac read H := apply held_lift; let l := fresh in let E := fresh in intros l E; rewrite H in E; apply from_table_rows in E; subst l.
Lemma held_tables f : holding (merge_tables f s).
Proof using Hx Hs.
  unfold merge_tables. read (ca_repositories s k Hs). apply held_bind.
  { eapply held_rows; [apply _..|]. intros d r Hr. right. apply on_disc. unfold repository_rows in Hr.
    destruct (lacks _ _ _); [|by exists r; auto]. apply list_elem_of_fmap in Hr as (q & -> & Hq). exists q. auto. }
  intros n1. read (ca_locations s k Hs). apply held_bind.
  { eapply held_rows; [apply _..|]. intros d r Hr. right. by apply on_disc. }
  intros n2. read (ca_packs s k Hs). apply held_bind; [apply held_query|]. intros n3. apply held_bind.
  { eapply held_rows; [apply _..|]. intros d r Hr. by apply on_disc. }
  intros n4. read (ca_volumes s k Hs). apply held_bind; [by apply held_volumes|]. intros n5.
  read (ca_snapshots s k Hs). apply held_bind.
  { eapply held_rows; [apply _..|]. intros d r Hr. right. by apply on_disc. }
  intros n6. read (ca_links s k Hs). apply held_bind.
  { eapply held_rows; [apply _..|]. intros d l Hl. unfold link_rows in Hl. apply list_elem_of_bind in Hl as (y & Hl & Hy).
    apply list_elem_of_bind in Hl as (v & Hl & Hv). apply list_elem_of_bind in Hl as (p & ->%list_elem_of_singleton & Hp).
    right. apply on_disc. exists y. split_and!; [done|by eapply traced_volume|by eapply traced_pack]. }
  intros n7. read (ca_copies s k Hs). apply held_bind.
  { eapply held_rows; [apply _..|]. intros d c Hc i. unfold copy_rows in Hc. apply list_elem_of_bind in Hc as (y & Hc & Hy).
    apply list_elem_of_bind in Hc as (v & ->%list_elem_of_singleton & Hv). right. apply on_disc. exists y.
    split_and!; [done|by eapply traced_volume| |done]. cbn. destruct (lacks _ _ _); auto. }
  intros n8. apply held_bind; [by apply held_provenance|]. intros prov. apply held_bind; [apply held_commit|].
  intros ?. apply held_ret.
Qed.
Lemma held_merge f : holding (_merge_one_disc f (Some s)).
Proof using Hx Hs.
  unfold _merge_one_disc. intros s0 H. unfold attach, mbind, eff_bind, gets. destruct (attached s0); [done|].
  unfold modify, finally. pose proof (held_tables f (set_attached true s0) H) as Ht.
  destruct (merge_tables f s (set_attached true s0)) as [r s1] eqn:E. cbn.
  unfold detach, mbind, eff_bind, gets. cbn. rewrite E. destruct (in_transaction (target s1)); cbn in *; done.
Qed.
End disc.

Lemma rebuild_traced parse :
  (forall x, x ∈ discs -> exists mtime s, catalog_db x = Some (mtime, Some s) /\ carries s (content x)) ->
  comes_from (rebuild_catalog parse discs output).2.
Proof using.
  intros Hd. unfold rebuild_catalog. set (start := mkMerging _ _ _ _).
  assert (forall l st, l ⊆ discs -> comes_from (committed (target st.1.1)) /\ comes_from (current (target st.1.1)) ->
    let st' := foldl (merge_disc parse) st l in
    comes_from (committed (target st'.1.1)) /\ comes_from (current (target st'.1.1))) as Hfold.
  { induction l as [|x l IH]; intros [[s0 r] n] Hl Hs; [exact Hs|]. cbn [foldl]. apply IH; [set_solver|].
    assert (x ∈ discs) as Hx by set_solver. destruct (Hd x Hx) as (mt & s & E & Hc). unfold merge_disc. rewrite E.
    pose proof (held_merge x s Hx Hc (_source_freshness parse mt (Some s)) s0 Hs) as H.
    by destruct (_merge_one_disc _ _ _) as [[c|e] s']. }
  assert (comes_from output) as Ho.
  { constructor; intros; try (by left). left. eexists. split; [done|]. by destruct w. }
  pose proof (Hfold (order_by (newest_disc_first parse) discs) (start, empty_result, 0)) as H. cbv zeta in H.
  destruct (foldl _ _ _) as [[s r] n]. cbn. apply H; [|done]. intros x Hx. by apply elem_of_order_by in Hx.
Qed.
End origin.
