(* ===== verification/RebuildSpec.v ===== *)
(** * Rebuilding the catalog: what a merge brings together

    From discs that can be read everything is in the result, and the status of a volume is
    the one of the freshest catalog that knows it. *)

From S2P Require Import Prelude Json Effects Sqlite Catalog VolumeEvents Queries Volumes Escrow Rebuild RebuildProps RebuildOrigin.
Open Scope string_scope.
Open Scope list_scope.
Open Scope Z_scope.

(** ** What the target then contains *)

(** [w] of the target is the volume [v] of the source. *)
Definition same_volume (d : Catalog) (v w : Volume) : Prop := w ∈ volumes d /\ uuid w = uuid v.
Definition same_pack (d : Catalog) (p q : Pack) : Prop := q ∈ packs d /\ sha256 q = sha256 p.

Definition has_packs (d k : Catalog) : Prop := forall p, p ∈ packs k -> exists q, same_pack d p q.
Definition has_volumes (d k : Catalog) : Prop := forall v, v ∈ volumes k -> exists w, same_volume d v w.
Definition has_links (d k : Catalog) : Prop :=
  forall v p, v ∈ volumes k -> p ∈ packs k -> mkVolumePack (volume_id v) (pack_id p) ∈ volume_packs k ->
    exists w q, same_volume d v w /\ same_pack d p q /\ mkVolumePack (volume_id w) (pack_id q) ∈ volume_packs d.
Definition has_copies (d k : Catalog) : Prop :=
  forall c v, c ∈ volume_copies k -> v ∈ volumes k -> vc_volume_id c = volume_id v ->
    exists w c', same_volume d v w /\ c' ∈ volume_copies d /\ vc_volume_id c' = volume_id w /\
      vc_location c' = vc_location c.
Definition has_events (d k : Catalog) : Prop :=
  forall e v, e ∈ volume_events k -> v ∈ volumes k -> ev_volume_id e = volume_id v ->
    exists w e', same_volume d v w /\ e' ∈ volume_events d /\ ev_volume_id e' = volume_id w /\
      event_type e' = event_type e /\ event_date e' = event_date e /\ detail e' = detail e.
Definition has_session_volumes (d k : Catalog) : Prop :=
  forall x v, x ∈ session_volumes k -> v ∈ volumes k -> sv_volume_id x = volume_id v ->
    exists w x', same_volume d v w /\ x' ∈ session_volumes d /\ sv_session_id x' = sv_session_id x /\
      sv_volume_id x' = volume_id w.
Definition has_splits (d k : Catalog) : Prop :=
  forall x, x ∈ default [] (key_escrow k) -> exists l y, key_escrow d = Some l /\ y ∈ l /\
    ke_repo_id y = ke_repo_id x /\ String.leb (split_at x) (split_at y) = true.

Record contains (d k : Catalog) : Prop := {
  ct_repositories r : r ∈ repositories k -> has_repo d (r_repo_id r) = true;
  ct_locations l : l ∈ locations k -> has_location d (name l) = true;
  ct_packs : has_packs d k;
  ct_volumes : has_volumes d k;
  ct_snapshots x : x ∈ snapshots k -> has_snapshot d (snapshot_id x) = true;
  ct_links : has_links d k;
  ct_copies : has_copies d k;
  ct_events : has_events d k;
  ct_sessions b : b ∈ burn_sessions k -> has_session d (session_id b) = true;
  ct_session_volumes : has_session_volumes d k;
  ct_splits : has_splits d k;
}.

Lemma grows_elem {A} (l l' : list A) x : l `prefix_of` l' -> x ∈ l -> x ∈ l'.
Proof. intros [k ->] H. apply elem_of_app. by left. Qed.
Lemma grows_same_volume d d' v w : grows d d' -> same_volume d v w ->
  exists w', same_volume d' v w' /\ volume_id w' = volume_id w.
Proof.
  intros G [Hw Hu]. destruct (grows_volume d d' w G Hw) as (w' & Hw' & Heq). exists w'. rewrite Heq.
  split; [split; [by rewrite <- Heq|done]|done].
Qed.
Lemma grows_same_pack d d' p q : grows d d' -> same_pack d p q -> same_pack d' p q.
Proof. intros [] [Hq Hs]. split; [by eapply grows_elem|done]. Qed.
Lemma grows_snapshot d d' i : grows d d' -> has_snapshot d i = true -> has_snapshot d' i = true.
Proof.
  unfold has_snapshot. rewrite !exists_row_true. intros [] (x & Hx & H). exists x. split; [by eapply grows_elem|done].
Qed.
Section growth.
Variables d d' k : Catalog.
Hypothesis G : grows d d'.

Lemma grows_packs : has_packs d k -> has_packs d' k.
Proof using G. intros H p Hp. destruct (H p Hp) as [q ?]. exists q. by eapply grows_same_pack. Qed.
Lemma grows_volumes : has_volumes d k -> has_volumes d' k.
Proof using G.
  intros H v Hv. destruct (H v Hv) as [w Hw]. destruct (grows_same_volume d d' v w G Hw) as (w' & ? & _). by exists w'.
Qed.
Lemma grows_links : has_links d k -> has_links d' k.
Proof using G.
  intros H v p Hv Hp Hx. destruct (H v p Hv Hp Hx) as (w & q & Hw & Hq & Hl).
  destruct (grows_same_volume d d' v w G Hw) as (w' & ? & Hid). exists w', q. rewrite Hid.
  split_and!; [done|by eapply grows_same_pack|]. eapply grows_elem; [apply G|done].
Qed.
Lemma grows_copies : has_copies d k -> has_copies d' k.
Proof using G.
  intros H c v Hc Hv Hi. destruct (H c v Hc Hv Hi) as (w & c' & Hw & ? & ? & ?).
  destruct (grows_same_volume d d' v w G Hw) as (w' & ? & Hid). exists w', c'. rewrite Hid.
  split_and!; [done| |done..]. eapply grows_elem; [apply G|done].
Qed.
Lemma grows_events : has_events d k -> has_events d' k.
Proof using G.
  intros H e v He Hv Hi. destruct (H e v He Hv Hi) as (w & e' & Hw & ? & ? & ? & ? & ?).
  destruct (grows_same_volume d d' v w G Hw) as (w' & ? & Hid). exists w', e'. rewrite Hid.
  split_and!; [done| |done..]. eapply grows_elem; [apply G|done].
Qed.
Lemma grows_session_volumes : has_session_volumes d k -> has_session_volumes d' k.
Proof using G.
  intros H x v Hx Hv Hi. destruct (H x v Hx Hv Hi) as (w & x' & Hw & ? & ? & ?).
  destruct (grows_same_volume d d' v w G Hw) as (w' & ? & Hid). exists w', x'. rewrite Hid.
  split_and!; [done| |done..]. eapply grows_elem; [apply G|done].
Qed.
Lemma grows_splits : has_splits d k -> has_splits d' k.
Proof using G.
  intros H x Hx. destruct (H x Hx) as (l & y & ? & ? & ? & ?).
  edestruct (gr_splits _ _ G) as (l' & z & ? & ? & ? & ?); [done..|]. exists l', z.
  split_and!; [done..|congruence|]. by eapply leb_trans.
Qed.
Lemma grows_contains : contains d k -> contains d' k.
Proof using G.
  intros []. constructor; eauto using grows_repo, grows_location, grows_packs, grows_volumes, grows_snapshot, grows_links,
    grows_copies, grows_events, grows_session, grows_session_volumes, grows_splits.
Qed.
End growth.

(** ** A statement that inserts every row *)

Lemma insert_all_Ok {R} (t : insertion R) `{!Lawful t} (P : Catalog -> Prop) (holds : R -> Catalog -> Prop) rows d :
  (forall r d1 d2, grows d1 d2 -> holds r d1 -> holds r d2) ->
  catalog_wf d -> P d ->
  (forall r d1, r ∈ rows -> catalog_wf d1 -> grows d d1 -> P d1 ->
     if ignored t r d1 then P (passed_over t d1) /\ holds r (passed_over t d1)
     else refers t r d1 = true /\ P (append t r d1) /\ holds r (append t r d1)) ->
  exists n d', insert_all t rows d = Ok (n, d') /\ catalog_wf d' /\ grows d d' /\ P d' /\ forall r, r ∈ rows -> holds r d'.
Proof.
  intros Hmono. unfold insert_all. generalize 0. revert d.
  induction rows as [|r rows IH]; intros d n W HP Hstep; cbn [foldM].
  { exists n, d. split_and!; [done..|]. intros r Hr. inv Hr. }
  assert (exists n1 d1, insert_one t (n, d) r = Ok (n1, d1) /\ catalog_wf d1 /\ grows d d1 /\ P d1 /\ holds r d1)
    as (n1 & d1 & H1 & W1 & G1 & HP1 & Hr1).
  { specialize (Hstep r d ltac:(by left) W ltac:(done) HP). unfold insert_one. destruct (ignored t r d) eqn:Hi.
    - destruct Hstep. exists n, (passed_over t d). split_and!; [done|by apply passed_wf|apply passed_grows|done..].
    - destruct Hstep as (Hf & ? & ?). rewrite Hf. exists (n + 1), (append t r d).
      split_and!; [done|by apply append_wf|apply append_grows|done..]. }
  destruct (IH d1 n1 W1 HP1) as (n' & d' & H' & W' & G' & HP' & Hall).
  { intros r' d2 Hr' W2 G2 HP2. apply Hstep; [by right|done| |done]. by etrans. }
  exists n', d'. rewrite H1. cbn [mbind res_bind]. split_and!; [done|done|by etrans|done|].
  intros r' [->|Hr']%elem_of_cons; [by eapply Hmono|by apply Hall].
Qed.

(** The connection between the first change of a disc and its commit. *)
Definition mid (c d : Catalog) (m : gmap string Z) (w : list warning) : merging :=
  mkMerging (mkConn c d true) true m w.

Lemma merge_rows_Ok {R} (t : insertion R) rows c d b m w n d' :
  insert_all t (rows d) d = Ok (n, d') ->
  merge_rows t rows (mkMerging (mkConn c d b) true m w) = (Ok n, mid c d' m w).
Proof. intros H. unfold merge_rows, on_target, execute. cbn. by rewrite H. Qed.

Lemma from_table_Ok {A} s k t cols (o : option (list A)) l :
  carries s k -> o = Some l -> existsb (fun c => sql_in (t, c) PROBED) cols = false -> from_table s t cols o = Ok l.
Proof.
  intros Hs -> Hc. unfold from_table. assert (existsb (lacks s t) cols = false) as ->; [|done].
  rewrite <- not_true_iff_false. intros (c & Hin & Hl)%existsb_exists. unfold lacks in Hl. apply sql_in_true in Hl.
  apply not_true_iff_false in Hc. apply Hc, existsb_exists. exists c. split; [done|]. by apply sql_in_true, (ca_columns s k Hs).
Qed.

(** ** The tables, one by one *)

Lemma grows_has_volume d d' i : grows d d' -> has_volume d i = true -> has_volume d' i = true.
Proof.
  intros G. rewrite !has_volume_true. intros (v & -> & Hv)%list_elem_of_fmap.
  destruct (grows_volume d d' v G Hv) as (v' & Hv' & Heq). apply list_elem_of_fmap. exists v'. split; [by rewrite Heq|done].
Qed.
Lemma grows_has_pack d d' i : grows d d' -> has_pack d i = true -> has_pack d' i = true.
Proof.
  intros G. rewrite !has_pack_true. intros (v & -> & Hv)%list_elem_of_fmap. apply list_elem_of_fmap_2.
  eapply grows_elem; [apply G|done].
Qed.
Lemma elem_of_same_uuid svs i d j : j ∈ same_uuid svs i d <->
  exists sv v, sv ∈ svs /\ volume_id sv = i /\ same_volume d sv v /\ j = volume_id v.
Proof.
  unfold same_uuid, same_volume. setoid_rewrite list_elem_of_bind. setoid_rewrite list_elem_of_bind.
  setoid_rewrite elem_of_where. setoid_rewrite list_elem_of_singleton. setoid_rewrite sql_eq_true. naive_solver.
Qed.
Lemma elem_of_same_sha sps i d j : j ∈ same_sha sps i d <->
  exists sp p, sp ∈ sps /\ pack_id sp = i /\ same_pack d sp p /\ j = pack_id p.
Proof.
  unfold same_sha, same_pack. setoid_rewrite list_elem_of_bind. setoid_rewrite list_elem_of_bind.
  setoid_rewrite elem_of_where. setoid_rewrite list_elem_of_singleton. setoid_rewrite sql_eq_true. naive_solver.
Qed.
Lemma same_uuid_there svs i d j : j ∈ same_uuid svs i d -> has_volume d j = true.
Proof.
  intros (sv & v & _ & _ & [Hv _] & ->)%elem_of_same_uuid. apply has_volume_true. by apply list_elem_of_fmap_2.
Qed.
Lemma same_sha_there sps i d j : j ∈ same_sha sps i d -> has_pack d j = true.
Proof.
  intros (sv & v & _ & _ & [Hv _] & ->)%elem_of_same_sha. apply has_pack_true. by apply list_elem_of_fmap_2.
Qed.

Lemma copy_rows_of s svs l d c j : c ∈ l -> j ∈ same_uuid svs (vc_volume_id c) d ->
  exists r, r ∈ copy_rows s svs l d /\ vc_volume_id r = j /\ vc_location r = vc_location c.
Proof.
  intros Hc Hj. eexists. unfold copy_rows. setoid_rewrite list_elem_of_bind. split.
  - exists c. split; [|exact Hc]. apply list_elem_of_bind. exists j. split; [by left|done].
  - done.
Qed.
Lemma copy_rows_inv s svs l d r : r ∈ copy_rows s svs l d ->
  exists c, c ∈ l /\ has_volume d (vc_volume_id r) = true /\ vc_location r = vc_location c /\ vc_status r = vc_status c.
Proof.
  unfold copy_rows. rewrite list_elem_of_bind. intros (c & Hr & Hc). rewrite list_elem_of_bind in Hr.
  destruct Hr as (v & ->%list_elem_of_singleton & Hv). exists c. cbn. split_and!; [done|by eapply same_uuid_there|done..].
Qed.
Lemma event_rows_of svs l d e j : e ∈ l -> j ∈ same_uuid svs (ev_volume_id e) d ->
  exists r, ev_volume_id r = j /\ event_type r = event_type e /\ event_date r = event_date e /\ detail r = detail e /\
    (r ∈ event_rows svs l d \/ r ∈ volume_events d).
Proof.
  intros He Hj. destruct (exists_row (fun te => sql_eq (ev_volume_id te) j && sql_eq (event_type te) (event_type e) &&
    sql_eq (event_date te) (event_date e) && sql_eq (detail te) (detail e)) (volume_events d)) eqn:E.
  - apply exists_row_true in E as (te & Hte & H). exists te. sql. naive_solver.
  - eexists. split_and!; [..|left]; cycle 4.
    + unfold event_rows. apply list_elem_of_bind. exists e. split; [|exact He]. apply list_elem_of_bind.
      exists j. rewrite E. split; [by left|done].
    + done. + done. + done. + done.
Qed.
Lemma event_rows_inv svs l d r : r ∈ event_rows svs l d ->
  exists e, e ∈ l /\ has_volume d (ev_volume_id r) = true /\ event_type r = event_type e /\ ev_location r = ev_location e.
Proof.
  unfold event_rows. rewrite list_elem_of_bind. intros (e & Hr & He). rewrite list_elem_of_bind in Hr.
  destruct Hr as (v & Hr & Hv). destruct (exists_row _ _); [inv Hr|]. apply list_elem_of_singleton in Hr as ->.
  exists e. cbn. split_and!; [done|by eapply same_uuid_there|done..].
Qed.
Lemma session_rows_of s svs l d x j : x ∈ l -> j ∈ same_uuid svs (sv_volume_id x) d ->
  exists r, r ∈ session_volume_rows s svs l d /\ sv_volume_id r = j /\ sv_session_id r = sv_session_id x.
Proof.
  intros Hc Hj. eexists. unfold session_volume_rows. setoid_rewrite list_elem_of_bind. split.
  - exists x. split; [|exact Hc]. apply list_elem_of_bind. exists j. split; [by left|done].
  - done.
Qed.
Lemma session_rows_inv s svs l d r : r ∈ session_volume_rows s svs l d ->
  exists x, x ∈ l /\ has_volume d (sv_volume_id r) = true /\ sv_session_id r = sv_session_id x.
Proof.
  unfold session_volume_rows. rewrite list_elem_of_bind. intros (c & Hr & Hc). rewrite list_elem_of_bind in Hr.
  destruct Hr as (v & ->%list_elem_of_singleton & Hv). exists c. cbn. split_and!; [done|by eapply same_uuid_there|done..].
Qed.

Section tables.
Variables (s : Source) (k d : Catalog).
Hypotheses (Wk : catalog_wf k) (Wd : catalog_wf d).

(** The outcome of a statement on a table other than [volumes]. *)
Definition inserted {R} (t : insertion R) (rows : list R) (holds : Catalog -> Prop) : Prop :=
  exists n d', insert_all t rows d = Ok (n, d') /\ catalog_wf d' /\ grows d d' /\ volumes d' = volumes d /\ holds d'.

Lemma inserted_all {R} (t : insertion R) `{!Lawful t} rows (holds : R -> Catalog -> Prop) (Q : Catalog -> Prop) :
  (forall d1, grows d d1 -> (forall r, r ∈ rows -> holds r d1) -> Q d1) ->
  (forall r d1 d2, grows d1 d2 -> holds r d1 -> holds r d2) ->
  (forall d1, volumes (passed_over t d1) = volumes d1) -> (forall r d1, volumes (append t r d1) = volumes d1) ->
  (forall r d1, r ∈ rows -> grows d d1 -> ignored t r d1 = false -> refers t r d1 = true) ->
  (forall r d1, holds r (append t r d1)) ->
  (forall r d1, r ∈ rows -> ignored t r d1 = true -> holds r (passed_over t d1)) ->
  inserted t rows Q.
Proof using Wd.
  intros HQ Hmono Hpv Hav Href Happ Hpass.
  destruct (insert_all_Ok t (fun d1 => volumes d1 = volumes d) holds rows d) as (n & d' & H & W & G & Hv & Hh); [done..| |].
  - intros r d1 Hr W1 G1 Hv1. destruct (ignored t r d1) eqn:Hi.
    + split; [by rewrite Hpv|by apply Hpass].
    + split_and!; [by apply Href|by rewrite Hav|apply Happ].
  - exists n, d'. split_and!; [done..|by apply HQ].
Qed.

Lemma put_repositories : inserted into_repositories (repository_rows s (repositories k))
  (fun d' => forall r, r ∈ repositories k -> has_repo d' (r_repo_id r) = true).
Proof using Wd.
  eapply (inserted_all _ _ (fun r d1 => has_repo d1 (r_repo_id r) = true)); try done.
  - intros d1 _ H r Hr. unfold repository_rows in H. destruct (lacks _ _ _); [|by apply H].
    apply (H (set_repo_row_status "active" r)). by apply list_elem_of_fmap_2.
  - intros r d1 d2. apply grows_repo.
  - intros r d1. apply has_repo_true. cbn. rewrite fmap_app. apply elem_of_app. right. by left.
Qed.
Lemma put_locations : inserted into_locations (locations k)
  (fun d' => forall l, l ∈ locations k -> has_location d' (name l) = true).
Proof using Wd.
  eapply (inserted_all _ _ (fun l d1 => has_location d1 (name l) = true)); try done.
  - intros l d1 d2. apply grows_location.
  - intros l d1. apply has_location_true. cbn. rewrite fmap_app. apply elem_of_app. right. by left.
Qed.
Lemma put_packs : (forall r, r ∈ repositories k -> has_repo d (r_repo_id r) = true) ->
  inserted into_packs (packs k) (fun d' => has_packs d' k).
Proof using Wd Wk.
  intros Hrepo. eapply (inserted_all _ _ (fun p d1 => exists q, same_pack d1 p q)); try done.
  - intros p d1 d2 G [q ?]. exists q. by eapply grows_same_pack.
  - intros p d1 Hp G _. cbn. apply (grows_repo d d1); [done|]. destruct Wk. rewrite Forall_forall in wf_pack_row.
    apply wf_pack_row in Hp as [_ (r & -> & Hr)%list_elem_of_fmap]. by apply Hrepo.
  - intros p d1. cbn. eexists. split; [apply elem_of_app; right; by left|done].
  - intros p d1 _ (q & Hq & Hs%sql_eq_elim)%exists_row_true. exists q. by split.
Qed.
Lemma put_snapshots : (forall r, r ∈ repositories k -> has_repo d (r_repo_id r) = true) ->
  inserted into_snapshots (snapshots k) (fun d' => forall x, x ∈ snapshots k -> has_snapshot d' (snapshot_id x) = true).
Proof using Wd Wk.
  intros Hrepo. eapply (inserted_all _ _ (fun x d1 => has_snapshot d1 (snapshot_id x) = true)); try done.
  - intros x d1 d2. apply grows_snapshot.
  - intros x d1 Hx G _. cbn. apply (grows_repo d d1); [done|]. destruct Wk. rewrite Forall_forall in wf_snapshot_row.
    apply wf_snapshot_row in Hx as (r & -> & Hr)%list_elem_of_fmap. by apply Hrepo.
  - intros x d1. cbn. unfold has_snapshot. apply exists_row_true. exists x. cbn.
    split; [apply elem_of_app; right; by left|by apply sql_eq_true].
Qed.
Lemma put_sessions : inserted into_burn_sessions (burn_sessions k)
  (fun d' => forall b, b ∈ burn_sessions k -> has_session d' (session_id b) = true).
Proof using Wd Wk.
  eapply (inserted_all _ _ (fun b d1 => has_session d1 (session_id b) = true)); try done.
  - intros b d1 d2. apply grows_session.
  - intros b d1. apply has_session_true. cbn. rewrite fmap_app. apply elem_of_app. right. by left.
  - intros b d1 Hb [H|H]%orb_true_iff; [done|]. destruct Wk. rewrite Forall_forall in wf_session_row.
    apply wf_session_row in Hb. sql. done.
Qed.

Hypothesis Hvol : has_volumes d k.

Lemma put_links : has_packs d k ->
  inserted into_volume_packs (link_rows (volumes k) (packs k) (volume_packs k) d)
  (fun d' => has_links d' k).
Proof using Wd Hvol.
  intros Hpack. eapply (inserted_all _ _ (fun x d1 => x ∈ volume_packs d1)); try done.
  - intros d1 G H v p Hv Hp Hx. destruct (Hvol v Hv) as [w Hw], (Hpack p Hp) as [q Hq].
    destruct (grows_same_volume d d1 v w G Hw) as (w' & Hw' & Hid). exists w', q. rewrite Hid.
    split_and!; [done|by eapply grows_same_pack|]. apply H. unfold link_rows. rewrite list_elem_of_bind.
    eexists. split; [|exact Hx]. rewrite list_elem_of_bind. exists (volume_id w). cbn. split.
    + rewrite list_elem_of_bind. exists (pack_id q). split; [by left|]. apply elem_of_same_sha. by exists p, q.
    + apply elem_of_same_uuid. by exists v, w.
  - intros x d1 d2 G. apply grows_elem, G.
  - intros x d1 Hx G _. cbn. unfold link_rows in Hx. rewrite list_elem_of_bind in Hx. destruct Hx as (y & Hx & _).
    rewrite list_elem_of_bind in Hx. destruct Hx as (v & Hx & Hv). rewrite list_elem_of_bind in Hx.
    destruct Hx as (p & ->%list_elem_of_singleton & Hp). cbn. apply andb_true_iff. split.
    + eapply grows_has_volume; [done|]. by eapply same_uuid_there.
    + eapply grows_has_pack; [done|]. by eapply same_sha_there.
  - intros x d1. cbn. apply elem_of_app. right. by left.
  - intros x d1 _ H. cbn in *. by sql.
Qed.

Lemma put_copies : (forall l, l ∈ locations k -> has_location d (name l) = true) ->
  inserted into_volume_copies (copy_rows s (volumes k) (volume_copies k) d)
  (fun d' => has_copies d' k).
Proof using Wd Wk Hvol.
  intros Hloc. eapply (inserted_all _ _ (fun c d1 => exists c', c' ∈ volume_copies d1 /\
    vc_volume_id c' = vc_volume_id c /\ vc_location c' = vc_location c)); try done.
  - intros d1 G H c v Hc Hv Hid. destruct (Hvol v Hv) as [w Hw].
    destruct (grows_same_volume d d1 v w G Hw) as (w' & Hw' & Hid'). exists w'. rewrite Hid'.
    destruct (copy_rows_of s (volumes k) (volume_copies k) d c (volume_id w)) as (r & Hr & <- & <-); [done| |].
    + apply elem_of_same_uuid. by exists v, w.
    + destruct (H r Hr) as (c' & ? & ? & ?). by exists c'.
  - intros c d1 d2 G (c' & ? & ?). exists c'. split; [|done]. eapply grows_elem; [apply G|done].
  - intros c d1 (y & Hy & Hv & Hl & _)%copy_rows_inv G _. cbn. rewrite Hl. apply andb_true_iff.
    split; [by eapply grows_has_volume|]. eapply grows_location; [done|]. destruct Wk.
    rewrite Forall_forall in wf_copy_row. apply wf_copy_row in Hy as (_ & _ & (l & -> & ?)%list_elem_of_fmap & _).
    by apply Hloc.
  - intros c d1. cbn. eexists. split; [apply elem_of_app; right; by left|done].
  - intros c d1 (y & Hy & _ & _ & Hst)%copy_rows_inv [H|H]%orb_true_iff; cbn.
    + apply exists_row_true in H as (c' & ? & H). exists c'. by sql.
    + exfalso. destruct Wk. rewrite Forall_forall in wf_copy_row. apply wf_copy_row in Hy as (_ & _ & _ & ?).
      rewrite Hst in H. by sql.
Qed.

Lemma put_events : (forall l, l ∈ locations k -> has_location d (name l) = true) ->
  inserted into_volume_events (event_rows (volumes k) (volume_events k) d)
  (fun d' => has_events d' k).
Proof using Wd Wk Hvol.
  intros Hloc. eapply (inserted_all _ _ (fun e d1 => exists e', e' ∈ volume_events d1 /\
    ev_volume_id e' = ev_volume_id e /\ event_type e' = event_type e /\ event_date e' = event_date e /\
    detail e' = detail e)); try done.
  - intros d1 G H e v He Hv Hid. destruct (Hvol v Hv) as [w Hw].
    destruct (grows_same_volume d d1 v w G Hw) as (w' & Hw' & Hid'). exists w'. rewrite Hid'.
    destruct (event_rows_of (volumes k) (volume_events k) d e (volume_id w)) as (r & <- & <- & <- & <- & Hr); [done| |].
    + apply elem_of_same_uuid. by exists v, w.
    + destruct Hr as [Hr|Hr].
      * destruct (H r Hr) as (e' & ?). by exists e'.
      * exists r. split_and!; [done| |done..]. eapply grows_elem; [apply G|done].
  - intros e d1 d2 G (e' & ? & ?). exists e'. split; [|done]. eapply grows_elem; [apply G|done].
  - intros e d1 (y & Hy & Hv & Ht & Hl)%event_rows_inv G _. cbn. rewrite Hl, Ht. destruct Wk.
    rewrite Forall_forall in wf_event_row. apply wf_event_row in Hy as (_ & _ & ? & Hyl).
    rewrite !andb_true_iff. split_and!; [by apply sql_in_true|by eapply grows_has_volume|].
    destruct (ev_location y); [|done]. eapply grows_location; [done|]. apply list_elem_of_fmap in Hyl as (l & -> & ?).
    by apply Hloc.
  - intros e d1. cbn. eexists. split; [apply elem_of_app; right; by left|done].
Qed.

Lemma put_session_volumes : (forall b, b ∈ burn_sessions k -> has_session d (session_id b) = true) ->
  inserted into_session_volumes (session_volume_rows s (volumes k) (session_volumes k) d)
  (fun d' => has_session_volumes d' k).
Proof using Wd Wk Hvol.
  intros Hses. eapply (inserted_all _ _ (fun x d1 => exists x', x' ∈ session_volumes d1 /\
    sv_session_id x' = sv_session_id x /\ sv_volume_id x' = sv_volume_id x)); try done.
  - intros d1 G H x v Hx Hv Hid. destruct (Hvol v Hv) as [w Hw].
    destruct (grows_same_volume d d1 v w G Hw) as (w' & Hw' & Hid'). exists w'. rewrite Hid'.
    destruct (session_rows_of s (volumes k) (session_volumes k) d x (volume_id w)) as (r & Hr & <- & <-); [done| |].
    + apply elem_of_same_uuid. by exists v, w.
    + destruct (H r Hr) as (x' & ?). by exists x'.
  - intros x d1 d2 G (x' & ? & ?). exists x'. split; [|done]. eapply grows_elem; [apply G|done].
  - intros x d1 (y & Hy & Hv & Hs)%session_rows_inv G _. cbn. rewrite Hs. apply andb_true_iff.
    split; [|by eapply grows_has_volume]. eapply grows_session; [done|]. destruct Wk.
    rewrite Forall_forall in wf_session_volume_row.
    apply wf_session_volume_row in Hy as ((b & -> & ?)%list_elem_of_fmap & _). by apply Hses.
  - intros x d1. cbn. exists x. split; [apply elem_of_app; right; by left|done].
  - intros x d1 _ (x' & ? & H)%exists_row_true. exists x'. by sql.
Qed.
End tables.

Lemma put_splits rows d : catalog_wf d -> is_Some (key_escrow d) ->
  exists n d', upsert_splits rows d = Ok (n, d') /\ catalog_wf d' /\ grows d d' /\ volumes d' = volumes d /\
    forall x, x ∈ rows -> exists l y, key_escrow d' = Some l /\ y ∈ l /\ ke_repo_id y = ke_repo_id x /\
      String.leb (split_at x) (split_at y) = true.
Proof.
  unfold upsert_splits. generalize 0. revert d. induction rows as [|x rows IH]; intros d n W Hs; cbn [foldM].
  { exists n, d. split_and!; [done..|]. intros x Hx. inv Hx. }
  destruct Hs as [l Hl]. destruct (upsert_split newer_split x d) as [[u d1]|e] eqn:Hu.
  2:{ unfold upsert_split in Hu. by rewrite Hl in Hu. }
  pose proof (upsert_newer_grows _ _ _ _ Hu) as G1. pose proof (wf_upsert_split d W _ _ _ _ Hu) as W1.
  assert (volumes d1 = volumes d) as Hv1 by (unfold upsert_split in Hu; rewrite Hl in Hu; by injection Hu as _ <-).
  assert (exists l1 y, key_escrow d1 = Some l1 /\ y ∈ l1 /\ ke_repo_id y = ke_repo_id x /\
    String.leb (split_at x) (split_at y) = true) as (l1 & y & Hl1 & Hy & Hyr & Hle).
  { unfold upsert_split in Hu. rewrite Hl in Hu. injection Hu as _ <-. cbn. destruct (exists_row _ l) eqn:E.
    - apply exists_row_true in E as (y & Hy & Hr). destruct (newer_split x y) eqn:Hn.
      + eexists _, x. split_and!; [done| |done|apply leb_refl]. apply elem_of_update_where. exists y. by rewrite Hr, Hn.
      + eexists _, y. split_and!; [done| |by sql|by apply ltb_false]. apply elem_of_update_where. exists y. by rewrite Hr, Hn.
    - eexists _, x. split_and!; [done| |done|apply leb_refl]. apply elem_of_app. right. by left. }
  assert (exists n1, upsert_one (n, d) x = Ok (n1, d1)) as [n1 H1]
    by (unfold upsert_one; rewrite Hu; cbn; by eexists).
  destruct (IH d1 n1) as (n' & d' & H' & W' & G' & Hv' & Hall); [done|by exists l1|].
  exists n', d'. rewrite H1. cbn [mbind res_bind]. split_and!; [exact H'|done|by etrans|congruence|].
  intros z [->|Hz]%elem_of_cons; [|by apply Hall].
  destruct (gr_splits _ _ G' l1 y Hl1 Hy) as (l2 & z & ? & ? & ? & ?). exists l2, z.
  split_and!; [done..|congruence|by eapply leb_trans].
Qed.

(** ** Volumes and their statuses *)

(** A label names one volume, in every catalog. *)
Definition named (names : string -> string) (d : Catalog) : Prop :=
  forall v, v ∈ volumes d -> names (label v) = uuid v.

Lemma put_volumes names k d : catalog_wf k -> catalog_wf d -> named names k -> named names d ->
  exists n d', insert_all into_volumes (volumes k) d = Ok (n, d') /\ catalog_wf d' /\ grows d d' /\ named names d' /\
    has_volumes d' k /\ volumes d `prefix_of` volumes d' /\
    forall w, w ∈ volumes d' -> w ∈ volumes d \/
      uuid w ∉ uuid <$> volumes d /\ exists v, v ∈ volumes k /\ uuid v = uuid w /\ status v = status w.
Proof.
  intros Wk Wd Nk Nd.
  set (P d1 := named names d1 /\ volumes d `prefix_of` volumes d1 /\ forall w, w ∈ volumes d1 -> w ∈ volumes d \/
      uuid w ∉ uuid <$> volumes d /\ exists v, v ∈ volumes k /\ uuid v = uuid w /\ status v = status w).
  destruct (insert_all_Ok into_volumes P (fun v d1 => exists w, same_volume d1 v w) (volumes k) d)
    as (n & d' & H & W & G & (N & Hp & Hnew) & Hall).
  - intros v d1 d2 G [w Hw]. destruct (grows_same_volume d1 d2 v w G Hw) as (w' & ? & _). by exists w'.
  - done.
  - split_and!; [done..|]. intros w. by left.
  - intros v d1 Hv W1 G1 (N1 & Hp1 & Hnew1). destruct (ignored into_volumes v d1) eqn:Hi.
    + split; [done|]. apply orb_true_iff in Hi as [Hi|Hi].
      * apply exists_row_true in Hi as (w & Hw & Hk). exists w. split; [done|]. cbn in Hk. sql.
        destruct Hk as [Hk|Hk]; [|done]. by rewrite <- (N1 w Hw), Hk, Nk.
      * destruct Wk. rewrite Forall_forall in wf_volume_row. apply wf_volume_row in Hv as [_ ?]. by sql.
    + split; [done|]. apply orb_false_iff in Hi as [Hi _]. rewrite exists_row_false in Hi. split.
      * split_and!; cbn.
        -- intros w [Hw| ->%list_elem_of_singleton]%elem_of_app; [by apply N1|]. cbn. by apply Nk.
        -- etrans; [exact Hp1|apply prefix_app_r; done].
        -- intros w [Hw| ->%list_elem_of_singleton]%elem_of_app; [by apply Hnew1|]. right. cbn. split; [|by exists v].
           intros (w & Heq & Hw)%list_elem_of_fmap. specialize (Hi w (grows_elem _ _ _ Hp1 Hw)).
           apply orb_false_iff in Hi as [_ Hi]. by sql.
      * eexists. split; [cbn; apply elem_of_app; right; by left|done].
  - by exists n, d'.
Qed.

Lemma elem_of_status_conflicts l d c : c ∈ status_conflicts l d <->
  c.1 ∈ volumes d /\ exists sv, sv ∈ l /\ uuid sv = uuid c.1 /\ status sv = c.2.
Proof.
  unfold status_conflicts. rewrite list_elem_of_bind. setoid_rewrite list_elem_of_bind.
  setoid_rewrite elem_of_where. setoid_rewrite list_elem_of_singleton. setoid_rewrite sql_eq_true.
  destruct c as [v st]. cbn. split.
  - intros (y & (sv & [= -> ->] & Hsv & Hin) & Hy). split; [done|]. by exists sv.
  - intros (Hv & sv & Hin & Hu & <-). exists v. split; [|done]. by exists sv.
Qed.

(** The status of a source wins when it is fresher than the catalog that set the present
    one. *)
Definition takes (f : Z) (last : option Z) : bool := match last with None => true | Some t => t <? f end.

(** What the loop over the conflicts makes of one volume [v] of the target. *)
Definition settled_volume (f : Z) (cs : list (Volume * string)) (m m' : gmap string Z) (v v' : Volume) : Prop :=
  v' = set_status (status v') v /\
  ((exists c, c ∈ cs /\ uuid c.1 = uuid v /\ takes f (m !! uuid v) = true /\ status v' = c.2 /\ m' !! uuid v = Some f) \/
   ((forall c, c ∈ cs -> uuid c.1 = uuid v -> takes f (m !! uuid v) = false) /\ status v' = status v /\
    m' !! uuid v = m !! uuid v)).

Lemma set_same_status v : set_status (status v) v = v.
Proof. by destruct v. Qed.

Lemma update_one_status i st d : catalog_wf d -> st ∈ VOLUME_STATUSES ->
  update_volumes (fun w => sql_eq (volume_id w) i) (set_status st) d =
  Ok (count_where (fun w => sql_eq (volume_id w) i) (volumes d),
      set_volumes d (update_where (fun w => sql_eq (volume_id w) i) (set_status st) (volumes d))).
Proof.
  intros W Hst. unfold update_volumes.
  assert (exists_row (fun v => negb (sql_in (status v) VOLUME_STATUSES))
    (update_where (fun w => sql_eq (volume_id w) i) (set_status st) (volumes d)) = false) as ->; [|done].
  apply exists_row_false. intros v (y & Hy & ->)%elem_of_update_where. destruct W.
  rewrite Forall_forall in wf_volume_row. apply wf_volume_row in Hy as [_ ?].
  destruct (sql_eq _ _); cbn; by apply negb_false_iff, sql_in_true.
Qed.

Lemma settle_one f c v st d m w : catalog_wf d -> v ∈ volumes d -> st ∈ VOLUME_STATUSES ->
  exists d' m' w', settle_status f (v, st) (mid c d m w) = (Ok tt, mid c d' m' w') /\ catalog_wf d' /\ grows d d' /\
    (forall v', v' ∈ volumes d' -> exists v0, v0 ∈ volumes d /\ settled_volume f [(v, st)] m m' v0 v') /\
    (forall v0, v0 ∈ volumes d -> uuid v0 <> uuid v -> v0 ∈ volumes d') /\
    (forall u, u <> uuid v -> m' !! u = m !! u).
Proof.
  intros W Hv Hst. unfold settle_status. unfold mbind at 1, eff_bind at 1, gets. cbn [status_freshness mid fst snd].
  change (match m !! uuid v with Some t => t <? f | None => true end) with (takes f (m !! uuid v)).
  destruct (takes f (m !! uuid v)) eqn:Ht.
  - assert (forall m' v0, m' = <[uuid v := f]> m -> v0 ∈ volumes d ->
      settled_volume f [(v, st)] m m' v0 (if sql_eq (volume_id v0) (volume_id v) then set_status st v0 else v0)) as Hset.
    { intros m' v0 -> Hv0. destruct (sql_eq _ _) eqn:E.
      - sql. assert (v0 = v) as -> by (eapply key_unique; [apply W|done..]). split; [done|]. left.
        exists (v, st). split_and!; [by left|done..|by rewrite lookup_insert_eq].
      - split; [by rewrite set_same_status|]. right. sql. assert (uuid v <> uuid v0) as Hu.
        { intros Hu. apply E. f_equal. eapply (key_unique uuid); [apply W|done..]. }
        split_and!; [|done|by rewrite lookup_insert_ne]. intros x ->%list_elem_of_singleton. cbn. by intros. }
    destruct (negb (sql_eq st (status v))) eqn:E.
    + eexists (set_volumes d (update_where _ (set_status st) (volumes d))), (<[uuid v := f]> m), w.
      split_and!.
      * unfold on_target, mbind, eff_bind, db_bind, execute, mid. cbn.
        rewrite update_one_status by done. done.
      * eapply (wf_update_volumes d W); [|by apply update_one_status]. done.
      * eapply update_status_grows. by apply update_one_status.
      * cbn. intros v' (v0 & Hv0 & ->)%elem_of_update_where. exists v0. split; [done|]. by apply Hset.
      * cbn. intros v0 Hv0 Hne. apply elem_of_update_where. exists v0. split; [done|].
        destruct (sql_eq (volume_id v0) (volume_id v)) eqn:Ei; [|done]. exfalso. sql. apply Hne. f_equal. eapply key_unique; [apply W|done..].
      * intros u Hu. by rewrite lookup_insert_ne.
    + apply negb_false_iff, sql_eq_elim in E. subst st. exists d, (<[uuid v := f]> m), w.
      split_and!; [done..| |done|intros u Hu; by rewrite lookup_insert_ne].
      intros v' Hv'. exists v'. split; [done|]. specialize (Hset _ v' eq_refl Hv').
      destruct (sql_eq (volume_id v') (volume_id v)) eqn:Ei; [|done]. sql.
      assert (v' = v) as -> by (eapply key_unique; [apply W|done..]). by rewrite set_same_status in Hset.
  - assert (forall v', v' ∈ volumes d -> exists v0, v0 ∈ volumes d /\ settled_volume f [(v, st)] m m v0 v') as Hs.
    { intros v' Hv'. exists v'. split; [done|]. split; [by rewrite set_same_status|]. right.
      split_and!; [|done..]. intros x ->%list_elem_of_singleton. by cbn; intros <-. }
    destruct (status_rank _ <? status_rank _); eexists d, m, _; split_and!; done.
Qed.

Lemma settle_all f cs : forall c d m w, catalog_wf d -> NoDup ((fun x => uuid x.1) <$> cs) ->
  (forall x, x ∈ cs -> x.1 ∈ volumes d /\ x.2 ∈ VOLUME_STATUSES) ->
  exists d' m' w', for_each (settle_status f) cs (mid c d m w) = (Ok tt, mid c d' m' w') /\ catalog_wf d' /\ grows d d' /\
    (forall v', v' ∈ volumes d' -> exists v, v ∈ volumes d /\ settled_volume f cs m m' v v') /\
    (forall u, u ∉ (fun x => uuid x.1) <$> cs -> m' !! u = m !! u).
Proof.
  induction cs as [|[v st] cs IH]; intros c d m w W Hnd Hin; cbn [for_each].
  { exists d, m, w. split_and!; [done..| |done]. intros v' Hv'. exists v'. split; [done|].
    split; [by rewrite set_same_status|]. right. split_and!; [|done..]. intros x Hx. inv Hx. }
  csimpl in Hnd. apply NoDup_cons in Hnd as [Hv Hnd]. destruct (Hin (v, st) ltac:(by left)) as [Hvd Hst].
  destruct (settle_one f c v st d m w W Hvd Hst) as (d1 & m1 & w1 & H1 & W1 & G1 & Hs1 & Hk1 & Hm1).
  destruct (IH c d1 m1 w1 W1 Hnd) as (d2 & m2 & w2 & H2 & W2 & G2 & Hs2 & Hm2).
  { intros x Hx. destruct (Hin x ltac:(by right)). split; [|done]. apply Hk1; [done|]. intros Hu. apply Hv.
    rewrite <- Hu. by apply (list_elem_of_fmap_2 (fun x => uuid x.1)). }
  exists d2, m2, w2. rewrite (eff_bind_Ok _ _ _ _ _ H1). split_and!; [done..|by etrans| |].
  - intros v2 (v1 & (v0 & Hv0 & He1 & Hc1)%Hs1 & He2 & Hc2)%Hs2. exists v0. split; [done|].
    assert (uuid v1 = uuid v0) as Hu by (by rewrite He1). split; [by rewrite He2, He1|].
    rewrite Hu in Hc2. destruct (decide (uuid v0 = uuid v)) as [Hu0|Hu0].
    + destruct Hc2 as [(x & Hx & Hxu & _)|(_ & Hst2 & Hmm2)].
      { exfalso. apply Hv. rewrite <- Hu0, <- Hxu. by apply (list_elem_of_fmap_2 (fun x => uuid x.1)). }
      rewrite Hst2, Hmm2. destruct Hc1 as [(x & ->%list_elem_of_singleton & ?)|(Hn & ? & ?)].
      * left. exists (v, st). split; [by left|done].
      * right. split; [|done]. intros x [->|Hx]%elem_of_cons Hxu; [by apply (Hn (v, st)); [left|]|].
        exfalso. apply Hv. rewrite <- Hu0, <- Hxu. by apply (list_elem_of_fmap_2 (fun x => uuid x.1)).
    + destruct Hc1 as [(x & ->%list_elem_of_singleton & Hxu & _)|(_ & Hst1 & Hmm1)]; [by cbn in Hxu|].
      rewrite Hmm1, Hst1 in Hc2. destruct Hc2 as [(x & Hx & ?)|(Hn & ?)].
      * left. exists x. split; [by right|done].
      * right. split; [|done]. intros x [->|Hx]%elem_of_cons Hxu; [by cbn in Hxu|by apply (Hn x)].
  - intros u Hu. csimpl in Hu. apply not_elem_of_cons in Hu as [? ?]. rewrite Hm2 by done. by apply Hm1.
Qed.

Lemma where_uuid_one (l : list Volume) u : NoDup (uuid <$> l) ->
  where_ (fun sv => sql_eq (uuid sv) u) l = [] \/ exists x, where_ (fun sv => sql_eq (uuid sv) u) l = [x].
Proof.
  intros Hl. pose proof (where_NoDup_key uuid (fun sv => sql_eq (uuid sv) u) l Hl) as Hw.
  destruct (where_ _ l) as [|x [|y r]] eqn:E; [by left|right; by exists x|]. exfalso.
  assert (forall z, z ∈ x :: y :: r -> uuid z = u) as Hall.
  { intros z Hz. rewrite <- E in Hz. apply elem_of_where in Hz as [Hz _]. by sql. }
  csimpl in Hw. apply NoDup_cons in Hw as [Hx _]. apply Hx.
  rewrite (Hall x), <- (Hall y); [by left|right; by left|by left].
Qed.
Lemma conflicts_NoDup l d : NoDup (uuid <$> volumes d) -> NoDup (uuid <$> l) ->
  NoDup ((fun x => uuid x.1) <$> status_conflicts l d).
Proof.
  unfold status_conflicts. intros Hd Hl. induction (volumes d) as [|v vs IH]; [constructor|].
  csimpl in Hd. apply NoDup_cons in Hd as [Hv Hd]. csimpl. rewrite fmap_app.
  apply NoDup_app. split_and!; [| |by apply IH].
  - destruct (where_uuid_one l (uuid v) Hl) as [->|[x ->]]; csimpl; [constructor|apply NoDup_singleton].
  - intros u Hu (x & -> & Hx)%list_elem_of_fmap. apply list_elem_of_bind in Hx as (y & Hx & Hy).
    apply list_elem_of_bind in Hx as (sv & ->%list_elem_of_singleton & _). cbn in Hu. apply Hv.
    apply list_elem_of_fmap in Hu as ([z st] & Heq & Hz). apply list_elem_of_bind in Hz as (s' & Hz & _).
    apply list_elem_of_singleton in Hz as [= -> ->]. cbn in Heq. rewrite <- Heq. by apply list_elem_of_fmap_2.
Qed.

Lemma own_all f l : forall c d m w, exists m', for_each (fun v => modify (own_status f (uuid v))) l (mid c d m w) =
  (Ok tt, mid c d m' w) /\ (forall u, u ∈ uuid <$> l -> m' !! u = Some f) /\
  (forall u, u ∉ uuid <$> l -> m' !! u = m !! u).
Proof.
  induction l as [|v l IH]; intros c d m w; cbn [for_each].
  { exists m. split_and!; [done| |done]. intros u Hu. inv Hu. }
  destruct (IH c d (<[uuid v := f]> m) w) as (m' & H & Hin & Hout). exists m'.
  split_and!; [exact H|..]; intros u; csimpl; rewrite elem_of_cons.
  - intros Hu. destruct (decide (u ∈ uuid <$> l)) as [Hl|Hl]; [by apply Hin|]. destruct Hu as [->|Hu]; [|done].
    by rewrite Hout, lookup_insert_eq.
  - intros Hu. rewrite Hout by tauto. apply lookup_insert_ne. intros <-. tauto.
Qed.

(** What a merge at freshness [f] makes of the statuses, [m] and [m'] being the record of
    freshness before and after. *)
Definition mentions (k : Catalog) (u : string) : Prop := u ∈ uuid <$> volumes k.
Definition settled (f : Z) (k d : Catalog) (m : gmap string Z) (d' : Catalog) (m' : gmap string Z) : Prop :=
  forall v', v' ∈ volumes d' ->
  (exists sv, sv ∈ volumes k /\ uuid sv = uuid v' /\ status v' = status sv /\ m' !! uuid v' = Some f /\
     (mentions d (uuid v') -> takes f (m !! uuid v') = true)) \/
  (exists v, v ∈ volumes d /\ uuid v = uuid v' /\ status v' = status v /\ m' !! uuid v' = m !! uuid v' /\
     (mentions k (uuid v') -> takes f (m !! uuid v') = false)).

Lemma merge_volumes_Ok names f k c d m w :
  catalog_wf k -> catalog_wf d -> named names k -> named names d ->
  exists n d' m' w', merge_volumes f (volumes k) (mid c d m w) = (Ok n, mid c d' m' w') /\ catalog_wf d' /\ grows d d' /\
    named names d' /\ has_volumes d' k /\ settled f k d m d' m'.
Proof.
  intros Wk Wd Nk Nd. destruct (put_volumes names k d Wk Wd Nk Nd) as (n & d1 & H1 & W1 & G1 & N1 & Hall & Hpre & Hnew).
  unfold merge_volumes. set (cs := status_conflicts (volumes k) d).
  rewrite (eff_bind_Ok _ _ _ cs (mid c d m w)) by done.
  rewrite (eff_bind_Ok _ _ _ _ _ (merge_rows_Ok into_volumes (fun _ => volumes k) c d true m w n d1 H1)).
  set (fresh := where_ _ (volumes k)).
  destruct (own_all f fresh c d1 m w) as (m1 & H2 & Hm1 & Hm1').
  rewrite (eff_bind_Ok _ _ _ _ _ H2).
  assert (forall u, u ∈ (fun x => uuid x.1) <$> cs <-> mentions d u /\ mentions k u) as Hcs.
  { intros u. unfold mentions. rewrite !list_elem_of_fmap. unfold cs. setoid_rewrite elem_of_status_conflicts. split.
    - intros (x & -> & Hx & sv & Hsv & Hu & _). split; [by exists x.1|]. exists sv. by rewrite Hu.
    - intros [(v & -> & Hv) (sv & Hu & Hsv)]. exists (v, status sv). split; [done|]. split; [done|]. by exists sv. }
  assert (forall u, mentions k u -> ~ mentions d u -> u ∈ uuid <$> fresh) as Hfresh.
  { intros u (sv & -> & Hsv)%list_elem_of_fmap Hd. apply list_elem_of_fmap_2, elem_of_where. split; [|done].
    apply negb_true_iff, sql_in_false. rewrite Hcs. tauto. }
  assert (forall u, mentions d u -> m1 !! u = m !! u) as Hold.
  { intros u Hu. apply Hm1'. intros (v & -> & Hv)%list_elem_of_fmap. apply elem_of_where in Hv as [Hv Hvk].
    apply negb_true_iff, sql_in_false in Hv. apply Hv, Hcs. split; [done|]. by apply list_elem_of_fmap_2. }
  destruct (settle_all f cs c d1 m1 w W1) as (d2 & m2 & w2 & H3 & W2 & G2 & Hset & Hm2).
  { apply conflicts_NoDup; [apply Wd|apply Wk]. }
  { intros x (Hx & sv & Hsv & _ & <-)%elem_of_status_conflicts. split; [by eapply grows_elem|].
    destruct Wk. rewrite Forall_forall in wf_volume_row. by apply wf_volume_row. }
  exists n, d2, m2, w2. rewrite (eff_bind_Ok _ _ _ _ _ H3). split_and!; [done|done|by etrans|..].
  - intros v2 (v1 & Hv1 & Heq & _)%Hset. rewrite Heq. cbn. by apply N1.
  - intros v (w1 & Hw)%Hall. destruct (grows_same_volume d1 d2 v w1 G2 Hw) as (w' & ? & _). by exists w'.
  - intros v2 Hv2. destruct (Hset v2 Hv2) as (v1 & Hv1 & Heq & Hcase). assert (uuid v2 = uuid v1) as -> by (by rewrite Heq).
    destruct (Hnew v1 Hv1) as [Hv1d|(Hv1d & sv & Hsv & Hu & Hst)].
    + assert (mentions d (uuid v1)) as Hd by (by apply list_elem_of_fmap_2). rewrite (Hold _ Hd) in Hcase.
      destruct Hcase as [(x & Hx & Hxu & Ht & Hst & Hm)|(Hn & Hst & Hm)].
      * apply elem_of_status_conflicts in Hx as (_ & sv & Hsv & Hu & Hs). left. exists sv.
        split_and!; [done|congruence|congruence|done|done].
      * right. exists v1. split_and!; [done..|]. intros Hk. pose proof (proj2 (Hcs _) (conj Hd Hk)) as Hin.
        apply list_elem_of_fmap in Hin as (x & Hxu & Hx). by apply (Hn x).
    + left. exists sv. destruct Hcase as [(x & Hx & Hxu & _)|(_ & Hst' & Hm)].
      { exfalso. apply Hv1d. apply elem_of_status_conflicts in Hx as (Hx & _). rewrite <- Hxu. by apply list_elem_of_fmap_2. }
      split_and!; [done..|congruence| |by intros].
      rewrite Hm. apply Hm1, Hfresh; [|done]. apply list_elem_of_fmap. by exists sv.
Qed.

(** ** One disc *)

Lemma lift_table {A} s k t cols (o : option (list A)) l (st : merging) :
  carries s k -> o = Some l -> existsb (fun c => sql_in (t, c) PROBED) cols = false ->
  lift (from_table s t cols o) st = (Ok l, st).
Proof. intros. unfold lift. by erewrite from_table_Ok. Qed.
(** Steps over the next table, which is the one of [H]. *)
Ltac read_table Hs H :=
  erewrite (eff_bind_Ok (lift _)); [|eapply lift_table; [exact Hs|exact H|reflexivity]].

Lemma inserted_rows {R} (t : insertion R) rows Q c d b m w : inserted d t (rows d) Q ->
  exists n d', merge_rows t rows (mkMerging (mkConn c d b) true m w) = (Ok n, mid c d' m w) /\ catalog_wf d' /\
    grows d d' /\ volumes d' = volumes d /\ Q d'.
Proof.
  intros (n & d' & H & ? & ? & ? & ?). exists n, d'. split_and!; [by apply merge_rows_Ok|done..].
Qed.

(** A table that may be missing. *)
Lemma if_present_Ok {A R} s k tname cols (o : option (list A)) l (t : insertion R) rows c d m w Q :
  carries s k -> catalog_wf d -> inserted d t (rows l d) Q -> default [] o = l ->
  existsb (fun c => sql_in (tname, c) PROBED) cols = false -> (l = [] -> Q d) ->
  exists n d', if_present o (fun l => x ← lift (from_table s tname cols (Some l)); merge_rows t (rows x)) (mid c d m w) =
    (Ok n, mid c d' m w) /\ catalog_wf d' /\ grows d d' /\ volumes d' = volumes d /\ Q d'.
Proof.
  intros Hs W Hins Hl Hcols Hnone. destruct o as [l'|]; cbn [if_present].
  - cbn in Hl. subst l'. rewrite (eff_bind_Ok _ _ _ l (mid c d m w)) by (by eapply lift_table).
    by apply inserted_rows.
  - exists 0, d. split_and!; [done..|by apply Hnone].
Qed.
Lemma merge_provenance_Ok s k c d m w :
  catalog_wf k -> catalog_wf d -> carries s k -> is_Some (key_escrow d) ->
  has_volumes d k ->
  (forall l, l ∈ locations k -> has_location d (name l) = true) ->
  exists n d', merge_provenance s (volumes k) (mid c d m w) = (Ok n, mid c d' m w) /\ catalog_wf d' /\ grows d d' /\
    volumes d' = volumes d /\ has_events d' k /\ (forall b, b ∈ burn_sessions k -> has_session d' (session_id b) = true) /\
    has_session_volumes d' k /\ has_splits d' k.
Proof.
  intros Wk Wd Hs He Hvol Hloc. unfold merge_provenance.
  edestruct (if_present_Ok s k "volume_events" ["volume_id"; "event_type"; "event_date"; "location"; "detail"]
    (src_volume_events s) _ _ (event_rows (volumes k)) c d m w _ Hs Wd (put_events k d Wk Wd Hvol Hloc) (ca_events s k Hs))
    as (n1 & d1 & H1 & W1 & G1 & V1 & Hev); [done|by intros Hn e v He'; rewrite Hn in He'; inv He'|].
  rewrite (eff_bind_Ok _ _ _ _ _ H1).
  edestruct (if_present_Ok s k "burn_sessions" ["session_id"; "created_at"; "media_type"; "status"; "staging_dir"]
    (src_burn_sessions s) _ _ (fun l _ => l) c d1 m w _ Hs W1 (put_sessions k d1 Wk W1) (ca_sessions s k Hs))
    as (n2 & d2 & H2 & W2 & G2 & V2 & Hses); [done|by intros Hn b Hb; rewrite Hn in Hb; inv Hb|].
  rewrite (eff_bind_Ok _ _ _ _ _ H2).
  pose proof (grows_volumes _ _ k G2 (grows_volumes _ _ k G1 Hvol)) as Hvol2.
  edestruct (if_present_Ok s k "session_volumes" ["session_id"; "volume_id"; "iso_path"; "iso_sha256"]
    (src_session_volumes s) _ _ (session_volume_rows s (volumes k)) c d2 m w _ Hs W2
    (put_session_volumes s k d2 Wk W2 Hvol2 Hses) (ca_session_volumes s k Hs))
    as (n3 & d3 & H3 & W3 & G3 & V3 & Hsv); [done|by intros Hn x v Hx; rewrite Hn in Hx; inv Hx|].
  rewrite (eff_bind_Ok _ _ _ _ _ H3).
  assert (is_Some (key_escrow d3)) as He3 by (apply (gr_escrow _ _ G3), (gr_escrow _ _ G2), (gr_escrow _ _ G1), He).
  destruct (put_splits (default [] (key_escrow k)) d3 W3 He3) as (n4 & d4 & H4 & W4 & G4 & V4 & Hsp).
  assert (exists n d4', if_present (src_key_escrow s) (fun l => xs ← lift (from_table s "key_escrow"
      ["repo_id"; "threshold"; "shares"; "slip39_id"; "split_at"] (Some l)); on_target (execute (upsert_splits xs)))
      (mid c d3 m w) = (Ok n, mid c d4' m w) /\ (d4' = d4 \/ d4' = d3 /\ default [] (key_escrow k) = []))
    as (n & d4' & H & Hd4).
  { pose proof (ca_splits s k Hs) as Hk. destruct (src_key_escrow s) as [l|]; cbn [if_present] in *.
    - cbn in Hk. subst l. rewrite (eff_bind_Ok _ _ _ (default [] (key_escrow k)) (mid c d3 m w)) by (by eapply lift_table).
      exists n4, d4. unfold on_target, execute, mid. cbn. rewrite H4. by split; [|left].
    - exists 0, d3. split; [done|by right]. }
  rewrite (eff_bind_Ok _ _ _ _ _ H). exists (n1, n2, n3, n), d4'.
  assert (catalog_wf d4' /\ grows d3 d4' /\ volumes d4' = volumes d3) as (W4' & G4' & V4')
    by (destruct Hd4 as [->|[-> _]]; by split_and!).
  assert (grows d1 d4') as G14 by (etrans; [exact G2|]; etrans; [exact G3|exact G4']).
  assert (grows d2 d4') as G24 by (etrans; [exact G3|exact G4']).
  split_and!; [done|done|by etrans|congruence|..].
  - exact (grows_events _ _ _ G14 Hev).
  - intros b Hb. eapply grows_session; [exact G24|by apply Hses].
  - exact (grows_session_volumes _ _ _ G4' Hsv).
  - destruct Hd4 as [->|[-> Hnil]]; [done|]. intros x Hx. rewrite Hnil in Hx. inv Hx.
Qed.

Lemma merge_tables_Ok names f s k d m w :
  catalog_wf k -> catalog_wf d -> carries s k -> named names k -> named names d -> is_Some (key_escrow d) ->
  exists n d' m' w', merge_tables f s (mkMerging (mkConn d d false) true m w) =
      (Ok n, mkMerging (mkConn d' d' false) true m' w') /\
    catalog_wf d' /\ grows d d' /\ named names d' /\ contains d' k /\ settled f k d m d' m'.
Proof.
  intros Wk Wd Hs Nk Nd He. unfold merge_tables. read_table Hs (ca_repositories s k Hs).
  destruct (inserted_rows into_repositories (fun _ => repository_rows s (repositories k)) _ d d false m w
    (put_repositories s k d Wd)) as (n1 & d1 & H1 & W1 & G1 & V1 & Hrepo).
  rewrite (eff_bind_Ok _ _ _ _ _ H1). read_table Hs (ca_locations s k Hs).
  destruct (inserted_rows into_locations (fun _ => locations k) _ d d1 true m w
    (put_locations k d1 W1)) as (n2 & d2 & H2 & W2 & G2 & V2 & Hloc).
  rewrite (eff_bind_Ok _ _ _ _ _ H2). read_table Hs (ca_packs s k Hs).
  rewrite (eff_bind_Ok _ _ _ (pruned_conflicts (packs k) d2) (mid d d2 m w)) by done.
  assert (forall r, r ∈ repositories k -> has_repo d2 (r_repo_id r) = true) as Hrepo2
    by (intros r Hr; eapply grows_repo; [done|by apply Hrepo]).
  destruct (inserted_rows into_packs (fun _ => packs k) _ d d2 true m w
    (put_packs k d2 Wk W2 Hrepo2)) as (n3 & d3 & H3 & W3 & G3 & V3 & Hpack).
  rewrite (eff_bind_Ok _ _ _ _ _ H3). read_table Hs (ca_volumes s k Hs).
  assert (volumes d3 = volumes d) as V3d by congruence.
  destruct (merge_volumes_Ok names f k d d3 m w) as (n5 & d5 & m5 & w5 & H5 & W5 & G5 & N5 & Hvol & Hset); [done..| |].
  { intros v Hv. rewrite V3d in Hv. by apply Nd. }
  rewrite (eff_bind_Ok _ _ _ _ _ H5). read_table Hs (ca_snapshots s k Hs).
  assert (grows d2 d5) as G25 by (etrans; [exact G3|exact G5]).
  destruct (inserted_rows into_snapshots (fun _ => snapshots k) _ d d5 true m5 w5
    (put_snapshots k d5 Wk W5 (fun r Hr => grows_repo _ _ _ G25 (Hrepo2 r Hr)))) as (n6 & d6 & H6 & W6 & G6 & V6 & Hsnap).
  rewrite (eff_bind_Ok _ _ _ _ _ H6). read_table Hs (ca_links s k Hs).
  assert (grows d3 d6) as G36 by (etrans; [exact G5|exact G6]).
  destruct (inserted_rows into_volume_packs (link_rows (volumes k) (packs k) (volume_packs k)) _ d d6 true m5 w5
    (put_links k d6 W6 (grows_volumes _ _ _ G6 Hvol) (grows_packs _ _ _ G36 Hpack))) as (n7 & d7 & H7 & W7 & G7 & V7 & Hlink).
  rewrite (eff_bind_Ok _ _ _ _ _ H7). read_table Hs (ca_copies s k Hs).
  assert (grows d5 d7) as G57 by (etrans; [exact G6|exact G7]).
  assert (grows d2 d7) as G27 by (etrans; [exact G25|exact G57]).
  destruct (inserted_rows into_volume_copies (copy_rows s (volumes k) (volume_copies k)) _ d d7 true m5 w5
    (put_copies s k d7 Wk W7 (grows_volumes _ _ _ G57 Hvol) (fun l Hl => grows_location _ _ _ G27 (Hloc l Hl))))
    as (n8 & d8 & H8 & W8 & G8 & V8 & Hcopy).
  rewrite (eff_bind_Ok _ _ _ _ _ H8).
  assert (grows d2 d8) as G28 by (etrans; [exact G27|exact G8]).
  assert (grows d5 d8) as G58 by (etrans; [exact G57|exact G8]).
  assert (grows d d8) as G08 by (etrans; [exact G1|]; etrans; [exact G2|exact G28]).
  destruct (merge_provenance_Ok s k d d8 m5 w5 Wk W8 Hs (gr_escrow _ _ G08 He) (grows_volumes _ _ _ G58 Hvol)
    (fun l Hl => grows_location _ _ _ G28 (Hloc l Hl))) as (n9 & d9 & H9 & W9 & G9 & V9 & Hev & Hses & Hsv & Hsp).
  rewrite (eff_bind_Ok _ _ _ _ _ H9). unfold on_target at 1, commit.
  assert (volumes d9 = volumes d5) as V95 by congruence.
  assert (forall x, grows x d8 -> grows x d9) as G89 by (intros x Hx; by etrans).
  eexists _, d9, m5, w5. split_and!; [reflexivity|done|by apply G89|..].
  - intros v Hv. rewrite V95 in Hv. by apply N5.
  - constructor; try done.
    + intros r Hr. eapply grows_repo; [apply G89, G28|by apply Hrepo2].
    + intros l Hl. eapply grows_location; [apply G89, G28|by apply Hloc].
    + eapply grows_packs; [|exact Hpack]. apply G89. etrans; [exact G5|exact G58].
    + eapply grows_volumes; [|exact Hvol]. by apply G89.
    + intros x Hx. eapply grows_snapshot; [|by apply Hsnap]. apply G89. etrans; [exact G7|exact G8].
    + eapply grows_links; [|exact Hlink]. by apply G89.
    + eapply grows_copies; [|exact Hcopy]. by apply G89.
  - intros v Hv. rewrite V95 in Hv. destruct (Hset v Hv) as [(sv & H)|(v0 & Hv0 & H)]; [left; exists sv|right; exists v0].
    + unfold mentions in *. by rewrite V3d in H.
    + by rewrite V3d in Hv0.
Qed.

Lemma merge_one_Ok names f s k d m w :
  catalog_wf k -> catalog_wf d -> carries s k -> named names k -> named names d -> is_Some (key_escrow d) ->
  exists n d' m' w', _merge_one_disc f (Some s) (mkMerging (mkConn d d false) false m w) =
      (Ok n, mkMerging (mkConn d' d' false) false m' w') /\
    catalog_wf d' /\ grows d d' /\ named names d' /\ contains d' k /\ settled f k d m d' m'.
Proof.
  intros Wk Wd Hs Nk Nd He. destruct (merge_tables_Ok names f s k d m w) as (n & d' & m' & w' & H & Hrest); [done..|].
  exists n, d', m', w'. split; [|done]. unfold _merge_one_disc.
  rewrite (eff_bind_Ok (attach (Some s)) _ _ s (mkMerging (mkConn d d false) true m w)) by done.
  unfold finally. by rewrite H.
Qed.

(** ** The discs, the freshest first *)

(** A disc whose catalog can be read and has the content [k]. *)
Definition holds_catalog (names : string -> string) (x : Disc) (k : Catalog) : Prop :=
  exists mtime s, catalog_db x = Some (mtime, Some s) /\ carries s k /\ catalog_wf k /\ named names k.

Section discs.
Variables (_parse_timestamp : string -> option Z) (names : string -> string) (output : Catalog) (content : Disc -> Catalog).
Hypotheses (Wo : catalog_wf output) (Eo : is_Some (key_escrow output)) (No : named names output).

Definition age (x : Disc) : Z := default 0 (disc_freshness _parse_timestamp x).
(** The freshness of what the output catalog says itself. *)
Definition output_age : option Z := max_created_at (volumes output) ≫= _parse_timestamp.

Lemma baseline_lookup u : mentions output u -> baseline _parse_timestamp output !! u = output_age.
Proof using.
  unfold mentions, baseline, output_age. destruct (max_created_at _ ≫= _) as [t|]; [|done].
  intros Hu. enough (forall m : gmap string Z,
    foldl (fun m v => <[uuid v := t]> m) m (volumes output) !! u = Some t) as H by apply H.
  induction (volumes output) as [|v l IH] using rev_ind; [inv Hu|]. intros m.
  rewrite foldl_app. cbn. rewrite fmap_app in Hu. apply elem_of_app in Hu.
  destruct (decide (uuid v = u)) as [->|Hne]; [by rewrite lookup_insert_eq|]. rewrite lookup_insert_ne by done.
  apply IH. destruct Hu as [Hu|Hu]; [done|]. apply list_elem_of_singleton in Hu. congruence.
Qed.

(** Where the status of the volumes of [u] comes from, when the discs of [l] are merged. *)
Definition from_disc (l : list Disc) (st u : string) (x : Disc) : Prop :=
  x ∈ l /\ (exists sv, sv ∈ volumes (content x) /\ uuid sv = u /\ st = status sv) /\
  (forall y, y ∈ l -> mentions (content y) u -> age y <= age x) /\
  (mentions output u -> forall b, output_age = Some b -> b < age x).
Definition from_output (l : list Disc) (st u : string) : Prop :=
  (exists v, v ∈ volumes output /\ uuid v = u /\ st = status v) /\
  forall y, y ∈ l -> mentions (content y) u -> exists b, output_age = Some b /\ age y <= b.

Record merged (l : list Disc) (d : Catalog) (m : gmap string Z) : Prop := {
  me_wf : catalog_wf d;
  me_grows : grows output d;
  me_named : named names d;
  me_contains x : x ∈ l -> contains d (content x);
  me_status v : v ∈ volumes d ->
    (exists x, from_disc l (status v) (uuid v) x /\ m !! uuid v = Some (age x)) \/
    from_output l (status v) (uuid v) /\ m !! uuid v = output_age;
}.

Lemma grows_mentions d d' u : grows d d' -> mentions d u -> mentions d' u.
Proof using.
  intros G (v & -> & Hv)%list_elem_of_fmap. destruct (grows_volume d d' v G Hv) as (v' & Hv' & Heq).
  apply list_elem_of_fmap. exists v'. split; [by rewrite Heq|done].
Qed.

Lemma merged_step l x d m d' m' :
  merged l d m -> (forall y, y ∈ l -> age x <= age y) -> catalog_wf d' -> grows d d' -> named names d' ->
  contains d' (content x) -> settled (age x) (content x) d m d' m' -> merged (l ++ [x]) d' m'.
Proof using.
  intros [W G N C S] Hsort W' G' N' C' Hset. constructor; [done|by etrans|done|..].
  - intros y [Hy| ->%list_elem_of_singleton]%elem_of_app; [|done]. eapply grows_contains; [exact G'|by apply C].
  - intros v' Hv'. destruct (Hset v' Hv') as [(sv & Hsv & Hu & Hst & Hm & Ht)|(v & Hv & Hu & Hst & Hm & Ht)].
    + left. exists x. split; [|done].
      (* what [d] said of the volume is older *)
      assert (mentions d (uuid v') -> (forall y, y ∈ l -> mentions (content y) (uuid v') -> age y < age x) /\
        forall b, mentions output (uuid v') -> output_age = Some b -> b < age x) as Hold.
      { intros Hd. specialize (Ht Hd). apply list_elem_of_fmap in Hd as (v & Hv & Hvd). rewrite Hv in *.
        destruct (S v Hvd) as [(z & (Hz & _ & _ & _) & Hmz)|[[_ Hy] Hmo]].
        - specialize (Hsort z Hz). rewrite Hmz in Ht. cbn in Ht. lia.
        - rewrite Hmo in Ht. split.
          + intros y Hyl Hym. destruct (Hy y Hyl Hym) as (b & Hb & Hle). rewrite Hb in Ht. cbn in Ht. lia.
          + intros b _ Hb. rewrite Hb in Ht. cbn in Ht. lia. }
      split_and!; [apply elem_of_app; right; by left|by exists sv|..].
      * intros y [Hy| ->%list_elem_of_singleton]%elem_of_app Hym; [|lia].
        assert (mentions d (uuid v')) as Hd.
        { apply list_elem_of_fmap in Hym as (u & -> & Hyu). destruct (ct_volumes _ _ (C y Hy) u Hyu) as (w & Hw & <-).
          by apply list_elem_of_fmap_2. }
        apply Hold in Hd as [Hd _]. specialize (Hd y Hy Hym). lia.
      * intros Ho b Hb. pose proof (grows_mentions _ _ _ G Ho) as Hd. apply Hold in Hd as [_ Hd]. by apply Hd.
    + rewrite Hst, Hm, <- Hu. rewrite <- Hu in Ht.
      destruct (S v Hv) as [(z & (Hz & Hzs & Hzl & Hzo) & Hmz)|[[Hy Hyl] Hmo]].
      * left. exists z. split; [|done]. split_and!; [apply elem_of_app; by left|done| |done].
        intros y [Hyl| ->%list_elem_of_singleton]%elem_of_app Hym; [by apply Hzl|by apply Hsort].
      * right. split; [|done]. split; [done|]. intros y [Hy'| ->%list_elem_of_singleton]%elem_of_app Hym; [by apply Hyl|].
        specialize (Ht Hym). rewrite Hmo in Ht. destruct output_age as [b|]; [|done]. exists b. cbn in Ht.
        split; [done|]. lia.
Qed.

Lemma merge_discs_Ok rest : forall l d m w r n,
  merged l d m -> (forall x, x ∈ rest -> holds_catalog names x (content x)) ->
  (forall x y, x ∈ rest -> y ∈ l -> age x <= age y) ->
  StronglySorted (fun x y => newest_disc_first _parse_timestamp x y = true) rest ->
  exists d' m' w' r' n', foldl (merge_disc _parse_timestamp) (mkMerging (mkConn d d false) false m w, r, n) rest =
      (mkMerging (mkConn d' d' false) false m' w', r', n') /\ merged (l ++ rest) d' m' /\
    errors r' = errors r /\ discs_processed r' = discs_processed r + len rest /\ discs_skipped r' = discs_skipped r.
Proof using Eo.
  induction rest as [|x rest IH]; intros l d m w r n Hl Hrest Hage Hsort; cbn [foldl].
  { exists d, m, w, r, n. rewrite app_nil_r, Z.add_0_r. by split_and!. }
  destruct (Hrest x ltac:(by left)) as (mt & s & Hx & Hs & Wk & Nk).
  assert (_source_freshness _parse_timestamp mt (Some s) = age x) as Hf by (unfold age, disc_freshness; by rewrite Hx).
  destruct (merge_one_Ok names (age x) s (content x) d m w) as (c & d1 & m1 & w1 & H1 & W1 & G1 & N1 & C1 & S1);
    [done|apply Hl|done|done|apply Hl|apply (gr_escrow _ _ (me_grows _ _ _ Hl)), Eo|].
  destruct (IH (l ++ [x]) d1 m1 w1 (add_counts c r) (n + n_is_pruned_conflicts c)) as (d' & m' & w' & r' & n' & H & Hm & He & Hp & Hk).
  - eapply merged_step; try done. intros y Hy. apply Hage; [by left|done].
  - intros y Hy. apply Hrest. by right.
  - intros y z Hy [Hz| ->%list_elem_of_singleton]%elem_of_app; [apply Hage; [by right|done]|].
    inversion Hsort as [|? ? _ Hall]; subst. rewrite Forall_forall in Hall. specialize (Hall y Hy).
    unfold newest_disc_first in Hall. unfold age. destruct (Hrest y ltac:(by right)) as (mt' & s' & Hy' & _).
    unfold disc_freshness in *. rewrite Hx, Hy' in *. cbn in *.
    destruct (Z.eqb_spec (_source_freshness _parse_timestamp mt (Some s)) (_source_freshness _parse_timestamp mt' (Some s'))); lia.
  - by inversion Hsort.
  - exists d', m', w', r', n'. rewrite <- app_assoc in Hm. cbn in *. split_and!; [|done|done|lia|lia].
    rewrite Hx, Hf, H1. exact H.
Qed.

Lemma rebuild_merged discs : (forall x, x ∈ discs -> holds_catalog names x (content x)) ->
  exists d m w n r, rebuild_catalog _parse_timestamp discs output = (with_warnings (if negb (n =? 0)
      then w ++ [PrunedDisagreements n] else w) r, d) /\ merged (order_by (newest_disc_first _parse_timestamp) discs) d m /\
    errors r = [] /\ discs_processed r = len discs /\ discs_skipped r = 0.
Proof using Wo Eo No.
  intros Hd. unfold rebuild_catalog.
  destruct (merge_discs_Ok (order_by (newest_disc_first _parse_timestamp) discs) [] output
    (baseline _parse_timestamp output) [] empty_result 0) as (d & m & w & r & n & H & Hm & He & Hp & Hk).
  - constructor; [done|done|done|by intros x Hx; inv Hx|]. intros v Hv. right. split.
    + split; [by exists v|]. intros y Hy. inv Hy.
    + apply baseline_lookup. by apply list_elem_of_fmap_2.
  - intros x Hx%elem_of_order_by. by apply Hd.
  - intros x y _ Hy. inv Hy.
  - apply order_by_sorted, le_ok_newest.
  - rewrite H. exists d, m, w, n, r. rewrite order_by_perm in Hp. by split_and!.
Qed.
End discs.


(** C26.  After a rebuild from such discs, all of which can be read, the status of every
    volume is the one of the freshest catalog that knows it, downgrades included: that of a
    disc no older than any other that has the volume, and newer than the output catalog if
    that had it; or the output catalog's own, if no disc that has the volume is newer. *)
Theorem rebuild_status_freshest parse names content discs output v :
  catalog_wf output -> is_Some (key_escrow output) -> named names output ->
  (forall x, x ∈ discs -> holds_catalog names x (content x)) ->
  v ∈ volumes (rebuild_catalog parse discs output).2 ->
  (exists x, from_disc parse output content discs (status v) (uuid v) x) \/
  from_output parse output content discs (status v) (uuid v).
Proof.
  intros Wo Eo No Hd. destruct (rebuild_merged parse names output content Wo Eo No discs Hd)
    as (d & m & w & n & r & -> & Hm & _). cbn. intros Hv.
  destruct (me_status _ _ _ _ _ _ _ Hm v Hv) as [(x & (Hx & Hs & Hall & Ho) & _)|[(Hs & Hall) _]].
  - left. exists x. apply elem_of_order_by in Hx. split_and!; [done..| |done].
    intros y Hy. apply Hall. by apply elem_of_order_by.
  - right. split; [done|]. intros y Hy. apply Hall. by apply elem_of_order_by.
Qed.
