(* ===== verification/RebuildFaults.v ===== *)
(** * Rebuilding the catalog: two faults

    A disc that cannot be merged takes all that come after it with it, and a volume whose
    label is taken is left out without a word. *)

From S2P Require Import Prelude Json Effects Sqlite Catalog VolumeEvents Queries Volumes Escrow Rebuild RebuildProps RebuildOrigin RebuildSpec.
Open Scope string_scope.
Open Scope list_scope.
Open Scope Z_scope.

(** ** A failed merge *)

(** Nothing is committed, and a transaction that is open stays open. *)
Definition holds_open (s s' : merging) : Prop :=
  committed (target s') = committed (target s) /\ attached s' = attached s /\
  (in_transaction (target s) = true -> in_transaction (target s') = true).
#[export] Instance holds_open_preorder : PreOrder holds_open.
Proof.
  split; [by intros s|]. intros s1 s2 s3 (H1 & H2 & H3) (H4 & H5 & H6). split_and!; [congruence..|tauto].
Qed.
Lemma open_bind {A B} (m : eff merging A) (f : A -> eff merging B) :
  Effects.preserves holds_open m -> (forall a, Effects.preserves holds_open (f a)) -> Effects.preserves holds_open (m ≫= f).
Proof. apply preserves_bind, _. Qed.
Lemma open_same {A} (r : res A) : Effects.preserves holds_open (lift r).
Proof. by intros s. Qed.
Lemma open_ret {A} (a : A) : Effects.preserves holds_open (mret a).
Proof. by intros s. Qed.
Lemma open_gets {A} (f : merging -> A) : Effects.preserves holds_open (gets f).
Proof. by intros s. Qed.
Lemma open_for_each {A} (m : A -> eff merging unit) l :
  (forall x, Effects.preserves holds_open (m x)) -> Effects.preserves holds_open (for_each m l).
Proof. apply preserves_for_each, _. Qed.
Lemma open_query {A} (f : Catalog -> A) : Effects.preserves holds_open (on_target (query f)).
Proof. by intros s. Qed.
Lemma open_execute {A} (f : Catalog -> res (A * Catalog)) : Effects.preserves holds_open (on_target (execute f)).
Proof. intros s. unfold on_target, execute. by destruct (f _) as [[a d]|e]. Qed.
Lemma open_update {A} (f : Catalog -> res (A * Catalog)) :
  Effects.preserves holds_open (on_target (_ ← execute f; mret tt)).
Proof. intros s. unfold on_target, mbind, db_bind, execute. by destruct (f _) as [[a d]|e]. Qed.
Lemma open_rows {R} (t : insertion R) rows : Effects.preserves holds_open (merge_rows t rows).
Proof. apply open_execute. Qed.
Create HintDb held.
#[export] Hint Resolve open_bind open_same open_ret open_gets open_for_each open_query open_execute open_update open_rows : held.
#[export] Hint Extern 1 (Effects.preserves holds_open (modify _)) => (intros ?; split_and!; [done|done|by intros]) : held.

Lemma open_settle f c : Effects.preserves holds_open (settle_status f c).
Proof.
  destruct c as [v st]. unfold settle_status. apply open_bind; [auto with held|intros last].
  destruct (match last with None => true | Some t => t <? f end); [|destruct (_ <? _); auto with held].
  apply open_bind; [destruct (negb _); auto with held|intro; auto with held].
Qed.
Lemma open_volumes f l : Effects.preserves holds_open (merge_volumes f l).
Proof. unfold merge_volumes. repeat (apply open_bind; [auto using open_settle with held|intro]). auto with held. Qed.
Lemma open_if_present {A} (o : option (list A)) m :
  (forall l, Effects.preserves holds_open (m l)) -> Effects.preserves holds_open (if_present o m).
Proof. destruct o; cbn; auto with held. Qed.
#[export] Hint Resolve open_volumes open_if_present : held.
Lemma open_provenance s svs : Effects.preserves holds_open (merge_provenance s svs).
Proof. unfold merge_provenance. repeat (apply open_bind; [auto with held|intro]). auto with held. Qed.
#[export] Hint Resolve open_provenance : held.

(** Once a transaction is open, a failure leaves it open. *)
Definition fails_open {A} (m : eff merging A) : Prop := forall s e s',
  in_transaction (target s) = true -> m s = (Err e, s') -> holds_open s s'.
Lemma fails_bind {A B} (m : eff merging A) (f : A -> eff merging B) :
  Effects.preserves holds_open m -> (forall a, fails_open (f a)) -> fails_open (m ≫= f).
Proof.
  intros Hm Hf s e s' Ht. specialize (Hm s). unfold mbind, eff_bind. destruct (m s) as [[a|e'] s1]; cbn in Hm.
  - intros H. etrans; [exact Hm|]. eapply Hf; [by apply Hm|exact H].
  - by intros [= _ <-].
Qed.

Lemma merge_tables_fails f src repos s e s' :
  from_table src "repositories" ["repo_id"; "name"; "mirror_path"; "encryption_key_id"; "created_at"]
    (src_repositories src) = Ok repos ->
  merge_tables f src s = (Err e, s') ->
  committed (target s') = committed (target s) /\ attached s' = attached s /\ in_transaction (target s') = true.
Proof.
  intros Hr. unfold merge_tables. rewrite Hr. rewrite (eff_bind_Ok _ _ _ repos s) by done.
  assert (exists r s1, merge_rows into_repositories (fun _ => repository_rows src repos) s = (r, s1) /\ holds_open s s1 /\
    in_transaction (target s1) = true) as (r & s1 & H1 & Ho & Ht).
  { pose proof (open_rows into_repositories (fun _ => repository_rows src repos) s) as Ho.
    unfold merge_rows, on_target, execute in *. destruct (insert_all _ _ _) as [[n d]|e1]; eauto. }
  intros H. enough (holds_open s1 s') as (Hc & Ha & Hi).
  { destruct Ho as (Hc' & Ha' & _). split_and!; [congruence..|by apply Hi]. }
  destruct r as [n|e1].
  - rewrite (eff_bind_Ok _ _ _ _ _ H1) in H. refine ((_ : fails_open _) s1 e s' Ht H).
    repeat (apply fails_bind; [solve [auto with held]|intro]). intros s0 e0 s2 _ H2. discriminate H2.
  - rewrite (eff_bind_Err _ _ _ _ _ H1) in H. injection H as _ <-. done.
Qed.

(** A merge that succeeds has committed. *)
Definition closes {A} (m : eff merging A) : Prop := forall s a s', m s = (Ok a, s') -> in_transaction (target s') = false.
Lemma closes_bind {A B} (m : eff merging A) (f : A -> eff merging B) : (forall a, closes (f a)) -> closes (m ≫= f).
Proof.
  intros Hf s b s'. unfold mbind, eff_bind. destruct (m s) as [[a|e] s1]; [apply Hf|done].
Qed.
Lemma merge_tables_closes f src : closes (merge_tables f src).
Proof.
  unfold merge_tables. do 16 (apply closes_bind; intro). intros s c s'. unfold mbind, eff_bind, on_target, commit. cbn.
  by intros [= _ <-].
Qed.

Section blocked.
Variable _parse_timestamp : string -> option Z.

Lemma attached_blocks l : forall s r n, attached s = true ->
  (foldl (merge_disc _parse_timestamp) (s, r, n) l).1.1 = s /\
  discs_processed (foldl (merge_disc _parse_timestamp) (s, r, n) l).1.2 = discs_processed r /\
  errors (foldl (merge_disc _parse_timestamp) (s, r, n) l).1.2 = errors r ++ (disc_path <$> l).
Proof.
  induction l as [|x l IH]; intros s r n Ha; cbn [foldl]; [by rewrite app_nil_r|].
  assert (exists r', merge_disc _parse_timestamp (s, r, n) x = (s, r', n) /\ discs_processed r' = discs_processed r /\
    errors r' = errors r ++ [disc_path x]) as (r' & -> & Hp & He).
  { exists (skip_disc (disc_path x) r). split_and!; [|done..]. unfold merge_disc. destruct (catalog_db x) as [[mt src]|]; [|done].
    unfold _merge_one_disc. rewrite (eff_bind_Err _ _ _ SqliteOperationalError s); [done|].
    unfold attach. by rewrite (eff_bind_Ok _ _ _ true s) by (unfold gets; by rewrite Ha). }
  destruct (IH s r' n Ha) as (-> & -> & ->). split_and!; [done..|]. rewrite He, <- app_assoc. done.
Qed.
End blocked.

(** C39.  A disc whose table of repositories can be read but whose merge fails, as that of a
    version that lacks a column, stays attached in an open transaction: neither it nor any
    disc after it is merged, every one of them is reported, and the catalog stays as it was
    before. *)
Theorem failed_merge_blocks parse s r n x mtime src repos e later :
  catalog_db x = Some (mtime, Some src) -> attached s = false ->
  from_table src "repositories" ["repo_id"; "name"; "mirror_path"; "encryption_key_id"; "created_at"]
    (src_repositories src) = Ok repos ->
  (_merge_one_disc (_source_freshness parse mtime (Some src)) (Some src) s).1 = Err e ->
  let '(s', r', _) := foldl (merge_disc parse) (s, r, n) (x :: later) in
  committed (target s') = committed (target s) /\ attached s' = true /\
  discs_processed r' = discs_processed r /\ errors r' = errors r ++ disc_path x :: (disc_path <$> later).
Proof.
  intros Hx Ha Hr He. cbn [foldl]. set (f := _source_freshness parse mtime (Some src)) in *.
  assert (exists e' s1, _merge_one_disc f (Some src) s = (Err e', s1) /\ committed (target s1) = committed (target s) /\
    attached s1 = true) as (e' & s1 & H1 & Hc & Ha1).
  { revert He. unfold _merge_one_disc.
    rewrite (eff_bind_Ok _ _ _ src (set_attached true s))
      by (unfold attach; by rewrite (eff_bind_Ok _ _ _ false s) by (unfold gets; by rewrite Ha)).
    unfold finally. destruct (merge_tables f src (set_attached true s)) as [[c|e1] s1] eqn:Hm.
    - unfold detach. rewrite (eff_bind_Ok _ _ _ false s1) by (unfold gets; by erewrite merge_tables_closes). done.
    - destruct (merge_tables_fails _ _ _ _ _ _ Hr Hm) as (Hc & Ha1 & Ht). unfold detach.
      rewrite (eff_bind_Ok _ _ _ true s1) by (unfold gets; by rewrite Ht). intros _.
      exists SqliteOperationalError, s1. by split_and!. }
  assert (merge_disc parse (s, r, n) x = (s1, skip_disc (disc_path x) r, n)) as ->
    by (unfold merge_disc; rewrite Hx; fold f; by rewrite H1).
  destruct (attached_blocks parse later s1 (skip_disc (disc_path x) r) n Ha1) as (Hs & Hp & Hes).
  destruct (foldl _ _ _) as [[s' r'] n']. cbn in *. subst s'. split_and!; [done..|]. by rewrite Hes, <- app_assoc.
Qed.

(** ** A label that is taken *)

Section clash.
Variables u lab : string.

(** The volume [u] is not there, but its label is. *)
Definition absent (d : Catalog) : Prop := u ∉ uuid <$> volumes d /\ lab ∈ label <$> volumes d.
Definition left_out (s s' : merging) : Prop :=
  absent (committed (target s)) /\ absent (current (target s)) ->
  absent (committed (target s')) /\ absent (current (target s')).
#[export] Instance left_out_preorder : PreOrder left_out.
Proof. split; [by intros s H|]. intros s1 s2 s3 H1 H2 H. by apply H2, H1. Qed.

Lemma absent_same d d' : volumes d' = volumes d -> absent d -> absent d'.
Proof. unfold absent. by intros ->. Qed.
Lemma absent_execute {A} (f : Catalog -> res (A * Catalog)) :
  (forall d a d', absent d -> f d = Ok (a, d') -> absent d') -> Effects.preserves left_out (on_target (execute f)).
Proof.
  intros Hf s [H1 H2]. unfold on_target, execute. destruct (f (current (target s))) as [[a d]|e] eqn:E; cbn; [|done].
  split; [done|]. by eapply Hf.
Qed.
Lemma absent_bind {A B} (m : eff merging A) (f : A -> eff merging B) :
  Effects.preserves left_out m -> (forall a, Effects.preserves left_out (f a)) -> Effects.preserves left_out (m ≫= f).
Proof. apply preserves_bind, _. Qed.
Lemma absent_lift {A} (r : res A) : Effects.preserves left_out (lift r).
Proof. by intros s H. Qed.
Lemma absent_lift_bind {A B} (r : res A) (f : A -> eff merging B) :
  (forall a, r = Ok a -> Effects.preserves left_out (f a)) -> Effects.preserves left_out (lift r ≫= f).
Proof. intros Hf s H. destruct r as [a|e]; [by apply (Hf a eq_refl)|exact H]. Qed.
Lemma absent_ret {A} (a : A) : Effects.preserves left_out (mret a).
Proof. by intros s H. Qed.
Lemma absent_gets {A} (f : merging -> A) : Effects.preserves left_out (gets f).
Proof. by intros s H. Qed.
Lemma absent_query {A} (f : Catalog -> A) : Effects.preserves left_out (on_target (query f)).
Proof. by intros s H. Qed.
Lemma absent_commit : Effects.preserves left_out (on_target commit).
Proof. by intros s [H1 H2]. Qed.
Lemma absent_modify f : (forall s, target (f s) = target s) -> Effects.preserves left_out (modify f).
Proof. intros Hf s H. cbn. by rewrite Hf. Qed.
Lemma absent_for_each {A} (m : A -> eff merging unit) l :
  (forall x, Effects.preserves left_out (m x)) -> Effects.preserves left_out (for_each m l).
Proof. apply preserves_for_each, _. Qed.
Lemma absent_rows {R} (t : insertion R) rows : (forall r d, volumes (append t r d) = volumes d) ->
  (forall d, volumes (passed_over t d) = volumes d) -> Effects.preserves left_out (merge_rows t rows).
Proof.
  intros Ha Hp. apply absent_execute. intros d n d' H Hi. eapply (insert_all_ind t absent); [exact H| | |exact Hi].
  - intros r d1 _ H1 _. eapply absent_same; [apply Hp|done].
  - intros r d1 _ H1 _ _. eapply absent_same; [apply Ha|done].
Qed.
Lemma absent_if_present {A} (o : option (list A)) m :
  (forall l, Effects.preserves left_out (m l)) -> Effects.preserves left_out (if_present o m).
Proof. destruct o; cbn; auto using absent_ret. Qed.

Lemma absent_volumes l : (forall v, v ∈ l -> uuid v = u -> label v = lab) ->
  Effects.preserves left_out (merge_rows into_volumes (fun _ => l)).
Proof.
  intros Hl. apply absent_execute. intros d n d' H Hi. eapply (insert_all_ind into_volumes absent); [exact H| | |exact Hi].
  - intros v d1 _ H1 _. exact H1.
  - intros v d1 Hv [Hu Hlab] Hg _. cbn in *. apply orb_false_iff in Hg as [Hg _]. rewrite exists_row_false in Hg.
    apply list_elem_of_fmap in Hlab as (w & Hwl & Hw). specialize (Hg w Hw). unfold absent. cbn. rewrite !fmap_app.
    split; [|apply elem_of_app; left; apply list_elem_of_fmap; by exists w].
    intros [?| ->%list_elem_of_singleton]%elem_of_app; [done|]. apply orb_false_iff in Hg as [Hg _].
    apply sql_eq_false in Hg. apply Hg. rewrite <- Hwl. symmetry. by apply Hl.
Qed.
Lemma absent_status p st d n d' : absent d -> update_volumes p (set_status st) d = Ok (n, d') -> absent d'.
Proof.
  unfold update_volumes, absent. intros H Hu. apply bind_Ok_inv in Hu as (x & _ & [= _ <-]). cbn.
  by rewrite !update_where_key.
Qed.
Lemma absent_settle f c : Effects.preserves left_out (settle_status f c).
Proof.
  destruct c as [v st]. unfold settle_status. apply absent_bind; [apply absent_gets|intros last].
  destruct (match last with None => true | Some t => t <? f end).
  - apply absent_bind; [|intro; by apply absent_modify]. destruct (negb _); [|apply absent_ret]. intros s H.
    pose proof (absent_execute (update_volumes (fun w => sql_eq (volume_id w) (volume_id v)) (set_status st))) as He.
    specialize (He (fun d n d' => absent_status _ _ d n d') s H). revert He. unfold on_target, mbind, db_bind.
    by destruct (execute _ (target s)) as [[a|e] c'].
  - destruct (_ <? _); [by apply absent_modify|apply absent_ret].
Qed.

Lemma absent_provenance s svs : Effects.preserves left_out (merge_provenance s svs).
Proof.
  unfold merge_provenance. repeat (apply absent_bind; [apply absent_if_present; intros l|intro]); [..|apply absent_ret];
    (apply absent_bind; [apply absent_lift|intros rows]); [by apply absent_rows..|].
  apply absent_execute. intros d n d' H Hu. eapply absent_same; [|exact H]. revert Hu. unfold upsert_splits.
  generalize 0. revert d H. induction rows as [|x rows IH]; intros d H z; cbn [foldM]; [by intros [= _ <-]|].
  intros Hu. apply bind_Ok_inv in Hu as ([z1 d1] & H1 & Hu). apply upsert_one_Ok in H1 as [w Hw]. cbn in Hw.
  assert (volumes d1 = volumes d) as Hv.
  { unfold upsert_split in Hw. destruct (key_escrow d); [|done]. by injection Hw as _ <-. }
  rewrite <- Hv. eapply IH; [|exact Hu]. by eapply absent_same.
Qed.

Lemma absent_tables f s : (forall v, v ∈ default [] (src_volumes s) -> uuid v = u -> label v = lab) ->
  Effects.preserves left_out (merge_tables f s).
Proof.
  intros Hs. unfold merge_tables.
  do 7 (apply absent_bind; [first [apply absent_lift|by apply absent_rows|apply absent_query]|intro]).
  apply absent_lift_bind. intros svs El.
  assert (forall v, v ∈ svs -> uuid v = u -> label v = lab) as Hl.
  { unfold from_table in El. destruct (src_volumes s) as [l|]; [|done]. destruct (existsb _ _); [done|].
    injection El as <-. exact Hs. }
  apply absent_bind; [unfold merge_volumes|intro].
  - apply absent_bind; [apply absent_query|intro]. apply absent_bind; [by apply absent_volumes|intro].
    apply absent_bind; [apply absent_for_each; intros; by apply absent_modify|intro].
    apply absent_bind; [apply absent_for_each, absent_settle|intro]. apply absent_ret.
  - repeat (apply absent_bind; [first [apply absent_lift|by apply absent_rows|apply absent_provenance|apply absent_commit]|intro]).
    apply absent_ret.
Qed.
Lemma absent_merge f src :
  (forall s v, src = Some s -> v ∈ default [] (src_volumes s) -> uuid v = u -> label v = lab) ->
  Effects.preserves left_out (_merge_one_disc f src).
Proof.
  intros Hs st H. unfold _merge_one_disc. destruct (attached st) eqn:Ea.
  { rewrite (eff_bind_Err _ _ _ SqliteOperationalError st); [exact H|].
    unfold attach. by rewrite (eff_bind_Ok _ _ _ true st) by (unfold gets; by rewrite Ea). }
  destruct src as [s|].
  - rewrite (eff_bind_Ok _ _ _ s (set_attached true st))
      by (unfold attach; by rewrite (eff_bind_Ok _ _ _ false st) by (unfold gets; by rewrite Ea)).
    unfold finally. pose proof (absent_tables f s (fun v => Hs s v eq_refl) (set_attached true st) H) as Ht.
    destruct (merge_tables f s (set_attached true st)) as [r s1]. unfold detach, mbind, eff_bind, gets.
    destruct (in_transaction (target s1)); exact Ht.
  - rewrite (eff_bind_Err _ _ _ SqliteDatabaseError st); [exact H|].
    unfold attach. by rewrite (eff_bind_Ok _ _ _ false st) by (unfold gets; by rewrite Ea).
Qed.
End clash.

(** A volume whose label the output catalog has under another uuid is not in the
    result of a rebuild, whichever discs carry it under that label: neither it, nor where
    its copies are, nor which packs are on it, is merged. *)
Theorem clashing_label_left_out parse discs output u lab :
  u ∉ uuid <$> volumes output -> lab ∈ label <$> volumes output ->
  (forall x mtime s v, x ∈ discs -> catalog_db x = Some (mtime, Some s) -> v ∈ default [] (src_volumes s) ->
     uuid v = u -> label v = lab) ->
  u ∉ uuid <$> volumes (rebuild_catalog parse discs output).2.
Proof.
  intros Hu Hlab Hd. unfold rebuild_catalog.
  enough (forall l st, (forall x, x ∈ l -> x ∈ discs) ->
    absent u lab (committed (target st.1.1)) /\ absent u lab (current (target st.1.1)) ->
    absent u lab (committed (target (foldl (merge_disc parse) st l).1.1))) as H.
  { specialize (H (order_by (newest_disc_first parse) discs)
      (mkMerging (mkConn output output false) false (baseline parse output) [], empty_result, 0)).
    destruct (foldl _ _ _) as [[s r] n]. cbn in *. apply H; [|by split]. intros x. by rewrite elem_of_order_by. }
  induction l as [|x l IH]; intros [[s r] n] Hin H; cbn [foldl]; [apply H|].
  apply IH; [intros y Hy; apply Hin; by right|]. unfold merge_disc.
  destruct (catalog_db x) as [[mt src]|] eqn:Ex; [|exact H].
  pose proof (absent_merge u lab (_source_freshness parse mt src) src) as Hm.
  specialize (Hm (fun s0 v Hs => Hd x mt s0 v (Hin x ltac:(by left)) ltac:(by rewrite Ex, Hs)) s H).
  by destruct (_merge_one_disc _ _ _) as [[c|e] s'].
Qed.

(** ** Concrete rebuilds *)

(** Days since 2026, of the dates used here. *)
Definition demo_clock (t : string) : option Z :=
  if String.eqb t "2026-01-01" then Some 0 else if String.eqb t "2026-06-01" then Some 151 else None.
Definition demo_volume (i : Z) (lab u st created : string) : Volume :=
  mkVolume i lab u "BD25" 1000 10 "Home" st created None None.
(** A catalog with one repository, one pack and the volume [v] with one disc. *)
Definition demo_disc_catalog (v : Volume) (sha : string) : Catalog :=
  mkCatalog [v] [mkPack 1 sha 10 "r1" false "2026-01-01"] [mkRepository "r1" "photos" "/m" "" "2026-01-01" "active"]
    [mkVolumePack (volume_id v) 1] [] [mkLocation "Home" "2026-01-01" ""]
    [mkVolumeCopy 1 (volume_id v) "Home" "ACTIVE" "2026-01-01" "" None None "" None] [] [] [] (volume_id v) 1 1 0 (Some []).
Definition source_of (k : Catalog) (missing : list (string * string)) : Source :=
  mkSource (Some (repositories k)) (Some (locations k)) (Some (packs k)) (Some (volumes k)) (Some (snapshots k))
    (Some (volume_packs k)) (Some (volume_copies k)) (Some (volume_events k)) (Some (burn_sessions k))
    (Some (session_volumes k)) (key_escrow k) missing.

(** The first disc was burned with the volume verified, a later one after it was
    deprecated. *)
Definition early : Catalog := demo_disc_catalog (demo_volume 1 "V1" "u1" "VERIFIED" "2026-01-01") "aa".
Definition late : Catalog := demo_disc_catalog (demo_volume 7 "V1" "u1" "DEPRECATED" "2026-06-01") "bb".
Definition demo_discs : list Disc :=
  [mkDisc "/mnt/1" (Some (10, Some (source_of early []))); mkDisc "/mnt/2" (Some (20, Some (source_of late [])))].
Definition demo_content (x : Disc) : Catalog := if String.eqb (disc_path x) "/mnt/1" then early else late.
Definition demo_names (l : string) : string := if String.eqb l "V1" then "u1" else "".

Lemma demo_disc_wf v sha : status v ∈ VOLUME_STATUSES -> catalog_wf (demo_disc_catalog v sha).
Proof.
  intros Hv. constructor; cbn;
    first [apply NoDup_singleton|by apply NoDup_nil_2|by apply Forall_nil_2|apply Forall_singleton; cbn|done];
    repeat split; first [lia|exact Hv|by left].
Qed.
Lemma carries_source k missing : missing ⊆ PROBED -> carries (source_of k missing) k.
Proof. by constructor. Qed.
Lemma demo_discs_ok x : x ∈ demo_discs -> holds_catalog demo_names x (demo_content x).
Proof.
  unfold demo_discs. rewrite !elem_of_cons. intros [->|[->|Hx]]; [..|inv Hx].
  - exists 10, (source_of early []). split_and!; [done|apply carries_source; by intros c Hc; inv Hc|apply demo_disc_wf; by apply (bool_decide_unpack _)|].
    by intros v ->%list_elem_of_singleton.
  - exists 20, (source_of late []). split_and!; [done|apply carries_source; by intros c Hc; inv Hc|apply demo_disc_wf; by apply (bool_decide_unpack _)|].
    by intros v ->%list_elem_of_singleton.
Qed.

Lemma rebuild_safe_witness : catalog_wf empty_catalog /\
  catalog_wf (rebuild_catalog demo_clock demo_discs empty_catalog).2.
Proof.
  split; [apply empty_catalog_wf|].
  pose proof (rebuild_safe demo_clock demo_discs empty_catalog empty_catalog_wf) as H.
  destruct (rebuild_catalog _ _ _). apply H.
Defined.
Lemma rebuild_order_independent_witness :
  rebuild_catalog demo_clock demo_discs empty_catalog = rebuild_catalog demo_clock (rev demo_discs) empty_catalog.
Proof.
  apply rebuild_order_independent; [apply Permutation_rev|].
  unfold demo_discs. intros x y. rewrite !elem_of_cons.
  intros [->|[->|Hx]] [->|[->|Hy]] Hp; try done; by inv Hx || inv Hy.
Defined.
Lemma rebuild_status_freshest_witness : exists v,
  v ∈ volumes (rebuild_catalog demo_clock demo_discs empty_catalog).2 /\
  ((exists x, from_disc demo_clock empty_catalog demo_content demo_discs (status v) (uuid v) x) \/
   from_output demo_clock empty_catalog demo_content demo_discs (status v) (uuid v)).
Proof.
  eexists. split; [vm_compute; left|].
  apply (rebuild_status_freshest demo_clock demo_names demo_content demo_discs empty_catalog); [apply empty_catalog_wf|by eexists|
    by intros v Hv; inv Hv|apply demo_discs_ok|vm_compute; left].
Defined.

(** The catalog of a disc of version 3, whose table of discs has no hashes yet; beside it
    the first disc, which is older still. *)
Definition version_3 : Disc :=
  mkDisc "/mnt/3" (Some (200, Some (source_of late [("volume_copies", "iso_sha256"); ("volume_copies", "last_verified_at")]))).
Definition one_bad : list Disc := version_3 :: demo_discs.
Definition demo_start : merging := mkMerging (mkConn empty_catalog empty_catalog false) false ∅ [].

Lemma failed_merge_blocks_witness :
  let '(s', r', _) := foldl (merge_disc demo_clock) (demo_start, empty_result, 0) (version_3 :: rev demo_discs) in
  committed (target s') = empty_catalog /\ errors r' = ["/mnt/3"; "/mnt/2"; "/mnt/1"].
Proof.
  pose proof (failed_merge_blocks demo_clock demo_start empty_result 0 version_3 200
    (source_of late [("volume_copies", "iso_sha256"); ("volume_copies", "last_verified_at")]) (repositories late)
    SqliteOperationalError (rev demo_discs) eq_refl eq_refl eq_refl ltac:(vm_compute; reflexivity)) as H.
  destruct (foldl _ _ _) as [[s' r'] n']. destruct H as (H1 & _ & _ & H2). split; [exact H1|]. by rewrite H2.
Defined.
(** The two good discs alone are merged; with the bad one nothing is. *)
Example one_bad_disc_loses_all :
  len (volumes (rebuild_catalog demo_clock demo_discs empty_catalog).2) = 1 /\
  volumes (rebuild_catalog demo_clock one_bad empty_catalog).2 = [] /\
  errors (rebuild_catalog demo_clock one_bad empty_catalog).1 = ["/mnt/3"; "/mnt/2"; "/mnt/1"].
Proof. vm_compute. by split_and!. Qed.

(** The label V1 given again, after the catalog was lost, to another volume. *)
Definition relabelled : Catalog := demo_disc_catalog (demo_volume 1 "V1" "u9" "BURNED" "2026-06-01") "cc".
Lemma clashing_label_left_out_witness :
  "u1" ∉ uuid <$> volumes (rebuild_catalog demo_clock demo_discs relabelled).2 /\
  rebuild_ok (rebuild_catalog demo_clock demo_discs relabelled).1 = true /\
  warnings (rebuild_catalog demo_clock demo_discs relabelled).1 = [].
Proof.
  split; [|vm_compute; by split]. apply (clashing_label_left_out _ _ _ _ "V1").
  - by apply (bool_decide_unpack _).
  - by apply (bool_decide_unpack _).
  - unfold demo_discs. intros x mt s v Hx. rewrite !elem_of_cons in Hx. destruct Hx as [->|[->|Hx]]; [..|inv Hx];
      intros [= <- <-] ->%list_elem_of_singleton; done.
Defined.
