(* ===== verification/BinPlan.v ===== *)
(** * Planning the volumes of a burn session

    What [BurnOrchestrator.stage] decides before it writes anything: which packs to stage
    ([_gather_packs_for_staging]), how they are split over volumes ([_multi_bin_pack]) and
    how much staging space that takes (burn/orchestrator.py, with the ladder of
    ecc/dvdisaster.py). *)

From S2P Require Import Prelude Sqlite Catalog Queries BinPack.
Open Scope string_scope.
Open Scope list_scope.
Open Scope Z_scope.

(** ** Which packs *)

(** [if for_location:], [if repo_ids:]: an empty one is none. *)
Definition _gather_packs_for_staging (for_location : option string) (repo_ids : option (list string))
    (d : Catalog) : list Pack :=
  let repos := default [] repo_ids in
  let loc := default EmptyString for_location in
  if sql_eq loc EmptyString then
    match repos with
    | [] => get_unarchived_packs d None
    | _ :: _ => rid ← repos; get_unarchived_packs d (Some rid)
    end
  else
    let ps := get_unarchived_or_missing_at_location d loc in
    match repos with
    | [] => ps
    | _ :: _ => where_ (fun p => sql_in (repo_id p) repos) ps
    end.

(** ** Which volumes *)

Definition as_item (p : Pack) : item := (sha256 p, size_bytes p).
Abbreviation VolumePlan := (list Pack * Z)%type.

(** One pass of [while remaining_packs]: the selected packs, their size, the others. *)
Definition fill_volume (capacity reserved : Z) (remaining : list Pack) : list item * list Pack * list Pack :=
  let selected := (first_fit_decreasing (as_item <$> remaining) capacity reserved).1 in
  let hashes := selected.*1 in
  (selected, where_ (fun p => sql_in (sha256 p) hashes) remaining,
   where_ (fun p => negb (sql_in (sha256 p) hashes)) remaining).

(** [None] is out of fuel. *)
Fixpoint multi_bin_pack_loop (fuel : nat) (capacity reserved : Z) (remaining : list Pack) :
    option (res (list VolumePlan)) :=
  match remaining, fuel with
  | [], _ => Some (Ok [])
  | _, O => None
  | _, S fuel =>
      let '(items, selected, rest) := fill_volume capacity reserved remaining in
      match items with
      | [] => Some (Err ValueError)
      | _ :: _ =>
          match multi_bin_pack_loop fuel capacity reserved rest with
          | Some (Ok plans) => Some (Ok ((selected, total items) :: plans))
          | r => r
          end
      end
  end.
(** Every pass takes a pack away. *)
Definition _multi_bin_pack (ps : list Pack) (m : MediaType) (metadata_reserve : Z) :
    option (res (list VolumePlan)) :=
  multi_bin_pack_loop (length ps) (usable_bytes m) metadata_reserve ps.

(** [prepare], which fills one volume only. *)
Definition prepare_selection (m : MediaType) (metadata_reserve : Z) (repo_ids : option (list string))
    (d : Catalog) : res VolumePlan :=
  let all_unarchived := _gather_packs_for_staging None repo_ids d in
  match all_unarchived with
  | [] => Err ValueError
  | _ :: _ =>
      let '(selected_items, remaining_items) :=
        first_fit_decreasing (as_item <$> all_unarchived) (usable_bytes m) metadata_reserve in
      let usable := usable_bytes m - metadata_reserve in
      if exists_row (fun p => (usable <? size_bytes p) && sql_in (sha256 p) remaining_items.*1) all_unarchived
      then Err ValueError
      else
        match selected_items with
        | [] => Err ValueError
        | _ :: _ => Ok (where_ (fun p => sql_in (sha256 p) selected_items.*1) all_unarchived, total selected_items)
        end
  end.

(** [stage], up to the dry run *)
Definition stage_plan (m : MediaType) (metadata_reserve : Z) (for_location : option string)
    (repo_ids pack_sha256s : option (list string)) (d : Catalog) : option (res (list VolumePlan)) :=
  let ps := _gather_packs_for_staging for_location repo_ids d in
  let ps := match pack_sha256s with
            | Some l => where_ (fun p => sql_in (sha256 p) l) ps
            | None => ps end in
  match ps with
  | [] => Some (Err ValueError)
  | _ :: _ => _multi_bin_pack ps m metadata_reserve
  end.

(** ** How much space *)

Definition RS03_MEDIUM_LADDER_BYTES : list Z :=
  [737280000; 4700372992; 8543666176; 25025314816; 50050629632; 100103356416].
Fixpoint first_fitting (n : Z) (ladder : list Z) : res Z :=
  match ladder with
  | [] => Err ValueError
  | x :: ladder => if n <=? x then Ok x else first_fitting n ladder
  end.
Definition smallest_fitting_medium_bytes (image_bytes : Z) : res Z :=
  first_fitting image_bytes RS03_MEDIUM_LADDER_BYTES.

(** The product of an integer and a double, rounded to 53 bits, halves to even. *)
Definition round53 (a : Z) : Z :=
  if a <? 2 ^ 53 then a
  else let s := Z.log2 a - 52 in round_half_even a (2 ^ s) * 2 ^ s.
(** [int(n * 1.05)]: the double 1.05 is 4728779608739021 / 2^52. *)
Definition int_times_1_05 (n : Z) : Z := round53 (round53 n * 4728779608739021) / 2 ^ 52.

Definition apply_ecc (m : MediaType) : bool := 0 <? ecc_overhead_pct m.
Definition padded_iso (m : MediaType) (metadata_reserve vol_bytes : Z) : res Z :=
  let est_iso := int_times_1_05 vol_bytes + metadata_reserve in
  if apply_ecc m then smallest_fitting_medium_bytes est_iso else Ok est_iso.
Fixpoint add_volumes (m : MediaType) (metadata_reserve : Z) (plans : list VolumePlan)
    (required_bytes max_padded_iso : Z) : res (Z * Z) :=
  match plans with
  | [] => Ok (required_bytes, max_padded_iso)
  | (_, vol_bytes) :: plans =>
      match padded_iso m metadata_reserve vol_bytes with
      | Ok padded =>
          add_volumes m metadata_reserve plans (required_bytes + (vol_bytes + metadata_reserve + padded))
            (Z.max max_padded_iso padded)
      | Err e => Err e
      end
  end.
Definition required_space (m : MediaType) (metadata_reserve : Z) (plans : list VolumePlan) : res Z :=
  match add_volumes m metadata_reserve plans 0 0 with
  | Ok (required_bytes, max_padded_iso) =>
      Ok (if apply_ecc m then required_bytes + max_padded_iso else required_bytes)
  | Err e => Err e
  end.
(** The check against [shutil.disk_usage(staging_path).free] *)
Definition check_space (m : MediaType) (metadata_reserve : Z) (plans : list VolumePlan) (free : Z) : res unit :=
  match required_space m metadata_reserve plans with
  | Ok required => if free <? required then Err OSError else Ok tt
  | Err e => Err e
  end.

(** ** Lemmas *)

Abbreviation shas l := (sha256 <$> l) (only parsing).
Abbreviation sizes l := (sumZ (size_bytes <$> l)) (only parsing).

Lemma as_item_fst ps : (as_item <$> ps).*1 = shas ps.
Proof. rewrite <- list_fmap_compose. by apply list_fmap_ext. Qed.
Lemma total_as_item ps : total (as_item <$> ps) = sizes ps.
Proof. unfold total. rewrite <- list_fmap_compose. by f_equal. Qed.
Lemma where_split {A} (p : A -> bool) l : where_ p l ++ where_ (fun x => negb (p x)) l ≡ₚ l.
Proof.
  induction l as [|x l IH]; [done|]. cbn. destruct (p x); cbn; [by f_equiv|].
  by rewrite <- Permutation_middle, IH.
Qed.

(** What one call of [first_fit_decreasing] gives on any items. *)
Lemma ffd_facts items capacity reserved : Forall (fun x => 0 <= x.2) items ->
  let '(selected, remaining) := first_fit_decreasing items capacity reserved in
  selected ++ remaining ≡ₚ items /\ total selected <= Z.max 0 (capacity - reserved) /\
  (0 < capacity - reserved -> forall x, x ∈ remaining -> capacity - reserved < total selected + x.2).
Proof.
  intros Hpos. unfold first_fit_decreasing. set (u := capacity - reserved).
  destruct (Z.leb_spec u 0); [split_and!; [done|cbn; lia|lia]|].
  pose proof (ffd_fold_inv u (order_by item_order items) [] ([], [], 0)
    ltac:(by rewrite order_by_perm)) as [Hp Hf Hfit Hr _].
  { constructor; cbn; [done|done|lia| |done]. intros x Hx. by inv Hx. }
  destruct (foldl _ _ _) as [[sel rest] fill]. cbn [fst snd app] in *. subst fill.
  split_and!; [by rewrite Hp, order_by_perm|lia|auto].
Qed.

(** What is selected stays selected. *)
Lemma ffd_fold_grows u l sel rest fill :
  exists l', (foldl (ffd_step u) (sel, rest, fill) l).1.1 = sel ++ l' /\ l' ⊆ l.
Proof.
  revert sel rest fill. induction l as [|x l IH]; intros; cbn.
  { exists []. by rewrite app_nil_r. }
  destruct (fill + x.2 <=? u).
  - destruct (IH (sel ++ [x]) rest (fill + x.2)) as (l' & -> & Hl). exists (x :: l').
    rewrite <- app_assoc. split; [done|set_solver].
  - destruct (IH sel (rest ++ [x]) fill) as (l' & -> & Hl). exists l'. split; [done|set_solver].
Qed.
Lemma total_nonneg l : Forall (fun x : item => 0 <= x.2) l -> 0 <= total l.
Proof. unfold total, sumZ. induction 1; cbn in *; lia. Qed.

(** When every item fits an empty volume, the largest is selected. *)
Lemma ffd_takes_largest items capacity reserved x :
  Forall (fun y => 0 <= y.2 <= capacity - reserved) items -> 0 < capacity - reserved -> x ∈ items ->
  let selected := (first_fit_decreasing items capacity reserved).1 in
  selected <> [] /\ x.2 <= total selected.
Proof.
  intros Hf Hu Hx. unfold first_fit_decreasing. set (u := capacity - reserved) in *.
  rewrite (proj2 (Z.leb_gt u 0)) by done.
  pose proof (order_by_sorted item_order items item_order_ok) as Hs.
  pose proof (order_by_perm item_order items) as Hp. rewrite <- Hp in Hf, Hx.
  destruct (order_by item_order items) as [|y l]; [by inv Hx|].
  apply Sorted.StronglySorted_inv in Hs as [_ Hle]. apply Forall_cons in Hf as [Hy Hf].
  cbn. rewrite (proj2 (Z.leb_le (0 + y.2) u)) by lia.
  destruct (ffd_fold_grows u l [y] [] (0 + y.2)) as (l' & Hl & Hsub).
  destruct (foldl _ _ _) as [[sel rest] fill]. cbn in *. subst sel. split; [done|].
  assert (0 <= total l').
  { apply total_nonneg. apply Forall_forall. intros z Hz.
    rewrite Forall_forall in Hf. by apply Hf, Hsub. }
  change (x.2 <= y.2 + total l').
  apply elem_of_cons in Hx as [->|Hx]; [lia|].
  rewrite Forall_forall in Hle. specialize (Hle x Hx). unfold item_order, lex in Hle.
  destruct (Z.compare_spec (- y.2) (- x.2)); [lia|lia|done].
Qed.

(** One pass over packs with distinct hashes: it splits them, and the bytes it reports are
    those of the packs it selects. *)
Lemma fill_volume_facts capacity reserved ps :
  NoDup (shas ps) -> Forall (fun p => 0 <= size_bytes p) ps ->
  let '(items, selected, rest) := fill_volume capacity reserved ps in
  as_item <$> selected ≡ₚ items /\ selected ++ rest ≡ₚ ps /\
  total items = sizes selected /\ total items <= Z.max 0 (capacity - reserved) /\
  (0 < capacity - reserved -> Forall (fun p => capacity - reserved < total items + size_bytes p) rest).
Proof.
  intros Hnd Hpos. unfold fill_volume.
  pose proof (ffd_facts (as_item <$> ps) capacity reserved) as Hf.
  destruct (first_fit_decreasing _ _ _) as [items remaining]. cbn [fst].
  destruct Hf as (Hp & Htot & Hrest).
  { apply Forall_fmap. eapply Forall_impl; [exact Hpos|]. done. }
  assert (NoDup (items.*1 ++ remaining.*1)) as Hn.
  { rewrite <- fmap_app, Hp, as_item_fst. done. }
  apply NoDup_app in Hn as (Hni & Hdis & _).
  assert (as_item <$> where_ (fun p => sql_in (sha256 p) items.*1) ps ≡ₚ items) as Heq.
  { apply NoDup_Permutation.
    - apply (NoDup_fmap_1 fst). rewrite as_item_fst. by apply where_NoDup_key.
    - by eapply NoDup_fmap_1.
    - intros x. split.
      + intros (p & -> & Hin)%list_elem_of_fmap. sql. destruct Hin as [(y & E & Hy)%list_elem_of_fmap Hin].
        assert (y ∈ as_item <$> ps) as (q & -> & Hq)%list_elem_of_fmap by (rewrite <- Hp; set_solver).
        cbn in E. by rewrite (key_unique sha256 ps p q).
      + intros Hx. assert (x ∈ as_item <$> ps) as (p & -> & Hin)%list_elem_of_fmap by (rewrite <- Hp; set_solver).
        apply list_elem_of_fmap_2. sql. split; [|done]. by apply (list_elem_of_fmap_2 fst) in Hx. }
  assert (total items = sizes (where_ (fun p => sql_in (sha256 p) items.*1) ps)) as Ht.
  { rewrite <- total_as_item. unfold total. by rewrite Heq. }
  split_and!; [done|apply where_split|done|done|].
  intros Hu. apply Forall_forall. intros p Hin. sql. destruct Hin as [Hno Hin].
  apply (Hrest Hu (as_item p)).
  assert (as_item p ∈ items ++ remaining) as [Hi|]%elem_of_app; [|exfalso|done].
  - rewrite Hp. by apply list_elem_of_fmap_2.
  - apply Hno. by apply (list_elem_of_fmap_2 fst) in Hi.
Qed.

(** What a list of plans is: a partition of the packs into non-empty volumes within the
    usable capacity, every volume but the last more than half full. *)
Record planned (usable : Z) (ps : list Pack) (plans : list VolumePlan) : Prop := {
  pl_partition : concat plans.*1 ≡ₚ ps;
  pl_volume : Forall (fun pl : VolumePlan => pl.1 <> [] /\ pl.2 = sizes pl.1 /\ 0 <= pl.2 <= usable) plans;
  pl_half : Forall (fun pl : VolumePlan => usable < 2 * pl.2) (removelast plans);
}.

Lemma sizes_nonneg ps : Forall (fun p => 0 <= size_bytes p) ps -> 0 <= sizes ps.
Proof. unfold sumZ. induction 1; cbn in *; lia. Qed.
Lemma sizes_member ps p : Forall (fun p => 0 <= size_bytes p) ps -> p ∈ ps -> size_bytes p <= sizes ps.
Proof.
  intros Hf. induction Hf as [|q l Hq Hl IH]; intros Hp; [by inv Hp|].
  pose proof (sizes_nonneg l Hl). change (sizes (q :: l)) with (size_bytes q + sizes l).
  apply elem_of_cons in Hp as [->|Hp]; [lia|]. specialize (IH Hp). lia.
Qed.

(** The first selection of a pass. *)
Lemma fill_volume_stuck capacity reserved p ps :
  Forall (fun p => 0 <= size_bytes p) (p :: ps) -> 0 < capacity - reserved ->
  Forall (fun p => size_bytes p <= capacity - reserved) (p :: ps) ->
  let items := (first_fit_decreasing (as_item <$> p :: ps) capacity reserved).1 in
  items <> [] /\ forall q, q ∈ p :: ps -> size_bytes q <= total items.
Proof.
  intros H0 Hu H1.
  assert (Forall (fun y : item => 0 <= y.2 <= capacity - reserved) (as_item <$> p :: ps)) as Hf.
  { apply Forall_fmap. apply Forall_forall. intros q Hq. rewrite Forall_forall in H0, H1.
    cbn. auto. }
  split.
  - eapply (ffd_takes_largest _ _ _ (as_item p)); [done|done|by left].
  - intros q Hq. eapply (ffd_takes_largest _ _ _ (as_item q)); [done|done|].
    by apply list_elem_of_fmap_2.
Qed.

Definition fits (usable : Z) (ps : list Pack) : Prop :=
  ps = [] \/ 0 < usable /\ Forall (fun p => size_bytes p <= usable) ps.
#[export] Instance fits_dec usable ps : Decision (fits usable ps).
Proof. unfold fits. apply _. Defined.

Lemma planned_fits usable ps plans : Forall (fun p => 0 <= size_bytes p) ps -> 0 < usable ->
  planned usable ps plans -> fits usable ps.
Proof.
  intros H0 Hu [Hp Hv _]. right. split; [done|]. apply Forall_forall. intros p Hin.
  rewrite <- Hp in Hin. apply list_elem_of_In, in_concat in Hin as (l & Hl%list_elem_of_In & Hin%list_elem_of_In).
  apply list_elem_of_fmap in Hl as ([l' n] & -> & Hpl). rewrite Forall_forall in Hv.
  destruct (Hv _ Hpl) as (_ & E & Hn). cbn [fst snd] in *. rewrite E in Hn.
  enough (size_bytes p <= sizes l') by lia. apply sizes_member; [|done].
  apply Forall_forall. intros q Hq. rewrite Forall_forall in H0. apply H0. rewrite <- Hp.
  apply list_elem_of_In, in_concat. exists l'. split; apply list_elem_of_In; [|done].
  by apply (list_elem_of_fmap_2 fst) in Hpl.
Qed.

Lemma planned_nil usable : planned usable [] [] /\ fits usable [].
Proof. split; [constructor; by try constructor|by left]. Qed.
Lemma planned_cons usable ps selected rest plans :
  0 <= sizes selected <= usable -> selected <> [] -> selected ++ rest ≡ₚ ps ->
  Forall (fun p => usable < sizes selected + size_bytes p) rest ->
  Forall (fun p => size_bytes p <= sizes selected) rest ->
  planned usable rest plans -> planned usable ps ((selected, sizes selected) :: plans).
Proof.
  intros Hs Hne Hp Hfull Hbig [Hpart Hvol Hhalf]. constructor.
  - cbn. by rewrite Hpart.
  - by constructor.
  - destruct plans as [|pl plans]; [constructor|]. cbn [removelast]. constructor; [|done].
    destruct rest as [|q rest]; [|inv Hfull; inv Hbig; cbn [snd]; lia].
    apply Forall_cons in Hvol as [[Hpl _] _]. cbn in Hpart.
    destruct pl.1; [done|]. by apply symmetry, Permutation_nil_cons in Hpart.
Qed.
Lemma fits_sub usable ps rest : rest ⊆ ps -> fits usable ps -> fits usable rest.
Proof.
  intros Hs [->|[Hu Hf]].
  - left. destruct rest as [|q rest]; [done|]. specialize (Hs q ltac:(by left)). by inv Hs.
  - right. split; [done|]. rewrite Forall_forall in *. auto.
Qed.

Lemma multi_bin_pack_loop_facts capacity reserved fuel ps :
  NoDup (shas ps) -> Forall (fun p => 0 <= size_bytes p) ps -> (length ps <= fuel)%nat ->
  exists r, multi_bin_pack_loop fuel capacity reserved ps = Some r /\
    match r with
    | Ok plans => planned (capacity - reserved) ps plans /\ fits (capacity - reserved) ps
    | Err e => e = ValueError /\ ~ fits (capacity - reserved) ps
    end.
Proof.
  revert ps. induction fuel as [|fuel IH]; intros ps Hnd H0 Hfuel.
  { destruct ps; [|cbn in Hfuel; lia]. eexists. split; [done|]. apply planned_nil. }
  destruct ps as [|p ps]; [eexists; split; [done|]; apply planned_nil|].
  cbn [multi_bin_pack_loop].
  pose proof (fill_volume_facts capacity reserved (p :: ps) Hnd H0) as Hv.
  pose proof (fill_volume_stuck capacity reserved p ps H0) as Hs.
  unfold fill_volume in *. set (items := (first_fit_decreasing _ _ _).1) in *.
  set (selected := where_ (fun p => sql_in _ _) (p :: ps)) in *.
  set (rest := where_ (fun p => negb _) (p :: ps)) in *.
  destruct Hv as (Hi & Hp & Ht & Hcap & Hrest). set (u := capacity - reserved) in *.
  destruct items as [|x items'] eqn:Eitems.
  { eexists. split; [done|]. split; [done|]. intros [?|[Hu Hf]]; [done|].
    by destruct (Hs Hu Hf). }
  assert (selected <> []) as Hne.
  { intros E. rewrite E in Hi. cbn in Hi. by apply Permutation_nil_cons in Hi. }
  assert (0 < u) as Hu.
  { destruct (decide (0 < u)); [done|]. exfalso. unfold items in Eitems.
    unfold first_fit_decreasing in Eitems. fold u in Eitems.
    by rewrite (proj2 (Z.leb_le u 0)) in Eitems by lia. }
  assert (NoDup (shas rest)) as Hnr by (by apply where_NoDup_key).
  assert (Forall (fun p => 0 <= size_bytes p) rest /\ Forall (fun p => 0 <= size_bytes p) selected) as [Hr0 Hs0].
  { split; apply Forall_forall; intros q Hq; rewrite Forall_forall in H0; apply H0; rewrite <- Hp; set_solver. }
  destruct (IH rest Hnr Hr0) as (r & -> & Hr).
  { apply Permutation_length in Hp. rewrite length_app in Hp. destruct selected; [done|].
    cbn in Hp, Hfuel |- *. lia. }
  destruct r as [plans|e]; eexists; (split; [done|]).
  - destruct Hr as [Hplans Hfits].
    assert (fits u (p :: ps)) as Hall.
    { right. split; [done|]. rewrite <- Hp. apply Forall_app. split.
      - apply Forall_forall. intros q Hq. pose proof (sizes_member selected q Hs0 Hq). lia.
      - by destruct Hfits as [->|[_ ?]]. }
    split; [|done]. destruct Hall as [?|[_ Hall]]; [done|].
    rewrite Ht in *. apply (planned_cons u _ _ rest); [|done|done|auto| |done].
    + pose proof (sizes_nonneg selected Hs0). lia.
    + destruct (Hs Hu Hall) as [_ Hbig]. apply Forall_forall. intros q Hq. apply Hbig.
      rewrite <- Hp. set_solver.
  - destruct Hr as [-> Hno]. split; [done|]. intros Hfits. apply Hno. eapply fits_sub; [|done].
    rewrite <- Hp. set_solver.
Qed.

(** ** The packs *)

Definition wanted (d : Catalog) (for_location : option string) (repo_ids pack_sha256s : option (list string))
    (p : Pack) : Prop :=
  p ∈ packs d /\ is_pruned p = false /\
  (let l := default EmptyString for_location in
   if sql_eq l EmptyString then _HAS_DURABLE_LINK d p = false else pack_id p ∉ get_packs_at_location d l) /\
  (default [] repo_ids = [] \/ repo_id p ∈ default [] repo_ids) /\
  (forall l, pack_sha256s = Some l -> sha256 p ∈ l).

Lemma NoDup_order_by {A K} (key : A -> K) le l : NoDup (key <$> l) -> NoDup (key <$> order_by le l).
Proof. by rewrite order_by_perm. Qed.

Lemma elem_of_unarchived d repo p : p ∈ get_unarchived_packs d repo <->
  p ∈ packs d /\ is_pruned p = false /\ _HAS_DURABLE_LINK d p = false /\ in_repo repo p = true.
Proof. unfold get_unarchived_packs, unarchived. rewrite elem_of_order_by. sql. tauto. Qed.
Lemma in_repo_Some r p : r <> EmptyString -> in_repo (Some r) p = true <-> repo_id p = r.
Proof.
  intros Hr. unfold in_repo. destruct (sql_eq r EmptyString) eqn:E; by sql.
Qed.

Lemma gather_wanted d loc repos p : EmptyString ∉ default [] repos ->
  p ∈ _gather_packs_for_staging loc repos d <-> wanted d loc repos None p.
Proof.
  intros Hne. unfold _gather_packs_for_staging, wanted. cbv zeta.
  destruct (sql_eq (default EmptyString loc) EmptyString) eqn:El.
  - destruct (default [] repos) as [|r l] eqn:Er.
    + rewrite elem_of_unarchived. cbn. naive_solver.
    + rewrite list_elem_of_bind. setoid_rewrite elem_of_unarchived. split.
      * intros (rid & (?&?&?&Hin) & Hrid). apply in_repo_Some in Hin; [|by intros ->].
        subst rid. split_and!; auto. done.
      * intros (?&?&?&[?|Hin]&_); [done|]. exists (repo_id p). split; [|done]. split_and!; auto.
        apply in_repo_Some; [|done]. by intros E; rewrite E in Hin.
  - unfold get_unarchived_or_missing_at_location.
    destruct (default [] repos) as [|r l] eqn:Er; rewrite ?elem_of_where, elem_of_order_by;
      sql; naive_solver.
Qed.
Lemma gather_NoDup d loc repos : catalog_wf d -> EmptyString ∉ default [] repos ->
  NoDup (default [] repos) -> NoDup (shas (_gather_packs_for_staging loc repos d)).
Proof.
  intros W Hne Hnd. pose proof (wf_pack_sha d W) as Hsha.
  unfold _gather_packs_for_staging, get_unarchived_or_missing_at_location.
  destruct (sql_eq _ _); destruct (default [] repos) as [|r l] eqn:Er.
  - unfold get_unarchived_packs. by apply NoDup_order_by, where_NoDup_key.
  - clear Er. induction (r :: l) as [|x xs IH]; [constructor|]. apply NoDup_cons in Hnd as [Hx Hnd].
    rewrite bind_cons, fmap_app. apply NoDup_app. split_and!.
    + unfold get_unarchived_packs. by apply NoDup_order_by, where_NoDup_key.
    + intros s (p & -> & Hp)%list_elem_of_fmap (q & E & Hq)%list_elem_of_fmap.
      apply elem_of_unarchived in Hp as (Hp & _ & _ & Hrp).
      apply list_elem_of_bind in Hq as (y & Hq & Hy). apply elem_of_unarchived in Hq as (Hq & _ & _ & Hrq).
      apply in_repo_Some in Hrp; [|set_solver]. apply in_repo_Some in Hrq; [|set_solver].
      assert (p = q) as <- by (by eapply (key_unique sha256)). apply Hx. by rewrite <- Hrp, Hrq.
    + apply IH; [set_solver|done].
  - by apply NoDup_order_by, where_NoDup_key.
  - by apply where_NoDup_key, NoDup_order_by, where_NoDup_key.
Qed.

(** ** Lemmas on the space *)

Lemma first_fitting_spec n ladder :
  match first_fitting n ladder with
  | Ok x => x ∈ ladder /\ n <= x
  | Err e => e = ValueError /\ forall x, x ∈ ladder -> x < n
  end.
Proof.
  induction ladder as [|y ladder IH]; cbn; [split; [done|]; intros x Hx; by inv Hx|].
  destruct (Z.leb_spec n y); [split; [by left|done]|].
  destruct (first_fitting n ladder); [destruct IH; split; [by right|done]|].
  destruct IH as [-> IH]. split; [done|]. intros x [->|Hx]%elem_of_cons; [done|auto].
Qed.
(** The ladder ascends, so the rung found is the least that fits. *)
Lemma first_fitting_least n ladder x y : StronglySorted Z.le ladder ->
  first_fitting n ladder = Ok x -> y ∈ ladder -> n <= y -> x <= y.
Proof.
  induction ladder as [|z ladder IH]; cbn; [done|]. intros Hs. inv Hs.
  destruct (Z.leb_spec n z); intros E [->|Hy]%elem_of_cons Hn; simplify_eq; try lia; auto.
  rewrite Forall_forall in *. auto.
Qed.
Lemma ladder_ascends : StronglySorted Z.le RS03_MEDIUM_LADDER_BYTES.
Proof. repeat constructor; vm_compute; discriminate. Qed.
Lemma capacity_on_ladder m : apply_ecc m = true -> capacity_bytes m ∈ RS03_MEDIUM_LADDER_BYTES.
Proof.
  intros H. destruct m; try discriminate; apply (bool_decide_unpack _); vm_compute; exact I.
Qed.

Lemma round53_bounds a : 0 <= a -> a * (2 ^ 53 - 1) <= round53 a * 2 ^ 53 <= a * (2 ^ 53 + 1).
Proof.
  intros Ha. unfold round53. destruct (Z.ltb_spec a (2 ^ 53)); [lia|].
  pose proof (Z.log2_spec a ltac:(lia)) as [Hlo _].
  assert (53 <= Z.log2 a) by (apply Z.log2_le_pow2; lia).
  set (b := 2 ^ (Z.log2 a - 52)) in *.
  assert (0 < b) as Hb by (apply Z.pow_pos_nonneg; lia).
  assert (b * 2 ^ 52 <= a) as Hba.
  { unfold b. rewrite <- Z.pow_add_r by lia. by replace (Z.log2 a - 52 + 52) with (Z.log2 a) by lia. }
  pose proof (round_half_even_bounds a b Hb Ha) as [_ Hhi].
  assert (2 * a - b <= 2 * (round_half_even a b * b)); [|nia].
  clear Hhi. unfold round_half_even. pose proof (Z.div_mod a b ltac:(lia)) as Hd.
  pose proof (Z.mod_pos_bound a b Hb). pose proof (Z.mod_pos_bound (a / b) 2 ltac:(lia)).
  destruct (Z.compare_spec (2 * (a mod b)) b); nia.
Qed.
Lemma int_times_1_05_bounds n : 0 <= n -> n <= int_times_1_05 n /\ 100 * int_times_1_05 n <= 106 * n.
Proof.
  intros Hn. unfold int_times_1_05. pose proof (round53_bounds n Hn) as H1.
  set (a := round53 n) in *. assert (0 <= a) by nia.
  pose proof (round53_bounds (a * 4728779608739021) ltac:(nia)) as H2.
  set (b := round53 (a * _)) in *.
  pose proof (Z.div_mod b (2 ^ 52) ltac:(lia)) as Hd. pose proof (Z.mod_pos_bound b (2 ^ 52) ltac:(lia)).
  set (q := b / 2 ^ 52) in *. lia.
Qed.

(** With the error-correcting data the image of a planned volume still fits the medium it was
    planned for; without, its size is the estimate. *)
Lemma usable_below m : apply_ecc m = true -> 100 * usable_bytes m <= 85 * capacity_bytes m.
Proof. intros H. destruct m; vm_compute in H |- *; discriminate. Qed.
Lemma padded_iso_fits m reserve vol_bytes :
  apply_ecc m = true -> 0 <= reserve -> 0 <= vol_bytes <= usable_bytes m - reserve ->
  exists n, padded_iso m reserve vol_bytes = Ok n /\ n ∈ RS03_MEDIUM_LADDER_BYTES /\
    vol_bytes + reserve <= n <= capacity_bytes m.
Proof.
  intros Hm Hr Hv. unfold padded_iso, smallest_fitting_medium_bytes. rewrite Hm.
  pose proof (int_times_1_05_bounds vol_bytes ltac:(lia)) as [Hlo Hhi].
  pose proof (usable_below m Hm) as Hu. set (est := int_times_1_05 vol_bytes + reserve).
  pose proof (capacity_on_ladder m Hm) as Hc.
  pose proof (first_fitting_spec est RS03_MEDIUM_LADDER_BYTES) as Hf.
  pose proof (first_fitting_least est RS03_MEDIUM_LADDER_BYTES) as Hl.
  assert (est <= capacity_bytes m) as Hest.
  { assert (0 <= capacity_bytes m) by (by destruct m). subst est. lia. }
  destruct (first_fitting _ _) as [n|e].
  - destruct Hf as [Hn Hge]. exists n. split_and!; [done|done|lia|].
    by eapply Hl; [exact ladder_ascends|done|..].
  - destruct Hf as [_ Hf]. specialize (Hf _ Hc). lia.
Qed.

(** The budget: for every volume its data, the reserve and its image; and once more the
    largest image, where it is augmented. *)
Definition budgeted (m : MediaType) (reserve : Z) (plans : list VolumePlan) (required : Z) : Prop :=
  exists images, Forall2 (fun (pl : VolumePlan) n => padded_iso m reserve pl.2 = Ok n) plans images /\
    required = sumZ ((fun pl : VolumePlan => pl.2 + reserve) <$> plans) + sumZ images +
               (if apply_ecc m then foldr Z.max 0 images else 0).
Lemma add_volumes_spec m reserve plans req mx images :
  Forall2 (fun (pl : VolumePlan) n => padded_iso m reserve pl.2 = Ok n) plans images ->
  add_volumes m reserve plans req mx =
    Ok (req + sumZ ((fun pl : VolumePlan => pl.2 + reserve) <$> plans) + sumZ images,
        foldr Z.max mx images).
Proof.
  intros Hf. revert req mx. induction Hf as [|[ps n] i plans images Hi Hf IH]; intros; cbn.
  { f_equal. f_equal. lia. }
  cbn in Hi. rewrite Hi, IH. f_equal. f_equal; [cbn [snd]; unfold sumZ; lia|].
  clear. induction images as [|j images IH]; cbn; [lia|]. rewrite IH. lia.
Qed.
Lemma required_space_budgeted m reserve plans images :
  Forall2 (fun (pl : VolumePlan) n => padded_iso m reserve pl.2 = Ok n) plans images ->
  exists required, required_space m reserve plans = Ok required /\ budgeted m reserve plans required.
Proof.
  intros Hf. unfold required_space. rewrite (add_volumes_spec _ _ _ _ _ images Hf).
  eexists. split; [done|]. exists images. split; [done|]. destruct (apply_ecc m); lia.
Qed.
Lemma planned_budget m reserve ps plans :
  0 <= reserve -> planned (usable_bytes m - reserve) ps plans ->
  exists images, Forall2 (fun (pl : VolumePlan) n => padded_iso m reserve pl.2 = Ok n) plans images /\
    (apply_ecc m = true -> Forall (fun n => n ∈ RS03_MEDIUM_LADDER_BYTES /\ n <= capacity_bytes m) images).
Proof.
  intros Hr [_ Hv _]. induction Hv as [|pl plans (_ & _ & Hpl) Hv (images & Hf & Hi)]; [by exists []|].
  destruct (apply_ecc m) eqn:Hm.
  - destruct (padded_iso_fits m reserve pl.2 Hm Hr Hpl) as (n & E & Hn & _ & Hc).
    exists (n :: images). split; [by constructor|]. intros _. constructor; auto.
  - eexists (_ :: images). split; [|done]. constructor; [|done]. unfold padded_iso. by rewrite Hm.
Qed.

Lemma planned_count usable ps plans n : 0 < usable -> planned usable ps plans ->
  1 <= n -> sizes ps <= n * usable -> len plans <= 2 * n.
Proof.
  intros Hu [Hp Hv Hh] Hn Hs.
  assert (sumZ (snd <$> plans) <= n * usable) as Htot.
  { rewrite <- Hp in Hs. enough (sumZ (snd <$> plans) = sizes (concat plans.*1)) by lia.
    clear -Hv. induction Hv as [|pl plans (_ & E & _) Hv IH]; [done|]. cbn [fmap list_fmap concat].
    rewrite fmap_app, sumZ_app, <- IH, <- E. done. }
  enough ((len plans - 1) * usable <= 2 * sumZ (snd <$> plans) /\ (2 <= len plans ->
    (len plans - 1) * usable < 2 * sumZ (snd <$> plans))) as [? ?] by nia.
  clear Hp Hs Hn Htot. induction Hv as [|pl plans (_ & _ & Hpl) Hv IH]; [cbn; lia|].
  change (sumZ (snd <$> pl :: plans)) with (pl.2 + sumZ (snd <$> plans)).
  destruct plans as [|pl' plans]; [cbn; lia|].
  cbn [removelast] in Hh. apply Forall_cons in Hh as [Hh Hh']. specialize (IH Hh').
  cbn [length] in *. lia.
Qed.

Lemma ffd_nothing items capacity reserved : capacity - reserved <= 0 ->
  first_fit_decreasing items capacity reserved = ([], items).
Proof. intros H. unfold first_fit_decreasing. by rewrite (proj2 (Z.leb_le _ 0)). Qed.

Lemma prepare_selection_lemma m reserve repos d :
  let ps := _gather_packs_for_staging None repos d in
  let usable := usable_bytes m - reserve in
  NoDup (shas ps) -> Forall (fun p => 0 <= size_bytes p) ps ->
  match prepare_selection m reserve repos d with
  | Ok (selected, n) => selected <> [] /\ selected ⊆ ps /\ n = sizes selected /\ n <= usable /\
      fits usable ps /\ (forall p, p ∈ ps -> p ∈ selected \/ usable < n + size_bytes p)
  | Err e => e = ValueError /\ (ps = [] \/ ~ fits usable ps)
  end.
Proof.
  cbv zeta. intros Hnd H0. unfold prepare_selection.
  destruct (_gather_packs_for_staging None repos d) as [|p ps]; [by auto|].
  pose proof (fill_volume_facts (usable_bytes m) reserve (p :: ps) Hnd H0) as Hv.
  pose proof (fill_volume_stuck (usable_bytes m) reserve p ps H0) as Hstuck.
  pose proof (ffd_facts (as_item <$> p :: ps) (usable_bytes m) reserve) as Hffd.
  pose proof (ffd_nothing (as_item <$> p :: ps) (usable_bytes m) reserve) as Hnothing.
  unfold fill_volume in Hv. set (u := usable_bytes m - reserve) in *.
  destruct (first_fit_decreasing _ _ _) as [items remaining]. cbn [fst snd] in *.
  destruct Hffd as (Hperm & Hcap & Hrest).
  { apply Forall_fmap. eapply Forall_impl; [exact H0|]. done. }
  destruct Hv as (Hi & Hp & Ht & _ & Hbeside).
  set (selected := where_ (fun p => sql_in (sha256 p) items.*1) (p :: ps)) in *.
  destruct (exists_row _ (p :: ps)) eqn:Ebig.
  { apply exists_row_true in Ebig as (q & Hq & [Hlt _]%andb_true_iff). split; [done|]. right.
    intros [?|[_ Hf]]; [done|]. rewrite Forall_forall in Hf. specialize (Hf q Hq). lia. }
  destruct items as [|x items'] eqn:Eitems.
  { split; [done|]. right. intros [?|[Hu Hf]]; [done|]. by destruct (Hstuck Hu Hf). }
  assert (0 < u) as Hu.
  { destruct (Z.lt_ge_cases 0 u); [done|]. by specialize (Hnothing ltac:(lia)). }
  assert (Forall (fun p => 0 <= size_bytes p) selected) as Hs0.
  { apply Forall_forall. intros q Hq. rewrite Forall_forall in H0. apply H0. rewrite <- Hp. set_solver. }
  assert (forall q, q ∈ p :: ps -> q ∈ selected \/
            sha256 q ∈ remaining.*1 /\ u < total (x :: items') + size_bytes q) as Hcase.
  { intros q Hq. destruct (sql_in (sha256 q) (x :: items').*1) eqn:Eq.
    - left. unfold selected. by rewrite elem_of_where.
    - right. specialize (Hbeside Hu). rewrite Forall_forall in Hbeside. split.
      + apply sql_in_false in Eq. assert (sha256 q ∈ (as_item <$> p :: ps).*1) as Hin.
        { rewrite as_item_fst. by apply list_elem_of_fmap_2. }
        rewrite <- Hperm, fmap_app in Hin. apply elem_of_app in Hin as [?|?]; done.
      + apply Hbeside. rewrite elem_of_where, Eq. done. }
  split_and!; [|rewrite <- Hp; set_solver|done|lia| |].
  - intros E. rewrite E in Hi. cbn in Hi. by apply Permutation_nil_cons in Hi.
  - right. split; [done|]. apply Forall_forall. intros q Hq.
    destruct (Hcase q Hq) as [Hsel|[Hrem _]].
    + pose proof (sizes_member selected q Hs0 Hsel). lia.
    + pose proof (proj1 (exists_row_false _ _) Ebig q Hq) as Hno.
      apply andb_false_iff in Hno as [Hno|Hno%sql_in_false]; [lia|done].
  - intros q Hq. destruct (Hcase q Hq) as [?|[_ ?]]; auto.
Qed.

Lemma stage_plan_facts m reserve loc repos hashes d :
  catalog_wf d -> Forall (fun p => 0 <= size_bytes p) (packs d) -> 0 <= reserve ->
  EmptyString ∉ default [] repos -> NoDup (default [] repos) ->
  let usable := usable_bytes m - reserve in
  exists r, stage_plan m reserve loc repos hashes d = Some r /\
    match r with
    | Ok plans =>
        NoDup (concat plans.*1) /\
        (forall p, p ∈ concat plans.*1 <-> wanted d loc repos hashes p) /\
        Forall (fun pl => pl.1 <> [] /\ pl.2 = sizes pl.1 /\ 0 <= pl.2 <= usable) plans /\
        Forall (fun pl => usable < 2 * pl.2) (removelast plans) /\
        (forall n, 1 <= n -> sizes (concat plans.*1) <= n * usable -> len plans <= 2 * n) /\
        (exists required, budgeted m reserve plans required /\
          forall free, check_space m reserve plans free = if free <? required then Err OSError else Ok tt) /\
        (apply_ecc m = true -> Forall (fun pl => exists n,
           padded_iso m reserve pl.2 = Ok n /\ n ∈ RS03_MEDIUM_LADDER_BYTES /\ n <= capacity_bytes m) plans)
    | Err e => e = ValueError /\
        ((forall p, ~ wanted d loc repos hashes p) \/ usable <= 0 \/
         exists p, wanted d loc repos hashes p /\ usable < size_bytes p)
    end.
Proof.
  intros W H0 Hr Hne Hnd usable. unfold stage_plan.
  set (ps := match hashes with Some l => where_ _ _ | None => _ end).
  assert (forall p, p ∈ ps <-> wanted d loc repos hashes p) as Hps.
  { intros p. pose proof (gather_wanted d loc repos p Hne) as Hg. unfold wanted in *. subst ps.
    destruct hashes; [rewrite elem_of_where, sql_in_true|]; rewrite Hg; naive_solver. }
  assert (NoDup (shas ps)) as Hsha.
  { subst ps. destruct hashes; [apply where_NoDup_key|]; by apply gather_NoDup. }
  assert (Forall (fun p => 0 <= size_bytes p) ps) as Hpos.
  { apply Forall_forall. intros p Hp. rewrite Forall_forall in H0. by apply H0, Hps. }
  destruct ps as [|p0 ps'] eqn:Eps.
  { eexists. split; [done|]. split; [done|]. left. intros p Hp%Hps. by inv Hp. }
  destruct (multi_bin_pack_loop_facts (usable_bytes m) reserve (length (p0 :: ps')) (p0 :: ps')
    Hsha Hpos (le_n _)) as (r & Hloop & Hr').
  exists r. split; [exact Hloop|]. destruct r as [plans|e].
  - destruct Hr' as [Hpl [?|[Hu Hfit]]]; [done|]. pose proof Hpl as [Hpart Hvol Hhalf].
    destruct (planned_budget m reserve _ _ Hr Hpl) as (images & Hf & Hlad).
    destruct (required_space_budgeted m reserve plans images Hf) as (required & Hreq & Hbud).
    split_and!; [|intros p; by rewrite Hpart|done|done| | |].
    + rewrite Hpart. by eapply NoDup_fmap_1.
    + intros n. rewrite Hpart. by apply planned_count.
    + exists required. split; [done|]. intros free. unfold check_space. by rewrite Hreq.
    + intros Hm. specialize (Hlad Hm). clear -Hf Hlad.
      induction Hf as [|pl n plans images E Hf IH]; [done|]. inv Hlad. constructor; [|by apply IH].
      exists n. done.
  - destruct Hr' as [-> Hno]. split; [done|]. right.
    destruct (Z.lt_ge_cases 0 usable) as [Hu|]; [|by left]. right.
    destruct (decide (Forall (fun p => size_bytes p <= usable) (p0 :: ps'))) as [Hall|Hex].
    + destruct Hno. by right.
    + apply not_Forall_Exists, Exists_exists in Hex as (p & Hp & Hlt); [|apply _].
      exists p. rewrite <- Hps. split; [done|]. exact (proj1 (Z.nle_gt _ _) Hlt).
Qed.

(** ** Properties *)

(** C18.  The plan of a burn session.  The planning loop terminates, and what it
    plans is right: when there is something to stage and every pack that is wanted fits the
    usable capacity of the medium, the volumes planned hold every wanted pack once and no
    other pack; no volume is empty or beyond the usable capacity, every volume but
    the last is more than half full, and the number of volumes is at most twice what any
    other distribution needs; and the space check that follows finds for each volume an image
    that, error correction included, fits one disc of the medium, so it raises nothing but the
    lack of space.  Otherwise planning raises [ValueError]. *)
Theorem stage_plan_spec m reserve loc repos hashes d :
  catalog_wf d -> Forall (fun p => 0 <= size_bytes p) (packs d) -> 0 <= reserve ->
  EmptyString ∉ default [] repos -> NoDup (default [] repos) ->
  let usable := usable_bytes m - reserve in
  exists r, stage_plan m reserve loc repos hashes d = Some r /\
    match r with
    | Ok plans =>
        NoDup (concat plans.*1) /\
        (forall p, p ∈ concat plans.*1 <-> wanted d loc repos hashes p) /\
        Forall (fun pl => pl.1 <> [] /\ pl.2 = sizes pl.1 /\ 0 <= pl.2 <= usable) plans /\
        Forall (fun pl => usable < 2 * pl.2) (removelast plans) /\
        (forall n, 1 <= n -> sizes (concat plans.*1) <= n * usable -> len plans <= 2 * n) /\
        (exists required, budgeted m reserve plans required /\
          forall free, check_space m reserve plans free = if free <? required then Err OSError else Ok tt) /\
        (apply_ecc m = true -> Forall (fun pl => exists n,
           padded_iso m reserve pl.2 = Ok n /\ n ∈ RS03_MEDIUM_LADDER_BYTES /\ n <= capacity_bytes m) plans)
    | Err e => e = ValueError /\
        ((forall p, ~ wanted d loc repos hashes p) \/ usable <= 0 \/
         exists p, wanted d loc repos hashes p /\ usable < size_bytes p)
    end.
Proof. apply stage_plan_facts. Qed.

(** A catalog of five packs, one of them pruned, for the test medium (2 MiB). *)
Definition demo_pack (i : Z) (sha : string) (size : Z) (pruned : bool) : Pack :=
  mkPack i sha size "r1" pruned "2026-01-01".
Definition plan_catalog : Catalog :=
  mkCatalog []
    [demo_pack 1 "aa" 1500000 false; demo_pack 2 "bb" 900000 false; demo_pack 3 "cc" 700000 false;
     demo_pack 4 "dd" 400000 false; demo_pack 5 "ee" 100 true]
    [mkRepository "r1" "home" "/mirror" "" "2026-01-01" "active"] [] [] [] [] [] [] [] 0 5 0 0 (Some []).
Lemma plan_catalog_wf : catalog_wf plan_catalog.
Proof. constructor; try constructor; apply (bool_decide_unpack _); vm_compute; exact I. Qed.
Definition demo_plan : option (res (list VolumePlan)) :=
  stage_plan TEST_TINY 100000 None (Some ["r1"]) None plan_catalog.
(** Two volumes; the pruned pack is in neither. *)
Example demo_plan_volumes :
  (fun r => match r with Ok plans => (fun pl : VolumePlan => (shas pl.1, pl.2)) <$> plans | Err _ => [] end) <$> demo_plan =
  Some [(["aa"; "dd"], 1900000); (["bb"; "cc"], 1600000)].
Proof. vm_compute. reflexivity. Qed.
Lemma stage_plan_spec_witness :
  match demo_plan with
  | Some (Ok plans) => forall p, p ∈ concat plans.*1 <-> wanted plan_catalog None (Some ["r1"]) None p
  | _ => False
  end.
Proof.
  destruct (stage_plan_spec TEST_TINY 100000 None (Some ["r1"]) None plan_catalog plan_catalog_wf
    ltac:(repeat constructor; vm_compute; discriminate) ltac:(lia)
    ltac:(apply (bool_decide_unpack _); vm_compute; exact I)
    ltac:(apply (bool_decide_unpack _); vm_compute; exact I)) as (r & E & Hr).
  fold demo_plan in E. rewrite E. pose proof demo_plan_volumes as Hd. rewrite E in Hd.
  destruct r as [plans|e]; [apply Hr|discriminate].
Defined.

(** [prepare], which fills one volume: it never selects nothing, fills no more than the
    usable capacity, leaves no pack out that would still fit, and raises [ValueError] exactly
    when there is nothing to stage or a pack that fits no volume. *)
Theorem prepare_selection_spec m reserve repos d :
  catalog_wf d -> Forall (fun p => 0 <= size_bytes p) (packs d) ->
  EmptyString ∉ default [] repos -> NoDup (default [] repos) ->
  let ps := _gather_packs_for_staging None repos d in
  let usable := usable_bytes m - reserve in
  match prepare_selection m reserve repos d with
  | Ok (selected, n) => selected <> [] /\ selected ⊆ ps /\ n = sizes selected /\ n <= usable /\
      fits usable ps /\ (forall p, p ∈ ps -> p ∈ selected \/ usable < n + size_bytes p)
  | Err e => e = ValueError /\ (ps = [] \/ ~ fits usable ps)
  end.
Proof.
  intros W H0 Hne Hnd. apply prepare_selection_lemma; [by apply gather_NoDup|].
  apply Forall_forall. intros p Hp. rewrite Forall_forall in H0.
  apply gather_wanted in Hp; [|done]. apply H0, Hp.
Qed.
