(* ===== verification/BurnFrame.v ===== *)
(** * What burning one volume may change

    [touched v loc d d']: of volume [v] only its status and the two dates of its life
    cycle, of discs only the one of [v] at [loc], and events of [v] are appended;
    everything else in the catalog is as before.  Every catalog operation of a burn is
    such a step, and the constraints of the schema make each of them succeed. *)

From S2P Require Import Prelude Sqlite Catalog VolumeEvents Queries Volumes VolumeCopies.
Open Scope string_scope.
Open Scope list_scope.
Open Scope Z_scope.

Definition with_life (st : string) (closed verified : option string) (v : Volume) : Volume :=
  mkVolume (volume_id v) (label v) (uuid v) (media_type v) (capacity_bytes v) (used_bytes v)
    (location v) st (created_at v) closed verified.
Definition same_volume (x y : Volume) : Prop := exists st c w, y = with_life st c w x.

Definition volume_step (v : Z) (x y : Volume) : Prop :=
  y = x \/ (volume_id x = v /\ same_volume x y).
Definition other_tables (d : Catalog) :=
  (packs d, repositories d, volume_packs d, snapshots d, locations d, burn_sessions d,
   session_volumes d, key_escrow d, seq_volumes d, seq_packs d).
Definition new_events (P : VolumeEvent -> Prop) (d d' : Catalog) : Prop :=
  exists evs, volume_events d' = volume_events d ++ evs /\ Forall P evs.
(** Some event with [P] is new. *)
Definition new_event (P : VolumeEvent -> Prop) (d d' : Catalog) : Prop :=
  exists evs e, volume_events d' = volume_events d ++ evs /\ e ∈ evs /\ P e.

Record touched (v : Z) (loc : string) (d d' : Catalog) : Prop := {
  tc_volumes : Forall2 (volume_step v) (volumes d) (volumes d');
  tc_copies : forall c, at_place v loc c = false -> c ∈ volume_copies d' <-> c ∈ volume_copies d;
  tc_events : new_events (fun e => ev_volume_id e = v) d d';
  tc_rest : other_tables d' = other_tables d;
}.

Definition status_of (d : Catalog) (v : Z) : option string := status <$> find_volume d v.

Section frame.
Context (v : Z) (loc : string).

Lemma volume_step_refl x : volume_step v x x.
Proof. by left. Qed.
Lemma volume_step_trans x y z : volume_step v x y -> volume_step v y z -> volume_step v x z.
Proof.
  intros [->|[Hv (s1 & c1 & w1 & ->)]] [->|[Hv' (s2 & c2 & w2 & ->)]]; [by left|right..].
  all: split; [done|by eexists _, _, _].
Qed.
Lemma steps_refl l : Forall2 (volume_step v) l l.
Proof. induction l; constructor; [by left|done]. Qed.
Lemma steps_trans l1 l2 l3 :
  Forall2 (volume_step v) l1 l2 -> Forall2 (volume_step v) l2 l3 -> Forall2 (volume_step v) l1 l3.
Proof.
  intros H12. revert l3. induction H12 as [|x y l1 l2 Hxy _ IH]; intros l3 H23; inv H23; constructor.
  - by eapply volume_step_trans.
  - by apply IH.
Qed.
Lemma volume_step_id x y : volume_step v x y -> volume_id y = volume_id x.
Proof. by intros [->|[_ (? & ? & ? & ->)]]. Qed.
Lemma new_events_trans P d1 d2 d3 : new_events P d1 d2 -> new_events P d2 d3 -> new_events P d1 d3.
Proof.
  intros (l1 & H1 & F1) (l2 & H2 & F2). exists (l1 ++ l2).
  rewrite H2, H1, <- app_assoc. split; [done|]. by apply Forall_app.
Qed.
#[export] Instance touched_preorder : PreOrder (touched v loc).
Proof.
  split.
  - intros d. split; [|done|by exists []; rewrite app_nil_r|done].
    apply steps_refl.
  - intros d1 d2 d3 [V1 C1 E1 R1] [V2 C2 E2 R2]. split.
    + by eapply steps_trans.
    + intros c Hc. by rewrite C2, C1.
    + by eapply new_events_trans.
    + by rewrite R2, R1.
Qed.
Lemma new_event_l P d1 d2 d3 : touched v loc d1 d2 -> new_event P d2 d3 -> new_event P d1 d3.
Proof.
  intros [_ _ (l & H & _) _] (evs & e & H2 & He & HP). exists (l ++ evs), e.
  rewrite H2, H, <- app_assoc. split_and!; [done|apply elem_of_app; by right|done].
Qed.
Lemma new_event_r P d1 d2 d3 : new_event P d1 d2 -> touched v loc d2 d3 -> new_event P d1 d3.
Proof.
  intros (evs & e & H2 & He & HP) [_ _ (l & H & _) _]. exists (evs ++ l), e.
  rewrite H, H2, <- app_assoc. split_and!; [done|apply elem_of_app; by left|done].
Qed.
Lemma touched_ids d d' : touched v loc d d' -> volume_ids d' = volume_ids d.
Proof.
  intros [HV _ _ _]. induction HV as [|x y l k Hxy _ IH]; csimpl; [done|].
  by rewrite IH, (volume_step_id _ _ Hxy).
Qed.
Lemma touched_locations d d' : touched v loc d d' -> locations d' = locations d.
Proof. intros [_ _ _ R]. by injection R. Qed.
Lemma touched_packs d d' : touched v loc d d' -> volume_packs d' = volume_packs d.
Proof. intros [_ _ _ R]. by injection R. Qed.
End frame.

(** ** The operations *)

Lemma with_status_life st now x : same_volume x (with_status st now x).
Proof. unfold with_status. destruct (sql_eq st "VERIFIED"); destruct x; by eexists _, _, _. Qed.

Lemma step_update v (f : Volume -> Volume) l : (forall x, same_volume x (f x)) ->
  Forall2 (volume_step v) l (update_where (fun x => sql_eq (volume_id x) v) f l).
Proof.
  intros Hf. unfold update_where. induction l as [|x l IH]; csimpl; constructor; [|done].
  destruct (sql_eq (volume_id x) v) eqn:E; [|by left]. right. split; [by sql|apply Hf].
Qed.
Lemma touched_volume_rows v loc f d : (forall x, same_volume x (f x)) ->
  touched v loc d (set_volumes d (update_where (fun x => sql_eq (volume_id x) v) f (volumes d))).
Proof. intros Hf. split; [by apply step_update|done|by exists []; rewrite app_nil_r|done]. Qed.
Lemma touched_append_event v loc e d : ev_volume_id e = v ->
  touched v loc d (set_seqs (set_events d (volume_events d ++ [e])) (seq_volumes d) (seq_packs d)
    (seq_copies d) (seq_events d + 1)).
Proof.
  intros He. split; [|done| |done].
  - apply steps_refl.
  - exists [e]. split; [done|]. by apply Forall_singleton.
Qed.
Lemma touched_status v loc old st now d : touched v loc d (status_changed d v old st now).
Proof.
  etrans; [apply (touched_volume_rows v loc (with_status st now)); intros; apply with_status_life|].
  by apply touched_append_event.
Qed.

(** [update_status] along the graph of transitions, in an open transaction. *)
Lemma update_status_run c v st now x : catalog_wf (current c) -> find_volume (current c) v = Some x ->
  st ∈ allowed_from (status x) -> st <> "DEPRECATED" ->
  exists b, update_status v st now false false c
    = (Ok tt, mkConn (committed c) (status_changed (current c) v (status x) st now) b).
Proof.
  intros Wf Hx Hst Hd.
  assert (accepted (current c) v (status x) st false) as Hacc.
  { split; [by eapply allowed_from_status|done]. }
  destruct (update_status_Ok c v st now false false x Wf Hx Hacc) as (b & d0 & -> & Hd0).
  destruct Hd0 as [->|(_ & ? & _)]; [by exists b|done].
Qed.
Lemma status_changed_wf d v old st now x : catalog_wf d -> find_volume d v = Some x ->
  st ∈ VOLUME_STATUSES -> catalog_wf (status_changed d v old st now).
Proof.
  intros Wf Hx Hst. unfold status_changed, append_note.
  pose proof (set_volume_status_wf d v st now Wf Hst) as W'.
  eapply (wf_insert_event _ W' v "NOTE" now None (status_note old st)). apply insert_event_Ok.
  - apply (find_volume_Some _ _ _ Wf) in Hx as [Hx <-].
    apply list_elem_of_fmap. exists (with_status st now x). split; [by rewrite with_status_id|].
    apply elem_of_update_where. exists x. by rewrite (proj2 (sql_eq_true _ _) eq_refl).
  - by apply sql_in_true.
  - done.
Qed.
Lemma status_changed_of d v old st now x : catalog_wf d -> find_volume d v = Some x ->
  st ∈ VOLUME_STATUSES -> status_of (status_changed d v old st now) v = Some st.
Proof.
  intros Wf Hx Hst. unfold status_of. rewrite (find_status_changed d v old st now x v) by done.
  rewrite decide_True by done. cbn. by rewrite with_status_status.
Qed.

Definition closed_catalog (d : Catalog) (v : Z) (now : string) : Catalog :=
  set_volumes d (update_where (fun x => sql_eq (volume_id x) v) (set_closed_at now) (volumes d)).
Lemma mark_closed_run c v now : catalog_wf (current c) ->
  mark_closed v now false c = (Ok tt, mkConn (committed c) (closed_catalog (current c) v now) true).
Proof.
  intros Wf. unfold mark_closed.
  destruct (update_volume_Ok c v (set_closed_at now) Wf) as [n Hn].
  { intros x Hx _. cbn. pose proof (wf_volume_row _ Wf) as Hr. rewrite Forall_forall in Hr. by apply Hr in Hx as []. }
  by rewrite (db_bind_Ok _ _ _ _ _ Hn).
Qed.
Lemma closed_touched v loc now d : touched v loc d (closed_catalog d v now).
Proof. apply touched_volume_rows. intros x. by exists (status x), (Some now), (verified_at x). Qed.
Lemma closed_wf d v now : catalog_wf d -> catalog_wf (closed_catalog d v now).
Proof.
  intros Wf. apply wf_set_volumes; [done|symmetry; by apply update_where_key..|].
  apply Forall_update_where; [|done]. eapply Forall_impl; [apply Wf|]. by intros ? [].
Qed.
Lemma closed_status d v now : catalog_wf d -> status_of (closed_catalog d v now) v = status_of d v.
Proof.
  intros Wf. unfold status_of. destruct (find_volume d v) as [x|] eqn:Hx.
  - apply (find_volume_Some _ _ _ Wf) in Hx as [Hx Hi].
    assert (find_volume (closed_catalog d v now) v = Some (set_closed_at now x)) as ->; [|done].
    apply (find_volume_Some _ _ _ (closed_wf d v now Wf)). split; [|done].
    apply elem_of_update_where. exists x. by rewrite (proj2 (sql_eq_true _ _) Hi).
  - assert (find_volume (closed_catalog d v now) v = None) as ->; [|done].
    apply find_volume_None. apply find_volume_None in Hx. cbn.
    by rewrite update_where_key.
Qed.

(** [add_event] of the volume. *)
Definition event_catalog (d : Catalog) (v : Z) (ty : string) (loc : option string) (det now : string) : Catalog :=
  set_seqs (set_events d (volume_events d ++ [mkVolumeEvent (seq_events d + 1) v ty now loc det]))
    (seq_volumes d) (seq_packs d) (seq_copies d) (seq_events d + 1).
Lemma add_event_run c v ty loc det now : catalog_wf (current c) -> v ∈ volume_ids (current c) ->
  ty ∈ EVENT_TYPES -> loc ∈ location_names (current c) ->
  exists e, add_event v ty (Some loc) det None now false c
    = (Ok e, mkConn (committed c) (event_catalog (current c) v ty (Some loc) det now) true).
Proof. intros Wf Hv Hty Hl. rewrite add_event_Ok by done. by eexists. Qed.
Lemma event_wf d v ty loc det now : catalog_wf d -> v ∈ volume_ids d -> ty ∈ EVENT_TYPES ->
  loc ∈ location_names d -> catalog_wf (event_catalog d v ty (Some loc) det now).
Proof.
  intros Wf Hv Hty Hl. eapply (wf_insert_event _ Wf v ty now (Some loc) det). by apply insert_event_Ok.
Qed.
Lemma event_status d v ty loc det now : status_of (event_catalog d v ty loc det now) v = status_of d v.
Proof. done. Qed.

(** [add_volume_copy] of a volume and a location the catalog has. *)
Lemma at_place_self i v loc date note sha ver ser size :
  at_place v loc (mkVolumeCopy i v loc "ACTIVE" date note sha ver ser size) = true.
Proof. unfold at_place. cbn. by rewrite !(proj2 (sql_eq_true _ _) eq_refl). Qed.
Lemma upsert_run d v loc date note sha size ver ser : catalog_wf d -> v ∈ volume_ids d ->
  loc ∈ location_names d ->
  exists x d', upsert_copy v loc date note sha size ver ser d = Ok (tt, d') /\ catalog_wf d' /\
    touched v loc d d' /\ volumes d' = volumes d /\ volume_events d' = volume_events d /\
    x ∈ volume_copies d' /\ active_at v loc x = true /\ last_verified_at x = ver /\
    (forall h, sha = Some h -> iso_sha256 x = Some h) /\
    (forall y, y ∈ volume_copies d' -> at_place v loc y = true -> y = x).
Proof.
  intros Wf Hv Hl.
  assert (forall d', upsert_copy v loc date note sha size ver ser d = Ok (tt, d') -> catalog_wf d') as Hwf.
  { intros d' Hd'. by eapply wf_upsert_copy. }
  unfold upsert_copy in *. set (new := mkVolumeCopy _ v loc "ACTIVE" date note sha ver ser size) in *.
  change (fun c => _ && _) with (at_place v loc) in *.
  destruct (exists_row (at_place v loc) (volume_copies d)) eqn:Eo.
  - apply exists_row_true in Eo as (o & Ho & Hp).
    eexists (reburn new o), _. split; [done|]. split; [by apply Hwf|].
    assert (forall y, y ∈ update_where (at_place v loc) (reburn new) (volume_copies d) ->
      at_place v loc y = true -> y = reburn new o) as Huniq.
    { intros y (z & Hz & ->)%elem_of_update_where Hy. destruct (at_place v loc z) eqn:Ez; [|congruence].
      f_equal. by eapply place_unique. }
    split.
    { split; cbn; [apply steps_refl| |by exists []; rewrite app_nil_r|done].
      intros c Hc. rewrite elem_of_update_where. split.
      - intros (y & Hy & ->). destruct (at_place v loc y) eqn:Ey; [|done]. unfold at_place in Hc, Ey. cbn in Hc. congruence.
      - intros Hin. exists c. by rewrite Hc. }
    split_and!; try done.
    + apply elem_of_update_where. exists o. by rewrite Hp.
    + unfold active_at. apply at_place_true in Hp as [Hp1 Hp2]. unfold at_place. cbn.
      by rewrite Hp1, Hp2, !(proj2 (sql_eq_true _ _) eq_refl).
    + intros h ->. done.
  - rewrite (proj2 (has_volume_true d v) Hv), (proj2 (has_location_true d loc) Hl) in *.
    eexists new, _. split; [done|]. split; [by apply Hwf|]. rewrite exists_row_false in Eo.
    split.
    { split; cbn; [apply steps_refl| |by exists []; rewrite app_nil_r|done].
      intros c Hc. rewrite elem_of_app, list_elem_of_singleton. split; [|by left].
      intros [?| ->]; [done|]. unfold new in Hc. by rewrite at_place_self in Hc. }
    split_and!; try done.
    + cbn. apply elem_of_app. right. by apply list_elem_of_singleton.
    + unfold active_at, new. rewrite at_place_self. cbn. by rewrite (proj2 (sql_eq_true _ _) eq_refl).
    + cbn. intros y [Hy|Hy]%elem_of_app Hp; [by rewrite (Eo y Hy) in Hp|].
      by apply list_elem_of_singleton in Hy.
Qed.
Lemma add_copy_run c v loc sha size ver now : catalog_wf (current c) ->
  v ∈ volume_ids (current c) -> loc ∈ location_names (current c) ->
  exists x d', add_volume_copy v loc None EmptyString sha size ver EmptyString now false c
      = (Ok x, mkConn (committed c) d' true) /\ catalog_wf d' /\
    touched v loc (current c) d' /\ volumes d' = volumes (current c) /\
    volume_events d' = volume_events (current c) /\ x ∈ volume_copies d' /\
    active_at v loc x = true /\ last_verified_at x = ver /\
    (forall h, sha = Some h -> iso_sha256 x = Some h).
Proof.
  intros Wf Hv Hl.
  destruct (upsert_run (current c) v loc now EmptyString sha size ver EmptyString Wf Hv Hl)
    as (x & d' & Hu & W' & Ht & Hvs & He & Hx & Ha & Hver & Hsha & Huniq).
  exists x, d'. split; [|done]. unfold add_volume_copy.
  rewrite (db_bind_Ok _ _ _ tt (mkConn (committed c) d' true)).
  2: { unfold execute. cbn [default]. by rewrite Hu. }
  cbn [commit_if]. unfold mbind, db_bind, query, mret, db_ret. cbn [current].
  rewrite (where_unique (active_at v loc) (volume_copies d') x); [done..|].
  intros y Hy Hay. apply Huniq; [done|]. unfold active_at in Hay. by apply andb_true_iff in Hay as [].
Qed.
