(* ===== verification/Burn.v ===== *)
(** * Burning a session

    [BurnOrchestrator.burn_session] of burn/orchestrator.py with what it calls: the
    check of a disc that was just burned, the receipts, the guard against a disc that is
    not blank.  The state is the connection to the catalog, the world and the receipts so
    far.  The world is behind the protocols the orchestrator is given (the drive, the
    operator) and the files it looks at, here a class: whatever does not lie in the
    catalog is done by one of its operations, any of which may raise.  An interrupt (Ctrl-C)
    too comes from one of them and never from within a statement on the catalog. *)

From Stdlib Require Import Ascii.
From S2P Require Import Prelude PyString PyText Json Effects Sqlite Catalog VolumeEvents Queries Volumes VolumeCopies Locations.

Open Scope string_scope.
Open Scope list_scope.
Open Scope Z_scope.

(** ** The world *)

(** [MediaStatus] of iso/xorriso.py *)
Inductive MediaStatus := BLANK | APPENDABLE | CLOSED | NO_MEDIA | UNKNOWN.
#[export] Instance media_status_eq_dec : EqDecision MediaStatus. Proof. solve_decision. Defined.

Record BurnReceipt := mkReceipt {
  rc_volume_label : string; rc_volume_id : Z; rc_session_id : string; rc_location : string;
  rc_device : string; rc_burn_date : string; rc_iso_sha256 : string; verify_passed : bool;
  pack_count : Z; rc_pack_ids : list Z; rc_iso_size_bytes : option Z;
}.

Class Machine (W : Type) := {
  (* XorrisoRunner *)
  media_status : string -> eff W MediaStatus;
  burn_iso : string -> string -> eff W unit;
  verify_disc : string -> eff W bool;
  read_disc_volume_id : string -> eff W string;
  (* device_reader, OperatorPrompt, eject_tray *)
  device_reader : string -> Z -> eff W string;
  checkpoint : string -> eff W unit;
  eject_tray : string -> eff W bool;
  (* files *)
  path_exists : string -> eff W bool;
  sha256_file : string -> eff W string;
  file_size : string -> eff W Z;
  ensure_dir : string -> eff W unit;
  write_receipt : string -> BurnReceipt -> eff W unit;
  (* the clock, and the text of an exception *)
  utc_now : W -> string * W;
  str_exc : exn -> string;
}.

(** What the orchestrator reads of [LCSASConfig]. *)
Record BurnConfig := mkBurnConfig { optical_device : string; db_dir : string }.

(** [dir / name] *)
Definition slash (dir name : string) : string := (dir ++ "/" ++ name)%string.
(** [Path(p).parent] of a path below a directory *)
Definition path_parent (p : string) : string :=
  match rev (split_on "/" p) with
  | [] | [_] => "."
  | _ :: dirs => String.concat "/" (rev dirs)
  end.

Section burn.
Context {W : Type} `{Machine W}.

Record BurnState := mkState {
  conn : Conn Catalog;
  world : W;
  receipts : list BurnReceipt;
}.
Abbreviation burn A := (eff BurnState A).

Definition catalog {A} (m : dbc A) : burn A := fun s =>
  let '(r, c) := m (conn s) in (r, mkState c (world s) (receipts s)).
Definition outside {A} (m : eff W A) : burn A := fun s =>
  let '(r, w) := m (world s) in (r, mkState (conn s) w (receipts s)).
Definition clock : burn string := outside (fun w => let '(t, w) := utc_now w in (Ok t, w)).
(** A catalog operation that reads the clock. *)
Definition timed {A} (m : string -> dbc A) : burn A := now ← clock; catalog (m now).
Definition add_receipt (r : BurnReceipt) : burn unit :=
  modify (fun s => mkState (conn s) (world s) (receipts s ++ [r])).

(** ** The check of a burned disc *)

Definition verdict (sv : SessionVolume) (location : string) (passed : bool) (det : string) : burn bool :=
  _ ← timed (fun now => add_event (sv_volume_id sv) (if passed then "VERIFY_PASS" else "VERIFY_FAIL")
               (Some location) det None now false);
  mret passed.

(** The hash the disc must have: the recorded one; without one, that of the image if it is
    still there. *)
Definition expected_hash (sv : SessionVolume) (iso_path : string) : burn (option string) :=
  let recorded := default EmptyString (sv_iso_sha256 sv) in
  if String.eqb recorded EmptyString then
    here ← outside (path_exists iso_path);
    if here : bool then h ← outside (sha256_file iso_path); mret (Some h) else mret None
  else mret (Some recorded).
Definition image_size (sv : SessionVolume) (iso_path : string) : burn (option Z) :=
  match sv_iso_size_bytes sv with
  | Some n => mret (Some n)
  | None =>
      here ← outside (path_exists iso_path);
      if here : bool then n ← outside (file_size iso_path); mret (Some n) else mret None
  end.
(** [try: device_hash = self._device_reader(...) except OSError as exc: ...] *)
Definition read_back (device : string) (n : Z) : burn (string + exn) :=
  handle (h ← outside (device_reader device n); mret (inl h))
    (fun e => if caught [OSError] e then Some (mret (inr e)) else None).

Definition no_size_text : string :=
  "device hash check impossible: no recorded ISO size (pre-upgrade session); -check_media alone is insufficient evidence".
Definition compare_disc (sv : SessionVolume) (device location expected : string) (n : Z) : burn bool :=
  r ← read_back device n;
  match r with
  | inr e => verdict sv location false ("device read-back failed: " ++ str_exc e)%string
  | inl device_hash =>
      if String.eqb device_hash expected then
        verdict sv location true
          ("Post-burn read-back + device hash match (" ++ str_prefix_of 8 device_hash ++ "..)")%string
      else
        verdict sv location false
          ("device hash mismatch: expected " ++ str_prefix_of 8 expected ++ ".., got " ++
           str_prefix_of 8 device_hash ++ "..")%string
  end.

Definition _verify_burned_disc (sv : SessionVolume) (label device location iso_path : string) :
    burn bool :=
  readable ← outside (verify_disc device);
  if negb readable then verdict sv location false "Post-burn read-back failed"
  else
    disc_id ← outside (read_disc_volume_id device);
    if negb (String.eqb disc_id label) then
      verdict sv location false
        ("Disc in " ++ device ++ " identifies as '" ++ disc_id ++ "' — expected '" ++ label ++
         "'. Wrong disc?")%string
    else
      expected ← expected_hash sv iso_path;
      match expected with
      | None => verdict sv location true "Post-burn read-back (no hash on record)"
      | Some expected =>
          iso_size ← image_size sv iso_path;
          match iso_size with
          | None => verdict sv location false no_size_text
          | Some n => compare_disc sv device location expected n
          end
      end.

Definition _assert_blank_media (device : string) : burn unit :=
  st ← outside (media_status device);
  if bool_decide (st = CLOSED) then throw ValueError else mret tt.

(** The messages of the operator's checkpoints. *)
Definition newline : string := String "010" EmptyString.
Definition insert_prompt (i total : Z) (lab device : string) : string :=
  ("=== Disc " ++ str_of_int i ++ " of " ++ str_of_int total ++ " — volume " ++ lab ++ " ===" ++ newline ++
   "Insert a BLANK disc into " ++ device ++ ".")%string.
Definition label_prompt (lab location : string) : string :=
  ("Burn VERIFIED. Remove the disc and write on it now, with a soft felt-tip marker:" ++ newline ++
   "    " ++ lab ++ "        (location: " ++ location ++ ")")%string.

(** ** Receipts *)

(** [write_receipt] stands for [_dump_receipt], which writes the receipt as JSON. *)
Definition _write_receipts (rs : list BurnReceipt) (session_dir location : string) : burn unit :=
  let dir := slash session_dir "receipts" in
  _ ← outside (ensure_dir dir);
  for_each (fun r => outside (write_receipt (slash dir (rc_volume_label r ++ "_" ++ location ++ ".json")%string) r)) rs.
Definition _write_durable_receipts (cfg : BurnConfig) (rs : list BurnReceipt) (location : string) :
    burn unit :=
  let dir := slash (db_dir cfg) "receipts" in
  _ ← outside (ensure_dir dir);
  for_each (fun r => outside (write_receipt
    (slash dir (str_replace ":" "-" (rc_session_id r) ++ "_" ++ rc_volume_label r ++ "_" ++ location ++ ".json")%string) r)) rs.

(** ** One disc *)

Section session.
Variables (cfg : BurnConfig) (session location device : string) (skip_burn interactive : bool).

(** The status a volume gets after the check. *)
Definition settle (sv : SessionVolume) (is_reburn passed : bool) : burn unit :=
  if negb is_reburn then
    if passed then
      _ ← timed (fun now => update_status (sv_volume_id sv) "VERIFIED" now false false);
      timed (fun now => mark_closed (sv_volume_id sv) now false)
    else timed (fun now => update_status (sv_volume_id sv) "STAGING" now false false)
  else if negb passed then
    _ ← timed (fun now => add_event (sv_volume_id sv) "VERIFY_FAIL_REBURN" (Some location)
                 "Post-burn read-back failed on re-burn attempt" None now false);
    mret tt
  else mret tt.
Definition record_disc (sv : SessionVolume) (passed : bool) (verified_at : option string) : burn unit :=
  if passed then
    let sha := match sv_iso_sha256 sv with Some h => if String.eqb h EmptyString then None else Some h
               | None => None end in
    _ ← timed (fun now => add_volume_copy (sv_volume_id sv) location None EmptyString sha
                 (sv_iso_size_bytes sv) verified_at EmptyString now false);
    mret tt
  else mret tt.

Definition burn_disc (sv : SessionVolume) (vol : Volume) (is_reburn : bool) : burn BurnReceipt :=
  _ ← (if negb skip_burn then outside (burn_iso (iso_path sv) device) else mret tt);
  passed ← (if negb skip_burn
            then _verify_burned_disc sv (label vol) device location (iso_path sv) else mret true);
  verified_at ← (if negb skip_burn && passed then t ← clock; mret (Some t) else mret None);
  _ ← settle sv is_reburn passed;
  _ ← record_disc sv passed verified_at;
  _ ← catalog commit;
  ids ← catalog (query (get_pack_ids_for_volume (sv_volume_id sv)));
  date ← clock;
  let receipt := mkReceipt (label vol) (sv_volume_id sv) session location device date
    (default EmptyString (sv_iso_sha256 sv)) passed (len ids) ids (sv_iso_size_bytes sv) in
  _ ← add_receipt receipt;
  _ ← _write_durable_receipts cfg [receipt] location;
  mret receipt.

(** [except Exception as original_exc] *)
Definition undo_burn (sv : SessionVolume) (is_reburn : bool) (e : exn) : burn BurnReceipt :=
  _ ← handle
        (_ ← catalog rollback;
         if negb is_reburn then timed (fun now => update_status (sv_volume_id sv) "STAGING" now true false)
         else mret tt)
        (fun e' => if is_exception e' then Some (throw e) else None);
  rs ← gets receipts;
  _ ← match rs with
      | [] => mret tt
      | _ :: _ => catalog (update_session_status session "PARTIAL")
      end;
  throw e.

Definition burn_volume (total i : Z) (sv : SessionVolume) : burn unit :=
  vol ← catalog (get_volume_by_id (sv_volume_id sv));
  _ ← (if negb skip_burn then
         _ ← (if interactive then outside (checkpoint (insert_prompt i total (label vol) device)) else mret tt);
         _assert_blank_media device
       else mret tt);
  _ ← (if negb skip_burn then
         here ← outside (path_exists (iso_path sv));
         if here : bool then mret tt else throw FileNotFoundError
       else mret tt);
  let is_reburn := sql_eq (status vol) "VERIFIED" in
  _ ← (if negb is_reburn then
         _ ← timed (fun now => update_status (sv_volume_id sv) "BURNING" now false false);
         catalog commit
       else mret tt);
  receipt ← handle (burn_disc sv vol is_reburn)
              (fun e => if is_exception e then Some (undo_burn sv is_reburn e) else None);
  if negb skip_burn && verify_passed receipt then
    _ ← (if interactive then _ ← outside (eject_tray device); mret tt else mret tt);
    if interactive then outside (checkpoint (label_prompt (label vol) location)) else mret tt
  else mret tt.

(** What follows the last disc. *)
Definition finish_session : burn (list BurnReceipt) :=
  rs ← gets receipts;
  let any_failed := existsb (fun r => negb (verify_passed r)) rs in
  _ ← catalog (update_session_status session (if any_failed then "PARTIAL" else "COMPLETE"));
  info ← catalog (query (get_session_volumes session));
  _ ← match info with
      | [] => mret tt
      | x :: _ => _write_receipts rs (path_parent (iso_path x)) location
      end;
  _ ← _write_durable_receipts cfg rs location;
  mret rs.
End session.

Definition burn_session (cfg : BurnConfig) (session_ref location : string) (device : option string)
    (skip_burn interactive : bool) : burn (list BurnReceipt) :=
  session ← catalog (resolve_session_id session_ref);
  vols ← catalog (query (get_session_volumes session));
  let device := match device with
                | Some x => if String.eqb x EmptyString then optical_device cfg else x
                | None => optical_device cfg end in
  _ ← timed (fun now => ensure_location location EmptyString now true);
  _ ← for_enumerate (burn_volume cfg session location device skip_burn (interactive && negb skip_burn) (len vols)) 1 vols;
  finish_session cfg session location.
End burn.
Arguments BurnState : clear implicits.
Arguments mkState {W}. Arguments conn {W}. Arguments world {W}. Arguments receipts {W}.
