(* ===== verification/BurnProps.v ===== *)
(** * What a burn leaves behind

    Whatever the drive, the operator and the files do: each disc of a session ends in one
    of a few outcomes, also when the burn is interrupted, and the catalog that is
    committed at any time follows from the one before by these outcomes. *)

From S2P Require Import Prelude PyString PyText Json Effects Sqlite Catalog VolumeEvents Queries Volumes VolumeCopies Locations BurnFrame Burn.
Open Scope string_scope.
Open Scope list_scope.
Open Scope Z_scope.

(** ** Triples over the catalog and the receipts *)

Section rules.
Context {W : Type} `{Machine W}.
Abbreviation assertion := (Conn Catalog -> list BurnReceipt -> Prop).
Implicit Types (P : assertion).

Definition on P (s : BurnState W) : Prop := P (conn s) (receipts s).

Lemma spec_outside {A} P (m : eff W A) : spec (on P) (outside m) (fun _ => on P) (fun _ => on P).
Proof. intros s Hs. unfold outside. by destruct (m (world s)) as [[a|e] w]. Qed.
Lemma spec_outside' {A} P (m : eff W A) (E : exn -> BurnState W -> Prop) :
  (forall e s, on P s -> E e s) -> spec (on P) (outside m) (fun _ => on P) E.
Proof. intros HE. eapply spec_conseq; [apply (spec_outside P m)|auto..]. Qed.
Lemma spec_clock P E : spec (on P) clock (fun _ => on P) E.
Proof. intros s Hs. unfold clock, outside. by destruct (utc_now (world s)). Qed.
(** A catalog operation that succeeds. *)
Lemma spec_catalog {A} P (m : dbc A) (Q : A -> assertion) E :
  (forall c rs, P c rs -> exists a c', m c = (Ok a, c') /\ Q a c' rs) ->
  spec (on P) (catalog m) (fun a => on (Q a)) E.
Proof.
  intros Hm s Hs. destruct (Hm _ _ Hs) as (a & c' & E1 & HQ). unfold catalog. by rewrite E1.
Qed.
Lemma spec_timed {A} P (m : string -> dbc A) (Q : A -> assertion) E :
  (forall now c rs, P c rs -> exists a c', m now c = (Ok a, c') /\ Q a c' rs) ->
  spec (on P) (timed m) (fun a => on (Q a)) E.
Proof.
  intros Hm. eapply spec_bind; [apply spec_clock|]. intros now. apply spec_catalog. auto.
Qed.
Lemma spec_receipt P (r : BurnReceipt) (Q : assertion) E :
  (forall c rs, P c rs -> Q c (rs ++ [r])) -> spec (on P) (add_receipt r) (fun _ => on Q) E.
Proof. intros HQ. apply spec_modify. intros s Hs. by apply HQ. Qed.
End rules.

(** ** The outcomes of one volume *)

Section outcome.
Context (sv : SessionVolume) (loc : string) (skip : bool).
Abbreviation v := (sv_volume_id sv).

Definition is_pass (e : VolumeEvent) : Prop :=
  event_type e = "VERIFY_PASS" /\ ev_volume_id e = v /\ ev_location e = Some loc.
(** What a passed check leaves in the catalog; under [skip_burn] nothing is checked. *)
Definition evidence (d d' : Catalog) : Prop := skip = true \/ new_event is_pass d d'.
Definition target (is_reburn passed : bool) : string :=
  if is_reburn || passed then "VERIFIED" else "STAGING".
Definition disc_recorded (d : Catalog) : Prop := exists x,
  x ∈ volume_copies d /\ active_at v loc x = true /\
  (forall h, sv_iso_sha256 sv = Some h -> h <> EmptyString -> iso_sha256 x = Some h) /\
  (skip = false -> is_Some (last_verified_at x)).

Record burned (is_reburn passed : bool) (d d' : Catalog) : Prop := {
  b_wf : catalog_wf d';
  b_touched : touched v loc d d';
  b_status : status_of d' v = Some (target is_reburn passed);
  b_pass : passed = true -> evidence d d' /\ disc_recorded d';
  b_fail : passed = false -> volume_copies d' = volume_copies d;
}.
End outcome.

(** ** The check *)

Section disc.
Context {W : Type} `{Machine W}.
Context (cfg : BurnConfig) (session loc device : string) (skip interactive : bool) (sv : SessionVolume).
Abbreviation v := (sv_volume_id sv).
(** The catalog when the disc was started, and the receipts so far. *)
Context (d0 : Catalog) (rs0 : list BurnReceipt).
Hypotheses (W0 : catalog_wf d0) (Hv : v ∈ volume_ids d0) (Hl : loc ∈ location_names d0).

(** In the open transaction of the disc. *)
Definition tx (R : Catalog -> Prop) (c : Conn Catalog) (rs : list BurnReceipt) : Prop :=
  rs = rs0 /\ committed c = d0 /\ R (current c).
Definition nothing_kept (c : Conn Catalog) (rs : list BurnReceipt) : Prop := rs = rs0 /\ committed c = d0.

Record checked (passed : bool) (d : Catalog) : Prop := {
  ck_wf : catalog_wf d;
  ck_touched : touched v loc d0 d;
  ck_volumes : volumes d = volumes d0;
  ck_copies : volume_copies d = volume_copies d0;
  ck_pass : passed = true -> evidence sv loc skip d0 d;
}.
Lemma checked_known passed d : checked passed d -> v ∈ volume_ids d /\ loc ∈ location_names d.
Proof using Hv Hl.
  intros [_ Ht Hvs _ _]. rewrite Hvs. split; [done|]. by rewrite (touched_locations _ _ _ _ Ht).
Qed.

Lemma verdict_spec passed det E :
  spec (on (tx (eq d0))) (verdict sv loc passed det)
    (fun b => on (fun c rs => b = passed /\ tx (checked passed) c rs)) E.
Proof using W0 Hv Hl.
  unfold verdict. eapply spec_bind; [apply spec_timed|].
  - intros now c rs (-> & Hc & Hcur). destruct c as [cm cur b]. cbn [committed current] in *. subst cm cur.
    set (ty := if passed then "VERIFY_PASS" else "VERIFY_FAIL").
    assert (ty ∈ EVENT_TYPES) as Hty by (subst ty; destruct passed; by apply sql_in_true).
    destruct (add_event_run (mkConn d0 d0 b) v ty loc det now W0 Hv Hty Hl) as [e ->].
    eexists e, _. split; [done|].
    instantiate (1 := fun _ => tx (checked passed)). split_and!; [done..|]. cbn [current].
    split; [by apply event_wf|by apply touched_append_event|done|done|].
    intros ->. right. eexists [_], _. split_and!; [done|by apply list_elem_of_singleton|done].
  - intros e. apply spec_ret. intros s Hs. by split.
Qed.

Abbreviation unchanged := (on (tx (eq d0))).
Abbreviation aborted := (fun _ : exn => on nothing_kept).
Lemma outside_unchanged {A} (m : eff W A) : spec unchanged (outside m) (fun _ => unchanged) aborted.
Proof. apply spec_outside'. intros e s (? & ? & _). by split. Qed.
Abbreviation checked_as := (fun b => on (tx (checked b))).

Lemma verdict_checked passed det E : spec unchanged (verdict sv loc passed det) checked_as E.
Proof using W0 Hv Hl.
  eapply spec_conseq; [apply (verdict_spec passed det)|done| |done].
  by intros b s [-> Hs].
Qed.

Lemma compare_disc_spec expected n :
  spec unchanged (compare_disc sv device loc expected n) checked_as aborted.
Proof using W0 Hv Hl.
  unfold compare_disc. eapply (spec_bind _ _ _ (fun _ => unchanged)).
  - unfold read_back. eapply (spec_handle _ _ _ _ (fun _ => unchanged)).
    + eapply spec_bind; [by apply (spec_outside (tx (eq d0)))|]. intros h. by apply spec_ret.
    + intros e k Hk. destruct (caught _ e); [|done]. injection Hk as <-. by apply spec_ret.
    + intros e s _ (? & ? & _). by split.
  - intros [h|e]; [|apply verdict_checked]. destruct (String.eqb h expected); apply verdict_checked.
Qed.

Lemma verify_burned_disc_spec lab iso :
  spec unchanged (_verify_burned_disc sv lab device loc iso) checked_as aborted.
Proof using W0 Hv Hl.
  unfold _verify_burned_disc. eapply spec_bind; [apply outside_unchanged|]. intros [|]; cbn [negb]; [|apply verdict_checked].
  eapply spec_bind; [apply outside_unchanged|]. intros id.
  destruct (String.eqb id lab); cbn [negb]; [|apply verdict_checked].
  eapply (spec_bind _ _ _ (fun _ => unchanged)).
  { unfold expected_hash. destruct (String.eqb _ _); [|by apply spec_ret].
    eapply spec_bind; [apply outside_unchanged|]. intros [|]; [|by apply spec_ret].
    eapply spec_bind; [apply outside_unchanged|]. intros h. by apply spec_ret. }
  intros [expected|]; [|apply verdict_checked]. eapply (spec_bind _ _ _ (fun _ => unchanged)).
  { unfold image_size. destruct (sv_iso_size_bytes sv); [by apply spec_ret|].
    eapply spec_bind; [apply outside_unchanged|]. intros [|]; [|by apply spec_ret].
    eapply spec_bind; [apply outside_unchanged|]. intros h. by apply spec_ret. }
  intros [n|]; [apply compare_disc_spec|apply verdict_checked].
Qed.

(** ** Its consequences *)

Context (is_reburn : bool).
Hypothesis Hstatus : status_of d0 v = Some (if is_reburn then "VERIFIED" else "BURNING").

Record settled (passed : bool) (d : Catalog) : Prop := {
  st_wf : catalog_wf d;
  st_touched : touched v loc d0 d;
  st_status : status_of d v = Some (target is_reburn passed);
  st_copies : volume_copies d = volume_copies d0;
  st_pass : passed = true -> evidence sv loc skip d0 d;
}.

Lemma checked_status passed d : checked passed d -> status_of d v = status_of d0 v.
Proof using. intros [_ _ Hvs _ _]. unfold status_of, find_volume. by rewrite Hvs. Qed.
Lemma evidence_after d d' : touched v loc d d' -> evidence sv loc skip d0 d -> evidence sv loc skip d0 d'.
Proof. intros Ht [?|He]; [by left|right]. by eapply new_event_r. Qed.

(** A status along the graph. *)
Lemma status_step (P : Catalog -> Prop) old st E : st ∈ allowed_from old -> st <> "DEPRECATED" ->
  (forall d, P d -> catalog_wf d /\ status_of d v = Some old) ->
  spec (on (tx P)) (timed (fun now => update_status v st now false false))
    (fun _ => on (tx (fun d' => exists d now, P d /\ d' = status_changed d v old st now))) E.
Proof.
  intros Hst Hdep HP. apply spec_timed. intros now c rs (-> & Hc & Hd).
  destruct (HP _ Hd) as [Wf Hs]. unfold status_of in Hs.
  destruct (find_volume (current c) v) as [x|] eqn:Hx; [|done]. injection Hs as <-.
  destruct (update_status_run c v st now x Wf Hx Hst Hdep) as [b ->].
  eexists _, _. split; [done|]. split_and!; [done..|]. cbn. eauto.
Qed.
Lemma status_step_settled passed d old now st : checked passed d -> status_of d v = Some old ->
  st ∈ VOLUME_STATUSES -> st = target is_reburn passed ->
  settled passed (status_changed d v old st now).
Proof.
  intros [] Hs Hst Ht. unfold status_of in Hs. destruct (find_volume d v) as [x|] eqn:Hx; [|done].
  injection Hs as Hs. split.
  - by eapply status_changed_wf.
  - etrans; [done|]. apply touched_status.
  - rewrite (status_changed_of _ _ _ _ _ x) by done. by rewrite Ht.
  - done.
  - intros Hp. eapply evidence_after; [|by apply ck_pass0]. apply touched_status.
Qed.

Lemma settle_spec passed E :
  spec (on (tx (checked passed))) (settle loc sv is_reburn passed) (fun _ => on (tx (settled passed))) E.
Proof using W0 Hv Hl Hstatus.
  unfold settle. destruct is_reburn eqn:Hr; cbn [negb]; [destruct passed; cbn [negb]|destruct passed].
  - apply spec_ret. intros s (? & ? & []). split_and!; [done..|]. split; try done.
    unfold status_of, find_volume. rewrite ck_volumes0. unfold target. rewrite Hr. cbn.
    by unfold status_of, find_volume in Hstatus.
  - eapply spec_bind; [apply spec_timed|intros e; apply spec_ret; intros s Hs; exact Hs].
    intros now c rs (-> & Hc & Hd). pose proof (checked_known _ _ Hd) as [Hv' Hl']. destruct Hd.
    destruct (add_event_run c v "VERIFY_FAIL_REBURN" loc "Post-burn read-back failed on re-burn attempt" now)
      as [e ->]; [done..|by apply sql_in_true|done|].
    eexists e, _. split; [done|]. split_and!; [done..|]. cbn [current]. split.
    + apply event_wf; try done. by apply sql_in_true.
    + etrans; [done|]. by apply touched_append_event.
    + rewrite event_status. unfold status_of, find_volume. rewrite ck_volumes0. unfold target. rewrite Hr. cbn.
      by unfold status_of, find_volume in Hstatus.
    + done.
    + done.
  - eapply spec_bind.
    + apply (status_step (checked true) "BURNING" "VERIFIED"); [by apply sql_in_true|done|].
      intros d Hd. split; [apply Hd|]. by rewrite (checked_status _ _ Hd).
    + intros []. apply spec_timed. intros now c rs (-> & Hc & d & now' & Hd & Hcur).
      assert (settled true (current c)) as Hs.
      { rewrite Hcur. eapply status_step_settled; [done|..]; [|by apply sql_in_true|by rewrite Hr].
        by rewrite (checked_status _ _ Hd). }
      destruct Hs. rewrite mark_closed_run by done. eexists _, _. split; [done|]. split_and!; [done..|].
      cbn [current]. split.
      * by apply closed_wf.
      * etrans; [done|]. apply closed_touched.
      * by rewrite closed_status.
      * done.
      * intros Hp. eapply evidence_after; [|by apply st_pass0]. apply closed_touched.
  - eapply spec_conseq; [apply (status_step (checked false) "BURNING" "STAGING")|done| |done].
    + by apply sql_in_true.
    + done.
    + intros d Hd. split; [apply Hd|]. by rewrite (checked_status _ _ Hd).
    + intros [] s (? & ? & d & now & Hd & Hcur). split_and!; [done..|]. rewrite Hcur.
      eapply status_step_settled; [done|..]; [|by apply sql_in_true|by rewrite Hr].
      by rewrite (checked_status _ _ Hd).
Qed.

Lemma settled_known passed d : settled passed d -> v ∈ volume_ids d /\ loc ∈ location_names d.
Proof using Hv Hl.
  intros [_ Ht _ _ _]. by rewrite (touched_ids _ _ _ _ Ht), (touched_locations _ _ _ _ Ht).
Qed.
Lemma record_disc_spec passed verified_at E : (passed = true -> skip = false -> is_Some verified_at) ->
  spec (on (tx (settled passed))) (record_disc loc sv passed verified_at)
    (fun _ => on (tx (burned sv loc skip is_reburn passed d0))) E.
Proof using Hv Hl.
  intros Hver. unfold record_disc. destruct passed.
  - eapply spec_bind; [apply spec_timed|intros x; apply spec_ret; intros s Hs; exact Hs].
    intros now c rs (-> & Hc & Hd). pose proof (settled_known _ _ Hd) as [Hv' Hl']. destruct Hd.
    set (sha := match sv_iso_sha256 sv with Some _ => _ | None => None end).
    destruct (add_copy_run c v loc sha (sv_iso_size_bytes sv) verified_at now) as
      (x & d' & -> & W' & Ht & Hvs & He & Hx & Ha & Hlv & Hsha); [done..|].
    eexists x, _. split; [done|]. split_and!; [done..|]. cbn [current].
    split; [done|by etrans| | |done].
    + unfold status_of, find_volume. by rewrite Hvs.
    + intros _. split; [eapply evidence_after; [exact Ht|by apply st_pass0]|]. exists x.
      split_and!; [done..| |intros Hs; rewrite Hlv; by apply Hver].
      intros h Hh Hne. apply Hsha. subst sha. rewrite Hh. by apply String.eqb_neq in Hne as ->.
  - apply spec_ret. intros s (? & ? & []). split_and!; [done..|]. by split.
Qed.

(** ** One disc *)

Definition receipt_for (d : Catalog) (r : BurnReceipt) : Prop :=
  rc_volume_id r = v /\ rc_session_id r = session /\ rc_location r = loc /\
  rc_iso_sha256 r = default EmptyString (sv_iso_sha256 sv) /\
  rc_pack_ids r = get_pack_ids_for_volume v d.
(** The disc is done and committed, with [r] as its receipt. *)
Definition disc_done (r : BurnReceipt) (c : Conn Catalog) : Prop :=
  exists d, c = mkConn d d false /\ burned sv loc skip is_reburn (verify_passed r) d0 d /\ receipt_for d r.
Definition disc_failed (e : exn) (c : Conn Catalog) (rs : list BurnReceipt) : Prop :=
  nothing_kept c rs \/ exists r, disc_done r c /\ (rs = rs0 \/ rs = rs0 ++ [r]).

Lemma spec_write_durable (P : Conn Catalog -> list BurnReceipt -> Prop) rs E :
  (forall e s, on P s -> E e s) -> spec (on P) (_write_durable_receipts cfg rs loc) (fun _ => on P) E.
Proof.
  intros HE. unfold _write_durable_receipts. eapply spec_bind; [by apply spec_outside'|]. intros ?.
  eapply (spec_for_each (fun _ => on P) _ _ []). intros l1 r l2 _. by apply spec_outside'.
Qed.
Lemma spec_write_receipts (P : Conn Catalog -> list BurnReceipt -> Prop) rs dir E :
  (forall e s, on P s -> E e s) -> spec (on P) (_write_receipts rs dir loc) (fun _ => on P) E.
Proof.
  intros HE. unfold _write_receipts. eapply spec_bind; [by apply spec_outside'|]. intros ?.
  eapply (spec_for_each (fun _ => on P) _ _ []). intros l1 r l2 _. by apply spec_outside'.
Qed.

Lemma burn_disc_spec vol :
  spec (on (tx (eq d0))) (burn_disc cfg session loc device skip sv vol is_reburn)
    (fun r => on (fun c rs => disc_done r c /\ rs = rs0 ++ [r])) (fun e => on (disc_failed e)).
Proof using W0 Hv Hl Hstatus.
  assert (forall e (s : BurnState W), on nothing_kept s -> on (disc_failed e) s) as Hno by (intros; by left).
  unfold burn_disc. eapply (spec_bind _ _ _ (fun _ => unchanged)).
  { destruct skip; [by apply spec_ret|]. apply spec_outside'. intros e s (? & ? & _). by left. }
  intros ?. eapply (spec_bind _ _ _ (fun b => on (tx (checked b)))).
  { destruct skip eqn:Hs; cbn [negb].
    - apply spec_ret. intros s (? & ? & Hcur). split_and!; [done..|]. rewrite <- Hcur. split; try done.
      intros _. by left.
    - eapply spec_conseq; [apply verify_burned_disc_spec|done..]. }
  intros passed.
  eapply (spec_bind _ _ _ (fun t => on (fun c rs => (passed = true -> skip = false -> is_Some t) /\ tx (checked passed) c rs))).
  { destruct skip, passed; cbn [negb andb]; try (by apply spec_ret; intros s Hs; split).
    eapply spec_bind; [apply spec_clock|]. intros t. apply spec_ret. intros s Hs. by split. }
  intros t. apply (spec_pure _ (on (tx (checked passed)))). intros Ht.
  eapply spec_bind; [apply settle_spec|]. intros ?.
  eapply spec_bind; [by apply record_disc_spec|]. intros ?.
  set (R := burned sv loc skip is_reburn passed d0).
  eapply (spec_bind _ _ _ (fun _ => on (fun c rs => rs = rs0 /\ exists d, c = mkConn d d false /\ R d))).
  { apply spec_catalog. intros c rs (-> & Hc & Hd). eexists tt, _. split; [done|]. split; [done|]. by exists (current c). }
  intros ?. eapply (spec_bind _ _ _ (fun ids => on (fun c rs => rs = rs0 /\ exists d, c = mkConn d d false /\ R d /\ ids = get_pack_ids_for_volume v d))).
  { apply spec_catalog. intros c rs (-> & d & -> & Hd). eexists _, _. split; [done|]. split; [done|]. by exists d. }
  intros ids. eapply spec_bind; [apply spec_clock|]. intros date.
  set (r := mkReceipt _ _ _ _ _ _ _ _ _ _ _).
  eapply (spec_bind _ _ _ (fun _ => on (fun c rs => disc_done r c /\ rs = rs0 ++ [r]))).
  { apply spec_receipt. intros c rs (-> & d & -> & Hd & ->). split; [|done]. by exists d. }
  intros ?. eapply spec_bind.
  { apply spec_write_durable. intros e s [Hd Hrs]. right. exists r. split; [done|by right]. }
  intros ?. apply spec_ret. done.
Qed.

(** ** What the handler leaves *)

Record returned (d : Catalog) : Prop := {
  rt_wf : catalog_wf d;
  rt_touched : touched v loc d0 d;
  rt_status : status_of d v = Some (target is_reburn false);
  rt_copies : volume_copies d = volume_copies d0;
}.
Definition disc_raised (e : exn) (d : Catalog) : Prop :=
  (is_exception e = false /\ d = d0) \/ returned d \/
  exists passed, burned sv loc skip is_reburn passed d0 d.
(** The session is marked as incomplete. *)
Definition marked (st : string) (d : Catalog) : Catalog :=
  set_sessions d (update_where (fun b => sql_eq (session_id b) session)
    (fun b => mkBurnSession (session_id b) (bs_created_at b) (bs_media_type b) st (staging_dir b)) (burn_sessions d)).
Lemma update_session_run c st : st ∈ SESSION_STATUSES ->
  update_session_status session st c
  = (Ok tt, mkConn (marked st (current c)) (marked st (current c)) false).
Proof.
  intros Hst. unfold update_session_status, mbind, db_bind, execute, update_session_rows.
  by rewrite (proj2 (sql_in_true st _) Hst), andb_false_r.
Qed.
Definition raised (e : exn) (c : Conn Catalog) (_ : list BurnReceipt) : Prop :=
  exists d, disc_raised e d /\ (committed c = d \/ committed c = marked "PARTIAL" d).

(** The catalog is settled again: the rest of the handler. *)
Lemma undo_tail e :
  spec (on (fun c rs => exists d, c = mkConn d d false /\ (returned d \/ exists passed, burned sv loc skip is_reburn passed d0 d)))
    (rs ← gets receipts;
     _ ← match rs with [] => mret tt | _ :: _ => catalog (update_session_status session "PARTIAL") end;
     throw e : eff (BurnState W) BurnReceipt)
    (fun _ _ => False) (fun _ => on (raised e)).
Proof using.
  eapply spec_bind; [apply spec_gets|]. intros rs.
  eapply (spec_bind _ _ _ (fun _ => on (raised e))); [|intros ?; by apply spec_throw].
  destruct rs as [|r rs].
  - apply spec_ret. intros s [(d & Hc & Hd) _]. exists d. split; [by right|]. left. by rewrite Hc.
  - eapply spec_pre; [apply (spec_catalog (fun c rs => exists d, c = mkConn d d false /\
      (returned d \/ exists passed, burned sv loc skip is_reburn passed d0 d)))|by intros s []].
    intros c rs' (d & -> & Hd). rewrite update_session_run by (by apply sql_in_true).
    eexists _, _. split; [done|]. exists d. split; [by right|]. by right.
Qed.

Lemma undo_burn_spec e : is_exception e = true ->
  spec (on (disc_failed e)) (undo_burn session sv is_reburn e)
    (fun _ _ => False) (fun _ => on (raised e)).
Proof using W0 Hv Hl Hstatus.
  intros He. unfold undo_burn.
  set (S := fun c (_ : list BurnReceipt) => exists d, c = mkConn d d false /\
    (returned d \/ exists passed, burned sv loc skip is_reburn passed d0 d)).
  eapply (spec_bind _ _ _ (fun _ => on S)); [|intros ?; apply undo_tail].
  eapply (spec_handle _ _ _ _ (fun _ => on S)).
  - apply spec_or.
    + eapply (spec_bind _ _ _ (fun _ => on (fun c _ => c = mkConn d0 d0 false))).
      { apply spec_catalog. intros c rs [_ Hc]. eexists tt, _. split; [done|]. cbn. by rewrite Hc. }
      intros ?. destruct is_reburn eqn:Hr; cbn [negb].
      * apply spec_ret. intros s Hs. exists d0. split; [done|]. left. split; try done. unfold target. by rewrite Hr.
      * apply spec_timed. intros now c rs ->. unfold status_of in Hstatus.
        destruct (find_volume d0 v) as [x|] eqn:Hx; [|done]. injection Hstatus as Hst.
        destruct (update_status_Ok (mkConn d0 d0 false) v "STAGING" now true false x W0 Hx) as (b & d1 & -> & _).
        { split; [by apply sql_in_true|]. intros _. rewrite Hst. split; [by apply sql_in_true|done]. }
        eexists _, _. split; [done|]. eexists. split; [done|]. left. cbn [current]. split.
        -- by eapply status_changed_wf; [..|apply sql_in_true].
        -- apply touched_status.
        -- rewrite (status_changed_of _ _ _ _ _ x); [unfold target; by rewrite Hr|done..|by apply sql_in_true].
        -- done.
    + intros s (r & (d & Hc & Hb & Hrc) & _). unfold mbind, eff_bind, catalog at 1. rewrite Hc. cbn [rollback committed].
      destruct is_reburn eqn:Hr; cbn [negb].
      * exists d. split; [done|]. right. by exists (verify_passed r).
      * unfold timed, clock, mbind, eff_bind, outside. cbn [world conn receipts]. destruct (utc_now (world s)) as [now w].
        unfold catalog. cbn [conn world receipts]. pose proof (b_status _ _ _ _ _ _ _ Hb) as Hs. unfold status_of in Hs.
        destruct (find_volume d v) as [x|] eqn:Hx; [|done]. injection Hs as Hs.
        rewrite (update_status_refused (mkConn d d false) v "STAGING" now true x Hx).
        2: { rewrite Hs. by destruct (verify_passed r); apply sql_in_false. }
        exists d. split; [done|]. right. by exists (verify_passed r).
  - intros e' k Hk. destruct (is_exception e'); [|done]. injection Hk as <-.
    apply spec_throw. intros s (d & Hc & Hd). exists d. split; [by right|]. left. by rewrite Hc.
  - intros e' s Hn (d & Hc & Hd). exists d. split; [by right|]. left. by rewrite Hc.
Qed.
End disc.

(** ** One volume of the session *)

Section volume.
Context {W : Type} `{Machine W}.
Context (cfg : BurnConfig) (session loc device : string) (skip interactive : bool) (sv : SessionVolume).
Abbreviation v := (sv_volume_id sv).

Definition was_verified (d : Catalog) : bool := bool_decide (status_of d v = Some "VERIFIED").
(** A volume whose disc can be burned. *)
Definition startable (d : Catalog) : Prop :=
  exists st, status_of d v = Some st /\ (st = "VERIFIED" \/ "BURNING" ∈ allowed_from st).
(** The disc was burned and checked, with the verdict [passed]. *)
Definition volume_burned (passed : bool) (d d' : Catalog) : Prop :=
  startable d /\ burned sv loc skip (was_verified d) passed d d'.
(** Where the catalog is when [burn_volume] raises. *)
Inductive stopped (e : exn) (d d' : Catalog) : Prop :=
  | NotStarted : d' = d -> stopped e d d'
  | Interrupted : startable d -> is_exception e = false -> was_verified d = false -> catalog_wf d' ->
      touched v loc d d' -> status_of d' v = Some "BURNING" -> volume_copies d' = volume_copies d -> stopped e d d'
  | Returned : startable d -> returned loc sv d (was_verified d) d' -> stopped e d d'
  | Burned passed : volume_burned passed d d' -> stopped e d d'.

Lemma burned_trans passed b d d1 d2 : touched v loc d d1 -> volume_copies d1 = volume_copies d ->
  burned sv loc skip b passed d1 d2 -> burned sv loc skip b passed d d2.
Proof.
  intros Ht Hc []. split; [done|by etrans|done| |].
  - intros Hp. destruct (b_pass0 Hp) as [He Hr]. split; [|done]. destruct He as [?|He]; [by left|right].
    by eapply new_event_l.
  - intros Hp. by rewrite b_fail0.
Qed.
Lemma returned_trans b d d1 d2 : touched v loc d d1 -> volume_copies d1 = volume_copies d ->
  returned loc sv d1 b d2 -> returned loc sv d b d2.
Proof. intros Ht Hc []. split; [done|by etrans|done|]. by rewrite rt_copies0. Qed.

(** A catalog in which the burn of the volume has begun: as it was, of a volume that has
    its disc, or with the volume BURNING. *)
Record begun (d d1 : Catalog) : Prop := {
  bg_wf : catalog_wf d1;
  bg_touched : touched v loc d d1;
  bg_status : status_of d1 v = Some (if was_verified d then "VERIFIED" else "BURNING");
  bg_copies : volume_copies d1 = volume_copies d;
  bg_same : was_verified d = true -> d1 = d;
  bg_start : startable d;
}.
Definition at_rest (d : Catalog) (c : Conn Catalog) : Prop := c = mkConn d d false.

Lemma disc_raised_stopped e d d1 d2 : begun d d1 ->
  disc_raised loc skip sv d1 (was_verified d) e d2 -> stopped e d d2.
Proof.
  intros [Wf Ht Hs Hc Hsame Hst] [[He ->]|[Hr|[passed Hb]]].
  - destruct (was_verified d) eqn:Hw; [by apply NotStarted, Hsame|by apply Interrupted].
  - apply Returned; [done|]. by eapply returned_trans.
  - eapply Burned. split; [done|]. by eapply burned_trans.
Qed.
Definition volume_raised (d : Catalog) (e : exn) (c : Conn Catalog) (_ : list BurnReceipt) : Prop :=
  exists d', stopped e d d' /\ (committed c = d' \/ committed c = marked session "PARTIAL" d').
Definition volume_done (d : Catalog) (rs0 : list BurnReceipt) (c : Conn Catalog) (rs : list BurnReceipt) : Prop :=
  exists r d', at_rest d' c /\ rs = rs0 ++ [r] /\ volume_burned (verify_passed r) d d' /\
    receipt_for session loc sv d' r.

(** The burn itself, with its handler. *)
Lemma burn_handled_spec d d1 rs0 vol : catalog_wf d -> v ∈ volume_ids d -> loc ∈ location_names d ->
  begun d d1 ->
  spec (on (fun c rs => at_rest d1 c /\ rs = rs0))
    (handle (burn_disc cfg session loc device skip sv vol (was_verified d))
       (fun e => if is_exception e then Some (undo_burn session sv (was_verified d) e) else None))
    (fun r => on (fun c rs => exists d', at_rest d' c /\ rs = rs0 ++ [r] /\
       volume_burned (verify_passed r) d d' /\ receipt_for session loc sv d' r))
    (fun e => on (volume_raised d e)).
Proof.
  intros Wf Hv Hl Hb. pose proof Hb as [W1 Ht Hs Hc Hsame Hst].
  assert (v ∈ volume_ids d1) as Hv1 by by rewrite (touched_ids _ _ _ _ Ht).
  assert (loc ∈ location_names d1) as Hl1 by by rewrite (touched_locations _ _ _ _ Ht).
  eapply (spec_handle _ _ _ _ (fun e => on (disc_failed session loc skip sv d1 rs0 (was_verified d) e))).
  - eapply spec_conseq; [apply (burn_disc_spec cfg session loc device skip sv d1 rs0 W1 Hv1 Hl1 (was_verified d) Hs vol)|..].
    + intros s [Hr Hrs]. unfold on, tx. rewrite Hr. by split.
    + intros r s [(d' & Hd' & Hbd & Hrc) Hrs]. exists d'. split_and!; [done..| |done]. split; [done|]. by eapply burned_trans.
    + done.
  - intros e k Hk. destruct (is_exception e) eqn:He; [|done]. injection Hk as <-.
    eapply spec_conseq; [apply (undo_burn_spec session loc skip sv d1 rs0 W1 Hv1 Hl1 (was_verified d) Hs e He)|..]; try done.
    intros e' s (d' & Hd & Hcm). exists d'. split; [|done]. eapply disc_raised_stopped; [done|].
    destruct Hd as [[? _]|Hd]; [congruence|by right].
  - intros e s He Hd. destruct (is_exception e) eqn:Hx; [done|]. destruct Hd as [[_ Hcm]|(r & (d' & Hc' & Hbd & _) & _)].
    + exists d1. split; [|by left]. eapply disc_raised_stopped; [done|]. by left.
    + exists d'. split; [|left; by rewrite Hc']. eapply disc_raised_stopped; [done|]. right. right. by eexists.
Qed.

(** The volume gets the status BURNING first. *)
Definition begin_burn (d : Catalog) : eff (BurnState W) unit :=
  if negb (was_verified d) then
    _ ← timed (fun now => update_status v "BURNING" now false false); catalog commit
  else mret tt.
Lemma begin_runs d rs0 E : catalog_wf d -> startable d ->
  spec (on (fun c rs => at_rest d c /\ rs = rs0)) (begin_burn d)
    (fun _ => on (fun c rs => exists d1, begun d d1 /\ at_rest d1 c /\ rs = rs0)) E.
Proof.
  intros Wf Hst. unfold begin_burn. destruct (was_verified d) eqn:Hw; cbn [negb].
  - apply spec_ret. intros s Hs. exists d. split; [|done]. split; try done.
    rewrite Hw. by apply bool_decide_eq_true in Hw.
  - eapply (spec_bind _ _ _ (fun _ => on (fun c rs => exists d1, begun d d1 /\ committed c = d /\ current c = d1 /\ rs = rs0))).
    + apply spec_timed. intros now c rs [-> ->]. pose proof Hst as (st & Hst1 & Hst2). unfold status_of in Hst1.
      destruct (find_volume d v) as [x|] eqn:Hx; [|done]. injection Hst1 as <-.
      destruct Hst2 as [Hv|Ha].
      { apply bool_decide_eq_false in Hw. destruct Hw. unfold status_of. by rewrite Hx, <- Hv. }
      destruct (update_status_run (mkConn d d false) v "BURNING" now x Wf Hx Ha) as [b ->]; [done|].
      eexists _, _. split; [done|]. exists (status_changed d v (status x) "BURNING" now). split_and!; [|done..]. split.
      * eapply status_changed_wf; [done..|]. by apply sql_in_true.
      * apply touched_status.
      * rewrite Hw. apply (status_changed_of _ _ _ _ _ x); [done..|]. by apply sql_in_true.
      * done.
      * congruence.
      * done.
    + intros ?. apply spec_catalog. intros c rs (d1 & Hb & Hcm & Hcur & ->). eexists tt, _. split; [done|].
      exists d1. split_and!; [done| |done]. unfold at_rest. by rewrite Hcur.
Qed.
Lemma begin_spec d rs0 : catalog_wf d -> v ∈ volume_ids d ->
  spec (on (fun c rs => at_rest d c /\ rs = rs0)) (begin_burn d)
    (fun _ => on (fun c rs => exists d1, begun d d1 /\ at_rest d1 c /\ rs = rs0))
    (fun e => on (volume_raised d e)).
Proof.
  intros Wf Hv. destruct (find_volume d v) as [x|] eqn:Hx; [|by apply find_volume_None in Hx].
  destruct (decide (status x = "VERIFIED" \/ "BURNING" ∈ allowed_from (status x))) as [Hst|Hst].
  { apply begin_runs; [done|]. exists (status x). unfold status_of. by rewrite Hx. }
  unfold begin_burn. assert (was_verified d = false) as ->.
  { apply bool_decide_eq_false. unfold status_of. rewrite Hx. intros [= Hs]. tauto. }
  cbn [negb]. intros s [Hc Hrs]. unfold timed, clock, mbind, eff_bind, outside. destruct (utc_now (world s)) as [now w].
  unfold catalog. cbn [conn world receipts]. rewrite Hc.
  rewrite (update_status_refused (mkConn d d false) v "BURNING" now false x Hx) by tauto.
  exists d. split; [by apply NotStarted|by left].
Qed.

Lemma burn_volume_spec n i d rs0 : catalog_wf d -> v ∈ volume_ids d -> loc ∈ location_names d ->
  spec (on (fun c rs => at_rest d c /\ rs = rs0)) (burn_volume cfg session loc device skip interactive n i sv)
    (fun _ => on (volume_done d rs0)) (fun e => on (volume_raised d e)).
Proof.
  intros Wf Hv Hl. unfold burn_volume.
  set (P := fun c rs => at_rest d c /\ rs = rs0).
  assert (forall e (s : BurnState W), on P s -> on (volume_raised d e) s) as HP.
  { intros e s [Hc _]. exists d. split; [by apply NotStarted|]. left. by rewrite Hc. }
  destruct (find_volume d v) as [x|] eqn:Hx; [|by apply find_volume_None in Hx].
  assert (sql_eq (status x) "VERIFIED" = was_verified d) as Hre.
  { unfold was_verified, status_of. rewrite Hx. cbn. unfold sql_eq. apply bool_decide_ext. split; congruence. }
  eapply (spec_bind _ _ _ (fun vol => on (fun c rs => vol = x /\ P c rs))).
  { apply spec_catalog. intros c rs [-> ->]. rewrite (get_volume_by_id_Ok (mkConn d d false) v x Hx). by eexists _, _. }
  intros vol. apply (spec_pure _ (on P)). intros ->.
  eapply (spec_bind _ _ _ (fun _ => on P)).
  { destruct skip; cbn [negb]; [by apply spec_ret|]. eapply (spec_bind _ _ _ (fun _ => on P)).
    - destruct interactive; [by apply spec_outside'|by apply spec_ret].
    - intros ?. unfold _assert_blank_media. eapply spec_bind; [by apply spec_outside'|]. intros st.
      destruct (bool_decide _); [by apply spec_throw; auto|by apply spec_ret]. }
  intros ?. eapply (spec_bind _ _ _ (fun _ => on P)).
  { destruct skip; cbn [negb]; [by apply spec_ret|]. eapply spec_bind; [by apply spec_outside'|].
    intros [|]; [by apply spec_ret|by apply spec_throw; auto]. }
  intros ?. rewrite Hre. eapply spec_bind; [by apply begin_spec|]. intros ?.
  apply spec_exists. intros d1. apply (spec_pure _ (on (fun c rs => at_rest d1 c /\ rs = rs0))). intros Hb.
  eapply spec_bind; [by apply burn_handled_spec|]. intros r.
  set (D := fun c rs => exists d', at_rest d' c /\ rs = rs0 ++ [r] /\ volume_burned (verify_passed r) d d' /\
       receipt_for session loc sv d' r).
  assert (forall e (s : BurnState W), on D s -> on (volume_raised d e) s) as HD.
  { intros e s (d' & Hc & _ & Hbd & _). exists d'. split; [by eapply Burned|]. left. by rewrite Hc. }
  eapply (spec_conseq (on D) (fun _ => on D) (fun e => on (volume_raised d e))); [|done| |done].
  2: { intros _ s (d' & Hd). by exists r, d'. }
  destruct (negb skip && verify_passed r); [|by apply spec_ret].
  destruct interactive; [|eapply (spec_bind _ _ _ (fun _ => on D)); [by apply spec_ret|intros ?; by apply spec_ret]].
  eapply (spec_bind _ _ _ (fun _ => on D)); [|intros ?; by apply spec_outside'].
  eapply spec_bind; [by apply spec_outside'|]. intros ?. by apply spec_ret.
Qed.
End volume.

(** ** The session *)

Section session.
Context {W : Type} `{Machine W}.
Context (cfg : BurnConfig) (loc : string) (skip : bool).

(** The discs of [svs], one after the other, with their receipts. *)
Inductive discs (session : string) : list SessionVolume -> list BurnReceipt -> Catalog -> Catalog -> Prop :=
  | discs_nil d : discs session [] [] d d
  | discs_snoc svs rs d d1 d2 sv r : discs session svs rs d d1 ->
      volume_burned loc skip sv (verify_passed r) d1 d2 -> receipt_for session loc sv d2 r ->
      discs session (svs ++ [sv]) (rs ++ [r]) d d2.

Definition verdict_of (rs : list BurnReceipt) : string :=
  if existsb (fun r => negb (verify_passed r)) rs then "PARTIAL" else "COMPLETE".
(** The location is in the catalog. *)
Definition located (d d1 : Catalog) : Prop :=
  (loc ∈ location_names d /\ d1 = d) \/
  (loc ∉ location_names d /\ exists now, d1 = set_locations d (locations d ++ [mkLocation loc now EmptyString])).

Lemma located_wf d d1 : catalog_wf d -> located d d1 -> catalog_wf d1 /\ loc ∈ location_names d1.
Proof.
  intros Wf [[Hl ->]|[Hl [now ->]]]; [done|]. split; [by apply wf_add_location|].
  cbn. rewrite fmap_app. set_solver.
Qed.
Lemma located_volumes d d1 : located d d1 -> volumes d1 = volumes d /\ session_volumes d1 = session_volumes d.
Proof. by intros [[_ ->]|[_ [now ->]]]. Qed.

Lemma resolve_same ref (c : Conn Catalog) : (resolve_session_id ref c).2 = c.
Proof.
  unfold resolve_session_id, get_latest_session, get_session. destruct (sql_eq ref "latest");
    unfold mbind, db_bind, query; by destruct (fetchone _).
Qed.
Lemma ensure_location_run d now : catalog_wf d ->
  exists x d1, ensure_location loc EmptyString now true (mkConn d d false) = (Ok x, mkConn d1 d1 false) /\ located d d1.
Proof.
  intros Wf. unfold ensure_location, mbind, db_bind, execute, insert_or_ignore_location. cbn [current].
  assert (forall d1, loc ∈ location_names d1 -> exists x, get_location loc (mkConn d1 d1 false) = (Ok x, mkConn d1 d1 false)) as Hget.
  { intros d1 (x & Hx & Hin)%list_elem_of_fmap. unfold get_location, mbind, db_bind, query. cbn [current].
    destruct (fetchone _) as [y|] eqn:Ey; [by eexists|]. exfalso.
    unfold fetchone in Ey. destruct (where_ _ _) eqn:Ew; [|done].
    assert (x ∈ where_ (fun x => sql_eq (name x) loc) (locations d1)) as Hw.
    { apply elem_of_where. split; [|done]. by apply sql_eq_true. }
    rewrite Ew in Hw. by inv Hw. }
  destruct (has_location d loc) eqn:Eh; cbn [commit_if commit current].
  - apply has_location_true in Eh. destruct (Hget d Eh) as [x Hx]. exists x, d. split; [exact Hx|by left].
  - set (d1 := set_locations d (locations d ++ [mkLocation loc now EmptyString])).
    destruct (Hget d1) as [x Hx]; [cbn; rewrite fmap_app; set_solver|].
    exists x, d1. split; [exact Hx|]. right. split; [|by exists now]. intros Hin%has_location_true. congruence.
Qed.

Lemma discs_keep session svs rs d d' : discs session svs rs d d' -> catalog_wf d ->
  catalog_wf d' /\ volume_ids d' = volume_ids d /\ locations d' = locations d.
Proof.
  induction 1 as [d|svs rs d d1 d2 sv r _ IH [_ [Wf Ht _ _ _]] _]; [done|]. intros Wd.
  destruct (IH Wd) as (_ & Hi & Hn). split; [done|].
  by rewrite (touched_ids _ _ _ _ Ht), (touched_locations _ _ _ _ Ht).
Qed.
Lemma session_volume_known session d x : catalog_wf d -> x ∈ get_session_volumes session d -> sv_volume_id x ∈ volume_ids d.
Proof.
  intros Wf. unfold get_session_volumes. rewrite elem_of_order_by, elem_of_where. intros [_ Hx].
  pose proof (wf_session_volume_row _ Wf) as Hr. rewrite Forall_forall in Hr. by apply Hr in Hx as [].
Qed.

(** Where the catalog is when [burn_session] raises: a disc of the session was being
    burned, or all are done and the receipts could not be written. *)
Definition session_raised (session : string) (e : exn) (svs : list SessionVolume) (d1 : Catalog) (c : Conn Catalog) : Prop :=
  (exists svs1 sv svs2 rs d2 d3, svs = svs1 ++ sv :: svs2 /\ discs session svs1 rs d1 d2 /\
     stopped loc skip sv e d2 d3 /\ (committed c = d3 \/ committed c = marked session "PARTIAL" d3)) \/
  (exists rs d2, discs session svs rs d1 d2 /\ committed c = marked session (verdict_of rs) d2).

Lemma finish_spec session svs rs0 d1 d2 : discs session svs rs0 d1 d2 ->
  spec (on (fun c rs => at_rest d2 c /\ rs = rs0)) (finish_session cfg session loc)
    (fun rs => on (fun c _ => rs = rs0 /\ at_rest (marked session (verdict_of rs) d2) c))
    (fun e => on (fun c _ => session_raised session e svs d1 c)).
Proof.
  intros Hd. unfold finish_session. set (d3 := marked session (verdict_of rs0) d2).
  set (P := fun c (rs : list BurnReceipt) => at_rest d3 c).
  assert (forall e (s : BurnState W), on P s -> on (fun c _ => session_raised session e svs d1 c) s) as HP.
  { intros e s Hc. right. exists rs0, d2. split; [done|]. unfold on in *. by rewrite Hc. }
  eapply spec_bind; [apply spec_gets|]. intros rs.
  eapply (spec_bind _ _ _ (fun _ => fun s => rs = rs0 /\ on P s)).
  - intros s [[Hc Hrs] ->]. unfold catalog. rewrite Hc, update_session_run.
    2: { unfold verdict_of. destruct (existsb _ _); by apply sql_in_true. }
    split; [done|]. unfold on, P, at_rest. cbn [conn]. unfold d3, verdict_of. by rewrite Hrs.
  - intros ?. apply spec_pure. intros ->.
    eapply (spec_bind _ _ _ (fun _ => on P)).
    { apply spec_catalog. intros c rs Hc. by eexists _, _. }
    intros info. eapply (spec_bind _ _ _ (fun _ => on P)).
    { destruct info; [by apply spec_ret|]. by apply spec_write_receipts. }
    intros ?. eapply spec_bind; [by apply spec_write_durable|]. intros ?. by apply spec_ret.
Qed.

(** What comes before the first disc. *)
Lemma burn_session_start session_ref device interactive (s : BurnState W) d session : catalog_wf d ->
  conn s = mkConn d d false -> receipts s = [] ->
  resolve_session_id session_ref (mkConn d d false) = (Ok session, mkConn d d false) ->
  exists d1 w1, located d d1 /\
    burn_session cfg session_ref loc device skip interactive s =
    (_ ← for_enumerate (burn_volume cfg session loc
            (match device with Some x => if String.eqb x EmptyString then optical_device cfg else x
             | None => optical_device cfg end) skip (interactive && negb skip)
            (len (get_session_volumes session d))) 1 (get_session_volumes session d);
     finish_session cfg session loc) (mkState (mkConn d1 d1 false) w1 []).
Proof.
  intros Wf Hc Hrs Er. unfold burn_session. destruct s as [c w rs]. cbn in Hc, Hrs. subst c rs.
  rewrite (eff_bind_Ok _ _ _ session (mkState (mkConn d d false) w [])) by (unfold catalog; cbn [conn]; by rewrite Er).
  rewrite (eff_bind_Ok _ _ _ (get_session_volumes session d) (mkState (mkConn d d false) w [])) by done.
  destruct (utc_now w) as [now w1] eqn:Eu. destruct (ensure_location_run d now Wf) as (x & d1 & Hens & Hd1).
  exists d1, w1. split; [done|]. cbv zeta.
  by rewrite (eff_bind_Ok _ _ _ x (mkState (mkConn d1 d1 false) w1 [])) by
    (unfold timed, clock, mbind, eff_bind, outside, catalog; cbn; rewrite Eu; cbn; by rewrite Hens).
Qed.
Lemma burn_session_chain session_ref device interactive (s : BurnState W) d :
  catalog_wf d -> conn s = mkConn d d false -> receipts s = [] ->
  let '(r, s') := burn_session cfg session_ref loc device skip interactive s in
  match resolve_session_id session_ref (mkConn d d false) with
  | (Err e, _) => r = Err e /\ conn s' = mkConn d d false
  | (Ok session, _) =>
      exists d1, located d d1 /\
      match r with
      | Ok rs => exists d2, discs session (get_session_volumes session d) rs d1 d2 /\
          conn s' = mkConn (marked session (verdict_of rs) d2) (marked session (verdict_of rs) d2) false
      | Err e => session_raised session e (get_session_volumes session d) d1 (conn s')
      end
  end.
Proof.
  intros Wf Hc Hrs. pose proof (resolve_same session_ref (mkConn d d false)) as Hsame.
  destruct (resolve_session_id session_ref (mkConn d d false)) as [[session|e] c] eqn:Er; cbn in Hsame; subst c.
  2: { unfold burn_session. by rewrite (eff_bind_Err _ _ _ e (mkState (mkConn d d false) (world s) (receipts s))) by
         (unfold catalog; by rewrite Hc, Er). }
  destruct (burn_session_start session_ref device interactive s d session Wf Hc Hrs Er) as (d1 & w1 & Hd1 & ->).
  set (s1 := mkState (mkConn d1 d1 false) w1 []). set (svs := get_session_volumes session d).
  set (dev := match device with Some _ => _ | None => _ end).
  pose proof (located_wf _ _ Wf Hd1) as [W1 Hl1]. pose proof (located_volumes _ _ Hd1) as [Hvs1 _].
  assert (on (fun c rs => exists d2, discs session [] rs d1 d2 /\ at_rest d2 c) s1) as Hs1.
  { exists d1. split; [|done]. constructor. }
  assert (forall x, x ∈ svs -> sv_volume_id x ∈ volume_ids d1) as Hids.
  { intros y Hy. rewrite Hvs1. by eapply session_volume_known. }
  clearbody s1.
  match goal with |- let '(_, _) := ?m s1 in _ => assert (spec (on (fun c rs => exists d2, discs session [] rs d1 d2 /\ at_rest d2 c))
    m (fun rs => on (fun c _ => exists d2, discs session svs rs d1 d2 /\ at_rest (marked session (verdict_of rs) d2) c))
      (fun e => on (fun c _ => session_raised session e svs d1 c))) as Hspec end.
  { eapply spec_bind.
    - eapply (spec_for_enumerate (fun l => on (fun c rs => exists d2, discs session l rs d1 d2 /\ at_rest d2 c)) _ svs _ 1 []).
      intros k l1 sv l2 Hsplit. cbn [app]. intros s2 (d2 & Hd2 & Hc2).
      destruct (discs_keep _ _ _ _ _ Hd2 W1) as (W2 & Hi & Hn).
      assert (sv_volume_id sv ∈ volume_ids d2) as Hv by (rewrite Hi; apply Hids; rewrite Hsplit; set_solver).
      assert (loc ∈ location_names d2) as Hl2 by by rewrite Hn.
      pose proof (burn_volume_spec cfg session loc dev skip (interactive && negb skip) sv (len svs) k d2 (receipts s2) W2 Hv Hl2 s2 (conj Hc2 eq_refl)) as Hb.
      destruct (burn_volume _ _ _ _ _ _ _ _ _ s2) as [[[]|e] s'].
      + destruct Hb as (r & d3 & Hc3 & Hrs3 & Hb & Hrc). exists d3. split; [|done]. rewrite Hrs3. by econstructor.
      + destruct Hb as (d3 & Hst & Hc3). left. by exists l1, sv, l2, (receipts s2), d2, d3.
    - intros ?. intros s2 (d2 & Hd2 & Hc2).
      pose proof (finish_spec session svs (receipts s2) d1 d2 Hd2 s2 (conj Hc2 eq_refl)) as Hf.
      destruct (finish_session _ _ _ s2) as [[rs|e] s']; [|done]. destruct Hf as [-> Hf]. by exists d2. }
  specialize (Hspec s1 Hs1). match goal with |- let '(_, _) := ?x in _ => destruct x as [[rs|e] s'] end.
  - destruct Hspec as (d2 & Hd2 & Hc2). exists d1. split; [done|]. by exists d2.
  - exists d1. by split.
Qed.
End session.
