(* ===== verification/BurnSafe.v ===== *)
(** * Burning a session: safety, completion, and an interruption

    Over the outcomes of BurnProps: no volume counts as verified and no disc is recorded
    without a check of that disc; with a drive that works every volume of the session ends
    verified; and a session that was interrupted during a burn cannot be burned again. *)

From Stdlib Require Import Ascii.
From S2P Require Import Prelude PyString PyText Json Effects Sqlite Catalog VolumeEvents Queries Volumes VolumeCopies Locations BurnFrame Burn BurnProps.
Open Scope string_scope.
Open Scope list_scope.
Open Scope Z_scope.

(** ** One step of the session, and several *)

Section steps.
Context (loc : string) (skip : bool).

Record disc_step (sv : SessionVolume) (d d' : Catalog) : Prop := {
  ds_wf : catalog_wf d';
  ds_touched : touched (sv_volume_id sv) loc d d';
  ds_verified : status_of d (sv_volume_id sv) = Some "VERIFIED" -> status_of d' (sv_volume_id sv) = Some "VERIFIED";
  ds_new : status_of d' (sv_volume_id sv) = Some "VERIFIED" -> status_of d (sv_volume_id sv) <> Some "VERIFIED" ->
    evidence sv loc skip d d' /\ disc_recorded sv loc skip d';
  ds_copies : forall c, c ∈ volume_copies d' -> c ∈ volume_copies d \/
    (at_place (sv_volume_id sv) loc c = true /\ evidence sv loc skip d d');
}.

Lemma was_verified_true sv d : was_verified sv d = true <-> status_of d (sv_volume_id sv) = Some "VERIFIED".
Proof. apply bool_decide_eq_true. Qed.
Lemma was_verified_false sv d : was_verified sv d = false <-> status_of d (sv_volume_id sv) <> Some "VERIFIED".
Proof. apply bool_decide_eq_false. Qed.

Lemma burned_step sv passed d d' : volume_burned loc skip sv passed d d' -> disc_step sv d d'.
Proof.
  intros [_ [Wf Ht Hs Hp Hf]]. split; [done|done| | |].
  - intros Hv%was_verified_true. by rewrite Hs, Hv.
  - intros H1 H2%was_verified_false. rewrite Hs, H2 in H1. destruct passed; [auto|done].
  - intros c Hc. destruct passed; [|left; by rewrite <- (Hf eq_refl)].
    destruct (at_place (sv_volume_id sv) loc c) eqn:Ea; [right; split; [done|by apply Hp]|].
    left. by apply (tc_copies _ _ _ _ Ht).
Qed.
Lemma stopped_step sv e d d' : catalog_wf d -> stopped loc skip sv e d d' -> disc_step sv d d'.
Proof.
  intros Wf [-> |_ He Hv W' Ht Hs Hc|_ [W' Ht Hs Hc]|passed Hb]; [..|by eapply burned_step].
  - split; [done|reflexivity|done|done|by left].
  - split; [done|done| | |].
    + intros Hx%was_verified_true. congruence.
    + rewrite Hs. done.
    + intros c. rewrite Hc. by left.
  - split; [done|done| | |].
    + intros Hv%was_verified_true. by rewrite Hs, Hv.
    + intros H1 H2%was_verified_false. by rewrite Hs, H2 in H1.
    + intros c. rewrite Hc. by left.
Qed.

Lemma touched_status_other v d d' i : catalog_wf d -> catalog_wf d' -> touched v loc d d' -> i <> v ->
  status_of d' i = status_of d i.
Proof.
  intros Wf W' Ht Hi. unfold status_of. pose proof (touched_ids _ _ _ _ Ht) as Hids.
  destruct (find_volume d i) as [x|] eqn:Hx.
  - apply (find_volume_Some _ _ _ Wf) in Hx as [Hx <-]. destruct Ht as [HV _ _ _].
    apply list_elem_of_lookup in Hx as [k Hk]. destruct (Forall2_lookup_l _ _ _ _ _ HV Hk) as (y & Hy & Hxy).
    destruct Hxy as [->|[? _]]; [|done].
    assert (find_volume d' (volume_id x) = Some x) as ->; [|done].
    apply (find_volume_Some _ _ _ W'). split; [|done]. by eapply list_elem_of_lookup_2.
  - assert (find_volume d' i = None) as ->; [|done]. apply find_volume_None. rewrite Hids. by apply find_volume_None.
Qed.

Definition session_ids (svs : list SessionVolume) : list Z := sv_volume_id <$> svs.
(** What any part of a session leaves. *)
Record progress (svs : list SessionVolume) (d d' : Catalog) : Prop := {
  pg_wf : catalog_wf d';
  pg_other : forall i, i ∉ session_ids svs -> status_of d' i = status_of d i;
  pg_events : new_events (fun _ => True) d d';
  pg_verified : forall i, status_of d i = Some "VERIFIED" -> status_of d' i = Some "VERIFIED";
  pg_new : forall i, status_of d' i = Some "VERIFIED" -> status_of d i <> Some "VERIFIED" ->
    exists sv, sv ∈ svs /\ sv_volume_id sv = i /\ evidence sv loc skip d d' /\ disc_recorded sv loc skip d';
  pg_copies : forall c, c ∈ volume_copies d' -> c ∈ volume_copies d \/
    exists sv, sv ∈ svs /\ at_place (sv_volume_id sv) loc c = true /\ evidence sv loc skip d d';
  pg_rest : other_tables d' = other_tables d;
}.

Lemma new_events_l P d1 d2 d3 : new_events (fun _ => True) d1 d2 -> new_event P d2 d3 -> new_event P d1 d3.
Proof.
  intros (l & H & _) (evs & e & H2 & He & HP). exists (l ++ evs), e.
  rewrite H2, H, <- app_assoc. split_and!; [done|apply elem_of_app; by right|done].
Qed.
Lemma disc_recorded_kept x v d d' : disc_recorded x loc skip d -> touched v loc d d' -> sv_volume_id x <> v ->
  disc_recorded x loc skip d'.
Proof.
  intros (c & Hc & Ha & Hh & Hver) Ht Hne. exists c. split; [|done].
  apply (tc_copies _ _ _ _ Ht); [|done]. unfold active_at in Ha. apply andb_true_iff in Ha as [Ha _].
  apply at_place_true in Ha as [Ha _]. unfold at_place. rewrite (proj2 (sql_eq_false _ _)); [done|congruence].
Qed.
Lemma progress_snoc svs sv d d1 d2 : progress svs d d1 -> sv_volume_id sv ∉ session_ids svs ->
  disc_step sv d1 d2 -> progress (svs ++ [sv]) d d2.
Proof.
  intros [W1 Ho He Hv Hn Hc Hr] Hfresh [W2 Ht Hv2 Hn2 Hc2].
  assert (forall x, evidence x loc skip d d1 -> evidence x loc skip d d2) as Hev1.
  { intros x [?|Hx]; [by left|right]. by eapply new_event_r. }
  assert (forall x, evidence x loc skip d1 d2 -> evidence x loc skip d d2) as Hev2.
  { intros x [?|Hx]; [by left|right]. by eapply new_events_l. }
  assert (forall i, i <> sv_volume_id sv -> status_of d2 i = status_of d1 i) as Hst.
  { intros. by eapply touched_status_other. }
  split; [done|..].
  - intros i Hi. unfold session_ids in Hi. rewrite fmap_app in Hi. csimpl in Hi.
    rewrite elem_of_app, list_elem_of_singleton in Hi. rewrite Hst by tauto. apply Ho. tauto.
  - eapply new_events_trans; [exact He|]. destruct (tc_events _ _ _ _ Ht) as (l & Hl & _).
    exists l. split; [done|]. by apply Forall_true.
  - intros i Hi. destruct (decide (i = sv_volume_id sv)) as [->|Hne]; [auto|]. rewrite Hst by done. auto.
  - intros i H1 H2. destruct (decide (i = sv_volume_id sv)) as [->|Hne].
    + exists sv. rewrite elem_of_app, list_elem_of_singleton. destruct Hn2 as [He2 Hd2]; [done|by rewrite Ho|].
      split_and!; [by right|done|by apply Hev2|done].
    + rewrite Hst in H1 by done. destruct (Hn i H1 H2) as (x & Hx & Hxi & Hxe & (c & Hcin & Ha & Hh & Hvt)).
      exists x. rewrite elem_of_app. split_and!; [by left|done|by apply Hev1|].
      apply (disc_recorded_kept x (sv_volume_id sv) d1); [by exists c|done|congruence].
  - intros c [Hcin|[Ha Hev]]%Hc2.
    + destruct (Hc c Hcin) as [?|(x & Hx & Ha & Hev)]; [by left|right]. exists x.
      rewrite elem_of_app. split_and!; [by left|done|by apply Hev1].
    + right. exists sv. rewrite elem_of_app, list_elem_of_singleton. split_and!; [by right|done|by apply Hev2].
  - by rewrite (tc_rest _ _ _ _ Ht).
Qed.
Lemma progress_nil d : catalog_wf d -> progress [] d d.
Proof.
  intros Wf. split; try done; [by exists []; rewrite app_nil_r|by left].
Qed.
Lemma discs_progress session svs rs d d' : catalog_wf d -> discs loc skip session svs rs d d' ->
  NoDup (session_ids svs) -> progress svs d d'.
Proof.
  intros Wf. induction 1 as [d|svs rs d d1 d2 sv r _ IH Hb _]; intros Hnd; [by apply progress_nil|].
  unfold session_ids in Hnd. rewrite fmap_app in Hnd. apply NoDup_app in Hnd as (Hnd & Hdis & _).
  eapply progress_snoc; [by apply IH| |by eapply burned_step].
  intros Hin. apply (Hdis _ Hin). csimpl. by apply list_elem_of_singleton.
Qed.
End steps.

(** ** Safety *)

Lemma session_volume_ids session d : catalog_wf d -> NoDup (session_ids (get_session_volumes session d)).
Proof.
  intros Wf. unfold session_ids, get_session_volumes. rewrite order_by_perm.
  pose proof (wf_session_volume _ Wf) as Hnd. induction (session_volumes d) as [|x l IH]; csimpl in *; [constructor|].
  apply NoDup_cons in Hnd as [Hx Hnd]. unfold where_ in *. cbn [List.filter]. destruct (sql_eq (sv_session_id x) session) eqn:Ex; [|auto].
  csimpl. constructor; [|auto]. intros (y & Hy & [Hs Hin]%elem_of_where)%list_elem_of_fmap. apply Hx.
  apply list_elem_of_fmap. exists y. split; [|done]. sql. congruence.
Qed.
Lemma elem_of_session_volumes session d x : x ∈ get_session_volumes session d -> x ∈ session_volumes d.
Proof. unfold get_session_volumes. rewrite elem_of_order_by, elem_of_where. by intros [_ ?]. Qed.

Section safety.
Context {W : Type} `{Machine W}.
Context (cfg : BurnConfig) (loc : string) (skip : bool).

(** Whatever happens, the committed catalog is that of some progress. *)
Lemma burn_session_progress session_ref device interactive (s : BurnState W) d :
  catalog_wf d -> conn s = mkConn d d false -> receipts s = [] ->
  let d' := committed (conn (burn_session cfg session_ref loc device skip interactive s).2) in
  d' = d \/ exists svs d1 d2, (forall x, x ∈ svs -> x ∈ session_volumes d) /\ located loc d d1 /\
    progress loc skip svs d1 d2 /\ (d' = d2 \/ exists session st, d' = marked session st d2).
Proof.
  intros Wf Hc Hrs. pose proof (burn_session_chain cfg loc skip session_ref device interactive s d Wf Hc Hrs) as Hb.
  destruct (burn_session _ _ _ _ _ _ s) as [r s']. cbn [snd].
  destruct (resolve_session_id session_ref (mkConn d d false)) as [[session|e] c].
  2: { left. destruct Hb as [_ Hb]. by rewrite Hb. }
  right. destruct Hb as (d1 & Hd1 & Hr). destruct (located_wf _ _ _ Wf Hd1) as [W1 _].
  set (svs := get_session_volumes session d) in *.
  assert (NoDup (session_ids svs)) as Hnd by by apply session_volume_ids.
  assert (forall x, x ∈ svs -> x ∈ session_volumes d) as Hin by (intros x; apply elem_of_session_volumes).
  destruct r as [rs|e].
  - destruct Hr as (d2 & Hd2 & Hc2). exists svs, d1, d2. split_and!; [done..|by eapply discs_progress|].
    right. eexists _, _. by rewrite Hc2.
  - destruct Hr as [(l1 & sv & l2 & rs & d2 & d3 & Hsplit & Hd2 & Hst & Hc3)|(rs & d2 & Hd2 & Hc2)].
    + exists (l1 ++ [sv]), d1, d3. rewrite Hsplit in Hnd, Hin. unfold session_ids in Hnd. rewrite fmap_app in Hnd.
      apply NoDup_app in Hnd as (Hnd & Hdis & _). csimpl in Hdis.
      assert (progress loc skip l1 d1 d2) as Hp by by eapply discs_progress.
      split_and!; [intros x Hx; apply Hin; set_solver|done| |].
      * eapply progress_snoc; [done| |eapply stopped_step; [apply Hp|done]]. intros Hx. apply (Hdis _ Hx). by left.
      * destruct Hc3 as [?|?]; [by left|right; eauto].
    + exists svs, d1, d2. split_and!; [done..|by eapply discs_progress|]. right. eauto.
Qed.

(** C21.  A burn of a session, whatever the drive, the operator and the file system do, is a
    sequence of discs: it returns when every volume was burned and checked, with a receipt
    each, and marks the session by the verdicts; or it raises, and what is committed is
    what the discs so far left and one of the outcomes of the disc at hand (not started,
    back in STAGING, burned, or BURNING if it was interrupted), or all of the discs. *)
Theorem burn_session_refines session_ref device interactive (s : BurnState W) d :
  catalog_wf d -> conn s = mkConn d d false -> receipts s = [] ->
  let '(r, s') := burn_session cfg session_ref loc device skip interactive s in
  match resolve_session_id session_ref (mkConn d d false) with
  | (Err e, _) => r = Err e /\ conn s' = mkConn d d false
  | (Ok session, _) =>
      exists d1, located loc d d1 /\
      match r with
      | Ok rs => exists d2, discs loc skip session (get_session_volumes session d) rs d1 d2 /\
          conn s' = mkConn (marked session (verdict_of rs) d2) (marked session (verdict_of rs) d2) false
      | Err e => session_raised loc skip session e (get_session_volumes session d) d1 (conn s')
      end
  end.
Proof. apply burn_session_chain. Qed.

(** C22.  However a burn of a session ends (all discs done, an error, an interruption), in
    the catalog that is committed: no volume lost its status VERIFIED (a BURNED one may go
    back to STAGING); a volume that is newly VERIFIED is one of a session, has a disc in
    service at the location, with the hash of the image where one was recorded, and, unless
    the burn was asked to skip the drive, a check of that disc that passed after the burn
    began; no other disc was recorded or changed; and which packs are on which volume is as
    before.  With [skip_burn] the volumes become VERIFIED unchecked, as the code means it. *)
Theorem burn_session_safe session_ref device interactive (s : BurnState W) d :
  catalog_wf d -> conn s = mkConn d d false -> receipts s = [] ->
  let d' := committed (conn (burn_session cfg session_ref loc device skip interactive s).2) in
  (forall i, status_of d i = Some "VERIFIED" -> status_of d' i = Some "VERIFIED") /\
  (forall i, status_of d' i = Some "VERIFIED" -> status_of d i <> Some "VERIFIED" ->
     exists sv, sv ∈ session_volumes d /\ sv_volume_id sv = i /\ evidence sv loc skip d d' /\
       disc_recorded sv loc skip d') /\
  (forall c, c ∈ volume_copies d' -> c ∈ volume_copies d \/
     exists sv, sv ∈ session_volumes d /\ at_place (sv_volume_id sv) loc c = true /\ evidence sv loc skip d d') /\
  volume_packs d' = volume_packs d /\ packs d' = packs d.
Proof.
  intros Wf Hc Hrs. pose proof (burn_session_progress session_ref device interactive s d Wf Hc Hrs) as Hp.
  set (d' := committed _) in *. cbn zeta in Hp. destruct Hp as [Hp|(svs & d1 & d2 & Hin & Hd1 & Hp & Hd')].
  { rewrite Hp. split_and!; try done. by left. }
  assert (volumes d' = volumes d2 /\ volume_copies d' = volume_copies d2 /\ volume_events d' = volume_events d2 /\
    volume_packs d' = volume_packs d2 /\ packs d' = packs d2) as (Ev & Ec & Ee & El & Ep).
  { by destruct Hd' as [->|(? & ? & ->)]. }
  assert (volumes d1 = volumes d /\ volume_copies d1 = volume_copies d /\ volume_events d1 = volume_events d /\
    volume_packs d1 = volume_packs d /\ packs d1 = packs d) as (Ev1 & Ec1 & Ee1 & El1 & Ep1).
  { by destruct Hd1 as [[_ ->]|[_ [? ->]]]. }
  assert (forall i, status_of d' i = status_of d2 i) as Es by (intros; unfold status_of, find_volume; by rewrite Ev).
  assert (forall i, status_of d1 i = status_of d i) as Es1 by (intros; unfold status_of, find_volume; by rewrite Ev1).
  assert (forall x, evidence x loc skip d1 d2 -> evidence x loc skip d d') as Hev.
  { intros x [?|Hx]; [by left|right]. unfold new_event in *. by rewrite Ee, <- Ee1. }
  assert (forall x, disc_recorded x loc skip d2 -> disc_recorded x loc skip d') as Hrec.
  { intros x. unfold disc_recorded. by rewrite Ec. }
  destruct Hp as [_ _ _ Hv Hn Hcs Hr]. assert (packs d2 = packs d1 /\ volume_packs d2 = volume_packs d1) as [Hr1 Hr2] by (by injection Hr).
  split_and!.
  - intros i. rewrite Es, <- Es1. apply Hv.
  - intros i. rewrite Es, <- Es1. intros H1 H2. destruct (Hn i H1 H2) as (sv & ? & ? & ? & ?). exists sv. auto.
  - intros c. rewrite Ec, <- Ec1. intros [?|(sv & ? & ? & ?)]%Hcs; [by left|]. right. exists sv. auto.
  - congruence.
  - congruence.
Qed.
End safety.

(** ** What a passed check means *)

Section check.
Context {W : Type} `{Machine W}.
Implicit Types (s : BurnState W).

Lemma outside_inv {A} (m : eff W A) s a s' : outside m s = (Ok a, s') ->
  exists w, m (world s) = (Ok a, w) /\ s' = mkState (conn s) w (receipts s).
Proof. unfold outside. destruct (m (world s)) as [[b|e] w]; intros [= <- <-]. by exists w. Qed.
Lemma verdict_inv sv loc b det s b' s' : verdict sv loc b det s = (Ok b', s') -> b' = b.
Proof. intros (e & s1 & _ & [= <- _])%eff_bind_Ok_inv. done. Qed.
Lemma compare_disc_inv sv device loc expected n s s' :
  compare_disc sv device loc expected n s = (Ok true, s') ->
  exists w, device_reader device n (world s) = (Ok expected, w).
Proof.
  intros (r & s1 & Hr & Hv)%eff_bind_Ok_inv. destruct r as [h|e]; [|by apply verdict_inv in Hv].
  destruct (String.eqb_spec h expected) as [->|]; [|by apply verdict_inv in Hv].
  apply handle_Ok_inv in Hr as [Hr|(e & s2 & k & _ & Hk & Hr)].
  - apply eff_bind_Ok_inv in Hr as (h & s2 & (w & Hw & _)%outside_inv & [= <- _]). by exists w.
  - destruct (caught _ e); [|done]. injection Hk as <-. done.
Qed.
Lemma expected_hash_inv sv iso s x s' : expected_hash sv iso s = (Ok x, s') ->
  if String.eqb (default EmptyString (sv_iso_sha256 sv)) EmptyString then
    exists w, (path_exists iso (world s) = (Ok false, w) /\ x = None) \/
      (path_exists iso (world s) = (Ok true, w) /\ exists h w', sha256_file iso w = (Ok h, w') /\ x = Some h)
  else x = sv_iso_sha256 sv /\ s' = s.
Proof.
  unfold expected_hash. destruct (String.eqb _ _) eqn:Ee.
  - intros (here & s1 & (w & Hw & ->)%outside_inv & Hx)%eff_bind_Ok_inv. exists w. destruct here.
    + right. split; [done|]. apply eff_bind_Ok_inv in Hx as (h & s2 & (w' & Hw' & _)%outside_inv & [= <- _]). by exists h, w'.
    + left. by injection Hx as <- _.
  - intros [= <- <-]. by destruct (sv_iso_sha256 sv).
Qed.
Lemma image_size_inv sv iso s x s' : image_size sv iso s = (Ok x, s') ->
  forall m, sv_iso_size_bytes sv = Some m -> x = Some m /\ s' = s.
Proof. unfold image_size. intros Hx m Hm. rewrite Hm in Hx. by injection Hx as <- <-. Qed.

(** C23.  When the check of a burned disc passes, the drive could read the disc, it
    identified itself by the label of the volume, and reading back gave the hash recorded
    for the image, over its recorded length; without a recorded hash, the hash of the
    image that is still there.  Only when both the record and the image are missing is the
    readable disc with the right label enough. *)
Theorem passed_check_read_image sv lab device loc iso s s' :
  _verify_burned_disc sv lab device loc iso s = (Ok true, s') ->
  exists w1 w2, verify_disc device (world s) = (Ok true, w1) /\
    read_disc_volume_id device w1 = (Ok lab, w2) /\
    if String.eqb (default EmptyString (sv_iso_sha256 sv)) EmptyString then
      exists w3, path_exists iso w2 = (Ok false, w3) \/
        (path_exists iso w2 = (Ok true, w3) /\ exists h w4 n w5 w6,
           sha256_file iso w3 = (Ok h, w4) /\ device_reader device n w5 = (Ok h, w6))
    else
      exists h n w5 w6, sv_iso_sha256 sv = Some h /\ device_reader device n w5 = (Ok h, w6) /\
        (forall m, sv_iso_size_bytes sv = Some m -> n = m /\ w5 = w2).
Proof.
  intros (readable & s1 & (w1 & Hw1 & ->)%outside_inv & H1)%eff_bind_Ok_inv.
  destruct readable; cbn [negb] in H1; [|by apply verdict_inv in H1].
  apply eff_bind_Ok_inv in H1 as (id & s2 & (w2 & Hw2 & ->)%outside_inv & H2). cbn [conn world receipts] in *.
  destruct (String.eqb_spec id lab) as [->|]; cbn [negb] in H2; [|by apply verdict_inv in H2].
  apply eff_bind_Ok_inv in H2 as (x & s3 & Hx%expected_hash_inv & H3). cbn [conn world receipts] in *.
  exists w1, w2. split_and!; [done..|]. destruct (String.eqb _ _) eqn:Ee.
  - destruct Hx as (w3 & [[Hp ->]|(Hp & h & w4 & Hh & ->)]); exists w3; [by left|right]. split; [done|].
    apply eff_bind_Ok_inv in H3 as ([n|] & s4 & _ & H4); [|by apply verdict_inv in H4].
    apply compare_disc_inv in H4 as [w6 Hw6]. by exists h, w4, n, (world s4), w6.
  - destruct Hx as [-> ->]. destruct (sv_iso_sha256 sv) as [h|] eqn:Eh.
    + apply eff_bind_Ok_inv in H3 as ([n|] & s4 & Hn & H4); [|by apply verdict_inv in H4].
      apply compare_disc_inv in H4 as [w6 Hw6]. exists h, n, (world s4), w6. split_and!; [done..|].
      intros m Hm. by destruct (image_size_inv _ _ _ _ _ Hn m Hm) as [[= ->] ->].
    + discriminate Ee.
Qed.
End check.

(** ** After an interruption *)

Section interrupted.
Context {W : Type} `{Machine W}.
Context (cfg : BurnConfig) (loc : string) (skip : bool).

Lemma burning_not_startable sv d : status_of d (sv_volume_id sv) = Some "BURNING" -> ~ startable sv d.
Proof. intros Hs (st & Hst & Hc). rewrite Hs in Hst. injection Hst as <-. destruct Hc as [?|Hc]; [done|]. by apply sql_in_true in Hc. Qed.
Lemma discs_startable session svs rs d d' sv : catalog_wf d -> discs loc skip session svs rs d d' ->
  NoDup (session_ids svs) -> sv ∈ svs -> status_of d (sv_volume_id sv) <> Some "BURNING".
Proof.
  intros Wf Hd Hnd Hin Hs. induction Hd as [d|svs rs d d1 d2 x r Hd IH Hb _]; [by inv Hin|].
  unfold session_ids in Hnd. rewrite fmap_app in Hnd. apply NoDup_app in Hnd as (Hnd & Hdis & _).
  apply elem_of_app in Hin as [Hin| ->%list_elem_of_singleton]; [by apply IH|].
  destruct Hb as [Hst _]. revert Hst. apply burning_not_startable.
  rewrite (pg_other _ _ _ _ _ (discs_progress loc skip session svs rs d d1 Wf Hd Hnd)); [done|].
  intros Hx. apply (Hdis _ Hx). csimpl. by apply list_elem_of_singleton.
Qed.

(** C40.  A volume whose burn was interrupted stays BURNING, and with it the session it
    belongs to can never be burned again: every attempt raises, and leaves the volume
    BURNING, whatever the drive does. *)
Theorem interrupted_burn_blocks session_ref session device interactive (s : BurnState W) d sv :
  catalog_wf d -> conn s = mkConn d d false -> receipts s = [] ->
  resolve_session_id session_ref (mkConn d d false) = (Ok session, mkConn d d false) ->
  sv ∈ get_session_volumes session d -> status_of d (sv_volume_id sv) = Some "BURNING" ->
  let '(r, s') := burn_session cfg session_ref loc device skip interactive s in
  (exists e, r = Err e) /\ status_of (committed (conn s')) (sv_volume_id sv) = Some "BURNING".
Proof.
  intros Wf Hc Hrs Hres Hin Hs. pose proof (burn_session_chain cfg loc skip session_ref device interactive s d Wf Hc Hrs) as Hb.
  destruct (burn_session _ _ _ _ _ _ s) as [r s']. rewrite Hres in Hb. destruct Hb as (d1 & Hd1 & Hr).
  destruct (located_wf _ _ _ Wf Hd1) as [W1 _]. pose proof (session_volume_ids session d Wf) as Hnd.
  assert (status_of d1 (sv_volume_id sv) = Some "BURNING") as Hs1.
  { destruct (located_volumes _ _ _ Hd1) as [Hv _]. unfold status_of, find_volume in *. by rewrite Hv. }
  destruct r as [rs|e].
  { destruct Hr as (d2 & Hd2 & _). by destruct (discs_startable _ _ _ _ _ _ W1 Hd2 Hnd Hin). }
  split; [by exists e|]. destruct Hr as [(l1 & x & l2 & rs & d2 & d3 & Hsplit & Hd2 & Hst & Hc3)|(rs & d2 & Hd2 & _)].
  2: { by destruct (discs_startable _ _ _ _ _ _ W1 Hd2 Hnd Hin). }
  rewrite Hsplit in Hnd. unfold session_ids in Hnd. rewrite fmap_app in Hnd. apply NoDup_app in Hnd as (Hnd & Hdis & _).
  assert (sv_volume_id sv ∉ session_ids l1) as Hfresh.
  { intros (y & Hy & Hyin)%list_elem_of_fmap. pose proof (discs_startable _ _ _ _ _ y W1 Hd2 Hnd Hyin) as Hne. congruence. }
  pose proof (discs_progress _ _ _ _ _ _ _ W1 Hd2 Hnd) as Hp.
  assert (status_of d2 (sv_volume_id sv) = Some "BURNING") as Hs2 by by rewrite (pg_other _ _ _ _ _ Hp).
  assert (status_of d3 (sv_volume_id sv) = Some "BURNING") as Hs3.
  { destruct (decide (sv_volume_id sv = sv_volume_id x)) as [Heq|Hne].
    - rewrite Heq in Hs2. pose proof (burning_not_startable x d2 Hs2) as Hno. rewrite Heq.
      destruct Hst as [-> | | |passed [? _]]; by try done.
    - rewrite <- Hs2. destruct (stopped_step loc skip x e d2 d3 (pg_wf _ _ _ _ _ Hp) Hst) as [W3 Ht _ _ _].
      eapply touched_status_other; [apply Hp|done..]. }
  destruct Hc3 as [-> | ->]; done.
Qed.
End interrupted.

(** ** With a drive that works *)

Section works.
Context {W : Type} `{Machine W}.
Context (cfg : BurnConfig) (loc device : string).
(** A disc that can be written is in the drive. *)
Context (blank : W -> Prop).

(** A disc in the drive that holds the image of [sv]. *)
Definition holds_image (sv : SessionVolume) (lab : string) (w : W) : Prop :=
  exists h n w2 w3 w4, sv_iso_sha256 sv = Some h /\ h <> EmptyString /\ sv_iso_size_bytes sv = Some n /\
    verify_disc device w = (Ok true, w2) /\ read_disc_volume_id device w2 = (Ok lab, w3) /\
    device_reader device n w3 = (Ok h, w4).
(** The operator puts a blank disc into the drive when asked for one; the drive then does
    not call it closed, takes the image and holds it.  Nothing is said of the drive at any
    other time: after a burn, and until the operator has changed the disc, it may answer
    whatever it likes.  The images are there and the receipts can be written. *)
Record works (svs : list SessionVolume) (d : Catalog) : Prop := {
  wk_insert : forall i n lab w, exists w', checkpoint (insert_prompt i n lab device) w = (Ok tt, w') /\ blank w';
  wk_media : forall w, blank w -> exists st w', media_status device w = (Ok st, w') /\ st <> CLOSED /\ blank w';
  wk_image : forall sv w, sv ∈ svs -> blank w -> exists w', path_exists (iso_path sv) w = (Ok true, w') /\ blank w';
  wk_clock : forall w, blank w -> blank (utc_now w).2;
  wk_burn : forall sv vol w, sv ∈ svs -> find_volume d (sv_volume_id sv) = Some vol -> blank w ->
    exists w', burn_iso (iso_path sv) device w = (Ok tt, w') /\ holds_image sv (label vol) w';
  wk_eject : forall w, exists b w', eject_tray device w = (Ok b, w');
  wk_label : forall lab w, exists w', checkpoint (label_prompt lab loc) w = (Ok tt, w');
  wk_dir : forall p w, exists w', ensure_dir p w = (Ok tt, w');
  wk_receipt : forall p r w, exists w', write_receipt p r w = (Ok tt, w');
}.

Abbreviation no_error := (fun (_ : exn) (_ : BurnState W) => False).
Lemma spec_works {A} (m : eff W A) (X : A -> Prop) P : (forall w, exists a w', m w = (Ok a, w') /\ X a) ->
  spec (on P) (outside m) (fun a s => X a /\ on P s) no_error.
Proof. intros Hm s Hs. destruct (Hm (world s)) as (a & w' & Ha & HX). unfold outside. rewrite Ha. by split. Qed.
Lemma spec_works_unit (m : eff W unit) P : (forall w, exists w', m w = (Ok tt, w')) ->
  spec (on P) (outside m) (fun _ => on P) no_error.
Proof.
  intros Hm s Hs. destruct (Hm (world s)) as [w' Hw]. unfold outside. by rewrite Hw.
Qed.
Definition ready P (s : BurnState W) : Prop := on P s /\ blank (world s).
Lemma spec_ready {A} (m : eff W A) (X : A -> Prop) P :
  (forall w, blank w -> exists a w', m w = (Ok a, w') /\ X a /\ blank w') ->
  spec (ready P) (outside m) (fun a s => X a /\ ready P s) no_error.
Proof. intros Hm s [Hs Hb]. destruct (Hm (world s) Hb) as (a & w' & Ha & HX & Hb'). unfold outside. rewrite Ha. by split_and!. Qed.
(** The catalog's operations leave the disc where it is. *)
Lemma blank_begin sv d : (forall w, blank w -> blank (utc_now w).2) ->
  spec (fun s => blank (world s)) (begin_burn sv d) (fun _ s => blank (world s)) (fun _ s => blank (world s)).
Proof.
  intros Hck. unfold begin_burn.
  assert (forall A (m : dbc A), spec (fun s : BurnState W => blank (world s)) (catalog m)
    (fun _ s => blank (world s)) (fun _ s => blank (world s))) as Hcat.
  { intros A m s Hs. unfold catalog. by destruct (m (conn s)) as [[a|e] c]. }
  destruct (negb _); [|by apply spec_ret]. eapply (spec_bind _ _ _ (fun _ s => blank (world s))); [|intros ?; apply Hcat].
  eapply (spec_bind _ _ _ (fun _ s => blank (world s))); [|intros ?; apply Hcat].
  intros s Hs. unfold clock, outside. specialize (Hck _ Hs). by destruct (utc_now (world s)).
Qed.
Lemma durable_works P rs : (forall p w, exists w', ensure_dir p w = (Ok tt, w')) ->
  (forall p r w, exists w', write_receipt p r w = (Ok tt, w')) ->
  spec (on P) (_write_durable_receipts cfg rs loc) (fun _ => on P) no_error.
Proof.
  intros Hd Hw. unfold _write_durable_receipts. eapply spec_bind; [by apply spec_works_unit|]. intros ?.
  eapply (spec_for_each (fun _ => on P) _ _ []). intros l1 r l2 _. by apply spec_works_unit.
Qed.
Lemma receipts_work P rs dir : (forall p w, exists w', ensure_dir p w = (Ok tt, w')) ->
  (forall p r w, exists w', write_receipt p r w = (Ok tt, w')) ->
  spec (on P) (_write_receipts rs dir loc) (fun _ => on P) no_error.
Proof.
  intros Hd Hw. unfold _write_receipts. eapply spec_bind; [by apply spec_works_unit|]. intros ?.
  eapply (spec_for_each (fun _ => on P) _ _ []). intros l1 r l2 _. by apply spec_works_unit.
Qed.

Section disc.
Context (sv : SessionVolume) (d0 : Catalog) (rs0 : list BurnReceipt) (is_reburn : bool).
Hypotheses (W0 : catalog_wf d0) (Hv : sv_volume_id sv ∈ volume_ids d0) (Hl : loc ∈ location_names d0)
  (Hstatus : status_of d0 (sv_volume_id sv) = Some (if is_reburn then "VERIFIED" else "BURNING")).

Lemma verify_works lab iso :
  spec (fun s => on (tx d0 rs0 (eq d0)) s /\ holds_image sv lab (world s))
    (_verify_burned_disc sv lab device loc iso)
    (fun b s => b = true /\ on (tx d0 rs0 (checked loc false sv d0 true)) s) no_error.
Proof using W0 Hv Hl.
  intros s [Hs (h & n & w2 & w3 & w4 & Hh & Hne & Hn & Hv2 & Hid & Hrd)]. unfold _verify_burned_disc.
  rewrite (eff_bind_Ok _ _ _ true (mkState (conn s) w2 (receipts s))) by (unfold outside; by rewrite Hv2).
  cbn [negb]. rewrite (eff_bind_Ok _ _ _ lab (mkState (conn s) w3 (receipts s))) by
    (unfold outside; cbn [world conn receipts]; by rewrite Hid).
  rewrite String.eqb_refl. cbn [negb]. unfold expected_hash. rewrite Hh.
  assert (String.eqb (default EmptyString (Some h)) EmptyString = false) as -> by (by apply String.eqb_neq). rewrite (eff_bind_Ok _ _ _ (Some h) (mkState (conn s) w3 (receipts s))) by done.
  unfold image_size. rewrite Hn. rewrite (eff_bind_Ok _ _ _ (Some n) (mkState (conn s) w3 (receipts s))) by done.
  unfold compare_disc. rewrite (eff_bind_Ok _ _ _ (inl h) (mkState (conn s) w4 (receipts s))).
  2: { unfold read_back. apply handle_Ok. unfold mbind, eff_bind, outside. cbn [world conn receipts]. by rewrite Hrd. }
  rewrite String.eqb_refl.
  eapply (verdict_spec loc false sv d0 rs0 W0 Hv Hl true _ (fun _ _ => False)). exact Hs.
Qed.

Lemma burn_disc_works session svs d vol vol0 : works svs d -> sv ∈ svs ->
  find_volume d (sv_volume_id sv) = Some vol0 -> label vol = label vol0 ->
  spec (ready (tx d0 rs0 (eq d0))) (burn_disc cfg session loc device false sv vol is_reburn)
    (fun r _ => verify_passed r = true) no_error.
Proof using W0 Hv Hl Hstatus.
  intros [] Hin Hvol Hlab. unfold burn_disc. cbn [negb].
  eapply (spec_bind _ _ _ (fun _ s => on (tx d0 rs0 (eq d0)) s /\ holds_image sv (label vol) (world s))).
  { intros s [Hs Hb]. destruct (wk_burn0 sv vol0 (world s) Hin Hvol Hb) as (w' & Hw & Hh). unfold outside. by rewrite Hw, Hlab. }
  intros ?. eapply spec_bind; [apply verify_works|]. intros passed. apply spec_pure. intros ->. cbn [andb].
  eapply (spec_bind _ _ _ (fun t s => is_Some t /\ on (tx d0 rs0 (checked loc false sv d0 true)) s)).
  { eapply spec_bind; [apply spec_clock|]. intros t. apply spec_ret. intros s Hs. by split. }
  intros t. apply spec_pure. intros Ht.
  eapply spec_bind; [apply (settle_spec loc false sv d0 rs0 W0 Hv Hl is_reburn Hstatus)|]. intros ?.
  eapply spec_bind; [by apply (record_disc_spec loc false sv d0 rs0 Hv Hl is_reburn)|]. intros ?.
  eapply (spec_bind _ _ _ (fun _ => on (fun _ _ => True))).
  { apply spec_catalog. intros c rs _. by eexists _, _. }
  intros ?. eapply (spec_bind _ _ _ (fun _ => on (fun _ _ => True))).
  { apply spec_catalog. intros c rs _. by eexists _, _. }
  intros ids. eapply spec_bind; [apply spec_clock|]. intros date.
  eapply (spec_bind _ _ _ (fun _ => on (fun _ _ => True))); [by apply spec_receipt|].
  intros ?. eapply spec_bind; [by apply durable_works|]. intros ?. by apply spec_ret.
Qed.
End disc.

Definition label_of (d : Catalog) (i : Z) : option string := label <$> find_volume d i.
Lemma touched_label v d d' i : catalog_wf d -> catalog_wf d' -> touched v loc d d' -> label_of d' i = label_of d i.
Proof.
  intros Wf W' Ht. unfold label_of. pose proof (touched_ids _ _ _ _ Ht) as Hids.
  destruct (find_volume d i) as [x|] eqn:Hx.
  - apply (find_volume_Some _ _ _ Wf) in Hx as [Hx <-]. destruct Ht as [HV _ _ _].
    apply list_elem_of_lookup in Hx as [k Hk]. destruct (Forall2_lookup_l _ _ _ _ _ HV Hk) as (y & Hy & Hxy).
    assert (find_volume d' (volume_id x) = Some y) as ->.
    { apply (find_volume_Some _ _ _ W'). split; [by eapply list_elem_of_lookup_2|by eapply volume_step_id]. }
    by destruct Hxy as [->|[_ (? & ? & ? & ->)]].
  - assert (find_volume d' i = None) as ->; [|done]. apply find_volume_None. rewrite Hids. by apply find_volume_None.
Qed.
Lemma discs_label session svs rs d d' i : catalog_wf d -> discs loc false session svs rs d d' -> label_of d' i = label_of d i.
Proof.
  intros Wf. induction 1 as [d|svs rs d d1 d2 sv r Hd IH [_ [W2 Ht _ _ _]] _]; [done|].
  rewrite <- IH by done. eapply touched_label; [by apply (discs_keep loc false session svs rs d d1 Hd Wf)|done..].
Qed.

Lemma burn_volume_works n i session svs d d1 rs0 sv : works svs d -> sv ∈ svs -> catalog_wf d1 ->
  loc ∈ location_names d1 -> startable sv d1 -> label_of d1 (sv_volume_id sv) = label_of d (sv_volume_id sv) ->
  spec (on (fun c rs => at_rest d1 c /\ rs = rs0)) (burn_volume cfg session loc device false true n i sv)
    (fun _ => on (fun _ rs => exists r, rs = rs0 ++ [r] /\ verify_passed r = true)) no_error.
Proof.
  intros Hw Hin W1 Hl Hst Hlab. pose proof Hst as (st & Hst1 & _). unfold status_of in Hst1.
  destruct (find_volume d1 (sv_volume_id sv)) as [x|] eqn:Hx; [|done]. clear st Hst1.
  unfold label_of in Hlab. rewrite Hx in Hlab. destruct (find_volume d (sv_volume_id sv)) as [vol|] eqn:Hvol; [|done].
  injection Hlab as Hlab. unfold burn_volume. cbn [negb andb].
  set (P := fun c rs => at_rest d1 c /\ rs = rs0).
  assert (sql_eq (status x) "VERIFIED" = was_verified sv d1) as Hre.
  { unfold was_verified, status_of. rewrite Hx. cbn. unfold sql_eq. apply bool_decide_ext. split; congruence. }
  eapply (spec_bind _ _ _ (fun y => on (fun c rs => y = x /\ P c rs))).
  { apply spec_catalog. intros c rs [-> ->]. rewrite (get_volume_by_id_Ok (mkConn d1 d1 false) _ x Hx). by eexists _, _. }
  intros y. apply (spec_pure _ (on P)). intros ->.
  eapply (spec_bind _ _ _ (fun _ => ready P)).
  { eapply (spec_bind _ _ _ (fun _ => ready P)).
    - intros s Hs. destruct (wk_insert _ _ Hw i n (label x) (world s)) as (w' & Hck & Hb). unfold outside. by rewrite Hck.
    - intros ?. unfold _assert_blank_media. eapply spec_bind; [apply (spec_ready _ (fun st => st <> CLOSED)), (wk_media _ _ Hw)|].
      intros st. apply spec_pure. intros Hns. rewrite bool_decide_false by done. by apply spec_ret. }
  intros ?. eapply (spec_bind _ _ _ (fun _ => ready P)).
  { eapply spec_bind.
    - apply (spec_ready _ (fun b => b = true)). intros w Hb. destruct (wk_image _ _ Hw sv w Hin Hb) as (w' & Hw' & ?). by exists true, w'.
    - intros b. apply spec_pure. intros ->. by apply spec_ret. }
  intros ?. rewrite Hre. eapply spec_bind.
  { eapply spec_conseq; [apply (spec_and _ _ _ _ _ no_error _ (begin_runs loc sv d1 rs0 no_error W1 Hst) (blank_begin sv d1 (wk_clock _ _ Hw)))|done| |by intros e s [[] _]].
    intros u s Hs. exact Hs. }
  intros ?. apply (spec_pre (fun s => exists d2, begun loc sv d1 d2 /\ ready (fun c rs => at_rest d2 c /\ rs = rs0) s)).
  2: { intros s [(d2 & Hb & Hs) Hbl]. exists d2. by split_and!. }
  apply spec_exists. intros d2. apply spec_pure. intros Hb.
  pose proof Hb as [W2 Ht Hs Hc Hsame _].
  assert (sv_volume_id sv ∈ volume_ids d2) as Hv2.
  { rewrite (touched_ids _ _ _ _ Ht). apply (find_volume_Some _ _ _ W1) in Hx as [Hx <-]. by apply list_elem_of_fmap_2. }
  assert (loc ∈ location_names d2) as Hl2 by by rewrite (touched_locations _ _ _ _ Ht).
  eapply (spec_bind _ _ _ (fun r => on (fun _ rs => rs = rs0 ++ [r] /\ verify_passed r = true))).
  { eapply (spec_handle _ _ _ _ (fun _ _ => False)).
    - eapply spec_conseq.
      + apply spec_and.
        * apply (burn_disc_spec cfg session loc device false sv d2 rs0 W2 Hv2 Hl2 (was_verified sv d1) Hs x).
        * apply (burn_disc_works sv d2 rs0 (was_verified sv d1) W2 Hv2 Hl2 Hs session svs d x vol Hw Hin Hvol Hlab).
      + intros s [[Hr Hrs] Hbl]. unfold ready, on, tx in *. rewrite Hr. by split_and!.
      + intros r s [[_ Hrs] Hp]. by split.
      + by intros e s [_ ?].
    - intros e k _ s [].
    - done. }
  intros r. destruct (verify_passed r) eqn:Hp.
  2: { intros s [_ Hf]. congruence. }
  set (Q := fun (_ : Conn Catalog) rs => exists r, rs = rs0 ++ [r] /\ verify_passed r = true).
  eapply spec_pre; [|intros s [Hrs _]; instantiate (1 := on Q); by exists r].
  cbn [andb]. eapply (spec_bind _ _ _ (fun _ => on Q)); [|intros ?; apply spec_works_unit; apply (wk_label _ _ Hw)].
  eapply spec_bind; [apply (spec_works _ (fun _ => True))|intros b; apply spec_pure; intros _; by apply spec_ret].
  intros w. destruct (wk_eject _ _ Hw w) as (b & w' & Hw'). eauto.
Qed.

Lemma discs_length session svs rs d d' : discs loc false session svs rs d d' -> length rs = length svs.
Proof. induction 1 as [d|svs rs d d1 d2 sv r Hd IH Hb Hrc]; [done|]. by rewrite !length_app, IH. Qed.
Lemma discs_all_recorded session svs rs d d' : catalog_wf d -> discs loc false session svs rs d d' ->
  NoDup (session_ids svs) -> Forall (fun r => verify_passed r = true) rs ->
  forall sv, sv ∈ svs -> status_of d' (sv_volume_id sv) = Some "VERIFIED" /\ disc_recorded sv loc false d'.
Proof.
  intros Wf. induction 1 as [d|svs rs d d1 d2 x r Hd IH [_ [W2 Ht Hs Hp _]] _]; intros Hnd Hall sv Hin; [by inv Hin|].
  unfold session_ids in Hnd. rewrite fmap_app in Hnd. apply NoDup_app in Hnd as (Hnd & Hdis & _).
  apply Forall_app in Hall as [Hall Hr]. apply (proj1 (Forall_singleton _ r)) in Hr.
  apply elem_of_app in Hin as [Hin| ->%list_elem_of_singleton].
  - destruct (IH Wf Hnd Hall sv Hin) as [Hst Hrec].
    assert (sv_volume_id sv <> sv_volume_id x) as Hne.
    { intros Heq. apply (Hdis (sv_volume_id sv)); [by apply list_elem_of_fmap_2|]. csimpl. rewrite Heq. by left. }
    split; [|by eapply disc_recorded_kept]. rewrite <- Hst. eapply touched_status_other; [|done..].
    by apply (discs_keep loc false session svs rs d d1 Hd Wf).
  - split; [|by destruct (Hp Hr)]. rewrite Hs, Hr. unfold target. by rewrite orb_true_r.
Qed.
Lemma finish_works session svs d : works svs d ->
  spec (fun _ => True) (finish_session cfg session loc) (fun _ _ => True) no_error.
Proof.
  intros Hw. unfold finish_session. set (P := fun (_ : Conn Catalog) (_ : list BurnReceipt) => True).
  eapply (spec_bind _ _ _ (fun _ => on P)); [by intros s _|]. intros rs.
  eapply (spec_bind _ _ _ (fun _ => on P)).
  { apply spec_catalog. intros c rs' _. rewrite update_session_run; [by eexists _, _|]. destruct (existsb _ _); by apply sql_in_true. }
  intros ?. eapply (spec_bind _ _ _ (fun _ => on P)).
  { apply spec_catalog. intros c rs' _. by eexists _, _. }
  intros info. eapply (spec_bind _ _ _ (fun _ => on P)).
  { destruct info; [by apply spec_ret|]. apply receipts_work; apply Hw. }
  intros ?. eapply spec_bind; [apply durable_works; apply Hw|]. intros ?. by apply spec_ret.
Qed.

(** C24.  With an operator who puts a blank disc in when asked to, a drive that takes the
    image of a blank disc, the images there and the receipts writable, an interactive burn of
    a session whose volumes are staged (or were burned before) goes through to the end: every
    volume is VERIFIED with a disc in service at the location that has the hash of its
    image, the receipts all say so, and the session is COMPLETE.  The disc of one volume is
    closed when the next one's turn comes: without the checkpoint before each disc nothing
    would be known of the drive. *)
Theorem burn_session_completes session_ref session (s : BurnState W) d :
  catalog_wf d -> conn s = mkConn d d false -> receipts s = [] ->
  resolve_session_id session_ref (mkConn d d false) = (Ok session, mkConn d d false) ->
  works (get_session_volumes session d) d ->
  (forall sv, sv ∈ get_session_volumes session d -> startable sv d) -> device <> EmptyString ->
  let '(r, s') := burn_session cfg session_ref loc (Some device) false true s in
  exists rs d2, r = Ok rs /\ length rs = length (get_session_volumes session d) /\
    Forall (fun r => verify_passed r = true) rs /\
    conn s' = mkConn (marked session "COMPLETE" d2) (marked session "COMPLETE" d2) false /\
    forall sv, sv ∈ get_session_volumes session d ->
      status_of d2 (sv_volume_id sv) = Some "VERIFIED" /\ exists c, c ∈ volume_copies d2 /\
        active_at (sv_volume_id sv) loc c = true /\ iso_sha256 c = sv_iso_sha256 sv.
Proof.
  intros Wf Hc Hrs Hres Hw Hst Hdev.
  destruct (burn_session_start cfg loc false session_ref (Some device) true s d session Wf Hc Hrs Hres) as (d1 & w1 & Hd1 & ->).
  rewrite (proj2 (String.eqb_neq device EmptyString) Hdev).
  cbn [andb negb].
  destruct (located_wf _ _ _ Wf Hd1) as [W1 Hl1]. set (svs := get_session_volumes session d) in *.
  pose proof (session_volume_ids session d Wf) as Hnd. fold svs in Hnd.
  set (I := fun l (c : Conn Catalog) rs => exists d2, discs loc false session l rs d1 d2 /\ at_rest d2 c /\
    Forall (fun r => verify_passed r = true) rs).
  assert (spec (on (I [])) (for_enumerate (burn_volume cfg session loc device false true (len svs)) 1 svs) (fun _ => on (I svs)) no_error) as Hloop.
  { eapply (spec_for_enumerate (fun l => on (I l)) _ svs _ 1 []). intros k l1 sv l2 Hsplit s2 (d2 & Hd2 & Hc2 & Hall). cbn [app] in *.
    destruct (discs_keep _ _ _ _ _ _ _ Hd2 W1) as (W2 & Hi & Hn).
    assert (sv ∈ svs) as Hin by (rewrite Hsplit; set_solver).
    assert (sv_volume_id sv ∉ session_ids l1 /\ NoDup (session_ids l1)) as [Hfresh Hnd1].
    { rewrite Hsplit in Hnd. unfold session_ids in Hnd. rewrite fmap_app in Hnd. apply NoDup_app in Hnd as (? & Hdis & _).
      split; [|done]. intros Hx. apply (Hdis _ Hx). by left. }
    pose proof (discs_progress _ _ _ _ _ _ _ W1 Hd2 Hnd1) as Hp. destruct (located_volumes _ _ _ Hd1) as [Hvs1 _].
    assert (status_of d2 (sv_volume_id sv) = status_of d (sv_volume_id sv)) as Hsame.
    { rewrite (pg_other _ _ _ _ _ Hp) by done. unfold status_of, find_volume. by rewrite Hvs1. }
    assert (startable sv d2) as Hst2 by (destruct (Hst sv Hin) as (st & ? & ?); exists st; by rewrite Hsame).
    assert (label_of d2 (sv_volume_id sv) = label_of d (sv_volume_id sv)) as Hlab.
    { rewrite (discs_label _ _ _ _ _ _ W1 Hd2). unfold label_of, find_volume. by rewrite Hvs1. }
    assert (sv_volume_id sv ∈ volume_ids d2) as Hv2 by (rewrite Hi, Hvs1; by eapply session_volume_known).
    assert (loc ∈ location_names d2) as Hl2 by by rewrite Hn.
    pose proof (burn_volume_spec cfg session loc device false true sv (len svs) k d2 (receipts s2) W2 Hv2 Hl2 s2 (conj Hc2 eq_refl)) as Hb.
    pose proof (burn_volume_works (len svs) k session svs d d2 (receipts s2) sv Hw Hin W2 Hl2 Hst2 Hlab s2 (conj Hc2 eq_refl)) as Hb'.
    destruct (burn_volume _ _ _ _ _ _ _ _ _ s2) as [[[]|e] s3]; [|done].
    destruct Hb as (r & d3 & Hc3 & Hrs3 & Hb & Hrc), Hb' as (r' & Hrs3' & Hp').
    assert (r' = r) as -> by (rewrite Hrs3 in Hrs3'; by apply app_inj_2 in Hrs3' as [_ [= ->]]).
    exists d3. split_and!; [rewrite Hrs3; by econstructor|done|]. rewrite Hrs3. apply Forall_app. split; [done|by apply Forall_singleton]. }
  specialize (Hloop (mkState (mkConn d1 d1 false) w1 [])). unfold mbind, eff_bind.
  destruct (for_enumerate _ _ _ _) as [[[]|e] s2].
  2: { destruct Hloop. exists d1. split_and!; [constructor|done|constructor]. }
  destruct Hloop as (d2 & Hd2 & Hc2 & Hall); [exists d1; split_and!; [constructor|done|constructor]|].
  pose proof (finish_spec cfg loc false session svs (receipts s2) d1 d2 Hd2 s2 (conj Hc2 eq_refl)) as Hf.
  pose proof (finish_works session svs d Hw s2 Logic.I) as Hf'.
  destruct (finish_session _ _ _ s2) as [[rs|e] s3]; [|done]. destruct Hf as [-> Hf].
  exists (receipts s2), d2. split_and!; [done| |done| |].
  - by apply discs_length in Hd2.
  - unfold on, at_rest in Hf. rewrite Hf. unfold verdict_of.
    assert (existsb (fun r => negb (verify_passed r)) (receipts s2) = false) as ->; [|done].
    apply exists_row_false. rewrite Forall_forall in Hall. intros r Hr. by rewrite (Hall r Hr).
  - intros sv Hin. destruct (discs_all_recorded _ _ _ _ _ W1 Hd2 Hnd Hall sv Hin) as (Hs & c & Hcin & Ha & Hh & _).
    split; [done|]. exists c. split_and!; [done..|].
    assert (exists vol, find_volume d (sv_volume_id sv) = Some vol) as [vol Hvol].
    { destruct (Hst sv Hin) as (st & Hx & _). unfold status_of in Hx. destruct (find_volume _ _) as [vol|]; [by exists vol|done]. }
    destruct (wk_insert _ _ Hw 1 1 EmptyString (world s2)) as (w1' & _ & Hbl).
    destruct (wk_burn _ _ Hw sv vol w1' Hin Hvol Hbl) as (w' & _ & h & n & ? & ? & ? & Eh & Hne & _).
    rewrite Eh. by apply Hh.
Qed.
End works.
