(* ===== verification/BurnDemo.v ===== *)
(** * A drive and a session

    A simulated drive for the theorems on burning: the images are a table, a disc is blank
    or holds an image, which closes it; only the operator, when asked for a blank disc, puts
    one in; and a fault may be raised instead of a burn. *)

From S2P Require Import Prelude PyString PyText Json Effects Sqlite Catalog VolumeEvents Queries Volumes VolumeCopies Locations BurnFrame Burn BurnProps BurnSafe.
Open Scope string_scope.
Open Scope list_scope.
Open Scope Z_scope.

(** An image: its label, its hash and its length. *)
Record Image := mkImage { im_label : string; im_hash : string; im_size : Z }.
Inductive Disc := Blank | Burnt (im : Image).
(** The disc in the drive, the files written so far and the time. *)
Record Desk := mkDesk { tray : option Disc; written : list string; ticks : Z }.

Section desk.
Context (images : string -> option Image) (fault : option exn).

Definition from_disc {A} (f : Image -> res A) : eff Desk A := fun w =>
  (match tray w with Some (Burnt im) => f im | _ => Err CalledProcessError end, w).
#[export] Instance desk : Machine Desk := {|
  media_status _ := gets (fun w => match tray w with Some Blank => BLANK | Some (Burnt _) => CLOSED | None => NO_MEDIA end);
  burn_iso p _ := fun w =>
    match fault with
    | Some e => (Err e, w)
    | None =>
        match tray w, images p with
        | Some Blank, Some im => (Ok tt, mkDesk (Some (Burnt im)) (written w) (ticks w))
        | _, None => (Err FileNotFoundError, w)
        | _, _ => (Err CalledProcessError, w)
        end
    end;
  verify_disc _ := gets (fun w => match tray w with Some (Burnt _) => true | _ => false end);
  read_disc_volume_id _ := from_disc (fun im => Ok (im_label im));
  device_reader _ n := from_disc (fun im => if n =? im_size im then Ok (im_hash im) else Err OSError);
  checkpoint message := if String.prefix "===" message then modify (fun w => mkDesk (Some Blank) (written w) (ticks w)) else mret tt;
  eject_tray _ := fun w => (Ok true, mkDesk None (written w) (ticks w));
  path_exists p := mret (bool_decide (is_Some (images p)));
  sha256_file p := lift (match images p with Some im => Ok (im_hash im) | None => Err FileNotFoundError end);
  file_size p := lift (match images p with Some im => Ok (im_size im) | None => Err FileNotFoundError end);
  ensure_dir _ := mret tt;
  write_receipt p _ := fun w => (Ok tt, mkDesk (tray w) (written w ++ [p]) (ticks w));
  utc_now w := ("t" ++ str_of_int (ticks w), mkDesk (tray w) (written w) (ticks w + 1))%string;
  str_exc _ := "error";
|}.
End desk.

Definition staged_volume (i : Z) (lab st : string) : Volume :=
  mkVolume i lab ("uuid-" ++ lab)%string "BD25" 25000000000 10 "Home" st "2026-01-01" None None.
(** A session of two volumes, the second with the status [st]. *)
Definition staged_catalog (st : string) : Catalog :=
  mkCatalog
    [staged_volume 1 "L_BD25_2026_0001" "STAGING"; staged_volume 2 "L_BD25_2026_0002" st]
    [mkPack 1 "aa" 10 "r1" false "2026-01-01"; mkPack 2 "bb" 10 "r1" false "2026-01-01"]
    [mkRepository "r1" "photos" "/mirror" "" "2026-01-01" "active"]
    [mkVolumePack 1 1; mkVolumePack 2 2] [] [mkLocation "Home" "2026-01-01" ""] []
    [mkBurnSession "s1" "2026-01-01" "BD25" "STAGED" "/staging/s1"]
    [mkSessionVolume "s1" 1 "/staging/s1/1.iso" (Some "cafe") (Some 100);
     mkSessionVolume "s1" 2 "/staging/s1/2.iso" (Some "beef") (Some 200)]
    [] 2 2 0 0 (Some []).
Definition session_images (p : string) : option Image :=
  if String.eqb p "/staging/s1/1.iso" then Some (mkImage "L_BD25_2026_0001" "cafe" 100)
  else if String.eqb p "/staging/s1/2.iso" then Some (mkImage "L_BD25_2026_0002" "beef" 200) else None.
Definition burn_config : BurnConfig := mkBurnConfig "/dev/sr0" "/home/archive".
Definition at_start (d : Catalog) : BurnState Desk := mkState (mkConn d d false) (mkDesk None [] 0) [].

Lemma staged_wf : catalog_wf (staged_catalog "STAGING").
Proof. constructor; try constructor; apply (bool_decide_unpack _); vm_compute; exact I. Qed.
Lemma interrupted_wf : catalog_wf (staged_catalog "BURNING").
Proof. constructor; try constructor; apply (bool_decide_unpack _); vm_compute; exact I. Qed.
Lemma staged_resolve st : resolve_session_id "latest" (mkConn (staged_catalog st) (staged_catalog st) false) =
  (Ok "s1", mkConn (staged_catalog st) (staged_catalog st) false).
Proof. reflexivity. Qed.
Lemma staged_session st : get_session_volumes "s1" (staged_catalog st) =
  [mkSessionVolume "s1" 1 "/staging/s1/1.iso" (Some "cafe") (Some 100);
   mkSessionVolume "s1" 2 "/staging/s1/2.iso" (Some "beef") (Some 200)].
Proof. reflexivity. Qed.

(** Both discs are burned, and then once more for a second location. *)
Definition first_burn := burn_session (H := desk session_images None) burn_config "latest" "Safe" None false true
  (at_start (staged_catalog "STAGING")).
Example first_burn_receipts :
  match first_burn with
  | (Ok rs, s) => (fun r => (rc_volume_label r, verify_passed r)) <$> rs =
      [("L_BD25_2026_0001", true); ("L_BD25_2026_0002", true)] /\
      written (world s) =
        ["/home/archive/receipts/s1_L_BD25_2026_0001_Safe.json"; "/home/archive/receipts/s1_L_BD25_2026_0002_Safe.json";
         "/staging/s1/receipts/L_BD25_2026_0001_Safe.json"; "/staging/s1/receipts/L_BD25_2026_0002_Safe.json";
         "/home/archive/receipts/s1_L_BD25_2026_0001_Safe.json"; "/home/archive/receipts/s1_L_BD25_2026_0002_Safe.json"]
  | _ => False
  end.
Proof. vm_compute. repeat split. Qed.

(** Ctrl-C during the first disc: the exception is not an [Exception], and the status that
    was committed before the burn stays. *)
Example interrupted_burn :
  let '(r, s) := burn_session (H := desk session_images (Some KeyboardInterrupt)) burn_config "latest" "Safe" None
    false true (at_start (staged_catalog "STAGING")) in
  r = Err KeyboardInterrupt /\ status_of (committed (conn s)) 1 = Some "BURNING" /\
  status_of (committed (conn s)) 2 = Some "STAGING".
Proof. vm_compute. repeat split. Qed.

(** ** Witnesses *)

Lemma burn_session_refines_witness :
  let '(r, s') := burn_session (H := desk session_images None) burn_config "latest" "Safe" None false true
    (at_start (staged_catalog "STAGING")) in
  match resolve_session_id "latest" (mkConn (staged_catalog "STAGING") (staged_catalog "STAGING") false) with
  | (Err e, _) => r = Err e /\ conn s' = mkConn (staged_catalog "STAGING") (staged_catalog "STAGING") false
  | (Ok session, _) =>
      exists d1, located "Safe" (staged_catalog "STAGING") d1 /\
      match r with
      | Ok rs => exists d2, discs "Safe" false session (get_session_volumes session (staged_catalog "STAGING")) rs d1 d2 /\
          conn s' = mkConn (marked session (verdict_of rs) d2) (marked session (verdict_of rs) d2) false
      | Err e => session_raised "Safe" false session e (get_session_volumes session (staged_catalog "STAGING")) d1 (conn s')
      end
  end.
Proof. apply (burn_session_refines burn_config "Safe" false "latest" None true _ _ staged_wf); reflexivity. Defined.

Lemma burn_session_safe_witness :
  let d := staged_catalog "STAGING" in
  let d' := committed (conn (burn_session (H := desk session_images None) burn_config "latest" "Safe" None false true
    (at_start d)).2) in
  (forall i, status_of d i = Some "VERIFIED" -> status_of d' i = Some "VERIFIED") /\
  (forall i, status_of d' i = Some "VERIFIED" -> status_of d i <> Some "VERIFIED" ->
     exists sv, sv ∈ session_volumes d /\ sv_volume_id sv = i /\ evidence sv "Safe" false d d' /\
       disc_recorded sv "Safe" false d') /\
  (forall c, c ∈ volume_copies d' -> c ∈ volume_copies d \/
     exists sv, sv ∈ session_volumes d /\ at_place (sv_volume_id sv) "Safe" c = true /\ evidence sv "Safe" false d d') /\
  volume_packs d' = volume_packs d /\ packs d' = packs d.
Proof. apply (burn_session_safe burn_config "Safe" false "latest" None true _ _ staged_wf); reflexivity. Defined.

Lemma passed_check_read_image_witness :
  let sv := mkSessionVolume "s1" 1 "/staging/s1/1.iso" (Some "cafe") (Some 100) in
  let w := mkDesk (Burnt <$> session_images "/staging/s1/1.iso") [] 0 in
  exists w1 w2, verify_disc (Machine := desk session_images None) "/dev/sr0" w = (Ok true, w1) /\
    read_disc_volume_id (Machine := desk session_images None) "/dev/sr0" w1 = (Ok "L_BD25_2026_0001", w2) /\
    if String.eqb (default EmptyString (sv_iso_sha256 sv)) EmptyString then
      exists w3, path_exists (Machine := desk session_images None) "/staging/s1/1.iso" w2 = (Ok false, w3) \/
        (path_exists (Machine := desk session_images None) "/staging/s1/1.iso" w2 = (Ok true, w3) /\ exists h w4 n w5 w6,
           sha256_file (Machine := desk session_images None) "/staging/s1/1.iso" w3 = (Ok h, w4) /\
           device_reader (Machine := desk session_images None) "/dev/sr0" n w5 = (Ok h, w6))
    else
      exists h n w5 w6, sv_iso_sha256 sv = Some h /\
        device_reader (Machine := desk session_images None) "/dev/sr0" n w5 = (Ok h, w6) /\
        (forall m, sv_iso_size_bytes sv = Some m -> n = m /\ w5 = w2).
Proof.
  eapply (passed_check_read_image (H := desk session_images None)
    (mkSessionVolume "s1" 1 "/staging/s1/1.iso" (Some "cafe") (Some 100)) "L_BD25_2026_0001" "/dev/sr0" "Home"
    "/staging/s1/1.iso" (mkState (mkConn (staged_catalog "BURNING") (staged_catalog "BURNING") false)
       (mkDesk (Burnt <$> session_images "/staging/s1/1.iso") [] 0) [])).
  vm_compute. reflexivity.
Defined.

Lemma interrupted_burn_blocks_witness :
  let '(r, s') := burn_session (H := desk session_images None) burn_config "latest" "Safe" None false true
    (at_start (staged_catalog "BURNING")) in
  (exists e, r = Err e) /\ status_of (committed (conn s')) 2 = Some "BURNING".
Proof.
  apply (interrupted_burn_blocks burn_config "Safe" false "latest" "s1" None true (at_start (staged_catalog "BURNING"))
    (staged_catalog "BURNING") (mkSessionVolume "s1" 2 "/staging/s1/2.iso" (Some "beef") (Some 200)) interrupted_wf);
    try reflexivity.
  rewrite staged_session. right. left.
Defined.

Definition desk_blank (w : Desk) : Prop := tray w = Some Blank.
Lemma desk_works d : volumes d = volumes (staged_catalog "STAGING") ->
  works (H := desk session_images None) "Safe" "/dev/sr0" desk_blank
    (get_session_volumes "s1" (staged_catalog "STAGING")) d.
Proof.
  intros Hd. rewrite staged_session. split; cbn -[insert_prompt label_prompt].
  - intros i n lab w. by eexists.
  - intros w Hw. exists BLANK, w. unfold gets. by rewrite Hw.
  - intros sv w Hsv Hw. apply elem_of_cons in Hsv as [->|Hsv]; [|apply elem_of_cons in Hsv as [->|Hsv]; [|by inv Hsv]].
    all: by eexists.
  - done.
  - intros sv vol w Hsv Hvol Hw. unfold find_volume in Hvol. rewrite Hd in Hvol. rewrite Hw.
    apply elem_of_cons in Hsv as [->|Hsv]; [|apply elem_of_cons in Hsv as [->|Hsv]; [|by inv Hsv]].
    all: cbn in Hvol; injection Hvol as <-; eexists; (split; [reflexivity|]); do 5 eexists; split_and!; done.
  - intros w. by eexists _, _.
  - intros lab w. by exists w.
  - intros p w. by exists w.
  - intros p r w. by eexists.
Qed.
(** Without the operator the second disc is refused: the first one is still in the drive. *)
Example no_operator :
  let '(r, s) := burn_session (H := desk session_images None) burn_config "latest" "Safe" None false false
    (mkState (mkConn (staged_catalog "STAGING") (staged_catalog "STAGING") false) (mkDesk (Some Blank) [] 0) []) in
  r = Err ValueError /\ status_of (committed (conn s)) 1 = Some "VERIFIED" /\
  status_of (committed (conn s)) 2 = Some "STAGING".
Proof. vm_compute. repeat split. Qed.

Lemma burn_session_completes_witness :
  let '(r, s') := burn_session (H := desk session_images None) burn_config "latest" "Safe" (Some "/dev/sr0") false true
    (at_start (staged_catalog "STAGING")) in
  exists rs d2, r = Ok rs /\ length rs = length (get_session_volumes "s1" (staged_catalog "STAGING")) /\
    Forall (fun r => verify_passed r = true) rs /\
    conn s' = mkConn (marked "s1" "COMPLETE" d2) (marked "s1" "COMPLETE" d2) false /\
    forall sv, sv ∈ get_session_volumes "s1" (staged_catalog "STAGING") ->
      status_of d2 (sv_volume_id sv) = Some "VERIFIED" /\ exists c, c ∈ volume_copies d2 /\
        active_at (sv_volume_id sv) "Safe" c = true /\ iso_sha256 c = sv_iso_sha256 sv.
Proof.
  apply (burn_session_completes burn_config "Safe" "/dev/sr0" desk_blank "latest" "s1" _ _ staged_wf); try reflexivity.
  - apply desk_works. reflexivity.
  - intros sv Hsv. rewrite staged_session in Hsv. exists "STAGING".
    apply elem_of_cons in Hsv as [->|Hsv]; [|apply elem_of_cons in Hsv as [->|Hsv]; [|by inv Hsv]].
    all: split; [reflexivity|right; by apply sql_in_true].
  - discriminate.
Defined.
