(* ===== verification/StageFrame.v ===== *)
(** * What staging one volume writes to the catalog

    [new_volume v links rows d d']: the volume [v] is new, with links to the packs [links]
    and the rows [rows] of burn sessions; events of [v] may be new; every other table is as
    before.  The statements of the transaction that registers a volume make such a
    difference, one after the other, and [delete_volume] takes it back. *)

From S2P Require Import Prelude Sqlite Catalog VolumeEvents Queries Volumes Locations BurnFrame.
Open Scope string_scope.
Open Scope list_scope.
Open Scope Z_scope.

(** ** Operations that leave alone what is committed *)

Definition uncommitted {DB A} (m : db DB A) : Prop := forall c, committed (m c).2 = committed c.
Create HintDb uncommitted.
Lemma uncommitted_bind {DB A B} (m : db DB A) (f : A -> db DB B) :
  uncommitted m -> (forall a, uncommitted (f a)) -> uncommitted (m ≫= f).
Proof.
  intros Hm Hf c. specialize (Hm c). unfold mbind, db_bind.
  destruct (m c) as [[a|e] c']; cbn in *; [|done]. by rewrite Hf.
Qed.
Lemma uncommitted_ret {DB A} (a : A) : uncommitted (mret a : db DB A).
Proof. done. Qed.
Lemma uncommitted_raise {DB A} e : uncommitted (raise e : db DB A).
Proof. done. Qed.
Lemma uncommitted_query {DB A} (f : DB -> A) : uncommitted (query f).
Proof. done. Qed.
Lemma uncommitted_execute {DB A} (f : DB -> res (A * DB)) : uncommitted (execute f).
Proof. intros c. unfold execute. by destruct (f (current c)) as [[a d]|e]. Qed.
#[export] Hint Resolve uncommitted_bind uncommitted_ret uncommitted_raise uncommitted_query uncommitted_execute : uncommitted.
Ltac uncommitted := repeat first
  [ apply uncommitted_execute | apply uncommitted_ret | apply uncommitted_raise | apply uncommitted_query
  | apply uncommitted_bind; [|intros]
  | match goal with |- uncommitted (match ?x with _ => _ end) => destruct x end ].

Lemma uncommitted_executemany {A} (f : A -> Catalog -> res (unit * Catalog)) l : uncommitted (executemany f l).
Proof. induction l; cbn [executemany]; uncommitted. auto. Qed.

(** ** Inversion *)

Lemma db_bind_Ok_inv {DB A B} (m : db DB A) (f : A -> db DB B) c b c' :
  (m ≫= f) c = (Ok b, c') -> exists a c1, m c = (Ok a, c1) /\ f a c1 = (Ok b, c').
Proof. unfold mbind, db_bind. destruct (m c) as [[a|e] c1]; [by eauto|done]. Qed.
Lemma execute_Ok_inv {DB A} (f : DB -> res (A * DB)) c a c' :
  execute f c = (Ok a, c') -> exists d, f (current c) = Ok (a, d) /\ c' = mkConn (committed c) d true.
Proof. unfold execute. destruct (f (current c)) as [[x d]|e]; intros [= <- <-]. by eauto. Qed.

(** ** The tables *)

(** Everything but the AUTOINCREMENT counters. *)
Definition tables (d : Catalog) :=
  (volumes d, packs d, repositories d, volume_packs d, snapshots d, locations d, volume_copies d,
   burn_sessions d, session_volumes d, volume_events d, key_escrow d).
Definition fixed_tables (d : Catalog) :=
  (packs d, repositories d, snapshots d, locations d, volume_copies d, burn_sessions d, key_escrow d).

Record new_volume (v : Volume) (links : list Z) (rows : list SessionVolume) (d d' : Catalog) : Prop := {
  nv_wf : catalog_wf d';
  nv_fresh : volume_id v ∉ volume_ids d;
  nv_volumes : volumes d' = volumes d ++ [v];
  nv_links : volume_packs d' = volume_packs d ++ (mkVolumePack (volume_id v) <$> links);
  nv_rows : session_volumes d' = session_volumes d ++ rows /\ Forall (fun x => sv_volume_id x = volume_id v) rows;
  nv_events : new_events (fun e => ev_volume_id e = volume_id v) d d';
  nv_fixed : fixed_tables d' = fixed_tables d;
}.

Section frame.
Context (d0 : Catalog).

Lemma new_volume_in v links rows d : new_volume v links rows d0 d -> volume_id v ∈ volume_ids d.
Proof. intros [_ _ Hv _ _ _ _]. rewrite Hv, fmap_app. set_solver. Qed.
Hypothesis W0 : catalog_wf d0.
Lemma not_linked v p links rows d : new_volume v links rows d0 d -> p ∉ links ->
  mkVolumePack (volume_id v) p ∉ volume_packs d.
Proof using W0.
  intros [_ Hf _ Hl _ _ _] Hp. rewrite Hl, elem_of_app. intros [Hin|Hin].
  - pose proof (wf_link_row _ W0) as Hr. rewrite Forall_forall in Hr. by apply Hr in Hin as [? _].
  - apply list_elem_of_fmap in Hin as (q & [= ->] & Hq). done.
Qed.

Lemma link_new v p links rows d d' a : new_volume v links rows d0 d -> p ∉ links ->
  insert_or_ignore_link (volume_id v) p d = Ok (a, d') -> new_volume v (links ++ [p]) rows d0 d'.
Proof using W0.
  intros Hn Hp Hi. pose proof (wf_insert_or_ignore_link _ (nv_wf _ _ _ _ _ Hn) _ _ _ _ Hi) as W'.
  unfold insert_or_ignore_link in Hi.
  rewrite (proj2 (sql_in_false _ _)) in Hi by by eapply not_linked.
  apply bind_Ok_inv in Hi as (u & _ & [= _ <-]). destruct Hn as [_ Hf Hv Hl Hr He Hx].
  split; try done. cbn. rewrite Hl, fmap_app. cbn. by rewrite <- app_assoc.
Qed.
Lemma links_new v ids links rows c c' : new_volume v links rows d0 (current c) -> NoDup (links ++ ids) ->
  executemany (insert_or_ignore_link (volume_id v)) ids c = (Ok tt, c') ->
  committed c' = committed c /\ new_volume v (links ++ ids) rows d0 (current c').
Proof using W0.
  revert links c. induction ids as [|p ids IH]; intros links c Hn Hnd Hm; cbn [executemany] in Hm.
  { injection Hm as <-. by rewrite app_nil_r. }
  apply db_bind_Ok_inv in Hm as (a & c1 & (d1 & Hi & ->)%execute_Ok_inv & Hm).
  assert (p ∉ links) as Hp.
  { apply NoDup_app in Hnd as (_ & Hdis & _). intros Hin. apply (Hdis p Hin). by left. }
  rewrite cons_middle, app_assoc in Hnd |- *.
  eapply (IH (links ++ [p])) in Hm; [done| |done]. cbn [current]. by eapply link_new.
Qed.

Lemma used_bytes_new v n links rows c c' a : new_volume v links rows d0 (current c) ->
  update_used_bytes (volume_id v) n false c = (Ok a, c') ->
  committed c' = committed c /\ new_volume (set_used_bytes n v) links rows d0 (current c').
Proof using W0.
  intros Hn Hm. unfold update_used_bytes in Hm.
  apply db_bind_Ok_inv in Hm as (k & c1 & (d1 & Hu & ->)%execute_Ok_inv & [= _ <-]). split; [done|]. cbn [current].
  assert (catalog_wf d1) as W1.
  { eapply (wf_update_volumes _ (nv_wf _ _ _ _ _ Hn)); [|exact Hu]. done. }
  unfold update_volumes in Hu. apply bind_Ok_inv in Hu as (u & _ & [= _ <-]).
  destruct Hn as [_ Hf Hv Hl Hr He Hx]. split; try done. cbn [volumes set_volumes].
  rewrite Hv. unfold update_where. rewrite fmap_app. f_equal.
  - rewrite <- (list_fmap_id (volumes d0)) at 2. apply list_fmap_ext. intros i x Hin%list_elem_of_lookup_2.
    destruct (sql_eq (volume_id x) (volume_id v)) eqn:E; [|done].
    apply sql_eq_elim in E. destruct Hf. rewrite <- E. by apply list_elem_of_fmap_2.
  - cbn -[sql_eq]. by rewrite (proj2 (sql_eq_true _ _) eq_refl).
Qed.
Lemma note_new v det now links rows c : new_volume v links rows d0 (current c) ->
  exists e d', add_event (volume_id v) "NOTE" None det None now false c = (Ok e, mkConn (committed c) d' true) /\
    new_volume v links rows d0 d'.
Proof using.
  intros Hn. pose proof (new_volume_in _ _ _ _ Hn) as Hin.
  assert ("NOTE" ∈ EVENT_TYPES) as Hty by by apply sql_in_true.
  pose proof (add_event_Ok (volume_id v) "NOTE" None det None now false c (nv_wf _ _ _ _ _ Hn) Hin Hty I) as E.
  eexists _, _. split; [exact E|]. destruct Hn as [Wf Hf Hv Hl Hr (evs & He & Hall) Hx]. split; try done.
  - eapply (wf_insert_event _ Wf). by apply insert_event_Ok.
  - eexists (evs ++ [_]). cbn [volume_events set_seqs set_events]. rewrite He, <- app_assoc. split; [done|].
    apply Forall_app. split; [done|]. by apply Forall_singleton.
Qed.
Lemma row_new v s path sha size links c c' a : new_volume v links [] d0 (current c) ->
  add_session_volume s (volume_id v) path sha size false c = (Ok a, c') ->
  committed c' = committed c /\ s ∈ session_id <$> burn_sessions d0 /\
  new_volume v links [mkSessionVolume s (volume_id v) path sha size] d0 (current c').
Proof using.
  intros Hn Hm. unfold add_session_volume in Hm.
  apply db_bind_Ok_inv in Hm as (k & c1 & (d1 & Hi & ->)%execute_Ok_inv & [= _ <-]). cbn [committed current].
  pose proof (wf_insert_session_volume _ (nv_wf _ _ _ _ _ Hn) _ _ _ _ _ _ _ Hi) as W1.
  unfold insert_session_volume in Hi.
  apply bind_Ok_inv in Hi as (u & _ & (u' & Hk%raise_if_Ok & [= _ <-])%bind_Ok_inv).
  destruct Hn as [_ Hf Hv Hl [Hr _] He Hx]. split; [done|]. split.
  - apply negb_false_iff, andb_true_iff in Hk as [Hk _]. unfold has_session in Hk.
    apply exists_row_true in Hk as (b & Hb & Es%sql_eq_elim). injection Hx as _ _ _ _ _ Hbs _.
    rewrite Hbs in Hb. apply list_elem_of_fmap. by exists b.
  - split; try done. cbn. rewrite Hr, app_nil_r. split; [done|]. by apply Forall_singleton.
Qed.
End frame.

(** [update_session_volume_iso] of a new volume. *)
Lemma row_updated d0 v s p0 a0 b0 links d p sha size : catalog_wf d0 ->
  new_volume v links [mkSessionVolume s (volume_id v) p0 a0 b0] d0 d ->
  exists d', update_session_volume_iso s (volume_id v) p sha size (mkConn d d false) = (Ok tt, mkConn d' d' false) /\
    new_volume v links [mkSessionVolume s (volume_id v) p (Some sha) size] d0 d'.
Proof.
  intros W0 [Wf Hf Hv Hl [Hr _] He Hx]. eexists. split; [done|].
  pose proof (keeps_update_session_volume_iso s (volume_id v) p sha size (mkConn d d false) Wf Wf) as [W' _].
  split; try done. cbn [session_volumes set_session_volumes current]. split; [|by apply Forall_singleton].
  rewrite Hr. unfold update_where. rewrite fmap_app. f_equal.
  - rewrite <- (list_fmap_id (session_volumes d0)) at 2. apply list_fmap_ext. intros i x Hin%list_elem_of_lookup_2.
    destruct (session_volume_at s (volume_id v) x) eqn:E; [|done]. destruct Hf.
    unfold session_volume_at in E. apply andb_true_iff in E as [_ E%sql_eq_elim]. rewrite <- E.
    pose proof (wf_session_volume_row _ W0) as HS. rewrite Forall_forall in HS. by apply HS in Hin as [_ ?].
  - cbn -[sql_eq]. unfold session_volume_at. cbn -[sql_eq]. by rewrite !(proj2 (sql_eq_true _ _) eq_refl).
Qed.

Lemma create_new lab uid media cap loc now c v c' : catalog_wf (current c) ->
  create_volume lab uid media cap loc "STAGING" now false c = (Ok v, c') ->
  committed c' = committed c /\ new_volume v [] [] (current c) (current c') /\
  v = mkVolume (seq_volumes (current c) + 1) lab uid media cap 0 loc "STAGING" now None None.
Proof.
  intros Wf Hm. unfold create_volume in Hm.
  apply db_bind_Ok_inv in Hm as (i & c1 & (d1 & Hi & ->)%execute_Ok_inv & Hm).
  apply db_bind_Ok_inv in Hm as ([] & c1 & [= <-] & Hg).
  pose proof (wf_insert_volume _ Wf _ _ _ _ _ _ _ _ _ Hi) as W1. unfold insert_volume in Hi.
  apply bind_Ok_inv in Hi as (u & _ & (u' & _ & [= <- <-])%bind_Ok_inv).
  set (v0 := mkVolume _ lab uid media cap 0 loc "STAGING" now None None) in *.
  rewrite (get_volume_by_id_Ok _ _ v0) in Hg.
  2: { apply find_volume_Some; [exact W1|]. split; [|done]. cbn. set_solver. }
  injection Hg as <- <-. cbn [committed current]. split; [done|]. split; [|done]. split; try done.
  - intros (x & Hx & Hin)%list_elem_of_fmap. pose proof (wf_volume_row _ Wf) as Hr.
    rewrite Forall_forall in Hr. apply Hr in Hin as [Hle _]. cbn in Hx. lia.
  - cbn. by rewrite app_nil_r.
  - cbn. by rewrite app_nil_r.
  - exists []. by rewrite app_nil_r.
Qed.

(** ** Taking a volume back *)

Definition keep_out {A} (key : A -> Z) (ids : list Z) (l : list A) : list A :=
  delete_where (fun x => sql_in (key x) ids) l.
(** The catalog without the volumes [ids] and whatever belongs to them. *)
Definition without_volumes (ids : list Z) (d : Catalog) : Catalog :=
  mkCatalog (keep_out volume_id ids (volumes d)) (packs d) (repositories d)
    (keep_out vp_volume_id ids (volume_packs d)) (snapshots d) (locations d)
    (keep_out vc_volume_id ids (volume_copies d)) (burn_sessions d)
    (keep_out sv_volume_id ids (session_volumes d)) (keep_out ev_volume_id ids (volume_events d))
    (seq_volumes d) (seq_packs d) (seq_copies d) (seq_events d) (key_escrow d).

Lemma elem_of_keep_out {A} (key : A -> Z) ids l x : x ∈ keep_out key ids l <-> key x ∉ ids /\ x ∈ l.
Proof. unfold keep_out. by rewrite elem_of_delete_where, sql_in_false. Qed.
Lemma keep_out_one {A} (key : A -> Z) i l : keep_out key [i] l = delete_where (fun x => sql_eq (key x) i) l.
Proof.
  unfold keep_out, delete_where, where_. induction l as [|x l IH]; [done|]. cbn. rewrite IH.
  assert (sql_in (key x) [i] = sql_eq (key x) i) as ->; [|done].
  destruct (sql_eq (key x) i) eqn:E.
  - apply sql_eq_elim in E as ->. apply sql_in_true. by left.
  - apply sql_in_false. rewrite list_elem_of_singleton. by apply sql_eq_false.
Qed.
Lemma keep_out_all {A} (key : A -> Z) ids l : (forall x, x ∈ l -> key x ∉ ids) -> keep_out key ids l = l.
Proof.
  unfold keep_out, delete_where, where_. induction l as [|x l IH]; intros Hl; [done|]. cbn.
  rewrite (proj2 (sql_in_false _ _)) by (apply Hl; by left). cbn. f_equal. apply IH. intros y Hy. apply Hl. by right.
Qed.
Lemma keep_out_none {A} (key : A -> Z) ids l : Forall (fun x => key x ∈ ids) l -> keep_out key ids l = [].
Proof.
  unfold keep_out, delete_where, where_. induction 1 as [|x l Hx _ IH]; [done|]. cbn. by rewrite (proj2 (sql_in_true _ _) Hx).
Qed.
Lemma keep_out_app {A} (key : A -> Z) ids l1 l2 : keep_out key ids (l1 ++ l2) = keep_out key ids l1 ++ keep_out key ids l2.
Proof. unfold keep_out, delete_where, where_. induction l1 as [|x l IH]; [done|]. cbn. rewrite IH. by destruct (negb _). Qed.
Lemma keep_out_twice {A} (key : A -> Z) ks js l : keep_out key js (keep_out key ks l) = keep_out key (ks ++ js) l.
Proof.
  induction l as [|x l IH]; [done|]. unfold keep_out, delete_where, where_ in *. cbn.
  assert (sql_in (key x) (ks ++ js) = sql_in (key x) ks || sql_in (key x) js) as ->.
  { destruct (sql_in (key x) ks) eqn:E1; [apply sql_in_true in E1|apply sql_in_false in E1].
    - apply sql_in_true, elem_of_app. by left.
    - destruct (sql_in (key x) js) eqn:E2; [apply sql_in_true in E2; apply sql_in_true|
        apply sql_in_false in E2; apply sql_in_false]; rewrite elem_of_app; tauto. }
  destruct (sql_in (key x) ks); cbn; [done|]. destruct (sql_in (key x) js); cbn; by rewrite IH.
Qed.
Lemma without_volumes_twice ks js d : without_volumes js (without_volumes ks d) = without_volumes (ks ++ js) d.
Proof. unfold without_volumes. cbn -[keep_out]. by rewrite !keep_out_twice. Qed.
Lemma keep_out_nothing {A} (key : A -> Z) l : keep_out key [] l = l.
Proof. apply keep_out_all. intros x _ Hx. by inv Hx. Qed.
Lemma without_no_volumes d : without_volumes [] d = d.
Proof. unfold without_volumes. rewrite !keep_out_nothing. by destruct d. Qed.

Lemma delete_again {A} (key : A -> Z) i l :
  delete_where (fun x => sql_eq (key x) i) (delete_where (fun x => sql_eq (key x) i) l) = delete_where (fun x => sql_eq (key x) i) l.
Proof. rewrite <- !keep_out_one. apply keep_out_all. by intros x [? _]%elem_of_keep_out. Qed.

Lemma delete_volume_run i c :
  delete_volume i c = (Ok tt, mkConn (without_volumes [i] (current c)) (without_volumes [i] (current c)) false).
Proof.
  unfold delete_volume, mbind, db_bind, execute, delete_session_volumes, delete_links, delete_volume_row.
  cbn -[delete_where has_volume exists_row].
  rewrite (proj2 (exists_row_false _ _)).
  2: { intros x [Hx _]%elem_of_delete_where. done. }
  rewrite andb_false_r. cbn -[delete_where]. rewrite delete_again.
  unfold without_volumes. by rewrite !keep_out_one.
Qed.
Lemma without_volumes_wf ids d : catalog_wf d -> catalog_wf (without_volumes ids d).
Proof.
  revert d. induction ids as [|i ids IH]; intros d Wf; [by rewrite without_no_volumes|].
  change (i :: ids) with ([i] ++ ids). rewrite <- without_volumes_twice. apply IH.
  pose proof (keeps_delete_volume i (mkConn d d false) Wf Wf) as [H _]. by rewrite delete_volume_run in H.
Qed.

(** A volume that was just registered leaves nothing behind. *)
Lemma taken_back v links rows d0 d : catalog_wf d0 -> new_volume v links rows d0 d ->
  tables (without_volumes [volume_id v] d) = tables d0.
Proof.
  intros W0 [Wf Hf Hv Hl [Hr Hrows] (evs & He & Hevs) Hx].
  pose proof (wf_link_row _ W0) as HL. pose proof (wf_session_volume_row _ W0) as HS.
  pose proof (wf_event_row _ W0) as HE. pose proof (wf_copy_row _ W0) as HC. rewrite Forall_forall in HL. rewrite Forall_forall in HS. rewrite Forall_forall in HE. rewrite Forall_forall in HC.
  unfold tables, without_volumes. cbn -[keep_out]. rewrite Hv, Hl, Hr, He. injection Hx as -> -> -> -> -> -> ->.
  assert (forall k, k ∈ volume_ids d0 -> k ∉ [volume_id v]) as Hold by set_solver.
  rewrite !keep_out_app.
  rewrite (keep_out_none volume_id _ [v]) by (apply Forall_singleton; set_solver).
  rewrite (keep_out_none vp_volume_id _ (_ <$> links)).
  2: { apply Forall_fmap, Forall_forall. intros p _. cbn. set_solver. }
  rewrite (keep_out_none sv_volume_id _ rows) by (eapply Forall_impl; [exact Hrows|]; set_solver).
  rewrite (keep_out_none ev_volume_id _ evs) by (eapply Forall_impl; [exact Hevs|]; set_solver).
  rewrite !app_nil_r, !keep_out_all; [done|..]; intros x Hin; apply Hold.
  - by apply HE in Hin as (_ & ? & _).
  - by apply HS in Hin as [_ ?].
  - by apply HC in Hin as (_ & ? & _).
  - by apply HL in Hin as [? _].
  - by apply list_elem_of_fmap_2.
Qed.
