(* ===== verification/Stage.v ===== *)
(** * Staging a burn session

    [BurnOrchestrator.stage] and [_stage_single_volume] of burn/orchestrator.py: the packs
    that are not archived yet are split over volumes; each volume gets its staging tree, its
    row in the catalog and its image, or none of them.  As in Burn, whatever does not lie in
    the catalog (the tree, the documents on it, xorriso and dvdisaster, the disk) is done by
    the operations of a class, any of which may raise.

    An error or an interrupt (Ctrl-C) comes from one of these operations: the statements on
    the catalog between two of them are taken to fail only as SQLite makes them fail, and not
    to be cut off by an interrupt in their midst. *)

From Stdlib Require Import Ascii.
From S2P Require Import Prelude PyString PyText Json Effects Sqlite Catalog VolumeEvents Queries Volumes Labels Packs Locations BinPack BinPlan Escrow Burn.
Open Scope string_scope.
Open Scope list_scope.
Open Scope Z_scope.

(** ** The world *)

(** The documents [HolographicInjector] writes on a disc. *)
Inductive Document :=
  | VolumeInfo (v : Volume) (ps : list Pack) (position : option (Z * Z)) (names : list (string * string))
  | RestoreInstructions | StandaloneRestorer | LcsasSource
  | StartHere (override : option (Z * Z)) (recorded : list (string * (Z * Z)))
  | KeyInfo (override : option (Z * Z)) (recorded : list (string * (Z * Z)))
  | ConfigSummary | DiscCare.

Record BurnManifest := mkManifest {
  m_volume_label : string; m_volume_uuid : string; m_volume_id : Z; m_media_type : MediaType;
  m_selected_packs : list Pack; m_total_data_bytes : Z; m_staging_path : string;
  m_iso_path : option string;
}.

Class Stager (W : Type) := {
  (* paths, identifiers, the disk *)
  resolve_path : string -> eff W string;
  disk_free : string -> eff W Z;
  generate_uuid : W -> string * W;
  generate_session_id : W -> string * W;
  current_year : W -> string * W;
  check_repo_recoverable : string -> string -> eff W unit;
  (* StagingBuilder *)
  initialize_tree : string -> eff W unit;
  is_dir : string -> eff W bool;
  stage_packs : string -> list Pack -> string -> eff W unit;
  assert_staged_complete : string -> list Pack -> eff W unit;
  (* HolographicInjector *)
  repo_markers : Catalog -> list (string * string) -> list (string * string) -> eff W (list (string * string));
  inject_metadata : string -> list (string * string) -> list string -> list (string * string) -> eff W unit;
  wal_checkpoint : eff W unit;
  inject_catalog : string -> Catalog -> eff W unit;
  write_document : string -> Document -> eff W unit;
  (* the image *)
  dir_size_bytes : string -> eff W Z;
  create_iso : string -> string -> string -> Z -> eff W unit;
  augment_iso : string -> Z -> eff W unit;
  write_session_manifest : string -> list BurnManifest -> eff W unit;
  (* removal *)
  unlink : string -> eff W unit;
  safe_remove_tree : string -> eff W unit;
  (* the text of a disagreement about the password split *)
  drift_text : drift -> string;
}.

Record RepositoryConfig := mkRepositoryConfig {
  rcfg_name : string; rcfg_mirror_path : string; password_file : option string;
  rcfg_key_split : option bool; rcfg_key_threshold : option Z; rcfg_key_shares : option Z;
}.
(** What staging reads of [LCSASConfig], and [allow_escrow_drift] of the orchestrator. *)
Record StageConfig := mkStageConfig {
  cfg_repositories : list (string * RepositoryConfig);
  staging_path : string; mirror_base_path : string; default_location : string;
  default_media_type : MediaType; default_ecc_redundancy_pct : Z; label_prefix : string;
  metadata_reserve_bytes : Z; key_split : bool; key_threshold : Z; key_shares : Z;
  allow_unverified_repo_format : bool; allow_escrow_drift : bool;
}.
Definition repo_split (cfg : StageConfig) (nm : string) : bool * Z * Z :=
  match dict_get nm (cfg_repositories cfg) with
  | None => (key_split cfg, key_threshold cfg, key_shares cfg)
  | Some r => (default (key_split cfg) (rcfg_key_split r), default (key_threshold cfg) (rcfg_key_threshold r),
               default (key_shares cfg) (rcfg_key_shares r))
  end.

(** [dict_of_lists[key(p)].append(p)] *)
Definition packs_by_repo (ps : list Pack) : list (string * list Pack) :=
  foldl (fun m p => dict_put (repo_id p) (default [] (dict_get (repo_id p) m) ++ [p]) m) [] ps.

Section stage.
Context {W : Type} `{Machine W} `{Stager W} (cfg : StageConfig).
Abbreviation stage_m A := (eff (BurnState W) A).

Definition fresh {A} (f : W -> A * W) : stage_m A := outside (fun w => let '(x, w) := f w in (Ok x, w)).

(** ** The configuration of a repository *)

Fixpoint match_by_path (target : string) (l : list (string * RepositoryConfig)) : stage_m (option RepositoryConfig) :=
  match l with
  | [] => mret None
  | (_, r) :: l =>
      resolved ← handle (p ← outside (resolve_path (rcfg_mirror_path r)); mret (Some p))
                   (fun e => if caught [OSError] e then Some (mret None) else None);
      if bool_decide (resolved = Some target) then mret (Some r) else match_by_path target l
  end.
Definition _match_repo_config (db_name db_mirror_path : string) : stage_m (option RepositoryConfig) :=
  db_resolved ← handle (outside (resolve_path db_mirror_path))
                  (fun e => if caught [OSError] e then Some (mret db_mirror_path) else None);
  found ← match_by_path db_resolved (cfg_repositories cfg);
  match found with
  | Some r => mret (Some r)
  | None =>
      match dict_get db_name (cfg_repositories cfg) with
      | Some r => mret (Some r)
      | None => mret (snd <$> List.find (fun e => String.eqb (str_lower e.1) (str_lower db_name)) (cfg_repositories cfg))
      end
  end.
Fixpoint names_of (rs : list Repository) (names : list (string * string)) : stage_m (list (string * string)) :=
  match rs with
  | [] => mret names
  | r :: rs =>
      found ← _match_repo_config (r_name r) (mirror_path r);
      names_of rs (match found with Some x => dict_put (r_repo_id r) (rcfg_name x) names | None => names end)
  end.
Definition _config_names : stage_m (list (string * string)) :=
  rs ← catalog (query list_repos); names_of rs [].

Definition _get_mirror_paths (d : Catalog) : list (string * string) :=
  match (fun r => (r_repo_id r, mirror_path r)) <$> list_repos d with
  | [] => [("default", mirror_base_path cfg)]
  | paths => paths
  end.

Definition _escrow_preflight (repo_ids : list string) : stage_m (option drift) :=
  names ← _config_names;
  message ← catalog (query (detect_escrow_drift (repo_split cfg) names repo_ids));
  match message with
  | None => mret None
  | Some m => if allow_escrow_drift cfg then mret (Some m) else throw EscrowDriftError
  end.
Fixpoint first_record (d : Catalog) (l : list string) : option (Z * Z) :=
  match l with
  | [] => None
  | r :: l => match get_split_for_repo r d with
              | Some x => Some (threshold x, shares x)
              | None => first_record d l
              end
  end.
Definition _effective_kn (repo_ids : list string) (d : Catalog) : option (Z * Z) :=
  first_record d (sorted_set repo_ids).

(** One repository of the format check, and all of them. *)
Definition check_format (repo : string) : stage_m unit :=
  r ← catalog (get_repo repo);
  found ← _match_repo_config (r_name r) (mirror_path r);
  match found ≫= password_file with
  | None => if allow_unverified_repo_format cfg then mret tt else throw FormatDriftError
  | Some file => outside (check_repo_recoverable (mirror_path r) file)
  end.
Definition _format_preflight (repo_ids : list string) : stage_m unit :=
  for_each check_format (sorted_set repo_ids).

(** ** One volume *)

Record VolumeJob := mkJob {
  job_packs : list Pack; job_bytes : Z; job_media : MediaType; job_label : string; job_uuid : string;
  job_root : string; iso_output : option string; job_session : option string; position : option (Z * Z);
}.
Section volume.
Variable job : VolumeJob.

Definition stage_repository (mirrors : list (string * string)) (e : string * list Pack) : stage_m unit :=
  match dict_get e.1 mirrors with
  | None => throw MirrorUnavailableError
  | Some mirror =>
      let data_dir := slash mirror "data" in
      here ← outside (is_dir data_dir);
      if here : bool then outside (stage_packs (job_root job) e.2 data_dir) else throw MirrorUnavailableError
  end.
(** Steps 1 and 2, which write nothing to the catalog: what the documents say of the split,
    the names of the repositories, and a disagreement that is tolerated. *)
Record Disc_texts := mkTexts {
  dt_drift : option drift; dt_kn : option (Z * Z); dt_recorded : list (string * (Z * Z));
  dt_names : list (string * string);
}.
Definition build_tree : stage_m Disc_texts :=
  _ ← outside (initialize_tree (job_root job));
  mirrors ← catalog (query _get_mirror_paths);
  let by_repo := packs_by_repo (job_packs job) in
  drift_msg ← _escrow_preflight by_repo.*1;
  _ ← for_each (stage_repository mirrors) by_repo;
  _ ← outside (assert_staged_complete (job_root job) (job_packs job));
  config_names ← _config_names;
  kn ← catalog (query (_effective_kn by_repo.*1));
  recorded ← catalog (query (recorded_splits config_names));
  d ← catalog (query id);
  markers ← outside (repo_markers d mirrors config_names);
  _ ← outside (inject_metadata (job_root job) mirrors by_repo.*1 markers);
  mret (mkTexts drift_msg kn recorded markers).

(** Step 3: one transaction. *)
Definition register_volume (drift_msg : option drift) : stage_m Volume :=
  volume ← timed (fun now => create_volume (job_label job) (job_uuid job) (media_name (job_media job))
             (capacity_bytes (job_media job)) (default_location cfg) "STAGING" now false);
  _ ← catalog (bulk_link_packs (volume_id volume) (pack_id <$> job_packs job) false);
  _ ← catalog (update_used_bytes (volume_id volume) (job_bytes job) false);
  _ ← match drift_msg with
      | Some x =>
          _ ← timed (fun now => add_event (volume_id volume) "NOTE" None
                       ("KEY-08 split drift override: " ++ drift_text x)%string None now false);
          mret tt
      | None => mret tt
      end;
  _ ← match job_session job, iso_output job with
      | Some session, Some iso =>
          _ ← catalog (add_session_volume session (volume_id volume) iso (Some EmptyString) None false); mret tt
      | _, _ => mret tt
      end;
  _ ← catalog commit;
  mret volume.

(** The copy is of the database file, which holds what was committed. *)
Definition inject_disc_catalog : stage_m unit :=
  handle (_ ← outside wal_checkpoint;
          d ← gets (fun s => committed (conn s));
          outside (inject_catalog (job_root job) d))
    (fun e => if is_exception e then Some (throw RuntimeError) else None).
Definition documents (texts : Disc_texts) (vol : Volume) : list Document :=
  [VolumeInfo vol (job_packs job) (position job) (dt_names texts); RestoreInstructions; StandaloneRestorer] ++
  (if is_test (job_media job) then [] else [LcsasSource]) ++
  [StartHere (dt_kn texts) (dt_recorded texts); KeyInfo (dt_kn texts) (dt_recorded texts); ConfigSummary; DiscCare].
(** Steps 6 and 7 *)
Definition build_image (iso : string) : stage_m unit :=
  estimated_bytes ← outside (dir_size_bytes (job_root job));
  _ ← (if capacity_bytes (job_media job) <? estimated_bytes then throw ValueError else mret tt);
  _ ← outside (create_iso (job_root job) iso (job_label job) estimated_bytes);
  _ ← (if apply_ecc (job_media job) then outside (augment_iso iso (default_ecc_redundancy_pct cfg)) else mret tt);
  here ← outside (path_exists iso);
  _ ← (if here : bool then mret tt else throw FileNotFoundError);
  iso_size ← outside (file_size iso);
  if capacity_bytes (job_media job) <? iso_size then throw ValueError else mret tt.
Definition finish_volume (texts : Disc_texts) (volume : Volume) : stage_m unit :=
  _ ← inject_disc_catalog;
  vol ← catalog (get_volume_by_id (volume_id volume));
  _ ← for_each (fun x => outside (write_document (job_root job) x)) (documents texts vol);
  match iso_output job with
  | Some iso => build_image iso
  | None => mret tt
  end.
(** [except BaseException] *)
Definition compensate (volume : Volume) (e : exn) : stage_m unit :=
  _ ← catalog rollback;
  _ ← catalog (delete_volume (volume_id volume));
  throw e.

Definition _stage_single_volume : stage_m BurnManifest :=
  texts ← build_tree;
  volume ← register_volume (dt_drift texts);
  _ ← handle (finish_volume texts volume) (fun e => Some (compensate volume e));
  mret (mkManifest (job_label job) (job_uuid job) (volume_id volume) (job_media job) (job_packs job)
          (job_bytes job) (job_root job) (iso_output job)).
End volume.

(** ** The session *)

Record StageResult := mkStageResult {
  sr_session_id : string; sr_media_type : MediaType; sr_staging_dir : string;
  manifests : list BurnManifest; iso_paths : list string;
}.

(** Volume [i] of [n]; the labels count on from [seq]. *)
(** What follows [_stage_single_volume] for a volume of a session: the hash and the length
    of the image go into its row. *)
Definition record_image (session iso : string) (manifest : BurnManifest) : stage_m unit :=
  here ← outside (path_exists iso);
  hash_size ← (if here : bool
               then h ← outside (sha256_file iso); sz ← outside (file_size iso); mret (h, Some sz)
               else mret (EmptyString, None));
  catalog (update_session_volume_iso session (m_volume_id manifest) iso hash_size.1 hash_size.2).
Definition stage_volume (m : MediaType) (session session_dir : string) (seq i n : Z) (pl : VolumePlan) :
    stage_m BurnManifest :=
  year ← fresh current_year;
  vol_label ← lift (generate_volume_label (label_prefix cfg) (label_name m) year (seq + i));
  vol_uuid ← fresh generate_uuid;
  let iso := (slash session_dir vol_label ++ ".iso")%string in
  manifest ← _stage_single_volume
    (mkJob pl.1 pl.2 m vol_label vol_uuid (slash session_dir vol_label) (Some iso) (Some session) (Some (i + 1, n)));
  _ ← record_image session iso manifest;
  mret manifest.
Fixpoint stage_volumes (m : MediaType) (session session_dir : string) (seq i n : Z) (plans : list VolumePlan) :
    stage_m (list BurnManifest) :=
  match plans with
  | [] => mret []
  | pl :: plans =>
      manifest ← stage_volume m session session_dir seq i n pl;
      rest ← stage_volumes m session session_dir seq (i + 1) n plans;
      mret (manifest :: rest)
  end.

Definition plan_result (r : option (res (list VolumePlan))) : res (list VolumePlan) :=
  default (Err OutOfFuel) r.
Definition plan_repos (plans : list VolumePlan) : list string := repo_id <$> (pl ← plans; pl.1).
(** [if staging_usage.free < required_bytes: raise OSError]; the space that is needed is
    computed before the disk is asked. *)
Definition check_disk_space (m : MediaType) (plans : list VolumePlan) : stage_m unit :=
  required ← lift (required_space m (metadata_reserve_bytes cfg) plans);
  free ← outside (disk_free (staging_path cfg));
  if free <? required then throw OSError else mret tt.
Definition open_session (m : MediaType) : stage_m (string * string) :=
  session ← fresh generate_session_id;
  let session_dir := slash (staging_path cfg) (str_replace ":" "-" session) in
  _ ← timed (fun now => create_session (media_name m) session_dir (Some session) EmptyString now true);
  _ ← outside (ensure_dir session_dir);
  mret (session, session_dir).

Definition stage (media : option MediaType) (for_location : option string)
    (repo_ids pack_sha256s : option (list string)) (dry_run : bool) : stage_m StageResult :=
  let m := default (default_media_type cfg) media in
  d ← catalog (query id);
  volume_plans ← lift (plan_result (stage_plan m (metadata_reserve_bytes cfg) for_location repo_ids pack_sha256s d));
  if dry_run : bool then mret (mkStageResult "dry-run" m "/dev/null" [] [])
  else
    _ ← _format_preflight (plan_repos volume_plans);
    _ ← check_disk_space m volume_plans;
    ids ← open_session m;
    existing_labels ← catalog (query volume_labels);
    let seq := next_seq_num existing_labels (label_prefix cfg) in
    ms ← stage_volumes m ids.1 ids.2 seq 0 (len volume_plans) volume_plans;
    _ ← outside (write_session_manifest (slash ids.2 "session.json") ms);
    mret (mkStageResult ids.1 m ids.2 ms (omap m_iso_path ms)).

(** [prepare], which stages a single volume without a session or an image. *)
Definition prepare (media : option MediaType) (repo_ids : option (list string)) : stage_m BurnManifest :=
  let m := default (default_media_type cfg) media in
  d ← catalog (query id);
  selection ← lift (prepare_selection m (metadata_reserve_bytes cfg) repo_ids d);
  _ ← _format_preflight (repo_id <$> selection.1);
  existing_labels ← catalog (query volume_labels);
  year ← fresh current_year;
  vol_label ← lift (generate_volume_label (label_prefix cfg) (label_name m) year
                (next_seq_num existing_labels (label_prefix cfg)));
  vol_uuid ← fresh generate_uuid;
  _stage_single_volume (mkJob selection.1 selection.2 m vol_label vol_uuid (slash (staging_path cfg) vol_label)
    None None None).
End stage.
