(* ===== verification/StageProps.v ===== *)
(** * What staging leaves behind

    Whatever the tree, the image programs and the operator do: a volume is either staged,
    with its links, its row in the session and its status, or it is not in the catalog at
    all; and a session holds the first of the planned volumes, all of them when [stage]
    returns. *)

From S2P Require Import Prelude PyString PyText Json Effects Sqlite Catalog VolumeEvents Queries Volumes Labels Packs Locations BinPack BinPlan Escrow BurnFrame Burn BurnProps StageFrame Stage.
Open Scope string_scope.
Open Scope list_scope.
Open Scope Z_scope.

(** ** Computations that leave the connection alone *)

Section quiet.
Context {W : Type}.
Definition same_conn (s s' : BurnState W) : Prop := conn s' = conn s /\ receipts s' = receipts s.
#[export] Instance same_conn_preorder : PreOrder same_conn.
Proof. split; [by intros s|]. intros s1 s2 s3 [E1 E2] [E3 E4]. split; congruence. Qed.
Definition quiet {A} (m : eff (BurnState W) A) : Prop := Effects.preserves same_conn m.
Definition readonly {A} (m : dbc A) : Prop := forall c, (m c).2 = c.

Lemma quiet_outside {A} (m : eff W A) : quiet (outside m).
Proof. intros s. unfold outside. by destruct (m (world s)). Qed.
Lemma quiet_catalog {A} (m : dbc A) : readonly m -> quiet (catalog m).
Proof.
  intros Hm s. specialize (Hm (conn s)). unfold catalog. destruct (m (conn s)) as [r c]. cbn in Hm. by subst c.
Qed.
Lemma quiet_fresh {A} (f : W -> A * W) : quiet (fresh f).
Proof. apply quiet_outside. Qed.
Lemma quiet_ret {A} (a : A) : quiet (mret a).
Proof. by intros s. Qed.
Lemma quiet_throw {A} e : quiet (throw e : eff (BurnState W) A).
Proof. by intros s. Qed.
Lemma quiet_lift {A} (r : res A) : quiet (lift r).
Proof. by intros s. Qed.
Lemma quiet_gets {A} (f : BurnState W -> A) : quiet (gets f).
Proof. by intros s. Qed.
Lemma quiet_bind {A B} (m : eff (BurnState W) A) (f : A -> eff (BurnState W) B) :
  quiet m -> (forall a, quiet (f a)) -> quiet (m ≫= f).
Proof. apply Effects.preserves_bind, _. Qed.
Lemma quiet_handle {A} (m : eff (BurnState W) A) h :
  quiet m -> (forall e k, h e = Some k -> quiet k) -> quiet (handle m h).
Proof. apply Effects.preserves_handle, _. Qed.
Lemma quiet_for_each {A} (m : A -> eff (BurnState W) unit) l : (forall x, quiet (m x)) -> quiet (for_each m l).
Proof. apply Effects.preserves_for_each, _. Qed.

Lemma readonly_query {A} (f : Catalog -> A) : readonly (query f).
Proof. done. Qed.
Lemma readonly_repo r : readonly (get_repo r).
Proof. intros c. unfold get_repo, mbind, db_bind, query. by destruct (fetchone _). Qed.
Lemma readonly_volume v : readonly (get_volume_by_id v).
Proof. intros c. unfold get_volume_by_id, mbind, db_bind, query. by destruct (find_volume _ _). Qed.

(** A quiet computation, before and after which the same holds of the connection. *)
Lemma quiet_spec {A} P (m : eff (BurnState W) A) E : quiet m -> (forall e s, on P s -> E e s) ->
  spec (on P) m (fun _ => on P) E.
Proof.
  intros Hm HE s Hs. specialize (Hm s). destruct (m s) as [r s']. destruct Hm as [Hc Hr]. cbn in Hc, Hr.
  assert (on P s') as Hs' by (unfold on in *; by rewrite Hc, Hr). destruct r; [done|by apply HE].
Qed.
Lemma quiet_bind_spec {A B} P (m : eff (BurnState W) A) (f : A -> eff (BurnState W) B) Q E :
  quiet m -> (forall e s, on P s -> E e s) -> (forall a, spec (on P) (f a) Q E) -> spec (on P) (m ≫= f) Q E.
Proof. intros Hm HE Hf. eapply spec_bind; [by apply quiet_spec|]. exact Hf. Qed.
End quiet.
Create HintDb quiet.
#[export] Hint Resolve quiet_outside quiet_catalog quiet_fresh quiet_ret quiet_throw quiet_lift quiet_gets
  quiet_bind quiet_handle quiet_for_each readonly_query readonly_repo readonly_volume : quiet.
Ltac quiet := repeat first
  [ progress intros | solve [auto 2 with quiet]
  | apply quiet_outside | apply quiet_fresh | apply quiet_ret | apply quiet_throw | apply quiet_lift | apply quiet_gets
  | apply quiet_catalog; auto with quiet
  | apply quiet_bind | apply quiet_for_each
  | match goal with |- quiet (match ?x with _ => _ end) => destruct x end ].

Section preflights.
Context {W : Type} `{Machine W} `{Stager W} (cfg : StageConfig).
Lemma quiet_match_by_path t l : quiet (match_by_path t l).
Proof.
  induction l as [|[n r] l IH]; cbn [match_by_path]; quiet.
  apply quiet_handle; quiet. destruct (caught _ _); simplify_eq. quiet.
Qed.
Hint Resolve quiet_match_by_path : quiet.
Lemma quiet_match n p : quiet (_match_repo_config cfg n p).
Proof.
  unfold _match_repo_config. quiet. apply quiet_handle; quiet. destruct (caught _ _); simplify_eq. quiet.
Qed.
Hint Resolve quiet_match : quiet.
Lemma quiet_names rs : forall names, quiet (names_of cfg rs names).
Proof. induction rs; intros names; cbn [names_of]; quiet. Qed.
Hint Resolve quiet_names : quiet.
Lemma quiet_config_names : quiet (_config_names cfg).
Proof. unfold _config_names. quiet. Qed.
Hint Resolve quiet_config_names : quiet.
Lemma quiet_escrow l : quiet (_escrow_preflight cfg l).
Proof. unfold _escrow_preflight. quiet. Qed.
Hint Resolve quiet_escrow : quiet.
Lemma quiet_format l : quiet (_format_preflight cfg l).
Proof. unfold _format_preflight, check_format. quiet. Qed.
Lemma quiet_space m plans : quiet (check_disk_space cfg m plans).
Proof. unfold check_disk_space. quiet. Qed.
Lemma quiet_tree job : quiet (build_tree cfg job).
Proof. unfold build_tree, stage_repository. quiet. Qed.
Lemma quiet_finish job texts v : quiet (finish_volume cfg job texts v).
Proof.
  unfold finish_volume, build_image. quiet. unfold inject_disc_catalog. apply quiet_handle; quiet.
  destruct (is_exception e); simplify_eq. quiet.
Qed.
End preflights.
#[export] Hint Resolve quiet_match_by_path quiet_match quiet_names quiet_config_names quiet_escrow quiet_format
  quiet_space quiet_tree quiet_finish : quiet.

(** ** One volume *)

Section volume.
Context {W : Type} `{Machine W} `{Stager W} (cfg : StageConfig).

Abbreviation burn_spec P m Q E := (spec (on P) m (fun a => on (Q a)) (fun e => on (E e))).
Lemma spec_inspect {A} (P : Conn Catalog -> list BurnReceipt -> Prop) (m : dbc A) Q E :
  (forall c rs, P c rs -> match m c with (Ok a, c') => Q a c' rs | (Err e, c') => E e c' rs end) ->
  burn_spec P (catalog m : eff (BurnState W) A) Q E.
Proof.
  intros Hm s Hs. specialize (Hm _ _ Hs). unfold catalog. by destruct (m (conn s)) as [[a|e] c].
Qed.
Lemma spec_timed_inspect {A} (P : Conn Catalog -> list BurnReceipt -> Prop) (m : string -> dbc A) Q E :
  (forall now c rs, P c rs -> match m now c with (Ok a, c') => Q a c' rs | (Err e, c') => E e c' rs end) ->
  burn_spec P (timed m : eff (BurnState W) A) Q E.
Proof.
  intros Hm. eapply spec_bind; [apply spec_clock|]. intros now. apply spec_inspect, Hm.
Qed.

Lemma spec_pure_on {A} (X : Prop) (P : Conn Catalog -> list BurnReceipt -> Prop) (m : eff (BurnState W) A) Q E :
  (X -> spec (on P) m Q E) -> spec (on (fun c rs => P c rs /\ X)) m Q E.
Proof. intros Hm s [Hs HX]. by apply Hm. Qed.
Lemma spec_exists_on {A B} (P : B -> Conn Catalog -> list BurnReceipt -> Prop) (m : eff (BurnState W) A) Q E :
  (forall b, spec (on (P b)) m Q E) -> spec (on (fun c rs => exists b, P b c rs)) m Q E.
Proof. intros Hm s [b Hs]. by apply (Hm b). Qed.
Lemma uncommitted_result {DB A} (m : db DB A) c r c' d : m c = (r, c') -> committed c = d -> uncommitted m -> committed c' = d.
Proof. intros E Hc Hm. specialize (Hm c). rewrite E in Hm. by subst d. Qed.

Section job.
Context (job : VolumeJob) (d0 : Catalog).
Hypotheses (W0 : catalog_wf d0) (Hpacks : NoDup (pack_id <$> job_packs job)).

Definition job_rows (v : Volume) : list SessionVolume :=
  match job_session job, iso_output job with
  | Some session, Some iso => [mkSessionVolume session (volume_id v) iso (Some EmptyString) None]
  | _, _ => []
  end.
(** The row of the volume. *)
Definition job_volume (v : Volume) : Prop :=
  label v = job_label job /\ uuid v = job_uuid job /\ media_type v = media_name (job_media job) /\
  Catalog.capacity_bytes v = BinPack.capacity_bytes (job_media job) /\ used_bytes v = job_bytes job /\ status v = "STAGING".
Definition staged (i : Z) (d : Catalog) : Prop := exists v,
  volume_id v = i /\ job_volume v /\ new_volume v (pack_id <$> job_packs job) (job_rows v) d0 d.

Definition committed_is (c : Conn Catalog) (_ : list BurnReceipt) : Prop := committed c = d0.
(** In the transaction: the row of the volume so far. *)
Definition registering (v0 : Volume) (used : Z) (links : list Z) (rows : list SessionVolume)
    (c : Conn Catalog) (_ : list BurnReceipt) : Prop :=
  committed c = d0 /\ new_volume (set_used_bytes used v0) links rows d0 (current c).

Lemma register_volume_spec drift_msg :
  burn_spec (fun c _ => c = mkConn d0 d0 false) (register_volume cfg job drift_msg)
    (fun v c _ => exists d, c = mkConn d d false /\ staged (volume_id v) d) (fun _ => committed_is).
Proof using W0 Hpacks.
  unfold register_volume.
  eapply (spec_bind _ _ _ (fun v => on (fun c rs => registering v 0 [] [] c rs /\
    label v = job_label job /\ uuid v = job_uuid job /\ media_type v = media_name (job_media job) /\
    Catalog.capacity_bytes v = BinPack.capacity_bytes (job_media job) /\ status v = "STAGING"))).
  { apply spec_timed_inspect. intros now c rs ->. destruct (create_volume _ _ _ _ _ _ _ _ _) as [[v|e] c'] eqn:E.
    - apply create_new in E as (E1 & Hn & ->); [|done]. split; [split; [done|exact Hn]|done].
    - unfold committed_is. apply (f_equal snd) in E. cbn in E. subst c'.
      assert (uncommitted (create_volume (job_label job) (job_uuid job) (media_name (job_media job))
        (BinPack.capacity_bytes (job_media job)) (default_location cfg) "STAGING" now false)) as Hu.
      { unfold create_volume, get_volume_by_id, commit_if. uncommitted. }
      apply Hu. }
  intros v0. apply spec_pure_on. intros (H1 & H2 & H3 & H4 & H5).
  assert (forall used, volume_id (set_used_bytes used v0) = volume_id v0) as Hid by done.
  eapply (spec_bind _ _ _ (fun _ => on (registering v0 0 (pack_id <$> job_packs job) []))).
  { apply spec_inspect. intros c rs [Hc Hn].
    destruct (bulk_link_packs _ _ _ c) as [[[]|e] c'] eqn:E; [|apply (uncommitted_result _ _ _ _ _ E Hc)].
    2: { unfold bulk_link_packs, commit_if. uncommitted. apply uncommitted_executemany. }
    unfold bulk_link_packs in E. apply db_bind_Ok_inv in E as ([] & c1 & E & [= <-]).
    destruct (links_new d0 W0 (set_used_bytes 0 v0) _ [] [] c c1 Hn Hpacks E) as [E1 E2]. split; [congruence|exact E2]. }
  intros ?. eapply (spec_bind _ _ _ (fun _ => on (registering v0 (job_bytes job) (pack_id <$> job_packs job) []))).
  { apply spec_inspect. intros c rs [Hc Hn].
    destruct (update_used_bytes _ _ _ c) as [[[]|e] c'] eqn:E; [|apply (uncommitted_result _ _ _ _ _ E Hc)].
    2: { unfold update_used_bytes, update_volume, commit_if. uncommitted. }
    destruct (used_bytes_new d0 W0 (set_used_bytes 0 v0) _ _ _ c c' _ Hn E) as [E1 E2]. split; [congruence|exact E2]. }
  intros ?. eapply (spec_bind _ _ _ (fun _ => on (registering v0 (job_bytes job) (pack_id <$> job_packs job) []))).
  { destruct drift_msg as [x|]; [|by apply spec_ret].
    eapply (spec_bind _ _ _ (fun _ => on (registering v0 (job_bytes job) (pack_id <$> job_packs job) []))); [|intros ?; by apply spec_ret].
    apply spec_timed. intros now c rs [Hc Hn].
    destruct (note_new d0 (set_used_bytes (job_bytes job) v0) ("KEY-08 split drift override: " ++ drift_text x)%string now _ _ c Hn)
      as (e & d' & E & Hn'). eexists _, _. split; [exact E|]. by split. }
  intros ?. eapply (spec_bind _ _ _ (fun _ => on (registering v0 (job_bytes job) (pack_id <$> job_packs job) (job_rows v0)))).
  { unfold job_rows. destruct (job_session job) as [session|]; [|by apply spec_ret].
    destruct (iso_output job) as [iso|]; [|by apply spec_ret].
    eapply (spec_bind _ _ _ (fun _ => on (registering v0 (job_bytes job) (pack_id <$> job_packs job) _))); [|intros ?; by apply spec_ret].
    apply spec_inspect. intros c rs [Hc Hn].
    destruct (add_session_volume _ _ _ _ _ _ c) as [[x|e] c'] eqn:E; [|apply (uncommitted_result _ _ _ _ _ E Hc)].
    2: { unfold add_session_volume, commit_if. uncommitted. }
    destruct (row_new d0 (set_used_bytes (job_bytes job) v0) _ _ _ _ _ c c' _ Hn E) as (E1 & _ & E2). split; [congruence|exact E2]. }
  intros ?. eapply (spec_bind _ _ _ (fun _ => on (fun c _ => exists d, c = mkConn d d false /\ staged (volume_id v0) d))).
  { apply spec_inspect. intros c rs [Hc Hn]. cbn. eexists. split; [done|]. by exists (set_used_bytes (job_bytes job) v0). }
  intros ?. by apply spec_ret.
Qed.

(** [_stage_single_volume] *)
Definition not_staged (c : Conn Catalog) (_ : list BurnReceipt) : Prop :=
  catalog_wf (committed c) /\ tables (committed c) = tables d0.
Definition job_manifest (mf : BurnManifest) : Prop :=
  m_volume_label mf = job_label job /\ m_volume_uuid mf = job_uuid job /\ m_media_type mf = job_media job /\
  m_selected_packs mf = job_packs job /\ m_total_data_bytes mf = job_bytes job /\ m_iso_path mf = iso_output job.

Lemma compensate_spec v d e : staged (volume_id v) d ->
  burn_spec (fun c _ => c = mkConn d d false) (compensate v e : eff (BurnState W) unit) (fun _ _ _ => False)
    (fun _ c rs => c = mkConn (committed c) (committed c) false /\ not_staged c rs).
Proof using W0.
  intros (x & Hi & _ & Hn). unfold compensate.
  eapply (spec_bind _ _ _ (fun _ => on (fun c _ => c = mkConn d d false))).
  { apply spec_inspect. by intros c rs ->. }
  intros ?. eapply (spec_bind _ _ _ (fun _ => on (fun c rs => c = mkConn (committed c) (committed c) false /\ not_staged c rs))).
  { apply spec_inspect. intros c rs ->. rewrite delete_volume_run. cbn. split; [done|]. split; cbn.
    - apply without_volumes_wf. by destruct Hn.
    - rewrite <- Hi. by eapply taken_back. }
  intros ?. by apply spec_throw.
Qed.

Lemma stage_single_volume_spec :
  burn_spec (fun c _ => c = mkConn d0 d0 false) (_stage_single_volume cfg job)
    (fun mf c _ => exists d, c = mkConn d d false /\ job_manifest mf /\ staged (m_volume_id mf) d)
    (fun _ => not_staged).
Proof using W0 Hpacks.
  unfold _stage_single_volume.
  assert (forall c rs, committed_is c rs -> not_staged c rs) as Hnone.
  { intros c rs Hc. unfold committed_is in Hc. split; by rewrite Hc. }
  eapply (spec_bind _ _ _ (fun _ => on (fun c _ => c = mkConn d0 d0 false))).
  { apply quiet_spec; [auto with quiet|]. intros e s Hs. apply Hnone. unfold on in Hs. unfold committed_is. by rewrite Hs. }
  intros texts. eapply spec_bind.
  { eapply spec_conseq; [apply (register_volume_spec (dt_drift texts))|done|done|]. intros e s. apply Hnone. }
  intros v. apply spec_exists_on. intros d. apply spec_pure_on. intros Hst.
  eapply (spec_bind _ _ _ (fun _ => on (fun c _ => c = mkConn d d false))).
  { eapply spec_handle; [apply quiet_spec; [auto with quiet|]; intros e s Hs; exact Hs| |done].
    intros e k [= <-]. eapply spec_conseq; [by eapply compensate_spec|done|done|]. by intros e' s [_ ?]. }
  intros ?. apply spec_ret. intros s Hs. exists d. by split_and!.
Qed.
End job.

(** ** The volumes of a session *)

Section session.
Context (m : MediaType) (session session_dir : string).

(** One planned volume, with the hash and the length recorded for its image. *)
Definition plan_volume (pl : VolumePlan) (v : Volume) : Prop :=
  status v = "STAGING" /\ used_bytes v = pl.2 /\ media_type v = media_name m /\
  Catalog.capacity_bytes v = BinPack.capacity_bytes m.
Definition plan_staged (hash : string) (size : option Z) (pl : VolumePlan) (d d' : Catalog) : Prop := exists v,
  plan_volume pl v /\ new_volume v (pack_id <$> pl.1)
    [mkSessionVolume session (volume_id v) (slash session_dir (label v) ++ ".iso")%string (Some hash) size] d d'.
Inductive plans_staged : list VolumePlan -> Catalog -> Catalog -> Prop :=
  | plans_nil d : plans_staged [] d d
  | plans_cons hash size pl plans d d1 d2 : plan_staged hash size pl d d1 -> plans_staged plans d1 d2 ->
      plans_staged (pl :: plans) d d2.
(** Where staging a volume can stop: with nothing of it in the catalog; or, when
    [_stage_single_volume] itself returned and recording its image failed, with the volume,
    its links and a row without the hash. *)
Definition image_unrecorded (pl : VolumePlan) (d : Catalog) (e : exn) (s' : BurnState W) : Prop :=
  plan_staged EmptyString None pl d (committed (conn s')) /\
  exists job iso s0 manifest s1, conn s0 = mkConn d d false /\ job_packs job = pl.1 /\ iso_output job = Some iso /\
    _stage_single_volume cfg job s0 = (Ok manifest, s1) /\ record_image session iso manifest s1 = (Err e, s').
Definition plan_stopped (pl : VolumePlan) (d : Catalog) (e : exn) (s' : BurnState W) : Prop :=
  catalog_wf (committed (conn s')) /\ (tables (committed (conn s')) = tables d \/ image_unrecorded pl d e s').

Lemma plan_staged_wf h sz pl d d' : plan_staged h sz pl d d' -> catalog_wf d'.
Proof. by intros (v & _ & []). Qed.
Lemma plans_staged_wf plans d d' : catalog_wf d -> plans_staged plans d d' -> catalog_wf d'.
Proof. intros Wf Hp. induction Hp; [done|]. apply IHHp. by eapply plan_staged_wf. Qed.

(** Recording the image either completes the row or leaves the catalog as it is. *)
Lemma record_image_spec iso mf pl v job d0 d : catalog_wf d0 -> job_packs job = pl.1 -> job_session job = Some session ->
  iso_output job = Some iso -> iso = (slash session_dir (label v) ++ ".iso")%string -> m_volume_id mf = volume_id v ->
  plan_volume pl v -> new_volume v (pack_id <$> job_packs job) (job_rows job v) d0 d ->
  burn_spec (fun c _ => c = mkConn d d false) (record_image session iso mf)
    (fun _ c _ => exists d', c = mkConn d' d' false /\ exists h sz, plan_staged h sz pl d0 d')
    (fun _ c _ => c = mkConn d d false).
Proof.
  intros W0 Hpl Hses Hio -> Hi Hv Hn. unfold job_rows in Hn. rewrite Hses, Hio, Hpl in Hn. unfold record_image. cbv zeta.
  apply quiet_bind_spec; [auto with quiet|done|]. intros here.
  apply quiet_bind_spec; [quiet|done|]. intros [h sz]. cbn [fst snd].
  apply spec_catalog. intros c rs ->. rewrite Hi.
  destruct (row_updated d0 v session _ _ _ _ d (slash session_dir (label v) ++ ".iso")%string h sz W0 Hn) as (d' & E & Hn').
  eexists _, _. split; [exact E|]. exists d'. split; [done|]. by exists h, sz, v.
Qed.

Lemma stage_volume_spec seq i n pl d0 : catalog_wf d0 -> NoDup (pack_id <$> pl.1) ->
  spec (on (fun c _ => c = mkConn d0 d0 false)) (stage_volume cfg m session session_dir seq i n pl)
    (fun _ => on (fun c _ => exists d, c = mkConn d d false /\ exists h sz, plan_staged h sz pl d0 d))
    (plan_stopped pl d0).
Proof.
  intros W0 Hnd. unfold stage_volume.
  assert (forall (e : exn) (s : BurnState W), on (fun c _ => c = mkConn d0 d0 false) s -> plan_stopped pl d0 e s) as Hnone.
  { intros e s Hs. unfold on in *. unfold plan_stopped. rewrite Hs. split; [done|by left]. }
  apply quiet_bind_spec; [auto with quiet|done|]. intros year.
  apply quiet_bind_spec; [auto with quiet|done|]. intros lab.
  apply quiet_bind_spec; [auto with quiet|done|]. intros uid. cbv zeta. set (job := mkJob _ _ _ _ _ _ _ _ _).
  eapply spec_bind.
  { apply spec_run. eapply spec_conseq; [apply (stage_single_volume_spec job d0 W0 Hnd)|done|intros ? ? Hs; exact Hs|].
    intros e s [Wf Ht]. split; [done|by left]. }
  intros mf s1 [(d & Hc & _ & v & Hi & (Hlab & _ & Hmt & Hcap & Hused & Hst) & Hn) (s0 & Hs0 & Hrun)].
  assert (plan_volume pl v) as Hpv by (by split_and!).
  pose proof (record_image_spec (slash session_dir lab ++ ".iso") mf pl v job d0 d W0 eq_refl eq_refl eq_refl
    ltac:(by rewrite Hlab) (eq_sym Hi) Hpv Hn s1 Hc) as Hrec.
  unfold mbind, eff_bind. destruct (record_image session _ mf s1) as [[[]|e] s2] eqn:Er; [done|].
  unfold on in Hrec. unfold plan_stopped, image_unrecorded. rewrite Hrec. cbn [committed]. split; [apply Hn|]. right. split.
  - exists v. split; [done|]. cbn in Hn. by rewrite Hlab.
  - exists job, (slash session_dir lab ++ ".iso")%string, s0, mf, s1. by split_and!.
Qed.

Lemma stage_volumes_spec seq n plans : forall i d0, catalog_wf d0 -> Forall (fun pl => NoDup (pack_id <$> pl.1)) plans ->
  spec (on (fun c _ => c = mkConn d0 d0 false)) (stage_volumes cfg m session session_dir seq i n plans)
    (fun _ => on (fun c _ => exists d, c = mkConn d d false /\ plans_staged plans d0 d))
    (fun e s' => exists l1 pl l2 d, plans = l1 ++ pl :: l2 /\ plans_staged l1 d0 d /\ plan_stopped pl d e s').
Proof.
  induction plans as [|pl plans IH]; intros i d0 W0 Hnd; cbn [stage_volumes].
  { apply spec_ret. intros s Hs. exists d0. split; [exact Hs|constructor]. }
  apply Forall_cons in Hnd as [Hpl Hnd]. eapply spec_bind.
  { eapply spec_conseq; [apply (stage_volume_spec seq i n pl d0 W0 Hpl)|done|intros ? ? Hs; exact Hs|].
    intros e s Hs. exists [], pl, plans, d0. split_and!; [done|constructor|exact Hs]. }
  intros mf. apply spec_exists_on. intros d. apply spec_pure_on. intros (h & sz & Hd).
  eapply spec_bind.
  { eapply spec_conseq; [apply (IH (i + 1) d (plan_staged_wf _ _ _ _ _ Hd) Hnd)|done|intros ? ? Hs; exact Hs|].
    intros e s (l1 & pl' & l2 & d1 & -> & Hl & Hs). exists (pl :: l1), pl', l2, d1.
    split_and!; [done| |exact Hs]. by econstructor. }
  intros ms. apply spec_ret. intros s (d1 & Hc & Hl). exists d1. split; [exact Hc|]. by econstructor.
Qed.

End session.
End volume.

(** ** The session *)

Section staging.
Context {W : Type} `{Machine W} `{Stager W} (cfg : StageConfig).

Definition session_opened (m : MediaType) (session session_dir : string) (d d1 : Catalog) : Prop :=
  catalog_wf d1 /\ session ∉ session_id <$> burn_sessions d /\
  exists now, d1 = set_sessions d (burn_sessions d ++ [mkBurnSession session now (media_name m) "STAGED" session_dir]).
Lemma create_session_cases m session dir (now : string) d : catalog_wf d ->
  match create_session (media_name m) dir (Some session) EmptyString now true (mkConn d d false) with
  | (Ok _, c) => exists d1, c = mkConn d1 d1 false /\ session_opened m session dir d d1
  | (Err _, c) => committed c = d \/ session_opened m session dir d (committed c)
  end.
Proof.
  intros Wf. assert (create_session (media_name m) dir (Some session) EmptyString now true (mkConn d d false) =
    if has_session d session then (Err SqliteIntegrityError, mkConn d d true)
    else let d1 := set_sessions d (burn_sessions d ++ [mkBurnSession session now (media_name m) "STAGED" dir]) in
      get_session session (mkConn d1 d1 false)) as ->.
  { unfold create_session, mbind, db_bind, execute, insert_session. cbn -[get_session has_session].
    by destruct (has_session d session). }
  destruct (has_session d session) eqn:Eh; [by left|]. cbv zeta.
  set (d1 := set_sessions _ _).
  assert (session_opened m session dir d d1) as Ho.
  { unfold session_opened. split; [|split; [|by exists now]].
    - eapply (wf_insert_session _ Wf session (media_name m) dir now tt). unfold insert_session. by rewrite Eh.
    - intros (b & -> & Hb)%list_elem_of_fmap. unfold has_session in Eh.
      pose proof (proj1 (exists_row_false _ _) Eh b Hb) as Hx. by apply sql_eq_false in Hx. }
  unfold get_session, mbind, db_bind, query. destruct (fetchone _); cbn; [by exists d1|by right].
Qed.

(** How [stage] ends, for the plans of the catalog it started from. *)
Inductive stage_outcome (m : MediaType) (plans : list VolumePlan) (d : Catalog) :
    res StageResult -> BurnState W -> Prop :=
  | Refused e s : committed (conn s) = d -> stage_outcome m plans d (Err e) s
  | OnlySession e s session dir : session_opened m session dir d (committed (conn s)) -> stage_outcome m plans d (Err e) s
  | Stopped e s session dir d1 d2 l1 pl l2 : session_opened m session dir d d1 -> plans = l1 ++ pl :: l2 ->
      plans_staged m session dir l1 d1 d2 -> plan_stopped cfg m session dir pl d2 e s ->
      stage_outcome m plans d (Err e) s
  | NoManifest e s session dir d1 : session_opened m session dir d d1 ->
      plans_staged m session dir plans d1 (committed (conn s)) -> stage_outcome m plans d (Err e) s
  | Staged r s d1 d2 : session_opened m (sr_session_id r) (sr_staging_dir r) d d1 ->
      plans_staged m (sr_session_id r) (sr_staging_dir r) plans d1 d2 -> conn s = mkConn d2 d2 false ->
      stage_outcome m plans d (Ok r) s.

Lemma open_session_spec m d : catalog_wf d ->
  spec (on (fun c _ => c = mkConn d d false)) (open_session cfg m : eff (BurnState W) (string * string))
    (fun ids => on (fun c _ => exists d1, c = mkConn d1 d1 false /\ session_opened m ids.1 ids.2 d d1))
    (fun _ => on (fun c _ => committed c = d \/ exists session dir, session_opened m session dir d (committed c))).
Proof.
  intros Wf. unfold open_session. apply quiet_bind_spec; [auto with quiet|intros e s Hs; left; unfold on in Hs; by rewrite Hs|].
  intros session. cbv zeta. set (dir := slash _ _). eapply spec_bind.
  { eapply (spec_timed_inspect _ _ (fun _ c _ => exists d1, c = mkConn d1 d1 false /\ session_opened m session dir d d1)).
    intros now c rs ->. pose proof (create_session_cases m session dir now d Wf) as Hc.
    destruct (create_session _ _ _ _ _ _ _) as [[b|e] c]; [done|]. destruct Hc; [by left|right; by eauto]. }
  intros ?. apply quiet_bind_spec; [auto with quiet| |].
  { intros e s (d1 & Hc & Ho). right. exists session, dir. unfold on in *. by rewrite Hc. }
  intros ?. by apply spec_ret.
Qed.

Lemma stage_chain media loc repos hashes dry (s : BurnState W) d :
  let m := default (default_media_type cfg) media in
  catalog_wf d -> conn s = mkConn d d false ->
  (forall plans, stage_plan m (metadata_reserve_bytes cfg) loc repos hashes d = Some (Ok plans) ->
     Forall (fun pl => NoDup (pack_id <$> pl.1)) plans) ->
  let '(r, s') := stage cfg media loc repos hashes dry s in
  match plan_result (stage_plan m (metadata_reserve_bytes cfg) loc repos hashes d) with
  | Err e => r = Err e /\ conn s' = conn s
  | Ok plans =>
      if dry : bool then r = Ok (mkStageResult "dry-run" m "/dev/null" [] []) /\ conn s' = conn s
      else stage_outcome m plans d r s'
  end.
Proof.
  intros m Wf Hc Hnd. unfold stage. fold m.
  rewrite (eff_bind_Ok _ _ s d s).
  2: { unfold catalog, query. rewrite Hc. cbn. f_equal. rewrite <- Hc. by destruct s. }
  destruct (plan_result _) as [plans|e] eqn:Ep.
  2: { by rewrite (eff_bind_Err _ _ s e s). }
  rewrite (eff_bind_Ok _ _ s plans s) by done.
  assert (Forall (fun pl => NoDup (pack_id <$> pl.1)) plans) as Hplans.
  { apply Hnd. unfold plan_result in Ep. destruct (stage_plan _ _ _ _ _ _); cbn in Ep; by simplify_eq. }
  destruct dry; [done|].
  assert (spec (on (fun c _ => c = mkConn d d false))
    (_ ← _format_preflight cfg (plan_repos plans);
     _ ← check_disk_space cfg m plans;
     ids ← open_session cfg m;
     existing_labels ← catalog (query volume_labels);
     let seq := next_seq_num existing_labels (label_prefix cfg) in
     ms ← stage_volumes cfg m ids.1 ids.2 seq 0 (len plans) plans;
     _ ← outside (write_session_manifest (slash ids.2 "session.json") ms);
     mret (mkStageResult ids.1 m ids.2 ms (omap m_iso_path ms)) : eff (BurnState W) StageResult)
    (fun r => stage_outcome m plans d (Ok r))
    (fun e => stage_outcome m plans d (Err e))) as Hspec.
  2: { specialize (Hspec s Hc). revert Hspec.
    match goal with |- (let (_, _) := ?t in _) -> _ => destruct t as [[r|e] s'] end; exact id. }
  apply quiet_bind_spec; [auto with quiet|intros e x Hx; apply Refused; unfold on in Hx |- *; by rewrite Hx|]. intros ?.
  apply quiet_bind_spec; [auto with quiet|intros e x Hx; apply Refused; unfold on in Hx |- *; by rewrite Hx|]. intros ?.
  eapply spec_bind.
  { eapply spec_conseq; [apply (open_session_spec m d Wf)|done|intros ? ? Hx; exact Hx|].
    intros e x [Hx|(session & dir & Ho)]; [by apply Refused|by eapply OnlySession]. }
  intros [session dir]. apply spec_exists_on. intros d1. apply spec_pure_on. cbn [fst snd]. intros Ho.
  apply quiet_bind_spec; [auto with quiet| |].
  { intros e x Hx. eapply OnlySession. unfold on in Hx. rewrite Hx. exact Ho. }
  intros labels. cbv zeta. eapply spec_bind.
  { eapply spec_conseq; [apply (stage_volumes_spec cfg m session dir _ _ plans 0 d1); [apply Ho|done]|done|intros ? ? Hx; exact Hx|].
    intros e x (l1 & pl & l2 & d2 & E & Hl & Hs). by eapply Stopped. }
  intros ms. apply spec_exists_on. intros d2. apply spec_pure_on. intros Hl.
  apply quiet_bind_spec; [auto with quiet| |].
  { intros e x Hx. unfold on in *. eapply NoManifest; [exact Ho|]. by rewrite Hx. }
  intros ?. apply spec_ret. intros x Hx. by apply (Staged _ _ _ (mkStageResult _ _ _ _ _) x d1 d2).
Qed.
End staging.
