(* ===== verification/StageSafe.v ===== *)
(** * Staging: what is safe, and what a burn makes of it

    Over the outcomes of StageProps: staging changes nothing that was in the catalog and
    archives nothing; and once every disc of a staged session has passed its check, every
    pack that was staged is archived. *)

From S2P Require Import Prelude PyString PyText Json Effects Sqlite Catalog VolumeEvents Queries Volumes Labels Packs Locations BinPack BinPlan Escrow BurnFrame Burn BurnProps BurnSafe StageFrame Stage StageProps.
Open Scope string_scope.
Open Scope list_scope.
Open Scope Z_scope.

(** ** What the staged volumes are *)

Definition old_tables (d : Catalog) :=
  (packs d, repositories d, snapshots d, locations d, volume_copies d, key_escrow d).
(** The volume [v] of the catalog holds the planned packs, in the session. *)
Record holds_plan (m : MediaType) (session : string) (d : Catalog) (pl : VolumePlan) (v : Volume) : Prop := {
  hp_status : status v = "STAGING";
  hp_bytes : used_bytes v = pl.2;
  hp_media : media_type v = media_name m;
  hp_links : forall p, mkVolumePack (volume_id v) p ∈ volume_packs d <-> p ∈ pack_id <$> pl.1;
  hp_row : exists sv, sv ∈ get_session_volumes session d /\ sv_volume_id sv = volume_id v;
}.
(** [d'] is [d] with one volume more for each plan. *)
Record extends (m : MediaType) (session : string) (plans : list VolumePlan) (d d' : Catalog) : Prop := {
  ex_wf : catalog_wf d';
  ex_old : old_tables d' = old_tables d;
  ex_volumes : exists vs, volumes d' = volumes d ++ vs /\ Forall2 (holds_plan m session d') plans vs;
  ex_links : exists l, volume_packs d' = volume_packs d ++ l;
  ex_events : exists l, volume_events d' = volume_events d ++ l;
  ex_unarchived : forall p, unarchived d' p = unarchived d p;
}.

Lemma on_volume_new v links rows d d' i q : catalog_wf d -> new_volume v links rows d d' -> q v = false ->
  on_volume d' i q = on_volume d i q.
Proof.
  intros Wf [_ Hf Hv Hl _ _ _] Hq. unfold on_volume.
  assert (forall x, x ∈ volume_packs d' -> sql_eq (vp_pack_id x) i &&
    exists_row (fun y => sql_eq (volume_id y) (vp_volume_id x) && q y) (volumes d') = true ->
    x ∈ volume_packs d /\ exists_row (fun y => sql_eq (volume_id y) (vp_volume_id x) && q y) (volumes d) = true) as Hback.
  { intros x Hx [_ He]%andb_true_iff. apply exists_row_true in He as (y & Hy & [Hyi Hqy]%andb_true_iff).
    apply sql_eq_elim in Hyi. rewrite Hv in Hy. apply elem_of_app in Hy as [Hy| ->%list_elem_of_singleton]; [|congruence].
    split.
    - rewrite Hl in Hx. apply elem_of_app in Hx as [?|(p & -> & _)%list_elem_of_fmap]; [done|].
      destruct Hf. cbn in Hyi. rewrite <- Hyi. by apply list_elem_of_fmap_2.
    - apply exists_row_true. exists y. split; [done|]. by rewrite Hqy, (proj2 (sql_eq_true _ _) Hyi). }
  apply eq_true_iff_eq. rewrite !exists_row_true. split.
  - intros (x & Hx & Hp). destruct (Hback x Hx Hp) as [Hin He]. exists x. split; [done|].
    apply andb_true_iff in Hp as [-> _]. exact He.
  - intros (x & Hx & [Hi He]%andb_true_iff). exists x. split; [rewrite Hl; apply elem_of_app; by left|].
    rewrite Hi. cbn. apply exists_row_true in He as (y & Hy & Hq'). apply exists_row_true. exists y.
    split; [rewrite Hv; apply elem_of_app; by left|done].
Qed.

Lemma extends_refl m session d : catalog_wf d -> extends m session [] d d.
Proof.
  intros Wf. split; try done; [exists []; rewrite app_nil_r; split; [done|constructor]|exists []; by rewrite app_nil_r..].
Qed.
(** Only the tables count. *)
Lemma extends_tables m session plans d d' d'' : extends m session plans d d' -> catalog_wf d'' ->
  tables d'' = tables d' -> extends m session plans d d''.
Proof.
  intros [_ Ho (vs & Hv & Hall) Hl He Hu] W'' Ht. unfold tables in Ht. injection Ht as Hvs Hps Hrs Hls Hss Hlo Hcs Hbs Hsv Hev Hke.
  split; [done|unfold old_tables in *; congruence| |by rewrite Hls|by rewrite Hev|].
  - exists vs. split; [congruence|]. eapply Forall2_impl; [exact Hall|]. intros pl v [? ? ? Hlk (sv & Hsv' & ?)]. split; try done.
    + intros p. by rewrite Hls.
    + exists sv. unfold get_session_volumes in *. by rewrite Hsv.
  - intros p. rewrite <- Hu. unfold unarchived, _HAS_DURABLE_LINK, on_volume. by rewrite Hls, Hvs.
Qed.

Lemma holds_plan_kept m session pl v x links rows d d' : catalog_wf d -> new_volume x links rows d d' ->
  v ∈ volumes d -> holds_plan m session d pl v -> holds_plan m session d' pl v.
Proof.
  intros Wf [_ Hf _ Hl [Hr _] _ _] Hv [? ? ? Hlk (sv & Hsv & Hid)]. split; try done.
  - intros p. rewrite Hl, elem_of_app, Hlk. split; [|by left]. intros [?|(q & [= E _] & _)%list_elem_of_fmap]; [done|].
    destruct Hf. rewrite <- E. by apply list_elem_of_fmap_2.
  - exists sv. split; [|done]. unfold get_session_volumes in *. rewrite elem_of_order_by, elem_of_where in *.
    rewrite Hr, elem_of_app. tauto.
Qed.
Lemma holds_plan_new m session dir h sz pl d d' : catalog_wf d -> plan_staged m session dir h sz pl d d' ->
  exists v, volumes d' = volumes d ++ [v] /\ holds_plan m session d' pl v.
Proof.
  intros Wf (v & (Hst & Hu & Hm & _) & [_ Hf Hv Hl [Hr _] _ _]). exists v. split; [done|]. split; try done.
  - intros p. rewrite Hl, elem_of_app. split.
    + intros [Hin|(q & [= <-] & Hq)%list_elem_of_fmap]; [|done].
      pose proof (wf_link_row _ Wf) as Hlr. rewrite Forall_forall in Hlr. by apply Hlr in Hin as [? _].
    + intros Hp. right. by apply list_elem_of_fmap_2.
  - eexists (mkSessionVolume session (volume_id v) _ _ _). split; [|done]. unfold get_session_volumes.
    rewrite elem_of_order_by, elem_of_where, Hr. split; [by apply sql_eq_true|]. apply elem_of_app. right. by left.
Qed.
Lemma extends_snoc m session dir h sz plans pl d d1 d2 : extends m session plans d d1 ->
  plan_staged m session dir h sz pl d1 d2 -> extends m session (plans ++ [pl]) d d2.
Proof.
  intros [W1 Ho (vs & Hv & Hall) (l & Hl) (ev & He) Hu] Hst.
  destruct (holds_plan_new _ _ _ _ _ _ _ _ W1 Hst) as (v & Hv2 & Hh).
  destruct Hst as (x & (Hst & _) & Hn). pose proof Hn as [W2 _ _ Hl2 _ (ev2 & He2 & _) Hx].
  split; [done| | | | |].
  - unfold old_tables in *. injection Hx as -> -> -> -> -> _ ->. done.
  - exists (vs ++ [v]). split; [by rewrite Hv2, Hv, <- app_assoc|]. apply Forall2_app; [|by constructor].
    assert (forall y, y ∈ vs -> y ∈ volumes d1) as Hin by (rewrite Hv; set_solver).
    clear -Hall Hn W1 Hin. induction Hall as [|pl0 v0 pls vs0 H0 _ IH]; [constructor|]. constructor.
    + eapply holds_plan_kept; [done|done|apply Hin; by left|done].
    + apply IH. intros y Hy. apply Hin. by right.
  - exists (l ++ (mkVolumePack (volume_id x) <$> (pack_id <$> pl.1))). by rewrite Hl2, Hl, <- app_assoc.
  - exists (ev ++ ev2). by rewrite He2, He, <- app_assoc.
  - intros p. rewrite <- Hu. unfold unarchived, _HAS_DURABLE_LINK. do 2 f_equal.
    eapply on_volume_new; [done|done|]. unfold is_durable. by rewrite Hst.
Qed.
Lemma extends_plans m session dir l1 l0 d d1 d2 : extends m session l0 d d1 ->
  plans_staged m session dir l1 d1 d2 -> extends m session (l0 ++ l1) d d2.
Proof.
  intros He Hp. revert l0 He. induction Hp as [d1|h sz pl plans d1 d2 d3 Hst _ IH]; intros l0 He.
  - by rewrite app_nil_r.
  - rewrite cons_middle, app_assoc. apply IH. by eapply extends_snoc.
Qed.
Lemma extends_opened m session dir d d1 : session_opened m session dir d d1 -> extends m session [] d d1.
Proof.
  intros (W1 & _ & now & ->). split; try done.
  - exists []. cbn. rewrite app_nil_r. split; [done|constructor].
  - exists []. by rewrite app_nil_r.
  - exists []. by rewrite app_nil_r.
Qed.

(** Whatever the outcome, the committed catalog extends the one before by the first of the
    plans, by all of them when [stage] returns. *)
Lemma outcome_extends {W} `{Machine W} `{Stager W} cfg m plans d r (s : BurnState W) :
  catalog_wf d -> stage_outcome cfg m plans d r s ->
  exists session l1 l2, plans = l1 ++ l2 /\ extends m session l1 d (committed (conn s)) /\
    (forall x, r = Ok x -> session = sr_session_id x /\ l2 = [] /\ current (conn s) = committed (conn s)).
Proof.
  intros Wf [e c' Hc|e c' session dir Ho|e c' session dir d1 d2 l1 pl l2 Ho -> Hl (W' & [Ht|[Hs _]])|e c' session dir d1 Ho Hl|x c' d1 d2 Ho Hl Hc].
  - exists EmptyString, [], plans. split_and!; [done| |done]. rewrite Hc. by apply extends_refl.
  - exists session, [], plans. split_and!; [done|by eapply extends_opened|done].
  - exists session, l1, (pl :: l2). split_and!; [done| |done]. eapply extends_tables; [|done|exact Ht].
    eapply (extends_plans _ _ _ _ []); [by eapply extends_opened|done].
  - exists session, (l1 ++ [pl]), l2. split_and!; [by rewrite <- app_assoc| |done].
    eapply extends_snoc; [|exact Hs]. eapply (extends_plans _ _ _ _ []); [by eapply extends_opened|done].
  - exists session, plans, []. split_and!; [by rewrite app_nil_r| |done].
    eapply (extends_plans _ _ _ _ []); [by eapply extends_opened|done].
  - exists (sr_session_id x), plans, []. split_and!; [by rewrite app_nil_r| |intros ? [= ->]; by rewrite Hc].
    rewrite Hc. cbn. eapply (extends_plans _ _ _ _ []); [by eapply extends_opened|done].
Qed.

(** ** After the burn *)

Section burned.
Context (loc : string) (skip : bool).

Lemma discs_all_verified session svs rs d d' : catalog_wf d -> discs loc skip session svs rs d d' ->
  NoDup (session_ids svs) -> forallb verify_passed rs = true ->
  forall sv, sv ∈ svs -> status_of d' (sv_volume_id sv) = Some "VERIFIED".
Proof.
  intros Wf Hd. induction Hd as [d|svs rs d d1 d2 x r Hd IH Hb _]; intros Hnd Hp sv Hsv; [by inv Hsv|].
  unfold session_ids in Hnd. rewrite fmap_app in Hnd. apply NoDup_app in Hnd as (Hnd & Hdis & _).
  rewrite forallb_app in Hp. apply andb_true_iff in Hp as [Hp Hr]. cbn in Hr. rewrite andb_true_r in Hr.
  pose proof (discs_progress loc skip session svs rs d d1 Wf Hd Hnd) as Hpg.
  apply elem_of_app in Hsv as [Hsv| ->%list_elem_of_singleton].
  - pose proof (burned_step loc skip x _ _ _ Hb) as [W2 Ht _ _ _].
    rewrite (touched_status_other loc (sv_volume_id x) d1 d2); [by apply IH|apply Hpg|done|done|].
    intros E. apply (Hdis (sv_volume_id sv)); [by apply list_elem_of_fmap_2|]. csimpl. rewrite E. by left.
  - destruct Hb as [_ [_ _ Hs _ _]]. rewrite Hs, Hr. unfold target. by rewrite orb_true_r.
Qed.
Lemma verdict_complete rs : forallb verify_passed rs = true -> verdict_of rs = "COMPLETE".
Proof.
  intros Hp. unfold verdict_of. assert (existsb (fun r => negb (verify_passed r)) rs = false) as ->; [|done].
  induction rs as [|r rs IH]; [done|]. cbn in *. apply andb_true_iff in Hp as [-> Hp]. by apply IH.
Qed.
Lemma verified_archives d p v : catalog_wf d -> status_of d v = Some "VERIFIED" ->
  mkVolumePack v (pack_id p) ∈ volume_packs d -> unarchived d p = false.
Proof.
  intros Wf Hs Hl. unfold unarchived. apply andb_false_iff. right. apply negb_false_iff.
  unfold _HAS_DURABLE_LINK, on_volume. apply exists_row_true. eexists. split; [exact Hl|]. cbn [vp_pack_id vp_volume_id].
  rewrite (proj2 (sql_eq_true _ _) eq_refl). cbn. apply exists_row_true. unfold status_of in Hs.
  destruct (find_volume d v) as [x|] eqn:Hx; [|done]. injection Hs as Hs.
  apply (find_volume_Some _ _ _ Wf) in Hx as [Hx <-]. exists x. split; [done|].
  rewrite (proj2 (sql_eq_true _ _) eq_refl). unfold is_durable. rewrite Hs. reflexivity.
Qed.
End burned.

(** ** Properties *)

Section properties.
Context {W : Type} `{Machine W} `{Stager W} (cfg : StageConfig).
Context (media : option MediaType) (for_location : option string) (repo_ids hashes : option (list string)).
Abbreviation m := (default (default_media_type cfg) media).
Abbreviation planned_volumes d := (stage_plan m (metadata_reserve_bytes cfg) for_location repo_ids hashes d).
(** What [stage] is asked: a catalog without negative sizes, a reserve that is not negative
    and different repositories.  The command line lets a repository be named twice
    ([lcsas stage --repo a a]), which this leaves out: its packs are then gathered twice
    (StageDemo.repeated_repository). *)
Record stageable (d : Catalog) : Prop := {
  sb_wf : catalog_wf d;
  sb_sizes : Forall (fun p => 0 <= size_bytes p) (packs d);
  sb_reserve : 0 <= metadata_reserve_bytes cfg;
  sb_repos : EmptyString ∉ default [] repo_ids /\ NoDup (default [] repo_ids);
}.

Lemma plans_sound d plans : stageable d -> planned_volumes d = Some (Ok plans) ->
  NoDup (concat plans.*1) /\ (forall p, p ∈ concat plans.*1 <-> wanted d for_location repo_ids hashes p) /\
  Forall (fun pl : VolumePlan => NoDup (pack_id <$> pl.1)) plans.
Proof.
  intros [Wf Hs Hr [Hne Hnd]] Hp.
  destruct (stage_plan_facts m (metadata_reserve_bytes cfg) for_location repo_ids hashes d Wf Hs Hr Hne Hnd)
    as (r & E & Hf). rewrite E in Hp. injection Hp as ->. destruct Hf as (Hn & Hw & _). split_and!; [done..|].
  apply Forall_forall. intros pl Hpl.
  assert (forall p, p ∈ pl.1 -> p ∈ packs d) as Hin.
  { intros p Hp. assert (p ∈ concat plans.*1) as Hc; [|by apply Hw in Hc as [? _]].
    apply list_elem_of_In, in_concat. exists pl.1. split; apply list_elem_of_In; [by apply (list_elem_of_fmap_2 fst)|done]. }
  assert (NoDup pl.1) as Hn1.
  { clear -Hn Hpl. induction plans as [|x plans IH]; [by inv Hpl|]. csimpl in Hn. apply NoDup_app in Hn as (Hx & _ & Hn).
    apply elem_of_cons in Hpl as [->|Hpl]; [done|by apply IH]. }
  pose proof (wf_pack_id _ Wf) as Hid. apply NoDup_fmap_2_strong; [|done].
  intros x y Hx Hy E2. eapply (key_unique pack_id); [exact Hid|by apply Hin..|done].
Qed.

Lemma stage_chain' dry (s : BurnState W) d : stageable d -> conn s = mkConn d d false ->
  let '(r, s') := stage cfg media for_location repo_ids hashes dry s in
  match plan_result (planned_volumes d) with
  | Err e => r = Err e /\ conn s' = conn s
  | Ok plans =>
      if dry : bool then r = Ok (mkStageResult "dry-run" m "/dev/null" [] []) /\ conn s' = conn s
      else stage_outcome cfg m plans d r s'
  end.
Proof.
  intros Hd Hc. apply stage_chain; [apply Hd|done|]. intros plans Hp. by apply plans_sound in Hp as (_ & _ & ?).
Qed.

(** C15.  Staging, whatever the file system and the image programs do, is refused before
    it writes anything; or it opens a new session and stages planned volumes one after the
    other, each in one transaction with the links to its packs and its row in the session.
    When it returns, every planned volume is staged.  When it raises, the first ones are,
    and of the volume at hand nothing is left in the catalog: neither it nor its links, rows
    or events, whatever failed in [_stage_single_volume], an interrupt included.  Only when
    [_stage_single_volume] had returned and hashing or recording the image failed after it
    does the volume stay, with a row that has no hash. *)
Theorem stage_refines dry (s : BurnState W) d : stageable d -> conn s = mkConn d d false ->
  let '(r, s') := stage cfg media for_location repo_ids hashes dry s in
  match plan_result (planned_volumes d) with
  | Err e => r = Err e /\ conn s' = conn s
  | Ok plans =>
      if dry : bool then r = Ok (mkStageResult "dry-run" m "/dev/null" [] []) /\ conn s' = conn s
      else stage_outcome cfg m plans d r s'
  end.
Proof. apply stage_chain'. Qed.

(** C16.  Staging is safe however it ends: what is committed satisfies every constraint of
    the schema; packs, repositories, discs, locations and recorded splits are as before, and
    every volume, link and event is still there; a new volume is in STAGING, belongs to the
    new session and holds the packs of one plan and no others; and no pack counts as
    archived, or stops to, because it was staged. *)
Theorem stage_safe dry (s : BurnState W) d : stageable d -> conn s = mkConn d d false ->
  let d' := committed (conn (stage cfg media for_location repo_ids hashes dry s).2) in
  catalog_wf d' /\ old_tables d' = old_tables d /\
  volumes d `prefix_of` volumes d' /\ volume_packs d `prefix_of` volume_packs d' /\
  volume_events d `prefix_of` volume_events d' /\
  (forall v, v ∈ volumes d' -> v ∈ volumes d \/ exists plans session pl,
     planned_volumes d = Some (Ok plans) /\ pl ∈ plans /\ holds_plan m session d' pl v) /\
  (forall p, unarchived d' p = unarchived d p).
Proof.
  intros Hd Hc. pose proof (stage_chain' dry s d Hd Hc) as Hs. destruct (stage _ _ _ _ _ _ s) as [r s'].
  cbv zeta. cbn [snd].
  assert (forall d', d' = d -> catalog_wf d' /\ old_tables d' = old_tables d /\
    volumes d `prefix_of` volumes d' /\ volume_packs d `prefix_of` volume_packs d' /\
    volume_events d `prefix_of` volume_events d' /\
    (forall v, v ∈ volumes d' -> v ∈ volumes d \/ exists plans session pl,
       planned_volumes d = Some (Ok plans) /\ pl ∈ plans /\ holds_plan m session d' pl v) /\
    (forall p, unarchived d' p = unarchived d p)) as Hsame.
  { intros d' ->. split_and!; [apply Hd|done..|auto|done]. }
  destruct (planned_volumes d) as [[plans|e]|] eqn:Ep; cbn [plan_result default] in Hs.
  2: { apply Hsame. destruct Hs as [_ ->]. by rewrite Hc. }
  2: { apply Hsame. destruct Hs as [_ ->]. by rewrite Hc. }
  destruct dry. { apply Hsame. destruct Hs as [_ ->]. by rewrite Hc. }
  destruct (outcome_extends cfg m plans d r s' (sb_wf _ Hd) Hs) as
    (session & l1 & l2 & -> & [Wf Ho (vs & Hv & Hall) [l Hl] [ev He] Hu] & _).
  split_and!; [done|done|by exists vs|by exists l|by exists ev| |done].
  intros v Hin. rewrite Hv in Hin. apply elem_of_app in Hin as [?|Hin]; [by left|right].
  apply list_elem_of_lookup in Hin as [i Hi].
  destruct (Forall2_lookup_r _ _ _ _ _ Hall Hi) as (pl & Hpl & Hh).
  exists (l1 ++ l2), session, pl. split_and!; [done| |done]. apply elem_of_app. left. by eapply list_elem_of_lookup_2.
Qed.

(** C17.  The purpose of it all: when [stage] has returned, and a burn of its session has
    returned with a passed check of every disc, then every pack that was to be staged is
    archived, whatever else the two did; and the session is complete. *)
Theorem stage_and_burn_archive (s : BurnState W) d r s' bcfg loc device interactive s1 rs s2 :
  stageable d -> conn s = mkConn d d false ->
  stage cfg media for_location repo_ids hashes false s = (Ok r, s') ->
  sr_session_id r <> "latest" -> conn s1 = conn s' -> receipts s1 = [] ->
  burn_session bcfg (sr_session_id r) loc device false interactive s1 = (Ok rs, s2) ->
  forallb verify_passed rs = true ->
  (forall p, wanted d for_location repo_ids hashes p -> unarchived (committed (conn s2)) p = false) /\
  (forall b, b ∈ burn_sessions (committed (conn s2)) -> session_id b = sr_session_id r -> bs_status b = "COMPLETE").
Proof.
  intros Hd Hc Hst Hlatest Hc1 Hrs Hburn Hpass.
  pose proof (stage_chain' false s d Hd Hc) as Hs. rewrite Hst in Hs.
  destruct (planned_volumes d) as [[plans|e]|] eqn:Ep; cbn [plan_result default] in Hs; [|by destruct Hs..].
  destruct (plans_sound d plans Hd Ep) as (_ & Hw & _).
  destruct (outcome_extends cfg m plans d _ _ (sb_wf _ Hd) Hs) as (session & l1 & l2 & Hl & Hext & Hok).
  destruct (Hok r eq_refl) as (-> & -> & _). rewrite app_nil_r in Hl. subst l1.
  inversion Hs as [| | | |x s0 d1 d2 Ho Hpl Hcs Hx Hs0]. subst x s0. rewrite Hcs in Hext, Hc1. cbn [committed] in Hext.
  set (session := sr_session_id r) in *. destruct Hext as [W2 _ (vs & Hv & Hall) _ _ _].
  pose proof (burn_session_chain bcfg loc false session device interactive s1 d2 W2 Hc1 Hrs) as Hb.
  rewrite Hburn in Hb. unfold resolve_session_id in Hb. rewrite (proj2 (sql_eq_false session "latest") Hlatest) in Hb.
  unfold get_session, mbind, db_bind, query in Hb. destruct (fetchone _); [|by destruct Hb].
  destruct Hb as (d3 & Hloc & d4 & Hdiscs & ->). cbn [committed].
  destruct (located_wf _ _ _ W2 Hloc) as [W3 _]. pose proof (session_volume_ids session d2 W2) as Hids.
  pose proof (discs_progress _ _ _ _ _ _ _ W3 Hdiscs Hids) as Hpg. split.
  - intros p Hp%Hw. apply list_elem_of_In, in_concat in Hp as (l & Hl%list_elem_of_In & Hp%list_elem_of_In).
    apply list_elem_of_fmap in Hl as (pl & -> & Hin). apply list_elem_of_lookup in Hin as [i Hi].
    destruct (Forall2_lookup_l _ _ _ _ _ Hall Hi) as (v & _ & [_ _ _ Hlinks (sv & Hsv & Hid)]).
    pose proof (discs_all_verified _ _ _ _ _ _ _ W3 Hdiscs Hids Hpass sv Hsv) as Hver. rewrite Hid in Hver.
    eapply (verified_archives d4 p (volume_id v)); [apply Hpg|exact Hver|].
    assert (volume_packs d4 = volume_packs d2) as ->.
    { pose proof (pg_rest _ _ _ _ _ Hpg) as Hr. injection Hr as _ _ -> _ _ _ _ _ _ _.
      by destruct Hloc as [[_ ->]|[_ [? ->]]]. }
    apply Hlinks. by apply list_elem_of_fmap_2.
  - intros y (b0 & Hb0 & ->)%elem_of_update_where Hid. rewrite (verdict_complete _ Hpass) in Hid |- *.
    destruct (sql_eq (session_id b0) session) eqn:E; [done|]. by apply sql_eq_false in E.
Qed.
End properties.
