(* ===== verification/Reclaim.v ===== *)
(** * Giving up a session

    [clean_session], [abort_session], [abort_volume] and [abort] of burn/orchestrator.py: the
    images and the staging tree of a session are removed, and with them, when that is asked
    for, the volumes no disc was made of. *)

From S2P Require Import Prelude PyString PyText Json Effects Sqlite Catalog VolumeEvents Queries Volumes Labels Packs Locations BinPack BinPlan Escrow BurnFrame Burn BurnProps StageFrame Stage StageProps StageSafe.
Open Scope string_scope.
Open Scope list_scope.
Open Scope Z_scope.

Record AbortSummary := mkAbortSummary {
  volumes_deleted : Z; packs_reclaimed : Z; bytes_reclaimed : Z; labels : list string;
}.

(** [volumes v JOIN session_volumes sv ...], the volumes of the session no disc was made of *)
Definition unburned (d : Catalog) (v : Volume) : bool :=
  sql_in (status v) ["STAGING"; "BURNING"; "BURNED"] && negb (has_copies d v).
Definition _strandable_session_volumes (session : string) (d : Catalog) : list (Z * string) :=
  let rows := v ← volumes d;
              (fun _ => v) <$> where_ (fun sv => sql_eq (sv_volume_id sv) (volume_id v) &&
                                       sql_eq (sv_session_id sv) session) (session_volumes d) in
  (fun v => (volume_id v, label v)) <$> order_by by_label (where_ (unburned d) rows).

(** [SELECT DISTINCT p.pack_id, p.size_bytes FROM packs p JOIN volume_packs vp ...] *)
Definition linked_packs (ids : list Z) (d : Catalog) : list (Z * Z) :=
  distinct (p ← packs d;
            (fun _ => (pack_id p, size_bytes p)) <$>
              where_ (fun vp => sql_eq (vp_pack_id vp) (pack_id p) && sql_in (vp_volume_id vp) ids) (volume_packs d)).
Definition _reclaim_summary (ids : list Z) (d : Catalog) : AbortSummary :=
  match ids with
  | [] => mkAbortSummary 0 0 0 []
  | _ :: _ => let ps := linked_packs ids d in mkAbortSummary (len ids) (len ps) (sumZ ps.*2) []
  end.
Definition with_labels (ls : list string) (s : AbortSummary) : AbortSummary :=
  mkAbortSummary (volumes_deleted s) (packs_reclaimed s) (bytes_reclaimed s) ls.

Section reclaim.
Context {W : Type} `{Machine W} `{Stager W}.
Abbreviation stage_m A := (eff (BurnState W) A).

(** [if path.exists(): remove(path)] *)
Definition remove_if_there (remove : string -> eff W unit) (p : string) : stage_m unit :=
  here ← outside (path_exists p);
  if here : bool then outside (remove p) else mret tt.

Definition clean_session (session_ref : string) (force : bool) : stage_m unit :=
  session ← catalog (resolve_session_id session_ref);
  session_vols ← catalog (query (get_session_volumes session));
  strandable ← catalog (query (_strandable_session_volumes session));
  _ ← (if negb (bool_decide (strandable = [])) && negb force then throw ValueError else mret tt);
  _ ← for_each (fun e => catalog (delete_volume e.1)) strandable;
  _ ← for_each (fun sv => remove_if_there unlink (iso_path sv)) session_vols;
  b ← catalog (get_session session);
  _ ← remove_if_there safe_remove_tree (staging_dir b);
  catalog (update_session_status session "CLEANED").

Definition abort_session (session_ref : string) : stage_m AbortSummary :=
  session ← catalog (resolve_session_id session_ref);
  strandable ← catalog (query (_strandable_session_volumes session));
  summary ← catalog (query (_reclaim_summary strandable.*1));
  _ ← clean_session session true;
  mret (with_labels strandable.*2 summary).

Definition abort_volume (lab : string) : stage_m AbortSummary :=
  found ← catalog (query (get_volume_by_label lab));
  match found with
  | None => throw ValueError
  | Some vol =>
      if negb (sql_in (status vol) ["STAGING"; "BURNING"]) then throw ValueError
      else
        has_copy ← catalog (query (fun d => has_copies d vol));
        if has_copy : bool then throw ValueError
        else
          summary ← catalog (query (_reclaim_summary [volume_id vol]));
          _ ← catalog (delete_volume (volume_id vol));
          mret (with_labels [lab] summary)
  end.

(** [abort] of a manifest, for the single-volume path. *)
Definition abort (mf : BurnManifest) : stage_m unit :=
  _ ← catalog (delete_volume (m_volume_id mf));
  _ ← outside (safe_remove_tree (m_staging_path mf));
  match m_iso_path mf with
  | Some iso => remove_if_there unlink iso
  | None => mret tt
  end.
End reclaim.

(** ** Lemmas *)

Lemma elem_of_strandable session d e : e ∈ _strandable_session_volumes session d <->
  exists v, e = (volume_id v, label v) /\ v ∈ volumes d /\ unburned d v = true /\
    exists sv, sv ∈ get_session_volumes session d /\ sv_volume_id sv = volume_id v.
Proof.
  unfold _strandable_session_volumes. cbv zeta. rewrite list_elem_of_fmap. apply exist_proper. intros v.
  rewrite elem_of_order_by, elem_of_where, list_elem_of_bind. unfold get_session_volumes.
  setoid_rewrite elem_of_order_by. setoid_rewrite elem_of_where. setoid_rewrite list_elem_of_fmap.
  setoid_rewrite elem_of_where. split.
  - intros (-> & Hu & x & (sv & -> & [Hi%sql_eq_elim Hs]%andb_true_iff & Hsv) & Hx).
    split_and!; [done..|]. exists sv. by split_and!.
  - intros (-> & Hv & Hu & sv & [Hs Hsv] & Hi). split_and!; [done..|]. exists v. split; [|done].
    exists sv. split_and!; [done| |done]. by rewrite Hs, (proj2 (sql_eq_true _ _) Hi).
Qed.
Lemma elem_of_linked ids d x : x ∈ linked_packs ids d <->
  exists p v, x = (pack_id p, size_bytes p) /\ p ∈ packs d /\ v ∈ ids /\ mkVolumePack v (pack_id p) ∈ volume_packs d.
Proof.
  unfold linked_packs, distinct. rewrite elem_of_remove_dups, list_elem_of_bind. split.
  - intros (p & (vp & -> & [[Hi%sql_eq_elim Hv%sql_in_true]%andb_true_iff Hvp]%elem_of_where)%list_elem_of_fmap & Hp).
    exists p, (vp_volume_id vp). split_and!; [done..|]. rewrite <- Hi. by destruct vp.
  - intros (p & v & -> & Hp & Hv & Hl). exists p. split; [|done]. apply list_elem_of_fmap.
    eexists. split; [done|]. apply elem_of_where. split; [|exact Hl]. cbn.
    by rewrite (proj2 (sql_eq_true _ _) eq_refl), (proj2 (sql_in_true _ _) Hv).
Qed.

Lemma strandable_uncopied session d i : catalog_wf d -> i ∈ (_strandable_session_volumes session d).*1 ->
  forall c, c ∈ volume_copies d -> vc_volume_id c <> i.
Proof.
  intros Wf (e & -> & (v & -> & _ & Hu & _)%elem_of_strandable)%list_elem_of_fmap c Hc E. cbn in E.
  unfold unburned in Hu. apply andb_true_iff in Hu as [_ Hu%negb_true_iff].
  unfold has_copies in Hu. pose proof (proj1 (exists_row_false _ _) Hu c Hc) as Hx. by apply sql_eq_false in Hx.
Qed.

Lemma on_volume_without ks d i q : on_volume (without_volumes ks d) i q = true <->
  exists vp v, vp ∈ volume_packs d /\ v ∈ volumes d /\ vp_pack_id vp = i /\ volume_id v = vp_volume_id vp /\
    volume_id v ∉ ks /\ q v = true.
Proof.
  unfold on_volume. rewrite exists_row_true. cbn -[keep_out]. split.
  - intros (vp & [Hk Hvp]%elem_of_keep_out & [Hi%sql_eq_elim He]%andb_true_iff).
    apply exists_row_true in He as (v & [Hkv Hv]%elem_of_keep_out & [Hid%sql_eq_elim Hq]%andb_true_iff).
    exists vp, v. by split_and!.
  - intros (vp & v & Hvp & Hv & <- & Hid & Hk & Hq). exists vp. rewrite elem_of_keep_out. split; [by rewrite <- Hid|].
    rewrite (proj2 (sql_eq_true _ _) eq_refl). cbn. apply exists_row_true. exists v. rewrite elem_of_keep_out.
    split; [done|]. by rewrite (proj2 (sql_eq_true _ _) Hid), Hq.
Qed.
Lemma unarchived_without ks d p : unarchived (without_volumes ks d) p = true <->
  is_pruned p = false /\ forall vp v, vp ∈ volume_packs d -> v ∈ volumes d -> vp_pack_id vp = pack_id p ->
    volume_id v = vp_volume_id vp -> is_durable v = true -> volume_id v ∈ ks.
Proof.
  unfold unarchived. rewrite andb_true_iff, !negb_true_iff. apply and_iff_compat_l.
  rewrite <- not_true_iff_false. unfold _HAS_DURABLE_LINK. rewrite on_volume_without. split.
  - intros Hno vp v ? ? ? ? ?. destruct (decide (volume_id v ∈ ks)); [done|]. destruct Hno. by exists vp, v.
  - intros Hall (vp & v & ? & ? & ? & ? & Hk & ?). by apply Hk, (Hall vp v).
Qed.

Lemma linked_packs_count ks d : catalog_wf d ->
  let ps := where_ (fun p => exists_row (fun vp => sql_eq (vp_pack_id vp) (pack_id p) && sql_in (vp_volume_id vp) ks) (volume_packs d)) (packs d) in
  linked_packs ks d ≡ₚ (fun p => (pack_id p, size_bytes p)) <$> ps.
Proof.
  intros Wf ps. apply NoDup_Permutation.
  - unfold linked_packs, distinct. apply NoDup_remove_dups.
  - apply (NoDup_fmap_1 fst). rewrite <- list_fmap_compose. subst ps.
    change (fst ∘ (fun p : Pack => (pack_id p, size_bytes p))) with pack_id. apply where_NoDup_key, Wf.
  - intros x. rewrite elem_of_linked, list_elem_of_fmap. subst ps. setoid_rewrite elem_of_where.
    setoid_rewrite exists_row_true. split.
    + intros (p & v & -> & Hp & Hv & Hl). exists p. split_and!; [done| |done]. eexists. split; [exact Hl|]. cbn.
      by rewrite (proj2 (sql_eq_true _ _) eq_refl), (proj2 (sql_in_true _ _) Hv).
    + intros (p & -> & (vp & Hvp & [Hi%sql_eq_elim Hv%sql_in_true]%andb_true_iff) & Hp).
      exists p, (vp_volume_id vp). split_and!; [done..|]. rewrite <- Hi. by destruct vp.
Qed.

(** ** What cleaning leaves *)

Section clean.
Context {W : Type} `{Machine W} `{Stager W}.

Lemma quiet_remove (f : string -> eff W unit) p : quiet (remove_if_there f p).
Proof. unfold remove_if_there. quiet. Qed.

Lemma delete_all_spec (l : list (Z * string)) d E :
  spec (on (fun c _ => c = mkConn d d false)) (for_each (fun e => catalog (delete_volume e.1)) l : eff (BurnState W) unit)
    (fun _ => on (fun c _ => c = mkConn (without_volumes l.*1 d) (without_volumes l.*1 d) false)) E.
Proof.
  revert d. induction l as [|e l IH]; intros d; cbn [for_each].
  { apply spec_ret. intros s Hs. csimpl. by rewrite without_no_volumes. }
  eapply (spec_bind _ _ _ (fun _ => on (fun c _ => c = mkConn (without_volumes [e.1] d) (without_volumes [e.1] d) false))).
  { apply spec_catalog. intros c rs ->. rewrite delete_volume_run. by eexists _, _. }
  intros ?. eapply spec_conseq; [apply IH|done| |done]. intros ? s Hs. csimpl. unfold on in *.
  rewrite Hs, without_volumes_twice. done.
Qed.

Lemma clean_session_run session_ref force (s : BurnState W) d : conn s = mkConn d d false ->
  let '(r, s') := clean_session session_ref force s in
  match resolve_session_id session_ref (mkConn d d false) with
  | (Err e, _) => r = Err e /\ s' = s
  | (Ok session, _) =>
      let lost := _strandable_session_volumes session d in
      if negb (bool_decide (lost = [])) && negb force then r = Err ValueError /\ s' = s
      else
        let d1 := without_volumes lost.*1 d in
        match r with
        | Ok _ => conn s' = mkConn (marked session "CLEANED" d1) (marked session "CLEANED" d1) false
        | Err _ => conn s' = mkConn d1 d1 false
        end
  end.
Proof.
  intros Hc. unfold clean_session.
  assert (forall A (m : dbc A), readonly m -> catalog m s = ((m (mkConn d d false)).1, s)) as Hread.
  { intros A m Hm. specialize (Hm (mkConn d d false)). unfold catalog. rewrite Hc.
    destruct (m _) as [r c]. cbn in *. subst c. f_equal. rewrite <- Hc. by destruct s. }
  assert (readonly (resolve_session_id session_ref)) as Hres by (intros c; apply resolve_same).
  pose proof (Hread _ _ Hres) as Er. pose proof (Hres (mkConn d d false)) as Hsame.
  destruct (resolve_session_id session_ref (mkConn d d false)) as [[session|e] c]; cbn in Er, Hsame; subst c.
  2: { by rewrite (eff_bind_Err _ _ _ _ _ Er). }
  rewrite (eff_bind_Ok _ _ _ _ _ Er).
  rewrite (eff_bind_Ok _ _ s (get_session_volumes session d) s) by (by rewrite Hread).
  rewrite (eff_bind_Ok _ _ s (_strandable_session_volumes session d) s) by (by rewrite Hread).
  cbv zeta. set (lost := _strandable_session_volumes session d).
  destruct (negb (bool_decide (lost = [])) && negb force).
  { by rewrite (eff_bind_Err _ _ s ValueError s). }
  rewrite (eff_bind_Ok _ _ s tt s) by done. set (d1 := without_volumes lost.*1 d).
  match goal with |- let '(_, _) := ?m s in _ =>
    assert (spec (on (fun c _ => c = mkConn d d false)) m
      (fun _ => on (fun c _ => c = mkConn (marked session "CLEANED" d1) (marked session "CLEANED" d1) false))
      (fun _ => on (fun c _ => c = mkConn d1 d1 false))) as Hspec end.
  2: { specialize (Hspec s Hc). revert Hspec.
    match goal with |- (let (_, _) := ?t in _) -> _ => destruct t as [[[]|e] s'] end; exact id. }
  eapply spec_bind; [apply delete_all_spec|]. intros ?.
  apply quiet_bind_spec; [apply quiet_for_each; intros; apply quiet_remove|done|]. intros ?.
  apply quiet_bind_spec; [|done|].
  { apply quiet_catalog. intros c. unfold get_session, mbind, db_bind, query. by destruct (fetchone _). }
  intros b. apply quiet_bind_spec; [apply quiet_remove|done|]. intros ?.
  eapply spec_safe. apply (spec_catalog _ _ (fun _ c _ => c = mkConn (marked session "CLEANED" d1) (marked session "CLEANED" d1) false)).
  intros c rs ->. eexists _, _. split; [by apply update_session_run, sql_in_true|done].
Qed.
End clean.

(** ** What staging added is what an abort removes *)

Lemma tables_without ks d d' : tables d' = tables d -> tables (without_volumes ks d') = tables (without_volumes ks d).
Proof.
  intros Ht. unfold tables in *. cbn -[keep_out]. injection Ht as -> -> -> -> -> -> -> -> -> -> ->. done.
Qed.
Lemma staged_taken_back m session dir plans d d' : catalog_wf d -> plans_staged m session dir plans d d' ->
  exists vs, volumes d' = volumes d ++ vs /\ Forall (fun v => status v = "STAGING") vs /\
    tables (without_volumes (volume_id <$> vs) d') = tables d /\
    (forall x, x ∈ session_volumes d' <-> x ∈ session_volumes d \/
       (sv_session_id x = session /\ sv_volume_id x ∈ volume_id <$> vs /\ x ∈ session_volumes d')) /\
    (forall i, i ∈ volume_id <$> vs -> i ∉ volume_ids d /\ exists x, x ∈ session_volumes d' /\
       sv_session_id x = session /\ sv_volume_id x = i).
Proof.
  intros Wf Hp. induction Hp as [d|h sz pl plans d d1 d2 Hst Hp IH].
  { exists []. rewrite app_nil_r, without_no_volumes. split_and!; [done|constructor|done| |].
    - intros x. csimpl. split; [by left|intros [?|(_ & Hx & _)]; [done|by inv Hx]].
    - intros i Hi. by inv Hi. }
  pose proof (plan_staged_wf _ _ _ _ _ _ _ _ Hst) as W1.
  destruct (IH W1) as (vs & Hv & Hall & Ht & Hrows & Hrow).
  destruct Hst as (v & (Hs & _) & Hn). pose proof Hn as [_ Hf Hv1 _ [Hr1 _] _ _].
  exists (v :: vs). split_and!.
  - by rewrite Hv, Hv1, <- app_assoc.
  - by constructor.
  - csimpl. change (volume_id v :: ?l) with ([volume_id v] ++ l).
    assert (without_volumes ([volume_id v] ++ (volume_id <$> vs)) d2 =
            without_volumes ((volume_id <$> vs) ++ [volume_id v]) d2) as ->.
    { unfold without_volumes. f_equal; unfold keep_out, delete_where, where_; apply List.filter_ext;
        intros x; f_equal; apply bool_decide_ext; set_solver. }
    rewrite <- without_volumes_twice, (tables_without _ d1) by done. by eapply taken_back.
  - intros x. pose proof (Hrows x) as Hx. rewrite Hr1, elem_of_app, list_elem_of_singleton in Hx. csimpl. split.
    + intros Hin. destruct (proj1 Hx Hin) as [[?|E]|(? & ? & _)]; [by left|right|right; split_and!; [done|by right|done]].
      split_and!; [by rewrite E|rewrite E; by left|done].
    + intros [?|(_ & _ & ?)]; [apply Hx; by left; left|done].
  - intros i [->|Hi]%elem_of_cons.
    + split; [done|]. eexists (mkSessionVolume session (volume_id v) _ _ _). split; [|done].
      apply Hrows. left. rewrite Hr1. apply elem_of_app. right. by left.
    + destruct (Hrow i Hi) as [Hi1 Hx]. split; [|done]. rewrite Hv1, fmap_app in Hi1. set_solver.
Qed.

(** Every strandable volume is listed once. *)
Lemma strandable_NoDup session d : catalog_wf d -> NoDup (_strandable_session_volumes session d).*1.
Proof.
  intros Wf. unfold _strandable_session_volumes. cbv zeta. rewrite <- list_fmap_compose.
  change (fst ∘ (fun v : Volume => (volume_id v, label v))) with volume_id. rewrite order_by_perm.
  apply where_NoDup_key. apply NoDup_fmap_2_strong.
  - intros x y Hx Hy E. apply list_elem_of_bind in Hx as (v & (? & -> & _)%list_elem_of_fmap & Hx).
    apply list_elem_of_bind in Hy as (v' & (? & -> & _)%list_elem_of_fmap & Hy).
    by eapply (key_unique volume_id); [apply Wf|..].
  - apply NoDup_bind; [| |by eapply NoDup_fmap_1, Wf].
    + intros x y v _ _ (? & -> & _)%list_elem_of_fmap (? & -> & _)%list_elem_of_fmap. done.
    + intros v _. set (l := where_ _ _).
      assert (NoDup ((fun x => (sv_session_id x, sv_volume_id x)) <$> l)) as Hl by apply where_NoDup_key, Wf.
      assert (forall x, x ∈ l -> (sv_session_id x, sv_volume_id x) = (session, volume_id v)) as Hk.
      { intros x [[Hi%sql_eq_elim Hs%sql_eq_elim]%andb_true_iff _]%elem_of_where. by rewrite Hi, Hs. }
      destruct l as [|x [|y l]]; [constructor|apply NoDup_singleton|exfalso]. csimpl in Hl.
      apply NoDup_cons in Hl as [Hno _]. apply Hno. rewrite (Hk x), (Hk y) by set_solver. by left.
Qed.

(** Exactly the staged volumes are strandable. *)
Lemma staged_strandable m session dir plans d d1 d2 vs : catalog_wf d -> session_opened m session dir d d1 ->
  plans_staged m session dir plans d1 d2 -> extends m session plans d d2 ->
  volumes d2 = volumes d1 ++ vs -> Forall (fun v => status v = "STAGING") vs ->
  (forall x, x ∈ session_volumes d2 <-> x ∈ session_volumes d1 \/
     (sv_session_id x = session /\ sv_volume_id x ∈ volume_id <$> vs /\ x ∈ session_volumes d2)) ->
  (forall i, i ∈ volume_id <$> vs -> i ∉ volume_ids d1 /\ exists x, x ∈ session_volumes d2 /\
     sv_session_id x = session /\ sv_volume_id x = i) ->
  forall i, i ∈ (_strandable_session_volumes session d2).*1 <-> i ∈ volume_id <$> vs.
Proof.
  intros Wf (W1 & Hnew & now & Hd1) Hp [_ Hold _ _ _ _] Hv Hall Hrows Hrow i.
  assert (session_volumes d1 = session_volumes d /\ volumes d1 = volumes d) as [Hsv Hvs] by by rewrite Hd1.
  rewrite list_elem_of_fmap. setoid_rewrite elem_of_strandable. unfold get_session_volumes.
  setoid_rewrite elem_of_order_by. setoid_rewrite elem_of_where. split.
  - intros (e & -> & v & -> & Hin & _ & sv & [Hs%sql_eq_elim Hsvin] & Hi). cbn.
    apply Hrows in Hsvin as [Hsvin|(_ & ? & _)]; [|by rewrite <- Hi].
    destruct Hnew. rewrite Hsv in Hsvin. pose proof (wf_session_volume_row _ Wf) as Hr. rewrite Forall_forall in Hr.
    apply Hr in Hsvin as [? _]. by rewrite <- Hs.
  - intros Hi. destruct (Hrow i Hi) as [Hfresh (sv & Hsvin & Hs & Hid)].
    apply list_elem_of_fmap in Hi as (v & -> & Hin). exists (volume_id v, label v). split; [done|]. exists v.
    split_and!; [done|rewrite Hv; set_solver| |exists sv; split_and!; [by apply sql_eq_true|done..]].
    unfold unburned. rewrite Forall_forall in Hall. rewrite (Hall v Hin). apply andb_true_iff. split; [done|].
    apply negb_true_iff, exists_row_false. intros c Hc. apply sql_eq_false. intros E.
    injection Hold as _ _ _ _ Hcs _. rewrite Hcs in Hc. pose proof (wf_copy_row _ Wf) as Hr. rewrite Forall_forall in Hr.
    apply Hr in Hc as (_ & Hc & _). rewrite Hvs, <- E in Hfresh. done.
Qed.

Lemma without_ext ks js d : (forall i, i ∈ ks <-> i ∈ js) -> without_volumes ks d = without_volumes js d.
Proof.
  intros Hk. unfold without_volumes. f_equal; unfold keep_out, delete_where, where_; apply List.filter_ext;
    intros x; f_equal; by apply bool_decide_ext.
Qed.
(** The packs on the staged volumes are those of the plans. *)
Lemma linked_planned m session plans d d2 ks : catalog_wf d2 -> packs d2 = packs d ->
  (exists vs, Forall2 (holds_plan m session d2) plans vs /\ forall i, i ∈ ks <-> i ∈ volume_id <$> vs) ->
  NoDup (concat plans.*1) -> (forall p, p ∈ concat plans.*1 -> p ∈ packs d) ->
  linked_packs ks d2 ≡ₚ (fun p => (pack_id p, size_bytes p)) <$> concat plans.*1.
Proof.
  intros Wf Hps (vs & Hall & Hks) Hnd Hin. rewrite linked_packs_count by done. cbv zeta. apply fmap_Permutation.
  apply NoDup_Permutation; [eapply NoDup_fmap_1, where_NoDup_key; apply Wf|done|].
  intros p. rewrite elem_of_where, exists_row_true, Hps. split.
  - intros [(vp & Hvp & [Hi%sql_eq_elim Hv%sql_in_true]%andb_true_iff) Hp].
    apply Hks, list_elem_of_fmap in Hv as (v & Hid & Hv). apply list_elem_of_lookup in Hv as [i Hv].
    destruct (Forall2_lookup_r _ _ _ _ _ Hall Hv) as (pl & Hpl & Hh).
    assert (pack_id p ∈ pack_id <$> pl.1) as (q & Hq & Hqin)%list_elem_of_fmap.
    { apply (hp_links _ _ _ _ _ Hh). rewrite <- Hi, <- Hid. by destruct vp. }
    assert (q ∈ concat plans.*1) as Hqc.
    { apply list_elem_of_In, in_concat. exists pl.1. split; apply list_elem_of_In; [|done].
      apply list_elem_of_lookup_2 in Hpl. by apply (list_elem_of_fmap_2 fst). }
    pose proof (wf_pack_id _ Wf) as Hid'. rewrite Hps in Hid'.
    by rewrite (key_unique pack_id (packs d) p q Hid' Hp (Hin q Hqc) Hq).
  - intros Hp. split; [|by apply Hin]. apply list_elem_of_In, in_concat in Hp as (l & Hl%list_elem_of_In & Hp%list_elem_of_In).
    apply list_elem_of_fmap in Hl as (pl & -> & Hpl). apply list_elem_of_lookup in Hpl as [i Hpl].
    destruct (Forall2_lookup_l _ _ _ _ _ Hall Hpl) as (v & Hv & Hh).
    exists (mkVolumePack (volume_id v) (pack_id p)). split; [apply (hp_links _ _ _ _ _ Hh); by apply list_elem_of_fmap_2|].
    cbn. rewrite (proj2 (sql_eq_true _ _) eq_refl). apply sql_in_true, Hks, list_elem_of_fmap_2.
    by eapply list_elem_of_lookup_2.
Qed.

Lemma reclaim_counts ks d ps : linked_packs ks d ≡ₚ (fun p => (pack_id p, size_bytes p)) <$> ps ->
  volumes_deleted (_reclaim_summary ks d) = len ks /\ packs_reclaimed (_reclaim_summary ks d) = len ps /\
  bytes_reclaimed (_reclaim_summary ks d) = sumZ (size_bytes <$> ps).
Proof.
  intros Hp. destruct ks as [|k ks].
  - assert (linked_packs [] d = []) as E.
    { destruct (linked_packs [] d) as [|x l] eqn:E; [done|exfalso].
      assert (x ∈ linked_packs [] d) as (p & v & _ & _ & Hv & _)%elem_of_linked by (rewrite E; by left). by inv Hv. }
    rewrite E in Hp. apply Permutation_nil_l in Hp. by destruct ps.
  - cbn [_reclaim_summary volumes_deleted packs_reclaimed bytes_reclaimed]. rewrite Hp, length_fmap.
    split_and!; [done..|]. by rewrite <- list_fmap_compose.
Qed.
Lemma marked_tables session st d d' : tables d' = tables d -> tables (marked session st d') = tables (marked session st d).
Proof. intros Ht. unfold tables in *. cbn. injection Ht as -> -> -> -> -> -> -> -> -> -> ->. done. Qed.
Lemma marked_opened session st st0 created media dir d : session ∉ session_id <$> burn_sessions d ->
  tables (marked session st (set_sessions d (burn_sessions d ++ [mkBurnSession session created media st0 dir]))) =
  tables (set_sessions d (burn_sessions d ++ [mkBurnSession session created media st dir])).
Proof.
  intros Hnew. unfold tables, marked. cbn [volumes packs repositories volume_packs snapshots locations volume_copies
    burn_sessions session_volumes volume_events key_escrow set_sessions].
  assert (update_where (fun b => sql_eq (session_id b) session)
    (fun b => mkBurnSession (session_id b) (bs_created_at b) (bs_media_type b) st (staging_dir b))
    (burn_sessions d ++ [mkBurnSession session created media st0 dir]) =
    burn_sessions d ++ [mkBurnSession session created media st dir]) as ->; [|done].
  unfold update_where. rewrite fmap_app. f_equal.
  - rewrite <- (list_fmap_id (burn_sessions d)) at 2. apply list_fmap_ext. intros i x Hin%list_elem_of_lookup_2.
    destruct (sql_eq (session_id x) session) eqn:E; [|done]. apply sql_eq_elim in E. destruct Hnew.
    rewrite <- E. by apply list_elem_of_fmap_2.
  - cbn -[sql_eq]. by rewrite (proj2 (sql_eq_true _ _) eq_refl).
Qed.

(** What a cleaning may take away. *)
Record cleaned (force : bool) (session : string) (d d' : Catalog) : Prop := {
  cl_wf : catalog_wf d';
  cl_packs : packs d' = packs d;
  cl_copies : volume_copies d' = volume_copies d;
  cl_volumes : volumes d' ⊆ volumes d;
  cl_deleted : forall v, v ∈ volumes d -> v ∉ volumes d' -> force = true /\ unburned d v = true /\
    exists sv, sv ∈ get_session_volumes session d /\ sv_volume_id sv = volume_id v;
  cl_archived : forall p vp v, vp ∈ volume_packs d -> v ∈ volumes d -> vp_pack_id vp = pack_id p ->
    vp_volume_id vp = volume_id v -> is_durable v = true -> has_copies d v = true -> unarchived d' p = false;
}.
Lemma without_cleaned force session d ks : catalog_wf d ->
  (forall i, i ∈ ks -> force = true /\ i ∈ (_strandable_session_volumes session d).*1) ->
  cleaned force session d (without_volumes ks d).
Proof.
  intros Wf Hks. split.
  - by apply without_volumes_wf.
  - done.
  - cbn -[keep_out]. apply keep_out_all. intros c Hc Hin. apply Hks in Hin as [_ Hin].
    by eapply strandable_uncopied in Hin.
  - cbn -[keep_out]. intros v [_ ?]%elem_of_keep_out. done.
  - intros v Hv Hno. assert (volume_id v ∈ ks) as Hin.
    { destruct (decide (volume_id v ∈ ks)); [done|]. destruct Hno. cbn -[keep_out]. by apply elem_of_keep_out. }
    apply Hks in Hin as [-> (e & E & (v' & -> & Hv' & Hu & Hsv)%elem_of_strandable)%list_elem_of_fmap]. cbn in E.
    by rewrite (key_unique volume_id (volumes d) v v' (wf_volume_id _ Wf) Hv Hv' E).
  - intros p vp v Hvp Hv Hi Hid Hd Hcopies. apply not_true_iff_false. intros Hu.
    apply unarchived_without in Hu as [_ Hall]. specialize (Hall vp v Hvp Hv Hi (eq_sym Hid) Hd).
    apply Hks in Hall as [_ Hin]. unfold has_copies in Hcopies. apply exists_row_true in Hcopies as (c & Hc & E%sql_eq_elim).
    by eapply strandable_uncopied in Hin.
Qed.
Lemma marked_cleaned force session st d d' : st ∈ SESSION_STATUSES -> cleaned force session d d' ->
  cleaned force session d (marked session st d').
Proof.
  intros Hst [Wf ? ? ? ? ?]. split; try done.
  pose proof (keeps_update_session_status session st (mkConn d' d' false) Wf Wf) as [W' _].
  by rewrite update_session_run in W'.
Qed.

Section properties.
Context {W : Type} `{Machine W} `{Stager W}.

Lemma abort_session_run session (s : BurnState W) d b : conn s = mkConn d d false -> session <> "latest" ->
  b ∈ burn_sessions d -> session_id b = session ->
  let '(r, s') := abort_session session s in
  let lost := _strandable_session_volumes session d in
  let d1 := without_volumes lost.*1 d in
  match r with
  | Ok summary => summary = with_labels lost.*2 (_reclaim_summary lost.*1 d) /\
      conn s' = mkConn (marked session "CLEANED" d1) (marked session "CLEANED" d1) false
  | Err _ => conn s' = mkConn d1 d1 false
  end.
Proof.
  intros Hc Hlatest Hb Hid.
  assert (resolve_session_id session (mkConn d d false) = (Ok session, mkConn d d false)) as Hres.
  { unfold resolve_session_id, get_session, mbind, db_bind, query. rewrite (proj2 (sql_eq_false _ _) Hlatest). cbn [current].
    destruct (fetchone _) eqn:E; [done|exfalso]. unfold fetchone in E. destruct (where_ _ _) eqn:Ew; [|done].
    assert (b ∈ where_ (fun b => sql_eq (session_id b) session) (burn_sessions d)) as Hin.
    { apply elem_of_where. split; [by apply sql_eq_true|done]. }
    rewrite Ew in Hin. by inv Hin. }
  pose proof (clean_session_run session true s d Hc) as Hclean. rewrite Hres in Hclean. cbv zeta in Hclean. cbn [negb] in Hclean. rewrite andb_false_r in Hclean.
  unfold abort_session.
  rewrite (eff_bind_Ok _ _ s session s).
  2: { unfold catalog. rewrite Hc, Hres. f_equal. rewrite <- Hc. by destruct s. }
  assert (forall A (f : Catalog -> A), catalog (query f) s = (Ok (f d), s)) as Hq.
  { intros A f. unfold catalog, query. rewrite Hc. cbn. f_equal. rewrite <- Hc. by destruct s. }
  rewrite (eff_bind_Ok _ _ s _ s) by apply Hq. rewrite (eff_bind_Ok _ _ s _ s) by apply Hq. cbv zeta.
  destruct (clean_session session true s) as [[[]|e] s'] eqn:E.
  - by rewrite (eff_bind_Ok _ _ _ _ _ E).
  - by rewrite (eff_bind_Err _ _ _ _ _ E).
Qed.

(** C19.  Cleaning a session never loses a disc.  However it ends, packs and discs are as
    before; a volume that is deleted belongs to the session, has the status STAGING, BURNING
    or BURNED and no recorded disc, and it is deleted only with [force]; and a pack that was
    archived by a volume with a disc still is.  Without [force] a session with such a volume
    is refused before anything is removed. *)
Theorem clean_session_safe session_ref force (s : BurnState W) d : catalog_wf d -> conn s = mkConn d d false ->
  let '(r, s') := clean_session session_ref force s in
  match resolve_session_id session_ref (mkConn d d false) with
  | (Err e, _) => r = Err e /\ s' = s
  | (Ok session, _) =>
      cleaned force session d (committed (conn s')) /\
      (force = false -> forall v sv, v ∈ volumes d -> unburned d v = true -> sv ∈ get_session_volumes session d ->
         sv_volume_id sv = volume_id v -> r = Err ValueError /\ s' = s)
  end.
Proof.
  intros Wf Hc. pose proof (clean_session_run session_ref force s d Hc) as Hrun.
  destruct (clean_session session_ref force s) as [r s'].
  destruct (resolve_session_id session_ref (mkConn d d false)) as [[session|e] c]; [|done].
  cbv zeta in Hrun. set (lost := _strandable_session_volumes session d) in *.
  assert (forall ks, (forall i, i ∈ ks -> force = true /\ i ∈ lost.*1) ->
    match r with
    | Ok _ => conn s' = mkConn (marked session "CLEANED" (without_volumes ks d)) (marked session "CLEANED" (without_volumes ks d)) false
    | Err _ => conn s' = mkConn (without_volumes ks d) (without_volumes ks d) false
    end -> cleaned force session d (committed (conn s'))) as Hcl.
  { intros ks Hks Hs. pose proof (without_cleaned force session d ks Wf Hks) as Hw.
    destruct r; rewrite Hs; [|done]. apply marked_cleaned; [by apply sql_in_true|done]. }
  destruct (bool_decide_reflect (lost = [])) as [Hl|Hl]; cbn [negb andb] in Hrun.
  - split.
    + apply (Hcl []); [intros i Hi; by inv Hi|]. by rewrite Hl in Hrun.
    + intros _ v sv Hv Hu Hsv Hid. exfalso. assert ((volume_id v, label v) ∈ lost) as Hin; [|rewrite Hl in Hin; by inv Hin].
      apply elem_of_strandable. exists v. split_and!; [done..|]. by exists sv.
  - destruct force; cbn [negb] in Hrun.
    + split; [|done]. by apply (Hcl lost.*1).
    + destruct Hrun as [-> ->]. split; [|done]. rewrite Hc. cbn [committed]. rewrite <- (without_no_volumes d) at 2.
      apply without_cleaned; [done|]. intros i Hi. by inv Hi.
Qed.

(** C20.  An abort undoes a [stage]: for a session that was staged and not burned it leaves
    every table of the catalog as it was before staging, except that the session is listed as
    CLEANED, and it reports exactly the volumes, packs and bytes that were planned. *)
Theorem abort_undoes_stage cfg media loc repos hashes (s : BurnState W) d r s' s1 summary s2 :
  let m := default (default_media_type cfg) media in
  stageable cfg repos d -> conn s = mkConn d d false ->
  stage cfg media loc repos hashes false s = (Ok r, s') ->
  sr_session_id r <> "latest" -> conn s1 = conn s' ->
  abort_session (sr_session_id r) s1 = (Ok summary, s2) ->
  (exists b, session_id b = sr_session_id r /\ bs_status b = "CLEANED" /\
     tables (committed (conn s2)) = tables (set_sessions d (burn_sessions d ++ [b]))) /\
  exists plans, stage_plan m (metadata_reserve_bytes cfg) loc repos hashes d = Some (Ok plans) /\
    volumes_deleted summary = len plans /\ packs_reclaimed summary = len (concat plans.*1) /\
    bytes_reclaimed summary = sumZ (size_bytes <$> concat plans.*1).
Proof.
  intros m Hd Hc Hst Hlatest Hc1 Hab. pose proof (sb_wf _ _ _ Hd) as Wf.
  pose proof (stage_chain' cfg media loc repos hashes false s d Hd Hc) as Hs. rewrite Hst in Hs. fold m in Hs.
  destruct (stage_plan m _ loc repos hashes d) as [[plans|e]|] eqn:Ep; cbn [plan_result default] in Hs; [|by destruct Hs..].
  destruct (plans_sound cfg media loc repos hashes d plans Hd Ep) as (Hnd & Hw & _).
  inversion Hs as [| | | |x s0 d1 d2 Ho Hpl Hcs Hx Hs0]. subst x s0. rewrite Hcs in Hc1. set (session := sr_session_id r) in *.
  pose proof (extends_plans _ _ _ plans [] _ _ _ (extends_opened _ _ _ _ _ Ho) Hpl) as Hext. cbn [app] in Hext.
  pose proof Ho as (W1 & Hnew & now & Hd1).
  destruct (staged_taken_back _ _ _ _ _ _ W1 Hpl) as (vs & Hv & Hall & Ht & Hrows & Hrow).
  pose proof (staged_strandable _ _ _ _ _ _ _ _ Wf Ho Hpl Hext Hv Hall Hrows Hrow) as Hlost.
  set (lost := _strandable_session_volumes session d2) in *.
  set (b0 := mkBurnSession session now (media_name m) "STAGED" (sr_staging_dir r)) in *.
  assert (burn_sessions d2 = burn_sessions d1) as Hbs by by (injection Ht).
  assert (b0 ∈ burn_sessions d2) as Hb0 by (rewrite Hbs, Hd1; cbn; set_solver).
  pose proof (abort_session_run session s1 d2 b0 Hc1 Hlatest Hb0 eq_refl) as Hrun. rewrite Hab in Hrun.
  cbv zeta in Hrun. fold lost in Hrun. destruct Hrun as [-> ->]. rewrite (without_ext _ _ d2 Hlost) in *. cbn [committed].
  set (b := mkBurnSession session now (media_name m) "CLEANED" (sr_staging_dir r)). split.
  - exists b. split_and!; [done..|]. rewrite (marked_tables _ _ _ _ Ht), Hd1. by apply marked_opened.
  - exists plans. split; [done|]. destruct Hext as [W2 Hold (vs' & Hv' & Hh) _ _ _].
    assert (vs' = vs) as ->. { rewrite Hv, Hd1 in Hv'. cbn in Hv'. by apply app_inv_head in Hv'. }
    pose proof (linked_planned m session plans d d2 lost.*1 W2 ltac:(by injection Hold) ltac:(by exists vs) Hnd
      ltac:(intros p Hp; by apply Hw in Hp as [? _])) as Hlinked.
    assert (len lost.*1 = len plans) as Hlen.
    { rewrite (Forall2_length _ _ _ Hh). assert (lost.*1 ≡ₚ volume_id <$> vs) as ->; [|by rewrite length_fmap].
      apply NoDup_Permutation; [by apply strandable_NoDup| |exact Hlost].
      pose proof (wf_volume_id _ W2) as Hn. rewrite Hv', fmap_app in Hn. by apply NoDup_app in Hn as (_ & _ & ?). }
    unfold with_labels. cbn [volumes_deleted packs_reclaimed bytes_reclaimed].
    pose proof (reclaim_counts lost.*1 d2 (concat plans.*1) Hlinked) as (-> & -> & ->). by rewrite Hlen.
Qed.

(** [abort_volume] deletes the volume of that label when it was never burned, and reports its
    packs; in every other case it raises [ValueError] and changes nothing. *)
Theorem abort_volume_spec lab (s : BurnState W) d : catalog_wf d -> conn s = mkConn d d false ->
  let '(r, s') := abort_volume lab s in
  let abortable v := v ∈ volumes d /\ label v = lab /\ status v ∈ ["STAGING"; "BURNING"] /\ has_copies d v = false in
  match r with
  | Ok summary => exists v, abortable v /\ labels summary = [lab] /\ volumes_deleted summary = 1 /\
      packs_reclaimed summary = len (linked_packs [volume_id v] d) /\
      conn s' = mkConn (without_volumes [volume_id v] d) (without_volumes [volume_id v] d) false
  | Err e => e = ValueError /\ s' = s /\ forall v, ~ abortable v
  end.
Proof.
  intros Wf Hc. unfold abort_volume.
  assert (forall A (f : Catalog -> A), catalog (query f) s = (Ok (f d), s)) as Hq.
  { intros A f. unfold catalog, query. rewrite Hc. cbn. f_equal. rewrite <- Hc. by destruct s. }
  rewrite (eff_bind_Ok _ _ s _ s) by apply Hq. unfold get_volume_by_label.
  assert (forall v, v ∈ volumes d /\ label v = lab -> fetchone (where_ (fun v => sql_eq (label v) lab) (volumes d)) = Some v) as Hfind.
  { intros v [Hv <-]. apply where_unique; [done|by apply sql_eq_true|].
    intros y Hy E%sql_eq_elim. exact (key_unique label (volumes d) y v (wf_volume_label _ Wf) Hy Hv E). }
  destruct (fetchone _) as [v|] eqn:Ef.
  2: { cbv zeta. split_and!; [done..|]. intros v (Hv & Hl & _). discriminate (Hfind v (conj Hv Hl)). }
  assert (v ∈ volumes d /\ label v = lab) as [Hv Hl].
  { unfold fetchone in Ef. destruct (where_ _ _) eqn:Ew; [done|]. injection Ef as ->.
    assert (v ∈ where_ (fun v => sql_eq (label v) lab) (volumes d)) as Hin by (rewrite Ew; by left).
    apply elem_of_where in Hin as [E%sql_eq_elim ?]. done. }
  assert (forall x, x ∈ volumes d /\ label x = lab -> x = v) as Huniq.
  { intros x Hx. specialize (Hfind x Hx). congruence. }
  destruct (sql_in (status v) ["STAGING"; "BURNING"]) eqn:Es; cbn [negb].
  2: { cbv zeta. split_and!; [done..|]. intros x (Hx & Hlx & Hsx & _). rewrite (Huniq x (conj Hx Hlx)) in Hsx.
    by apply sql_in_false in Es. }
  rewrite (eff_bind_Ok _ _ s _ s) by apply Hq. destruct (has_copies d v) eqn:Ec.
  { cbv zeta. split_and!; [done..|]. intros x (Hx & Hlx & _ & Hcx). rewrite (Huniq x (conj Hx Hlx)) in Hcx. congruence. }
  rewrite (eff_bind_Ok _ _ s _ s) by apply Hq.
  rewrite (eff_bind_Ok _ _ s tt (mkState (mkConn (without_volumes [volume_id v] d) (without_volumes [volume_id v] d) false) (world s) (receipts s))).
  2: { unfold catalog. rewrite Hc, delete_volume_run. done. }
  cbv zeta. exists v. split_and!; try done. by apply sql_in_true.
Qed.
End properties.
