(* ===== verification/StageDemo.v ===== *)
(** * A bench to stage and burn on

    A simulated staging area and drive for the theorems on staging: an image is made of the
    tree of a volume, and a fault may be raised instead; the labels in the catalogs that are
    copied to the discs are kept. *)

From S2P Require Import Prelude PyString PyText Json Effects Sqlite Catalog VolumeEvents Queries Volumes Labels Packs Locations BinPack BinPlan Escrow BurnFrame Burn BurnProps BurnSafe BurnDemo StageFrame Stage StageProps StageSafe Reclaim.
Open Scope string_scope.
Open Scope list_scope.
Open Scope Z_scope.

Record Bench := mkBench {
  images : list (string * Image); in_tray : option Image; counter : Z;
  disc_catalogs : list (string * list string); removed : list string;
}.
Definition set_images (l : list (string * Image)) (w : Bench) : Bench :=
  mkBench l (in_tray w) (counter w) (disc_catalogs w) (removed w).
Definition tick (w : Bench) : string * Bench :=
  (str_of_int (counter w), mkBench (images w) (in_tray w) (counter w + 1) (disc_catalogs w) (removed w)).
Definition of_image {A} (p : string) (f : Image -> A) : eff Bench A := fun w =>
  (match dict_get p (images w) with Some im => Ok (f im) | None => Err FileNotFoundError end, w).
Definition of_disc {A} (f : Image -> res A) : eff Bench A := fun w =>
  (match in_tray w with Some im => f im | None => Err CalledProcessError end, w).

#[export] Instance bench_machine : Machine Bench := {|
  media_status _ := mret BLANK;
  burn_iso p _ := fun w =>
    (match dict_get p (images w) with Some _ => Ok tt | None => Err FileNotFoundError end,
     mkBench (images w) (dict_get p (images w)) (counter w) (disc_catalogs w) (removed w));
  verify_disc _ := fun w => (Ok (bool_decide (is_Some (in_tray w))), w);
  read_disc_volume_id _ := of_disc (fun im => Ok (im_label im));
  device_reader _ n := of_disc (fun im => if n =? im_size im then Ok (im_hash im) else Err OSError);
  checkpoint _ := mret tt;
  eject_tray _ := mret true;
  path_exists p := gets (fun w => bool_decide (is_Some (dict_get p (images w))));
  sha256_file p := of_image p im_hash;
  file_size p := of_image p im_size;
  ensure_dir _ := mret tt;
  write_receipt _ _ := mret tt;
  utc_now w := let '(t, w) := tick w in (("t" ++ t)%string, w);
  str_exc _ := "error";
|}.

(** [fault] by the label of the volume whose image is made. *)
#[export] Instance bench_stager (fault : string -> option exn) : Stager Bench := {|
  resolve_path p := mret p;
  disk_free _ := mret 1000000000;
  generate_uuid w := let '(t, w) := tick w in (("uuid-" ++ t)%string, w);
  generate_session_id w := ("2026-01-01T10:00:00-cafe", w);
  current_year w := ("2026", w);
  check_repo_recoverable _ _ := mret tt;
  initialize_tree _ := mret tt;
  is_dir _ := mret true;
  stage_packs _ _ _ := mret tt;
  assert_staged_complete _ _ := mret tt;
  repo_markers _ mirrors _ := mret mirrors;
  inject_metadata _ _ _ _ := mret tt;
  wal_checkpoint := mret tt;
  inject_catalog root d := modify (fun w => mkBench (images w) (in_tray w) (counter w)
    (disc_catalogs w ++ [(root, label <$> volumes d)]) (removed w));
  write_document _ _ := mret tt;
  dir_size_bytes _ := mret 2000000;
  create_iso _ p lab n := match fault lab with
    | Some e => throw e
    | None => modify (fun w => set_images (dict_put p (mkImage lab ("hash of " ++ lab) n) (images w)) w)
    end;
  augment_iso _ _ := mret tt;
  write_session_manifest _ _ := mret tt;
  unlink p := modify (fun w => mkBench (images w) (in_tray w) (counter w) (disc_catalogs w) (removed w ++ [p]));
  safe_remove_tree p := modify (fun w => mkBench (images w) (in_tray w) (counter w) (disc_catalogs w) (removed w ++ [p]));
  drift_text _ := "drift";
|}.

Definition stage_config : StageConfig :=
  mkStageConfig [("home", mkRepositoryConfig "home" "/mirror" None None None None)] "/staging" "/mirrors" "Home_Shelf"
    TEST_TINY 15 "LCSAS" 100000 false 2 5 true false.
Definition bench_start (d : Catalog) : BurnState Bench := mkState (mkConn d d false) (mkBench [] None 1 [] []) [].
Abbreviation demo_stage fault :=
  (stage (H0 := bench_stager fault) stage_config None None (Some ["r1"]) None false (bench_start plan_catalog)).
Definition no_fault (_ : string) : option exn := None.
Definition second_fails (e : exn) (lab : string) : option exn :=
  if String.eqb lab "LCSAS_TEST_TINY_2026_0002" then Some e else None.

Definition volume_summary (d : Catalog) : list (string * string * list Z) :=
  (fun v => (label v, status v, get_pack_ids_for_volume (volume_id v) d)) <$> volumes d.
(** Two volumes; the catalog on each disc knows the volumes up to its own. *)
Example demo_staged :
  (demo_stage no_fault).1 = Ok (mkStageResult "2026-01-01T10:00:00-cafe" TEST_TINY "/staging/2026-01-01T10-00-00-cafe"
    [mkManifest "LCSAS_TEST_TINY_2026_0001" "uuid-2" 1 TEST_TINY
       [demo_pack 1 "aa" 1500000 false; demo_pack 4 "dd" 400000 false] 1900000
       "/staging/2026-01-01T10-00-00-cafe/LCSAS_TEST_TINY_2026_0001"
       (Some "/staging/2026-01-01T10-00-00-cafe/LCSAS_TEST_TINY_2026_0001.iso");
     mkManifest "LCSAS_TEST_TINY_2026_0002" "uuid-4" 2 TEST_TINY
       [demo_pack 2 "bb" 900000 false; demo_pack 3 "cc" 700000 false] 1600000
       "/staging/2026-01-01T10-00-00-cafe/LCSAS_TEST_TINY_2026_0002"
       (Some "/staging/2026-01-01T10-00-00-cafe/LCSAS_TEST_TINY_2026_0002.iso")]
    ["/staging/2026-01-01T10-00-00-cafe/LCSAS_TEST_TINY_2026_0001.iso";
     "/staging/2026-01-01T10-00-00-cafe/LCSAS_TEST_TINY_2026_0002.iso"]) /\
  volume_summary (committed (conn (demo_stage no_fault).2)) =
    [("LCSAS_TEST_TINY_2026_0001", "STAGING", [1; 4]); ("LCSAS_TEST_TINY_2026_0002", "STAGING", [2; 3])] /\
  snd <$> disc_catalogs (world (demo_stage no_fault).2) =
    [["LCSAS_TEST_TINY_2026_0001"]; ["LCSAS_TEST_TINY_2026_0001"; "LCSAS_TEST_TINY_2026_0002"]].
Proof. vm_compute. repeat split. Qed.
(** Ctrl-C while the second image is made: the first volume stays, of the second nothing does. *)
Example demo_interrupted :
  (demo_stage (second_fails KeyboardInterrupt)).1 = Err KeyboardInterrupt /\
  volume_summary (committed (conn (demo_stage (second_fails KeyboardInterrupt)).2)) =
    [("LCSAS_TEST_TINY_2026_0001", "STAGING", [1; 4])].
Proof. vm_compute. repeat split. Qed.
(** A second [stage] before the burn stages the same packs once more. *)
Example demo_staged_twice :
  let d := committed (conn (demo_stage no_fault).2) in
  let s := mkState (mkConn d d false) (mkBench [] None 100 [] []) [] in
  stage_plan TEST_TINY 100000 None (Some ["r1"]) None d = demo_plan /\
  get_unarchived_packs d None = get_unarchived_packs plan_catalog None.
Proof. vm_compute. repeat split. Qed.

(** A repository named twice: every pack of it is planned twice, on the same volume or not. *)
Example repeated_repository :
  match stage_plan TEST_TINY 100000 None (Some ["r1"; "r1"]) None plan_catalog with
  | Some (Ok plans) => (fun pl : VolumePlan => pack_id <$> pl.1) <$> plans
  | _ => []
  end = [[1; 4; 1; 4]; [2; 2]; [3; 3]].
Proof. vm_compute. reflexivity. Qed.

(** The burn of the session. *)
Abbreviation demo_burn s' session :=
  (burn_session burn_config session "Safe" None false true (mkState (conn s') (world s') [])).
Example demo_burned :
  match demo_stage no_fault with
  | (Ok r, s') =>
      match demo_burn s' (sr_session_id r) with
      | (Ok rs, s2) => forallb verify_passed rs && negb (sql_eq (sr_session_id r) "latest") &&
          bool_decide (get_unarchived_packs (committed (conn s2)) None = [])
      | _ => false
      end
  | _ => false
  end = true.
Proof. vm_compute. reflexivity. Qed.

(** ** Witnesses *)

Lemma demo_stageable : stageable stage_config (Some ["r1"]) plan_catalog.
Proof.
  split; [exact plan_catalog_wf|repeat constructor; vm_compute; discriminate|vm_compute; discriminate|].
  split; apply (bool_decide_unpack _); vm_compute; exact I.
Qed.
Abbreviation asked_media := (default (default_media_type stage_config) None).
Abbreviation asked_plan :=
  (stage_plan asked_media (metadata_reserve_bytes stage_config) None (Some ["r1"]) None plan_catalog).
Lemma stage_refines_witness :
  let '(r, s') := demo_stage (second_fails RuntimeError) in
  match plan_result asked_plan with
  | Err e => r = Err e /\ conn s' = conn (bench_start plan_catalog)
  | Ok plans => stage_outcome (H0 := bench_stager (second_fails RuntimeError)) stage_config asked_media plans plan_catalog r s'
  end.
Proof.
  pose proof (stage_refines (H0 := bench_stager (second_fails RuntimeError)) stage_config None None (Some ["r1"]) None
    false (bench_start plan_catalog) plan_catalog demo_stageable eq_refl) as Hr.
  destruct (stage _ _ _ _ _ _ _) as [r s']. destruct (plan_result _); exact Hr.
Defined.
Lemma stage_safe_witness :
  let d' := committed (conn (demo_stage (second_fails KeyboardInterrupt)).2) in
  catalog_wf d' /\ old_tables d' = old_tables plan_catalog /\
  volumes plan_catalog `prefix_of` volumes d' /\ volume_packs plan_catalog `prefix_of` volume_packs d' /\
  volume_events plan_catalog `prefix_of` volume_events d' /\
  (forall v, v ∈ volumes d' -> v ∈ volumes plan_catalog \/ exists plans session pl,
     asked_plan = Some (Ok plans) /\ pl ∈ plans /\ holds_plan asked_media session d' pl v) /\
  (forall p, unarchived d' p = unarchived plan_catalog p).
Proof.
  exact (stage_safe (H0 := bench_stager (second_fails KeyboardInterrupt)) stage_config None None (Some ["r1"]) None false
    (bench_start plan_catalog) plan_catalog demo_stageable eq_refl).
Defined.
Lemma stage_and_burn_archive_witness :
  match demo_stage no_fault with
  | (Ok r, s') =>
      match demo_burn s' (sr_session_id r) with
      | (Ok rs, s2) => forall p, wanted plan_catalog None (Some ["r1"]) None p ->
          unarchived (committed (conn s2)) p = false
      | _ => False
      end
  | _ => False
  end.
Proof.
  pose proof demo_burned as Hb. destruct (demo_stage no_fault) as [[r|e] s'] eqn:Es; [|discriminate].
  destruct (demo_burn s' (sr_session_id r)) as [[rs|e] s2] eqn:Eb; [|discriminate].
  apply andb_true_iff in Hb as [[Hp Hl]%andb_true_iff _].
  refine (proj1 (stage_and_burn_archive (H0 := bench_stager no_fault) stage_config None None (Some ["r1"]) None
    (bench_start plan_catalog) plan_catalog r s' burn_config "Safe" None true
    (mkState (conn s') (world s') []) rs s2 demo_stageable eq_refl Es _ eq_refl eq_refl Eb Hp)).
  intros E. rewrite E in Hl. discriminate.
Defined.

(** A session whose second volume was burned: one disc is recorded, the first volume is
    strandable. *)
Definition half_burned : Catalog :=
  mkCatalog
    [staged_volume 1 "L_BD25_2026_0001" "STAGING"; staged_volume 2 "L_BD25_2026_0002" "VERIFIED"]
    [mkPack 1 "aa" 10 "r1" false "2026-01-01"; mkPack 2 "bb" 10 "r1" false "2026-01-01"]
    [mkRepository "r1" "photos" "/mirror" "" "2026-01-01" "active"]
    [mkVolumePack 1 1; mkVolumePack 1 2; mkVolumePack 2 2] [] [mkLocation "Home" "2026-01-01" ""]
    [mkVolumeCopy 1 2 "Home" "ACTIVE" "2026-01-01" "" (Some "beef") None "" (Some 200)]
    [mkBurnSession "s1" "2026-01-01" "BD25" "PARTIAL" "/staging/s1"]
    [mkSessionVolume "s1" 1 "/staging/s1/1.iso" (Some "cafe") (Some 100);
     mkSessionVolume "s1" 2 "/staging/s1/2.iso" (Some "beef") (Some 200)]
    [] 2 2 1 0 (Some []).
Lemma half_burned_wf : catalog_wf half_burned.
Proof. constructor; try constructor; apply (bool_decide_unpack _); vm_compute; exact I. Qed.
Example demo_clean_refused :
  (clean_session (W := Bench) (H0 := bench_stager no_fault) "latest" false (bench_start half_burned)).1 = Err ValueError.
Proof. vm_compute. reflexivity. Qed.
(** The abort reports two packs as returned to the pool; one of them never left it, the other
    is archived on the second volume and stays so. *)
Example demo_abort :
  let '(r, s') := abort_session (W := Bench) (H0 := bench_stager no_fault) "latest" (bench_start half_burned) in
  r = Ok (mkAbortSummary 1 2 20 ["L_BD25_2026_0001"]) /\
  volume_id <$> volumes (committed (conn s')) = [2] /\ volume_copies (committed (conn s')) = volume_copies half_burned /\
  get_unarchived_packs (committed (conn s')) None = get_unarchived_packs half_burned None /\
  (fun p => sha256 p) <$> get_unarchived_packs half_burned None = ["aa"].
Proof. vm_compute. repeat split. Qed.
Lemma clean_session_safe_witness :
  let '(r, s') := clean_session (W := Bench) (H0 := bench_stager no_fault) "latest" true (bench_start half_burned) in
  match resolve_session_id "latest" (mkConn half_burned half_burned false) with
  | (Err e, _) => r = Err e /\ s' = bench_start half_burned
  | (Ok session, _) =>
      cleaned true session half_burned (committed (conn s')) /\
      (true = false -> forall v sv, v ∈ volumes half_burned -> unburned half_burned v = true ->
         sv ∈ get_session_volumes session half_burned ->
         sv_volume_id sv = volume_id v -> r = Err ValueError /\ s' = bench_start half_burned)
  end.
Proof.
  pose proof (clean_session_safe (H0 := bench_stager no_fault) "latest" true (bench_start half_burned) half_burned
    half_burned_wf eq_refl) as Hc.
  destruct (clean_session _ _ _) as [r s']. destruct (resolve_session_id _ _) as [[session|e] c]; exact Hc.
Defined.

Abbreviation demo_abort_staged s' session := (abort_session (H0 := bench_stager no_fault) session s').
Example demo_staged_aborted :
  match demo_stage no_fault with
  | (Ok r, s') =>
      match demo_abort_staged s' (sr_session_id r) with
      | (Ok summary, s2) => negb (sql_eq (sr_session_id r) "latest") && bool_decide (packs_reclaimed summary = 4) &&
          bool_decide (volumes (committed (conn s2)) = [])
      | _ => false
      end
  | _ => false
  end = true.
Proof. vm_compute. reflexivity. Qed.
Lemma abort_undoes_stage_witness :
  match demo_stage no_fault with
  | (Ok r, s') =>
      match demo_abort_staged s' (sr_session_id r) with
      | (Ok summary, s2) =>
          exists b, session_id b = sr_session_id r /\ bs_status b = "CLEANED" /\
            tables (committed (conn s2)) = tables (set_sessions plan_catalog (burn_sessions plan_catalog ++ [b]))
      | _ => False
      end
  | _ => False
  end.
Proof.
  pose proof demo_staged_aborted as Hb. destruct (demo_stage no_fault) as [[r|e] s'] eqn:Es; [|discriminate].
  destruct (demo_abort_staged s' (sr_session_id r)) as [[summary|e] s2] eqn:Eb; [|discriminate].
  apply andb_true_iff in Hb as [[Hl _]%andb_true_iff _].
  refine (proj1 (abort_undoes_stage (H0 := bench_stager no_fault) stage_config None None (Some ["r1"]) None
    (bench_start plan_catalog) plan_catalog r s' s' summary s2 demo_stageable eq_refl Es _ eq_refl Eb)).
  intros E. rewrite E in Hl. discriminate.
Defined.
