(* ===== verification/CatalogOps.v ===== *)
(** * The catalog under any sequence of operations

    Every operation of the [db] modules and of the merger that writes, as one data type, and its
    execution; what holds of every catalog such operations can produce. *)

From S2P Require Import Prelude Sqlite Catalog VolumeEvents Queries Volumes VolumeCopies Packs Locations Merger Escrow.
Open Scope string_scope.
Open Scope list_scope.
Open Scope Z_scope.

(** The writing operations, with their arguments (and the clock). *)
Inductive op :=
  | CreateVolume (lab uid media : string) (capacity : Z) (loc st now : string) (commit : bool)
  | UpdateStatus (i : Z) (st now : string) (commit force : bool)
  | MarkClosed (i : Z) (now : string) (commit : bool)
  | UpdateUsedBytes (i used : Z) (commit : bool)
  | DeleteVolume (i : Z)
  | LinkPack (v p : Z)
  | BulkLinkPacks (v : Z) (ps : list Z) (commit : bool)
  | UnlinkPack (v p : Z)
  | RegisterPack (sha : string) (size : Z) (repo now : string)
  | MarkPruned (i : Z)
  | UnmarkPruned (i : Z)
  | BulkMarkPruned (l : list Z)
  | BulkRegister (now : string) (ps : list (string * Z * string))
  | RegisterNewPacks (scan : list (string * Z)) (repo : option string) (now : string)
  | RegisterRepo (r nm path key now : string)
  | SetRepoStatus (r st : string)
  | DeleteRepo (r : string)
  | AddVolumeCopy (v : Z) (loc : string) (date : option string) (note : string)
      (sha : option string) (size : option Z) (verified : option string) (serial now : string)
      (commit : bool)
  | MoveVolumeCopy (v : Z) (from to now : string)
  | TouchLastVerified (v : Z) (loc now : string) (commit : bool)
  | DeprecateCopy (v : Z) (loc now : string)
  | DestroyCopy (v : Z) (loc : string) (lost : bool) (now : string)
  | AddEvent (v : Z) (ty : string) (loc : option string) (det : string) (date : option string)
      (now : string) (commit : bool)
  | CreateLocation (l desc now : string)
  | EnsureLocation (l desc now : string) (commit : bool)
  | ResolveLocation (l : string) (create : bool) (desc now : string)
  | DeleteLocation (l : string)
  | RenameLocation (old new now : string)
  | CreateSession (media dir : string) (sid : option string) (generated now : string)
      (commit : bool)
  | UpdateSessionStatus (s st : string)
  | AddSessionVolume (s : string) (v : Z) (path : string) (sha : option string)
      (size : option Z) (commit : bool)
  | UpdateSessionVolumeIso (s : string) (v : Z) (path sha : string) (size : option Z)
  | UpdateIsoSha256 (s : string) (v : Z) (sha : string)
  | DeleteSession (s : string)
  | DeprecateSources (ids : list Z) (now : string)
  | MarkSourcesConsolidating (ids : list Z) (now : string)
  | AbortConsolidation (ids : list Z) (now : string)
  | UpsertSnapshot (sid repo host time ps tgs desc : string) (commit : bool)
  | BulkUpsertSnapshots (l : list Snapshot) (commit : bool)
  | DeleteSnapshotsForRepo (r : string)
  | DeleteBlankSnapshots
  | RecordSplit (r : string) (k n i : Z) (at_ : option string) (now : string) (commit : bool)
  | ClearSplit (r : string) (commit : bool)
  | Commit
  | Rollback.

Section ops.
Variable json_dumps : string -> string -> string.

(** The operation, its result forgotten. *)
Definition forget {A} (m : dbc A) : dbc unit := _ ← m; mret tt.
Definition run_op (o : op) : dbc unit :=
  match o with
  | CreateVolume lab uid media cap loc st now cm =>
      forget (create_volume lab uid media cap loc st now cm)
  | UpdateStatus i st now cm force => update_status i st now cm force
  | MarkClosed i now cm => mark_closed i now cm
  | UpdateUsedBytes i used cm => update_used_bytes i used cm
  | DeleteVolume i => delete_volume i
  | LinkPack v p => link_pack_to_volume v p
  | BulkLinkPacks v ps cm => bulk_link_packs v ps cm
  | UnlinkPack v p => unlink_pack_from_volume v p
  | RegisterPack sha size repo now => forget (register_pack sha size repo now)
  | MarkPruned i => mark_pruned i
  | UnmarkPruned i => unmark_pruned i
  | BulkMarkPruned l => forget (bulk_mark_pruned l)
  | BulkRegister now ps => forget (bulk_register now ps)
  | RegisterNewPacks scan repo now => forget (register_new_packs scan repo now)
  | RegisterRepo r nm path key now => forget (register_repo r nm path key now)
  | SetRepoStatus r st => forget (set_repo_status r st)
  | DeleteRepo r => delete_repo r
  | AddVolumeCopy v loc date note sha size ver ser now cm =>
      forget (add_volume_copy v loc date note sha size ver ser now cm)
  | MoveVolumeCopy v from to now => move_volume_copy json_dumps v from to now
  | TouchLastVerified v loc now cm => forget (touch_last_verified v loc now cm)
  | DeprecateCopy v loc now => forget (deprecate_copy v loc now)
  | DestroyCopy v loc lost now => forget (destroy_copy v loc lost now)
  | AddEvent v ty loc det date now cm => forget (add_event v ty loc det date now cm)
  | CreateLocation l desc now => forget (create_location l desc now)
  | EnsureLocation l desc now cm => forget (ensure_location l desc now cm)
  | ResolveLocation l cr desc now => forget (resolve_location l cr desc now)
  | DeleteLocation l => delete_location l
  | RenameLocation old new now => forget (rename_location old new now)
  | CreateSession media dir sid gen now cm => forget (create_session media dir sid gen now cm)
  | UpdateSessionStatus s st => update_session_status s st
  | AddSessionVolume s v path sha size cm => forget (add_session_volume s v path sha size cm)
  | UpdateSessionVolumeIso s v path sha size => update_session_volume_iso s v path sha size
  | UpdateIsoSha256 s v sha => update_iso_sha256 s v sha
  | DeleteSession s => delete_session s
  | DeprecateSources ids now => deprecate_sources ids now
  | MarkSourcesConsolidating ids now => mark_sources_consolidating ids now
  | AbortConsolidation ids now => abort_consolidation ids now
  | UpsertSnapshot sid r host time ps tgs desc cm => forget (upsert_snapshot sid r host time ps tgs desc cm)
  | BulkUpsertSnapshots l cm => forget (bulk_upsert_snapshots l cm)
  | DeleteSnapshotsForRepo r => forget (delete_snapshots_for_repo r)
  | DeleteBlankSnapshots => forget delete_blank_snapshots
  | RecordSplit r k n i t now cm => forget (record_split r k n i t now cm)
  | ClearSplit r cm => clear_split r cm
  | Commit => commit
  | Rollback => rollback
  end.

(** One step of a client: an operation that returns or raises; and what any
    sequence of steps from an empty catalog can reach. *)
Inductive step : Conn Catalog -> Conn Catalog -> Prop :=
  | step_op (o : op) (c : Conn Catalog) : step c (run_op o c).2.
Inductive reachable : Conn Catalog -> Prop :=
  | reachable_empty : reachable (mkConn empty_catalog empty_catalog false)
  | reachable_step (c c' : Conn Catalog) : reachable c -> step c c' -> reachable c'.

Lemma keeps_forget {A} I (m : dbc A) : keeps I m -> keeps I (forget m).
Proof using. intros. unfold forget. apply keeps_bind; [done|]. intros. apply keeps_ret. Qed.

Lemma keeps_run_op o : keeps catalog_wf (run_op o).
Proof using.
  destruct o; cbn [run_op]; try apply keeps_forget.
  - apply keeps_create_volume.
  - apply keeps_update_status.
  - apply keeps_mark_closed.
  - apply keeps_update_used_bytes.
  - apply keeps_delete_volume.
  - apply keeps_link.
  - apply keeps_bulk_link.
  - apply keeps_unlink.
  - apply keeps_register_pack.
  - apply keeps_mark_pruned.
  - apply keeps_unmark_pruned.
  - apply keeps_bulk_mark_pruned.
  - apply keeps_bulk_register.
  - apply keeps_register_new_packs.
  - apply keeps_register_repo.
  - apply keeps_set_repo_status.
  - apply keeps_delete_repo.
  - apply keeps_add_volume_copy.
  - apply keeps_move.
  - apply keeps_touch.
  - apply keeps_deprecate_copy.
  - apply keeps_destroy_copy.
  - apply keeps_add_event.
  - apply keeps_create_location.
  - apply keeps_ensure_location.
  - apply keeps_resolve_location.
  - apply keeps_delete_location.
  - apply keeps_rename_location.
  - apply keeps_create_session.
  - apply keeps_update_session_status.
  - apply keeps_add_session_volume.
  - apply keeps_update_session_volume_iso.
  - apply keeps_update_iso_sha256.
  - apply keeps_delete_session.
  - apply keeps_deprecate_sources.
  - apply keeps_mark_sources.
  - apply keeps_abort_consolidation.
  - apply keeps_upsert_snapshot.
  - apply keeps_bulk_upsert_snapshots.
  - apply keeps_delete_snapshots_for_repo.
  - apply keeps_delete_blank_snapshots.
  - apply keeps_record_split.
  - apply keeps_clear_split.
  - apply keeps_commit.
  - apply keeps_rollback.
Qed.
End ops.

(** ** Properties *)

(** Whatever sequence of writing operations runs on a fresh catalog,
    whether each returns or raises and wherever the sequence stops, both the
    committed catalog and the one the connection sees satisfy every
    constraint of the schema: unique keys and labels, legal statuses and event
    types, and no reference to a missing volume, pack, location, session or
    repository. *)
Theorem reachable_wf json_dumps c :
  reachable json_dumps c -> catalog_wf (committed c) /\ catalog_wf (current c).
Proof.
  induction 1 as [|c c' _ [IH1 IH2] Hs]; [split; apply empty_catalog_wf|].
  inv Hs. by apply keeps_run_op.
Qed.

(** A small archive: one repository, two packs, a volume burned and verified,
    its only disc then destroyed. *)
Definition demo_json (from to : string) : string := (from ++ " to " ++ to)%string.
Definition demo_ops : list op :=
  [ RegisterRepo "r1" "photos" "/mirror" "" "2026-01-01";
    CreateLocation "Home" "" "2026-01-01";
    BulkRegister "2026-01-02" [("aa", 10, "r1"); ("bb", 20, "r1")];
    CreateVolume "V1" "u1" "BD25" 1000 "Home" "STAGING" "2026-01-03" true;
    BulkLinkPacks 1 [1; 2] true;
    UpdateStatus 1 "BURNING" "2026-01-04" true false;
    AddVolumeCopy 1 "Home" None "" (Some "cafe") (Some 999) None "S1" "2026-01-04" true;
    UpdateStatus 1 "VERIFIED" "2026-01-05" true false;
    DestroyCopy 1 "Home" true "2026-02-01" ].
Definition run_ops (json : string -> string -> string) (ops : list op) : Conn Catalog :=
  foldl (fun c o => (run_op json o c).2) (mkConn empty_catalog empty_catalog false) ops.

Lemma run_ops_reachable json ops : reachable json (run_ops json ops).
Proof.
  unfold run_ops. assert (reachable json (mkConn empty_catalog empty_catalog false)) as H
    by constructor.
  revert H. generalize (mkConn empty_catalog empty_catalog false).
  induction ops as [|o ops IH]; intros c Hc; [done|]. cbn. apply IH.
  eapply reachable_step; [done|constructor].
Qed.

Lemma reachable_wf_witness :
  catalog_wf (committed (run_ops demo_json demo_ops)) /\
  catalog_wf (current (run_ops demo_json demo_ops)).
Proof. apply (reachable_wf demo_json). apply run_ops_reachable. Defined.

Example demo_run_status :
  (fun v => (label v, status v)) <$> volumes (committed (run_ops demo_json demo_ops))
  = [("V1", "DEPRECATED")].
Proof. vm_compute. reflexivity. Qed.
Example demo_run_lost : get_lost_volume_ids (committed (run_ops demo_json demo_ops)) = [1].
Proof. vm_compute. reflexivity. Qed.
